(* ===== verification/_CoqProject ===== *)
-Q . S2P
Prelude.v
Bytes.v
Instruction.v
BasicBlocks.v
LLVMInt.v
Arith128.v
EvmAbi.v
GasSchedule.v
Keccak.v
Runtime.v
IR.v
Builder.v
Codegen.v
Compiler.v
Machine.v
Denote.v
Frames.v
Heights.v
Sim.v
NullHost.v
SimStack.v
SimRuntime.v
SimCopy.v
SimHost.v
SimCall.v
SimArith.v
SimInst.v
Charge.v
CostBlocks.v
Finalize.v
SimBlock.v
Program.v
Interp.v
SimProgram.v
Correctness.v
Cache.v
HostInv.v
JIT.v
JavaData.v
SideEffects.v
ExecutionContext.v
Jni.v
JniHost.v
Callback.v
AsmItem.v
AsmTable.v
Assembly.v
AsmLayout.v
AsmRun.v
Peephole.v
Transaction.v
Text.v
Utf8.v
Hex.v
SolidityType.v
AbiCodec.v
Abi.v
JavaInst.v
System.v
DevUtf8.v
SolTypes.v
SolStorage.v
SolCode.v
SolLValue.v
SolArray.v
SimplRules.v
ExprClasses.v
GasMeter.v
ConstOpt.v
Linearize.v
Token.v
Scanner.v
ScanText.v
SemVer.v
