(* ===== verification/Prelude.v ===== *)
(** * Verification of the Aion FastVM

    The repository holds fastvm, a just-in-time compiler for EVM contract code
    (src/fastvm), its Java front end (src/modFastVM), and a copy of the Solidity
    compiler (src/solidity).  This library models libevmjit, the compiler and
    the runtime of fastvm, the JNI library around it, the Java side up to whole
    transactions and the contract interface, and of the Solidity compiler the
    assembler with its instruction table, linker, peephole and constant
    optimisers and simplification rules, the scanner, version pragmas, the
    linearisation of base contracts, the types with their storage layout, and
    the code generated for values and for variables in storage, and proves them
    correct.

    ** The program

    libevmjit translates contract code to LLVM IR.  [Compiler::createBasicBlocks]
    splits the code; [Compiler::compileBasicBlock] walks over a block and keeps
    the stack at compile time ([LocalStack]), adds up static costs
    ([GasMeter]) and emits memory accesses ([Memory]), accesses to the message
    ([RuntimeManager]), calls into the host ([Ext]) and arithmetic
    ([Arith128]); [Compiler::resolveJumps] connects the blocks.  Words have 128
    bits and addresses and hashes take two stack items.  [LowerEVMPass] replaces
    divisions by calls of emitted functions.  Compiled code runs on a
    [RuntimeData], a stack, a memory array and the host's function table
    (evm.h), and [call_v2] carries its messages.  JIT.cpp keeps compiled code in
    a map, compiles on demand and executes messages; Cache.cpp keeps objects on
    disk.  The JNI library parses the contexts that Java sends, executes them
    and answers the calls of running code by calling Callback.java, which runs
    nested calls and creations through the same path.  FastVirtualMachine.java
    executes transactions: it rejects, charges the fee, runs a creation or a
    call in a world state of its own and commits.  org.aion.solidity encodes the
    arguments of calls and decodes calls and events.  libevmasm turns items
    (instructions, constants, tags, data, sub-assemblies) into byte code.  The
    items come from libsolidity: [Type] and its classes know values, conversions
    and sizes, [StorageOffsets] places variables in slots of 16 bytes,
    [CompilerUtils] emits the code for conversions and shifts, and [StorageItem]
    and [ArrayUtils] that for variables and array elements in storage.  Before
    that, [Scanner] cuts the source into tokens, [Parser] and [SyntaxChecker]
    compare the version a pragma asks for with the compiler's, and
    [NameAndTypeResolver] orders the bases of a contract.

    ** The files

    - Prelude: machine words ([wrap], [sgn], [inw]), tactics, generic lemmas.
    - Bytes: byte strings and byte order (Endianness.cpp).
    - Instruction, BasicBlocks: opcodes, push data, block splitting
      (Instruction.h, Instruction.cpp, Compiler::createBasicBlocks).
    - LLVMInt: the integer operations of LLVM IR with their undefined results.
    - Arith128: the emitted division and power functions, LowerEVMPass
      (Arith128.cpp, Optimizer.cpp).
    - EvmAbi, GasSchedule: messages, results, the host table and what the
      program relies on of it (evm.h); the schedule and [getStepCost].
    - Keccak: the hash function (Utils.cpp) and the reference sponge.
    - Runtime: the functions compiled code calls: gas.check, stack.prepare,
      mem.require, mload and mstore, the call wrapper and [call_v2].
    - IR: values, instructions and their execution; Builder: the generator's
      state and the log of what it emits, including the later changes to
      gas.check and stack.prepare calls; Codegen: LocalStack, RuntimeManager,
      GasMeter, Memory and Ext; Compiler: one definition per case of the
      switch, the loop over a block; Program: compile, the jump table,
      resolveJumps and running the main function.
    - Machine, Interp: the reference machine, an interpreter of single
      instructions on mathematical integers and byte lists, and whole runs.
    - Denote, Frames, Heights, Sim, SimStack, SimRuntime, SimCopy, SimHost,
      SimCall, SimArith, SimInst: simulation of the machine by emitted code,
      operation by operation; NullHost: a concrete host for the examples.
    - Charge, CostBlocks, Finalize, SimBlock, SimProgram: cost blocks, the
      stores at the end of a block, whole blocks and whole programs.
    - Correctness: the theorems on the parts of the generator.
    - HostInv: runs change the host only through its table.
    - Cache, JIT: the object cache with its mutex (Cache.cpp); the code map,
      compilation on demand, execution and options (JIT.cpp).
    - JavaData, SideEffects, ExecutionContext: data words, result codes,
      results, side effects and contexts of the Java side with their encodings.
    - Jni, JniHost: the codecs, the function table and [run] of the JNI library
      (org_aion_fastvm_FastVM.cpp), FastVM.java.
    - Callback: Callback.java, over an abstract world state
      (IExternalStateForFvm); Transaction: FastVirtualMachine.java and its
      helpers.
    - AsmItem: libevmasm's instruction table, assembly items and what
      SemanticInformation.cpp knows of them; AsmTable: the table against the
      machine.
    - Assembly: Assembly.cpp, building and assembling, LinkerObject.cpp;
      AsmLayout, AsmRun: the layout of assembled code, and running it.
    - Peephole: PeepholeOptimiser.cpp.
    - Text, Utf8, Hex: Java strings, UTF-8, HexEncoder.java and HexUtil.java.
    - SolidityType, AbiCodec, Abi: SolidityType.java with ByteUtil.java, its
      round trip, and Param, Entry, Function, Event and Abi of the contract
      interface.
    - JavaInst: Instruction.java and Decompiler.java.
    - System: the parts put together, from FastVM.java's native method over the
      JNI library, compiled code and callbacks to nested calls of any depth.
    - DevUtf8: the validation of UTF-8 in libdevcore (UTF8.cpp).
    - SolTypes, SolStorage: types, literals and implicit conversions; sizes and
      [computeOffsets] (Types.h, Types.cpp).
    - SolCode: stack moves, shifts and [convertType] for values
      (CompilerUtils.cpp), with an evaluator of straight code that is sound for
      the reference machine; SolLValue: [StorageItem] (LValue.cpp); SolArray:
      [StorageByteArrayElement], [accessIndex] and [incrementByteOffset]
      (LValue.cpp, ArrayUtils.cpp).
    - SimplRules, ExprClasses: patterns and rules (SimplificationRules.cpp), and
      the classes of equal expressions that they simplify
      (ExpressionClasses.cpp).
    - GasMeter, ConstOpt: the cost of instructions as libevmasm knows it, and
      the three ways of producing a constant (ConstantOptimiser.cpp).
    - Linearize: [cThreeMerge] and [linearizeBaseContracts]
      (NameAndTypeResolver.cpp).
    - Token, Scanner: the tokens (Token.h, Token.cpp) and the scanner
      (Scanner.cpp); ScanText: writing lexemes down and scanning them again.
    - SemVer: version numbers and expressions (SemVerHandler.cpp), the pragma
      directive in Parser.cpp and SyntaxChecker.cpp.

    ** Modelling

    Integers of n bits are [Z] with explicit wrap-around; an LLVM operation
    whose result is poison or undefined yields [None], and using it where a
    value is needed is [Undef], kept apart from [Abort], the jump to the abort
    handler.  LLVM's IR builder may fold instructions; the class [LLVMFolder]
    states what the generator relies on, and [no_fold] and [const_fold] are two
    instances.  The host is a parameter ([evm_context_fn_table]) whose
    documented behaviour is [host_ok]; JniHost discharges it for the JNI
    library from what the Java side promises.  LLVM's passes and machine code
    are the class [Engine], with [engine_ok] what the program relies on.
    Executions of the instance return, hang on a mutex, are undefined or run
    out of fuel ([outcome]).  The contexts and world states of the Java side are
    objects that the stack and the methods share: they lie in two stores and are
    referred to by index ([jvm]).  A method is a function on the stores, the
    stack and the state of the native library that returns or throws, and what
    it changed before it threw stays; a transaction also carries the installed
    capabilities.  A child world state is a value computed from its parent and
    becomes part of it by [commit].  The native library is one instance of the
    JIT for all nested executions; where a callback throws, the exception stays
    pending while native code goes on with an arbitrary answer, as the JNI
    leaves it undefined.  The assembler works in an error monad.  The optimiser's loop
    has fuel, and the theorem shows that it ends.  The generator is a state monad that
    logs what it emits.  Loops have fuel: the division loop runs at most as
    many rounds as the word has bits, the power loop 129, block splitting and
    block compilation one round per byte; the theorems show that this fuel is
    enough.  The Solidity code generator is a function from the next free tag to
    items, which fails where an assertion does; its code and optimised code run
    on the reference machine as items, with gas, and 20000 gas for each item, the
    price of the dearest one, is enough for the code of Solidity; the host's
    storage gives back the words it was given ([storage_ok]).  Runs of compiled
    code take as much fuel as the theorem provides; gas bounds it.  The scanner
    and the parser of versions take one round of fuel per byte and fail only
    when it is used up; [tokens_total] and [pragma_correct] show that it is
    enough.  boost::lexical_cast is the class [LexicalCast].

    ** The theorems

    [compile_correct]: every code compiles, the reference machine always halts,
    and the compiled program terminates with the machine's result, for every
    host as documented, unless the machine leaves the outcome open (a zero
    modulus in ADDMOD and MULMOD, the overflowing signed division, a
    RETURNDATACOPY past the buffer, and offsets beyond the counted range once
    the memory itself has reached it; on the first two the emitted code is
    shown to be undefined).  [execute_correct] carries this through the code map
    and compilation on demand, [fastvm_run_correct] through the JNI library to
    what Java sees.  Below them: single instructions, blocks, cost blocks, the
    jump table, memory, stack and gas checks, the call wrapper, arithmetic,
    hashing, block splitting and push data.  Both are about an instance with
    the object cache off; [java_callback_ok] shows that the methods of
    Callback.java answer as [fastvm_run_correct] wants, where the world state
    answers with values of the right sizes.  Around them: nested calls are
    atomic ([nested_call_atomic]), what one side of the JNI boundary encodes
    the other decodes, code identifiers and cached objects are not mixed up.
    [transaction_correct]: what a transaction does on every branch;
    [system_keeps_money]: no transaction makes money, compiled code and nested
    calls included.  The last two rely on a world state that keeps its books
    ([ledger_ok], [balances_ok]) and on precompiled contracts that make no
    money; a map of balances is an instance.
    [table_effects], [eachInstruction_machine]: the Solidity compiler's view of
    instructions and of code is the machine's.
    [assembled_run], [tag_jump]: the machine runs assembled code as its items
    say.  [peephole_correct]: optimised items do what the items did.
    [computed_constant_correct]: a constant is computed by the code found for
    it; [find_correct]: simplified expressions keep their value in 256-bit
    arithmetic, the one the rules are written for.
    [linearizeBaseContracts_correct]: the linearisation is found exactly if there
    is one; [scan_written]: what is written as tokens is scanned as these
    tokens; [pragma_correct]: a caret in a pragma accepts exactly the compatible
    versions.
    [function_roundtrip]: the arguments of a call survive encoding.
    [storage_disjoint]: no byte of storage belongs to two variables;
    [assignment_correct], [deletion_correct]: the code for assigning and deleting
    a variable, at its place, changes it as it should and no other;
    [array_assignment_correct]: arrays in storage work as arrays.
    [implicit_conversion_exact]: a number converts implicitly exactly where no
    value is lost; [integer_conversion_correct], [shift2_correct]: the code for
    conversions and shifts.  [validateUTF8_exact]: exactly UTF-8 passes.  Some
    theorems show defects: deadlocks and stale objects of the cache, a message
    that is not restored, a gas price that is not parsed, capabilities that an
    exception leaves installed, frames that an exception leaves on the callback
    stack, constants of two words that the peephole rules take for one or that
    code copying reads in half, unsigned numbers decoded as signed ones, elements of nested
    arrays that overlap, external functions and wide signed integers that storage
    does not give back, the sign of widened integers.

    ** Not modelled

    LLVM itself (types, pass pipelines, machine code), execution statistics,
    the JSON form of contract interfaces and the driver of the solc executable,
    and of the Solidity compiler the parser other than pragmas, the resolution
    of names, the type checker, operators and explicit conversions of types,
    tuples, the code for memory, call data, copies of arrays and structs,
    statements, expressions and contracts, and the data-flow optimisers
    (CommonSubexpressionEliminator, ControlFlowGraph, KnownState,
    BlockDeduplicator, the path gas meter). *)
From Stdlib Require Export ZArith Lia.
From stdpp Require Export base list numbers option.
Export list_basics.list.
#[global] Open Scope Z_scope.

(** ** Automation *)

Create HintDb fastvm.

(** Case analysis on a boolean comparison of the goal or of a hypothesis,
    turning it into the proposition it decides. *)
Ltac bool_case :=
  match goal with
  | |- context [Z.eqb ?a ?b] => destruct (Z.eqb_spec a b)
  | |- context [Z.ltb ?a ?b] => destruct (Z.ltb_spec a b)
  | |- context [Z.leb ?a ?b] => destruct (Z.leb_spec a b)
  | |- context [Nat.eqb ?a ?b] => destruct (Nat.eqb_spec a b)
  | |- context [Nat.ltb ?a ?b] => destruct (Nat.ltb_spec a b)
  | |- context [Nat.leb ?a ?b] => destruct (Nat.leb_spec a b)
  | H : context [Z.eqb ?a ?b] |- _ => destruct (Z.eqb_spec a b)
  | H : context [Z.ltb ?a ?b] |- _ => destruct (Z.ltb_spec a b)
  | H : context [Z.leb ?a ?b] |- _ => destruct (Z.leb_spec a b)
  | H : context [Nat.ltb ?a ?b] |- _ => destruct (Nat.ltb_spec a b)
  | H : context [Nat.leb ?a ?b] |- _ => destruct (Nat.leb_spec a b)
  end.

Ltac bool_cases := repeat (bool_case; simpl in *; try lia; try congruence).

(** ** Integers *)

(** The value of the low [w] bits: what a [w]-bit register keeps. *)
Definition wrap (w z : Z) : Z := z mod 2 ^ w.

(** A [w]-bit unsigned value. *)
Definition inw (w z : Z) : Prop := 0 <= z < 2 ^ w.

(** The two's complement reading of a [w]-bit value. *)
Definition sgn (w z : Z) : Z := if z <? 2 ^ (w - 1) then z else z - 2 ^ w.

#[global] Instance inw_dec w z : Decision (inw w z).
Proof. unfold inw. apply _. Defined.

Lemma pow2_pos w : 0 <= w -> 0 < 2 ^ w.
Proof. intros. apply Z.pow_pos_nonneg; lia. Qed.

Lemma pow2_half w : 0 < w -> 2 ^ w = 2 * 2 ^ (w - 1).
Proof. intros. rewrite <- Z.pow_succ_r by lia. f_equal. lia. Qed.

Lemma wrap_inw w z : 0 <= w -> inw w (wrap w z).
Proof. intros Hw. apply Z.mod_pos_bound, pow2_pos; lia. Qed.

Lemma wrap_small w z : inw w z -> wrap w z = z.
Proof. apply Z.mod_small. Qed.

Lemma wrap_wrap w z : 0 <= w -> wrap w (wrap w z) = wrap w z.
Proof. intros. apply wrap_small, wrap_inw; lia. Qed.

Lemma wrap_neg w z : 0 < z <= 2 ^ w -> wrap w (- z) = 2 ^ w - z.
Proof.
  intros. unfold wrap. rewrite <- (Z.mod_add _ 1) by lia.
  rewrite Z.mod_small; lia.
Qed.

Lemma wrap_add_l w a b : 0 <= w -> wrap w (wrap w a + b) = wrap w (a + b).
Proof. intros. unfold wrap. pose proof (pow2_pos w). apply Z.add_mod_idemp_l; lia. Qed.

Lemma wrap_add_r w a b : 0 <= w -> wrap w (a + wrap w b) = wrap w (a + b).
Proof. intros. rewrite Z.add_comm, wrap_add_l, Z.add_comm by lia. done. Qed.

Lemma wrap_mul_l w a b : 0 <= w -> wrap w (wrap w a * b) = wrap w (a * b).
Proof. intros. unfold wrap. pose proof (pow2_pos w). apply Z.mul_mod_idemp_l; lia. Qed.

Lemma wrap_mul_r w a b : 0 <= w -> wrap w (a * wrap w b) = wrap w (a * b).
Proof. intros. unfold wrap. pose proof (pow2_pos w). apply Z.mul_mod_idemp_r; lia. Qed.

Lemma sgn_range w z : 0 < w -> inw w z -> - 2 ^ (w - 1) <= sgn w z < 2 ^ (w - 1).
Proof.
  intros Hw [H1 H2]. unfold sgn. pose proof (pow2_half w Hw).
  destruct (Z.ltb_spec z (2 ^ (w - 1))); lia.
Qed.

Lemma wrap_sgn w z : 0 < w -> inw w z -> wrap w (sgn w z) = z.
Proof.
  intros Hw [H1 H2]. unfold sgn, wrap. pose proof (pow2_half w Hw).
  destruct (Z.ltb_spec z (2 ^ (w - 1))).
  - apply Z.mod_small; lia.
  - rewrite <- (Z.mod_add _ 1) by lia. rewrite Z.mod_small; lia.
Qed.

Lemma sgn_wrap w z :
  0 < w -> - 2 ^ (w - 1) <= z < 2 ^ (w - 1) -> sgn w (wrap w z) = z.
Proof.
  intros Hw Hz. pose proof (pow2_half w Hw) as Hp. unfold sgn, wrap.
  destruct (decide (0 <= z)).
  - rewrite Z.mod_small by lia. destruct (Z.ltb_spec z (2 ^ (w - 1))); lia.
  - replace (z mod 2 ^ w) with (z + 2 ^ w).
    + destruct (Z.ltb_spec (z + 2 ^ w) (2 ^ (w - 1))); lia.
    + rewrite <- (Z.mod_add z 1) by lia. rewrite Z.mod_small; lia.
Qed.

Lemma sgn_small w z : z < 2 ^ (w - 1) -> sgn w z = z.
Proof. intros. unfold sgn. destruct (Z.ltb_spec z (2 ^ (w - 1))); lia. Qed.

Lemma inw_mono w w' z : 0 <= w <= w' -> inw w z -> inw w' z.
Proof.
  intros Hw [H1 H2]. split; [lia |]. pose proof (Z.pow_le_mono_r 2 w w'). lia.
Qed.

Lemma inw_testbit w z i : inw w z -> 0 <= w <= i -> Z.testbit z i = false.
Proof.
  intros [H1 H2] Hi. destruct (decide (z = 0)) as [-> |]; [apply Z.testbit_0_l |].
  apply Z.bits_above_log2; [lia |]. apply Z.log2_lt_pow2; [lia |].
  pose proof (Z.pow_le_mono_r 2 w i). lia.
Qed.

Lemma testbit_inw w z :
  0 <= w -> 0 <= z -> (forall i, w <= i -> Z.testbit z i = false) -> inw w z.
Proof.
  intros Hw Hz Hb. split; [lia |].
  destruct (decide (z = 0)) as [-> |]; [apply pow2_pos; lia |].
  apply Z.log2_lt_pow2; [lia |].
  destruct (decide (w <= Z.log2 z)); [| lia].
  specialize (Hb (Z.log2 z) ltac:(lia)). rewrite Z.bit_log2 in Hb by lia. done.
Qed.

Lemma wrap_testbit w z i : 0 <= w -> 0 <= i ->
  Z.testbit (wrap w z) i = (i <? w) && Z.testbit z i.
Proof.
  intros Hw Hi. unfold wrap. destruct (Z.ltb_spec i w).
  - by rewrite Z.mod_pow2_bits_low by lia.
  - by rewrite Z.mod_pow2_bits_high by lia.
Qed.

Lemma lor_inw w a b : 0 <= w -> inw w a -> inw w b -> inw w (Z.lor a b).
Proof.
  intros Hw Ha Hb. apply testbit_inw; [lia | apply Z.lor_nonneg; unfold inw in *; lia |].
  intros i Hi. rewrite Z.lor_spec, (inw_testbit w a), (inw_testbit w b); auto; lia.
Qed.

Lemma land_inw w a b : 0 <= w -> inw w a -> inw w b -> inw w (Z.land a b).
Proof.
  intros Hw Ha Hb. apply testbit_inw; [lia | apply Z.land_nonneg; unfold inw in *; lia |].
  intros i Hi. rewrite Z.land_spec, (inw_testbit w a); auto; lia.
Qed.

Lemma lxor_inw w a b : 0 <= w -> inw w a -> inw w b -> inw w (Z.lxor a b).
Proof.
  intros Hw Ha Hb. apply testbit_inw; [lia | apply Z.lxor_nonneg; unfold inw in *; lia |].
  intros i Hi. rewrite Z.lxor_spec, (inw_testbit w a), (inw_testbit w b); auto; lia.
Qed.

(** A left shift by [k] and a value below [2^k] do not overlap: or is sum. *)
Lemma lor_shiftl_add a b k :
  0 <= k -> 0 <= b < 2 ^ k -> Z.lor (Z.shiftl a k) b = a * 2 ^ k + b.
Proof.
  intros Hk Hb. rewrite <- Z.shiftl_mul_pow2 by lia.
  rewrite <- Z.lxor_lor, <- Z.add_nocarry_lxor; [done | |];
  apply Z.bits_inj'; intros i Hi; rewrite Z.land_spec, Z.testbit_0_l;
  destruct (decide (i < k)).
  1, 3: rewrite Z.shiftl_spec_low by lia; done.
  all: rewrite (inw_testbit k b) by (unfold inw; lia); apply andb_false_r.
Qed.

#[export] Hint Resolve wrap_inw lor_inw land_inw lxor_inw : fastvm.

(** ** Lists *)

Lemma list_lookup_reverse {A} (l : list A) i :
  (i < length l)%nat -> reverse l !! i = l !! (length l - 1 - i)%nat.
Proof.
  revert i. induction l as [| x l IH] using rev_ind; simpl; intros i Hi; [lia |].
  rewrite length_app in *. simpl in *. rewrite reverse_snoc. destruct i as [| i]; simpl.
  - rewrite lookup_app_r by lia. by replace (length l + 1 - 1 - 0 - length l)%nat with 0%nat by lia.
  - rewrite IH by lia. rewrite lookup_app_l by lia. f_equal. lia.
Qed.

Lemma Forall_replicate_eq {A} (P : A -> Prop) n x : P x -> Forall P (replicate n x).
Proof. intros H. apply Forall_replicate; done. Qed.

#[export] Hint Resolve Forall_replicate_eq : fastvm.
