(* ===== verification/Bytes.v ===== *)
(** * Byte sequences and endianness

    Memory is a list of byte values ([inw 8]).  The host keeps integers in
    little-endian order; EVM memory and every value crossing the EVM-C
    boundary is big-endian.  [Endianness] models libevmjit/Endianness.cpp. *)
From S2P Require Import Prelude.

(** The [n] bytes of [z], least significant first. *)
Fixpoint le_bytes (n : nat) (z : Z) : list Z :=
  match n with
  | O => []
  | S n => z mod 256 :: le_bytes n (z / 256)
  end.

Fixpoint le_val (l : list Z) : Z :=
  match l with
  | [] => 0
  | b :: l => b + 256 * le_val l
  end.

Definition be_bytes (n : nat) (z : Z) : list Z := reverse (le_bytes n z).
Definition be_val (l : list Z) : Z := le_val (reverse l).

(** [llvm.bswap] on an [8 n]-bit integer: the byte order reversed. *)
Definition bswap (n : nat) (z : Z) : Z := le_val (be_bytes n z).

Abbreviation bytes_ok := (Forall (inw 8)).

Lemma length_le_bytes n z : length (le_bytes n z) = n.
Proof. revert z. induction n; simpl; auto. Qed.

Lemma length_be_bytes n z : length (be_bytes n z) = n.
Proof. unfold be_bytes. by rewrite length_reverse, length_le_bytes. Qed.

Lemma le_bytes_ok n z : bytes_ok (le_bytes n z).
Proof.
  revert z. induction n; intros z; simpl; constructor; auto.
  unfold inw. pose proof (Z.mod_pos_bound z 256). lia.
Qed.

Lemma be_bytes_ok n z : bytes_ok (be_bytes n z).
Proof. apply Forall_reverse, le_bytes_ok. Qed.

Lemma le_val_range l : bytes_ok l -> 0 <= le_val l < 2 ^ (8 * Z.of_nat (length l)).
Proof.
  induction 1 as [| b l Hb Hl IH]; [simpl; lia |]. cbn [le_val length].
  replace (8 * Z.of_nat (S (length l))) with (8 + 8 * Z.of_nat (length l)) by lia.
  rewrite Z.pow_add_r by lia. change (2 ^ 8) with 256. unfold inw in Hb. lia.
Qed.

Lemma be_val_range l : bytes_ok l -> 0 <= be_val l < 2 ^ (8 * Z.of_nat (length l)).
Proof.
  intros H. unfold be_val. rewrite <- (length_reverse l). by apply le_val_range, Forall_reverse.
Qed.

Lemma le_val_le_bytes n z : le_val (le_bytes n z) = z mod 2 ^ (8 * Z.of_nat n).
Proof.
  revert z. induction n as [| n IH]; intros z; [by rewrite Z.mod_1_r |].
  cbn [le_bytes le_val]. rewrite IH.
  replace (8 * Z.of_nat (S n)) with (8 + 8 * Z.of_nat n) by lia.
  rewrite Z.pow_add_r by lia. change (2 ^ 8) with 256.
  pose proof (pow2_pos (8 * Z.of_nat n)). by rewrite Z.rem_mul_r by lia.
Qed.

Lemma le_bytes_le_val l : bytes_ok l -> le_bytes (length l) (le_val l) = l.
Proof.
  induction 1 as [| b l Hb Hl IH]; [done |]. cbn [le_val length le_bytes]. unfold inw in Hb.
  f_equal.
  - rewrite (Z.mul_comm 256), Z.mod_add, Z.mod_small by lia. done.
  - rewrite (Z.mul_comm 256), Z.div_add, Z.div_small by lia. done.
Qed.

Lemma be_val_be_bytes n z : be_val (be_bytes n z) = z mod 2 ^ (8 * Z.of_nat n).
Proof. unfold be_val, be_bytes. rewrite reverse_involutive. apply le_val_le_bytes. Qed.

Lemma be_bytes_be_val l : bytes_ok l -> be_bytes (length l) (be_val l) = l.
Proof.
  intros H. unfold be_val, be_bytes. rewrite <- (length_reverse l) at 1.
  rewrite le_bytes_le_val by (by apply Forall_reverse). apply reverse_involutive.
Qed.

Lemma be_bytes_inj n a b :
  inw (8 * Z.of_nat n) a -> inw (8 * Z.of_nat n) b -> be_bytes n a = be_bytes n b -> a = b.
Proof.
  intros Ha Hb H. apply (f_equal be_val) in H. rewrite !be_val_be_bytes in H.
  rewrite !Z.mod_small in H; auto.
Qed.

Lemma le_bytes_bswap n z : le_bytes n (bswap n z) = be_bytes n z.
Proof.
  unfold bswap. rewrite <- (length_be_bytes n z) at 1. apply le_bytes_le_val, be_bytes_ok.
Qed.

Lemma bswap_inw n z : inw (8 * Z.of_nat n) (bswap n z).
Proof.
  unfold bswap, inw. rewrite <- (length_be_bytes n z) at 3. apply le_val_range, be_bytes_ok.
Qed.

Lemma bswap_le_val l : bytes_ok l -> bswap (length l) (le_val l) = be_val l.
Proof. intros H. unfold bswap, be_bytes. by rewrite le_bytes_le_val. Qed.

Lemma bswap_involutive n z : inw (8 * Z.of_nat n) z -> bswap n (bswap n z) = z.
Proof.
  intros H. unfold bswap at 1. unfold be_bytes. rewrite le_bytes_bswap.
  unfold be_bytes. rewrite reverse_involutive, le_val_le_bytes. by apply Z.mod_small.
Qed.

(** The byte at position [i] of the little-endian encoding. *)
Lemma le_bytes_lookup n z i :
  (i < n)%nat -> le_bytes n z !! i = Some (z / 2 ^ (8 * Z.of_nat i) mod 256).
Proof.
  revert z i. induction n as [| n IH]; intros z i Hi; [lia |]. destruct i as [| i]; cbn [le_bytes].
  - simpl. by rewrite Z.div_1_r.
  - cbn [lookup list_lookup]. rewrite IH by lia. do 2 f_equal.
    replace (8 * Z.of_nat (S i)) with (8 + 8 * Z.of_nat i) by lia.
    pose proof (pow2_pos (8 * Z.of_nat i)).
    rewrite Z.pow_add_r, Z.div_div by lia. done.
Qed.

Lemma be_bytes_lookup n z i :
  (i < n)%nat -> be_bytes n z !! i = Some (z / 2 ^ (8 * Z.of_nat (n - 1 - i)) mod 256).
Proof.
  intros Hi. unfold be_bytes. rewrite list_lookup_reverse; rewrite length_le_bytes; [| lia].
  apply le_bytes_lookup. lia.
Qed.

Lemma le_val_app a b : le_val (a ++ b) = le_val a + 2 ^ (8 * Z.of_nat (length a)) * le_val b.
Proof.
  induction a as [| x a IH]; cbn [app le_val length]; [simpl Z.of_nat; lia |].
  rewrite IH. replace (8 * Z.of_nat (S (length a))) with (8 + 8 * Z.of_nat (length a)) by lia.
  rewrite Z.pow_add_r by lia. change (2 ^ 8) with 256. ring.
Qed.

(** Appending bytes at the least significant end. *)
Lemma be_val_app a b : be_val (a ++ b) = be_val a * 2 ^ (8 * Z.of_nat (length b)) + be_val b.
Proof. unfold be_val. rewrite reverse_app, le_val_app, length_reverse. ring. Qed.

Lemma be_val_snoc a b : be_val (a ++ [b]) = be_val a * 256 + b.
Proof. rewrite be_val_app. unfold be_val at 2. simpl. lia. Qed.

Lemma le_val_zeros n : le_val (replicate n 0) = 0.
Proof. induction n; simpl; lia. Qed.

Lemma be_val_zeros n : be_val (replicate n 0) = 0.
Proof. unfold be_val. rewrite reverse_replicate. apply le_val_zeros. Qed.

#[export] Hint Resolve le_bytes_ok be_bytes_ok bswap_inw : fastvm.

Module Endianness.

(** [llvm::sys::IsLittleEndianHost] on the one platform the library is built
    for (x86-64 Linux). *)
Definition IsLittleEndianHost : bool := true.

(** How the host lays an [8 n]-bit integer out in memory. *)
Definition native_bytes (n : nat) (z : Z) : list Z :=
  if IsLittleEndianHost then le_bytes n z else be_bytes n z.
Definition native_val (l : list Z) : Z :=
  if IsLittleEndianHost then le_val l else be_val l.

Definition bswapIfLE (n : nat) (z : Z) : Z :=
  if IsLittleEndianHost then bswap n z else z.
Abbreviation toBE := (bswapIfLE).
Abbreviation toNative := (bswapIfLE).

(** Storing a [toBE] value writes the big-endian bytes. *)
Lemma native_bytes_toBE n z : native_bytes n (toBE n z) = be_bytes n z.
Proof. apply le_bytes_bswap. Qed.

(** Loading bytes and converting them [toNative] reads a big-endian number. *)
Lemma toNative_native_val l : bytes_ok l -> toNative (length l) (native_val l) = be_val l.
Proof. apply bswap_le_val. Qed.

Lemma toNative_toBE n z : inw (8 * Z.of_nat n) z -> toNative n (toBE n z) = z.
Proof. apply bswap_involutive. Qed.

End Endianness.
