(* ===== verification/Instruction.v ===== *)
(** * Opcodes and push data

    libevmjit/Instruction.h and Instruction.cpp: the instruction set with its
    byte encoding, and the two routines that walk over the immediate data of a
    PUSH.  The code is a list of byte values and a [code_iterator] an index
    into it. *)
From S2P Require Import Prelude Bytes.

(** [enum class Instruction : uint8_t].  The numbered families carry their
    number: [PUSH 1 .. PUSH 32], [DUP 1 .. DUP 32], [SWAP 1 .. SWAP 32],
    [LOG 0 .. LOG 4].  [INVALID b] is a byte without an enumerator. *)
Inductive Instruction :=
| STOP | ADD | MUL | SUB | DIV | SDIV | MOD | SMOD | ADDMOD | MULMOD | EXP | SIGNEXTEND
| LT | GT | SLT | SGT | EQ | ISZERO | AND | OR | XOR | NOT | BYTE
| SHA3
| ADDRESS | BALANCE | ORIGIN | CALLER | CALLVALUE | CALLDATALOAD | CALLDATASIZE | CALLDATACOPY
| CODESIZE | CODECOPY | GASPRICE | EXTCODESIZE | EXTCODECOPY | RETURNDATASIZE | RETURNDATACOPY
| BLOCKHASH | COINBASE | TIMESTAMP | NUMBER | DIFFICULTY | GASLIMIT
| POP | MLOAD | MSTORE | MSTORE8 | SLOAD | SSTORE | JUMP | JUMPI | PC | MSIZE | GAS | JUMPDEST
| PUSH (n : nat) | DUP (n : nat) | SWAP (n : nat) | LOG (n : nat)
| CREATE | CALL | CALLCODE | RETURN | DELEGATECALL | STATICCALL | REVERT | SELFDESTRUCT
| INVALID (b : Z).

#[global] Instance Instruction_eq_dec : EqDecision Instruction.
Proof. solve_decision. Defined.

(** The cast [Instruction(byte)] as the switches of the compiler read it. *)
Definition Instruction_of_byte (b : Z) : Instruction :=
  if (0x60 <=? b) && (b <=? 0x7f) then PUSH (Z.to_nat (b - 0x60 + 1))
  else if (0x80 <=? b) && (b <=? 0x8f) then DUP (Z.to_nat (b - 0x80 + 1))
  else if (0x90 <=? b) && (b <=? 0x9f) then SWAP (Z.to_nat (b - 0x90 + 1))
  else if (0xa0 <=? b) && (b <=? 0xa4) then LOG (Z.to_nat (b - 0xa0))
  else if (0xb0 <=? b) && (b <=? 0xbf) then DUP (Z.to_nat (b - 0xb0 + 17))
  else if (0xc0 <=? b) && (b <=? 0xcf) then SWAP (Z.to_nat (b - 0xc0 + 17))
  else match b with
  | 0x00 => STOP | 0x01 => ADD | 0x02 => MUL | 0x03 => SUB | 0x04 => DIV | 0x05 => SDIV
  | 0x06 => MOD | 0x07 => SMOD | 0x08 => ADDMOD | 0x09 => MULMOD | 0x0a => EXP | 0x0b => SIGNEXTEND
  | 0x10 => LT | 0x11 => GT | 0x12 => SLT | 0x13 => SGT | 0x14 => EQ | 0x15 => ISZERO
  | 0x16 => AND | 0x17 => OR | 0x18 => XOR | 0x19 => NOT | 0x1a => BYTE
  | 0x20 => SHA3
  | 0x30 => ADDRESS | 0x31 => BALANCE | 0x32 => ORIGIN | 0x33 => CALLER | 0x34 => CALLVALUE
  | 0x35 => CALLDATALOAD | 0x36 => CALLDATASIZE | 0x37 => CALLDATACOPY | 0x38 => CODESIZE
  | 0x39 => CODECOPY | 0x3a => GASPRICE | 0x3b => EXTCODESIZE | 0x3c => EXTCODECOPY
  | 0x3d => RETURNDATASIZE | 0x3e => RETURNDATACOPY
  | 0x40 => BLOCKHASH | 0x41 => COINBASE | 0x42 => TIMESTAMP | 0x43 => NUMBER
  | 0x44 => DIFFICULTY | 0x45 => GASLIMIT
  | 0x50 => POP | 0x51 => MLOAD | 0x52 => MSTORE | 0x53 => MSTORE8 | 0x54 => SLOAD | 0x55 => SSTORE
  | 0x56 => JUMP | 0x57 => JUMPI | 0x58 => PC | 0x59 => MSIZE | 0x5a => GAS | 0x5b => JUMPDEST
  | 0xf0 => CREATE | 0xf1 => CALL | 0xf2 => CALLCODE | 0xf3 => RETURN | 0xf4 => DELEGATECALL
  | 0xfa => STATICCALL | 0xfd => REVERT | 0xff => SELFDESTRUCT
  | _ => INVALID b
  end.

(** The enumerators' values. *)
Definition byte_of_Instruction (i : Instruction) : Z :=
  match i with
  | STOP => 0x00 | ADD => 0x01 | MUL => 0x02 | SUB => 0x03 | DIV => 0x04 | SDIV => 0x05
  | MOD => 0x06 | SMOD => 0x07 | ADDMOD => 0x08 | MULMOD => 0x09 | EXP => 0x0a | SIGNEXTEND => 0x0b
  | LT => 0x10 | GT => 0x11 | SLT => 0x12 | SGT => 0x13 | EQ => 0x14 | ISZERO => 0x15
  | AND => 0x16 | OR => 0x17 | XOR => 0x18 | NOT => 0x19 | BYTE => 0x1a
  | SHA3 => 0x20
  | ADDRESS => 0x30 | BALANCE => 0x31 | ORIGIN => 0x32 | CALLER => 0x33 | CALLVALUE => 0x34
  | CALLDATALOAD => 0x35 | CALLDATASIZE => 0x36 | CALLDATACOPY => 0x37 | CODESIZE => 0x38
  | CODECOPY => 0x39 | GASPRICE => 0x3a | EXTCODESIZE => 0x3b | EXTCODECOPY => 0x3c
  | RETURNDATASIZE => 0x3d | RETURNDATACOPY => 0x3e
  | BLOCKHASH => 0x40 | COINBASE => 0x41 | TIMESTAMP => 0x42 | NUMBER => 0x43
  | DIFFICULTY => 0x44 | GASLIMIT => 0x45
  | POP => 0x50 | MLOAD => 0x51 | MSTORE => 0x52 | MSTORE8 => 0x53 | SLOAD => 0x54 | SSTORE => 0x55
  | JUMP => 0x56 | JUMPI => 0x57 | PC => 0x58 | MSIZE => 0x59 | GAS => 0x5a | JUMPDEST => 0x5b
  | PUSH n => 0x60 + Z.of_nat n - 1
  | DUP n => if (n <=? 16)%nat then 0x80 + Z.of_nat n - 1 else 0xb0 + Z.of_nat n - 17
  | SWAP n => if (n <=? 16)%nat then 0x90 + Z.of_nat n - 1 else 0xc0 + Z.of_nat n - 17
  | LOG n => 0xa0 + Z.of_nat n
  | CREATE => 0xf0 | CALL => 0xf1 | CALLCODE => 0xf2 | RETURN => 0xf3 | DELEGATECALL => 0xf4
  | STATICCALL => 0xfa | REVERT => 0xfd | SELFDESTRUCT => 0xff
  | INVALID b => b
  end.

(** The number of immediate bytes of a byte of code: [pushInst - PUSH1 + 1]
    for the PUSH family. *)
Definition numPushBytes (b : Z) : nat :=
  match Instruction_of_byte b with PUSH n => n | _ => 0 end.

(** The byte an iterator points at; every caller has [curr != end]. *)
Definition code_at (code : list Z) (i : nat) : Z := default 0 (code !! i).

(** The loop of [readPushData]: [byte b = (_curr != _end) ? *_curr++ : 0;
    value <<= 8; value |= b]. *)
Fixpoint readPushLoop (bits : Z) (code : list Z) (end_ n curr : nat) (value : Z) : nat * Z :=
  match n with
  | O => (curr, value)
  | S n =>
    let '(b, curr) :=
      if bool_decide (curr <> end_) then (code_at code curr, S curr) else (0, curr) in
    let value := wrap bits (Z.shiftl value 8) in
    readPushLoop bits code end_ n curr (Z.lor value b)
  end.

(** [readPushData]: the number, its bit width, and the iterator on the last
    byte read. *)
Definition readPushData (code : list Z) (curr end_ : nat) : Z * Z * nat :=
  let numBytes := numPushBytes (code_at code curr) in
  let bits := if (16 <? numBytes)%nat then 256 else 128 in
  let '(curr, value) := readPushLoop bits code end_ numBytes (S curr) 0 in
  (value, bits, pred curr).

(** The loop of [skipPushData]: [for (i = 0; i < numBytes && _curr < _end; ++i, ++_curr)]. *)
Fixpoint skipPushLoop (n curr end_ : nat) : nat :=
  match n with
  | O => curr
  | S n => if (curr <? end_)%nat then skipPushLoop n (S curr) end_ else curr
  end.

Definition skipPushData (code : list Z) (curr end_ : nat) : nat :=
  skipPushLoop (numPushBytes (code_at code curr)) curr (pred end_).

(** ** Lemmas *)

Lemma forall_byte (P : Z -> bool) :
  forallb (fun n => P (Z.of_nat n)) (seq 0 256) = true -> forall b, inw 8 b -> P b = true.
Proof.
  intros H b Hb. unfold inw in Hb. rewrite forallb_forall in H.
  rewrite <- (Z2Nat.id b) by lia. apply H. apply in_seq. lia.
Qed.

Lemma byte_of_Instruction_of_byte b : inw 8 b -> byte_of_Instruction (Instruction_of_byte b) = b.
Proof.
  intros Hb. apply Z.eqb_eq.
  revert b Hb. apply (forall_byte (fun b => byte_of_Instruction (Instruction_of_byte b) =? b)).
  vm_compute. reflexivity.
Qed.

Lemma numPushBytes_le b : inw 8 b -> (numPushBytes b <= 32)%nat.
Proof.
  intros Hb. apply Nat.leb_le. revert b Hb.
  apply (forall_byte (fun b => Nat.leb (numPushBytes b) 32)). vm_compute. reflexivity.
Qed.

Lemma code_at_byte code i : bytes_ok code -> inw 8 (code_at code i).
Proof.
  intros H. unfold code_at. destruct (code !! i) eqn:E; simpl; [| done].
  by apply (Forall_lookup_1 _ _ _ _ H E).
Qed.

(** The bytes the loop consumes, and zeros past the end. *)
Definition push_bytes (code : list Z) (end_ n curr : nat) : list Z :=
  take n (take (end_ - curr) (drop curr code) ++ replicate n 0).

Lemma push_bytes_in code end_ n curr :
  (curr < end_ <= length code)%nat ->
  push_bytes code end_ (S n) curr = code_at code curr :: push_bytes code end_ n (S curr).
Proof.
  intros H. unfold push_bytes, code_at.
  destruct (lookup_lt_is_Some_2 code curr) as [x Hx]; [lia |].
  rewrite (drop_S _ _ _ Hx), Hx. simpl default.
  replace (end_ - curr)%nat with (S (end_ - S curr)) by lia. simpl.
  f_equal. rewrite !take_app, !length_take, length_drop.
  f_equal. change (0 :: replicate n 0) with (replicate (S n) 0). rewrite !take_replicate. f_equal. lia.
Qed.

Lemma push_bytes_out code end_ n curr :
  (end_ <= curr)%nat -> push_bytes code end_ n curr = replicate n 0.
Proof.
  intros H. unfold push_bytes. replace (end_ - curr)%nat with 0%nat by lia.
  simpl. rewrite take_replicate. f_equal. lia.
Qed.

Lemma readPushLoop_curr bits code end_ n curr v :
  (curr <= end_)%nat -> (readPushLoop bits code end_ n curr v).1 = Nat.min (curr + n) end_.
Proof.
  revert curr v. induction n as [| n IH]; intros curr v H; simpl; [lia |].
  case_bool_decide; simpl; rewrite IH; lia.
Qed.

Lemma length_push_bytes code end_ n curr : length (push_bytes code end_ n curr) = n.
Proof. unfold push_bytes. rewrite length_take, length_app, length_replicate. lia. Qed.

Lemma push_bytes_ok code end_ n curr : bytes_ok code -> bytes_ok (push_bytes code end_ n curr).
Proof.
  intros H. unfold push_bytes. apply Forall_take, Forall_app. split.
  - by apply Forall_take, Forall_drop.
  - apply Forall_replicate_eq. done.
Qed.

(** One iteration appends a byte at the low end. *)
Lemma push_step bits pre b :
  bytes_ok pre -> inw 8 b -> 8 * Z.of_nat (S (length pre)) <= bits ->
  Z.lor (wrap bits (Z.shiftl (be_val pre) 8)) b = be_val (pre ++ [b]).
Proof.
  intros Hpre Hb Hbits. pose proof (be_val_range pre Hpre) as Hr.
  rewrite wrap_small.
  - rewrite lor_shiftl_add by (unfold inw in Hb; lia). by rewrite be_val_snoc.
  - rewrite Z.shiftl_mul_pow2 by lia.
    apply (inw_mono (8 * Z.of_nat (S (length pre)))); [lia |].
    replace (8 * Z.of_nat (S (length pre))) with (8 * Z.of_nat (length pre) + 8) by lia.
    unfold inw. rewrite Z.pow_add_r by lia. lia.
Qed.

Lemma readPushLoop_value bits code end_ n curr pre :
  bytes_ok code -> bytes_ok pre -> (curr <= end_ <= length code)%nat ->
  8 * Z.of_nat (length pre + n) <= bits ->
  (readPushLoop bits code end_ n curr (be_val pre)).2 = be_val (pre ++ push_bytes code end_ n curr).
Proof.
  revert curr pre. induction n as [| n IH]; intros curr pre Hc Hp He Hb; cbn [readPushLoop].
  - unfold push_bytes. simpl. by rewrite app_nil_r.
  - assert (inw 8 (code_at code curr)) as Hbyte.
    { by apply code_at_byte. }
    assert (forall b, inw 8 b -> bytes_ok (pre ++ [b])) as Hsnoc
      by (intros; apply Forall_app; auto).
    assert (forall b, length (pre ++ [b]) = S (length pre)) as Hlen
      by (intros; rewrite length_app; simpl; lia).
    assert (inw 8 0) by done.
    case_bool_decide as Hd; cbn [fst snd].
    + rewrite push_step by (auto; lia). rewrite IH by (rewrite ?Hlen; auto; lia).
      rewrite (push_bytes_in code end_ n curr) by lia. by rewrite <- app_assoc.
    + assert (curr = end_) as -> by (destruct (decide (curr = end_)); tauto).
      rewrite push_step by (auto; lia). rewrite IH by (rewrite ?Hlen; auto; lia).
      rewrite !push_bytes_out by lia. by rewrite <- app_assoc.
Qed.

Lemma skipPushLoop_spec n curr end_ :
  (curr <= end_)%nat -> skipPushLoop n curr end_ = Nat.min (curr + n) end_.
Proof.
  revert curr. induction n as [| n IH]; intros curr H; simpl; [lia |].
  destruct (Nat.ltb_spec curr end_); [rewrite IH |]; lia.
Qed.

Lemma readPushData_value code curr end_ :
  bytes_ok code -> (curr < end_ <= length code)%nat ->
  (readPushData code curr end_).1.1 =
    be_val (push_bytes code end_ (numPushBytes (code_at code curr)) (S curr)).
Proof.
  intros Hc He. unfold readPushData.
  set (n := numPushBytes (code_at code curr)). set (bits := if (16 <? n)%nat then 256 else 128).
  assert (n <= 32)%nat.
  { by apply numPushBytes_le, code_at_byte. }
  pose proof (readPushLoop_value bits code end_ n (S curr) [] Hc ltac:(constructor) ltac:(lia)) as Hv.
  change (be_val []) with 0 in Hv.
  destruct (readPushLoop bits code end_ n (S curr) 0) as [c v]. simpl in *. apply Hv.
  unfold bits. destruct (Nat.ltb_spec 16 n); lia.
Qed.

Lemma readPushData_curr code curr end_ :
  (curr < end_)%nat ->
  (readPushData code curr end_).2 = Nat.min (curr + numPushBytes (code_at code curr)) (pred end_).
Proof.
  intros He. unfold readPushData. set (n := numPushBytes (code_at code curr)). set (bits := if (16 <? n)%nat then 256 else 128).
  pose proof (readPushLoop_curr bits code end_ n (S curr) 0 ltac:(lia)) as Hc.
  destruct (readPushLoop bits code end_ n (S curr) 0) as [c v]. cbn [fst snd] in *. lia.
Qed.

Lemma skipPushData_curr code curr end_ :
  (curr < end_)%nat ->
  skipPushData code curr end_ = Nat.min (curr + numPushBytes (code_at code curr)) (pred end_).
Proof. intros He. apply skipPushLoop_spec. lia. Qed.

(** The numbering of the instructions is that of their bytes: every byte
    of code decodes to an instruction (INVALID for the bytes without one) and
    encodes back to itself, so no two bytes mean the same instruction. *)
Theorem opcode_roundtrip b : inw 8 b -> byte_of_Instruction (Instruction_of_byte b) = b.
Proof. apply byte_of_Instruction_of_byte. Qed.

Lemma opcode_roundtrip_witness : byte_of_Instruction (Instruction_of_byte 0xb5) = 0xb5.
Proof. apply (opcode_roundtrip 0xb5). unfold inw. lia. Defined.
