(* ===== verification/BasicBlocks.v ===== *)
(** * Splitting the bytecode into basic blocks

    [Compiler::createBasicBlocks] of libevmjit/Compiler.cpp.  The operations
    come first; [layout] is the declarative description of a correct split and
    [createBasicBlocks_layout] the refinement: the loop always returns and its
    result is a layout of the code.  The facts the jump resolution relies on
    are then read off [layout]. *)
From S2P Require Import Prelude Bytes Instruction.

(** ** The code *)

(** [class BasicBlock], less its LLVM block. *)
Record BasicBlock := mkBlock {
  m_firstInstrIdx : nat;
  m_begin : nat;
  m_end : nat
}.

(** The lambda [skipPushDataAndGetNext]. *)
Definition skipPushDataAndGetNext (code : list Z) (curr end_ : nat) : nat :=
  let push1 := 0x60 in
  let push32 := 0x7f in
  let b := code_at code curr in
  let offset :=
    if (push1 <=? b) && (b <=? push32)
    then (1 + Nat.min (Z.to_nat (b - push1 + 1)) ((end_ - curr) - 1))%nat
    else 1%nat in
  (curr + offset)%nat.

Definition inst_at (code : list Z) (i : nat) : Instruction := Instruction_of_byte (code_at code i).

(** The cases of the switch that set [isDead]. *)
Definition setsDead (i : Instruction) : bool :=
  match i with
  | JUMP | RETURN | REVERT | STOP | SELFDESTRUCT => true
  | _ => false
  end.

(** The cases of the switch that set [isEnd]. *)
Definition setsEnd (i : Instruction) : bool :=
  match i with
  | JUMPI => true
  | _ => setsDead i
  end.

(** The [for] loop.  [fuel] bounds the iterations; [None] is running out. *)
Fixpoint createLoop (fuel : nat) (code : list Z) (curr begin : nat) (isDead : bool)
  : option (list BasicBlock) :=
  match fuel with
  | O => None
  | S fuel =>
    if bool_decide (curr = length code) then Some []
    else
      let next := skipPushDataAndGetNext code curr (length code) in
      let inst := inst_at code curr in
      if isDead && negb (bool_decide (inst = JUMPDEST)) then
        createLoop fuel code next begin true (* continue *)
      else
        let begin := if isDead then curr else begin in
        let isDead := setsDead inst in
        let isEnd := setsEnd inst in
        let isEnd :=
          if bool_decide (next = length code) || bool_decide (inst_at code next = JUMPDEST)
          then true else isEnd in
        if isEnd then
          blocks ← createLoop fuel code next next isDead;
          Some (mkBlock begin begin next :: blocks)
        else createLoop fuel code next begin isDead
  end.

Definition createBasicBlocks (code : list Z) : option (list BasicBlock) :=
  createLoop (S (length code)) code 0 0 false.

(** ** What a split is *)

(** The position of the next instruction. *)
Definition nxt (code : list Z) (i : nat) : nat := skipPushDataAndGetNext code i (length code).

(** [reach code i j]: walking instruction by instruction from [i] gets to [j]. *)
Inductive reach (code : list Z) (i : nat) : nat -> Prop :=
| reach_refl : reach code i i
| reach_next j : reach code i j -> (j < length code)%nat -> reach code i (nxt code j).

(** [bblock code i e l]: the instructions of a block from [i] up to [e] are at
    the positions [l].  Only the last one may end a block, and no position but
    the first is a jump destination. *)
Inductive bblock (code : list Z) : nat -> nat -> list nat -> Prop :=
| bb_last i :
    (i < length code)%nat ->
    setsEnd (inst_at code i) = true \/ nxt code i = length code
      \/ inst_at code (nxt code i) = JUMPDEST ->
    bblock code i (nxt code i) [i]
| bb_cons i e l :
    (i < length code)%nat -> setsEnd (inst_at code i) = false ->
    nxt code i <> length code -> inst_at code (nxt code i) <> JUMPDEST ->
    bblock code (nxt code i) e l -> bblock code i e (i :: l).

(** [layout code dead i bs]: [bs] splits the code from [i] on; with [dead] the
    code at [i] is unreachable until the next jump destination. *)
Inductive layout (code : list Z) : bool -> nat -> list BasicBlock -> Prop :=
| lay_end d : layout code d (length code) []
| lay_skip i bs :
    (i < length code)%nat -> inst_at code i <> JUMPDEST ->
    layout code true (nxt code i) bs -> layout code true i bs
| lay_revive i bs :
    (i < length code)%nat -> inst_at code i = JUMPDEST ->
    layout code false i bs -> layout code true i bs
| lay_block i e l j bs :
    bblock code i e l -> last l = Some j ->
    layout code (setsDead (inst_at code j)) e bs ->
    layout code false i (mkBlock i i e :: bs).

(** ** Walking the code *)

Lemma numPushBytes_eq b :
  numPushBytes b = if (0x60 <=? b) && (b <=? 0x7f) then Z.to_nat (b - 0x60 + 1) else 0%nat.
Proof.
  unfold numPushBytes, Instruction_of_byte.
  destruct ((0x60 <=? b) && (b <=? 0x7f)); [done |].
  repeat match goal with |- context [if ?c then _ else _] => destruct c; [done |] end.
  destruct b as [| p | p]; [done | | done]. repeat (destruct p as [p | p |]; try done).
Qed.

Lemma nxt_eq code i :
  (i < length code)%nat ->
  nxt code i = Nat.min (S i + numPushBytes (code_at code i)) (length code).
Proof.
  intros Hi. unfold nxt, skipPushDataAndGetNext. rewrite numPushBytes_eq.
  destruct ((0x60 <=? code_at code i) && (code_at code i <=? 0x7f)); lia.
Qed.

Lemma nxt_bounds code i :
  (i < length code)%nat -> (i < nxt code i <= length code)%nat.
Proof. intros Hi. rewrite nxt_eq by lia. lia. Qed.

Lemma reach_bounds code i j : reach code i j -> (i <= length code -> i <= j <= length code)%nat.
Proof.
  induction 1 as [| j Hr IH Hj]; intros Hi; [lia |].
  pose proof (nxt_bounds code j Hj). lia.
Qed.

Lemma reach_trans code i j k : reach code i j -> reach code j k -> reach code i k.
Proof. induction 2; [done | by constructor]. Qed.

Lemma reach_cases code i k : reach code i k -> k = i \/ ((i < length code)%nat /\ reach code (nxt code i) k).
Proof.
  induction 1 as [| j Hr [-> | [Hi IH]] Hj]; [by left | right | right].
  - split; [done | constructor].
  - split; [done |]. by constructor.
Qed.

Lemma bblock_start code i e l : bblock code i e l -> (i < length code)%nat.
Proof. by destruct 1. Qed.

Lemma bblock_bounds code i e l : bblock code i e l -> (i < e <= length code)%nat.
Proof.
  induction 1 as [i Hi | i e l Hi _ _ _ _ IH]; pose proof (nxt_bounds code i Hi); lia.
Qed.

Lemma bblock_reach code i e l : bblock code i e l -> reach code i e.
Proof.
  induction 1 as [i Hi | i e l Hi _ _ _ _ IH].
  - constructor; [constructor | done].
  - eapply reach_trans, IH. constructor; [constructor | done].
Qed.

(** A position after the start of the block is inside it or after its end. *)
Lemma bblock_split code i e l k :
  bblock code i e l -> reach code i k -> k = i \/ inst_at code k <> JUMPDEST \/ reach code e k.
Proof.
  intros Hb. revert k. induction Hb as [i Hi _ | i e l Hi _ _ Hj Hb IH]; intros k Hr;
    apply reach_cases in Hr as [-> | [_ Hr]]; auto.
  destruct (IH k Hr) as [-> | [? | ?]]; auto.
Qed.

Lemma bblock_nonempty code i e l : bblock code i e l -> exists j, last l = Some j.
Proof.
  induction 1 as [i | i e l _ _ _ _ _ [j Hj]]; [by exists i |]. exists j.
  destruct l; [done |]. by rewrite last_cons_cons.
Qed.

(** ** The loop computes a layout *)

Lemma createLoop_step fuel code curr begin isDead :
  (curr < length code)%nat ->
  isDead && negb (bool_decide (inst_at code curr = JUMPDEST)) = false ->
  createLoop (S fuel) code curr begin isDead =
    let begin := if isDead then curr else begin in
    if (setsEnd (inst_at code curr) || bool_decide (nxt code curr = length code)
        || bool_decide (inst_at code (nxt code curr) = JUMPDEST))
    then blocks ← createLoop fuel code (nxt code curr) (nxt code curr) (setsDead (inst_at code curr));
         Some (mkBlock begin begin (nxt code curr) :: blocks)
    else createLoop fuel code (nxt code curr) begin (setsDead (inst_at code curr)).
Proof.
  intros Hc Hd. cbn [createLoop]. rewrite bool_decide_eq_false_2 by lia. rewrite Hd.
  change (skipPushDataAndGetNext code curr (length code)) with (nxt code curr). cbv zeta.
  destruct (bool_decide (nxt code curr = length code)),
    (bool_decide (inst_at code (nxt code curr) = JUMPDEST)), (setsEnd (inst_at code curr)); done.
Qed.

Lemma setsEnd_dead i : setsEnd i = false -> setsDead i = false.
Proof. by destruct i. Qed.

(** Alive, inside a block that started at [begin]. *)
Definition loop_alive (fuel : nat) (code : list Z) (curr : nat) : Prop :=
  forall begin, (curr < length code < fuel + curr)%nat ->
  exists e l j bs, createLoop fuel code curr begin false = Some (mkBlock begin begin e :: bs)
    /\ bblock code curr e l /\ last l = Some j
    /\ layout code (setsDead (inst_at code j)) e bs.

(** Dead. *)
Definition loop_dead (fuel : nat) (code : list Z) (curr : nat) : Prop :=
  forall begin, (curr <= length code < fuel + curr)%nat ->
  exists bs, createLoop fuel code curr begin true = Some bs /\ layout code true curr bs.

(** At the start of a block, dead or alive. *)
Lemma loop_at_start fuel code curr d :
  loop_alive fuel code curr -> loop_dead fuel code curr ->
  (curr <= length code < fuel + curr)%nat ->
  exists bs, createLoop fuel code curr curr d = Some bs /\ layout code d curr bs.
Proof.
  intros Ha Hd Hf. destruct d; [by apply Hd |].
  destruct (decide (curr = length code)) as [-> | Hne].
  - exists []. destruct fuel; [lia |]. simpl. rewrite bool_decide_eq_true_2 by done.
    split; [done | constructor].
  - destruct (Ha curr ltac:(lia)) as (e & l & j & bs & Heq & Hb & Hj & Hl).
    eexists. split; [exact Heq |]. by econstructor.
Qed.

Lemma loop_block_end fuel code curr b :
  (forall c, loop_alive fuel code c /\ loop_dead fuel code c) ->
  (curr < length code < S fuel + curr)%nat ->
  setsEnd (inst_at code curr) || bool_decide (nxt code curr = length code)
    || bool_decide (inst_at code (nxt code curr) = JUMPDEST) = true ->
  exists bs, (blocks ← createLoop fuel code (nxt code curr) (nxt code curr) (setsDead (inst_at code curr));
         Some (mkBlock b b (nxt code curr) :: blocks)) = Some (mkBlock b b (nxt code curr) :: bs)
    /\ bblock code curr (nxt code curr) [curr] /\ layout code (setsDead (inst_at code curr)) (nxt code curr) bs.
Proof.
  intros IH Hf He. pose proof (nxt_bounds code curr ltac:(lia)).
  destruct (loop_at_start fuel code (nxt code curr) (setsDead (inst_at code curr))) as (bs & Hbs & Hl);
    [apply IH | apply IH | lia |].
  exists bs. rewrite Hbs. split; [done |]. split; [| done].
  constructor; [lia |]. apply orb_true_iff in He as [He | He]; [apply orb_true_iff in He as [He | He] |];
    rewrite ?bool_decide_eq_true in He; auto.
Qed.

Lemma loop_alive_step fuel code curr :
  (forall c, loop_alive fuel code c /\ loop_dead fuel code c) -> loop_alive (S fuel) code curr.
Proof.
  intros IH begin Hf. rewrite createLoop_step by (done || lia). cbv zeta.
  match goal with |- context [if ?c then _ else _] => destruct c eqn:He end.
  - destruct (loop_block_end fuel code curr begin IH Hf He) as (bs & Heq & Hb & Hl).
    exists (nxt code curr), [curr], curr, bs. auto.
  - apply orb_false_iff in He as [He HJ]. apply orb_false_iff in He as [He HN].
    rewrite bool_decide_eq_false in HJ, HN. pose proof (nxt_bounds code curr ltac:(lia)).
    rewrite (setsEnd_dead _ He).
    destruct (proj1 (IH (nxt code curr)) begin ltac:(lia)) as (e & l & j & bs & Heq & Hb & Hj & Hl).
    exists e, (curr :: l), j, bs. split_and!; auto.
    + apply bb_cons; auto; lia.
    + destruct l; [done |]. by rewrite last_cons_cons.
Qed.

Lemma loop_dead_step fuel code curr :
  (forall c, loop_alive fuel code c /\ loop_dead fuel code c) -> loop_dead (S fuel) code curr.
Proof.
  intros IH begin Hf. destruct (decide (curr = length code)) as [-> | Hne].
  { exists []. simpl. rewrite bool_decide_eq_true_2 by done. split; [done | constructor]. }
  destruct (decide (inst_at code curr = JUMPDEST)) as [HJ | HJ].
  - (* revived: the alive loop from here gives the same blocks *)
    destruct (loop_alive_step fuel code curr IH curr ltac:(lia)) as (e & l & j & bs & Heq & Hb & Hj & Hl).
    eexists. split.
    + rewrite <- Heq.
      rewrite (createLoop_step _ _ _ begin true), (createLoop_step _ _ _ curr false);
        [done | lia | done | lia |]. by rewrite bool_decide_eq_true_2.
    + apply lay_revive; [lia | done |]. by econstructor.
  - pose proof (nxt_bounds code curr ltac:(lia)).
    destruct (proj2 (IH (nxt code curr)) begin ltac:(lia)) as (bs & Heq & Hl).
    exists bs. split; [| apply lay_skip; done || lia].
    cbn [createLoop]. rewrite !bool_decide_eq_false_2 by (done || lia). exact Heq.
Qed.

Lemma createLoop_layout fuel code c : loop_alive fuel code c /\ loop_dead fuel code c.
Proof.
  revert c. induction fuel as [| fuel IH]; intros c.
  - split; intros begin H; lia.
  - split; [by apply loop_alive_step | by apply loop_dead_step].
Qed.

Lemma createBasicBlocks_layout code :
  exists bs, createBasicBlocks code = Some bs /\ layout code false 0 bs.
Proof.
  apply loop_at_start; [apply createLoop_layout | apply createLoop_layout | lia].
Qed.

Lemma createBasicBlocks_inv code bs : createBasicBlocks code = Some bs -> layout code false 0 bs.
Proof. destruct (createBasicBlocks_layout code) as (bs' & -> & H). by intros [= ->]. Qed.

(** ** Facts about layouts *)

Lemma layout_start_le code d i bs : layout code d i bs -> (i <= length code)%nat.
Proof.
  destruct 1 as [d | i bs Hi | i bs Hi | i e l j bs Hb]; [lia | lia | lia |].
  pose proof (bblock_start _ _ _ _ Hb). lia.
Qed.

(** Every jump destination found by walking the code starts a block. *)
Lemma layout_jumpdest code d i bs k :
  layout code d i bs -> reach code i k -> (k < length code)%nat -> inst_at code k = JUMPDEST ->
  exists b, b ∈ bs /\ m_begin b = k.
Proof.
  intros Hl. revert k. induction Hl as [d | i bs Hi HJ Hl IH | i bs Hi HJ Hl IH | i e l j bs Hb Hj Hl IH];
    intros k Hr Hk HkJ.
  - pose proof (reach_bounds _ _ _ Hr). lia.
  - apply reach_cases in Hr as [-> | [_ Hr]]; [congruence | by apply IH].
  - by apply IH.
  - destruct (bblock_split _ _ _ _ _ Hb Hr) as [-> | [? | Hr']]; [| congruence |].
    + exists (mkBlock i i e). split; [left | done].
    + destruct (IH k Hr' Hk HkJ) as (b & Hin & Heq). exists b. split; [by right | done].
Qed.

(** Every block starts at an instruction, carries its start as the index of
    its first instruction, and is a [bblock]. *)
Lemma layout_block code d i bs b :
  layout code d i bs -> b ∈ bs ->
  reach code i (m_begin b) /\ m_firstInstrIdx b = m_begin b /\
  exists l, bblock code (m_begin b) (m_end b) l.
Proof.
  induction 1 as [d | i bs Hi HJ Hl IH | i bs Hi HJ Hl IH | i e l j bs Hb Hj Hl IH]; intros Hin.
  - by apply elem_of_nil in Hin.
  - destruct (IH Hin) as (Hr & Hf). split; [| done].
    eapply reach_trans, Hr. constructor; [constructor | done].
  - by apply IH.
  - apply elem_of_cons in Hin as [-> | Hin]; simpl.
    + split; [constructor |]. split; [done |]. by exists l.
    + destruct (IH Hin) as (Hr & Hf). split; [| done]. eapply reach_trans, Hr.
      by eapply bblock_reach.
Qed.

(** Alive at [i]: the first block starts at [i], or the code ends there. *)
Lemma layout_first code i bs :
  layout code false i bs ->
  (i = length code /\ bs = []) \/ exists b, bs !! 0%nat = Some b /\ m_begin b = i.
Proof.
  inversion 1 as [d | | | i' e l j bs' Hb Hj Hl]; subst; [by left | right].
  by exists (mkBlock i i e).
Qed.

(** A block whose last instruction can fall through is followed by the block
    that starts where it ends, or ends the code. *)
Lemma layout_fallthrough code d i bs n b l j :
  layout code d i bs -> bs !! n = Some b ->
  bblock code (m_begin b) (m_end b) l -> last l = Some j -> setsDead (inst_at code j) = false ->
  (m_end b = length code /\ bs !! S n = None) \/
  exists b', bs !! S n = Some b' /\ m_begin b' = m_end b.
Proof.
  intros Hl. revert n b. induction Hl as [d | i bs Hi HJ Hl IH | i bs Hi HJ Hl IH | i e l' j' bs Hb Hj Hl IH];
    intros n b Hn Hbb Hlast Hdead; [done | by eapply IH | by eapply IH |].
  destruct n as [| n]; [| exact (IH n b Hn Hbb Hlast Hdead)].
  injection Hn as <-. simpl in *.
  assert (l' = l) as ->.
  { clear -Hb Hbb. revert l Hbb. induction Hb as [i Hi Hc | i e l' Hi He Hn HJ Hb IH]; intros l Hbb.
    - inversion Hbb as [| ? ? ? ? He' Hn' HJ' Hb']; subst; [done |]. exfalso.
      pose proof (bblock_bounds _ _ _ _ Hb'). lia.
    - inversion Hbb as [? ? Hc' | ? ? ? ? He' Hn' HJ' Hb']; subst.
      + exfalso. pose proof (bblock_bounds _ _ _ _ Hb). lia.
      + f_equal. by apply IH. }
  rewrite Hj in Hlast. injection Hlast as ->. rewrite Hdead in Hl.
  destruct (layout_first _ _ _ Hl) as [[-> ->] | (b' & Hb' & Heq)]; [by left | right].
  by exists b'.
Qed.

(** Inside a block the compiler's iterator, which [readPushData] leaves on the
    last byte of the immediate, steps from instruction to instruction. *)
Lemma bblock_readPush code i e l :
  bblock code i e l -> (nxt code i <= e)%nat.
Proof.
  inversion 1 as [| ? ? ? ? ? ? ? Hb]; subst; [lia |].
  pose proof (bblock_bounds _ _ _ _ Hb). lia.
Qed.

Lemma bblock_iter code i e l :
  bblock code i e l -> S (readPushData code i e).2 = nxt code i.
Proof.
  intros Hb. pose proof (bblock_bounds _ _ _ _ Hb). pose proof (bblock_readPush _ _ _ _ Hb) as Hn.
  rewrite readPushData_curr by lia. rewrite nxt_eq in * by lia. lia.
Qed.

(** ** Properties *)

(** C14: splitting terminates on every code, and the result is a layout: the
    blocks start and end on instruction boundaries, only the last instruction
    of a block can transfer control, only its first can be a jump destination,
    and after a block that cannot fall through the split resumes at the next
    jump destination. *)
Theorem createBasicBlocks_correct code :
  exists bs, createBasicBlocks code = Some bs /\ layout code false 0 bs.
Proof. apply createBasicBlocks_layout. Qed.

(** The valid jump destinations are exactly the JUMPDEST bytes that are
    not push data: a position is a block start holding JUMPDEST iff walking
    the code instruction by instruction from 0 reaches a JUMPDEST there. *)
Theorem jumpdests_exact code bs i :
  createBasicBlocks code = Some bs ->
  (exists b, b ∈ bs /\ m_begin b = i /\ inst_at code i = JUMPDEST) <->
  (reach code 0 i /\ (i < length code)%nat /\ inst_at code i = JUMPDEST).
Proof.
  intros Hbs. apply createBasicBlocks_inv in Hbs. split.
  - intros (b & Hin & <- & HJ). destruct (layout_block _ _ _ _ _ Hbs Hin) as (Hr & _ & l & Hb).
    pose proof (bblock_start _ _ _ _ Hb). done.
  - intros (Hr & Hi & HJ). destruct (layout_jumpdest _ _ _ _ _ Hbs Hr Hi HJ) as (b & ? & ?).
    by exists b.
Qed.

(** [PUSH1 0x5b; JUMPDEST; STOP]: the first 0x5b is data, the second code. *)
Lemma jumpdests_exact_witness :
  createBasicBlocks [0x60; 0x5b; 0x5b; 0x00] = Some [mkBlock 0 0 2; mkBlock 2 2 4] /\
  ((exists b, b ∈ [mkBlock 0 0 2; mkBlock 2 2 4] /\ m_begin b = 2%nat
     /\ inst_at [0x60; 0x5b; 0x5b; 0x00] 2 = JUMPDEST) <->
   (reach [0x60; 0x5b; 0x5b; 0x00] 0 2 /\ (2 < length [0x60; 0x5b; 0x5b; 0x00])%nat
     /\ inst_at [0x60; 0x5b; 0x5b; 0x00] 2 = JUMPDEST)).
Proof.
  split; [vm_compute; reflexivity |].
  apply (jumpdests_exact [0x60; 0x5b; 0x5b; 0x00] [mkBlock 0 0 2; mkBlock 2 2 4] 2).
  vm_compute. reflexivity.
Defined.

(** Reading push data gives the big-endian number of the immediate bytes
    (zeros past the end of the code) and leaves the iterator where skipping
    the push data leaves it, which is one before the position the block
    splitter takes as the next instruction. *)
Theorem readPushData_correct code i e l :
  bytes_ok code -> bblock code i e l ->
  (readPushData code i e).1.1 = be_val (push_bytes code e (numPushBytes (code_at code i)) (S i)) /\
  (readPushData code i e).2 = skipPushData code i e /\
  S (skipPushData code i e) = skipPushDataAndGetNext code i (length code).
Proof.
  intros Hc Hb. pose proof (bblock_bounds _ _ _ _ Hb).
  assert ((readPushData code i e).2 = skipPushData code i e) as Heq
    by (rewrite readPushData_curr, skipPushData_curr by lia; done).
  split_and!; [apply readPushData_value; auto; lia | done |].
  rewrite <- Heq. by eapply bblock_iter.
Qed.

(** [PUSH3 1 2] cut short by the end of the code reads 0x010200. *)
Lemma readPushData_correct_witness :
  bytes_ok [0x62; 1; 2] /\ bblock [0x62; 1; 2] 0 3 [0%nat] /\
  (readPushData [0x62; 1; 2] 0 3).1.1 = be_val [1; 2; 0] /\
  (readPushData [0x62; 1; 2] 0 3).2 = skipPushData [0x62; 1; 2] 0 3 /\
  S (skipPushData [0x62; 1; 2] 0 3) = skipPushDataAndGetNext [0x62; 1; 2] 0 (length [0x62; 1; 2]).
Proof.
  assert (bytes_ok [0x62; 1; 2]) as H1 by (apply (bool_decide_unpack _); vm_compute; exact I).
  assert (bblock [0x62; 1; 2] 0 3 [0%nat]) as H2.
  { apply (bb_last [0x62; 1; 2] 0); [apply (bool_decide_unpack _); vm_compute; exact I |].
    right. left. vm_compute. reflexivity. }
  split; [exact H1 |]. split; [exact H2 |].
  exact (readPushData_correct [0x62; 1; 2] 0 3 [0%nat] H1 H2).
Defined.

(** A block whose last instruction does not end the flow of control is
    followed in the list by the block that starts where it ends, or ends at
    the end of the code as the last of the list (where the compiler's Stop
    block follows). *)
Theorem fallthrough_adjacent code bs n b l j :
  createBasicBlocks code = Some bs -> bs !! n = Some b ->
  bblock code (m_begin b) (m_end b) l -> last l = Some j -> setsDead (inst_at code j) = false ->
  (m_end b = length code /\ bs !! S n = None) \/
  exists b', bs !! S n = Some b' /\ m_begin b' = m_end b.
Proof. intros Hbs. apply createBasicBlocks_inv in Hbs. by eapply layout_fallthrough. Qed.

(** [JUMPI; JUMPDEST]: the block of the JUMPI falls through to the next. *)
Lemma fallthrough_adjacent_witness :
  (m_end (mkBlock 0 0 1) = length [0x57; 0x5b] /\ [mkBlock 0 0 1; mkBlock 1 1 2] !! 1%nat = None) \/
  exists b', [mkBlock 0 0 1; mkBlock 1 1 2] !! 1%nat = Some b' /\ m_begin b' = m_end (mkBlock 0 0 1).
Proof.
  apply (fallthrough_adjacent [0x57; 0x5b] [mkBlock 0 0 1; mkBlock 1 1 2] 0 (mkBlock 0 0 1) [0%nat] 0).
  - vm_compute. reflexivity.
  - reflexivity.
  - apply (bb_last [0x57; 0x5b] 0); [apply (bool_decide_unpack _); vm_compute; exact I |].
    left. vm_compute. reflexivity.
  - reflexivity.
  - vm_compute. reflexivity.
Defined.
