(* ===== verification/LLVMInt.v ===== *)
(** * LLVM integers

    The semantics of the LLVM integer instructions libevmjit emits (LLVM
    language reference, version 4.0): an iN value is a number below [2^N], and
    [None] stands for an undefined result (poison, undef, or an instruction
    whose execution is undefined such as a division by zero).  Instructions
    propagate an undefined operand; [select] only looks at the arm it picks. *)
From S2P Require Import Prelude Bytes.

(** Widths of libevmjit/Type.cpp. *)
Abbreviation i1 := 1 (only parsing).
Abbreviation i8 := 8 (only parsing).
Abbreviation i64 := 64 (only parsing).
Abbreviation Word := 128 (only parsing).
Abbreviation Word256 := 256 (only parsing).

Inductive ipred := IEQ | INE | IUGT | IUGE | IULT | IULE | ISGT | ISGE | ISLT.

Definition icmp (p : ipred) (w x y : Z) : bool :=
  match p with
  | IEQ => x =? y
  | INE => negb (x =? y)
  | IUGT => y <? x
  | IUGE => y <=? x
  | IULT => x <? y
  | IULE => x <=? y
  | ISGT => sgn w y <? sgn w x
  | ISGE => sgn w y <=? sgn w x
  | ISLT => sgn w x <? sgn w y
  end.

(** [add], [sub] and [mul] with their no-wrap flags. *)
Definition arith (f : Z -> Z -> Z) (w : Z) (nuw nsw : bool) (x y : Z) : option Z :=
  let u := f x y in
  let s := f (sgn w x) (sgn w y) in
  if nuw && negb ((0 <=? u) && (u <? 2 ^ w)) then None
  else if nsw && negb ((- 2 ^ (w - 1) <=? s) && (s <? 2 ^ (w - 1))) then None
  else Some (wrap w u).

Inductive binop :=
| Add (w : Z) (nuw nsw : bool)
| Sub (w : Z) (nuw nsw : bool)
| Mul (w : Z) (nuw nsw : bool)
| UDiv (w : Z) | URem (w : Z) | SDiv (w : Z) | SRem (w : Z)
| And (w : Z) | Or (w : Z) | Xor (w : Z)
| Shl (w : Z) | LShr (w : Z)
| ICmp (p : ipred) (w : Z).

Inductive unop :=
| ZExt (w : Z)    (** to [w] bits *)
| Trunc (w : Z)   (** to [w] bits *)
| BSwap (n : nat) (** of an [8 n]-bit integer *)
| Ctlz (w : Z).   (** with [is_zero_undef = false] *)

(** The number of leading zeros of a [w]-bit value; [w] for 0. *)
Definition ctlz (w x : Z) : Z := if x =? 0 then w else w - 1 - Z.log2 x.

(** [llvm.ctlz] with [is_zero_undef = true]. *)
Definition ctlz_nz (w x : Z) : option Z := if x =? 0 then None else Some (ctlz w x).

Definition eval_bin (op : binop) (x y : Z) : option Z :=
  match op with
  | Add w nuw nsw => arith Z.add w nuw nsw x y
  | Sub w nuw nsw => arith Z.sub w nuw nsw x y
  | Mul w nuw nsw => arith Z.mul w nuw nsw x y
  | UDiv w => if y =? 0 then None else Some (x / y)
  | URem w => if y =? 0 then None else Some (x mod y)
  | SDiv w =>
      if (y =? 0) || ((sgn w x =? - 2 ^ (w - 1)) && (sgn w y =? -1)) then None
      else Some (wrap w (Z.quot (sgn w x) (sgn w y)))
  | SRem w =>
      if (y =? 0) || ((sgn w x =? - 2 ^ (w - 1)) && (sgn w y =? -1)) then None
      else Some (wrap w (Z.rem (sgn w x) (sgn w y)))
  | And w => Some (Z.land x y)
  | Or w => Some (Z.lor x y)
  | Xor w => Some (Z.lxor x y)
  | Shl w => if y <? w then Some (wrap w (Z.shiftl x y)) else None
  | LShr w => if y <? w then Some (Z.shiftr x y) else None
  | ICmp p w => Some (if icmp p w x y then 1 else 0)
  end.

Definition eval_un (op : unop) (x : Z) : option Z :=
  match op with
  | ZExt w => Some x
  | Trunc w => Some (wrap w x)
  | BSwap n => Some (bswap n x)
  | Ctlz w => Some (ctlz w x)
  end.

(** The width of an instruction's result. *)
Definition bin_width (op : binop) : Z :=
  match op with
  | Add w _ _ | Sub w _ _ | Mul w _ _ | UDiv w | URem w | SDiv w | SRem w
  | And w | Or w | Xor w | Shl w | LShr w => w
  | ICmp _ _ => 1
  end.

Definition un_width (op : unop) : Z :=
  match op with ZExt w | Trunc w | Ctlz w => w | BSwap n => 8 * Z.of_nat n end.

(** ** Lemmas *)

Lemma arith_plain f w x y : arith f w false false x y = Some (wrap w (f x y)).
Proof. done. Qed.

(** An [add nuw] that does not wrap is the sum. *)
Lemma arith_nuw f w x y : inw w (f x y) -> arith f w true false x y = Some (f x y).
Proof.
  intros [H1 H2]. unfold arith. cbn [andb]. rewrite wrap_small by done.
  rewrite (proj2 (Z.leb_le 0 _) H1), (proj2 (Z.ltb_lt _ _) H2). done.
Qed.

Lemma arith_nuw_overflow f w x y : ~ inw w (f x y) -> arith f w true false x y = None.
Proof.
  intros H. unfold arith, inw in *. cbn [andb].
  destruct (Z.leb_spec 0 (f x y)), (Z.ltb_spec (f x y) (2 ^ w)); simpl; done || lia.
Qed.

Lemma arith_nsw f w x y :
  - 2 ^ (w - 1) <= f (sgn w x) (sgn w y) < 2 ^ (w - 1) ->
  arith f w false true x y = Some (wrap w (f x y)).
Proof.
  intros [H1 H2]. unfold arith. cbn [andb].
  rewrite (proj2 (Z.leb_le _ _) H1), (proj2 (Z.ltb_lt _ _) H2). done.
Qed.

Lemma arith_nuw_nsw f w x y :
  inw w (f x y) -> - 2 ^ (w - 1) <= f (sgn w x) (sgn w y) < 2 ^ (w - 1) ->
  arith f w true true x y = Some (f x y).
Proof.
  intros [H1 H2] [H3 H4]. unfold arith. cbn [andb].
  rewrite (proj2 (Z.leb_le _ _) H1), (proj2 (Z.ltb_lt _ _) H2).
  rewrite (proj2 (Z.leb_le _ _) H3), (proj2 (Z.ltb_lt _ _) H4). cbn [andb negb].
  by rewrite wrap_small.
Qed.

Lemma ctlz_range w x : inw w x -> 0 <= w -> 0 <= ctlz w x <= w.
Proof.
  intros [H1 H2] Hw. unfold ctlz. destruct (Z.eqb_spec x 0); [lia |].
  pose proof (Z.log2_nonneg x). assert (Z.log2 x < w) by (apply Z.log2_lt_pow2; lia). lia.
Qed.
