(* ===== verification/Arith128.v ===== *)
(** * Division, remainder and exponentiation

    libevmjit/Arith128.cpp: the functions the code generator emits for the
    arithmetic the target lacks, and the pass of libevmjit/Optimizer.cpp that
    replaces division instructions by calls to them.  Each emitted function is
    a Rocq function: its basic blocks are the branches, its phi nodes the
    arguments of the loop. *)
From S2P Require Import Prelude Bytes LLVMInt.

(** The result of calling an emitted function.  [OutOfFuel] is the bound of
    the model's loops, not an outcome of the code: the theorems show that the
    fuel given is enough. *)
Inductive outcome (A : Type) := Ret (a : A) | Undefined | OutOfFuel.
Arguments Ret {A} a.
Arguments Undefined {A}.
Arguments OutOfFuel {A}.

Definition outcome_map {A B} (f : A -> B) (o : outcome A) : outcome B :=
  match o with Ret a => Ret (f a) | Undefined => Undefined | OutOfFuel => OutOfFuel end.

(** ** createUDivRemFunc *)

(** Blocks Loop and Continue. *)
Fixpoint udivrem_loop (fuel : nat) (w yPhi rPhi iPhi qPhi : Z) : outcome (Z * Z) :=
  match fuel with
  | O => OutOfFuel
  | S fuel =>
    let rUpdate := eval_bin (Sub w true false) rPhi yPhi in
    let qUpdate := eval_bin (Or w) qPhi 1 in
    let rGEy := icmp IUGE w rPhi yPhi in
    match (if rGEy then rUpdate else Some rPhi), (if rGEy then qUpdate else Some qPhi) with
    | Some r1, Some q1 =>
      if icmp IEQ w iPhi 0 then Ret (q1, r1)
      else
        match eval_bin (Sub w true false) iPhi 1, eval_bin (Shl w) q1 1, eval_bin (LShr w) yPhi 1 with
        | Some i2, Some q2, Some y2 => udivrem_loop fuel w y2 r1 i2 q2
        | _, _, _ => Undefined
        end
    | _, _ => Undefined
    end
  end.

(** Blocks Entry, Main and Return of [evm.udivrem.iN]: (quotient, remainder). *)
Definition createUDivRemFunc (w x y : Z) : outcome (Z * Z) :=
  if icmp IULE w y x then
    match ctlz_nz w y, ctlz_nz w x with
    | Some yLz, Some rLz =>
      match eval_bin (Sub w true false) yLz rLz with
      | Some i0 =>
        match eval_bin (Shl w) y i0 with
        | Some y0 => udivrem_loop (Z.to_nat w) w y0 x i0 0
        | None => Undefined
        end
      | None => Undefined
      end
    | _, _ => Undefined
    end
  else Ret (0, x).

Abbreviation getUDivRem128Func := (createUDivRemFunc Word).
Abbreviation getUDivRem256Func := (createUDivRemFunc Word256).
Definition getUDiv128Func (x y : Z) : outcome Z := outcome_map fst (getUDivRem128Func x y).
Definition createURemFunc (w x y : Z) : outcome Z :=
  outcome_map snd ((if w =? Word then getUDivRem128Func else getUDivRem256Func) x y).
Abbreviation getURem128Func := (createURemFunc Word).
Abbreviation getURem256Func := (createURemFunc Word256).

(** ** Signed division *)

(** [sub 0, v]. *)
Definition neg128 (v : Z) : Z := wrap Word (0 - v).

Definition getSDivRem128Func (x y : Z) : outcome (Z * Z) :=
  let xIsNeg := icmp ISLT Word x 0 in
  let xNeg := neg128 x in
  let xAbs := if xIsNeg then xNeg else x in
  let yIsNeg := icmp ISLT Word y 0 in
  let yNeg := neg128 y in
  let yAbs := if yIsNeg then yNeg else y in
  match getUDivRem128Func xAbs yAbs with
  | Ret (qAbs, rAbs) =>
    let rNeg := neg128 rAbs in
    let r := if xIsNeg then rNeg else rAbs in
    let qNeg := neg128 qAbs in
    let xyOpposite := xorb xIsNeg yIsNeg in
    let q := if xyOpposite then qNeg else qAbs in
    Ret (q, r)
  | Undefined => Undefined
  | OutOfFuel => OutOfFuel
  end.

Definition getSDiv128Func (x y : Z) : outcome Z := outcome_map fst (getSDivRem128Func x y).
Definition getSRem128Func (x y : Z) : outcome Z := outcome_map snd (getSDivRem128Func x y).

(** ** Exponentiation *)

(** Blocks LoopHeader, LoopBody, ResultUpdate and Continue of [exp]. *)
Fixpoint exp_loop (fuel : nat) (r b e : Z) : outcome Z :=
  match fuel with
  | O => OutOfFuel
  | S fuel =>
    let eNonZero := icmp INE Word e 0 in
    if eNonZero then
      let eOdd := icmp INE Word (Z.land e 1) 0 in
      let r1 := if eOdd then wrap Word (r * b) else r in
      let b1 := wrap Word (b * b) in
      let e1 := Z.shiftr e 1 in
      exp_loop fuel r1 b1 e1
    else Ret r
  end.

Definition getExpFunc (base exponent : Z) : outcome Z := exp_loop 129 1 base exponent.

(** The [while] loop of [Arith128::exp] on two constants ([llvm::APInt]). *)
Fixpoint exp_const_loop (fuel : nat) (r b e : Z) : outcome Z :=
  match fuel with
  | O => OutOfFuel
  | S fuel =>
    if negb (e =? 0) then
      let r := if Z.testbit e 0 then wrap Word (r * b) else r in
      let b := wrap Word (b * b) in
      exp_const_loop fuel r b (Z.shiftr e 1)
    else Ret r
  end.

Definition exp_const (b e : Z) : outcome Z := exp_const_loop 129 1 b e.

(** ** LowerEVMPass *)

(** The call that replaces an instruction; [None] leaves it as it is. *)
Definition lowerInst (op : binop) : option (Z -> Z -> outcome Z) :=
  if bin_width op =? Word then
    match op with
    | UDiv _ => Some getUDiv128Func
    | URem _ => Some getURem128Func
    | SDiv _ => Some getSDiv128Func
    | SRem _ => Some getSRem128Func
    | _ => None
    end
  else if bin_width op =? Word256 then
    match op with
    | URem _ => Some getURem256Func
    | _ => None
    end
  else None.

(** ** Proofs *)

Lemma lor_1_even q : Z.even q = true -> Z.lor q 1 = q + 1.
Proof.
  intros H. apply Z.even_spec in H as [k ->].
  change (Z.lor (2 * k) 1) with (Z.lor (2 ^ 1 * k) 1).
  rewrite (Z.mul_comm (2 ^ 1)), <- Z.shiftl_mul_pow2 by lia. rewrite lor_shiftl_add by lia. lia.
Qed.

(** The loop invariant: [x = q 2^i y + r] with [r < 2^(i+1) y] and [q] even. *)
Lemma udivrem_loop_spec fuel w x y i q r :
  0 < w -> inw w x -> 0 < y -> 0 <= i -> (Z.to_nat i < fuel)%nat ->
  0 <= q -> Z.even q = true -> x = q * (2 ^ i * y) + r -> 0 <= r < 2 * (2 ^ i * y) -> i < w ->
  udivrem_loop fuel w (y * 2 ^ i) r i q = Ret (x / y, x mod y).
Proof.
  revert i q r. induction fuel as [| fuel IH]; intros i q r Hw Hx Hy Hi Hf Hq He Heq Hr Hiw; [lia |].
  cbn [udivrem_loop eval_bin icmp]. unfold inw in Hx.
  assert (0 < 2 ^ i) by (apply pow2_pos; lia). rewrite lor_1_even by done.
  set (q1 := if y * 2 ^ i <=? r then q + 1 else q).
  set (r1 := if y * 2 ^ i <=? r then r - y * 2 ^ i else r).
  assert (x = q1 * (2 ^ i * y) + r1 /\ 0 <= r1 < 2 ^ i * y /\ 0 <= q1) as (Heq1 & Hr1 & Hq1).
  { unfold q1, r1. destruct (Z.leb_spec (y * 2 ^ i) r); nia. }
  replace (if y * 2 ^ i <=? r then arith Z.sub w true false r (y * 2 ^ i) else Some r) with (Some r1).
  2: { unfold r1. destruct (Z.leb_spec (y * 2 ^ i) r); [| done].
       rewrite arith_nuw; [done |]. unfold inw. nia. }
  replace (if y * 2 ^ i <=? r then Some (q + 1) else Some q) with (Some q1)
    by (unfold q1; destruct (y * 2 ^ i <=? r); done).
  destruct (Z.eqb_spec i 0) as [-> | Hi0].
  - rewrite Z.pow_0_r, Z.mul_1_l in *. f_equal. f_equal.
    + rewrite Heq1, Z.div_add_l, Z.div_small; lia.
    + rewrite Heq1, Z.add_comm, Z.mod_add, Z.mod_small; lia.
  - assert (2 ^ i = 2 * 2 ^ (i - 1)) as Hpi by (apply pow2_half; lia).
    assert (0 < 2 ^ (i - 1)) as Hpp by (apply pow2_pos; lia).
    assert (i < 2 ^ w) by (pose proof (Z.pow_gt_lin_r 2 w); lia).
    rewrite arith_nuw by (unfold inw; lia).
    destruct (Z.ltb_spec 1 w); [| lia].
    assert (q1 * 2 <= q1 * (2 ^ i * y)) by (apply Z.mul_le_mono_nonneg_l; [lia |]; clear -Hy Hpi Hpp; nia).
    assert (q1 * 2 < 2 ^ w) by lia.
    rewrite wrap_small by (rewrite Z.shiftl_mul_pow2 by lia; unfold inw; lia).
    rewrite Z.shiftl_mul_pow2, Z.shiftr_div_pow2 by lia. change (2 ^ 1) with 2.
    replace (y * 2 ^ i / 2) with (y * 2 ^ (i - 1))
      by (rewrite Hpi; replace (y * (2 * 2 ^ (i - 1))) with (y * 2 ^ (i - 1) * 2) by ring;
          by rewrite Z.div_mul).
    apply IH; unfold inw; try lia. rewrite Z.even_mul. simpl. apply orb_true_r.
Qed.

Lemma udivrem_spec w x y :
  0 < w -> inw w x -> inw w y -> y <> 0 ->
  createUDivRemFunc w x y = Ret (x / y, x mod y).
Proof.
  intros Hw Hx Hy Hy0. unfold createUDivRemFunc. cbn [icmp]. unfold inw in *.
  destruct (Z.leb_spec y x) as [Hle | Hlt].
  - unfold ctlz_nz, ctlz. destruct (Z.eqb_spec y 0); [lia |]. destruct (Z.eqb_spec x 0); [lia |].
    assert (Z.log2 y <= Z.log2 x) as Hlog by (apply Z.log2_le_mono; lia).
    assert (Z.log2 x < w) by (apply Z.log2_lt_pow2; lia).
    pose proof (Z.log2_nonneg y). pose proof (Z.log2_spec x ltac:(lia)). pose proof (Z.log2_spec y ltac:(lia)).
    assert (w < 2 ^ w) by (apply Z.pow_gt_lin_r; lia).
    cbn [eval_bin]. rewrite arith_nuw by (unfold inw; lia).
    set (i0 := w - 1 - Z.log2 y - (w - 1 - Z.log2 x)).
    assert (i0 = Z.log2 x - Z.log2 y) as Hi0 by (unfold i0; lia).
    destruct (Z.ltb_spec i0 w); [| lia].
    assert (2 ^ Z.log2 x = 2 ^ i0 * 2 ^ Z.log2 y) as Hp by (rewrite <- Z.pow_add_r by lia; f_equal; lia).
    assert (2 ^ Z.succ (Z.log2 x) = 2 ^ i0 * 2 ^ Z.succ (Z.log2 y)) as Hp'
      by (rewrite <- Z.pow_add_r by lia; f_equal; lia).
    assert (2 ^ Z.succ (Z.log2 x) <= 2 ^ w) by (apply Z.pow_le_mono_r; lia).
    assert (0 < 2 ^ i0) by (apply pow2_pos; lia).
    rewrite Z.shiftl_mul_pow2 by lia. rewrite wrap_small by (unfold inw; nia).
    apply udivrem_loop_spec; rewrite ?Z.mul_0_l; unfold inw; try lia; try done.
    pose proof (Z.pow_succ_r 2 (Z.log2 x) ltac:(lia)). pose proof (Z.pow_succ_r 2 (Z.log2 y) ltac:(lia)). nia.
  - rewrite Z.div_small, Z.mod_small by lia. done.
Qed.

Lemma neg128_wrap v : neg128 v = wrap 128 (- v).
Proof. done. Qed.

(** Absolute value as the code computes it. *)
Lemma abs128_spec x :
  inw 128 x -> (if icmp ISLT 128 x 0 then neg128 x else x) = Z.abs (sgn 128 x)
    /\ inw 128 (Z.abs (sgn 128 x)) /\ icmp ISLT 128 x 0 = (sgn 128 x <? 0).
Proof.
  intros Hx. pose proof (sgn_range 128 x ltac:(lia) Hx) as Hs. change (128 - 1) with 127 in Hs.
  cbn [icmp]. rewrite (sgn_small 128 0) by done.
  split; [| split; [unfold inw; lia | done]].
  unfold sgn in *. change (2 ^ (128 - 1)) with (2 ^ 127) in *. unfold inw in Hx.
  destruct (Z.ltb_spec x (2 ^ 127)).
  - destruct (Z.ltb_spec x 0); lia.
  - destruct (Z.ltb_spec (x - 2 ^ 128) 0); [| lia]. rewrite neg128_wrap, wrap_neg by lia. lia.
Qed.

Lemma abs128_zero y : inw 128 y -> y <> 0 -> Z.abs (sgn 128 y) <> 0.
Proof.
  intros Hy Hy0 H. apply Hy0. rewrite <- (wrap_sgn 128 y) by (done || lia).
  replace (sgn 128 y) with 0 by lia. done.
Qed.

Lemma sdivrem_spec x y :
  inw 128 x -> inw 128 y -> y <> 0 ->
  getSDivRem128Func x y =
    Ret (wrap 128 (Z.quot (sgn 128 x) (sgn 128 y)), wrap 128 (Z.rem (sgn 128 x) (sgn 128 y))).
Proof.
  intros Hx Hy Hy0. unfold getSDivRem128Func.
  destruct (abs128_spec x Hx) as (-> & Hxa & ->). destruct (abs128_spec y Hy) as (-> & Hya & ->).
  pose proof (abs128_zero y Hy Hy0) as Hynz.
  rewrite udivrem_spec by (done || lia).
  set (a := sgn 128 x) in *. set (b := sgn 128 y) in *.
  assert (0 <= Z.abs a / Z.abs b < 2 ^ 128).
  { unfold inw in *. split; [apply Z.div_pos; lia |]. apply Z.div_lt_upper_bound; nia. }
  assert (0 <= Z.abs a mod Z.abs b < 2 ^ 128) by (unfold inw in *; pose proof (Z.mod_pos_bound (Z.abs a) (Z.abs b)); lia).
  assert (Z.abs a / Z.abs b = wrap 128 (Z.abs a / Z.abs b)) as Hq by (by rewrite wrap_small).
  assert (Z.abs a mod Z.abs b = wrap 128 (Z.abs a mod Z.abs b)) as Hr by (by rewrite wrap_small).
  rewrite <- Z.quot_div_nonneg in Hq by lia. rewrite <- Z.rem_mod_nonneg, Z.rem_abs_r in Hr by lia.
  rewrite <- Z.quot_div_nonneg, <- Z.rem_mod_nonneg, Z.rem_abs_r, !neg128_wrap by lia.
  f_equal. f_equal.
  - destruct (Z.ltb_spec a 0), (Z.ltb_spec b 0); cbn [xorb]; [rewrite Hq | | | rewrite Hq]; f_equal.
    + rewrite !Z.abs_neq by lia. by rewrite Z.quot_opp_opp by lia.
    + rewrite Z.abs_neq, (Z.abs_eq b) by lia. rewrite Z.quot_opp_l by lia. lia.
    + rewrite Z.abs_eq, (Z.abs_neq b) by lia. rewrite Z.quot_opp_r by lia. lia.
    + by rewrite !Z.abs_eq by lia.
  - destruct (Z.ltb_spec a 0); [| rewrite Hr]; f_equal.
    + rewrite Z.abs_neq, Z.rem_opp_l by lia. lia.
    + by rewrite Z.abs_eq by lia.
Qed.

(** Both exponentiation loops keep [r b^e] modulo [2^128]. *)
Lemma pow_split b e : 0 <= e -> b ^ e = (if Z.odd e then b else 1) * (b * b) ^ (e / 2).
Proof.
  intros He. rewrite (Z.div_mod e 2) at 1 by lia.
  pose proof (Z.div_pos e 2 He ltac:(lia)).
  rewrite Z.pow_add_r by (try lia; pose proof (Z.mod_pos_bound e 2); lia).
  rewrite Z.pow_mul_r by lia. change (b ^ 2) with (b ^ (Z.succ 1)).
  rewrite Z.pow_succ_r, Z.pow_1_r by lia. rewrite Zmod_odd. destruct (Z.odd e).
  - rewrite Z.pow_1_r. ring.
  - rewrite Z.pow_0_r. ring.
Qed.

Lemma wrap_pow w a e : 0 <= w -> 0 <= e -> wrap w (wrap w a ^ e) = wrap w (a ^ e).
Proof.
  intros Hw He. pattern e. apply natlike_ind; [done | | done].
  intros n Hn IH. rewrite !Z.pow_succ_r by lia.
  rewrite wrap_mul_l, <- wrap_mul_r, IH, wrap_mul_r by lia. done.
Qed.

Lemma exp_loop_step r b e :
  0 <= e -> wrap 128 (wrap 128 ((if Z.odd e then r * b else r)) * wrap 128 (b * b) ^ (e / 2)) = wrap 128 (r * b ^ e).
Proof.
  intros He. pose proof (Z.div_pos e 2 He ltac:(lia)).
  rewrite wrap_mul_l, <- wrap_mul_r, wrap_pow, wrap_mul_r by lia.
  rewrite (pow_split b e) by lia. f_equal. destruct (Z.odd e); ring.
Qed.

Lemma exp_loop_spec fuel r b e :
  inw 128 r -> 0 <= e < 2 ^ Z.of_nat (pred fuel) -> (0 < fuel)%nat ->
  exp_loop fuel r b e = Ret (wrap 128 (r * b ^ e)) /\ exp_const_loop fuel r b e = Ret (wrap 128 (r * b ^ e)).
Proof.
  revert r b e. induction fuel as [| fuel IH]; intros r b e Hr He Hf; [lia |].
  cbn [exp_loop exp_const_loop icmp]. destruct (Z.eqb_spec e 0) as [-> | Hne]; cbn [negb].
  - rewrite Z.pow_0_r, Z.mul_1_r, wrap_small by done. done.
  - cbn [pred] in He. destruct fuel as [| fuel]; [simpl in He; lia |].
    rewrite Z.shiftr_div_pow2 by lia. change (2 ^ 1) with 2.
    rewrite Z.bit0_odd.
    assert (Z.land e 1 = e mod 2) as -> by (apply (Z.land_ones e 1); lia). rewrite Zmod_odd.
    replace (negb ((if Z.odd e then 1 else 0) =? 0)) with (Z.odd e) by (by destruct (Z.odd e)).
    assert ((if Z.odd e then wrap 128 (r * b) else r) = wrap 128 (if Z.odd e then r * b else r)) as ->
      by (destruct (Z.odd e); [done | by rewrite wrap_small]).
    rewrite <- (exp_loop_step r b e) by lia. apply IH; [by apply wrap_inw | | lia].
    split; [apply Z.div_pos; lia |]. apply Z.div_lt_upper_bound; [lia |]. cbn [pred].
    rewrite <- Z.pow_succ_r by lia. rewrite <- Nat2Z.inj_succ. lia.
Qed.

Lemma getExpFunc_spec b e : inw 128 e -> getExpFunc b e = Ret (wrap 128 (b ^ e)).
Proof.
  intros He. unfold getExpFunc. unfold inw in He.
  rewrite (proj1 (exp_loop_spec 129 1 b e ltac:(done) ltac:(simpl; lia) ltac:(lia))). by rewrite Z.mul_1_l.
Qed.

Lemma exp_const_spec b e : inw 128 e -> exp_const b e = Ret (wrap 128 (b ^ e)).
Proof.
  intros He. unfold exp_const. unfold inw in He.
  rewrite (proj2 (exp_loop_spec 129 1 b e ltac:(done) ltac:(simpl; lia) ltac:(lia))). by rewrite Z.mul_1_l.
Qed.

(** ** Properties *)

(** C22: the emitted shift-and-subtract division terminates within the word
    width and returns quotient and remainder, for every width and every
    non-zero divisor. *)
Theorem udivrem_correct w x y :
  0 < w -> inw w x -> inw w y -> y <> 0 ->
  createUDivRemFunc w x y = Ret (x / y, x mod y).
Proof. apply udivrem_spec. Qed.

Lemma udivrem_correct_witness :
  createUDivRemFunc 128 (2 ^ 128 - 1) 10 = Ret ((2 ^ 128 - 1) / 10, (2 ^ 128 - 1) mod 10).
Proof.
  apply (udivrem_correct 128 (2 ^ 128 - 1) 10).
  - lia.
  - unfold inw. lia.
  - unfold inw. lia.
  - lia.
Defined.

(** For a divisor of zero the emitted division is undefined (it counts the
    leading zeros of the divisor with [is_zero_undef] set); it does not return
    zero for quotient and remainder as the comment of createUDivRemFunc says. *)
Theorem udivrem_zero_undefined w x : 0 <= x -> createUDivRemFunc w x 0 = Undefined.
Proof.
  intros Hx. unfold createUDivRemFunc. cbn [icmp]. destruct (Z.leb_spec 0 x); [done | lia].
Qed.

Lemma udivrem_zero_undefined_witness : createUDivRemFunc 256 7 0 = Undefined.
Proof. apply (udivrem_zero_undefined 256 7). lia. Defined.

(** The emitted signed division rounds towards zero and gives the
    remainder the sign of the dividend, for every non-zero divisor; the
    overflowing quotient of the least number by -1 wraps around to itself. *)
Theorem sdivrem_correct x y :
  inw 128 x -> inw 128 y -> y <> 0 ->
  getSDivRem128Func x y =
    Ret (wrap 128 (Z.quot (sgn 128 x) (sgn 128 y)), wrap 128 (Z.rem (sgn 128 x) (sgn 128 y))).
Proof. apply sdivrem_spec. Qed.

Lemma sdivrem_correct_witness :
  getSDivRem128Func (wrap 128 (-7)) 2 = Ret (wrap 128 (-3), wrap 128 (-1)).
Proof.
  change (wrap 128 (-3)) with (wrap 128 (Z.quot (sgn 128 (wrap 128 (-7))) (sgn 128 2))).
  change (wrap 128 (-1)) with (wrap 128 (Z.rem (sgn 128 (wrap 128 (-7))) (sgn 128 2))).
  apply (sdivrem_correct (wrap 128 (-7)) 2).
  - apply wrap_inw. lia.
  - unfold inw. lia.
  - lia.
Defined.

(** C23: square-and-multiply terminates within 129 rounds and computes the
    power modulo [2^128], and the compile-time evaluation of EXP on constants
    computes the same number as the emitted function. *)
Theorem exp_correct b e :
  inw 128 e ->
  getExpFunc b e = Ret (b ^ e mod 2 ^ 128) /\ exp_const b e = getExpFunc b e.
Proof.
  intros He. unfold getExpFunc, exp_const. unfold inw in He.
  destruct (exp_loop_spec 129 1 b e ltac:(done) ltac:(simpl; lia) ltac:(lia)) as [-> ->].
  rewrite Z.mul_1_l. done.
Qed.

Lemma exp_correct_witness :
  getExpFunc 3 100 = Ret (3 ^ 100 mod 2 ^ 128) /\ exp_const 3 100 = getExpFunc 3 100.
Proof. apply (exp_correct 3 100). unfold inw. lia. Defined.

(** Replacing a division instruction by the call [LowerEVMPass] puts in
    its place keeps its value wherever the instruction's own is defined. *)
Theorem lowerInst_correct op f x y z :
  lowerInst op = Some f -> inw (bin_width op) x -> inw (bin_width op) y ->
  eval_bin op x y = Some z -> f x y = Ret z.
Proof.
  intros Hf Hx Hy Hz. unfold lowerInst in Hf.
  destruct (Z.eqb_spec (bin_width op) 128) as [Hw | _];
    [| destruct (Z.eqb_spec (bin_width op) 256) as [Hw | _]; [| done]];
    destruct op; cbn [bin_width] in *; subst; try done; injection Hf as <-; cbn [eval_bin] in Hz.
  1, 2, 5: destruct (Z.eqb_spec y 0); [done |]; injection Hz as <-;
    unfold getUDiv128Func, createURemFunc; simpl; by rewrite udivrem_spec by (done || lia).
  all: destruct (Z.eqb_spec y 0); [done |]; cbn [orb] in Hz;
    unfold getSDiv128Func, getSRem128Func; rewrite sdivrem_spec by done;
    case_match; [done |]; by injection Hz as <-.
Qed.

Lemma lowerInst_correct_witness :
  lowerInst (SDiv 128) = Some getSDiv128Func /\ getSDiv128Func (wrap 128 (-7)) 2 = Ret (wrap 128 (-3)).
Proof.
  split; [reflexivity |].
  apply (lowerInst_correct (SDiv 128) getSDiv128Func (wrap 128 (-7)) 2 (wrap 128 (-3))).
  - reflexivity.
  - apply wrap_inw. simpl. lia.
  - unfold inw. simpl. lia.
  - vm_compute. reflexivity.
Defined.
