(* ===== verification/EvmAbi.v ===== *)
(** * The EVM-C interface

    include/evm.h: revisions, messages, results, the host's function table.
    Fixed-size byte arrays are lists of byte values.  The host (the Java side
    behind the JNI library, or any other client) is a parameter: a record of
    functions over an abstract host state. *)
From S2P Require Import Prelude Bytes.

(** [enum evm_revision]. *)
Inductive evm_revision :=
| EVM_FRONTIER | EVM_HOMESTEAD | EVM_TANGERINE_WHISTLE | EVM_SPURIOUS_DRAGON
| EVM_BYZANTIUM | EVM_AION | EVM_CONSTANTINOPLE | EVM_AION_V1.

#[global] Instance evm_revision_eq_dec : EqDecision evm_revision.
Proof. solve_decision. Defined.

Definition rev_num (r : evm_revision) : Z :=
  match r with
  | EVM_FRONTIER => 0 | EVM_HOMESTEAD => 1 | EVM_TANGERINE_WHISTLE => 2 | EVM_SPURIOUS_DRAGON => 3
  | EVM_BYZANTIUM => 4 | EVM_AION => 5 | EVM_CONSTANTINOPLE => 6 | EVM_AION_V1 => 7
  end.

(** [r >= r'] on the enumerators. *)
Definition rev_ge (r r' : evm_revision) : bool := rev_num r' <=? rev_num r.

(** [enum evm_call_kind]. *)
Inductive evm_call_kind := EVM_CALL | EVM_DELEGATECALL | EVM_CALLCODE | EVM_CREATE.

#[global] Instance evm_call_kind_eq_dec : EqDecision evm_call_kind.
Proof. solve_decision. Defined.

Definition call_kind_num (k : evm_call_kind) : Z :=
  match k with EVM_CALL => 0 | EVM_DELEGATECALL => 1 | EVM_CALLCODE => 2 | EVM_CREATE => 3 end.

(** [enum evm_flags]. *)
Abbreviation EVM_STATIC := (1).

(** [struct evm_message]. *)
Record evm_message := mkMessage {
  address : list Z;    (* 32 bytes *)
  caller : list Z;     (* 32 bytes *)
  value : list Z;      (* 16 bytes *)
  input : list Z;
  code_hash : list Z;  (* 32 bytes *)
  msg_gas : Z;         (* int64_t *)
  depth : Z;           (* int32_t *)
  kind : evm_call_kind;
  flags : Z            (* uint32_t *)
}.

(** [struct evm_tx_context]; the three numbers are [int64_t]. *)
Record evm_tx_context := mkTxContext {
  tx_gas_price : list Z;     (* 16 bytes *)
  tx_origin : list Z;        (* 32 bytes *)
  block_coinbase : list Z;   (* 32 bytes *)
  block_number : Z;
  block_timestamp : Z;
  block_gas_limit : Z;
  block_difficulty : list Z  (* 16 bytes *)
}.

(** [enum evm_status_code]; a host may report a number without an enumerator. *)
Inductive evm_status_code :=
| EVM_SUCCESS | EVM_FAILURE | EVM_OUT_OF_GAS | EVM_BAD_INSTRUCTION | EVM_BAD_JUMP_DESTINATION
| EVM_STACK_OVERFLOW | EVM_STACK_UNDERFLOW | EVM_REVERT | EVM_STATIC_MODE_ERROR
| EVM_REJECTED | EVM_INTERNAL_ERROR
| EVM_UNNAMED (n : Z).

#[global] Instance evm_status_code_eq_dec : EqDecision evm_status_code.
Proof. solve_decision. Defined.

Definition status_num (s : evm_status_code) : Z :=
  match s with
  | EVM_SUCCESS => 0 | EVM_FAILURE => 1 | EVM_OUT_OF_GAS => 2 | EVM_BAD_INSTRUCTION => 3
  | EVM_BAD_JUMP_DESTINATION => 4 | EVM_STACK_OVERFLOW => 5 | EVM_STACK_UNDERFLOW => 6
  | EVM_REVERT => 7 | EVM_STATIC_MODE_ERROR => 8 | EVM_REJECTED => -1 | EVM_INTERNAL_ERROR => -2
  | EVM_UNNAMED n => n
  end.

(** [struct evm_result] less its release hook; [output_data] and
    [output_size] are one list. *)
Record evm_result := mkResult {
  status_code : evm_status_code;
  gas_left : Z;        (* int64_t *)
  output : list Z
}.

(** [struct evm_context_fn_table]: the callbacks, over the host state [H]. *)
Record evm_context_fn_table (H : Type) := mkHost {
  account_exists : H -> list Z -> Z;
  get_storage : H -> list Z -> list Z -> list Z;
  set_storage : H -> list Z -> list Z -> list Z -> H;
  get_balance : H -> list Z -> list Z;
  get_code : H -> list Z -> list Z;
  selfdestruct : H -> list Z -> list Z -> H;
  host_call : H -> evm_message -> evm_result * H;
  get_tx_context : H -> evm_tx_context;
  get_block_hash : H -> Z -> list Z;
  host_log : H -> list Z -> list Z -> list (list Z) -> H
}.
Arguments account_exists {H}.
Arguments get_storage {H}.
Arguments set_storage {H}.
Arguments get_balance {H}.
Arguments get_code {H}.
Arguments selfdestruct {H}.
Arguments host_call {H}.
Arguments get_tx_context {H}.
Arguments get_block_hash {H}.
Arguments host_log {H}.

(** A byte array of a fixed length. *)
Definition bytes_of_len (n : nat) (l : list Z) : Prop := length l = n /\ bytes_ok l.

(** What the interface documents of the host's answers: the sizes of the
    byte arrays, a code that fits in memory, a call result with a gas amount
    between zero and the gas given, an output that holds the address of a
    created account, and a transaction context that does not change. *)
Record host_ok {H} (T : evm_context_fn_table H) : Prop := {
  ok_storage h a k : bytes_of_len 16 (get_storage T h a k);
  ok_balance h a : bytes_of_len 16 (get_balance T h a);
  ok_code h a : bytes_ok (get_code T h a) /\ Z.of_nat (length (get_code T h a)) < 2 ^ 64;
  ok_exists h a : account_exists T h a = 0 \/ account_exists T h a = 1;
  ok_hash h n : bytes_of_len 32 (get_block_hash T h n);
  ok_tx h : let c := get_tx_context T h in
    bytes_of_len 16 (tx_gas_price c) /\ bytes_of_len 32 (tx_origin c) /\
    bytes_of_len 32 (block_coinbase c) /\ inw 64 (block_number c) /\
    inw 64 (block_timestamp c) /\ inw 64 (block_gas_limit c) /\ bytes_of_len 16 (block_difficulty c);
  ok_tx_const h h' : get_tx_context T h = get_tx_context T h';
  ok_call_gas h m : 0 <= msg_gas m -> 0 <= gas_left (host_call T h m).1 <= msg_gas m;
  ok_call_out h m : bytes_ok (output (host_call T h m).1) /\
    Z.of_nat (length (output (host_call T h m).1)) < 2 ^ 64;
  ok_call_create h m : kind m = EVM_CREATE -> status_code (host_call T h m).1 = EVM_SUCCESS ->
    (32 <= length (output (host_call T h m).1))%nat
}.

(** A message as the interface describes it. *)
Record message_ok (m : evm_message) : Prop := {
  ok_address : bytes_of_len 32 (address m);
  ok_caller : bytes_of_len 32 (caller m);
  ok_value : bytes_of_len 16 (value m);
  ok_input : bytes_ok (input m) /\ Z.of_nat (length (input m)) < 2 ^ 63;
  ok_depth : 0 <= depth m < 2 ^ 31
}.
