(* ===== verification/GasSchedule.v ===== *)
(** * Energy costs

    The [JITSchedule] constants of libevmjit/JIT.h and the static costs of
    [GasMeter::getStepCost] (libevmjit/GasMeter.cpp). *)
From S2P Require Import Prelude Bytes Instruction EvmAbi.

Record JITSchedule := mkJITSchedule {
  stackLimit : Z;
  stepGas0 : Z;
  stepGas1 : Z;
  stepGas2 : Z;
  stepGas3 : Z;
  stepGas4 : Z;
  stepGas5 : Z;
  stepGas6 : Z;
  stepGas7 : Z;
  expByteGas : Z;
  sha3Gas : Z;
  sha3WordGas : Z;
  sloadGas : Z;
  sstoreSetGas : Z;
  sstoreResetGas : Z;
  sstoreClearGas : Z;
  jumpdestGas : Z;
  logGas : Z;
  logDataGas : Z;
  logTopicGas : Z;
  createGas : Z;
  callGas : Z;
  memoryGas : Z;
  copyGas : Z;
  valueTransferGas : Z;
  callStipend : Z;
  callNewAccount : Z
}.

(** Its constants. *)
Definition schedule : JITSchedule := {|
  stackLimit := 1024;
  stepGas0 := 0;
  stepGas1 := 2;
  stepGas2 := 3;
  stepGas3 := 5;
  stepGas4 := 8;
  stepGas5 := 10;
  stepGas6 := 20;
  stepGas7 := 0;
  expByteGas := 10;
  sha3Gas := 30;
  sha3WordGas := 6;
  sloadGas := 50;
  sstoreSetGas := 20000;
  sstoreResetGas := 5000;
  sstoreClearGas := 5000;
  jumpdestGas := 1;
  logGas := 375;
  logDataGas := 8;
  logTopicGas := 375;
  createGas := 32000;
  callGas := 40;
  memoryGas := 3;
  copyGas := 3;
  valueTransferGas := 9000;
  callStipend := 2300;
  callNewAccount := 25000
|}.

(** [GasMeter::getStepCost]. *)
Definition getStepCost (rev : evm_revision) (inst : Instruction) : Z :=
  match inst with
  | STOP | RETURN | REVERT | SSTORE => schedule.(stepGas0)
  | ADDRESS | ORIGIN | CALLER | CALLVALUE | CALLDATASIZE | RETURNDATASIZE | CODESIZE | GASPRICE
  | COINBASE | TIMESTAMP | NUMBER | DIFFICULTY | GASLIMIT | POP | PC | MSIZE | GAS =>
      if rev_ge rev EVM_AION then 1 else schedule.(stepGas1)
  | ADD | SUB | LT | GT | SLT | SGT | EQ | ISZERO | AND | OR | XOR | NOT | BYTE | CALLDATALOAD
  | CALLDATACOPY | RETURNDATACOPY | CODECOPY | MLOAD | MSTORE | MSTORE8
  | PUSH _ | DUP _ | SWAP _ =>
      if rev_ge rev EVM_AION then 1 else schedule.(stepGas2)
  | MUL | DIV | SDIV | MOD | SMOD | SIGNEXTEND => if rev_ge rev EVM_AION then 1 else schedule.(stepGas3)
  | ADDMOD | MULMOD | JUMP => if rev_ge rev EVM_AION then 1 else schedule.(stepGas4)
  | EXP | JUMPI => if rev_ge rev EVM_AION then 1 else schedule.(stepGas5)
  | BALANCE =>
      if rev_ge rev EVM_AION then 1000
      else if rev_ge rev EVM_TANGERINE_WHISTLE then 400 else schedule.(stepGas6)
  | EXTCODESIZE | EXTCODECOPY =>
      if rev_ge rev EVM_AION then 1000
      else if rev_ge rev EVM_TANGERINE_WHISTLE then 700 else schedule.(stepGas6)
  | BLOCKHASH => schedule.(stepGas6)
  | SHA3 => schedule.(sha3Gas)
  | SLOAD =>
      if rev_ge rev EVM_AION then 1000
      else if rev_ge rev EVM_TANGERINE_WHISTLE then 200 else schedule.(sloadGas)
  | JUMPDEST => schedule.(jumpdestGas)
  | LOG n =>
      let numTopics := Z.of_nat n in
      (if rev_ge rev EVM_AION then 500 else schedule.(logGas))
      + numTopics * (if rev_ge rev EVM_AION then 500 else schedule.(logTopicGas))
  | CALL | CALLCODE | DELEGATECALL | STATICCALL =>
      if rev_ge rev EVM_AION then 1000
      else if rev_ge rev EVM_TANGERINE_WHISTLE then 700 else schedule.(callGas)
  | CREATE => if rev_ge rev EVM_AION then 200000 else schedule.(createGas)
  | SELFDESTRUCT => if rev_ge rev EVM_TANGERINE_WHISTLE then 5000 else schedule.(stepGas0)
  | INVALID _ => 0
  end.

Lemma getStepCost_range rev b : inw 8 b -> 0 <= getStepCost rev (Instruction_of_byte b) <= 200000.
Proof.
  intros Hb.
  assert ((0 <=? getStepCost rev (Instruction_of_byte b))
    && (getStepCost rev (Instruction_of_byte b) <=? 200000) = true) as H.
  { revert b Hb.
    apply (forall_byte (fun b => (0 <=? getStepCost rev (Instruction_of_byte b))
      && (getStepCost rev (Instruction_of_byte b) <=? 200000))).
    by destruct rev; vm_compute. }
  apply andb_true_iff in H as [H1 H2]. lia.
Qed.
