(* ===== verification/Keccak.v ===== *)
(** * Keccak-256

    libkeccak-tiny as it stands in libevmjit/Utils.cpp: the permutation on 25
    64-bit lanes, the sponge on 200 bytes, and [keccak], the function bound to
    the SHA3 instruction and used for code hashes. *)
From S2P Require Import Prelude Bytes.

(** ** The code *)

Definition rho : list Z :=
  [1; 3; 6; 10; 15; 21; 28; 36; 45; 55; 2; 14; 27; 41; 56; 8; 25; 43; 62; 18; 39; 61; 20; 44].

Definition pi : list nat :=
  [10; 7; 11; 17; 18; 3; 5; 16; 8; 21; 24; 4; 15; 23; 19; 13; 12; 2; 20; 14; 22; 9; 6; 1]%nat.

Definition RC : list Z :=
  [1; 0x8082; 0x800000000000808a; 0x8000000080008000;
   0x808b; 0x80000001; 0x8000000080008081; 0x8000000000008009;
   0x8a; 0x88; 0x80008009; 0x8000000a;
   0x8000808b; 0x800000000000008b; 0x8000000000008089; 0x8000000000008003;
   0x8000000000008002; 0x8000000000000080; 0x800a; 0x800000008000000a;
   0x8000000080008081; 0x8000000000008080; 0x80000001; 0x8000000080008008].

(** [#define rol(x, s)] on [uint64_t]. *)
Abbreviation rol x s := (Z.lor (wrap 64 (Z.shiftl x s)) (Z.shiftr x (64 - s))).

(** An array element and an array store. *)
Definition aget (a : list Z) (i : nat) : Z := default 0 (a !! i).
Definition aset (a : list Z) (i : nat) (v : Z) : list Z := <[i := v]> a.

(** [~x] on [uint64_t]. *)
Definition not64 (x : Z) : Z := Z.lxor x (2 ^ 64 - 1).

Definition for5 {S} (f : nat -> S -> S) (s : S) : S := foldl (fun s x => f x s) s (seq 0 5).

(** Theta: the column parities [b], then the xor of two of them into every lane. *)
Definition theta (a : list Z) : list Z :=
  let b := for5 (fun x b => aset b x
    (for5 (fun y p => Z.lxor p (aget a (x + 5 * y)%nat)) 0)) (replicate 5 0) in
  for5 (fun x a => for5 (fun y a =>
    aset a (5 * y + x)%nat (Z.lxor (aget a (5 * y + x)%nat)
      (Z.lxor (aget b ((x + 4) mod 5)%nat) (rol (aget b ((x + 1) mod 5)%nat) 1)))) a) a.

(** Rho and pi: one walk along the cycle of lanes. *)
Definition rho_pi (a : list Z) : list Z :=
  (foldl (fun '(a, t) x =>
     let j := default 0%nat (pi !! x) in
     let b0 := aget a j in
     (aset a j (rol t (aget rho x)), b0)) (a, aget a 1) (seq 0 24)).1.

(** Chi, row by row. *)
Definition chi (a : list Z) : list Z :=
  for5 (fun y a =>
    let b := for5 (fun x b => aset b x (aget a (5 * y + x)%nat)) (replicate 5 0) in
    for5 (fun x a => aset a (5 * y + x)%nat
      (Z.lxor (aget b x) (Z.land (not64 (aget b ((x + 1) mod 5)%nat)) (aget b ((x + 2) mod 5)%nat)))) a) a.

Definition round (i : nat) (a : list Z) : list Z :=
  let a := chi (rho_pi (theta a)) in
  aset a 0 (Z.lxor (aget a 0) (aget RC i)).

(** The 25 lanes of 200 bytes, and back (the cast [(uint64_t* )state] on a
    little-endian host). *)
Definition lanes (bs : list Z) : list Z :=
  (fun i => Endianness.native_val (take 8 (drop (8 * i) bs))) <$> seq 0 25.
Definition unlanes (a : list Z) : list Z := concat (Endianness.native_bytes 8 <$> a).

Definition keccakf (state : list Z) : list Z :=
  unlanes (foldl (fun a i => round i a) (lanes state) (seq 0 24)).

Abbreviation Plen := (200%nat).

(** [xorin(dst, src, len)]: the first [length src] bytes of the state. *)
Definition xorin (a src : list Z) : list Z :=
  zip_with Z.lxor (take (length src) a) src ++ drop (length src) a.

(** [foldP(in, inlen, xorin)]: absorb the full blocks; the state and the rest
    of the input.  [fuel] is the number of bytes left plus one. *)
Fixpoint absorb (fuel : nat) (rate : nat) (a inp : list Z) : list Z * list Z :=
  match fuel with
  | O => (a, inp)
  | S fuel =>
    if (rate <=? length inp)%nat
    then absorb fuel rate (keccakf (xorin a (take rate inp))) (drop rate inp)
    else (a, inp)
  end.

(** [foldP(out, outlen, setout)] and the last [setout]. *)
Fixpoint squeeze (fuel : nat) (rate outlen : nat) (a : list Z) : list Z :=
  match fuel with
  | O => []
  | S fuel =>
    if (rate <=? outlen)%nat
    then take rate a ++ squeeze fuel rate (outlen - rate) (keccakf a)
    else take outlen a
  end.

(** [hash(out, outlen, in, inlen, rate, delim)]; [None] is the error code -1. *)
Definition hash (outlen : nat) (inp : list Z) (rate : nat) (delim : Z) : option (list Z) :=
  if (Plen <=? rate)%nat then None
  else
    let a := replicate Plen 0 in
    let '(a, inp) := absorb (S (length inp)) rate a inp in
    let a := aset a (length inp) (Z.lxor (aget a (length inp)) delim) in
    let a := aset a (rate - 1) (Z.lxor (aget a (rate - 1)) 0x80) in
    let a := xorin a inp in
    let a := keccakf a in
    Some (squeeze (S outlen) rate outlen a).

(** [defkeccak(256)]. *)
Definition keccak_256 (outlen : nat) (inp : list Z) : option (list Z) :=
  if (32 <? outlen)%nat then None else hash outlen inp (200 - 256 / 4) 0x01.

(** [keccak]: the error code is ignored; 32 bytes never fail. *)
Definition keccak (data : list Z) : list Z := default [] (keccak_256 32 data).

Example keccak_empty :
  be_val (keccak []) = 0xc5d2460186f7233c927e7db2dcc703c0e500b653ca82273b7bfad8045d85a470.
Proof. vm_compute. reflexivity. Qed.

(** ** Shapes *)

Lemma length_aset a i v : length (aset a i v) = length a.
Proof. apply length_insert. Qed.

Lemma foldl_inv {A B} (P : A -> Prop) (f : A -> B -> A) l a :
  P a -> (forall a b, P a -> P (f a b)) -> P (foldl f a l).
Proof. intros Ha Hf. revert a Ha. induction l; simpl; auto. Qed.

Lemma for5_inv {S} (P : S -> Prop) (f : nat -> S -> S) s :
  P s -> (forall x s, P s -> P (f x s)) -> P (for5 f s).
Proof. intros Hs Hf. unfold for5. apply (foldl_inv P); auto. Qed.

Lemma length_theta a : length (theta a) = length a.
Proof.
  unfold theta. apply (for5_inv (fun s : list Z => length s = length a)); [done |]. intros x s Hs. apply (for5_inv (fun s : list Z => length s = length a)); [done |].
  intros y s' Hs'. by rewrite length_aset.
Qed.

Lemma length_rho_pi a : length (rho_pi a) = length a.
Proof.
  unfold rho_pi. apply (foldl_inv (fun s : list Z * Z => length s.1 = length a)); [done |].
  intros [s t] x Hs. simpl in *. by rewrite length_aset.
Qed.

Lemma length_chi a : length (chi a) = length a.
Proof.
  unfold chi. apply (for5_inv (fun s : list Z => length s = length a)); [done |]. intros y s Hs. apply (for5_inv (fun s : list Z => length s = length a)); [done |].
  intros x s' Hs'. by rewrite length_aset.
Qed.

Lemma length_round i a : length (round i a) = length a.
Proof. unfold round. rewrite length_aset, length_chi, length_rho_pi. apply length_theta. Qed.

Lemma length_unlanes a : length (unlanes a) = (8 * length a)%nat.
Proof.
  unfold unlanes. induction a as [| x a IH]; [done |]. cbn [fmap list_fmap concat length].
  rewrite length_app, IH. unfold Endianness.native_bytes, Endianness.IsLittleEndianHost.
  rewrite length_le_bytes. lia.
Qed.


Lemma length_keccakf state : length (keccakf state) = Plen.
Proof.
  unfold keccakf. rewrite length_unlanes.
  replace (length _) with 25%nat; [done |]. symmetry.
  apply (foldl_inv (fun a => length a = 25%nat)); [done |].
  intros a i Ha. by rewrite length_round.
Qed.

Lemma keccakf_ok state : bytes_ok (keccakf state).
Proof.
  unfold keccakf, unlanes. generalize (foldl (fun a i => round i a) (lanes state) (seq 0 24)).
  induction l as [| x l IH]; [constructor |]. cbn [fmap list_fmap concat].
  apply Forall_app. split; [apply le_bytes_ok | done].
Qed.

Lemma length_xorin a src : (length src <= length a)%nat -> length (xorin a src) = length a.
Proof.
  intros H. unfold xorin. rewrite length_app, length_zip_with, length_take, length_drop. lia.
Qed.

(** ** The sponge *)

(** The multi-rate padding: the domain byte, zeros, and the last bit of the
    block; on a single byte of room the two meet. *)
Definition pad (rate : nat) (delim : Z) (msg : list Z) : list Z :=
  let room := (rate - length msg mod rate)%nat in
  msg ++ (if (room =? 1)%nat then [Z.lxor delim 0x80]
          else delim :: replicate (room - 2) 0 ++ [0x80]).

Fixpoint blocks (n rate : nat) (l : list Z) : list (list Z) :=
  match n with
  | O => []
  | S n => take rate l :: blocks n rate (drop rate l)
  end.

(** The reference sponge: xor each block of the padded message into the
    state, permute, and read the state. *)
Definition sponge (rate : nat) (delim : Z) (msg : list Z) : list Z :=
  foldl (fun s b => keccakf (xorin s b)) (replicate Plen 0)
    (blocks (S (length msg / rate)) rate (pad rate delim msg)).

(** The frame of the last block. *)
Definition frame (rate : nat) (delim : Z) (n : nat) : list Z :=
  if (rate - n =? 1)%nat then [Z.lxor delim 0x80] else delim :: replicate (rate - n - 2) 0 ++ [0x80].

Lemma length_frame rate delim n : (n < rate)%nat -> length (frame rate delim n) = (rate - n)%nat.
Proof.
  intros H. unfold frame. destruct (Nat.eqb_spec (rate - n) 1); simpl; [lia |].
  rewrite length_app, length_replicate. simpl. lia.
Qed.

Lemma xorin_lookup a src i :
  (length src <= length a)%nat ->
  xorin a src !! i = if (i <? length src)%nat
    then Some (Z.lxor (aget a i) (aget src i)) else a !! i.
Proof.
  intros H. unfold xorin. destruct (Nat.ltb_spec i (length src)).
  - rewrite lookup_app_l by (rewrite length_zip_with, length_take; lia).
    destruct (lookup_lt_is_Some_2 a i) as [x Hx]; [lia |].
    destruct (lookup_lt_is_Some_2 src i) as [y Hy]; [lia |].
    unfold aget. rewrite Hx, Hy. apply lookup_zip_with_Some.
    exists x, y. split_and!; auto. rewrite lookup_take_lt by lia. done.
  - rewrite lookup_app_r by (rewrite length_zip_with, length_take; lia).
    rewrite length_zip_with, length_take, lookup_drop. f_equal. lia.
Qed.

Lemma aset_lookup a j v i :
  (j < length a)%nat -> aset a j v !! i = if (i =? j)%nat then Some v else a !! i.
Proof.
  intros H. unfold aset. destruct (Nat.eqb_spec i j) as [-> |].
  - by apply list_lookup_insert_eq.
  - by apply list_lookup_insert_ne.
Qed.

Lemma frame_get rate delim n i :
  (n < rate)%nat -> (i < rate - n)%nat ->
  aget (frame rate delim n) i =
    Z.lxor (if (i =? 0)%nat then delim else 0) (if (n + i =? rate - 1)%nat then 0x80 else 0).
Proof.
  intros Hn Hi. unfold frame, aget.
  destruct (Nat.eqb_spec (rate - n) 1).
  - replace i with 0%nat by lia. simpl. destruct (Nat.eqb_spec (n + 0) (rate - 1)); [done | lia].
  - destruct i as [| i]; simpl.
    + destruct (Nat.eqb_spec (n + 0) (rate - 1)); [lia |]. by rewrite Z.lxor_0_r.
    + destruct (Nat.eqb_spec (n + S i) (rate - 1)).
      * rewrite lookup_app_r, length_replicate by (rewrite length_replicate; lia).
        by replace (i - (rate - n - 2))%nat with 0%nat by lia.
      * rewrite lookup_app_l, lookup_replicate_2 by (rewrite ?length_replicate; lia). done.
Qed.

Lemma aget_app a b i : aget (a ++ b) i = if (i <? length a)%nat then aget a i else aget b (i - length a).
Proof.
  unfold aget. destruct (Nat.ltb_spec i (length a)); [by rewrite lookup_app_l | by rewrite lookup_app_r].
Qed.

(** The three xors of the last block are one xor of the framed rest. *)
Lemma last_block rate delim a rest :
  (length rest < rate <= length a)%nat ->
  xorin (aset (aset a (length rest) (Z.lxor (aget a (length rest)) delim)) (rate - 1)
    (Z.lxor (aget (aset a (length rest) (Z.lxor (aget a (length rest)) delim)) (rate - 1)) 0x80)) rest
  = xorin a (rest ++ frame rate delim (length rest)).
Proof.
  intros H. apply list_eq. intros i.
  rewrite !xorin_lookup by (rewrite ?length_aset, ?length_app, ?length_frame; lia).
  rewrite length_app, length_frame by lia.
  replace (length rest + (rate - length rest))%nat with rate by lia.
  rewrite !aset_lookup by (rewrite ?length_aset; lia).
  rewrite aget_app. unfold aget at 1 2 4 5. rewrite !aset_lookup by (rewrite ?length_aset; lia).
  destruct (Nat.ltb_spec i rate) as [Hi | Hi].
  - destruct (lookup_lt_is_Some_2 a i) as [x Hx]; [lia |].
    destruct (Nat.ltb_spec i (length rest)).
    + destruct (Nat.eqb_spec i (rate - 1)); [lia |]. destruct (Nat.eqb_spec i (length rest)); [lia |]. done.
    + rewrite frame_get by lia.
      replace (length rest + (i - length rest))%nat with i by lia.
      unfold aget. rewrite Hx. simpl.
      destruct (Nat.eqb_spec i (length rest)) as [-> |], (Nat.eqb_spec (rate - 1) (length rest)) as [e |];
        rewrite ?e, ?Nat.eqb_refl, ?Nat.sub_diag; simpl;
        [| | destruct (Nat.eqb_spec i (rate - 1)); [lia |] | destruct (Nat.eqb_spec i (rate - 1)) as [-> |]].
      all: repeat match goal with |- context [(?x =? ?y)%nat] => destruct (Nat.eqb_spec x y); try lia end;
        rewrite ?Hx; simpl; rewrite ?Z.lxor_0_r, ?Z.lxor_0_l; try done.
      all: rewrite aset_lookup by lia;
        repeat match goal with |- context [(?x =? ?y)%nat] => destruct (Nat.eqb_spec x y); try lia end.
      * simpl. by rewrite Z.lxor_assoc.
      * by rewrite Hx.
  - destruct (Nat.ltb_spec i (length rest)); [lia |].
    destruct (Nat.eqb_spec i (rate - 1)); [lia |]. destruct (Nat.eqb_spec i (length rest)); [lia |]. done.
Qed.

Lemma blocks_app n rate b l :
  length b = rate -> blocks (S n) rate (b ++ l) = b :: blocks n rate l.
Proof.
  intros H. cbn [blocks]. f_equal; [by rewrite take_app_length' | by rewrite drop_app_length'].
Qed.

Lemma pad_drop rate delim msg :
  (0 < rate <= length msg)%nat -> pad rate delim msg = take rate msg ++ pad rate delim (drop rate msg).
Proof.
  intros H. unfold pad. rewrite length_drop.
  assert ((length msg - rate) mod rate = length msg mod rate)%nat as ->.
  { replace (length msg) with ((length msg - rate) + 1 * rate)%nat at 2 by lia. by rewrite Nat.Div0.mod_add. }
  by rewrite app_assoc, take_drop.
Qed.

(** Absorbing the full blocks and then the framed rest is the reference. *)
Lemma absorb_sponge fuel rate delim a msg :
  (0 < rate)%nat -> (length msg < fuel)%nat ->
  foldl (fun s b => keccakf (xorin s b)) a (blocks (S (length msg / rate)) rate (pad rate delim msg)) =
    keccakf (xorin (absorb fuel rate a msg).1
      ((absorb fuel rate a msg).2 ++ frame rate delim (length (absorb fuel rate a msg).2)))
  /\ (length (absorb fuel rate a msg).2 < rate)%nat
  /\ (length a = Plen -> length (absorb fuel rate a msg).1 = Plen).
Proof.
  revert a msg. induction fuel as [| fuel IH]; intros a msg Hr Hf; [lia |]. cbn [absorb].
  destruct (Nat.leb_spec rate (length msg)) as [Hle | Hlt].
  - destruct (IH (keccakf (xorin a (take rate msg))) (drop rate msg)) as (H1 & H2 & H3);
      [done | rewrite length_drop; lia |].
    split_and!; [| done | intros _; apply H3, length_keccakf].
    rewrite pad_drop by lia. rewrite length_drop in H1.
    replace (length msg / rate)%nat with (S ((length msg - rate) / rate)).
    2: { replace (length msg) with ((length msg - rate) + 1 * rate)%nat at 2 by lia.
         rewrite Nat.div_add by lia. lia. }
    rewrite blocks_app by (rewrite length_take; lia). exact H1.
  - cbn [fst snd]. split_and!; [| done | done].
    rewrite Nat.div_small by done. cbn [blocks foldl]. unfold pad. rewrite Nat.mod_small by done.
    fold (frame rate delim (length msg)).
    rewrite take_ge; [done |]. rewrite length_app, length_frame; lia.
Qed.

Lemma squeeze_one outlen rate a : (outlen < rate)%nat -> squeeze (S outlen) rate outlen a = take outlen a.
Proof. intros H. cbn [squeeze]. destruct (Nat.leb_spec rate outlen); [lia | done]. Qed.

Lemma hash_sponge outlen msg rate delim :
  (outlen < rate)%nat -> (rate < Plen)%nat ->
  hash outlen msg rate delim = Some (take outlen (sponge rate delim msg)).
Proof.
  intros Ho Hr. unfold hash, sponge. destruct (Nat.leb_spec Plen rate); [lia |].
  destruct (absorb_sponge (S (length msg)) rate delim (replicate Plen 0) msg) as (-> & H2 & H3); [lia | lia |].
  specialize (H3 (length_replicate _ _)).
  destruct (absorb (S (length msg)) rate (replicate Plen 0) msg) as [a rest]. cbn [fst snd] in *.
  rewrite last_block by lia. by rewrite squeeze_one.
Qed.

Lemma sponge_bytes rate delim msg : length (sponge rate delim msg) = Plen /\ bytes_ok (sponge rate delim msg).
Proof.
  unfold sponge. cbn [blocks foldl].
  generalize (blocks (length msg / rate) rate (drop rate (pad rate delim msg))) as bs.
  generalize (xorin (replicate Plen 0) (take rate (pad rate delim msg))) as s. intros s bs. revert s.
  induction bs as [| b bs IH]; intros s; cbn [foldl]; [| apply IH]. split; [apply length_keccakf | apply keccakf_ok].
Qed.

Lemma keccak_sponge msg : keccak msg = take 32 (sponge 136 0x01 msg).
Proof.
  unfold keccak, keccak_256. simpl (32 <? 32)%nat. cbn iota.
  by rewrite hash_sponge by (simpl; lia).
Qed.

Lemma keccak_bytes msg : length (keccak msg) = 32%nat /\ bytes_ok (keccak msg).
Proof.
  rewrite keccak_sponge. destruct (sponge_bytes 136 1 msg) as [H1 H2].
  split; [by rewrite length_take, H1 | by apply Forall_take].
Qed.

(** ** Properties *)

(** C30: [keccak], which absorbs the input in place and xors the padding into
    the state, computes the reference sponge on the padded message with rate
    136 and the domain byte 0x01, truncated to 32 bytes. *)
Theorem keccak_is_sponge msg : keccak msg = take 32 (sponge 136 0x01 msg).
Proof. apply keccak_sponge. Qed.
