(* ===== verification/Runtime.v ===== *)
(** * The runtime of compiled code

    The state compiled code works on and the functions the code generator
    emits to operate on it: the gas check (GasMeter.cpp), the stack frame of a
    block (BasicBlock.cpp), EVM memory (Array.cpp, Memory.cpp), and the call
    wrapper with [call_v2] (Ext.cpp, JIT.cpp).  A function returns [Ok] with its
    result, [Abort] when it jumps to the abort handler (longjmp), and [Undef]
    when its behaviour is undefined: an undefined value reaches a branch or a
    memory access, or an access is out of bounds. *)
From S2P Require Import Prelude Bytes LLVMInt Instruction EvmAbi GasSchedule.

Inductive run (A : Type) := Ok (a : A) | Abort | Undef.
Arguments Ok {A} a.
Arguments Abort {A}.
Arguments Undef {A}.

#[global] Instance run_ret : MRet run := fun _ => Ok.
#[global] Instance run_bind : MBind run := fun A B f m =>
  match m with Ok a => f a | Abort => Abort | Undef => Undef end.

(** An undefined value where a defined one is needed. *)
Definition need {A} (o : option A) : run A := match o with Some a => Ok a | None => Undef end.

Definition INT64_MAX : Z := 2 ^ 63 - 1.

(** ** The gas check *)

(** [gas.check]: blocks Check, Update and OutOfGas; the updated gas. *)
Definition gasCheckFunc (gas cost : Z) : run Z :=
  gasUpdated ← need (eval_bin (Sub i64 false true) gas cost);
  let gasOk := icmp ISGE i64 gasUpdated 0 in
  if gasOk then Ok gasUpdated else Abort.

(** ** The stack of a block *)

(** [RuntimeManager::stackSizeLimit]. *)
Abbreviation stackSizeLimit := (1024).

(** [stack.prepare]: (stack pointer as an index from the base, new size). *)
Definition stackPrepareFunc (size min max diff : Z) : run (Z * Z) :=
  minSize ← need (eval_bin (Add i64 false true) size min);
  maxSize ← need (eval_bin (Add i64 true true) size max);
  let minOk := icmp ISGE i64 minSize 0 in
  let maxOk := icmp IULE i64 maxSize stackSizeLimit in
  if minOk && maxOk then
    newSize ← need (eval_bin (Add i64 false true) size diff);
    Ok (size, newSize)
  else Abort.

(** ** Memory *)

(** The [Array] struct: data pointer (here its bytes), size, capacity. *)
Record Array := mkArray { a_data : list Z; a_size : Z; a_cap : Z }.

(** The array [Array::Array(builder, array)] stores: all zero. *)
Definition emptyArray : Array := mkArray [] 0 0.

(** Reading and writing [n] bytes at an offset; out of bounds is undefined. *)
Definition mread (data : list Z) (off : Z) (n : Z) : run (list Z) :=
  if n =? 0 then Ok []
  else if off + n <=? Z.of_nat (length data)
  then Ok (take (Z.to_nat n) (drop (Z.to_nat off) data)) else Undef.

Definition splice (data : list Z) (off : nat) (bs : list Z) : list Z :=
  take off data ++ bs ++ drop (off + length bs) data.

Definition mwrite (data : list Z) (off : Z) (bs : list Z) : run (list Z) :=
  if (length bs =? 0)%nat then Ok data
  else if off + Z.of_nat (length bs) <=? Z.of_nat (length data)
  then Ok (splice data (Z.to_nat off) bs) else Undef.

(** [realloc]: the old bytes, and [uninit] where the block grows. *)
Definition realloc (uninit : Z) (data : list Z) (n : Z) : list Z :=
  take (Z.to_nat n) (data ++ replicate (Z.to_nat n - length data) uninit).

(** [array.extend]. *)
Definition createExtendFunc (uninit : Z) (arr : Array) (newSize : Z) : run Array :=
  let size := a_size arr in
  extSize ← need (eval_bin (Sub i64 true false) newSize size);
  let newData := realloc uninit (a_data arr) newSize in
  newData ← mwrite newData size (replicate (Z.to_nat extSize) 0);
  Ok (mkArray newData newSize newSize).

(** [c_inputMax]. *)
Definition c_inputMax : Z := 2 ^ 33.

(** The energy a memory of [size] bytes costs, as block Resize computes it. *)
Definition memCost (rev : evm_revision) (size : Z) : option Z :=
  let w := Z.shiftr size 5 in
  ws ← eval_bin (Mul i64 true false) w w;
  wc ← eval_bin (Mul i64 true false) w (if rev_ge rev EVM_AION then 1 else 3);
  eval_bin (Add i64 false false) wc (Z.shiftr ws 9).

(** [mem.require]: blocks Pre, Check, Resize and Return. *)
Definition getRequireFunc (uninit : Z) (rev : evm_revision) (mem : Array) (gas blkOffset blkSize : Z) : run (Array * Z) :=
  if icmp INE Word blkSize 0 then
    let blkOffsetOk := icmp IULE Word blkOffset c_inputMax in
    let blkO := if blkOffsetOk then wrap i64 blkOffset else c_inputMax in
    let blkSizeOk := icmp IULE Word blkSize c_inputMax in
    let blkS := if blkSizeOk then wrap i64 blkSize else c_inputMax in
    sizeReq0 ← need (eval_bin (Add i64 true false) blkO blkS);
    sizeReq1 ← need (eval_bin (Add i64 true false) sizeReq0 31);
    let sizeReq := Z.land sizeReq1 (wrap i64 (Z.shiftl (-1) 5)) in
    let sizeCur := a_size mem in
    if icmp IULE i64 sizeReq sizeCur then Ok (mem, gas)
    else
      let cc := c1 ← memCost rev sizeReq; c0 ← memCost rev sizeCur; eval_bin (Sub i64 true false) c1 c0 in
      let costOk := blkOffsetOk && blkSizeOk in
      c ← need (if costOk then cc else Some INT64_MAX);
      gas ← gasCheckFunc gas c;
      mem ← createExtendFunc uninit mem sizeReq;
      Ok (mem, gas)
  else Ok (mem, gas).

(** [mload]: load a word at the truncated index. *)
Definition mloadFunc (mem : Array) (index : Z) : run Z :=
  bs ← mread (a_data mem) (wrap i64 index) 16;
  Ok (Endianness.toNative 16 (Endianness.native_val bs)).

(** [mstore] and [mstore8]. *)
Definition mstoreFunc (mem : Array) (index value : Z) : run Array :=
  let value := Endianness.toBE 16 value in
  data ← mwrite (a_data mem) (wrap i64 index) (Endianness.native_bytes 16 value);
  Ok (mkArray data (a_size mem) (a_cap mem)).

Definition mstore8Func (mem : Array) (index value : Z) : run Array :=
  data ← mwrite (a_data mem) (wrap i64 index) [value];
  Ok (mkArray data (a_size mem) (a_cap mem)).

(** ** Calls *)

(** The kinds of [Ext.h] and [evm.h] as the [int] compiled code passes. *)
Abbreviation K_CALL := (0).
Abbreviation K_DELEGATECALL := (1).
Abbreviation K_CALLCODE := (2).
Abbreviation K_CREATE := (3).
Abbreviation EVM_STATICCALL := (4).

(** [EVM_CALL_FAILURE]: the sign bit, as an unsigned 64-bit number. *)
Abbreviation EVM_CALL_FAILURE := (2 ^ 63).

Definition kind_of_num (k : Z) : evm_call_kind :=
  match k with 0 => EVM_CALL | 1 => EVM_DELEGATECALL | 2 => EVM_CALLCODE | _ => EVM_CREATE end.

Section Calls.
Context {H : Type} (T : evm_context_fn_table H).

(** The message [call_v2] builds; its [code_hash] is left uninitialised. *)
Definition call_message (uninit_hash : list Z) (currentMsg : evm_message) (kind_ gas : Z)
  (address_ value_ inputData : list Z) : evm_message :=
  mkMessage address_
    (if negb (kind_ =? K_DELEGATECALL) then address currentMsg else caller currentMsg)
    (if negb (kind_ =? K_DELEGATECALL) then value_ else value currentMsg)
    inputData uninit_hash (sgn i64 gas) (depth currentMsg + 1)
    (if kind_ =? EVM_STATICCALL then EVM_CALL else kind_of_num kind_)
    (if kind_ =? EVM_STATICCALL then Z.lor (flags currentMsg) EVM_STATIC else flags currentMsg).

(** [call_v2]: the encoded gas, the bytes written to the output area, the new
    return buffer, and the host state. *)
Definition call_v2 (uninit_hash : list Z) (currentMsg : evm_message) (h : H) (kind_ gas : Z)
  (address_ value_ inputData : list Z) (outputSize : Z) : Z * list Z * list Z * H :=
  let msg := call_message uninit_hash currentMsg kind_ gas address_ value_ inputData in
  let '(result, h) := host_call T h msg in
  let r := wrap i64 (gas_left result) in
  let size := Nat.min (Z.to_nat outputSize) (length (output result)) in
  let out := take size (output result) in
  let out := if (kind_ =? K_CREATE) && bool_decide (status_code result = EVM_SUCCESS)
             then take 32 (output result) else out in
  let r := if bool_decide (status_code result = EVM_SUCCESS) then r else Z.lor r EVM_CALL_FAILURE in
  (r, out, output result, h).

(** The wrapper [call] of [getCallFunc]: depth and balance are checked before
    [evm.call]; on failure the gas comes back with the failure bit.  [value_]
    is the memory the value pointer points at, [myAddr] the bytes of the
    executing account and [depth_] the call depth.  [None] in place of the
    return buffer means it was not touched. *)
Definition getCallFunc (uninit_hash : list Z) (currentMsg : evm_message) (h : H) (kind_ gas : Z)
  (address_ value_ inputData : list Z) (outputSize : Z) (myAddr : list Z) (depth_ : Z)
  : Z * list Z * option (list Z) * H :=
  let call := 
    let '(r, out, buf, h) := call_v2 uninit_hash currentMsg h kind_ gas address_ value_ inputData outputSize in
    (r, out, Some buf, h) in
  let fail := (Z.lor gas EVM_CALL_FAILURE, [], None, h) in
  if icmp ISLT i64 depth_ 1024 then
    let notDelegateCall := icmp INE 32 kind_ K_DELEGATECALL in
    let value := Endianness.native_val value_ in
    let valueNonZero := icmp INE Word value 0 in
    if notDelegateCall && valueNonZero then
      let balance := Endianness.toNative 16 (Endianness.native_val (get_balance T h myAddr)) in
      let value := Endianness.toNative 16 value in
      if icmp IUGE Word balance value then call else fail
    else call
  else fail.
End Calls.

(** ** Lemmas *)

Lemma run_bind_ok {A B} (m : run A) (f : A -> run B) b :
  (m ≫= f) = Ok b <-> exists a, m = Ok a /\ f a = Ok b.
Proof.
  destruct m as [a | |]; simpl; split; try (by intros H); try (by intros (? & ? & ?)).
  - by exists a.
  - by intros (a' & [= ->] & Hf).
Qed.

(** On the amounts the code deals in, the gas check compares and subtracts. *)
Lemma gasCheckFunc_spec gas cost :
  0 <= gas < 2 ^ 63 -> 0 <= cost < 2 ^ 63 ->
  gasCheckFunc gas cost = if cost <=? gas then Ok (gas - cost) else Abort.
Proof.
  intros Hg Hc. unfold gasCheckFunc. cbn [eval_bin].
  assert (sgn 64 gas = gas) by (apply sgn_small; simpl; lia).
  assert (sgn 64 cost = cost) by (apply sgn_small; simpl; lia).
  rewrite arith_nsw by (simpl; lia). simpl mbind. unfold run_bind. cbn [need icmp].
  rewrite (sgn_small 64 0) by done. rewrite sgn_wrap by (simpl; lia).
  destruct (Z.leb_spec 0 (gas - cost)), (Z.leb_spec cost gas); try lia; [| done].
  rewrite wrap_small by (unfold inw; lia). done.
Qed.

(** The frame check compares the extreme heights of the block with the limits. *)
Lemma stackPrepareFunc_spec size min max diff :
  0 <= size <= 1024 -> - 2 ^ 40 <= min <= 0 -> 0 <= max < 2 ^ 40 -> - 2 ^ 40 <= diff < 2 ^ 40 ->
  stackPrepareFunc size (wrap 64 min) (wrap 64 max) (wrap 64 diff) =
    if (0 <=? size + min) && (size + max <=? 1024)
    then Ok (size, wrap 64 (size + diff)) else Abort.
Proof.
  intros Hs Hmin Hmax Hd. unfold stackPrepareFunc. cbn [eval_bin].
  assert (sgn 64 size = size) as Hss by (apply sgn_small; simpl; lia).
  rewrite (wrap_small 64 max) by (unfold inw; lia).
  assert (sgn 64 max = max) as Hsm by (apply sgn_small; simpl; lia).
  rewrite arith_nsw by (rewrite Hss, sgn_wrap by (simpl; lia); simpl; lia).
  rewrite arith_nuw_nsw by (rewrite ?Hss, ?Hsm; unfold inw; simpl; lia).
  rewrite arith_nsw by (rewrite Hss, sgn_wrap by (simpl; lia); simpl; lia).
  cbn [need mbind run_bind icmp]. rewrite !wrap_add_r by lia. rewrite (sgn_small 64 0) by done.
  rewrite sgn_wrap by (simpl; lia). done.
Qed.

Lemma length_splice data off bs :
  (off + length bs <= length data)%nat -> length (splice data off bs) = length data.
Proof. intros. unfold splice. rewrite !length_app, length_take, length_drop. lia. Qed.

Lemma splice_ok data off bs : bytes_ok data -> bytes_ok bs -> bytes_ok (splice data off bs).
Proof.
  intros. unfold splice. repeat apply Forall_app_2; auto; [by apply Forall_take | by apply Forall_drop].
Qed.

Lemma splice_read data off bs :
  (off <= length data)%nat -> take (length bs) (drop off (splice data off bs)) = bs.
Proof.
  intros. unfold splice. rewrite drop_app_length' by (rewrite length_take; lia). by rewrite take_app_length.
Qed.

Lemma mread_in data off n :
  0 <= off -> 0 <= n -> off + n <= Z.of_nat (length data) ->
  mread data off n = Ok (take (Z.to_nat n) (drop (Z.to_nat off) data)).
Proof.
  intros. unfold mread. destruct (Z.eqb_spec n 0) as [-> |]; [done |].
  destruct (Z.leb_spec (off + n) (Z.of_nat (length data))); [done | lia].
Qed.

Lemma mwrite_in data off bs :
  0 <= off -> off + Z.of_nat (length bs) <= Z.of_nat (length data) ->
  mwrite data off bs = Ok (splice data (Z.to_nat off) bs).
Proof.
  intros. unfold mwrite. destruct (Nat.eqb_spec (length bs) 0) as [E |].
  - destruct bs; [| done]. unfold splice. simpl. by rewrite Nat.add_0_r, take_drop.
  - destruct (Z.leb_spec (off + Z.of_nat (length bs)) (Z.of_nat (length data))); [done | lia].
Qed.

(** An array in use: size and capacity are the number of its bytes, a
    multiple of 32 below the bound the requests are clamped to. *)
Definition array_ok (arr : Array) : Prop :=
  a_size arr = Z.of_nat (length (a_data arr)) /\ a_cap arr = a_size arr /\
  bytes_ok (a_data arr) /\ a_size arr mod 32 = 0 /\ a_size arr <= 2 ^ 34.

Lemma createExtendFunc_spec uninit arr newSize :
  a_size arr = Z.of_nat (length (a_data arr)) -> a_size arr <= newSize < 2 ^ 64 ->
  createExtendFunc uninit arr newSize =
    Ok (mkArray (a_data arr ++ replicate (Z.to_nat (newSize - a_size arr)) 0) newSize newSize).
Proof.
  intros Hs Hn. unfold createExtendFunc. cbn [eval_bin]. rewrite arith_nuw by (unfold inw; lia).
  cbn [need mbind run_bind]. unfold realloc.
  rewrite take_ge by (rewrite length_app, length_replicate; lia).
  rewrite mwrite_in by (rewrite ?length_app, ?length_replicate; lia). cbn [mbind run_bind].
  do 2 f_equal. unfold splice. rewrite take_app_length' by lia. f_equal.
  rewrite length_replicate, drop_ge by (rewrite length_app, length_replicate; lia). by rewrite app_nil_r.
Qed.

(** The size in bytes of the smallest whole number of 32-byte words. *)
Definition roundup32 (n : Z) : Z := (n + 31) / 32 * 32.

(** The energy a memory of [n] bytes costs. *)
Definition memGas (rev : evm_revision) (n : Z) : Z :=
  n / 32 * (if rev_ge rev EVM_AION then 1 else 3) + n / 32 * (n / 32) / 512.

Lemma roundup32_spec n : 0 <= n -> roundup32 n mod 32 = 0 /\ n <= roundup32 n < n + 32.
Proof.
  intros. unfold roundup32. split; [apply Z.mod_mul; lia |].
  pose proof (Z.div_mod (n + 31) 32). pose proof (Z.mod_pos_bound (n + 31) 32). lia.
Qed.

Lemma mask32 n : 0 <= n < 2 ^ 64 -> Z.land n (wrap 64 (Z.shiftl (-1) 5)) = n / 32 * 32.
Proof.
  intros Hn. change 32 with (2 ^ 5). rewrite <- Z.shiftr_div_pow2, <- Z.shiftl_mul_pow2 by lia.
  apply Z.bits_inj'. intros i Hi. rewrite Z.land_spec, wrap_testbit, !Z.shiftl_spec by lia.
  destruct (decide (i < 5)).
  - rewrite !(Z.testbit_neg_r _ (i - 5)) by lia. by rewrite !andb_false_r.
  - rewrite Z.shiftr_spec, Z.bits_m1 by lia. replace (i - 5 + 5) with i by lia.
    destruct (Z.ltb_spec i 64); [by rewrite andb_true_r |].
    rewrite (inw_testbit 64 n) by (unfold inw; lia). done.
Qed.

Lemma memCost_spec rev n : 0 <= n <= 2 ^ 34 -> memCost rev n = Some (memGas rev n).
Proof.
  intros Hn. unfold memCost, memGas. rewrite !Z.shiftr_div_pow2 by lia.
  change (2 ^ 5) with 32. change (2 ^ 9) with 512. cbn [eval_bin].
  assert (0 <= n / 32 <= 2 ^ 29) by (split; [apply Z.div_pos; lia | apply Z.div_le_upper_bound; lia]).
  assert (0 <= n / 32 * (n / 32) <= 2 ^ 58) by nia.
  assert (0 <= n / 32 * (n / 32) / 512 <= 2 ^ 58)
    by (split; [apply Z.div_pos; lia | apply Z.div_le_upper_bound; lia]).
  set (k := if rev_ge rev EVM_AION then 1 else 3).
  assert (1 <= k <= 3) by (unfold k; destruct (rev_ge _ _); lia). clearbody k.
  assert (0 <= n / 32 * k <= 2 ^ 32) by nia.
  rewrite (arith_nuw Z.mul 64 (n / 32) (n / 32)) by (unfold inw; lia). cbn [mbind option_bind].
  rewrite arith_nuw by (unfold inw; lia). cbn [mbind option_bind].
  rewrite Z.shiftr_div_pow2 by lia. change (2 ^ 9) with 512.
  rewrite arith_plain, wrap_small by (unfold inw; lia). done.
Qed.

Lemma memGas_mono rev m n : 0 <= m <= n -> 0 <= memGas rev m <= memGas rev n.
Proof.
  intros H. unfold memGas.
  assert (0 <= m / 32 <= n / 32) by (split; [apply Z.div_pos; lia | apply Z.div_le_mono; lia]).
  assert (1 <= (if rev_ge rev EVM_AION then 1 else 3)) by (destruct (rev_ge _ _); lia).
  assert (0 <= m / 32 * (m / 32) / 512 <= n / 32 * (n / 32) / 512)
    by (split; [apply Z.div_pos; nia | apply Z.div_le_mono; nia]).
  nia.
Qed.

(** [mem.require] on the word operands: a request of size zero is ignored,
    one within the memory costs nothing, one that grows it is paid for and
    zero-filled, and one whose offset or size is above the clamp is refused
    when it exceeds the memory. *)
Lemma getRequireFunc_spec uninit rev mem gas off size :
  array_ok mem -> 0 <= gas < 2 ^ 63 - 1 -> inw 128 off -> inw 128 size ->
  getRequireFunc uninit rev mem gas off size =
    if size =? 0 then Ok (mem, gas) else
    let req := roundup32 (Z.min off c_inputMax + Z.min size c_inputMax) in
    if req <=? a_size mem then Ok (mem, gas)
    else if (off <=? c_inputMax) && (size <=? c_inputMax) then
      let c := memGas rev req - memGas rev (a_size mem) in
      if c <=? gas
      then Ok (mkArray (a_data mem ++ replicate (Z.to_nat (req - a_size mem)) 0) req req, gas - c)
      else Abort
    else Abort.
Proof.
  intros (Hs & Hc & Hb & Hm & Hle) Hg [Ho1 Ho2] [Hz1 Hz2]. unfold getRequireFunc. cbn [icmp].
  destruct (Z.eqb_spec size 0); cbn [negb]; [done |].
  set (o := if off <=? c_inputMax then wrap 64 off else c_inputMax).
  set (z := if size <=? c_inputMax then wrap 64 size else c_inputMax).
  assert (o = Z.min off c_inputMax) as ->
    by (unfold o, c_inputMax; destruct (Z.leb_spec off (2 ^ 33)); rewrite ?wrap_small; unfold inw; lia).
  assert (z = Z.min size c_inputMax) as ->
    by (unfold z, c_inputMax; destruct (Z.leb_spec size (2 ^ 33)); rewrite ?wrap_small; unfold inw; lia).
  set (sr := Z.min off c_inputMax + Z.min size c_inputMax).
  assert (0 <= sr <= 2 ^ 34) by (unfold sr, c_inputMax; lia).
  cbn [eval_bin]. fold sr. rewrite arith_nuw by (fold sr; unfold inw; lia). fold sr. cbn [need mbind run_bind].
  rewrite arith_nuw by (unfold inw; lia). cbn [need mbind run_bind].
  rewrite mask32 by lia. fold (roundup32 sr). destruct (roundup32_spec sr) as [Hr1 Hr2]; [lia |].
  assert (roundup32 sr <= 2 ^ 34).
  { pose proof (Z.div_mod (roundup32 sr) 32). assert (2 ^ 34 = 2 ^ 29 * 32) by lia. lia. }
  cbv zeta. destruct (Z.leb_spec (roundup32 sr) (a_size mem)); [done |].
  destruct ((off <=? c_inputMax) && (size <=? c_inputMax)).
  - rewrite !memCost_spec by lia. cbn [mbind option_bind].
    pose proof (memGas_mono rev (a_size mem) (roundup32 sr) ltac:(lia)).
    pose proof (memGas_mono rev (roundup32 sr) (2 ^ 34) ltac:(lia)).
    assert (memGas rev (2 ^ 34) < 2 ^ 63 - 1) by (unfold memGas; destruct (rev_ge _ _); vm_compute; done).
    rewrite arith_nuw by (unfold inw; lia). cbn [need mbind run_bind]. rewrite gasCheckFunc_spec by lia.
    destruct (Z.leb_spec (memGas rev (roundup32 sr) - memGas rev (a_size mem)) gas); cbn [mbind run_bind]; [| done].
    rewrite createExtendFunc_spec by lia. done.
  - cbn [need mbind run_bind]. rewrite gasCheckFunc_spec by (unfold INT64_MAX; lia).
    destruct (Z.leb_spec INT64_MAX gas); [unfold INT64_MAX in *; lia | done].
Qed.

(** Writing in place changes nothing outside the bytes written. *)
Lemma splice_other data off bs i :
  (off + length bs <= length data)%nat -> (i < off \/ off + length bs <= i)%nat ->
  splice data off bs !! i = data !! i.
Proof.
  intros Hl Hi. unfold splice. destruct Hi as [Hi | Hi].
  - rewrite lookup_app_l by (rewrite length_take; lia). by rewrite lookup_take_lt.
  - rewrite lookup_app_r by (rewrite length_take; lia). rewrite length_take, Nat.min_l by lia.
    rewrite lookup_app_r by lia. rewrite lookup_drop. f_equal. lia.
Qed.

(** A memory that grew by zeros to a whole number of words is in use as before. *)
Lemma array_ok_grow mem n :
  array_ok mem -> a_size mem <= n <= 2 ^ 34 -> n mod 32 = 0 ->
  array_ok (mkArray (a_data mem ++ replicate (Z.to_nat (n - a_size mem)) 0) n n).
Proof.
  intros (Hs & Hc & Hb & Hm & Hle) Hn Hm'. split_and!; simpl; try done; try lia.
  - rewrite length_app, length_replicate. lia.
  - apply Forall_app. split; [done |]. apply Forall_replicate. done.
Qed.

Lemma roundup32_le n : 0 <= n <= 2 ^ 34 -> roundup32 n <= 2 ^ 34.
Proof.
  intros Hn. destruct (roundup32_spec n) as [H1 H2]; [lia |].
  pose proof (Z.div_mod (roundup32 n) 32). assert (2 ^ 34 = 2 ^ 29 * 32) by lia. lia.
Qed.

(** ** The runtime functions are correct *)

(** The gas check that guards every cost block aborts exactly when the cost
    exceeds the gas, and otherwise subtracts it; on the amounts in use the
    signed subtraction never overflows. *)
Theorem gasCheck_correct gas cost :
  0 <= gas < 2 ^ 63 -> 0 <= cost < 2 ^ 63 ->
  gasCheckFunc gas cost = if cost <=? gas then Ok (gas - cost) else Abort.
Proof. apply gasCheckFunc_spec. Qed.

Lemma gasCheck_correct_witness : gasCheckFunc 21000 20000 = Ok 1000 /\ gasCheckFunc 20000 21000 = Abort.
Proof.
  split.
  - apply (gasCheck_correct 21000 20000); lia.
  - apply (gasCheck_correct 20000 21000); lia.
Defined.

(** C20: the prologue of a block aborts exactly when the block would pop below
    the bottom of the stack or push above 1024 items; otherwise the frame
    starts at the old height and the height changes by the block's difference. *)
Theorem stackPrepare_correct size min max diff :
  0 <= size <= 1024 -> - 2 ^ 40 <= min <= 0 -> 0 <= max < 2 ^ 40 -> min <= diff <= max ->
  (size + min < 0 \/ 1024 < size + max ->
     stackPrepareFunc size (wrap 64 min) (wrap 64 max) (wrap 64 diff) = Abort) /\
  (0 <= size + min -> size + max <= 1024 ->
     stackPrepareFunc size (wrap 64 min) (wrap 64 max) (wrap 64 diff) = Ok (size, size + diff)
     /\ 0 <= size + diff <= 1024).
Proof.
  intros Hs Hmin Hmax Hd. rewrite stackPrepareFunc_spec by lia. split.
  - intros Hbad. destruct (Z.leb_spec 0 (size + min)), (Z.leb_spec (size + max) 1024); (done || lia).
  - intros H1 H2. rewrite !(proj2 (Z.leb_le _ _)) by lia. cbn [andb].
    rewrite wrap_small by (unfold inw; lia). split; [done | lia].
Qed.

Lemma stackPrepare_correct_witness :
  (3 + (-4) < 0 \/ 1024 < 3 + 0 -> stackPrepareFunc 3 (wrap 64 (-4)) (wrap 64 0) (wrap 64 (-4)) = Abort) /\
  (0 <= 3 + (-4) -> 3 + 0 <= 1024 ->
     stackPrepareFunc 3 (wrap 64 (-4)) (wrap 64 0) (wrap 64 (-4)) = Ok (3, 3 + (-4)) /\ 0 <= 3 + (-4) <= 1024).
Proof. apply (stackPrepare_correct 3 (-4) 0 (-4)); lia. Defined.

(** C19: [mem.require] never reaches undefined behaviour and keeps the memory
    well formed.  When it returns, the memory has only grown, by zero bytes, to
    a whole number of words; the gas paid is the difference of the memory
    costs; and a request within the counted range lies inside the memory.  It
    aborts only for a request out of that range or one the gas cannot pay. *)
Theorem memRequire_correct uninit rev mem gas off size :
  array_ok mem -> 0 <= gas < 2 ^ 63 - 1 -> inw 128 off -> inw 128 size ->
  match getRequireFunc uninit rev mem gas off size with
  | Ok (mem', gas') =>
      array_ok mem' /\ a_size mem <= a_size mem' /\
      a_data mem' = a_data mem ++ replicate (Z.to_nat (a_size mem' - a_size mem)) 0 /\
      gas' = gas - (memGas rev (a_size mem') - memGas rev (a_size mem)) /\ 0 <= gas' <= gas /\
      (size <> 0 -> off <= c_inputMax -> size <= c_inputMax -> off + size <= a_size mem')
  | Abort => size <> 0 /\ (c_inputMax < off \/ c_inputMax < size \/
      gas < memGas rev (roundup32 (off + size)) - memGas rev (a_size mem))
  | Undef => False
  end.
Proof.
  intros Hok Hg Ho Hz. rewrite getRequireFunc_spec by done. pose proof Hok as (Hs & _ & _ & _ & Hle).
  destruct Ho as [Ho _], Hz as [Hz _].
  assert (array_ok mem /\ a_size mem <= a_size mem /\
    a_data mem = a_data mem ++ replicate (Z.to_nat (a_size mem - a_size mem)) 0 /\
    gas = gas - (memGas rev (a_size mem) - memGas rev (a_size mem)) /\ 0 <= gas <= gas) as Hsame.
  { split_and!; try lia; [done |]. by rewrite Z.sub_diag, app_nil_r. }
  destruct (Z.eqb_spec size 0) as [-> | Hne].
  { destruct Hsame as (H1 & H2 & H3 & H4 & H5). split_and!; try done; lia. }
  cbv zeta.
  set (n := Z.min off c_inputMax + Z.min size c_inputMax).
  assert (0 <= n <= 2 ^ 34) as Hn by (unfold n, c_inputMax; lia).
  destruct (roundup32_spec n) as [Hr1 Hr2]; [lia |]. pose proof (roundup32_le n Hn) as Hr3.
  destruct (Z.leb_spec (roundup32 n) (a_size mem)).
  { destruct Hsame as (H1 & H2 & H3 & H4 & H5). split_and!; try done; lia. }
  destruct (Z.leb_spec off c_inputMax), (Z.leb_spec size c_inputMax); cbn [andb]; [| split; [done |]; lia ..].
  assert (n = off + size) as En by (unfold n; lia). rewrite En in *.
  pose proof (memGas_mono rev (a_size mem) (roundup32 (off + size)) ltac:(lia)).
  destruct (Z.leb_spec (memGas rev (roundup32 (off + size)) - memGas rev (a_size mem)) gas); [| split; [done | lia]].
  split_and!; cbn [a_size a_data]; try done; try lia. apply array_ok_grow; [done | lia | done].
Qed.

Lemma memRequire_correct_witness :
  match getRequireFunc 0xff EVM_AION_V1 emptyArray 1000 40 16 with
  | Ok (mem', gas') =>
      array_ok mem' /\ a_size emptyArray <= a_size mem' /\
      a_data mem' = a_data emptyArray ++ replicate (Z.to_nat (a_size mem' - a_size emptyArray)) 0 /\
      gas' = 1000 - (memGas EVM_AION_V1 (a_size mem') - memGas EVM_AION_V1 (a_size emptyArray)) /\ 0 <= gas' <= 1000 /\
      (16 <> 0 -> 40 <= c_inputMax -> 16 <= c_inputMax -> 40 + 16 <= a_size mem')
  | Abort => 16 <> 0 /\ (c_inputMax < 40 \/ c_inputMax < 16 \/
      1000 < memGas EVM_AION_V1 (roundup32 (40 + 16)) - memGas EVM_AION_V1 (a_size emptyArray))
  | Undef => False
  end.
Proof.
  apply (memRequire_correct 0xff EVM_AION_V1 emptyArray 1000 40 16).
  - split_and!; simpl; try reflexivity; [constructor | lia].
  - lia.
  - unfold inw. lia.
  - unfold inw. lia.
Defined.

(** A word stored within the memory is read back from the same address,
    lies there in big-endian order, and no other byte changes. *)
Theorem mstore_mload mem off v :
  array_ok mem -> 0 <= off -> off + 16 <= a_size mem -> inw 128 v ->
  exists mem', mstoreFunc mem off v = Ok mem' /\ array_ok mem' /\ mloadFunc mem' off = Ok v /\
    take 16 (drop (Z.to_nat off) (a_data mem')) = be_bytes 16 v /\
    forall i, (i < Z.to_nat off \/ Z.to_nat off + 16 <= i)%nat -> a_data mem' !! i = a_data mem !! i.
Proof.
  intros (Hs & Hc & Hb & Hm & Hle) H0 Hin Hv.
  assert (wrap 64 off = off) as Hw by (apply wrap_small; unfold inw; lia).
  unfold mstoreFunc, mloadFunc. rewrite Hw, Endianness.native_bytes_toBE.
  assert (length (be_bytes 16 v) = 16%nat) as Hl by apply length_be_bytes.
  rewrite mwrite_in by (rewrite ?Hl; lia). cbn [mbind run_bind]. eexists. split; [reflexivity |].
  set (d := splice (a_data mem) (Z.to_nat off) (be_bytes 16 v)).
  assert (length d = length (a_data mem)) as Hld by (apply length_splice; rewrite Hl; lia).
  assert (take 16 (drop (Z.to_nat off) d) = be_bytes 16 v) as Hrd
    by (unfold d; rewrite <- Hl at 1; apply splice_read; lia).
  cbn [a_data]. split; [| split; [| split; [done |]]].
  - split_and!; simpl; try done; [by fold d; rewrite Hld | apply splice_ok; [done | apply be_bytes_ok]].
  - rewrite mread_in by lia. cbn [mbind run_bind]. change (Z.to_nat 16) with 16%nat. rewrite Hrd. f_equal.
    pose proof (Endianness.toNative_native_val (be_bytes 16 v) (be_bytes_ok 16 v)) as Ht.
    rewrite Hl, be_val_be_bytes in Ht. rewrite Ht. by apply wrap_small.
  - intros i Hi. apply splice_other; rewrite Hl; lia.
Qed.

Lemma mstore_mload_witness :
  let mem := mkArray (replicate 32 0) 32 32 in
  exists mem', mstoreFunc mem 3 0x1234 = Ok mem' /\ array_ok mem' /\ mloadFunc mem' 3 = Ok 0x1234 /\
    take 16 (drop (Z.to_nat 3) (a_data mem')) = be_bytes 16 0x1234 /\
    forall i, (i < Z.to_nat 3 \/ Z.to_nat 3 + 16 <= i)%nat -> a_data mem' !! i = a_data mem !! i.
Proof.
  intros mem. apply (mstore_mload mem 3 0x1234).
  - split_and!; simpl; try reflexivity; [| lia]. by apply (Forall_replicate _ 32%nat 0).
  - lia.
  - simpl. lia.
  - unfold inw. lia.
Defined.
