(* ===== verification/IR.v ===== *)
(** * The code the generator emits

    The part of LLVM IR that libevmjit builds for the blocks of a contract.  A
    [value] is an SSA value: pure instructions (arithmetic, comparisons, casts,
    selects) are the terms built over the results of the others; an [instr] is
    an instruction that reads or writes the runtime state, or whose execution
    may be undefined (the divisions).  Instructions define numbered registers.

    [LLVMFolder] is what the generator relies on of the IR builder (LLVM, not
    part of the sources): it may return a simpler value, in particular a
    constant, in place of the instruction it is asked for, with the same type
    and the same result wherever that is defined. *)
From S2P Require Import Prelude Bytes Instruction LLVMInt Arith128 EvmAbi GasSchedule Keccak Runtime.

(** ** Runtime data *)

(** [struct RuntimeData] of libevmjit/JIT.h; pointer and size pairs are lists. *)
Record RuntimeData := mkRuntimeData {
  d_gas : Z;               (* int64_t *)
  d_gasPrice : Z;          (* int64_t *)
  d_callData : list Z;
  d_apparentValue : list Z; (* 16 bytes *)
  d_code : list Z;
  d_address : list Z;      (* 32 bytes *)
  d_caller : list Z;       (* 32 bytes *)
  d_depth : Z              (* int64_t *)
}.

(** [RuntimeData::Index], the elements compiled code reads as integers. *)
Inductive Index := Gas | CallDataSize | Value | Address | Caller | Depth.

Definition index_width (i : Index) : Z :=
  match i with Gas | CallDataSize | Depth => 64 | Value => 128 | Address | Caller => 256 end.

(** The element an [extractvalue] of the entry block yields. *)
Definition data_elt (D : RuntimeData) (i : Index) : Z :=
  match i with
  | Gas => wrap 64 (d_gas D)
  | CallDataSize => Z.of_nat (length (d_callData D))
  | Value => Endianness.native_val (d_apparentValue D)
  | Address => Endianness.native_val (d_address D)
  | Caller => Endianness.native_val (d_caller D)
  | Depth => wrap 64 (d_depth D)
  end.

(** ** Values *)

Inductive value :=
| VConst (w z : Z)                (** [ConstantInt] *)
| VReg (w : Z) (n : nat)          (** the result of an [instr] *)
| VData (i : Index)               (** an element of the runtime data *)
| VBin (op : binop) (a b : value)
| VUn (op : unop) (a : value)
| VSelect (c a b : value)
| VExtract (v i : value).         (** byte [i] of a word seen as a vector of 16 bytes *)

Fixpoint typeof (v : value) : Z :=
  match v with
  | VConst w _ | VReg w _ => w
  | VData i => index_width i
  | VBin op _ _ => bin_width op
  | VUn op _ => un_width op
  | VSelect _ a _ => typeof a
  | VExtract _ _ => 8
  end.

Abbreviation regfile := (nat -> option Z).

Fixpoint evalv (D : RuntimeData) (ρ : regfile) (v : value) : option Z :=
  match v with
  | VConst _ z => Some z
  | VReg _ n => ρ n
  | VData i => Some (data_elt D i)
  | VBin op a b => x ← evalv D ρ a; y ← evalv D ρ b; eval_bin op x y
  | VUn op a => x ← evalv D ρ a; eval_un op x
  | VSelect c a b => x ← evalv D ρ c; if x =? 1 then evalv D ρ a else evalv D ρ b
  | VExtract v i =>
      x ← evalv D ρ v; y ← evalv D ρ i; Endianness.native_bytes 16 x !! Z.to_nat y
  end.

Class LLVMFolder := {
  fold : value -> value;
  fold_type v : typeof (fold v) = typeof v;
  fold_sound D ρ v z : evalv D ρ v = Some z -> evalv D ρ (fold v) = Some z
}.

(** [llvm::dyn_cast<llvm::ConstantInt>]. *)
Definition dyn_const (v : value) : option Z := match v with VConst _ z => Some z | _ => None end.

(** ** Instructions *)

(** Where a memory copy reads from; [SrcExtCode n] is the pointer that the
    [IExtCode] defining register [n] stored. *)
Inductive source := SrcCallData | SrcCode | SrcReturnBuf | SrcExtCode (n : nat).

Inductive instr :=
| IDiv (dst : nat) (op : binop) (a b : value)
| IExp (dst : nat) (a b : value)
| IPrepare (args : option (Z * Z * Z))          (** stack.prepare: min, max, diff *)
| IStackLoad (dst : nat) (globalIdx : Z)
| IStackStore (v : value) (globalIdx : Z)
| IGasCheck (id : nat) (cost : option Z)        (** gas.check of a cost block *)
| IGasDyn (cost : value)                        (** gas.check of a computed cost *)
| IGetGas (dst : nat)
| ISetGas (v : value)
| IMemRequire (off size : value)
| IMLoad (dst : nat) (addr : value)
| IMStore (addr v : value)
| IMStore8 (addr v : value)
| IMemSize (dst : nat)
| IMemCpy (src : source) (dstIdx srcIdx n : value)
| IMemSet (dstIdx n : value)
| ILoadPadded (dst : nat) (idx copySize padSize : value)  (** calldataload's buffer *)
| ITxContextItem (dst : nat) (i : nat)
| IReturnBufSize (dst : nat)
| IResetReturnBuf
| ISload (dst : nat) (addr key : value)
| ISstore (addr key v : value)
| IBalance (dst : nat) (addr : value)
| IExists (dst : nat) (addr : value)
| IExtCode (dst : nat) (addr : value)
| IExtCodeSize (dst : nat) (addr : value)
| ISelfdestruct (addr beneficiary : value)
| IBlockHash (dst : nat) (number : value)
| ISha3 (dst : nat) (off size : value)
| ILog (addr off size : value) (topics : list value)
| ICall (dst : nat) (kind : Z) (gas addr val inOff inSize outOff outSize myAddr depth : value)
| ICreate (dst dstAddr : nat) (gas val inOff inSize myAddr depth : value)
| IRegisterReturnData (off size : value).

(** [enum class ReturnCode]. *)
Inductive ReturnCode := Stop | Return | Revert | OutOfGas | LLVMError | UnexpectedException.

Definition ReturnCode_num (c : ReturnCode) : Z :=
  match c with
  | Stop => 0 | Return => 1 | Revert => 2 | OutOfGas => -1
  | LLVMError => -101 | UnexpectedException => -111
  end.

(** The terminators: a branch to the jump table with its [destIdx]
    metadata, a conditional one, a branch to the exit block. *)
Inductive terminator :=
| TJump (dest : value)
| TJumpI (cond dest : value)
| TExit (code : ReturnCode).

(** ** Execution *)

(** What does not change while a contract runs: the host's table, the runtime
    data, how the current message of the instance is found in the state of the
    host ([jit.currentMsg], which [call_v2] reads and nested executions set), the
    revision the code was compiled for, and the contents of memory the code has
    not initialised. *)
Record Env (H : Type) := mkEnv {
  e_host : evm_context_fn_table H;
  e_data : RuntimeData;
  e_current : H -> evm_message;
  e_rev : evm_revision;
  e_uninit : Z;             (* fresh heap bytes *)
  e_uninit_hash : list Z;   (* code_hash of call_v2's message *)
  e_undef_addr : list Z     (* the undef address passed to CREATE *)
}.
Arguments mkEnv {H}.
Arguments e_host {H}.
Arguments e_data {H}.
Arguments e_current {H}.
Arguments e_rev {H}.
Arguments e_uninit {H}.
Arguments e_uninit_hash {H}.
Arguments e_undef_addr {H}.

(** The runtime state: registers, the stack array with its size and the
    block's stack pointer, gas, memory, the return data buffer, the cached
    transaction context, the external code fetched by each request, the host, and the
    return data registered. *)
Record rt (H : Type) := mkRt {
  s_regs : regfile;
  s_stack : list (option Z);
  s_size : Z;
  s_sp : Z;
  s_gas : Z;
  s_mem : Array;
  s_retdata : list Z;
  s_retsize : Z;
  s_txctx : option evm_tx_context;
  s_extcode : nat -> list Z;
  s_host : H;
  s_ret : option (Z * Z)
}.
Arguments mkRt {H}.
Arguments s_regs {H}.
Arguments s_stack {H}.
Arguments s_size {H}.
Arguments s_sp {H}.
Arguments s_gas {H}.
Arguments s_mem {H}.
Arguments s_retdata {H}.
Arguments s_retsize {H}.
Arguments s_txctx {H}.
Arguments s_extcode {H}.
Arguments s_host {H}.
Arguments s_ret {H}.

Section Exec.
Context {H : Type} (E : Env H).

Definition set_reg (n : nat) (o : option Z) (s : rt H) : rt H :=
  mkRt (fun k => if (k =? n)%nat then o else s_regs s k) (s_stack s) (s_size s) (s_sp s) (s_gas s)
    (s_mem s) (s_retdata s) (s_retsize s) (s_txctx s) (s_extcode s) (s_host s) (s_ret s).
Definition set_frame (sp size : Z) (s : rt H) : rt H :=
  mkRt (s_regs s) (s_stack s) size sp (s_gas s)
    (s_mem s) (s_retdata s) (s_retsize s) (s_txctx s) (s_extcode s) (s_host s) (s_ret s).
Definition set_slots (st : list (option Z)) (s : rt H) : rt H :=
  mkRt (s_regs s) st (s_size s) (s_sp s) (s_gas s)
    (s_mem s) (s_retdata s) (s_retsize s) (s_txctx s) (s_extcode s) (s_host s) (s_ret s).
Definition set_gas (g : Z) (s : rt H) : rt H :=
  mkRt (s_regs s) (s_stack s) (s_size s) (s_sp s) g
    (s_mem s) (s_retdata s) (s_retsize s) (s_txctx s) (s_extcode s) (s_host s) (s_ret s).
Definition set_mem (m : Array) (s : rt H) : rt H :=
  mkRt (s_regs s) (s_stack s) (s_size s) (s_sp s) (s_gas s)
    m (s_retdata s) (s_retsize s) (s_txctx s) (s_extcode s) (s_host s) (s_ret s).
Definition set_retbuf (d : list Z) (n : Z) (s : rt H) : rt H :=
  mkRt (s_regs s) (s_stack s) (s_size s) (s_sp s) (s_gas s)
    (s_mem s) d n (s_txctx s) (s_extcode s) (s_host s) (s_ret s).
Definition set_txctx (c : option evm_tx_context) (s : rt H) : rt H :=
  mkRt (s_regs s) (s_stack s) (s_size s) (s_sp s) (s_gas s)
    (s_mem s) (s_retdata s) (s_retsize s) c (s_extcode s) (s_host s) (s_ret s).
Definition set_extcode (n : nat) (c : list Z) (s : rt H) : rt H :=
  mkRt (s_regs s) (s_stack s) (s_size s) (s_sp s) (s_gas s)
    (s_mem s) (s_retdata s) (s_retsize s) (s_txctx s)
    (fun k => if (k =? n)%nat then c else s_extcode s k) (s_host s) (s_ret s).
Definition set_host (h : H) (s : rt H) : rt H :=
  mkRt (s_regs s) (s_stack s) (s_size s) (s_sp s) (s_gas s)
    (s_mem s) (s_retdata s) (s_retsize s) (s_txctx s) (s_extcode s) h (s_ret s).
Definition set_ret (r : option (Z * Z)) (s : rt H) : rt H :=
  mkRt (s_regs s) (s_stack s) (s_size s) (s_sp s) (s_gas s)
    (s_mem s) (s_retdata s) (s_retsize s) (s_txctx s) (s_extcode s) (s_host s) r.

(** The value of an operand where an undefined one makes the execution undefined. *)
Definition use (s : rt H) (v : value) : run Z := need (evalv (e_data E) (s_regs s) v).

(** The stack slot at an index relative to the stack pointer. *)
Definition slot (s : rt H) (globalIdx : Z) : run nat :=
  let i := s_sp s + globalIdx in
  if (0 <=? i) && (i <? Z.of_nat (length (s_stack s))) then Ok (Z.to_nat i) else Undef.

(** The bytes a memory copy reads from; [_srcPtr] of [Memory::copyBytes]. *)
Definition source_bytes (s : rt H) (src : source) : list Z :=
  match src with
  | SrcCallData => d_callData (e_data E)
  | SrcCode => d_code (e_data E)
  | SrcReturnBuf => s_retdata s
  | SrcExtCode n => s_extcode s n
  end.

(** A 32-byte array in memory, read from and written as an i256; likewise for words. *)
Abbreviation bytes32 := (Endianness.native_bytes 32).
Abbreviation bytes16 := (Endianness.native_bytes 16).

(** The function [loadTxCtx]: fetch the context unless the flag is set. *)
Definition loadTxCtx (s : rt H) : evm_tx_context :=
  match s_txctx s with Some c => c | None => get_tx_context (e_host E) (s_host s) end.

(** Element [i] of the struct "evm.txctx" as its integer type. *)
Definition txctx_item (c : evm_tx_context) (i : nat) : option Z :=
  match i with
  | 0%nat => Some (Endianness.native_val (tx_gas_price c))
  | 1%nat => Some (Endianness.native_val (tx_origin c))
  | 2%nat => Some (Endianness.native_val (block_coinbase c))
  | 3%nat => Some (block_number c)
  | 4%nat => Some (block_timestamp c)
  | 5%nat => Some (block_gas_limit c)
  | 6%nat => Some (Endianness.native_val (block_difficulty c))
  | _ => None
  end.

(** The operands of a list of values. *)
Fixpoint uses (s : rt H) (vs : list value) : run (list Z) :=
  match vs with
  | [] => Ok []
  | v :: vs => z ← use s v; zs ← uses s vs; Ok (z :: zs)
  end.

Definition exec1 (i : instr) (s : rt H) : run (rt H) :=
  let T := e_host E in
  match i with
  | IDiv dst op a b =>
      x ← use s a; y ← use s b; z ← need (eval_bin op x y); Ok (set_reg dst (Some z) s)
  | IExp dst a b =>
      x ← use s a; y ← use s b;
      match getExpFunc x y with Ret z => Ok (set_reg dst (Some z) s) | _ => Undef end
  | IPrepare args =>
      '(min, max, diff) ← need args;
      '(sp, size) ← stackPrepareFunc (s_size s) (wrap 64 min) (wrap 64 max) (wrap 64 diff);
      Ok (set_frame sp size s)
  | IStackLoad dst globalIdx =>
      i ← slot s globalIdx; Ok (set_reg dst (mjoin (s_stack s !! i)) s)
  | IStackStore v globalIdx =>
      i ← slot s globalIdx; Ok (set_slots (<[i := evalv (e_data E) (s_regs s) v]> (s_stack s)) s)
  | IGasCheck _ cost => c ← need cost; g ← gasCheckFunc (s_gas s) (wrap 64 c); Ok (set_gas g s)
  | IGasDyn cost => c ← use s cost; g ← gasCheckFunc (s_gas s) c; Ok (set_gas g s)
  | IGetGas dst => Ok (set_reg dst (Some (s_gas s)) s)
  | ISetGas v => z ← use s v; Ok (set_gas z s)
  | IMemRequire off size =>
      o ← use s off; n ← use s size;
      '(mem, gas) ← getRequireFunc (e_uninit E) (e_rev E) (s_mem s) (s_gas s) o n;
      Ok (set_gas gas (set_mem mem s))
  | IMLoad dst addr => a ← use s addr; z ← mloadFunc (s_mem s) a; Ok (set_reg dst (Some z) s)
  | IMStore addr v => a ← use s addr; z ← use s v; m ← mstoreFunc (s_mem s) a z; Ok (set_mem m s)
  | IMStore8 addr v => a ← use s addr; z ← use s v; m ← mstore8Func (s_mem s) a z; Ok (set_mem m s)
  | IMemSize dst => Ok (set_reg dst (Some (a_size (s_mem s))) s)
  | IMemCpy src dstIdx srcIdx n =>
      d ← use s dstIdx; i ← use s srcIdx; n ← use s n;
      bs ← mread (source_bytes s src) i n;
      data ← mwrite (a_data (s_mem s)) d bs;
      Ok (set_mem (mkArray data (a_size (s_mem s)) (a_cap (s_mem s))) s)
  | IMemSet dstIdx n =>
      d ← use s dstIdx; n ← use s n;
      data ← mwrite (a_data (s_mem s)) d (replicate (Z.to_nat n) 0);
      Ok (set_mem (mkArray data (a_size (s_mem s)) (a_cap (s_mem s))) s)
  | ILoadPadded dst idx copySize padSize =>
      i ← use s idx; n ← use s copySize; p ← use s padSize;
      bs ← mread (d_callData (e_data E)) i n;
      let pad := replicate (Z.to_nat p) 0 in
      if n + p =? 16 then Ok (set_reg dst (Some (Endianness.native_val (bs ++ pad))) s) else Undef
  | ITxContextItem dst i =>
      let c := loadTxCtx s in
      Ok (set_reg dst (txctx_item c i) (set_txctx (Some c) s))
  | IReturnBufSize dst => Ok (set_reg dst (Some (s_retsize s)) s)
  | IResetReturnBuf => Ok (set_retbuf (s_retdata s) 0 s)
  | ISload dst addr key =>
      a ← use s addr; k ← use s key;
      Ok (set_reg dst (Some (Endianness.native_val (get_storage T (s_host s) (bytes32 a) (bytes16 k)))) s)
  | ISstore addr key v =>
      a ← use s addr; k ← use s key; z ← use s v;
      Ok (set_host (set_storage T (s_host s) (bytes32 a) (bytes16 k) (bytes16 z)) s)
  | IBalance dst addr =>
      a ← use s addr;
      Ok (set_reg dst (Some (Endianness.native_val (get_balance T (s_host s) (bytes32 a)))) s)
  | IExists dst addr =>
      a ← use s addr; Ok (set_reg dst (Some (account_exists T (s_host s) (bytes32 a))) s)
  | IExtCode dst addr =>
      a ← use s addr;
      let c := get_code T (s_host s) (bytes32 a) in
      Ok (set_reg dst (Some (Z.of_nat (length c))) (set_extcode dst c s))
  | IExtCodeSize dst addr =>
      a ← use s addr;
      Ok (set_reg dst (Some (Z.of_nat (length (get_code T (s_host s) (bytes32 a))))) s)
  | ISelfdestruct addr b =>
      a ← use s addr; b ← use s b; Ok (set_host (selfdestruct T (s_host s) (bytes32 a) (bytes32 b)) s)
  | IBlockHash dst number =>
      n ← use s number;
      Ok (set_reg dst (Some (Endianness.native_val (get_block_hash T (s_host s) (sgn 64 n)))) s)
  | ISha3 dst off size =>
      o ← use s off; n ← use s size; bs ← mread (a_data (s_mem s)) (wrap 64 o) n;
      Ok (set_reg dst (Some (Endianness.native_val (keccak bs))) s)
  | ILog addr off size topics =>
      a ← use s addr; o ← use s off; n ← use s size; ts ← uses s topics;
      bs ← mread (a_data (s_mem s)) (wrap 64 o) n;
      Ok (set_host (host_log T (s_host s) (bytes32 a) bs (map bytes16 ts)) s)
  | ICall dst kind gas addr val inOff inSize outOff outSize myAddr depth =>
      g ← use s gas; a ← use s addr; v ← use s val; io ← use s inOff; isz ← use s inSize;
      oo ← use s outOff; osz ← use s outSize; m ← use s myAddr; d ← use s depth;
      input ← mread (a_data (s_mem s)) (wrap 64 io) isz;
      let '(r, out, buf, h) :=
        getCallFunc T (e_uninit_hash E) (e_current E (s_host s)) (s_host s) kind g (bytes32 a) (bytes16 v) input osz
          (bytes32 m) d in
      data ← mwrite (a_data (s_mem s)) (wrap 64 oo) out;
      let s := set_host h (set_mem (mkArray data (a_size (s_mem s)) (a_cap (s_mem s))) s) in
      let s := match buf with Some b => set_retbuf b (Z.of_nat (length b)) s | None => s end in
      Ok (set_reg dst (Some r) s)
  | ICreate dst dstAddr gas val inOff inSize myAddr depth =>
      g ← use s gas; v ← use s val; io ← use s inOff; isz ← use s inSize;
      m ← use s myAddr; d ← use s depth;
      input ← mread (a_data (s_mem s)) (wrap 64 io) isz;
      let '(r, out, buf, h) :=
        getCallFunc T (e_uninit_hash E) (e_current E (s_host s)) (s_host s) K_CREATE g (e_undef_addr E) (bytes16 v) input 32
          (bytes32 m) d in
      let s := set_host h s in
      let s := match buf with Some b => set_retbuf b (Z.of_nat (length b)) s | None => s end in
      let addr := if (length out =? 32)%nat then Some (Endianness.native_val out) else None in
      Ok (set_reg dstAddr addr (set_reg dst (Some r) s))
  | IRegisterReturnData off size =>
      o ← use s off; n ← use s size; Ok (set_ret (Some (wrap 64 o, n)) s)
  end.

Fixpoint exec (l : list instr) (s : rt H) : run (rt H) :=
  match l with [] => Ok s | i :: l => s ← exec1 i s; exec l s end.
End Exec.

(** ** Folders *)

(** A builder that folds nothing, and one that folds constant operands. *)
Definition no_fold : LLVMFolder.
Proof. refine {| fold v := v |}; done. Defined.

Definition const_fold_value (v : value) : value :=
  match v with
  | VBin op (VConst _ x) (VConst _ y) =>
      match eval_bin op x y with Some z => VConst (bin_width op) z | None => v end
  | VUn op (VConst _ x) => match eval_un op x with Some z => VConst (un_width op) z | None => v end
  | VSelect (VConst _ c) (VConst w x) (VConst w' y) =>
      if (w =? w') then (if c =? 1 then VConst w x else VConst w y) else v
  | _ => v
  end.

Definition const_fold : LLVMFolder.
Proof.
  refine {| fold := const_fold_value |}.
  - intros v. destruct v as [| | | op a b | op a | c a b |]; try done; simpl.
    + destruct a, b; try done. by destruct (eval_bin op z z0).
    + destruct a; try done. by destruct (eval_un op z).
    + destruct c; try done. destruct a; try done. destruct b; try done.
      destruct (Z.eqb_spec w0 w1); [subst | done]. by destruct (z =? 1).
  - intros D ρ v z. destruct v as [| | | op a b | op a | c a b |]; try done; simpl.
    + destruct a, b; try done. simpl. intros Hz. rewrite Hz. done.
    + destruct a; try done. simpl. intros Hz. rewrite Hz. done.
    + destruct c; try done. destruct a; try done. destruct b; try done. simpl.
      destruct (Z.eqb_spec w0 w1); [subst | done]. by destruct (z0 =? 1).
Defined.

(** ** Lemmas *)

Lemma exec_app {H} (E : Env H) l1 l2 s : exec E (l1 ++ l2) s = exec E l1 s ≫= exec E l2.
Proof.
  revert s. induction l1 as [| i l1 IH]; intros s; [done |]. simpl.
  destruct (exec1 E i s) as [s' | |]; simpl; auto.
Qed.
