(* ===== verification/Builder.v ===== *)
(** * The code generator's state

    Generating the code of a basic block is a computation of the monad [C]: it
    reads and writes the generator's state (the [LocalStack] of the block, the
    open cost block of [GasMeter], the next free register) and appends to a log
    of what it does to the LLVM block: appending an instruction, replacing the
    arguments of one appended before ([setArgOperand]), or erasing one.
    [build] carries out the log, [exec_log] runs it without carrying it out,
    and [exec_build] shows that the two agree. *)
From S2P Require Import Prelude Bytes Instruction LLVMInt EvmAbi Runtime IR.

Record cstate := mkC {
  c_next : nat;                      (* the next free register *)
  m_input : list (option value);     (* LocalStack: items of the global stack *)
  m_local : list value;              (* LocalStack: items pushed, the last one on top *)
  m_globalPops : nat;
  m_minSize : Z;
  m_maxSize : Z;
  m_checkCall : option nat;          (* GasMeter: the check of the open cost block *)
  m_blockCost : Z;
  c_term : option terminator;        (* the terminator of the LLVM block *)
  c_cases : list Z                   (* the cases added to the jump table *)
}.

Inductive event :=
| EEmit (i : instr)
| ESetCost (id : nat) (cost : Z)     (* m_checkCall->setArgOperand(1, cost) *)
| EErase (id : nat)                  (* m_checkCall->eraseFromParent() *)
| ESetPrepare (min max diff : Z).    (* m_sp->setArgOperand(2, 3, 4) *)

(** ** The monad *)

Definition C (A : Type) : Type := cstate -> A * cstate * list event.

#[global] Instance C_ret : MRet C := fun A a cs => (a, cs, []).
#[global] Instance C_bind : MBind C := fun A B f m cs =>
  let '(a, cs, l1) := m cs in
  let '(b, cs, l2) := f a cs in
  (b, cs, l1 ++ l2).

Definition emit (i : instr) : C unit := fun cs => (tt, cs, [EEmit i]).
Definition event_ (e : event) : C unit := fun cs => (tt, cs, [e]).
Definition get_state : C cstate := fun cs => (cs, cs, []).
Definition modify (f : cstate -> cstate) : C unit := fun cs => (tt, f cs, []).

Definition set_next (n : nat) (cs : cstate) : cstate :=
  mkC n (m_input cs) (m_local cs) (m_globalPops cs) (m_minSize cs) (m_maxSize cs)
    (m_checkCall cs) (m_blockCost cs) (c_term cs) (c_cases cs).
Definition set_input (l : list (option value)) (cs : cstate) : cstate :=
  mkC (c_next cs) l (m_local cs) (m_globalPops cs) (m_minSize cs) (m_maxSize cs)
    (m_checkCall cs) (m_blockCost cs) (c_term cs) (c_cases cs).
Definition set_local (l : list value) (cs : cstate) : cstate :=
  mkC (c_next cs) (m_input cs) l (m_globalPops cs) (m_minSize cs) (m_maxSize cs)
    (m_checkCall cs) (m_blockCost cs) (c_term cs) (c_cases cs).
Definition set_pops (n : nat) (cs : cstate) : cstate :=
  mkC (c_next cs) (m_input cs) (m_local cs) n (m_minSize cs) (m_maxSize cs)
    (m_checkCall cs) (m_blockCost cs) (c_term cs) (c_cases cs).
Definition set_min (n : Z) (cs : cstate) : cstate :=
  mkC (c_next cs) (m_input cs) (m_local cs) (m_globalPops cs) n (m_maxSize cs)
    (m_checkCall cs) (m_blockCost cs) (c_term cs) (c_cases cs).
Definition set_max (n : Z) (cs : cstate) : cstate :=
  mkC (c_next cs) (m_input cs) (m_local cs) (m_globalPops cs) (m_minSize cs) n
    (m_checkCall cs) (m_blockCost cs) (c_term cs) (c_cases cs).
Definition set_cost (call : option nat) (cost : Z) (cs : cstate) : cstate :=
  mkC (c_next cs) (m_input cs) (m_local cs) (m_globalPops cs) (m_minSize cs) (m_maxSize cs)
    call cost (c_term cs) (c_cases cs).
Definition set_term (t : terminator) (cs : cstate) : cstate :=
  mkC (c_next cs) (m_input cs) (m_local cs) (m_globalPops cs) (m_minSize cs) (m_maxSize cs)
    (m_checkCall cs) (m_blockCost cs) (Some t) (c_cases cs).
Definition add_case (z : Z) (cs : cstate) : cstate :=
  mkC (c_next cs) (m_input cs) (m_local cs) (m_globalPops cs) (m_minSize cs) (m_maxSize cs)
    (m_checkCall cs) (m_blockCost cs) (c_term cs) (c_cases cs ++ [z]).

(** A fresh register. *)
Definition fresh : C nat := fun cs => (c_next cs, set_next (S (c_next cs)) cs, []).

(** Emit an instruction that defines a register of width [w]. *)
Definition emit_reg (w : Z) (i : nat -> instr) : C value :=
  n ← fresh; _ ← emit (i n); mret (VReg w n).

(** ** Carrying out the log *)

(** What a later event does to an instruction already in the block. *)
Definition touch (e : event) (i : instr) : list instr :=
  match e, i with
  | ESetCost id c, IGasCheck id' _ => if (id =? id')%nat then [IGasCheck id' (Some c)] else [i]
  | EErase id, IGasCheck id' _ => if (id =? id')%nat then [] else [i]
  | ESetPrepare min max diff, IPrepare _ => [IPrepare (Some (min, max, diff))]
  | _, _ => [i]
  end.

Definition apply_event (code : list instr) (e : event) : list instr :=
  match e with
  | EEmit i => code ++ [i]
  | _ => mbind (touch e) code
  end.

Definition build (log : list event) : list instr := foldl apply_event [] log.

(** An instruction after all events of [tail]. *)
Fixpoint settle (tail : list event) (i : instr) : list instr :=
  match tail with
  | [] => [i]
  | e :: tail => touch e i ≫= settle tail
  end.

Section ExecLog.
Context {H : Type} (E : Env H).

(** Run a log whose continuation is [tail]. *)
Fixpoint exec_log (log tail : list event) (s : rt H) : run (rt H) :=
  match log with
  | [] => Ok s
  | EEmit i :: log => s ← exec E (settle (log ++ tail) i) s; exec_log log tail s
  | _ :: log => exec_log log tail s
  end.

Lemma exec_log_app l1 l2 tail s :
  exec_log (l1 ++ l2) tail s = exec_log l1 (l2 ++ tail) s ≫= exec_log l2 tail.
Proof.
  revert s. induction l1 as [| e l1 IH]; intros s; [done |].
  destruct e; simpl; auto. rewrite <- app_assoc.
  destruct (exec E (settle (l1 ++ l2 ++ tail) i) s); simpl; auto.
Qed.

Lemma bind_settle_cons e log (acc : list instr) :
  acc ≫= settle (e :: log) = (acc ≫= touch e) ≫= settle log.
Proof.
  induction acc as [| i acc IH]; [done |]. rewrite !bind_cons, bind_app. by f_equal.
Qed.

Lemma build_acc log acc :
  foldl apply_event acc log = (acc ≫= settle log) ++ build log.
Proof.
  unfold build. revert acc. induction log as [| e log IH]; intros acc.
  - simpl. rewrite app_nil_r. induction acc as [| i acc IHa]; [done |].
    rewrite bind_cons, <- IHa. done.
  - rewrite bind_settle_cons. cbn [foldl]. rewrite IH, (IH (apply_event [] e)). rewrite app_assoc. f_equal.
    destruct e as [i | | |]; cbn [apply_event touch]; [| by rewrite app_nil_r..].
    rewrite bind_app. f_equal. f_equal.
    induction acc as [| j acc IHa]; [done |]. rewrite bind_cons, <- IHa. done.
Qed.

(** Running the log is running the block it builds. *)
Lemma exec_build log s : exec E (build log) s = exec_log log [] s.
Proof.
  revert s. induction log as [| e log IH]; intros s; [done |].
  unfold build. cbn [foldl]. rewrite build_acc, exec_app. destruct e as [i | | |]; simpl; auto.
  rewrite !app_nil_r. destruct (exec E (settle log i) s); simpl; auto.
Qed.
End ExecLog.
