(* ===== verification/Codegen.v ===== *)
(** * The components of the code generator

    One module per class of libevmjit that emits code: the IR builder as the
    sources use it, [LocalStack] (BasicBlock.cpp), [GasMeter], [RuntimeManager],
    [Memory] and [Ext].  The runtime functions they call (gas.check, mem.require
    and the like) are those of Runtime.v. *)
From S2P Require Import Prelude Bytes Instruction LLVMInt Arith128 EvmAbi GasSchedule Runtime IR Builder.

Section IRBuilder.
Context `{LLVMFolder}.

(** ** The IR builder *)

Definition CreateBin (op : binop) (a b : value) : value := fold (VBin op a b).
Definition CreateSelect (c a b : value) : value := fold (VSelect c a b).
Definition CreateICmp (p : ipred) (a b : value) : value := CreateBin (ICmp p (typeof a)) a b.

(** The casts return a value of the right type as it is. *)
Definition CreateZExt (v : value) (w : Z) : value :=
  if typeof v =? w then v else fold (VUn (ZExt w) v).
Definition CreateTrunc (v : value) (w : Z) : value :=
  if typeof v =? w then v else fold (VUn (Trunc w) v).

Definition CreateAdd (a b : value) : value := CreateBin (Add (typeof a) false false) a b.
Definition CreateSub (a b : value) : value := CreateBin (Sub (typeof a) false false) a b.
Definition CreateMul (a b : value) : value := CreateBin (Mul (typeof a) false false) a b.
Definition CreateNUWAdd (a b : value) : value := CreateBin (Add (typeof a) true false) a b.
Definition CreateNUWSub (a b : value) : value := CreateBin (Sub (typeof a) true false) a b.
Definition CreateNUWMul (a b : value) : value := CreateBin (Mul (typeof a) true false) a b.
Definition CreateAnd (a b : value) : value := CreateBin (And (typeof a)) a b.
Definition CreateOr (a b : value) : value := CreateBin (Or (typeof a)) a b.
Definition CreateXor (a b : value) : value := CreateBin (Xor (typeof a)) a b.

(** Shifts by a constant take it at the width of the value. *)
Definition CreateLShr (a : value) (n : Z) : value := CreateBin (LShr (typeof a)) a (VConst (typeof a) n).
Definition CreateShl (a : value) (n : Z) : value := CreateBin (Shl (typeof a)) a (VConst (typeof a) n).

(** A division is folded to a constant or emitted. *)
Definition CreateDiv (op : binop) (a b : value) : C value :=
  match fold (VBin op a b) with
  | VConst w z => mret (VConst w z)
  | _ => emit_reg (bin_width op) (fun n => IDiv n op a b)
  end.

(** [Constant::get], [Constant::get256], [IRBuilder::getInt64]. *)
Definition Constant_get (n : Z) : value := VConst Word (wrap Word n).
Definition Constant_get256 (n : Z) : value := VConst Word256 (wrap Word256 n).
Definition getInt64 (n : Z) : value := VConst i64 (wrap i64 n).
Definition Constant_gasMax : value := VConst i64 INT64_MAX.

(** [Endianness::bswapIfLE]: [toBE] and [toNative] are this function. *)
Definition bswapIfLE (v : value) : value :=
  if Endianness.IsLittleEndianHost then
    match v with
    | VConst w z => VConst w (bswap (Z.to_nat (w / 8)) z)
    | _ => VUn (BSwap (Z.to_nat (typeof v / 8))) v
    end
  else v.
Definition toBE : value -> value := bswapIfLE.
Definition toNative : value -> value := bswapIfLE.

End IRBuilder.

(** ** LocalStack *)

Module LocalStack.
Definition size (cs : cstate) : Z := Z.of_nat (length (m_local cs)) - Z.of_nat (m_globalPops cs).

(** The constructor: the call of stack.prepare, its arguments still undef. *)
Definition init : C unit :=
  _ ← modify (fun cs => mkC (c_next cs) [] [] 0 0 0 (m_checkCall cs) (m_blockCost cs) None (c_cases cs));
  emit (IPrepare None).

Definition push (v : value) : C unit :=
  _ ← modify (fun cs => set_local (m_local cs ++ [v]) cs);
  modify (fun cs => set_max (Z.max (m_maxSize cs) (size cs)) cs).

(** Fetch an item of the global stack unless it has been before. *)
Definition get_input (idx : nat) : C value :=
  _ ← modify (fun cs => if (length (m_input cs) <=? idx)%nat
                        then set_input (resize (S idx) None (m_input cs)) cs else cs);
  cs ← get_state;
  match m_input cs !! idx with
  | Some (Some item) => mret item
  | _ =>
      let globalIdx := - Z.of_nat idx - 1 in
      item ← emit_reg Word (fun n => IStackLoad n globalIdx);
      _ ← modify (fun cs => set_input (<[idx := Some item]> (m_input cs)) cs);
      _ ← modify (fun cs => set_min (Z.min (m_minSize cs) globalIdx) cs);
      mret item
  end.

Definition get (index : nat) : C value :=
  cs ← get_state;
  match reverse (m_local cs) !! index with
  | Some v => mret v
  | None => get_input (index - length (m_local cs) + m_globalPops cs)
  end.

Definition set (index : nat) (word : value) : C unit :=
  cs ← get_state;
  if (index <? length (m_local cs))%nat
  then modify (set_local (<[length (m_local cs) - 1 - index := word]> (m_local cs)))%nat
  else modify (set_input (<[index - length (m_local cs) + m_globalPops cs := Some word]> (m_input cs)))%nat.

Definition pop : C value :=
  item ← get 0;
  _ ← modify (fun cs => if (0 <? length (m_local cs))%nat
                        then set_local (take (length (m_local cs) - 1) (m_local cs)) cs
                        else set_pops (S (m_globalPops cs)) cs);
  _ ← modify (fun cs => set_min (Z.min (m_minSize cs) (size cs)) cs);
  mret item.

Definition dup (index : nat) : C unit := val ← get index; push val.

Definition swap (index : nat) : C unit :=
  val ← get index; tos ← get 0; _ ← set index tos; set 0 val.

(** The loop of [finalize] over [n] slots from [globalIdx] up. *)
Fixpoint finalize_loop (n : nat) (globalIdx globalPops : Z)
  (inputIt : list (option value)) (localIt : list value) : C unit :=
  match n with
  | O => mret tt
  | S n =>
    if globalIdx <? - globalPops then
      match inputIt with
      | None :: inputIt => finalize_loop n (globalIdx + 1) globalPops inputIt localIt
      | Some item :: inputIt =>
          _ ← emit (IStackStore item globalIdx);
          finalize_loop n (globalIdx + 1) globalPops inputIt localIt
      | [] => mret tt
      end
    else
      match localIt with
      | item :: localIt =>
          _ ← emit (IStackStore item globalIdx);
          finalize_loop n (globalIdx + 1) globalPops inputIt localIt
      | [] => mret tt
      end
  end.

Definition finalize : C unit :=
  cs ← get_state;
  _ ← event_ (ESetPrepare (m_minSize cs) (m_maxSize cs) (size cs));
  let first := - Z.of_nat (length (m_input cs)) in
  finalize_loop (Z.to_nat (size cs - first)) first (Z.of_nat (m_globalPops cs))
    (reverse (m_input cs)) (m_local cs).
End LocalStack.

(** ** RuntimeManager *)

Module RuntimeManager.
Section RuntimeManager.
Context `{LLVMFolder}.
Definition getAddress : value := VData Address.
Definition getCaller : value := VData Caller.
Definition getValue : value := VData Value.
Definition getDepth : value := VData Depth.
Definition getCallDataSize : value := CreateZExt (VData CallDataSize) Word.
Definition getCodeSize (codeSize : nat) : value := Constant_get (Z.of_nat codeSize).
Definition getGas : C value := emit_reg i64 IGetGas.
Definition setGas (v : value) : C unit := emit (ISetGas v).
Definition resetReturnBuf : C unit := emit IResetReturnBuf.

(** The width of an element of the struct "evm.txctx". *)
Definition txctx_width (i : nat) : Z :=
  match i with 0%nat | 6%nat => Word | 1%nat | 2%nat => Word256 | _ => i64 end.
Definition getTxContextItem (i : nat) : C value := emit_reg (txctx_width i) (fun n => ITxContextItem n i).

Definition registerReturnData (offset size : value) : C unit :=
  let size64 := CreateTrunc size i64 in
  emit (IRegisterReturnData offset size64).

Definition exit (code : ReturnCode) : C unit := modify (set_term (TExit code)).
End RuntimeManager.
End RuntimeManager.

(** ** GasMeter *)

Module GasMeter.
Section GasMeter.
Context `{LLVMFolder}.
(** [count] of an instruction. *)
Definition count_inst (rev : evm_revision) (inst : Instruction) : C unit :=
  cs ← get_state;
  _ ← match m_checkCall cs with
      | None =>
          id ← fresh;
          _ ← emit (IGasCheck id None);
          modify (fun cs => set_cost (Some id) (m_blockCost cs) cs)
      | Some _ => mret tt
      end;
  modify (fun cs => set_cost (m_checkCall cs) (m_blockCost cs + getStepCost rev inst) cs).

(** [count] of a computed cost. *)
Definition count (cost : value) : C unit :=
  let cost :=
    if typeof cost =? Word then
      let gasMax128 := CreateZExt Constant_gasMax Word in
      let tooHigh := CreateICmp IUGT cost gasMax128 in
      let cost64 := CreateTrunc cost i64 in
      CreateSelect tooHigh Constant_gasMax cost64
    else cost in
  emit (IGasDyn cost).

Definition countExp (rev : evm_revision) (exponent : value) : C unit :=
  let lz128 := VUn (Ctlz Word) exponent in
  let lz := CreateTrunc lz128 i64 in
  let sigBits := CreateSub (getInt64 128) lz in
  sigBytes ← CreateDiv (UDiv i64) (CreateAdd sigBits (getInt64 7)) (getInt64 8);
  let exponentByteCost :=
    if rev_ge rev EVM_AION then 1
    else if rev_ge rev EVM_SPURIOUS_DRAGON then 50 else schedule.(expByteGas) in
  count (CreateNUWMul sigBytes (getInt64 exponentByteCost)).

Definition countLogData (rev : evm_revision) (dataLength : value) : C unit :=
  count (CreateNUWMul dataLength (Constant_get (if rev_ge rev EVM_AION then 20 else schedule.(logDataGas)))).

Definition countSha3Data (dataLength : value) : C unit :=
  let dataLength64 := CreateTrunc dataLength i64 in
  words64 ← CreateDiv (UDiv i64) (CreateNUWAdd dataLength64 (getInt64 31)) (getInt64 32);
  let cost64 := CreateNUWMul (getInt64 schedule.(sha3WordGas)) words64 in
  count cost64.

Definition giveBack (gas : value) : C unit :=
  g ← RuntimeManager.getGas; RuntimeManager.setGas (CreateAdd g gas).

Definition commitCostBlock : C unit :=
  cs ← get_state;
  match m_checkCall cs with
  | Some id =>
      if m_blockCost cs =? 0 then
        _ ← event_ (EErase id);
        modify (set_cost None 0)
      else
        _ ← event_ (ESetCost id (m_blockCost cs));
        modify (set_cost None 0)
  | None => mret tt
  end.

Definition countCopy (copyWords : value) : C unit :=
  count (CreateNUWMul copyWords (getInt64 schedule.(copyGas))).
End GasMeter.
End GasMeter.

(** ** Memory *)

Module Memory.
Section Memory.
Context `{LLVMFolder}.
Definition require (offset size : value) : C unit :=
  match dyn_const size with
  | Some 0 => mret tt
  | _ => emit (IMemRequire offset size)
  end.

Definition loadWord (addr : value) : C value :=
  _ ← require addr (Constant_get (128 / 8));
  emit_reg Word (fun n => IMLoad n addr).

Definition storeWord (addr word : value) : C unit :=
  _ ← require addr (Constant_get (128 / 8));
  emit (IMStore addr word).

Definition storeByte (addr word : value) : C unit :=
  _ ← require addr (Constant_get (8 / 8));
  let byte := CreateTrunc word i8 in
  emit (IMStore8 addr byte).

Definition getSize : C value :=
  size ← emit_reg i64 IMemSize;
  mret (CreateZExt size Word).

Definition copyBytes (src : source) (srcSize srcIdx destMemIdx reqBytes_ : value) : C unit :=
  _ ← require destMemIdx reqBytes_;
  let reqBytes := CreateTrunc reqBytes_ i64 in
  copyWords ← CreateDiv (UDiv i64) (CreateNUWAdd reqBytes (getInt64 31)) (getInt64 32);
  _ ← GasMeter.countCopy copyWords;
  let isOutsideData := CreateICmp IUGE srcIdx srcSize in
  let idx64 := CreateTrunc srcIdx i64 in
  let size64 := CreateTrunc srcSize i64 in
  let dataLeftSize := CreateNUWSub size64 idx64 in
  let outOfBound := CreateICmp IUGT reqBytes dataLeftSize in
  let bytesToCopyInner := CreateSelect outOfBound dataLeftSize reqBytes in
  let bytesToCopy := CreateSelect isOutsideData (getInt64 0) bytesToCopyInner in
  let bytesToZero := CreateNUWSub reqBytes bytesToCopy in
  let dstIdx := CreateTrunc destMemIdx i64 in
  let padIdx := CreateNUWAdd dstIdx bytesToCopy in
  _ ← emit (IMemCpy src dstIdx idx64 bytesToCopy);
  emit (IMemSet padIdx bytesToZero).

Definition copyBytesNoPadding (src : source) (srcSize srcIdx_ destMemIdx reqBytes_ : value) : C unit :=
  _ ← require destMemIdx reqBytes_;
  let reqBytes := CreateTrunc reqBytes_ i64 in
  copyWords ← CreateDiv (UDiv i64) (CreateNUWAdd reqBytes (getInt64 31)) (getInt64 32);
  let reqSize := CreateAdd srcIdx_ reqBytes_ in
  let overflow := CreateICmp IULT reqSize reqBytes_ in
  let outOfRange := CreateICmp IUGT reqSize (CreateZExt srcSize Word) in
  let bufferOverrun := CreateOr overflow outOfRange in
  let penalty := getInt64 INT64_MAX in
  let cost := CreateSelect bufferOverrun penalty copyWords in
  _ ← GasMeter.countCopy cost;
  let srcIdx := CreateTrunc srcIdx_ i64 in
  let dstIdx := CreateTrunc destMemIdx i64 in
  emit (IMemCpy src dstIdx srcIdx reqBytes).
End Memory.
End Memory.

(** ** Ext *)

Module Ext.
Section Ext.
Context `{LLVMFolder}.
(** The address of the executing account as the host calls take it. *)
Definition myAddr : value := toBE (CreateTrunc (toNative RuntimeManager.getAddress) Word256).

Definition sload (index : value) : C value :=
  let index := toBE index in
  v ← emit_reg Word (fun n => ISload n myAddr index);
  mret (toNative v).

Definition sstore (index val : value) : C unit :=
  emit (ISstore myAddr (toBE index) (toBE val)).

Definition selfdestruct (beneficiary : value) : C unit :=
  let b := toBE (CreateTrunc beneficiary Word256) in
  emit (ISelfdestruct myAddr b).

Definition calldataload (idx_ : value) : C value :=
  let callDataSize := RuntimeManager.getCallDataSize in
  let callDataSize64 := CreateTrunc callDataSize i64 in
  let idxValid := CreateICmp IULT idx_ callDataSize in
  let idx := CreateTrunc (CreateSelect idxValid idx_ callDataSize) i64 in
  let end_ := CreateNUWAdd idx (getInt64 16) in
  let end_ := CreateSelect (CreateICmp IULE end_ callDataSize64) end_ callDataSize64 in
  let copySize := CreateNUWSub end_ idx in
  let padSize := CreateNUWSub (getInt64 16) copySize in
  v ← emit_reg Word (fun n => ILoadPadded n idx copySize padSize);
  mret (toNative v).

Definition balance (address_ : value) : C value :=
  let address := toBE (CreateTrunc address_ Word256) in
  v ← emit_reg Word (fun n => IBalance n address);
  mret (toNative v).

Definition exists_ (address_ : value) : C value :=
  let address := toBE (CreateTrunc address_ Word256) in
  r ← emit_reg 32 (fun n => IExists n address);
  mret (CreateTrunc r i1).

Definition blockHash (number_ : value) : C value :=
  let number := CreateTrunc number_ i64 in
  v ← emit_reg Word256 (fun n => IBlockHash n number);
  mret (toNative v).

Definition sha3 (inOff inSize : value) : C value :=
  let size := CreateTrunc inSize i64 in
  v ← emit_reg Word256 (fun n => ISha3 n inOff size);
  mret (toNative v).

(** The code fetched and its size. *)
Definition extcode (address_ : value) : C (source * value) :=
  let address := toBE (CreateTrunc address_ Word256) in
  n ← fresh;
  _ ← emit (IExtCode n address);
  mret (SrcExtCode n, CreateZExt (VReg i64 n) Word).

Definition extcodesize (address_ : value) : C value :=
  let address := toBE (CreateTrunc address_ Word256) in
  size ← emit_reg i64 (fun n => IExtCodeSize n address);
  mret (CreateZExt size Word).

Definition log (memIdx numBytes : value) (topics : list value) : C unit :=
  let dataSize := CreateTrunc numBytes i64 in
  emit (ILog myAddr memIdx dataSize (map toBE topics)).

Definition call (kind : Z) (gas_ addr_ val inOff inSize_ outOff outSize_ : value) : C value :=
  let gas := CreateTrunc gas_ i64 in
  let addr := toBE (CreateTrunc addr_ Word256) in
  let inSize := CreateTrunc inSize_ i64 in
  let outSize := CreateTrunc outSize_ i64 in
  let pValue := toBE val in
  _ ← RuntimeManager.resetReturnBuf;
  emit_reg i64 (fun n => ICall n kind gas addr pValue inOff inSize outOff outSize myAddr RuntimeManager.getDepth).

Definition create (gas endowment initOff initSize : value) : C (value * value) :=
  let pValue := toBE endowment in
  let inSize := CreateTrunc initSize i64 in
  _ ← RuntimeManager.resetReturnBuf;
  r ← fresh;
  a ← fresh;
  _ ← emit (ICreate r a gas pValue initOff inSize myAddr RuntimeManager.getDepth);
  mret (VReg i64 r, VReg Word256 a).
End Ext.
End Ext.

Section Composite.
Context `{LLVMFolder}.

(** [GasMeter::countSStore]. *)
Definition countSStore (rev : evm_revision) (index newValue : value) : C unit :=
  oldValue ← Ext.sload index;
  let oldValueIsZero := CreateICmp IEQ oldValue (Constant_get 0) in
  let newValueIsntZero := CreateICmp INE newValue (Constant_get 0) in
  let isInsert := CreateAnd oldValueIsZero newValueIsntZero in
  let cost := CreateSelect isInsert (getInt64 schedule.(sstoreSetGas))
    (getInt64 (if rev_ge rev EVM_AION then 8000 else schedule.(sstoreResetGas))) in
  GasMeter.count cost.

(** [Arith128::exp]. *)
Definition arith_exp (arg1 arg2 : value) : C value :=
  match dyn_const arg1, dyn_const arg2 with
  | Some b, Some e =>
      match exp_const b e with
      | Ret r => mret (VConst Word r)
      | _ => emit_reg Word (fun n => IExp n arg1 arg2)
      end
  | _, _ => emit_reg Word (fun n => IExp n arg1 arg2)
  end.
End Composite.
