(* ===== verification/Compiler.v ===== *)
(** * Compiling a basic block

    [Compiler::compileBasicBlock] of libevmjit/Compiler.cpp: one definition per
    case of its switch, the dispatch, and the loop over the instructions of a
    block.  The result of a block is its LLVM block: the instructions the log
    of the generator builds, and its terminator. *)
From S2P Require Import Prelude Bytes Instruction BasicBlocks LLVMInt Arith128 EvmAbi GasSchedule Runtime IR.
From S2P Require Import Builder Codegen.

Section Compiler.
Context `{LLVMFolder} (m_rev : evm_revision) (m_staticCall : bool).

Abbreviation pop := LocalStack.pop.
Abbreviation push := LocalStack.push.

(** ** Words of 256 bits *)

Definition pushWord256 (word : value) : C unit :=
  let w16_31 := CreateTrunc word Word in
  _ ← push w16_31;
  let w0_16 := CreateTrunc (CreateLShr word 128) Word in
  push w0_16.

Definition popWord256 : C value :=
  hi ← pop;
  let w0_15 := CreateZExt hi Word256 in
  let w0_15 := CreateShl w0_15 128 in
  lo ← pop;
  let w16_32 := CreateZExt lo Word256 in
  mret (CreateOr w0_15 w16_32).

(** ** Arithmetic *)

Definition compile_ADD : C unit := lhs ← pop; rhs ← pop; push (CreateAdd lhs rhs).
Definition compile_SUB : C unit := lhs ← pop; rhs ← pop; push (CreateSub lhs rhs).
Definition compile_MUL : C unit := lhs ← pop; rhs ← pop; push (CreateMul lhs rhs).

Definition compile_DIV : C unit :=
  d ← pop; n ← pop;
  let divByZero := CreateICmp IEQ n (Constant_get 0) in
  let n := CreateSelect divByZero (Constant_get 1) n in
  r ← CreateDiv (UDiv Word) d n;
  push (CreateSelect divByZero (Constant_get 0) r).

Definition compile_SDIV : C unit :=
  d ← pop; n ← pop;
  let divByZero := CreateICmp IEQ n (Constant_get 0) in
  let divByMinusOne := CreateICmp IEQ n (Constant_get (-1)) in
  let n := CreateSelect divByZero (Constant_get 1) n in
  r ← CreateDiv (SDiv Word) d n;
  let r := CreateSelect divByZero (Constant_get 0) r in
  let dNeg := CreateSub (Constant_get 0) d in
  push (CreateSelect divByMinusOne dNeg r).

Definition compile_MOD : C unit :=
  d ← pop; n ← pop;
  let divByZero := CreateICmp IEQ n (Constant_get 0) in
  let n := CreateSelect divByZero (Constant_get 1) n in
  r ← CreateDiv (URem Word) d n;
  push (CreateSelect divByZero (Constant_get 0) r).

Definition compile_SMOD : C unit :=
  d ← pop; n ← pop;
  let divByZero := CreateICmp IEQ n (Constant_get 0) in
  let divByMinusOne := CreateICmp IEQ n (Constant_get (-1)) in
  let n := CreateSelect divByZero (Constant_get 1) n in
  r ← CreateDiv (SRem Word) d n;
  let r := CreateSelect divByZero (Constant_get 0) r in
  push (CreateSelect divByMinusOne (Constant_get 0) r).

Definition compile_ADDMOD : C unit :=
  a ← pop; b ← pop; m ← pop;
  let divByZero := CreateICmp IEQ m (Constant_get 0) in
  let a := CreateZExt a 256 in
  let b := CreateZExt b 256 in
  let m := CreateZExt m 256 in
  let s := CreateNUWAdd a b in
  s ← CreateDiv (URem 256) s m;
  let s := CreateTrunc s Word in
  push (CreateSelect divByZero (Constant_get 0) s).

Definition compile_MULMOD : C unit :=
  a ← pop; b ← pop; m ← pop;
  let divByZero := CreateICmp IEQ m (Constant_get 0) in
  let a := CreateZExt a 256 in
  let b := CreateZExt b 256 in
  let m := CreateZExt m 256 in
  let p := CreateNUWMul a b in
  p ← CreateDiv (URem 256) p m;
  let p := CreateTrunc p Word in
  push (CreateSelect divByZero (Constant_get 0) p).

Definition compile_EXP : C unit :=
  base ← pop; exponent ← pop;
  _ ← GasMeter.countExp m_rev exponent;
  ret ← arith_exp base exponent;
  push ret.

Definition compile_NOT : C unit := v ← pop; push (CreateXor v (Constant_get (-1))).

(** LT, GT, SLT, SGT and EQ differ in the predicate. *)
Definition compile_cmp (p : ipred) : C unit :=
  lhs ← pop; rhs ← pop;
  let res1 := CreateICmp p lhs rhs in
  push (CreateZExt res1 Word).

Definition compile_ISZERO : C unit :=
  top ← pop;
  let iszero := CreateICmp IEQ top (Constant_get 0) in
  push (CreateZExt iszero Word).

Definition compile_AND : C unit := lhs ← pop; rhs ← pop; push (CreateAnd lhs rhs).
Definition compile_OR : C unit := lhs ← pop; rhs ← pop; push (CreateOr lhs rhs).
Definition compile_XOR : C unit := lhs ← pop; rhs ← pop; push (CreateXor lhs rhs).

Definition compile_BYTE : C unit :=
  idx ← pop; v ← pop;
  let v := toBE v in
  let idxValid := CreateICmp IULT idx (Constant_get 16) in
  let safeIdx := CreateTrunc idx 4 in
  let safeIdx := CreateZExt safeIdx i64 in
  let byte := fold (VExtract v safeIdx) in
  let v := CreateZExt byte Word in
  push (CreateSelect idxValid v (Constant_get 0)).

Definition compile_SIGNEXTEND : C unit :=
  idx ← pop; word ← pop;
  let k16_ := CreateTrunc idx 4 in
  let k16 := CreateZExt k16_ i64 in
  let k16x8 := CreateMul k16 (getInt64 8) in
  let bitpos := CreateAdd k16x8 (getInt64 7) in
  let bitposEx := CreateZExt bitpos Word in
  let bitval := CreateBin (LShr Word) word bitposEx in
  let bittest := CreateTrunc bitval i1 in
  let mask_ := CreateBin (Shl Word) (Constant_get 1) bitposEx in
  let mask := CreateSub mask_ (Constant_get 1) in
  let negmask := CreateXor mask (Constant_get (-1)) in
  let val1 := CreateOr word negmask in
  let val0 := CreateAnd word mask in
  let kInRange := CreateICmp IULE idx (Constant_get 14) in
  push (CreateSelect kInRange (CreateSelect bittest val1 val0) word).

Definition compile_SHA3 : C unit :=
  inOff ← pop; inSize ← pop;
  _ ← Memory.require inOff inSize;
  _ ← GasMeter.countSha3Data inSize;
  hash ← Ext.sha3 inOff inSize;
  pushWord256 hash.

(** ** Stack *)

Definition compile_POP : C unit := _ ← pop; mret tt.

(** The pushed constant has 128 or 256 bits. *)
Definition compile_PUSH (v bits : Z) : C unit :=
  if 8 * 16 <? bits then pushWord256 (VConst bits v) else push (VConst bits v).

(** ** Memory and storage *)

Definition compile_MLOAD : C unit := addr ← pop; word ← Memory.loadWord addr; push word.
Definition compile_MSTORE : C unit := addr ← pop; word ← pop; Memory.storeWord addr word.
Definition compile_MSTORE8 : C unit := addr ← pop; word ← pop; Memory.storeByte addr word.
Definition compile_MSIZE : C unit := word ← Memory.getSize; push word.
Definition compile_SLOAD : C unit := index ← pop; v ← Ext.sload index; push v.

Definition compile_SSTORE : C unit :=
  index ← pop; v ← pop;
  _ ← countSStore m_rev index v;
  Ext.sstore index v.

(** ** Jumps *)

Definition compile_JUMP : C unit := destIdx ← pop; modify (set_term (TJump destIdx)).

Definition compile_JUMPI : C unit :=
  destIdx ← pop; c ← pop;
  modify (set_term (TJumpI (CreateICmp INE c (Constant_get 0)) destIdx)).

Definition compile_JUMPDEST (firstInstrIdx : nat) : C unit := modify (add_case (Z.of_nat firstInstrIdx)).

Definition compile_PC (pc : nat) : C unit := push (Constant_get (Z.of_nat pc)).

Definition compile_GAS : C unit :=
  _ ← GasMeter.commitCostBlock;
  gas ← RuntimeManager.getGas;
  push (CreateZExt gas Word).

(** ** Environment *)

Definition compile_ADDRESS : C unit := pushWord256 (toNative RuntimeManager.getAddress).
Definition compile_CALLER : C unit := pushWord256 (toNative RuntimeManager.getCaller).
Definition compile_ORIGIN : C unit := v ← RuntimeManager.getTxContextItem 1; pushWord256 (toNative v).
Definition compile_COINBASE : C unit := v ← RuntimeManager.getTxContextItem 2; pushWord256 (toNative v).
Definition compile_GASPRICE : C unit := v ← RuntimeManager.getTxContextItem 0; push (toNative v).
Definition compile_DIFFICULTY : C unit := v ← RuntimeManager.getTxContextItem 6; push (toNative v).
Definition compile_GASLIMIT : C unit := v ← RuntimeManager.getTxContextItem 5; push (CreateZExt v Word).
Definition compile_NUMBER : C unit := v ← RuntimeManager.getTxContextItem 3; push (CreateZExt v Word).
Definition compile_TIMESTAMP : C unit := v ← RuntimeManager.getTxContextItem 4; push (CreateZExt v Word).
Definition compile_CALLVALUE : C unit := push (toNative RuntimeManager.getValue).
Definition compile_CODESIZE (codeSize : nat) : C unit := push (RuntimeManager.getCodeSize codeSize).
Definition compile_CALLDATASIZE : C unit := push RuntimeManager.getCallDataSize.

Definition compile_RETURNDATASIZE : C unit :=
  size ← emit_reg i64 IReturnBufSize;
  push (CreateZExt size Word).

Definition compile_BLOCKHASH : C unit :=
  number ← pop;
  let limitC := getInt64 INT64_MAX in
  let limit := CreateZExt limitC Word in
  let isBigNumber := CreateICmp IUGT number limit in
  hash ← Ext.blockHash number;
  let zero := Constant_get256 0 in
  pushWord256 (CreateSelect isBigNumber zero hash).

Definition compile_BALANCE : C unit := addr ← popWord256; v ← Ext.balance addr; push v.
Definition compile_EXTCODESIZE : C unit := addr ← popWord256; v ← Ext.extcodesize addr; push v.

(** ** Copies *)

Definition compile_CALLDATACOPY : C unit :=
  destMemIdx ← pop; srcIdx ← pop; reqBytes ← pop;
  Memory.copyBytes SrcCallData RuntimeManager.getCallDataSize srcIdx destMemIdx reqBytes.

Definition compile_RETURNDATACOPY : C unit :=
  destMemIdx ← pop; srcIdx ← pop; reqBytes ← pop;
  srcSize ← emit_reg i64 IReturnBufSize;
  Memory.copyBytesNoPadding SrcReturnBuf srcSize srcIdx destMemIdx reqBytes.

Definition compile_CODECOPY (codeSize : nat) : C unit :=
  destMemIdx ← pop; srcIdx ← pop; reqBytes ← pop;
  Memory.copyBytes SrcCode (RuntimeManager.getCodeSize codeSize) srcIdx destMemIdx reqBytes.

Definition compile_EXTCODECOPY : C unit :=
  addr ← popWord256;
  destMemIdx ← pop; srcIdx ← pop; reqBytes ← pop;
  '(src, size) ← Ext.extcode addr;
  Memory.copyBytes src size srcIdx destMemIdx reqBytes.

Definition compile_CALLDATALOAD : C unit := idx ← pop; v ← Ext.calldataload idx; push v.

(** ** Calls *)

(** What a call returned: the success flag and the gas left. *)
Definition call_result (r : value) : value * value :=
  let ret := CreateICmp ISGE r (getInt64 0) in
  let rmagic := CreateSelect ret (getInt64 0) (getInt64 EVM_CALL_FAILURE) in
  (ret, CreateSub r rmagic).

Definition compile_CREATE : C unit :=
  endowment ← pop; initOff ← pop; initSize ← pop;
  _ ← Memory.require initOff initSize;
  _ ← GasMeter.commitCostBlock;
  gas ← RuntimeManager.getGas;
  let gasKept := if rev_ge m_rev EVM_TANGERINE_WHISTLE then CreateLShr gas 6 else getInt64 0 in
  let createGas := CreateBin (Sub i64 true true) gas gasKept in
  '(r, pAddr) ← Ext.create createGas endowment initOff initSize;
  let '(ret, gasLeft) := call_result r in
  let gas := CreateAdd gasLeft gasKept in
  _ ← RuntimeManager.setGas gas;
  let addr := toNative pAddr in
  let addr := CreateZExt addr Word256 in
  let addr := CreateSelect ret addr (Constant_get256 0) in
  pushWord256 addr.

(** The kind of the message a call instruction sends. *)
Definition call_kind (inst : Instruction) : Z :=
  match inst with
  | CALLCODE => K_CALLCODE | DELEGATECALL => K_DELEGATECALL | STATICCALL => EVM_STATICCALL | _ => K_CALL
  end.

(** The part of a call before [Ext::call]: the cost of the memory, of a value
    transfer and of a new account, and the gas for the callee. *)
Definition compile_call_costs (inst : Instruction) (callGas address value inOff inSize outOff outSize : value)
  : C IR.value :=
  _ ← Memory.require outOff outSize;
  _ ← Memory.require inOff inSize;
  let noTransfer := CreateICmp IEQ value (Constant_get 0) in
  let transferGas :=
    if bool_decide (inst = CALL) && m_staticCall then INT64_MAX
    else if rev_ge m_rev EVM_AION then 15000 else schedule.(valueTransferGas) in
  let transferCost := CreateSelect noTransfer (getInt64 0) (getInt64 transferGas) in
  _ ← GasMeter.count transferCost;
  _ ← (if bool_decide (inst = CALL) then
         accountExists ← Ext.exists_ address;
         let noPenaltyCond :=
           if rev_ge m_rev EVM_SPURIOUS_DRAGON then CreateOr accountExists noTransfer else accountExists in
         let penalty := CreateSelect noPenaltyCond (getInt64 0) (getInt64 schedule.(callNewAccount)) in
         GasMeter.count penalty
       else mret tt);
  callGas ← (if rev_ge m_rev EVM_TANGERINE_WHISTLE then
               gas ← RuntimeManager.getGas;
               let gas64th := CreateLShr gas 6 in
               let gasMaxAllowed := CreateZExt (CreateBin (Sub i64 true true) gas gas64th) Word in
               let cmp := CreateICmp IUGT callGas gasMaxAllowed in
               mret (CreateSelect cmp gasMaxAllowed callGas)
             else mret callGas);
  _ ← GasMeter.count callGas;
  let stipend := CreateSelect noTransfer (getInt64 0) (getInt64 schedule.(callStipend)) in
  let gas := CreateTrunc callGas i64 in
  mret (CreateBin (Add i64 true true) gas stipend).

Definition compile_CALL (inst : Instruction) : C unit :=
  callGas ← pop;
  address ← popWord256;
  value ← (if bool_decide (inst = CALL) || bool_decide (inst = CALLCODE) then pop else mret (Constant_get 0));
  inOff ← pop; inSize ← pop; outOff ← pop; outSize ← pop;
  _ ← GasMeter.commitCostBlock;
  gas ← compile_call_costs inst callGas address value inOff inSize outOff outSize;
  r ← Ext.call (call_kind inst) gas address value inOff inSize outOff outSize;
  let '(ret, finalGas) := call_result r in
  _ ← GasMeter.giveBack finalGas;
  push (CreateZExt ret Word).

(** ** Ending the execution *)

Definition compile_RETURN (isRevert : bool) : C unit :=
  index ← pop; size ← pop;
  _ ← Memory.require index size;
  _ ← RuntimeManager.registerReturnData index size;
  RuntimeManager.exit (if isRevert then Revert else Return).

Definition compile_STOP : C unit := RuntimeManager.exit Stop.

Definition compile_SELFDESTRUCT : C unit :=
  dest ← popWord256;
  _ ← (if rev_ge m_rev EVM_TANGERINE_WHISTLE then
         destExists ← Ext.exists_ dest;
         noPenaltyCond ←
           (if rev_ge m_rev EVM_SPURIOUS_DRAGON then
              let addr := toNative RuntimeManager.getAddress in
              balance ← Ext.balance addr;
              let noTransfer := CreateICmp IEQ balance (Constant_get 0) in
              mret (CreateOr destExists noTransfer)
            else mret destExists);
         let penalty := CreateSelect noPenaltyCond (getInt64 0) (getInt64 schedule.(callNewAccount)) in
         GasMeter.count penalty
       else mret tt);
  _ ← Ext.selfdestruct dest;
  compile_STOP. (* FALLTHROUGH *)

(** ** Logs *)

(** [n] pops. *)
Fixpoint pops (n : nat) : C (list value) :=
  match n with O => mret [] | S n => v ← pop; vs ← pops n; mret (v :: vs) end.

Definition compile_LOG (numTopics : nat) : C unit :=
  beginIdx ← pop; numBytes ← pop;
  _ ← Memory.require beginIdx numBytes;
  _ ← GasMeter.countLogData m_rev numBytes;
  topics ← pops (2 * numTopics);
  Ext.log beginIdx numBytes topics.

(** ** The dispatch *)

(** The guards that [goto invalidInstruction], and the default case. *)
Definition invalidInstruction (inst : Instruction) : bool :=
  match inst with
  | DUP n | SWAP n => (16 <? n)%nat && negb (rev_ge m_rev EVM_AION_V1)
  | SSTORE | CREATE | SELFDESTRUCT | LOG _ => m_staticCall
  | RETURNDATASIZE | RETURNDATACOPY | REVERT | STATICCALL => negb (rev_ge m_rev EVM_BYZANTIUM)
  | DELEGATECALL => negb (rev_ge m_rev EVM_HOMESTEAD)
  | INVALID _ => true
  | _ => false
  end.

(** The switch on an instruction at [pc] of a block that starts at
    [firstInstrIdx]; a push has its constant and bit width in [data]. *)
Definition compileInst (codeSize firstInstrIdx pc : nat) (data : Z * Z) (inst : Instruction) : C unit :=
  match inst with
  | ADD => compile_ADD | SUB => compile_SUB | MUL => compile_MUL
  | DIV => compile_DIV | SDIV => compile_SDIV | MOD => compile_MOD | SMOD => compile_SMOD
  | ADDMOD => compile_ADDMOD | MULMOD => compile_MULMOD | EXP => compile_EXP
  | NOT => compile_NOT
  | LT => compile_cmp IULT | GT => compile_cmp IUGT
  | SLT => compile_cmp ISLT | SGT => compile_cmp ISGT | EQ => compile_cmp IEQ
  | ISZERO => compile_ISZERO
  | AND => compile_AND | OR => compile_OR | XOR => compile_XOR
  | BYTE => compile_BYTE | SIGNEXTEND => compile_SIGNEXTEND
  | SHA3 => compile_SHA3
  | POP => compile_POP
  | PUSH _ => compile_PUSH data.1 data.2
  | DUP n => LocalStack.dup (n - 1)
  | SWAP n => LocalStack.swap n
  | MLOAD => compile_MLOAD | MSTORE => compile_MSTORE | MSTORE8 => compile_MSTORE8
  | MSIZE => compile_MSIZE
  | SLOAD => compile_SLOAD | SSTORE => compile_SSTORE
  | JUMP => compile_JUMP | JUMPI => compile_JUMPI
  | JUMPDEST => compile_JUMPDEST firstInstrIdx
  | PC => compile_PC pc
  | GAS => compile_GAS
  | ADDRESS => compile_ADDRESS | CALLER => compile_CALLER
  | ORIGIN => compile_ORIGIN | COINBASE => compile_COINBASE
  | GASPRICE => compile_GASPRICE | DIFFICULTY => compile_DIFFICULTY
  | GASLIMIT => compile_GASLIMIT | NUMBER => compile_NUMBER | TIMESTAMP => compile_TIMESTAMP
  | CALLVALUE => compile_CALLVALUE
  | CODESIZE => compile_CODESIZE codeSize | CALLDATASIZE => compile_CALLDATASIZE
  | RETURNDATASIZE => compile_RETURNDATASIZE
  | BLOCKHASH => compile_BLOCKHASH
  | BALANCE => compile_BALANCE | EXTCODESIZE => compile_EXTCODESIZE
  | CALLDATACOPY => compile_CALLDATACOPY | RETURNDATACOPY => compile_RETURNDATACOPY
  | CODECOPY => compile_CODECOPY codeSize | EXTCODECOPY => compile_EXTCODECOPY
  | CALLDATALOAD => compile_CALLDATALOAD
  | CREATE => compile_CREATE
  | CALL | CALLCODE | DELEGATECALL | STATICCALL => compile_CALL inst
  | RETURN => compile_RETURN false | REVERT => compile_RETURN true
  | SELFDESTRUCT => compile_SELFDESTRUCT
  | STOP => compile_STOP
  | LOG n => compile_LOG n
  | INVALID _ => mret tt
  end.

(** The loop over the instructions of a block, from [it] on; [false] when
    [fuel] runs out. *)
Fixpoint compileLoop (fuel : nat) (code : list Z) (block : BasicBlock) (it : nat) : C bool :=
  match fuel with
  | O => mret false
  | S fuel =>
    if (it =? m_end block)%nat then mret true
    else
      let inst := inst_at code it in
      _ ← GasMeter.count_inst m_rev inst;
      if invalidInstruction inst then
        _ ← RuntimeManager.exit OutOfGas;
        mret true (* finish block compilation *)
      else
        let '(v, bits, it') :=
          match inst with PUSH _ => readPushData code it (m_end block) | _ => (0, 0, it) end in
        _ ← compileInst (length code) (m_firstInstrIdx block) (it - m_begin block + m_firstInstrIdx block)
              (v, bits) inst;
        compileLoop fuel code block (S it')
  end.

Definition compileBasicBlock (code : list Z) (block : BasicBlock) : C bool :=
  _ ← LocalStack.init;
  ok ← compileLoop (S (m_end block - m_begin block)) code block (m_begin block);
  _ ← GasMeter.commitCostBlock;
  _ ← LocalStack.finalize;
  mret ok.
End Compiler.
