(* ===== verification/Machine.v ===== *)
(** * The reference machine

    What contract code means: an interpreter of the instructions over a stack
    of 128-bit words, a byte memory, an energy counter and the host.  256-bit
    quantities take two stack items, the high word on top.  Every instruction
    charges its static cost first and computes on mathematical integers and
    byte lists.  [Abort] is the exceptional halt, which consumes all energy.
    [Undef] marks the inputs whose behaviour the machine leaves open. *)
From S2P Require Import Prelude Bytes Instruction LLVMInt EvmAbi GasSchedule Keccak Runtime IR.

(** ** State *)

Record rstate (H : Type) := mkR {
  r_stack : list Z;    (* the top first *)
  r_gas : Z;
  r_mem : list Z;
  r_retbuf : list Z;   (* the data returned by the last call *)
  r_host : H
}.
Arguments mkR {H}.
Arguments r_stack {H}.
Arguments r_gas {H}.
Arguments r_mem {H}.
Arguments r_retbuf {H}.
Arguments r_host {H}.

(** What an execution depends on.  The last two are bytes the interface leaves
    unspecified: the code hash of a call's message and the address of a create's. *)
Record Ctx (H : Type) := mkCtx {
  x_host : evm_context_fn_table H;
  x_msg : evm_message;
  x_current : H -> evm_message;   (* the message that calls are sent on behalf of *)
  x_code : list Z;
  x_rev : evm_revision;
  x_static : bool;
  x_hash : list Z;
  x_addr : list Z
}.
Arguments mkCtx {H}.
Arguments x_host {H}.
Arguments x_msg {H}.
Arguments x_current {H}.
Arguments x_code {H}.
Arguments x_rev {H}.
Arguments x_static {H}.
Arguments x_hash {H}.
Arguments x_addr {H}.

(** How an instruction leaves. *)
Inductive ctl := Next | JumpTo (dest : Z) | Halt (code : ReturnCode) (out : list Z).

(** ** Byte strings *)

(** [n] bytes of [data] from [i] on, zeros past the end. *)
Definition padded (data : list Z) (i n : Z) : list Z :=
  if Z.of_nat (length data) <=? i then replicate (Z.to_nat n) 0
  else take (Z.to_nat n) (drop (Z.to_nat i) data ++ replicate (Z.to_nat n) 0).

Definition words32 (n : Z) : Z := (n + 31) / 32.

(** The number of significant bytes. *)
Definition sigBytes (z : Z) : Z := if z =? 0 then 0 else Z.log2 z / 8 + 1.

(** ** Word operations *)

Definition b2z (b : bool) : Z := if b then 1 else 0.

Definition op_sdiv (x y : Z) : Z := if y =? 0 then 0 else wrap 128 (Z.quot (sgn 128 x) (sgn 128 y)).
Definition op_smod (x y : Z) : Z := if y =? 0 then 0 else wrap 128 (Z.rem (sgn 128 x) (sgn 128 y)).

(** The least signed number divided by -1, whose quotient is not a signed word. *)
Definition sdiv_overflow (x y : Z) : bool := (sgn 128 x =? - 2 ^ 127) && (sgn 128 y =? -1).

(** Byte [i] of a word, the most significant one first. *)
Definition op_byte (i x : Z) : Z := if i <? 16 then default 0 (be_bytes 16 x !! Z.to_nat i) else 0.

(** Extend the sign of a number of [k + 1] bytes. *)
Definition op_signextend (k x : Z) : Z :=
  if k <=? 14 then wrap 128 (sgn (8 * k + 8) (wrap (8 * k + 8) x)) else x.

(** ** The monad *)

Section Machine.
Context {H : Type} (X : Ctx H).

Definition M (A : Type) : Type := rstate H -> run (A * rstate H).

#[global] Instance M_ret : MRet M := fun A a r => Ok (a, r).
#[global] Instance M_bind : MBind M := fun A B f m r =>
  match m r with Ok (a, r) => f a r | Abort => Abort | Undef => Undef end.

Definition abort {A} : M A := fun _ => Abort.
Definition unspecified {A} : M A := fun _ => Undef.
Definition gets {A} (f : rstate H -> A) : M A := fun r => Ok (f r, r).
Definition set_rstack (st : list Z) : M unit := fun r =>
  Ok (tt, mkR st (r_gas r) (r_mem r) (r_retbuf r) (r_host r)).
Definition set_rgas (g : Z) : M unit := fun r =>
  Ok (tt, mkR (r_stack r) g (r_mem r) (r_retbuf r) (r_host r)).
Definition set_rmem (m : list Z) : M unit := fun r =>
  Ok (tt, mkR (r_stack r) (r_gas r) m (r_retbuf r) (r_host r)).
Definition set_rretbuf (b : list Z) : M unit := fun r =>
  Ok (tt, mkR (r_stack r) (r_gas r) (r_mem r) b (r_host r)).
Definition set_rhost (h : H) : M unit := fun r =>
  Ok (tt, mkR (r_stack r) (r_gas r) (r_mem r) (r_retbuf r) h).

Definition rpop : M Z :=
  st ← gets r_stack;
  match st with [] => abort | z :: st => _ ← set_rstack st; mret z end.

Definition rpush (z : Z) : M unit :=
  st ← gets r_stack;
  if (length st <? 1024)%nat then set_rstack (z :: st) else abort.

Definition rdup (n : nat) : M unit :=
  st ← gets r_stack;
  match st !! n with Some z => rpush z | None => abort end.

Definition rswap (n : nat) : M unit :=
  st ← gets r_stack;
  match st !! n, st !! 0%nat with
  | Some z, Some t => set_rstack (<[0%nat := z]> (<[n := t]> st))
  | _, _ => abort
  end.

Definition rpush256 (z : Z) : M unit := _ ← rpush (wrap 128 z); rpush (Z.shiftr z 128).
Definition rpop256 : M Z := hi ← rpop; lo ← rpop; mret (hi * 2 ^ 128 + lo).

(** Pay [c]; costs are never negative. *)
Definition charge (c : Z) : M unit :=
  g ← gets r_gas;
  if (0 <=? c) && (c <=? g) then set_rgas (g - c) else abort.

(** Make room in memory for [n] bytes at [off], paying for the growth.
    Requests above the limit the implementation can count are refused, and
    unspecified once the memory itself is as large as that limit. *)
Definition expand (off n : Z) : M unit :=
  if n =? 0 then mret tt
  else
    m ← gets r_mem;
    let cur := Z.of_nat (length m) in
    let req := roundup32 (Z.min off c_inputMax + Z.min n c_inputMax) in
    let inRange := (off <=? c_inputMax) && (n <=? c_inputMax) in
    if req <=? cur then (if inRange then mret tt else unspecified)
    else if inRange then
      _ ← charge (memGas (x_rev X) req - memGas (x_rev X) cur);
      set_rmem (m ++ replicate (Z.to_nat (req - cur)) 0)
    else abort.

Definition mem_read (off n : Z) : M (list Z) :=
  m ← gets r_mem; mret (if n =? 0 then [] else take (Z.to_nat n) (drop (Z.to_nat off) m)).

Definition mem_write (off : Z) (bs : list Z) : M unit :=
  m ← gets r_mem; set_rmem (if (length bs =? 0)%nat then m else splice m (Z.to_nat off) bs).

Abbreviation T := (x_host X).
Abbreviation me := (address (x_msg X)).

(** ** Instructions *)

Definition binary (f : Z -> Z -> Z) : M ctl := x ← rpop; y ← rpop; _ ← rpush (f x y); mret Next.

(** Signed divisions, left open where the quotient overflows. *)
Definition signed_division (f : Z -> Z -> Z) : M ctl :=
  x ← rpop; y ← rpop;
  if sdiv_overflow x y then unspecified else _ ← rpush (f x y); mret Next.

(** Copy [n] bytes of [src] from [i] on to memory at [d]. *)
Definition copy_padded (src : list Z) (d i n : Z) : M unit :=
  _ ← expand d n;
  _ ← charge (3 * words32 n);
  mem_write d (padded src i n).

Definition rcopy (src : list Z) : M ctl :=
  d ← rpop; i ← rpop; n ← rpop;
  _ ← copy_padded src d i n;
  mret Next.

(** Copy from the return buffer; past its end is left open. *)
Definition copy_returned (d i n : Z) : M unit :=
  _ ← expand d n;
  b ← gets r_retbuf;
  if i + n <=? Z.of_nat (length b) then
    _ ← charge (3 * words32 n);
    mem_write d (take (Z.to_nat n) (drop (Z.to_nat i) b))
  else unspecified.

Definition exp_byte_cost : Z :=
  if rev_ge (x_rev X) EVM_AION then 1 else if rev_ge (x_rev X) EVM_SPURIOUS_DRAGON then 50 else 10.

Definition push_tx (f : evm_tx_context -> Z) : M ctl :=
  h ← gets r_host; _ ← rpush (f (get_tx_context T h)); mret Next.
Definition push_tx256 (f : evm_tx_context -> list Z) : M ctl :=
  h ← gets r_host; _ ← rpush256 (be_val (f (get_tx_context T h))); mret Next.

(** The message of a call, sent on behalf of the current message. *)
Definition child_message (h : H) (inst : Instruction) (gas : Z) (addr : list Z) (val : Z) (input : list Z) : evm_message :=
  let delegate := bool_decide (inst = DELEGATECALL) in
  let current := x_current X h in
  mkMessage addr
    (if delegate then caller current else address current)
    (if delegate then EvmAbi.value current else be_bytes 16 val)
    input (x_hash X) gas (depth current + 1)
    (match inst with
     | CALLCODE => EVM_CALLCODE | DELEGATECALL => EVM_DELEGATECALL | CREATE => EVM_CREATE | _ => EVM_CALL
     end)
    (if bool_decide (inst = STATICCALL) then Z.lor (flags current) EVM_STATIC else flags current).

(** Run a call: [None] when the depth or the balance does not allow it. *)
Definition send (inst : Instruction) (m : evm_message) (val : Z) : M (option evm_result) :=
  h ← gets r_host;
  if (1024 <=? depth (x_msg X))
     || (negb (bool_decide (inst = DELEGATECALL)) && negb (val =? 0) && (be_val (get_balance T h me) <? val))
  then _ ← set_rretbuf []; mret None
  else
    let '(res, h) := host_call T h m in
    _ ← set_rhost h;
    _ ← set_rretbuf (output res);
    mret (Some res).

Definition succeeded (res : option evm_result) : bool :=
  match res with Some res => bool_decide (status_code res = EVM_SUCCESS) | None => false end.

(** What comes back of the gas given to a call. *)
Definition gas_back (res : option evm_result) (given : Z) : Z :=
  match res with Some res => gas_left res | None => given end.

Definition do_create (given endowment off n : Z) : M (option evm_result) :=
  init ← mem_read off n;
  h ← gets r_host;
  send CREATE (child_message h CREATE given (x_addr X) endowment init) endowment.

Definition step_create : M ctl :=
  endowment ← rpop; off ← rpop; n ← rpop;
  _ ← expand off n;
  g ← gets r_gas;
  let kept := if rev_ge (x_rev X) EVM_TANGERINE_WHISTLE then g / 64 else 0 in
  res ← do_create (g - kept) endowment off n;
  _ ← set_rgas (kept + gas_back res (g - kept));
  _ ← rpush256 (match res with
                | Some r => if succeeded res then be_val (take 32 (output r)) else 0
                | None => 0
                end);
  mret Next.

Definition transfer_cost : Z := if rev_ge (x_rev X) EVM_AION then 15000 else 9000.

Definition do_call (inst : Instruction) (given : Z) (addr : list Z) (val inOff inSize outOff outSize : Z)
  : M (option evm_result) :=
  input ← mem_read inOff inSize;
  h ← gets r_host;
  res ← send inst (child_message h inst given addr val input) val;
  _ ← match res with Some r => mem_write outOff (take (Z.to_nat outSize) (output r)) | None => mret tt end;
  mret res.

(** What a call pays before it runs, and the gas it gives to the callee. *)
Definition call_costs (inst : Instruction) (gas addr val inOff inSize outOff outSize : Z) : M Z :=
  _ ← expand outOff outSize;
  _ ← expand inOff inSize;
  _ ← (if val =? 0 then mret tt
       else if bool_decide (inst = CALL) && x_static X then abort
       else charge transfer_cost);
  h ← gets r_host;
  let isNew := (account_exists T h (be_bytes 32 addr) =? 0)
    && negb (rev_ge (x_rev X) EVM_SPURIOUS_DRAGON && (val =? 0)) in
  _ ← (if bool_decide (inst = CALL) && isNew then charge 25000 else mret tt);
  g ← gets r_gas;
  let callGas := if rev_ge (x_rev X) EVM_TANGERINE_WHISTLE then Z.min gas (g - g / 64) else gas in
  _ ← charge callGas;
  mret (callGas + (if val =? 0 then 0 else 2300)).

Definition step_call (inst : Instruction) : M ctl :=
  gas ← rpop;
  addr ← rpop256;
  val ← (if bool_decide (inst = CALL) || bool_decide (inst = CALLCODE) then rpop else mret 0);
  inOff ← rpop; inSize ← rpop; outOff ← rpop; outSize ← rpop;
  given ← call_costs inst gas addr val inOff inSize outOff outSize;
  res ← do_call inst given (be_bytes 32 addr) val inOff inSize outOff outSize;
  g ← gets r_gas;
  _ ← set_rgas (g + gas_back res given);
  _ ← rpush (b2z (succeeded res));
  mret Next.

Definition step_selfdestruct : M ctl :=
  dest ← rpop256;
  h ← gets r_host;
  let dest := be_bytes 32 dest in
  let isNew := rev_ge (x_rev X) EVM_TANGERINE_WHISTLE && (account_exists T h dest =? 0)
    && negb (rev_ge (x_rev X) EVM_SPURIOUS_DRAGON && (be_val (get_balance T h me) =? 0)) in
  _ ← (if isNew then charge 25000 else mret tt);
  _ ← set_rhost (selfdestruct T h me dest);
  mret (Halt Stop []).

Fixpoint rpops (n : nat) : M (list Z) :=
  match n with O => mret [] | S n => z ← rpop; zs ← rpops n; mret (z :: zs) end.

Definition log_data (off size : Z) (topics : list Z) : M unit :=
  data ← mem_read off size;
  h ← gets r_host;
  set_rhost (host_log T h me data (map (be_bytes 16) topics)).

Definition step_log (n : nat) : M ctl :=
  off ← rpop; size ← rpop;
  _ ← expand off size;
  _ ← charge (size * (if rev_ge (x_rev X) EVM_AION then 20 else 8));
  topics ← rpops (2 * n);
  _ ← log_data off size topics;
  mret Next.

(** The instructions the revision and the call mode allow. *)
Definition allowed (inst : Instruction) : bool :=
  match inst with
  | DUP n | SWAP n => (n <=? 16)%nat || rev_ge (x_rev X) EVM_AION_V1
  | SSTORE | CREATE | SELFDESTRUCT | LOG _ => negb (x_static X)
  | RETURNDATASIZE | RETURNDATACOPY | REVERT | STATICCALL => rev_ge (x_rev X) EVM_BYZANTIUM
  | DELEGATECALL => rev_ge (x_rev X) EVM_HOMESTEAD
  | INVALID _ => false
  | _ => true
  end.

(** An instruction at [pc], its static cost paid; a push has its operand in [data]. *)
Definition step_body (pc : nat) (data : Z) (inst : Instruction) : M ctl :=
  match inst with
  | STOP => mret (Halt Stop [])
  | ADD => binary (fun x y => wrap 128 (x + y))
  | MUL => binary (fun x y => wrap 128 (x * y))
  | SUB => binary (fun x y => wrap 128 (x - y))
  | DIV => binary (fun x y => if y =? 0 then 0 else x / y)
  | SDIV => signed_division op_sdiv
  | MOD => binary (fun x y => if y =? 0 then 0 else x mod y)
  | SMOD => signed_division op_smod
  | ADDMOD =>
      x ← rpop; y ← rpop; m ← rpop;
      if m =? 0 then unspecified else _ ← rpush ((x + y) mod m); mret Next
  | MULMOD =>
      x ← rpop; y ← rpop; m ← rpop;
      if m =? 0 then unspecified else _ ← rpush ((x * y) mod m); mret Next
  | EXP =>
      b ← rpop; e ← rpop;
      _ ← charge (sigBytes e * exp_byte_cost);
      _ ← rpush (wrap 128 (b ^ e)); mret Next
  | SIGNEXTEND => binary op_signextend
  | LT => binary (fun x y => b2z (x <? y))
  | GT => binary (fun x y => b2z (y <? x))
  | SLT => binary (fun x y => b2z (sgn 128 x <? sgn 128 y))
  | SGT => binary (fun x y => b2z (sgn 128 y <? sgn 128 x))
  | EQ => binary (fun x y => b2z (x =? y))
  | ISZERO => x ← rpop; _ ← rpush (b2z (x =? 0)); mret Next
  | AND => binary Z.land
  | OR => binary Z.lor
  | XOR => binary Z.lxor
  | NOT => x ← rpop; _ ← rpush (2 ^ 128 - 1 - x); mret Next
  | BYTE => binary op_byte
  | SHA3 =>
      off ← rpop; n ← rpop;
      _ ← expand off n;
      _ ← charge (6 * words32 n);
      bs ← mem_read off n;
      _ ← rpush256 (be_val (keccak bs)); mret Next
  | ADDRESS => _ ← rpush256 (be_val me); mret Next
  | CALLER => _ ← rpush256 (be_val (caller (x_msg X))); mret Next
  | ORIGIN => push_tx256 tx_origin
  | COINBASE => push_tx256 block_coinbase
  | GASPRICE => push_tx (fun c => be_val (tx_gas_price c))
  | DIFFICULTY => push_tx (fun c => be_val (block_difficulty c))
  | GASLIMIT => push_tx block_gas_limit
  | NUMBER => push_tx block_number
  | TIMESTAMP => push_tx block_timestamp
  | CALLVALUE => _ ← rpush (be_val (EvmAbi.value (x_msg X))); mret Next
  | CALLDATALOAD => i ← rpop; _ ← rpush (be_val (padded (input (x_msg X)) i 16)); mret Next
  | CALLDATASIZE => _ ← rpush (Z.of_nat (length (input (x_msg X)))); mret Next
  | CODESIZE => _ ← rpush (Z.of_nat (length (x_code X))); mret Next
  | RETURNDATASIZE => b ← gets r_retbuf; _ ← rpush (Z.of_nat (length b)); mret Next
  | CALLDATACOPY => rcopy (input (x_msg X))
  | CODECOPY => rcopy (x_code X)
  | EXTCODECOPY =>
      a ← rpop256; h ← gets r_host; rcopy (get_code T h (be_bytes 32 a))
  | RETURNDATACOPY =>
      d ← rpop; i ← rpop; n ← rpop; _ ← copy_returned d i n; mret Next
  | BALANCE =>
      a ← rpop256; h ← gets r_host;
      _ ← rpush (be_val (get_balance T h (be_bytes 32 a))); mret Next
  | EXTCODESIZE =>
      a ← rpop256; h ← gets r_host;
      _ ← rpush (Z.of_nat (length (get_code T h (be_bytes 32 a)))); mret Next
  | BLOCKHASH =>
      n ← rpop; h ← gets r_host;
      _ ← rpush256 (if INT64_MAX <? n then 0 else be_val (get_block_hash T h n)); mret Next
  | POP => _ ← rpop; mret Next
  | MLOAD =>
      off ← rpop; _ ← expand off 16; bs ← mem_read off 16; _ ← rpush (be_val bs); mret Next
  | MSTORE => off ← rpop; z ← rpop; _ ← expand off 16; _ ← mem_write off (be_bytes 16 z); mret Next
  | MSTORE8 => off ← rpop; z ← rpop; _ ← expand off 1; _ ← mem_write off [wrap 8 z]; mret Next
  | SLOAD =>
      k ← rpop; h ← gets r_host; _ ← rpush (be_val (get_storage T h me (be_bytes 16 k))); mret Next
  | SSTORE =>
      k ← rpop; z ← rpop; h ← gets r_host;
      let old := be_val (get_storage T h me (be_bytes 16 k)) in
      _ ← charge (if (old =? 0) && negb (z =? 0) then 20000
                  else if rev_ge (x_rev X) EVM_AION then 8000 else 5000);
      _ ← set_rhost (set_storage T h me (be_bytes 16 k) (be_bytes 16 z)); mret Next
  | JUMP => d ← rpop; mret (JumpTo d)
  | JUMPI => d ← rpop; c ← rpop; mret (if c =? 0 then Next else JumpTo d)
  | JUMPDEST => mret Next
  | PC => _ ← rpush (Z.of_nat pc); mret Next
  | MSIZE => m ← gets r_mem; _ ← rpush (Z.of_nat (length m)); mret Next
  | GAS => g ← gets r_gas; _ ← rpush g; mret Next
  | PUSH n =>
      if (n <=? 16)%nat then _ ← rpush data; mret Next else _ ← rpush256 data; mret Next
  | DUP n => _ ← rdup (n - 1); mret Next
  | SWAP n => _ ← rswap n; mret Next
  | LOG n => step_log n
  | CREATE => step_create
  | CALL | CALLCODE | DELEGATECALL | STATICCALL => step_call inst
  | RETURN => off ← rpop; n ← rpop; _ ← expand off n; out ← mem_read off n; mret (Halt Return out)
  | REVERT => off ← rpop; n ← rpop; _ ← expand off n; out ← mem_read off n; mret (Halt Revert out)
  | SELFDESTRUCT => step_selfdestruct
  | INVALID _ => abort
  end.

(** An instruction: its cost, then what it does; aborts where it is not allowed. *)
Definition step (pc : nat) (data : Z) (inst : Instruction) : M ctl :=
  _ ← charge (getStepCost (x_rev X) inst);
  if allowed inst then step_body pc data inst else abort.
End Machine.
