(* ===== verification/Denote.v ===== *)
(** * What the values of the generator denote

    A world is the set of registers defined so far with their contents, the
    size the memory has reached, and the external code fetched.  A
    value denotes an integer in a world when it evaluates to it whatever the
    registers defined later hold; [isval] adds its type and range.  There is
    one lemma for each function of the IR builder the generator uses. *)
From S2P Require Import Prelude Bytes LLVMInt EvmAbi Runtime IR Builder Codegen Machine.

Create Rewrite HintDb types.

Record world := mkW { w_next : nat; w_regs : regfile; w_mem : Z; w_code : nat -> list Z }.

Definition wle (w w' : world) : Prop :=
  (w_next w <= w_next w')%nat /\ (forall k, (k < w_next w)%nat -> w_regs w' k = w_regs w k) /\ w_mem w <= w_mem w'
  /\ (forall k, (k < w_next w)%nat -> w_code w' k = w_code w k).

#[global] Instance wle_preorder : PreOrder wle.
Proof.
  split; [intros w; unfold wle; split_and!; auto; lia |]. intros w1 w2 w3 (H1 & H1' & ? & H1b) (H2 & H2' & ? & H2b).
  split_and!; [lia | | lia |]; intros k Hk; [rewrite H2' by lia | rewrite H2b by lia]; auto.
Qed.

(** The memory holds [n] bytes at [off]. *)
Definition covers (w : world) (off n : Z) : Prop :=
  n = 0 \/ (n <= c_inputMax /\ off + n <= w_mem w).

Lemma covers_mono w w' off n : wle w w' -> covers w off n -> covers w' off n.
Proof. unfold covers. intros (_ & _ & ? & _) [? | ?]; [by left | right; lia]. Qed.

Section Denote.
Context `{LLVMFolder} (D : RuntimeData).

Definition den (w : world) (v : value) (z : Z) : Prop :=
  forall ρ, (forall k, (k < w_next w)%nat -> ρ k = w_regs w k) -> evalv D ρ v = Some z.

Definition isval (wd : Z) (w : world) (v : value) (z : Z) : Prop :=
  typeof v = wd /\ den w v z /\ inw wd z.

Lemma den_mono w w' v z : wle w w' -> den w v z -> den w' v z.
Proof. intros (H1 & H2 & _) Hd ρ Hρ. apply Hd. intros k Hk. rewrite <- H2 by done. apply Hρ. lia. Qed.

Lemma isval_mono wd w w' v z : wle w w' -> isval wd w v z -> isval wd w' v z.
Proof. intros Hw (? & ? & ?). split_and!; auto. eapply den_mono; eauto. Qed.

Lemma isval_eq wd w v z z' : isval wd w v z -> z = z' -> isval wd w v z'.
Proof. by intros ? <-. Qed.

Lemma isval_type wd w v z : isval wd w v z -> typeof v = wd.
Proof. by intros (? & ? & ?). Qed.

Lemma isval_range wd w v z : isval wd w v z -> inw wd z.
Proof. by intros (? & ? & ?). Qed.

(** The value in the state of the world itself. *)
Lemma isval_eval wd w v z : isval wd w v z -> evalv D (w_regs w) v = Some z.
Proof. intros (? & Hd & ?). by apply Hd. Qed.

Lemma isval_fold wd w v z : isval wd w v z -> isval wd w (fold v) z.
Proof.
  intros (Ht & Hd & Hr). split_and!; [by rewrite fold_type | | done].
  intros ρ Hρ. by apply fold_sound, Hd.
Qed.

Lemma isval_const wd w z : inw wd z -> isval wd w (VConst wd z) z.
Proof. intros. by split_and!. Qed.

Lemma isval_reg wd n w z :
  w_next w = S n -> w_regs w n = Some z -> inw wd z -> isval wd w (VReg wd n) z.
Proof. intros Hn Hz Hr. split_and!; [done | | done]. intros ρ' Hρ. simpl. by rewrite Hρ by lia. Qed.

Lemma isval_data i w : inw (index_width i) (data_elt D i) -> isval (index_width i) w (VData i) (data_elt D i).
Proof. intros. by split_and!. Qed.

Lemma isval_bin op wa wb w a b x y z :
  isval wa w a x -> isval wb w b y -> eval_bin op x y = Some z -> inw (bin_width op) z ->
  isval (bin_width op) w (CreateBin op a b) z.
Proof.
  intros (_ & Ha & _) (_ & Hb & _) He Hr. apply isval_fold. split_and!; [done | | done].
  intros ρ Hρ. simpl. by rewrite (Ha ρ Hρ), (Hb ρ Hρ).
Qed.

Lemma isval_un op wa w a x z :
  isval wa w a x -> eval_un op x = Some z -> inw (un_width op) z -> isval (un_width op) w (VUn op a) z.
Proof.
  intros (_ & Ha & _) He Hr. split_and!; [done | | done]. intros ρ Hρ. simpl. by rewrite (Ha ρ Hρ).
Qed.

Lemma isval_select wd w c a b (p : bool) z :
  isval 1 w c (b2z p) -> typeof a = wd -> typeof b = wd ->
  (p = true -> isval wd w a z) -> (p = false -> isval wd w b z) ->
  isval wd w (CreateSelect c a b) z.
Proof.
  intros (_ & Hc & _) Hta Htb Ha Hb. apply isval_fold.
  destruct p; [destruct (Ha eq_refl) as (_ & Hd & Hr) | destruct (Hb eq_refl) as (_ & Hd & Hr)];
    (split_and!; [done | | done]); intros ρ Hρ; simpl; rewrite (Hc ρ Hρ); simpl; auto.
Qed.

Lemma isval_zext wa wd w a x : 0 <= wa <= wd -> isval wa w a x -> isval wd w (CreateZExt a wd) x.
Proof.
  intros Hw Ha. unfold CreateZExt. rewrite (isval_type _ _ _ _ Ha).
  destruct (Z.eqb_spec wa wd) as [<- |]; [done |]. apply isval_fold.
  eapply (isval_un (ZExt wd)); [done | done |]. simpl. eapply inw_mono; [| by eapply isval_range]. lia.
Qed.

Lemma isval_trunc wa wd w a x : 0 <= wd -> isval wa w a x -> isval wd w (CreateTrunc a wd) (wrap wd x).
Proof.
  intros Hw Ha. unfold CreateTrunc. rewrite (isval_type _ _ _ _ Ha).
  destruct (Z.eqb_spec wa wd) as [<- |].
  - rewrite wrap_small; [done |]. by eapply isval_range.
  - apply isval_fold. eapply (isval_un (Trunc wd)); [done | done |]. by apply wrap_inw.
Qed.

(** A truncation that loses nothing. *)
Lemma isval_trunc_small wa wd w a x : inw wd x -> 0 <= wd -> isval wa w a x -> isval wd w (CreateTrunc a wd) x.
Proof. intros. eapply isval_eq; [by eapply isval_trunc |]. by apply wrap_small. Qed.

Lemma isval_icmp p wd wb w a b x y :
  isval wd w a x -> isval wb w b y -> isval 1 w (CreateICmp p a b) (b2z (icmp p wd x y)).
Proof.
  intros Ha Hb. unfold CreateICmp. rewrite (isval_type _ _ _ _ Ha).
  eapply (isval_bin (ICmp p wd)); [done.. | by destruct (icmp p wd x y)].
Qed.

Lemma isval_add wd wb w a b x y : 0 <= wd ->
  isval wd w a x -> isval wb w b y -> isval wd w (CreateAdd a b) (wrap wd (x + y)).
Proof.
  intros Hw Ha Hb. unfold CreateAdd. rewrite (isval_type _ _ _ _ Ha).
  eapply (isval_bin (Add wd false false)); [done.. | by apply wrap_inw].
Qed.

Lemma isval_sub wd wb w a b x y : 0 <= wd ->
  isval wd w a x -> isval wb w b y -> isval wd w (CreateSub a b) (wrap wd (x - y)).
Proof.
  intros Hw Ha Hb. unfold CreateSub. rewrite (isval_type _ _ _ _ Ha).
  eapply (isval_bin (Sub wd false false)); [done.. | by apply wrap_inw].
Qed.

Lemma isval_mul wd wb w a b x y : 0 <= wd ->
  isval wd w a x -> isval wb w b y -> isval wd w (CreateMul a b) (wrap wd (x * y)).
Proof.
  intros Hw Ha Hb. unfold CreateMul. rewrite (isval_type _ _ _ _ Ha).
  eapply (isval_bin (Mul wd false false)); [done.. | by apply wrap_inw].
Qed.

Lemma isval_nuwadd wd wb w a b x y :
  inw wd (x + y) -> isval wd w a x -> isval wb w b y -> isval wd w (CreateNUWAdd a b) (x + y).
Proof.
  intros Hr Ha Hb. unfold CreateNUWAdd. rewrite (isval_type _ _ _ _ Ha).
  eapply (isval_bin (Add wd true false)); [done.. | by apply (arith_nuw Z.add) | done].
Qed.

Lemma isval_nuwsub wd wb w a b x y :
  inw wd (x - y) -> isval wd w a x -> isval wb w b y -> isval wd w (CreateNUWSub a b) (x - y).
Proof.
  intros Hr Ha Hb. unfold CreateNUWSub. rewrite (isval_type _ _ _ _ Ha).
  eapply (isval_bin (Sub wd true false)); [done.. | by apply (arith_nuw Z.sub) | done].
Qed.

Lemma isval_nuwmul wd wb w a b x y :
  inw wd (x * y) -> isval wd w a x -> isval wb w b y -> isval wd w (CreateNUWMul a b) (x * y).
Proof.
  intros Hr Ha Hb. unfold CreateNUWMul. rewrite (isval_type _ _ _ _ Ha).
  eapply (isval_bin (Mul wd true false)); [done.. | by apply (arith_nuw Z.mul) | done].
Qed.

Lemma isval_and wd w a b x y : 0 <= wd ->
  isval wd w a x -> isval wd w b y -> isval wd w (CreateAnd a b) (Z.land x y).
Proof.
  intros Hw Ha Hb. unfold CreateAnd. rewrite (isval_type _ _ _ _ Ha).
  eapply (isval_bin (And wd)); [done.. |]. apply land_inw; [done | by eapply isval_range..].
Qed.

Lemma isval_or wd w a b x y : 0 <= wd ->
  isval wd w a x -> isval wd w b y -> isval wd w (CreateOr a b) (Z.lor x y).
Proof.
  intros Hw Ha Hb. unfold CreateOr. rewrite (isval_type _ _ _ _ Ha).
  eapply (isval_bin (Or wd)); [done.. |]. apply lor_inw; [done | by eapply isval_range..].
Qed.

Lemma isval_xor wd w a b x y : 0 <= wd ->
  isval wd w a x -> isval wd w b y -> isval wd w (CreateXor a b) (Z.lxor x y).
Proof.
  intros Hw Ha Hb. unfold CreateXor. rewrite (isval_type _ _ _ _ Ha).
  eapply (isval_bin (Xor wd)); [done.. |]. apply lxor_inw; [done | by eapply isval_range..].
Qed.

Lemma isval_lshr wd w a x n : 0 <= n < wd -> wd <= 2 ^ wd ->
  isval wd w a x -> isval wd w (CreateLShr a n) (Z.shiftr x n).
Proof.
  intros Hn Hp Ha. unfold CreateLShr. rewrite (isval_type _ _ _ _ Ha).
  pose proof (isval_range _ _ _ _ Ha) as [H1 H2].
  eapply (isval_bin (LShr wd)); [done | apply isval_const; unfold inw; lia | |].
  - simpl. by rewrite (proj2 (Z.ltb_lt n wd)) by lia.
  - simpl. rewrite Z.shiftr_div_pow2 by lia. pose proof (pow2_pos n).
    split; [apply Z.div_pos; lia |]. apply Z.div_lt_upper_bound; nia.
Qed.

Lemma isval_shl wd w a x n : 0 <= n < wd -> wd <= 2 ^ wd ->
  isval wd w a x -> isval wd w (CreateShl a n) (wrap wd (Z.shiftl x n)).
Proof.
  intros Hn Hp Ha. unfold CreateShl. rewrite (isval_type _ _ _ _ Ha).
  eapply (isval_bin (Shl wd)); [done | apply isval_const; unfold inw; lia | | apply wrap_inw; lia].
  simpl. by rewrite (proj2 (Z.ltb_lt n wd)) by lia.
Qed.

Lemma isval_bswap n wd w a x : wd = 8 * Z.of_nat n ->
  isval wd w a x -> isval wd w (bswapIfLE a) (Endianness.bswapIfLE n x).
Proof.
  intros -> Ha. unfold bswapIfLE, Endianness.bswapIfLE. simpl.
  assert (Z.to_nat (8 * Z.of_nat n / 8) = n) as Hn by (rewrite Z.mul_comm, Z.div_mul by lia; lia).
  pose proof (bswap_inw n x) as Hr.
  assert (isval (8 * Z.of_nat n) w (VUn (BSwap (Z.to_nat (typeof a / 8))) a) (bswap n x)) as Hb.
  { rewrite (isval_type _ _ _ _ Ha), Hn. by eapply (isval_un (BSwap n)). }
  destruct a; try exact Hb. destruct Ha as (Ht & Hd & _). simpl in Ht. subst w0. rewrite Hn.
  specialize (Hd (w_regs w) ltac:(done)). simpl in Hd. injection Hd as ->. by apply isval_const.
Qed.

Lemma isval_Constant_get w n : isval 128 w (Constant_get n) (wrap 128 n).
Proof. apply isval_const. by apply wrap_inw. Qed.

Lemma isval_getInt64 w n : isval 64 w (getInt64 n) (wrap 64 n).
Proof. apply isval_const. by apply wrap_inw. Qed.

(** Constants in range denote themselves. *)
Lemma isval_word w n : inw 128 n -> isval 128 w (Constant_get n) n.
Proof. intros. eapply isval_eq; [apply isval_Constant_get | by apply wrap_small]. Qed.

Lemma isval_int64 w n : inw 64 n -> isval 64 w (getInt64 n) n.
Proof. intros. eapply isval_eq; [apply isval_getInt64 | by apply wrap_small]. Qed.

(** ** Types *)

Lemma typeof_CreateBin op a b : typeof (CreateBin op a b) = bin_width op.
Proof. unfold CreateBin. by rewrite fold_type. Qed.
Lemma typeof_CreateSelect c a b : typeof (CreateSelect c a b) = typeof a.
Proof. unfold CreateSelect. by rewrite fold_type. Qed.
Lemma typeof_CreateTrunc a w : typeof (CreateTrunc a w) = w.
Proof. unfold CreateTrunc. destruct (Z.eqb_spec (typeof a) w); [done |]. apply fold_type. Qed.
Lemma typeof_CreateZExt a w : typeof (CreateZExt a w) = w.
Proof. unfold CreateZExt. destruct (Z.eqb_spec (typeof a) w); [done |]. apply fold_type. Qed.
Lemma typeof_CreateAdd a b : typeof (CreateAdd a b) = typeof a.
Proof. unfold CreateAdd, CreateBin. by rewrite fold_type. Qed.
Lemma typeof_CreateSub a b : typeof (CreateSub a b) = typeof a.
Proof. unfold CreateSub, CreateBin. by rewrite fold_type. Qed.
Lemma typeof_CreateNUWSub a b : typeof (CreateNUWSub a b) = typeof a.
Proof. unfold CreateNUWSub, CreateBin. by rewrite fold_type. Qed.
Lemma typeof_CreateNUWAdd a b : typeof (CreateNUWAdd a b) = typeof a.
Proof. unfold CreateNUWAdd, CreateBin. by rewrite fold_type. Qed.
Lemma typeof_CreateAnd a b : typeof (CreateAnd a b) = typeof a.
Proof. unfold CreateAnd, CreateBin. by rewrite fold_type. Qed.
Lemma typeof_CreateOr a b : typeof (CreateOr a b) = typeof a.
Proof. unfold CreateOr, CreateBin. by rewrite fold_type. Qed.
Lemma typeof_CreateICmp p a b : typeof (CreateICmp p a b) = 1.
Proof. unfold CreateICmp, CreateBin. by rewrite fold_type. Qed.
Lemma typeof_Constant_get n : typeof (Constant_get n) = 128.
Proof. done. Qed.
Lemma typeof_getInt64 n : typeof (getInt64 n) = 64.
Proof. done. Qed.
End Denote.

#[export] Hint Rewrite @typeof_CreateBin @typeof_CreateSelect @typeof_CreateTrunc @typeof_CreateZExt
  @typeof_CreateAdd @typeof_CreateSub @typeof_CreateNUWSub @typeof_CreateNUWAdd @typeof_CreateAnd
  @typeof_CreateOr @typeof_CreateICmp typeof_Constant_get typeof_getInt64 : types.

(** The type of a value built by the generator, from those of its parts. *)
Ltac typ :=
  autorewrite with types;
  repeat match goal with Hv : isval _ _ _ ?v _ |- context [typeof ?v] => rewrite (isval_type _ _ _ _ _ Hv) end;
  done.
