(* ===== verification/Frames.v ===== *)
(** * What the generator leaves alone

    Judgements on computations of the generator that do not look at the values
    they handle.  [keeps R P]: the state before and after are related by [R] and
    all events satisfy [P].  Its instances: [mono], the extreme heights of the
    local stack only move apart; [costless], the open cost block is left alone
    and no earlier instruction is touched; [noterm], the terminator and the
    jump table are left alone.  [grows k]: the local stack stays well formed and
    its extreme heights move by at most [k]. *)
From S2P Require Import Prelude Bytes Instruction BasicBlocks LLVMInt Arith128 EvmAbi GasSchedule Runtime IR.
From S2P Require Import Builder Codegen Compiler.

Create HintDb keeps.

(** ** Relations kept *)

Definition keeps (R : cstate -> cstate -> Prop) (P : event -> Prop) {A} (c : C A) : Prop :=
  forall cs, R cs (c cs).1.2 /\ Forall P (c cs).2.

Section Keeps.
Context (R : cstate -> cstate -> Prop) `{!PreOrder R} (P : event -> Prop).

Lemma keeps_ret {A} (a : A) : keeps R P (mret a).
Proof. intros cs. split; [reflexivity | constructor]. Qed.

Lemma keeps_bind {A B} (c : C A) (f : A -> C B) :
  keeps R P c -> (forall a, keeps R P (f a)) -> keeps R P (c ≫= f).
Proof.
  intros Hc Hf cs. destruct (Hc cs) as [H1 H2]. unfold mbind, C_bind.
  destruct (c cs) as [[a cs1] l1]. destruct (Hf a cs1) as [H3 H4].
  destruct (f a cs1) as [[b cs2] l2]. simpl in *. split; [by trans cs1 | by apply Forall_app].
Qed.

Lemma keeps_emit i : P (EEmit i) -> keeps R P (emit i).
Proof. intros HP cs. split; [reflexivity | by repeat constructor]. Qed.

Lemma keeps_get_state : keeps R P get_state.
Proof. intros cs. split; [reflexivity | constructor]. Qed.

Lemma keeps_modify f : (forall cs, R cs (f cs)) -> keeps R P (modify f).
Proof. intros Hf cs. split; [apply Hf | constructor]. Qed.

Lemma keeps_event e : P e -> keeps R P (event_ e).
Proof. intros HP cs. split; [reflexivity | by repeat constructor]. Qed.
End Keeps.

Definition mono_rel (cs cs' : cstate) : Prop :=
  m_minSize cs' <= m_minSize cs /\ m_maxSize cs <= m_maxSize cs'.
Definition cost_rel (cs cs' : cstate) : Prop :=
  m_checkCall cs' = m_checkCall cs /\ m_blockCost cs' = m_blockCost cs.
Definition term_rel (cs cs' : cstate) : Prop := c_term cs' = c_term cs /\ c_cases cs' = c_cases cs.

#[global] Instance mono_rel_preorder : PreOrder mono_rel.
Proof. unfold mono_rel. split; [intros ?; lia | intros ???; lia]. Qed.
#[global] Instance cost_rel_preorder : PreOrder cost_rel.
Proof. unfold cost_rel. split; [done | intros ??? [] []; split; congruence]. Qed.
#[global] Instance term_rel_preorder : PreOrder term_rel.
Proof. unfold term_rel. split; [done | intros ??? [] []; split; congruence]. Qed.

(** The events that touch no earlier instruction. *)
Definition emits (e : event) : Prop := match e with EEmit _ => True | _ => False end.
(** Those that do not touch the gas checks. *)
Definition no_cost (e : event) : Prop :=
  match e with EEmit _ | ESetPrepare _ _ _ => True | _ => False end.
Definition any (e : event) : Prop := True.

Abbreviation mono := (keeps mono_rel any).
Abbreviation costless := (keeps cost_rel emits).
Abbreviation noterm := (keeps term_rel any).

(** The instruction is the stack check of a block. *)
Definition is_prepare (i : instr) : bool := match i with IPrepare _ => true | _ => false end.

(** What such a relation has to allow: emitting instructions and taking
    registers; and the updates of the local stack. *)
Class EmitFrame (R : cstate -> cstate -> Prop) (P : event -> Prop) := {
  frame_pre :: PreOrder R;
  frame_emit i : is_prepare i = false -> P (EEmit i);
  frame_next cs : R cs (set_next (S (c_next cs)) cs)
}.
Class Frame (R : cstate -> cstate -> Prop) (P : event -> Prop) := {
  frame_emits :: EmitFrame R P;
  frame_local l cs : R cs (set_local l cs);
  frame_input l cs : R cs (set_input l cs);
  frame_pops n cs : R cs (set_pops n cs);
  frame_min n cs : R cs (set_min (Z.min (m_minSize cs) n) cs);
  frame_max n cs : R cs (set_max (Z.max (m_maxSize cs) n) cs)
}.

#[global] Instance mono_frame : Frame mono_rel any.
Proof. split; [split |..]; try apply _; try done; intros; unfold mono_rel; simpl; lia. Qed.
#[global] Instance cost_frame : Frame cost_rel emits.
Proof. split; [split |..]; try apply _; done. Qed.
#[global] Instance term_frame : Frame term_rel any.
Proof. split; [split |..]; try apply _; done. Qed.

Lemma keeps_fresh R P `{!PreOrder R} : (forall cs, R cs (set_next (S (c_next cs)) cs)) -> keeps R P fresh.
Proof. intros Hn cs. split; [apply Hn | constructor]. Qed.

#[export] Hint Resolve keeps_ret keeps_get_state : keeps.
#[export] Hint Extern 1 (keeps _ _ (emit _)) => apply keeps_emit; [apply _ | apply frame_emit; reflexivity] : keeps.
#[export] Hint Extern 1 (keeps _ _ fresh) => apply keeps_fresh; [apply _ | apply frame_next] : keeps.
#[export] Hint Extern 1 (keeps _ _ (modify _)) =>
  apply keeps_modify; intros; repeat case_match; first
    [reflexivity | apply frame_local | apply frame_input | apply frame_pops | apply frame_min
    | apply frame_max | solve [split; simpl; lia || reflexivity]] : keeps.

(** Decompose a computation into primitives. *)
Ltac keeps_step :=
  cbv beta zeta;
  match goal with
  | |- keeps _ _ (mbind _ _) => apply keeps_bind; [apply _ | | intros]
  | |- keeps _ _ (match ?x with _ => _ end) => destruct x
  | |- keeps _ _ _ => solve [eauto with keeps typeclass_instances]
  end.
Ltac keeps_tac := repeat keeps_step.

Section EmitComponents.
Context `{LLVMFolder} (R : cstate -> cstate -> Prop) (P : event -> Prop) `{!EmitFrame R P}.

Lemma keeps_emit_reg w i : (forall n, is_prepare (i n) = false) -> keeps R P (emit_reg w i).
Proof.
  intros Hi. unfold emit_reg. apply keeps_bind; [apply _ | apply keeps_fresh; [apply _ | apply frame_next] | intros n].
  apply keeps_bind; [apply _ | | intros _; apply keeps_ret, _]. apply keeps_emit; [apply _ | by apply frame_emit].
Qed.
#[local] Hint Extern 1 (keeps _ _ (emit_reg _ _)) => apply keeps_emit_reg; solve [intros; reflexivity | apply _] : keeps.
Lemma keeps_div op a b : keeps R P (CreateDiv op a b).
Proof. unfold CreateDiv. keeps_tac. Qed.
Lemma keeps_count v : keeps R P (GasMeter.count v).
Proof. unfold GasMeter.count. keeps_tac. Qed.
Lemma keeps_require o n : keeps R P (Memory.require o n).
Proof. unfold Memory.require. keeps_tac. Qed.
Lemma keeps_exp a b : keeps R P (arith_exp a b).
Proof. unfold arith_exp. keeps_tac. Qed.
End EmitComponents.
#[export] Hint Extern 1 (keeps _ _ (emit_reg _ _)) => apply keeps_emit_reg; solve [intros; reflexivity | apply _] : keeps.
#[export] Hint Resolve keeps_div keeps_count keeps_require keeps_exp : keeps.

(** Closing a cost block. *)
Lemma keeps_commit R P `{!PreOrder R} :
  (forall id, P (EErase id)) -> (forall id c, P (ESetCost id c)) -> (forall o c cs, R cs (set_cost o c cs)) ->
  keeps R P GasMeter.commitCostBlock.
Proof.
  intros He Hs Hr. unfold GasMeter.commitCostBlock. apply keeps_bind; [apply _ | apply keeps_get_state; apply _ | intros cs].
  destruct (m_checkCall cs) as [id |]; [| apply keeps_ret; apply _].
  destruct (m_blockCost cs =? 0); (apply keeps_bind; [apply _ | apply keeps_event; [apply _ | done] | intros _]);
    by apply keeps_modify.
Qed.

Lemma mono_commit : mono GasMeter.commitCostBlock.
Proof. apply (keeps_commit mono_rel any); try apply _; done. Qed.
Lemma noterm_commit : noterm GasMeter.commitCostBlock.
Proof. apply (keeps_commit term_rel any); try apply _; done. Qed.
#[export] Hint Resolve mono_commit noterm_commit : keeps.

Section StackComponents.
Context `{LLVMFolder} (R : cstate -> cstate -> Prop) (P : event -> Prop) `{!Frame R P}.

Lemma keeps_push v : keeps R P (LocalStack.push v).
Proof. unfold LocalStack.push. keeps_tac. Qed.
Lemma keeps_get_input i : keeps R P (LocalStack.get_input i).
Proof. unfold LocalStack.get_input. keeps_tac. Qed.
Hint Resolve keeps_push keeps_get_input : keeps.
Lemma keeps_get i : keeps R P (LocalStack.get i).
Proof. unfold LocalStack.get. keeps_tac. Qed.
Lemma keeps_set i v : keeps R P (LocalStack.set i v).
Proof. unfold LocalStack.set. keeps_tac. Qed.
Hint Resolve keeps_get keeps_set : keeps.
Lemma keeps_pop : keeps R P LocalStack.pop.
Proof. unfold LocalStack.pop. keeps_tac. Qed.
Lemma keeps_dup i : keeps R P (LocalStack.dup i).
Proof. unfold LocalStack.dup. keeps_tac. Qed.
Lemma keeps_swap i : keeps R P (LocalStack.swap i).
Proof. unfold LocalStack.swap. keeps_tac. Qed.
Hint Resolve keeps_pop : keeps.
Lemma keeps_pops n : keeps R P (pops n).
Proof. induction n; simpl; keeps_tac. Qed.
End StackComponents.
#[export] Hint Resolve keeps_push keeps_get keeps_set keeps_pop keeps_dup keeps_swap keeps_pops : keeps.

(** Unfold the operations that are compositions of the above. *)
Ltac codegen_unfold :=
  unfold compile_STOP, compile_call_costs, countSStore, pushWord256, popWord256, GasMeter.countExp, GasMeter.countLogData, GasMeter.countSha3Data,
    GasMeter.giveBack, GasMeter.countCopy, Memory.loadWord, Memory.storeWord,
    Memory.storeByte, Memory.getSize, Memory.copyBytes, Memory.copyBytesNoPadding, Ext.sload, Ext.sstore,
    Ext.selfdestruct, Ext.calldataload, Ext.balance, Ext.exists_, Ext.blockHash, Ext.sha3, Ext.extcode,
    Ext.extcodesize, Ext.log, Ext.call, Ext.create, RuntimeManager.getGas,
    RuntimeManager.setGas, RuntimeManager.resetReturnBuf, RuntimeManager.getTxContextItem,
    RuntimeManager.registerReturnData, RuntimeManager.exit, call_result.

Ltac compile_unfold :=
  unfold compile_ADD, compile_SUB, compile_MUL, compile_DIV, compile_SDIV, compile_MOD, compile_SMOD,
    compile_ADDMOD, compile_MULMOD, compile_EXP, compile_NOT, compile_cmp, compile_ISZERO, compile_AND,
    compile_OR, compile_XOR, compile_BYTE, compile_SIGNEXTEND, compile_SHA3, compile_POP, compile_PUSH,
    compile_MLOAD, compile_MSTORE, compile_MSTORE8, compile_MSIZE, compile_SLOAD, compile_SSTORE,
    compile_JUMP, compile_JUMPI, compile_JUMPDEST, compile_PC, compile_GAS, compile_ADDRESS,
    compile_CALLER, compile_ORIGIN, compile_COINBASE, compile_GASPRICE, compile_DIFFICULTY,
    compile_GASLIMIT, compile_NUMBER, compile_TIMESTAMP, compile_CALLVALUE, compile_CODESIZE,
    compile_CALLDATASIZE, compile_RETURNDATASIZE, compile_BLOCKHASH, compile_BALANCE,
    compile_EXTCODESIZE, compile_CALLDATACOPY, compile_RETURNDATACOPY, compile_CODECOPY,
    compile_EXTCODECOPY, compile_CALLDATALOAD, compile_CREATE, compile_CALL, compile_RETURN,
    compile_SELFDESTRUCT, compile_LOG.

(** The instructions that end the current cost block. *)
Definition commits (inst : Instruction) : bool :=
  match inst with GAS | CREATE | CALL | CALLCODE | DELEGATECALL | STATICCALL => true | _ => false end.

(** The instructions that set the terminator of the block or add a case to the jump table. *)
Definition jumps (inst : Instruction) : bool :=
  match inst with
  | JUMP | JUMPI | JUMPDEST | RETURN | REVERT | STOP | SELFDESTRUCT => true
  | _ => false
  end.

Section Insts.
Context `{LLVMFolder} (rev : evm_revision) (static : bool).

(** All other instructions only emit code and work on the local stack. *)
Lemma keeps_compileInst R P `{!Frame R P} size first pc data inst :
  commits inst = false -> jumps inst = false ->
  keeps R P (compileInst rev static size first pc data inst).
Proof.
  intros Hc Hj. destruct inst; try discriminate Hc; try discriminate Hj;
    cbn [compileInst]; compile_unfold; codegen_unfold; keeps_tac.
Qed.

#[local] Hint Extern 1 (keeps _ _ (modify (set_term _))) => apply keeps_modify; by intros : keeps.
#[local] Hint Extern 1 (keeps _ _ (modify (add_case _))) => apply keeps_modify; by intros : keeps.

Lemma costless_compileInst size first pc data inst :
  commits inst = false -> costless (compileInst rev static size first pc data inst).
Proof.
  intros Hc. destruct (jumps inst) eqn:Hj; [| by apply keeps_compileInst; [apply _ |..]].
  destruct inst; try discriminate Hj; cbn [compileInst]; compile_unfold; codegen_unfold; keeps_tac.
Qed.

Lemma noterm_compileInst size first pc data inst :
  jumps inst = false -> noterm (compileInst rev static size first pc data inst).
Proof.
  intros Hj. destruct (commits inst) eqn:Hc; [| by apply keeps_compileInst; [apply _ |..]].
  destruct inst; try discriminate Hc; cbn [compileInst]; compile_unfold; codegen_unfold; keeps_tac.
Qed.

Lemma mono_compileInst size first pc data inst : mono (compileInst rev static size first pc data inst).
Proof.
  destruct (commits inst) eqn:Hc; [| destruct (jumps inst) eqn:Hj; [| by apply keeps_compileInst; [apply _ |..]]];
    destruct inst; try discriminate Hc; try discriminate Hj; cbn [compileInst]; compile_unfold; codegen_unfold; keeps_tac.
Qed.
End Insts.
