(* ===== verification/Heights.v ===== *)
(** * The local stack while a block is compiled

    Well-formedness of the generator's [LocalStack], which every operation
    keeps, and how far the extreme heights of a block can move. *)
From S2P Require Import Prelude Bytes Instruction BasicBlocks LLVMInt Arith128 EvmAbi GasSchedule Runtime IR.
From S2P Require Import Builder Codegen Compiler Frames.

(** The recorded extremes enclose the current height, and every item of the
    global stack that was popped or fetched is above the recorded minimum. *)
Record cwf (cs : cstate) : Prop := {
  cwf_min : m_minSize cs <= LocalStack.size cs;
  cwf_max : LocalStack.size cs <= m_maxSize cs;
  cwf_max0 : 0 <= m_maxSize cs;
  cwf_pops : m_minSize cs <= - Z.of_nat (m_globalPops cs);
  cwf_len : (m_globalPops cs <= length (m_input cs))%nat;
  cwf_input k v : m_input cs !! k = Some (Some v) -> m_minSize cs <= - Z.of_nat k - 1
}.

(** ** Reading an item *)

(** The input after [resize] to hold [idx]. *)
Definition grown (idx : nat) (l : list (option value)) : list (option value) :=
  if (length l <=? idx)%nat then resize (S idx) None l else l.

Lemma length_grown idx l : length (grown idx l) = Nat.max (S idx) (length l).
Proof. unfold grown. destruct (Nat.leb_spec (length l) idx); rewrite ?length_resize; lia. Qed.

Lemma grown_lookup idx l k v : grown idx l !! k = Some (Some v) <-> l !! k = Some (Some v).
Proof.
  unfold grown. destruct (Nat.leb_spec (length l) idx) as [Hl |]; [| done].
  destruct (decide (k < length l)%nat).
  - rewrite lookup_resize by lia. done.
  - rewrite (lookup_ge_None_2 l k) by lia. split; [| done]. intros Hk.
    destruct (decide (k < S idx)%nat).
    + rewrite lookup_resize_new in Hk by lia. done.
    + rewrite lookup_resize_old in Hk by lia. done.
Qed.

Lemma get_local index v cs :
  reverse (m_local cs) !! index = Some v -> LocalStack.get index cs = (v, cs, []).
Proof. intros Hv. unfold LocalStack.get. unfold mbind, C_bind, get_state. by rewrite Hv. Qed.

(** The state after fetching item [idx] of the global stack into a register. *)
Definition fetched (idx : nat) (cs : cstate) : cstate :=
  set_min (Z.min (m_minSize cs) (- Z.of_nat idx - 1))
    (set_input (<[idx := Some (VReg 128 (c_next cs))]> (grown idx (m_input cs)))
      (set_next (S (c_next cs)) cs)).

Lemma get_input_cases index cs :
  reverse (m_local cs) !! index = None ->
  let idx := (index - length (m_local cs) + m_globalPops cs)%nat in
  LocalStack.get index cs =
    match m_input cs !! idx with
    | Some (Some v) => (v, cs, [])
    | _ => (VReg 128 (c_next cs), fetched idx cs, [EEmit (IStackLoad (c_next cs) (- Z.of_nat idx - 1))])
    end.
Proof.
  intros Hv idx. unfold LocalStack.get. unfold mbind at 1, C_bind at 1, get_state at 1. rewrite Hv. fold idx.
  unfold LocalStack.get_input, mbind, C_bind, modify, get_state.
  assert ((if (length (m_input cs) <=? idx)%nat
           then set_input (resize (S idx) None (m_input cs)) cs else cs) = set_input (grown idx (m_input cs)) cs)
    as -> by (unfold grown; destruct (length (m_input cs) <=? idx)%nat; by destruct cs).
  cbn [m_input set_input].
  destruct (m_input cs !! idx) as [[v |] |] eqn:Hi.
  - rewrite (proj2 (grown_lookup idx (m_input cs) idx v) Hi). unfold grown.
    apply lookup_lt_Some in Hi. destruct (Nat.leb_spec (length (m_input cs)) idx); [lia |]. by destruct cs.
  - destruct (grown idx (m_input cs) !! idx) as [[v |] |] eqn:Hg; [apply grown_lookup in Hg; congruence | done..].
  - destruct (grown idx (m_input cs) !! idx) as [[v |] |] eqn:Hg; [apply grown_lookup in Hg; congruence | done..].
Qed.

(** ** Heights *)

Definition grows (k : Z) {A} (c : C A) : Prop := forall cs, cwf cs ->
  let cs' := (c cs).1.2 in
  cwf cs' /\ m_minSize cs - k <= m_minSize cs' /\ m_maxSize cs' <= m_maxSize cs + k.

Lemma grows_ret {A} (a : A) : grows 0 (mret a).
Proof. intros cs Hcs. simpl. split; [done | lia]. Qed.

Lemma grows_bind {A B} k1 k2 (c : C A) (f : A -> C B) :
  grows k1 c -> (forall a, grows k2 (f a)) -> grows (k1 + k2) (c ≫= f).
Proof.
  intros Hc Hf cs Hcs. specialize (Hc cs Hcs). unfold mbind, C_bind.
  destruct (c cs) as [[a cs1] l1]. specialize (Hf a cs1). destruct (f a cs1) as [[b cs2] l2]. simpl in *.
  destruct Hc as (Hw & H1 & H2). destruct (Hf Hw) as (Hw2 & H3 & H4). split; [done | lia].
Qed.

Lemma grows_weaken {A} k k' (c : C A) : grows k c -> k <= k' -> grows k' c.
Proof. intros Hc Hk cs Hcs. destruct (Hc cs Hcs) as (? & ? & ?). split; [done | lia]. Qed.

(** Computations that do not touch the local stack. *)
Definition stack_rel (cs cs' : cstate) : Prop :=
  m_input cs' = m_input cs /\ m_local cs' = m_local cs /\ m_globalPops cs' = m_globalPops cs
  /\ m_minSize cs' = m_minSize cs /\ m_maxSize cs' = m_maxSize cs.

#[global] Instance stack_rel_preorder : PreOrder stack_rel.
Proof.
  unfold stack_rel. split; [done |].
  intros ??? (? & ? & ? & ? & ?) (? & ? & ? & ? & ?). split_and!; congruence.
Qed.

Lemma cwf_stack_rel cs cs' : stack_rel cs cs' -> cwf cs -> cwf cs'.
Proof.
  intros (H1 & H2 & H3 & H4 & H5) []. split; unfold LocalStack.size in *; rewrite ?H1, ?H2, ?H3, ?H4, ?H5; auto.
Qed.

Lemma grows_stackless {A} (c : C A) : keeps stack_rel any c -> grows 0 c.
Proof.
  intros Hc cs Hcs. destruct (Hc cs) as [Hr _]. split; [by eapply cwf_stack_rel |].
  destruct Hr as (_ & _ & _ & -> & ->). lia.
Qed.

Lemma size_fetched idx cs : LocalStack.size (fetched idx cs) = LocalStack.size cs.
Proof. done. Qed.

Lemma cwf_fetched idx cs : cwf cs -> cwf (fetched idx cs).
Proof.
  intros [H1 H2 H3 H4 H5 H6]. split; rewrite ?size_fetched; cbn [fetched m_minSize m_maxSize m_globalPops m_input
    set_min set_input set_next]; try lia.
  - rewrite length_insert, length_grown. lia.
  - intros k v Hk. destruct (decide (k = idx)) as [-> |]; [lia |].
    rewrite list_lookup_insert_ne in Hk by done. apply grown_lookup in Hk. apply H6 in Hk. lia.
Qed.

(** After reading it, an item of the global stack is in the input. *)
Definition in_input (index : nat) (cs : cstate) : Prop :=
  reverse (m_local cs) !! index = None ->
  let idx := (index - length (m_local cs) + m_globalPops cs)%nat in
  (idx < length (m_input cs))%nat /\ m_minSize cs <= - Z.of_nat idx - 1.

Lemma reverse_lookup_None {A} (l : list A) i : reverse l !! i = None <-> (length l <= i)%nat.
Proof. rewrite lookup_ge_None, length_reverse. done. Qed.

Lemma get_grows index cs :
  cwf cs -> let cs' := (LocalStack.get index cs).1.2 in
  cwf cs' /\ m_minSize cs - Z.of_nat index - 1 <= m_minSize cs' <= m_minSize cs /\ m_maxSize cs' = m_maxSize cs
  /\ m_local cs' = m_local cs /\ m_globalPops cs' = m_globalPops cs /\ in_input index cs'
  /\ (length (m_input cs) <= length (m_input cs'))%nat.
Proof.
  intros Hcs. destruct (reverse (m_local cs) !! index) as [v |] eqn:Hv.
  - rewrite (get_local _ _ _ Hv). simpl. split_and!; auto; try lia. unfold in_input. congruence.
  - rewrite get_input_cases by done. set (idx := (_ + _)%nat).
    assert (- Z.of_nat idx - 1 = LocalStack.size cs - Z.of_nat index - 1) as Hidx.
    { apply reverse_lookup_None in Hv. unfold LocalStack.size, idx. lia. }
    pose proof (cwf_min _ Hcs) as Hmin.
    destruct (m_input cs !! idx) as [[v |] |] eqn:Hi; simpl.
    + split_and!; auto; try lia. intros _. fold idx. split; [by eapply lookup_lt_Some | by eapply cwf_input].
    + split_and!; auto using cwf_fetched; try lia; [| rewrite length_insert, length_grown; lia].
      intros _. cbn [m_local m_globalPops fetched set_min set_input set_next m_input m_minSize]. fold idx.
      rewrite length_insert, length_grown. lia.
    + split_and!; auto using cwf_fetched; try lia; [| rewrite length_insert, length_grown; lia].
      intros _. cbn [m_local m_globalPops fetched set_min set_input set_next m_input m_minSize]. fold idx.
      rewrite length_insert, length_grown. lia.
Qed.

Lemma grows_get index : grows (Z.of_nat index + 1) (LocalStack.get index).
Proof. intros cs Hcs. destruct (get_grows index cs Hcs) as (? & ? & ? & _). split; [done | lia]. Qed.

Lemma grows_push v : grows 1 (LocalStack.push v).
Proof.
  intros cs [H1 H2 H3 H4 H5 H6]. simpl. unfold LocalStack.size in *. simpl in *.
  rewrite ?length_app in *. simpl. split; [split; unfold LocalStack.size; simpl; rewrite ?length_app; simpl; auto; lia | lia].
Qed.

Lemma grows_pop : grows 1 LocalStack.pop.
Proof.
  intros cs Hcs. destruct (get_grows 0 cs Hcs) as (Hw & H1 & H2 & H3 & H4 & H5 & H6).
  unfold LocalStack.pop, mbind, C_bind. destruct (LocalStack.get 0 cs) as [[v cs1] l1]. simpl in *.
  assert (LocalStack.size cs1 = LocalStack.size cs) as Hs by (unfold LocalStack.size; congruence).
  pose proof (cwf_min _ Hcs). pose proof (cwf_max _ Hcs). pose proof (cwf_min _ Hw). pose proof (cwf_max _ Hw).
  destruct (Nat.ltb_spec 0 (length (m_local cs1))) as [Hl | Hl]; simpl.
  - unfold LocalStack.size in *. simpl. rewrite length_take.
    destruct Hw. split; [split; unfold LocalStack.size in *; simpl; rewrite ?length_take; auto; try lia | lia].
    intros k v' Hk. apply cwf_input0 in Hk. lia.
  - destruct (m_local cs1) as [| x l] eqn:Hloc; simpl in *; [| lia].
    destruct H5 as [H5 Hm]; [by rewrite Hloc |]. rewrite Hloc in *. simpl in *.
    unfold LocalStack.size in *. simpl in *. rewrite ?Hloc in *. simpl in *.
    destruct Hw. split; [split; unfold LocalStack.size in *; simpl; rewrite ?Hloc; simpl; auto; try lia | lia].
    intros k v' Hk. apply cwf_input0 in Hk. lia.
Qed.

(** Writing an item that has been read. *)
Lemma set_cwf index v cs :
  cwf cs -> in_input index cs -> let cs' := (LocalStack.set index v cs).1.2 in
  cwf cs' /\ m_minSize cs' = m_minSize cs /\ m_maxSize cs' = m_maxSize cs
  /\ length (m_local cs') = length (m_local cs) /\ m_globalPops cs' = m_globalPops cs
  /\ length (m_input cs') = length (m_input cs).
Proof.
  intros Hw Hi. unfold LocalStack.set, mbind, C_bind, get_state.
  destruct (Nat.ltb_spec index (length (m_local cs))) as [Hl | Hl]; simpl; rewrite ?length_insert;
    (split_and!; [| done..]).
  - destruct Hw. split; unfold LocalStack.size in *; simpl; rewrite ?length_insert; auto.
  - destruct Hi as [Hi1 Hi2]; [by apply reverse_lookup_None |].
    destruct Hw. split; unfold LocalStack.size in *; simpl; rewrite ?length_insert; auto.
    intros k v' Hk. destruct (decide (k = index - length (m_local cs) + m_globalPops cs)%nat) as [-> |]; [lia |].
    rewrite list_lookup_insert_ne in Hk by done. eauto.
Qed.

Lemma in_input_keep index cs cs' :
  in_input index cs -> length (m_local cs') = length (m_local cs) -> m_globalPops cs' = m_globalPops cs ->
  (length (m_input cs) <= length (m_input cs'))%nat -> m_minSize cs' <= m_minSize cs -> in_input index cs'.
Proof.
  unfold in_input. intros Hi Hl Hp Hn Hm Hv. rewrite reverse_lookup_None, Hl, <- reverse_lookup_None in Hv.
  destruct (Hi Hv). rewrite Hl, Hp. lia.
Qed.

Lemma grows_swap index : grows (Z.of_nat index + 2) (LocalStack.swap index).
Proof.
  intros cs Hcs. unfold LocalStack.swap, mbind, C_bind.
  destruct (get_grows index cs Hcs) as (Hw1 & A1 & A2 & A3 & A4 & A5 & A6).
  destruct (LocalStack.get index cs) as [[v cs1] l1]. simpl in *.
  destruct (get_grows 0 cs1 Hw1) as (Hw2 & B1 & B2 & B3 & B4 & B5 & B6).
  destruct (LocalStack.get 0 cs1) as [[t cs2] l2]. simpl in *.
  assert (in_input index cs2) as Hi by (eapply in_input_keep; [exact A5 | congruence | congruence | lia | lia]).
  destruct (set_cwf index t cs2 Hw2 Hi) as (Hw3 & C1 & C2 & C3 & C4 & C5).
  destruct (LocalStack.set index t cs2) as [[[] cs3] l3]. simpl in *.
  assert (in_input 0 cs3) as Hi3 by (eapply in_input_keep; [exact B5 | congruence | congruence | lia | lia]).
  destruct (set_cwf 0 v cs3 Hw3 Hi3) as (Hw4 & D1 & D2 & _).
  destruct (LocalStack.set 0 v cs3) as [[[] cs4] l4]. simpl in *. split; [done | lia].
Qed.

Lemma grows_dup index : grows (Z.of_nat index + 1 + 1) (LocalStack.dup index).
Proof. apply grows_bind; [apply grows_get | intros; apply grows_push]. Qed.

#[global] Instance stack_frame : EmitFrame stack_rel any.
Proof. split; [apply _ | done | done]. Qed.

Lemma grows_if {A} k1 k2 (b : bool) (c1 c2 : C A) :
  grows k1 c1 -> grows k2 c2 -> grows (Z.max k1 k2) (if b then c1 else c2).
Proof. intros. destruct b; eapply grows_weaken; eauto; lia. Qed.

Lemma grows_pops n : grows (Z.of_nat n) (pops n).
Proof.
  induction n as [| n IH]; [apply grows_ret |]. eapply grows_weaken.
  - apply grows_bind; [apply grows_pop |]. intros. apply grows_bind; [apply IH |]. intros. apply grows_ret.
  - lia.
Qed.

Section Insts.
Context `{LLVMFolder} (rev : evm_revision) (static : bool).

Lemma grows_commit : grows 0 GasMeter.commitCostBlock.
Proof.
  apply grows_stackless. unfold GasMeter.commitCostBlock.
  apply keeps_bind; [apply _ | apply keeps_get_state; apply _ |]. intros cs.
  destruct (m_checkCall cs); [| apply keeps_ret; apply _].
  destruct (m_blockCost cs =? 0); (apply keeps_bind; [apply _ | by apply keeps_event; [apply _ |] |]);
    intros; by apply keeps_modify.
Qed.

Ltac grows_step :=
  cbv beta zeta;
  match goal with
  | |- grows _ (mbind _ _) => eapply grows_bind; [| intros]
  | |- grows _ (if _ then _ else _) => eapply grows_if
  | |- grows _ (let '(_, _) := ?x in _) => destruct x
  | |- grows _ (mret _) => apply grows_ret
  | |- grows _ LocalStack.pop => apply grows_pop
  | |- grows _ (LocalStack.push _) => apply grows_push
  | |- grows _ (LocalStack.dup _) => apply grows_dup
  | |- grows _ (LocalStack.swap _) => apply grows_swap
  | |- grows _ (pops _) => apply grows_pops
  | |- grows _ GasMeter.commitCostBlock => apply grows_commit
  | |- grows _ (modify _) => apply grows_stackless; by apply keeps_modify
  | |- grows _ _ => apply grows_stackless; solve [eauto with keeps typeclass_instances]
  end.

(** The instructions there are: at most 32 for the depth of a dup or a swap
    and four topics of a log. *)
Definition encodable (inst : Instruction) : bool :=
  match inst with
  | DUP n | SWAP n => (n <=? 32)%nat
  | LOG n => (n <=? 4)%nat
  | _ => true
  end.

Lemma grows_compileInst size first pc data inst :
  encodable inst = true -> grows 64 (compileInst rev static size first pc data inst).
Proof.
  intros He. destruct inst; cbn [compileInst]; compile_unfold; codegen_unfold;
    (eapply grows_weaken; [repeat grows_step |]); cbn [encodable] in He;
    try apply Nat.leb_le in He; lia.
Qed.

Lemma encodable_byte b : encodable (Instruction_of_byte b) = true.
Proof.
  unfold Instruction_of_byte. repeat match goal with
  | |- context [if ?c then _ else _] =>
      let E := fresh in destruct c eqn:E; [apply andb_prop in E as [? ?]; simpl; apply Nat.leb_le; lia || done |]
  end.
  destruct b as [| p | p]; [done | | done]. repeat (destruct p as [p | p |]; try done).
Qed.
End Insts.
