(* ===== verification/Sim.v ===== *)
(** * Simulation of the reference machine by the emitted code

    [sim] relates a computation of the generator with one of the reference
    machine: from related states, running the code the former emits does what
    the latter does.  A stack fault of the machine shows as heights out of
    bounds, which the check at the start of the block catches; any other abort
    as an abort of the emitted code.  [sim_bind] composes simulations, so that
    the code of an instruction is verified operation by operation. *)
From S2P Require Import Prelude Bytes Instruction BasicBlocks LLVMInt Arith128 EvmAbi GasSchedule Keccak.
From S2P Require Import Runtime IR Builder Codegen Compiler Machine Denote Frames Heights.

(** The runtime data [execute] fills in, and the environment of the emitted code. *)
Definition runtime_data {H} (X : Ctx H) (gas gasPrice : Z) : RuntimeData :=
  mkRuntimeData gas gasPrice (input (x_msg X)) (EvmAbi.value (x_msg X)) (x_code X)
    (address (x_msg X)) (caller (x_msg X)) (depth (x_msg X)).

Definition env_of {H} (X : Ctx H) (D : RuntimeData) (uninit : Z) : Env H :=
  mkEnv (x_host X) D (x_current X) (x_rev X) uninit (x_hash X) (x_addr X).

(** What the theorems assume of an execution: a host and a message as
    documented, and code of a size that fits the counters of the generator. *)
Record ctx_ok {H} (X : Ctx H) : Prop := {
  ok_host : host_ok (x_host X);
  ok_msg : message_ok (x_msg X);
  ok_code_bytes : bytes_ok (x_code X);
  ok_code_len : Z.of_nat (length (x_code X)) < 2 ^ 32
}.

Section Sim.
Context {H : Type} `{LLVMFolder} (X : Ctx H) (gas0 gasPrice uninit : Z) (HX : ctx_ok X).

Abbreviation D := (runtime_data X gas0 gasPrice).
Abbreviation E := (env_of X D uninit).
Abbreviation T := (x_host X).
Abbreviation val := (isval D).

Definition W (cs : cstate) (s : rt H) : world := 
  mkW (c_next cs) (s_regs s) (a_size (s_mem s)) (s_extcode s).

(** The heights of the block are in bounds for a stack of [sz] items. *)
Definition bounds (sz : nat) (cs : cstate) : Prop :=
  0 <= Z.of_nat sz + m_minSize cs /\ Z.of_nat sz + m_maxSize cs <= 1024.

(** The machine's stack [st] against the local stack, over the stack [stk0]
    the block started with. *)
Record frame_rel (stk0 : list Z) (cs : cstate) (s : rt H) (st : list Z) : Prop := {
  fr_len : (length st + m_globalPops cs = length (m_local cs) + length stk0)%nat;
  fr_pops : (m_globalPops cs <= length stk0)%nat;
  fr_item i z : st !! i = Some z ->
    match reverse (m_local cs) !! i with
    | Some v => val 128 (W cs s) v z
    | None =>
        let idx := (i - length (m_local cs) + m_globalPops cs)%nat in
        match m_input cs !! idx with
        | Some (Some v) => val 128 (W cs s) v z
        | _ => stk0 !! idx = Some z
        end
    end;
  fr_words : Forall (inw 128) stk0;
  fr_sp : s_sp s = Z.of_nat (length stk0);
  fr_slots : length (s_stack s) = 1024%nat;
  fr_slot i z : stk0 !! i = Some z -> s_stack s !! (length stk0 - 1 - i)%nat = Some (Some z)
}.

(** The rest of the runtime state. *)
Record rest_rel (s : rt H) (r : rstate H) : Prop := {
  rr_gas : s_gas s = r_gas r;
  rr_range : 0 <= r_gas r < 2 ^ 63 - 1;
  rr_mem : array_ok (s_mem s);
  rr_data : a_data (s_mem s) = r_mem r;
  rr_retsize : 0 <= s_retsize s <= Z.of_nat (length (s_retdata s));
  rr_retlen : Z.of_nat (length (s_retdata s)) < 2 ^ 64;
  rr_retbytes : bytes_ok (s_retdata s);
  rr_retbuf : take (Z.to_nat (s_retsize s)) (s_retdata s) = r_retbuf r;
  rr_tx c : s_txctx s = Some c -> c = get_tx_context T (s_host s);
  rr_host : s_host s = r_host r
}.

Record inv (stk0 : list Z) (cs : cstate) (s : rt H) (r : rstate H) : Prop := {
  inv_cwf : cwf cs;
  inv_bounds : bounds (length stk0) cs;
  inv_frame : frame_rel stk0 cs s (r_stack r);
  inv_rest : rest_rel s r
}.

Context (stk0 : list Z).

Definition sim (cs : cstate) (s : rt H) (r : rstate H) {A B} (c : C A) (m : M B)
  (Q : cstate -> rt H -> A -> B -> Prop) : Prop :=
  inv stk0 cs s r -> forall tail,
  match m r with
  | Undef => True
  | Abort => ~ bounds (length stk0) (c cs).1.2 \/ exec_log E (c cs).2 tail s = Abort
  | Ok (b, r') => exists s', exec_log E (c cs).2 tail s = Ok s' /\ inv stk0 (c cs).1.2 s' r'
      /\ wle (W cs s) (W (c cs).1.2 s') /\ Q (c cs).1.2 s' (c cs).1.1 b
  end.

(** ** Composition *)

Lemma bounds_mono sz cs cs' : mono_rel cs cs' -> bounds sz cs' -> bounds sz cs.
Proof. unfold mono_rel, bounds. lia. Qed.

Lemma sim_ret cs s r {A B} (a : A) (b : B) (Q : cstate -> rt H -> A -> B -> Prop) :
  Q cs s a b -> sim cs s r (mret a) (mret b) Q.
Proof. intros HQ Hi tail. simpl. exists s. split_and!; auto. reflexivity. Qed.

Lemma sim_bind_ok cs s r {A A' B B'} (c : C A) (k : A -> C A') (m : M B) (k' : B -> M B') Q Q' :
  sim cs s r c m Q -> (forall a, mono (k a)) ->
  (forall cs' s' r' a b, m r = Ok (b, r') -> inv stk0 cs s r -> inv stk0 cs' s' r' ->
     wle (W cs s) (W cs' s') -> Q cs' s' a b -> sim cs' s' r' (k a) (k' b) Q') ->
  sim cs s r (c ≫= k) (m ≫= k') Q'.
Proof.
  intros Hc Hk Hs Hi tail. unfold mbind, C_bind, M_bind.
  specialize (Hc Hi). destruct (c cs) as [[a cs1] l1].
  specialize (Hs cs1). specialize (Hk a cs1) as [Hm _].
  destruct (k a cs1) as [[a' cs2] l2] eqn:Ek. simpl in *.
  specialize (Hc (l2 ++ tail)). rewrite exec_log_app.
  destruct (m r) as [[b r1] | |]; simpl; [| | done].
  - destruct Hc as (s1 & He & Hi1 & Hw & HQ). rewrite He. simpl.
    specialize (Hs s1 r1 a b eq_refl Hi Hi1 Hw HQ Hi1 tail). rewrite Ek in Hs. simpl in Hs.
    destruct (k' b r1) as [[b' r2] | |]; [| done | done].
    destruct Hs as (s2 & He2 & Hi2 & Hw2 & HQ2). exists s2. split_and!; auto. by etrans.
  - destruct Hc as [Hb | ->]; [left | by right]. intros Hb2. by apply Hb, (bounds_mono _ _ cs2).
Qed.

Lemma sim_bind cs s r {A A' B B'} (c : C A) (k : A -> C A') (m : M B) (k' : B -> M B') Q Q' :
  sim cs s r c m Q -> (forall a, mono (k a)) ->
  (forall cs' s' r' a b, wle (W cs s) (W cs' s') -> Q cs' s' a b -> sim cs' s' r' (k a) (k' b) Q') ->
  sim cs s r (c ≫= k) (m ≫= k') Q'.
Proof. intros Hc Hk Hs. eapply sim_bind_ok; eauto. Qed.

(** Two operations of the machine against one of the generator. *)
Lemma sim_bind2 cs s r {A A' B1 B B'} (c : C A) (k : A -> C A') (m1 : M B1) (m2 : B1 -> M B) (k' : B -> M B') Q Q' :
  sim cs s r c (m1 ≫= m2) Q -> (forall a, mono (k a)) ->
  (forall cs' s' r' a b, wle (W cs s) (W cs' s') -> Q cs' s' a b -> sim cs' s' r' (k a) (k' b) Q') ->
  sim cs s r (c ≫= k) (m1 ≫= fun b => m2 b ≫= k') Q'.
Proof.
  intros Hc Hk Hs Hi tail. pose proof (sim_bind cs s r c k (m1 ≫= m2) k' Q Q' Hc Hk Hs Hi tail) as Hb.
  unfold mbind, M_bind in *. destruct (m1 r) as [[b r1] | |]; [| done | done]. exact Hb.
Qed.

(** Steps of one side only. *)
Lemma sim_bind_l cs s r {A A' B} (c : C A) (k : A -> C A') (m : M B) Q Q' :
  sim cs s r c (mret tt) Q -> (forall a, mono (k a)) ->
  (forall cs' s' a, wle (W cs s) (W cs' s') -> Q cs' s' a tt -> sim cs' s' r (k a) m Q') ->
  sim cs s r (c ≫= k) m Q'.
Proof.
  intros Hc Hk Hs Hi tail. unfold mbind, C_bind.
  specialize (Hc Hi). destruct (c cs) as [[a cs1] l1].
  specialize (Hk a cs1) as [Hm _]. destruct (k a cs1) as [[a' cs2] l2] eqn:Ek. simpl in *.
  destruct (Hc (l2 ++ tail)) as (s1 & He & Hi1 & Hw & HQ). rewrite exec_log_app, He. simpl.
  specialize (Hs cs1 s1 a Hw HQ Hi1 tail). rewrite Ek in Hs. simpl in Hs.
  destruct (m r) as [[b r2] | |]; [| done | done].
  destruct Hs as (s2 & He2 & Hi2 & Hw2 & HQ2). exists s2. split_and!; auto. by etrans.
Qed.

Lemma sim_gets cs s r {A B F} (c : C A) (f : rstate H -> F) (k : F -> M B) Q :
  sim cs s r c (k (f r)) Q -> sim cs s r c (gets f ≫= k) Q.
Proof. auto. Qed.

(** The end of a step: the machine returns without doing anything more. *)
Lemma sim_map cs s r {A B B'} (c : C A) (m : M B) (f : B -> B') Q Q' :
  sim cs s r c m Q -> (forall cs' s' a b, Q cs' s' a b -> Q' cs' s' a (f b)) ->
  sim cs s r c (m ≫= fun b => mret (f b)) Q'.
Proof.
  intros Hc HQ Hi tail. specialize (Hc Hi tail). unfold mbind, M_bind.
  destruct (m r) as [[b r1] | |]; [| done | done]. simpl.
  destruct Hc as (s1 & He & Hi1 & Hw & Hq). exists s1. split_and!; auto.
Qed.

Lemma sim_conseq cs s r {A B} (c : C A) (m : M B) Q Q' :
  sim cs s r c m Q -> (forall cs' s' a b, Q cs' s' a b -> Q' cs' s' a b) -> sim cs s r c m Q'.
Proof.
  intros Hc HQ Hi tail. specialize (Hc Hi tail).
  destruct (m r) as [[b r1] | |]; [| done | done].
  destruct Hc as (s1 & He & Hi1 & Hw & Hq). exists s1. split_and!; auto.
Qed.

(** What the generator keeps holds of its final state. *)
Lemma sim_keeps cs s r {A B} R P (c : C A) (m : M B) Q :
  keeps R P c -> sim cs s r c m Q -> sim cs s r c m (fun cs' s' a b => Q cs' s' a b /\ R cs cs').
Proof.
  intros Hk Hc Hi tail. specialize (Hc Hi tail). destruct (Hk cs) as [HR _].
  destruct (m r) as [[b r1] | |]; [| done | done].
  destruct Hc as (s1 & He & Hi1 & Hw & Hq). exists s1. split_and!; auto.
Qed.

(** The invariant may be assumed. *)
Lemma sim_inv cs s r {A B} (c : C A) (m : M B) Q :
  (inv stk0 cs s r -> sim cs s r c m Q) -> sim cs s r c m Q.
Proof. intros Hs Hi. by apply Hs. Qed.

(** The machine's computation matters only through its result. *)
Lemma sim_ext cs s r {A B} (c : C A) (m m' : M B) Q : m r = m' r -> sim cs s r c m' Q -> sim cs s r c m Q.
Proof. intros Heq Hs Hi tail. rewrite Heq. by apply Hs. Qed.

(** ** Emitting one instruction *)

(** The instructions whose arguments are not filled in later. *)
Definition settled (i : instr) : bool :=
  match i with IGasCheck _ _ | IPrepare _ => false | _ => true end.

Lemma settle_settled i tail : settled i = true -> settle tail i = [i].
Proof.
  intros Hi. induction tail as [| e tail IH]; [done |]. simpl.
  assert (touch e i = [i]) as -> by (destruct e, i; done || discriminate). simpl. by rewrite IH.
Qed.

Lemma exec_log_emit i tail s : settled i = true -> exec_log E [EEmit i] tail s = exec1 E i s.
Proof.
  intros Hi. simpl. rewrite settle_settled by done. simpl.
  by destruct (exec1 E i s).
Qed.

Lemma use_val wd cs s v z : val wd (W cs s) v z -> use E s v = Ok z.
Proof. intros Hv. apply isval_eval in Hv. unfold use. cbn [e_data env_of W w_regs] in *. by rewrite Hv. Qed.

Lemma rest_rel_set_reg n o s r : rest_rel s r -> rest_rel (set_reg n o s) r.
Proof. by intros []; split. Qed.

(** A step that leaves the stacks alone keeps the invariant. *)
Lemma inv_step cs s r cs' s' r' :
  inv stk0 cs s r -> stack_rel cs cs' -> wle (W cs s) (W cs' s') ->
  s_sp s' = s_sp s -> s_stack s' = s_stack s -> r_stack r' = r_stack r -> rest_rel s' r' ->
  inv stk0 cs' s' r'.
Proof.
  intros [Hc Hb Hf Hr] Hs Hw Hsp Hst Hrs Hr'. split; [by eapply cwf_stack_rel | | | done].
  - destruct Hs as (_ & _ & _ & H1 & H2). unfold bounds in *. rewrite H1, H2. done.
  - rewrite Hrs. destruct Hs as (H1 & H2 & H3 & _ & _). destruct Hf.
    split; rewrite ?H1, ?H2, ?H3, ?Hsp, ?Hst; auto.
    intros i z Hz. specialize (fr_item0 i z Hz). cbv zeta in *.
    destruct (reverse (m_local cs) !! i); [by eapply isval_mono |].
    destruct (m_input cs !! _) as [[v |] |]; auto. by eapply isval_mono.
Qed.

Lemma sim_emit cs s r {B} i (m : M B) (Q : cstate -> rt H -> unit -> B -> Prop) :
  settled i = true ->
  (rest_rel s r ->
   match m r with
   | Undef => True
   | Abort => exec1 E i s = Abort
   | Ok (b, r') => exists s', exec1 E i s = Ok s' /\ s_regs s' = s_regs s /\ s_sp s' = s_sp s
       /\ s_stack s' = s_stack s /\ a_size (s_mem s) <= a_size (s_mem s') /\ s_extcode s' = s_extcode s
       /\ r_stack r' = r_stack r /\ rest_rel s' r' /\ Q cs s' tt b
   end) ->
  sim cs s r (emit i) m Q.
Proof.
  intros Hi Hx Hinv tail. cbn [emit fst snd]. rewrite exec_log_emit by done.
  specialize (Hx (inv_rest _ _ _ _ Hinv)). destruct (m r) as [[b r'] | |]; [| by right | done].
  destruct Hx as (s' & He & Hr & Hsp & Hst & Hm & Hc & Hrs & Hrr & HQ). exists s'.
  assert (wle (W cs s) (W cs s')) as HW by (split_and!; simpl; auto; by rewrite ?Hr, ?Hc).
  split_and!; auto. eapply inv_step; eauto. reflexivity.
Qed.

Lemma wle_fresh cs s s' o :
  s_regs s' = s_regs s -> a_size (s_mem s) <= a_size (s_mem s') ->
  (forall k, (k < c_next cs)%nat -> s_extcode s' k = s_extcode s k) -> wle (W cs s) (W (set_next (S (c_next cs)) cs) (set_reg (c_next cs) o s')).
Proof.
  intros Hr Hm Hc. split_and!; simpl; [lia | | lia | done]. intros k Hk. destruct (Nat.eqb_spec k (c_next cs)); [lia |]. by rewrite Hr.
Qed.

(** An instruction that defines a register; the machine has nothing to do, or
    a step of its own that leaves the stack alone. *)
Lemma sim_emit_reg cs s r {B} w i (m : M B) (P : Z -> B -> Prop) :
  (forall n, settled (i n) = true) ->
  (rest_rel s r ->
   match m r with
   | Undef => True
   | Abort => exec1 E (i (c_next cs)) s = Abort
   | Ok (b, r') => exists s' z, exec1 E (i (c_next cs)) s = Ok (set_reg (c_next cs) (Some z) s')
       /\ s_regs s' = s_regs s /\ s_sp s' = s_sp s /\ s_stack s' = s_stack s
       /\ a_size (s_mem s) <= a_size (s_mem s') /\ s_extcode s' = s_extcode s /\ r_stack r' = r_stack r
       /\ rest_rel s' r' /\ inw w z /\ P z b
   end) ->
  sim cs s r (emit_reg w i) m (fun cs' s' v b => exists z, val w (W cs' s') v z /\ P z b).
Proof.
  intros Hi Hx Hinv tail. unfold emit_reg, fresh, emit, mbind, C_bind, mret, C_ret. cbn [fst snd app].
  rewrite exec_log_emit by done.
  specialize (Hx (inv_rest _ _ _ _ Hinv)). destruct (m r) as [[b r'] | |]; [| by right | done].
  destruct Hx as (s' & z & He & Hr & Hsp & Hst & Hm & Hc & Hrs & Hrr & Hw & HP).
  exists (set_reg (c_next cs) (Some z) s'). split_and!; auto.
  - eapply inv_step; eauto; [by split_and! | apply wle_fresh; auto; by rewrite Hc | by apply rest_rel_set_reg].
  - apply wle_fresh; auto. by rewrite Hc.
  - exists z. split; [| done]. eapply isval_reg; [reflexivity | | done]. simpl. by rewrite Nat.eqb_refl.
Qed.

(** Reading the state into a register. *)
Lemma sim_read cs s r w i z :
  (forall n, settled (i n) = true) -> inw w z ->
  (rest_rel s r -> exec1 E (i (c_next cs)) s = Ok (set_reg (c_next cs) (Some z) s)) ->
  sim cs s r (emit_reg w i) (mret tt) (fun cs' s' v _ => val w (W cs' s') v z).
Proof.
  intros Hi Hw Hx. eapply sim_conseq.
  - apply (sim_emit_reg cs s r w i (mret tt) (fun z' _ => z' = z)); [done |].
    intros Hr. simpl. exists s, z. split_and!; auto. lia.
  - intros cs' s' a b (z' & Hv & ->). done.
Qed.

(** ** The return buffer *)

(** The events that leave the return data buffer alone. *)
Definition keeps_buf (e : event) : Prop :=
  match e with
  | EEmit IResetReturnBuf | EEmit (ICall _ _ _ _ _ _ _ _ _ _ _) | EEmit (ICreate _ _ _ _ _ _ _ _) => False
  | _ => True
  end.

Lemma exec1_keeps_buf i s s' :
  keeps_buf (EEmit i) -> exec1 E i s = Ok s' -> s_retdata s' = s_retdata s /\ s_retsize s' = s_retsize s.
Proof.
  intros Hk He. destruct i; try contradiction Hk; simpl in He; unfold mbind, run_bind in He;
    repeat case_match; simplify_eq; done.
Qed.

Lemma settle_keeps_buf i tail : keeps_buf (EEmit i) -> Forall (fun i => keeps_buf (EEmit i)) (settle tail i).
Proof.
  revert i. induction tail as [| e tail IH]; intros i Hi; cbn [settle]; [by constructor |].
  apply Forall_bind. assert (Forall (fun i => keeps_buf (EEmit i)) (touch e i)) as Ht.
  { destruct e, i; simpl; repeat case_match; repeat constructor; done. }
  eapply Forall_impl; [| exact Ht]. exact IH.
Qed.

Lemma exec_keeps_buf l s s' :
  Forall (fun i => keeps_buf (EEmit i)) l -> exec E l s = Ok s' ->
  s_retdata s' = s_retdata s /\ s_retsize s' = s_retsize s.
Proof.
  revert s. induction l as [| i l IH]; intros s Hl He; simpl in He; [by injection He as -> |].
  apply Forall_cons_1 in Hl as [Hi Hl]. apply run_bind_ok in He as (s1 & H1 & H2).
  apply exec1_keeps_buf in H1 as [<- <-]; auto.
Qed.

Lemma exec_log_keeps_buf l tail s s' :
  Forall keeps_buf l -> exec_log E l tail s = Ok s' -> s_retdata s' = s_retdata s /\ s_retsize s' = s_retsize s.
Proof.
  revert s. induction l as [| e l IH]; intros s Hl He; simpl in He; [by injection He as -> |].
  apply Forall_cons_1 in Hl as [Hi Hl]. destruct e as [i | | |]; auto.
  apply run_bind_ok in He as (s1 & H1 & H2).
  apply exec_keeps_buf in H1 as [<- <-]; [auto |]. by apply settle_keeps_buf.
Qed.

Lemma sim_keeps_buf cs s r {A B} (c : C A) (m : M B) Q :
  Forall keeps_buf (c cs).2 -> sim cs s r c m Q ->
  sim cs s r c m (fun cs' s' a b => Q cs' s' a b /\ s_retdata s' = s_retdata s /\ s_retsize s' = s_retsize s).
Proof.
  intros Hk Hs Hi tail. specialize (Hs Hi tail). destruct (m r) as [[b r'] | |]; [| done | done].
  destruct Hs as (s' & He & Hi' & Hw & HQ). exists s'. split_and!; auto; by eapply exec_log_keeps_buf.
Qed.

Lemma inv_retbuf cs s r cs' s' r' :
  inv stk0 cs s r -> inv stk0 cs' s' r' -> s_retdata s' = s_retdata s -> s_retsize s' = s_retsize s ->
  r_retbuf r' = r_retbuf r.
Proof.
  intros [_ _ _ Hr] [_ _ _ Hr'] H1 H2. rewrite <- (rr_retbuf _ _ Hr), <- (rr_retbuf _ _ Hr'). congruence.
Qed.
End Sim.

(** ** Tactics *)

(** Carry the facts about the world of [Hle]'s left side over to its right side. *)
Ltac advance Hle :=
  lazymatch type of Hle with
  | wle ?w _ =>
      repeat match goal with
      | Hv : isval _ _ w _ _ |- _ => apply (isval_mono _ _ _ _ _ _ Hle) in Hv
      | Hc : covers w _ _ |- _ => apply (covers_mono _ _ _ _ Hle) in Hc
      end
  end.

(** The rest of a computation of the generator keeps the extreme heights apart. *)
Ltac mono_rest := intros; compile_unfold; codegen_unfold; keeps_tac.

(** One operation of both sides; one of the generator only; a read of the machine's. *)
Tactic Notation "sim_step" uconstr(lem) "as" simple_intropattern(v) simple_intropattern(z) simple_intropattern(Hv) :=
  eapply sim_bind; [eapply lem; eauto | mono_rest |];
  let Hle := fresh "Hle" in intros ? ? ? v z Hle; cbv beta; intros Hv; advance Hle.
(** One operation of the generator for two of the machine. *)
Tactic Notation "sim_step2" uconstr(lem) "as" simple_intropattern(v) simple_intropattern(z) simple_intropattern(Hv) :=
  eapply sim_bind2; [eapply lem; eauto | mono_rest |];
  let Hle := fresh "Hle" in intros ? ? ? v z Hle; cbv beta; intros Hv; advance Hle.
(** One operation of both sides, keeping the machine's step. *)
Tactic Notation "sim_step_ok" uconstr(lem) "as" simple_intropattern(v) simple_intropattern(z) simple_intropattern(Hv) ident(Hm) :=
  eapply sim_bind_ok; [eapply lem; eauto | mono_rest |];
  let Hle := fresh "Hle" in let Hi := fresh "Hi" in
  intros ? ? ? v z Hm ? Hi Hle; cbv beta; intros Hv; advance Hle.
Tactic Notation "sim_left" uconstr(lem) "as" simple_intropattern(v) simple_intropattern(Hv) :=
  eapply sim_bind_l; [eapply lem; eauto | mono_rest |];
  let Hle := fresh "Hle" in intros ? ? v Hle; cbv beta; intros Hv; advance Hle.
