(* ===== verification/NullHost.v ===== *)
(** * A host with nothing in it

    An execution context that meets the assumptions of the correctness
    theorems: an empty world, where every call fails and consumes its gas. *)
From S2P Require Import Prelude Bytes Instruction BasicBlocks LLVMInt EvmAbi Runtime IR Machine Sim.

Definition null_host_for (H : Type) : evm_context_fn_table H :=
  mkHost H (fun _ _ => 0) (fun _ _ _ => replicate 16 0) (fun h _ _ _ => h) (fun _ _ => replicate 16 0)
    (fun _ _ => []) (fun h _ _ => h) (fun h _ => (mkResult EVM_FAILURE 0 [], h))
    (fun _ => mkTxContext (replicate 16 0) (replicate 32 0) (replicate 32 0) 0 0 0 (replicate 16 0))
    (fun _ _ => replicate 32 0) (fun h _ _ _ => h).
Definition null_host : evm_context_fn_table unit := null_host_for unit.

Definition null_message (gas : Z) : evm_message :=
  mkMessage (replicate 32 0) (replicate 32 0) (replicate 16 0) [] (replicate 32 0) gas 0 EVM_CALL 0.

Definition null_ctx (gas : Z) (code : list Z) : Ctx unit :=
  mkCtx null_host (null_message gas) (fun _ => null_message gas) code EVM_AION_V1 false (replicate 32 0) (replicate 32 0).

Lemma zeros_of_len n : bytes_of_len n (replicate n 0).
Proof. split; [apply length_replicate |]. apply Forall_replicate. done. Qed.

Lemma null_host_for_ok H : host_ok (null_host_for H).
Proof.
  split; cbn -[replicate]; intros; try apply zeros_of_len; try (by left); try done; split_and!; try apply zeros_of_len; done || lia.
Qed.

Lemma null_ctx_ok gas code :
  bytes_ok code -> Z.of_nat (length code) < 2 ^ 32 -> ctx_ok (null_ctx gas code).
Proof.
  intros Hc Hl. split; [apply null_host_for_ok | | done | done].
  split; simpl; auto using zeros_of_len; split; done || lia.
Qed.

(** [PUSH1 2; PUSH1 3; ADD; PUSH1 0; MSTORE; PUSH1 16; PUSH1 0; RETURN]: returns the word 5. *)
Definition sum_code : list Z := [0x60; 2; 0x60; 3; 0x01; 0x60; 0; 0x52; 0x60; 16; 0x60; 0; 0xf3].

Lemma sum_code_ok gas : ctx_ok (null_ctx gas sum_code).
Proof. apply null_ctx_ok; [apply (bool_decide_unpack _); vm_compute; exact I | done]. Qed.
