(* ===== verification/SimStack.v ===== *)
(** * Simulation of the stack operations

    [LocalStack]'s operations against the machine's: an item of the global
    stack is fetched into a register the first time it is read, and the checks
    for under- and overflow are left to the heights of the block. *)
From S2P Require Import Prelude Bytes Instruction BasicBlocks LLVMInt EvmAbi Runtime IR Builder Codegen.
From S2P Require Import Compiler Machine Denote Frames Heights Sim.

Section SimStack.
Context {H : Type} `{LLVMFolder} (X : Ctx H) (gas0 gasPrice uninit : Z) (HX : ctx_ok X) (stk0 : list Z).

Abbreviation D := (runtime_data X gas0 gasPrice).
Abbreviation E := (env_of X D uninit).
Abbreviation val := (isval D).
Abbreviation inv := (inv X gas0 gasPrice stk0).
Abbreviation sim := (sim X gas0 gasPrice uninit stk0).

(** The machine's state with another stack. *)
Definition with_stack (st : list Z) (r : rstate H) : rstate H :=
  mkR st (r_gas r) (r_mem r) (r_retbuf r) (r_host r).

Lemma rest_rel_stack st s r : rest_rel X s r -> rest_rel X s (with_stack st r).
Proof. by intros []; split. Qed.

(** The height of the machine's stack against that of the local stack. *)
Lemma inv_height cs s r :
  inv cs s r -> Z.of_nat (length (r_stack r)) = Z.of_nat (length stk0) + LocalStack.size cs.
Proof. intros [_ _ Hf _]. pose proof (fr_len _ _ _ _ _ _ _ Hf). unfold LocalStack.size. lia. Qed.

(** ** Reading *)

(** The slot of the stack array that holds item [idx] of the global stack. *)
Lemma stack_load_exec cs s r idx z n :
  inv cs s r -> stk0 !! idx = Some z ->
  exec1 E (IStackLoad n (- Z.of_nat idx - 1)) s = Ok (set_reg n (Some z) s).
Proof.
  intros [_ _ Hf _] Hz. apply lookup_lt_Some in Hz as Hlt. destruct Hf. cbn [exec1]. unfold slot. rewrite fr_sp, fr_slots.
  assert (length stk0 <= 1024)%nat.
  { apply fr_slot, lookup_lt_Some in Hz. destruct (lookup_lt_is_Some_2 stk0 0) as [z0 Hz0]; [lia |].
    apply fr_slot, lookup_lt_Some in Hz0. lia. }
  rewrite (proj2 (Z.leb_le 0 (Z.of_nat (length stk0) + (- Z.of_nat idx - 1)))) by lia.
  rewrite (proj2 (Z.ltb_lt (Z.of_nat (length stk0) + (- Z.of_nat idx - 1)) (Z.of_nat 1024))) by lia.
  cbn [andb mbind run_bind].
  replace (Z.to_nat (Z.of_nat (length stk0) + (- Z.of_nat idx - 1))) with (length stk0 - 1 - idx)%nat by lia.
  by rewrite (fr_slot idx z Hz).
Qed.

(** Fetching an item keeps the invariant. *)
Lemma inv_fetched cs s r idx z :
  inv cs s r -> stk0 !! idx = Some z -> (m_globalPops cs <= idx)%nat ->
  reverse (m_local cs) !! (idx - m_globalPops cs + length (m_local cs))%nat = None ->
  (forall v, m_input cs !! idx <> Some (Some v)) ->
  inv (fetched idx cs) (set_reg (c_next cs) (Some z) s) r
  /\ val 128 (W (fetched idx cs) (set_reg (c_next cs) (Some z) s)) (VReg 128 (c_next cs)) z.
Proof.
  intros [Hc Hb Hf Hr] Hz Hp Hn Hi. apply lookup_lt_Some in Hz as Hlt.
  assert (wle (W cs s) (W (fetched idx cs) (set_reg (c_next cs) (Some z) s))) as Hle by by apply wle_fresh.
  assert (val 128 (W (fetched idx cs) (set_reg (c_next cs) (Some z) s)) (VReg 128 (c_next cs)) z) as Hv.
  { eapply isval_reg; [reflexivity | simpl; by rewrite Nat.eqb_refl |].
    eapply Forall_lookup_1; [apply (fr_words _ _ _ _ _ _ _ Hf) | done]. }
  split; [| done]. split; [by apply cwf_fetched | | | by apply rest_rel_set_reg].
  { unfold bounds in *. simpl. lia. }
  destruct Hf. split; auto.
  cbn [m_local m_globalPops m_input fetched set_min set_input set_next].
  intros i z' Hz'. specialize (fr_item i z' Hz'). cbv zeta in *.
  destruct (reverse (m_local cs) !! i) eqn:Hrev; [by eapply isval_mono |].
  apply reverse_lookup_None in Hrev.
  destruct (decide (i - length (m_local cs) + m_globalPops cs = idx)%nat) as [Heq | Hne].
  - rewrite Heq in *. rewrite list_lookup_insert_eq by (rewrite length_grown; lia).
    assert (z' = z) as ->; [| done].
    destruct (m_input cs !! idx) as [[v |] |] eqn:Hm; [by destruct (Hi v) | congruence..].
  - rewrite list_lookup_insert_ne by done.
    destruct (grown idx (m_input cs) !! _) as [[v |] |] eqn:Hg.
    + apply grown_lookup in Hg. rewrite Hg in fr_item. by eapply isval_mono.
    + destruct (m_input cs !! _) as [[v |] |] eqn:Hm; [| done..]. apply (grown_lookup idx) in Hm. congruence.
    + destruct (m_input cs !! _) as [[v |] |] eqn:Hm; [| done..]. apply (grown_lookup idx) in Hm. congruence.
Qed.

Lemma get_run index cs s r tail :
  inv cs s r ->
  match r_stack r !! index with
  | None => ~ bounds (length stk0) (LocalStack.get index cs).1.2
  | Some z => exists s', exec_log E (LocalStack.get index cs).2 tail s = Ok s'
      /\ inv (LocalStack.get index cs).1.2 s' r /\ wle (W cs s) (W (LocalStack.get index cs).1.2 s')
      /\ val 128 (W (LocalStack.get index cs).1.2 s') (LocalStack.get index cs).1.1 z
  end.
Proof.
  intros Hinv. pose proof Hinv as [Hc Hb Hf Hr].
  pose proof (fr_len _ _ _ _ _ _ _ Hf) as Hlen. pose proof (fr_pops _ _ _ _ _ _ _ Hf) as Hpops.
  destruct (r_stack r !! index) as [z |] eqn:Hz.
  - apply lookup_lt_Some in Hz as Hlt. pose proof (fr_item _ _ _ _ _ _ _ Hf index z Hz) as Hitem. cbv zeta in Hitem.
    destruct (reverse (m_local cs) !! index) as [v |] eqn:Hrev.
    + rewrite (get_local _ _ _ Hrev). exists s. split_and!; auto. reflexivity.
    + rewrite get_input_cases by done. cbv zeta. apply reverse_lookup_None in Hrev as Hge.
      set (idx := (index - length (m_local cs) + m_globalPops cs)%nat) in *.
      destruct (m_input cs !! idx) as [[v |] |] eqn:Hm.
      { exists s. split_and!; auto. reflexivity. }
      all: edestruct (inv_fetched cs s r idx z) as [Hi' Hv']; auto;
        [unfold idx; lia | by replace (idx - m_globalPops cs + length (m_local cs))%nat with index by (unfold idx; lia)
        | congruence |].
      all: exists (set_reg (c_next cs) (Some z) s); cbn [fst snd]; rewrite exec_log_emit by done.
      all: rewrite (stack_load_exec cs s r idx z) by done; split_and!; auto; by apply wle_fresh.
  - apply lookup_ge_None in Hz. assert (reverse (m_local cs) !! index = None) as Hrev
      by (apply reverse_lookup_None; lia).
    destruct (get_grows index cs Hc) as (_ & _ & _ & Hl & Hp & Hin & _). unfold bounds.
    destruct Hin as [_ Hmin]; [by rewrite Hl |]. rewrite Hl, Hp in Hmin. lia.
Qed.

(** ** Writing *)

Lemma inv_push cs s r v z :
  inv cs s r -> val 128 (W cs s) v z -> (length (r_stack r) < 1024)%nat ->
  inv (LocalStack.push v cs).1.2 s (with_stack (z :: r_stack r) r).
Proof.
  intros Hinv Hv Hl. pose proof (inv_height _ _ _ Hinv) as Hh. pose proof Hinv as [Hc Hb Hf Hr].
  destruct (grows_push v cs Hc) as (Hc' & _ & _).
  split; [done | | | by apply rest_rel_stack].
  - unfold bounds in *. simpl. unfold LocalStack.size in *. simpl. rewrite length_app. simpl. lia.
  - destruct Hf. split; simpl; rewrite ?length_app; simpl; auto; [lia |].
    intros i z' Hz'. rewrite reverse_snoc. destruct i as [| i]; simpl in *; [by injection Hz' as -> |].
    specialize (fr_item i z' Hz'). cbv zeta in *.
    destruct (reverse (m_local cs) !! i) eqn:Hrev; [done |]. apply reverse_lookup_None in Hrev.
    by replace (S i - (length (m_local cs) + 1) + m_globalPops cs)%nat
      with (i - length (m_local cs) + m_globalPops cs)%nat by lia.
Qed.

Lemma sim_push cs s r v z :
  val 128 (W cs s) v z -> sim cs s r (LocalStack.push v) (rpush z) (fun _ _ _ _ => True).
Proof.
  intros Hv Hinv tail. unfold rpush, gets, mbind, M_bind.
  destruct (Nat.ltb_spec (length (r_stack r)) 1024) as [Hl | Hl]; simpl.
  - exists s. split_and!; auto; [| reflexivity]. apply (inv_push cs s r v z); auto.
  - left. pose proof (inv_height _ _ _ Hinv). unfold bounds. simpl. unfold LocalStack.size in *. simpl.
    rewrite length_app. simpl. lia.
Qed.

(** Dropping the top item after it has been read. *)
Definition drop_top (cs : cstate) : cstate :=
  let cs := if (0 <? length (m_local cs))%nat
            then set_local (take (length (m_local cs) - 1) (m_local cs)) cs
            else set_pops (S (m_globalPops cs)) cs in
  set_min (Z.min (m_minSize cs) (LocalStack.size cs)) cs.

Lemma pop_unfold cs :
  LocalStack.pop cs =
    ((LocalStack.get 0 cs).1.1, drop_top (LocalStack.get 0 cs).1.2, (LocalStack.get 0 cs).2).
Proof.
  unfold LocalStack.pop, mbind, C_bind. destruct (LocalStack.get 0 cs) as [[v cs1] l1]. simpl.
  by rewrite app_nil_r.
Qed.

Lemma frame_drop cs s r z st :
  inv cs s r -> in_input 0 cs -> r_stack r = z :: st -> frame_rel X gas0 gasPrice stk0 (drop_top cs) s st.
Proof.
  intros [Hc Hb Hf Hr] Hin Hst. rewrite Hst in Hf. destruct Hf. unfold drop_top.
  destruct (m_local cs) as [| x l _] eqn:Hl using rev_ind; simpl in *.
  - split; simpl; rewrite ?Hl; simpl in *; auto; try lia. intros i z' Hz'. rewrite ?Hl.
    specialize (fr_item (S i) z' Hz'). rewrite ?Hl in fr_item. simpl in fr_item. simpl.
    by replace (i - 0 + S (m_globalPops cs))%nat with (S (i + m_globalPops cs)) by lia.
  - rewrite length_app. simpl. replace (0 <? length l + 1)%nat with true by (symmetry; apply Nat.ltb_lt; lia).
    replace (length l + 1 - 1)%nat with (length l) by lia. rewrite take_app_length.
    rewrite length_app in fr_len. simpl in fr_len.
    split; simpl; auto; [lia |]. intros i z' Hz'. specialize (fr_item (S i) z' Hz').
    rewrite ?Hl, reverse_snoc in fr_item. simpl in fr_item. cbv zeta in *.
    destruct (reverse l !! i) eqn:Hrev; [done |]. apply reverse_lookup_None in Hrev.
    rewrite length_app in fr_item. simpl in fr_item.
    by replace (i - length l)%nat with (S i - (length l + 1))%nat by lia.
Qed.

Lemma sim_pop cs s r :
  sim cs s r LocalStack.pop rpop (fun cs' s' v z => val 128 (W cs' s') v z).
Proof.
  intros Hinv tail. pose proof Hinv as [Hc Hb Hf Hr].
  pose proof (get_run 0 cs s r tail Hinv) as Hg.
  destruct (get_grows 0 cs Hc) as (Hc1 & _ & _ & Hl & Hp & Hin & _).
  pose proof (grows_pop cs Hc) as (Hc2 & _ & _). rewrite pop_unfold in *. cbn [fst snd] in *.
  set (cs1 := (LocalStack.get 0 cs).1.2) in *.
  unfold rpop, gets, mbind, M_bind. destruct (r_stack r) as [| z st] eqn:Hst; simpl.
  - left. intros Hb'. apply Hg. revert Hb'. unfold drop_top, bounds.
    destruct (0 <? length (m_local cs1))%nat; simpl; lia.
  - simpl in Hg. destruct Hg as (s' & He & Hi & Hw & Hv). exists s'. rewrite He.
    assert (W (drop_top cs1) s' = W cs1 s') as HW by (unfold drop_top; by destruct (0 <? length (m_local cs1))%nat).
    split_and!; auto; [| by rewrite HW | by rewrite HW].
    pose proof (inv_height _ _ _ Hi) as Hh.
    pose proof (frame_drop cs1 s' r z st Hi Hin Hst) as Hfd.
    split; [done | | done | by apply (rest_rel_stack st), (inv_rest _ _ _ _ _ _ _ Hi)].
    destruct Hi as [_ Hb1 _ _]. rewrite Hst in Hh. simpl in Hh.
    destruct Hfd as [Hlen _ _ _ _ _ _]. unfold bounds in *. revert Hlen. unfold drop_top, LocalStack.size in *.
    destruct (Nat.ltb_spec 0 (length (m_local cs1))); simpl; rewrite ?length_take; lia.
Qed.

(** Reading an item, as a computation of the machine. *)
Definition rpeek (index : nat) : @M H Z :=
  st ← gets r_stack;
  match st !! index with Some z => mret z | None => abort end.

Lemma sim_get cs s r index :
  sim cs s r (LocalStack.get index) (rpeek index) (fun cs' s' v z => val 128 (W cs' s') v z).
Proof.
  intros Hinv tail. pose proof (get_run index cs s r tail Hinv) as Hg.
  unfold rpeek, gets, mbind, M_bind. destruct (r_stack r !! index) as [z |]; simpl; [done | by left].
Qed.

Lemma sim_dup cs s r index :
  sim cs s r (LocalStack.dup index) (rdup index) (fun _ _ _ _ => True).
Proof.
  assert (forall r, rdup index r = (rpeek index ≫= rpush) r) as Heq.
  { intros r'. unfold rdup, rpeek, gets, mbind, M_bind. by destruct (r_stack r' !! index). }
  eapply sim_ext; [apply Heq |].
  eapply sim_bind; [apply sim_get | auto with keeps typeclass_instances |].
  intros. by apply sim_push.
Qed.

(** Writing an item that has been read. *)
Lemma set_run index cs s r v z :
  inv cs s r -> in_input index cs -> val 128 (W cs s) v z -> (index < length (r_stack r))%nat ->
  (LocalStack.set index v cs).2 = []
  /\ W (LocalStack.set index v cs).1.2 s = W cs s
  /\ inv (LocalStack.set index v cs).1.2 s (with_stack (<[index := z]> (r_stack r)) r).
Proof.
  intros [Hc Hb Hf Hr] Hin Hv Hlt. destruct (set_cwf index v cs Hc Hin) as (Hc' & Hm1 & Hm2 & Hl & Hp & Hil).
  assert (bounds (length stk0) (LocalStack.set index v cs).1.2) as Hb' by (unfold bounds in *; by rewrite Hm1, Hm2).
  revert Hc' Hb'. unfold LocalStack.set, mbind, C_bind, get_state.
  destruct (Nat.ltb_spec index (length (m_local cs))) as [Hi | Hi]; simpl; intros Hc' Hb';
    (split_and!; [done | done |]); (split; [done | done | | by apply rest_rel_stack]); clear Hc' Hb';
    destruct Hf; (split; simpl; rewrite ?length_insert; auto); intros i z' Hz'; cbv zeta.
  - destruct (decide (i = index)) as [-> | Hne].
    + rewrite list_lookup_insert_eq in Hz' by done. injection Hz' as <-.
      rewrite list_lookup_reverse by (rewrite length_insert; lia). rewrite length_insert.
      by rewrite list_lookup_insert_eq by lia.
    + rewrite list_lookup_insert_ne in Hz' by done. specialize (fr_item i z' Hz'). cbv zeta in fr_item.
      destruct (decide (i < length (m_local cs))%nat).
      * rewrite list_lookup_reverse in * by (rewrite ?length_insert; lia).
        rewrite length_insert, list_lookup_insert_ne by lia. done.
      * rewrite (proj2 (reverse_lookup_None _ _)) by (rewrite length_insert; lia).
        rewrite (proj2 (reverse_lookup_None _ _)) in fr_item by lia. done.
  - destruct (decide (i = index)) as [-> | Hne].
    + rewrite list_lookup_insert_eq in Hz' by done. injection Hz' as <-.
      rewrite (proj2 (reverse_lookup_None _ _)) by lia.
      destruct Hin as [Hin _]; [by apply reverse_lookup_None |].
      by rewrite list_lookup_insert_eq by lia.
    + rewrite list_lookup_insert_ne in Hz' by done. specialize (fr_item i z' Hz'). cbv zeta in fr_item.
      destruct (reverse (m_local cs) !! i) eqn:Hrev; [done |]. apply reverse_lookup_None in Hrev.
      rewrite list_lookup_insert_ne by lia. done.
Qed.

Lemma sim_swap cs s r index :
  sim cs s r (LocalStack.swap index) (rswap index) (fun _ _ _ _ => True).
Proof.
  intros Hinv tail. pose proof Hinv as [Hc _ _ _]. pose proof (grows_swap index cs Hc) as (Hcf & _).
  revert Hcf. unfold LocalStack.swap, mbind, C_bind.
  destruct (get_grows index cs Hc) as (Hw1 & A1 & A2 & A3 & A4 & A5 & A6).
  pose proof (fun t => get_run index cs s r t Hinv) as G1.
  destruct (LocalStack.get index cs) as [[v cs1] l1]. simpl in *.
  destruct (get_grows 0 cs1 Hw1) as (Hw2 & B1 & B2 & B3 & B4 & B5 & B6).
  pose proof (fun s1 t Hi => get_run 0 cs1 s1 r t Hi) as G2.
  destruct (LocalStack.get 0 cs1) as [[t cs2] l2]. simpl in *.
  assert (in_input index cs2) as Hi by (eapply in_input_keep; [exact A5 | congruence | congruence | lia | lia]).
  destruct (set_cwf index t cs2 Hw2 Hi) as (Hw3 & C1 & C2 & C3 & C4 & C5).
  pose proof (fun s1 z => set_run index cs2 s1 r t z) as S1.
  destruct (LocalStack.set index t cs2) as [[[] cs3] l3]. simpl in *.
  assert (in_input 0 cs3) as Hi3 by (eapply in_input_keep; [exact B5 | congruence | congruence | lia | lia]).
  destruct (set_cwf 0 v cs3 Hw3 Hi3) as (Hw4 & D1 & D2 & _).
  pose proof (fun s1 r1 z => set_run 0 cs3 s1 r1 v z) as S2.
  destruct (LocalStack.set 0 v cs3) as [[[] cs4] l4]. simpl in *. intros Hcf.
  unfold rswap, gets, mbind, M_bind. destruct (r_stack r !! index) as [z |] eqn:Hz; simpl.
  - apply lookup_lt_Some in Hz as Hlt. destruct (lookup_lt_is_Some_2 (r_stack r) 0) as [t0 Ht0]; [lia |].
    rewrite Ht0. simpl.
    destruct (G1 (l2 ++ tail)) as (s1 & He1 & Hi1 & Hle1 & Hv1).
    specialize (G2 s1 tail Hi1). rewrite Ht0 in G2. destruct G2 as (s2 & He2 & Hi2 & Hle2 & Hv2).
    destruct (S1 s2 t0 Hi2 Hi Hv2 Hlt) as (-> & HW3 & Hi3').
    eapply isval_mono in Hv1; [| exact Hle2]. rewrite <- HW3 in Hv1.
    destruct (S2 s2 (with_stack (<[index := t0]> (r_stack r)) r) z Hi3' Hi3 Hv1) as (-> & HW4 & Hi4');
      [simpl; rewrite length_insert; lia |].
    exists s2. simpl. rewrite app_nil_r, exec_log_app, He1. simpl. rewrite He2. split_and!; auto. rewrite HW4, HW3. by etrans.
  - left. specialize (G1 tail). intros Hb. apply G1. unfold bounds in *. lia.
Qed.
End SimStack.
