(* ===== verification/SimRuntime.v ===== *)
(** * Simulation of the runtime operations

    The operations of [GasMeter], [Memory], [RuntimeManager] and [Ext] against
    the machine's, one lemma each. *)
From S2P Require Import Prelude Bytes Instruction BasicBlocks LLVMInt Arith128 EvmAbi GasSchedule Keccak.
From S2P Require Import Runtime IR Builder Codegen Compiler Machine Denote Frames Heights Sim.

Section SimRuntime.
Context {H : Type} `{LLVMFolder} (X : Ctx H) (gas0 gasPrice uninit : Z) (HX : ctx_ok X) (stk0 : list Z).

Abbreviation D := (runtime_data X gas0 gasPrice).
Abbreviation E := (env_of X D uninit).
Abbreviation T := (x_host X).
Abbreviation val := (isval D).
Abbreviation sim := (sim X gas0 gasPrice uninit stk0).
Abbreviation yields w z := (fun cs' s' v _ => val w (W cs' s') v z).
Abbreviation nothing := (fun _ _ _ _ => True).

Lemma use_val' wd cs s v z : val wd (W cs s) v z -> use E s v = Ok z.
Proof. apply use_val. Qed.

(** ** Arithmetic *)

Lemma sim_div cs s r op wa wb a b x y z :
  val wa (W cs s) a x -> val wb (W cs s) b y -> eval_bin op x y = Some z -> inw (bin_width op) z ->
  sim cs s r (CreateDiv op a b) (mret tt) (yields (bin_width op) z).
Proof.
  intros Ha Hb He Hz. pose proof (isval_bin D op wa wb _ a b x y z Ha Hb He Hz) as Hv.
  unfold CreateBin in Hv. unfold CreateDiv. destruct (fold (VBin op a b)).
  1: by apply sim_ret.
  all: apply sim_read; [done | done |]; intros _; cbn [exec1];
    rewrite (use_val' wa cs s a x), (use_val' wb cs s b y) by done; simpl; by rewrite He.
Qed.

Lemma sim_exp cs s r a b x y :
  val 128 (W cs s) a x -> val 128 (W cs s) b y ->
  sim cs s r (arith_exp a b) (mret tt) (yields 128 (wrap 128 (x ^ y))).
Proof.
  intros Ha Hb. pose proof (isval_range _ _ _ _ _ Hb) as Hy.
  assert (sim cs s r (emit_reg 128 (fun n => IExp n a b)) (mret tt) (yields 128 (wrap 128 (x ^ y)))) as Hemit.
  { apply sim_read; [done | by apply wrap_inw |]. intros _. cbn [exec1].
    rewrite (use_val' 128 cs s a x), (use_val' 128 cs s b y) by done. simpl. by rewrite getExpFunc_spec. }
  unfold arith_exp. destruct (dyn_const a) as [x' |] eqn:Ea; [| done].
  destruct (dyn_const b) as [y' |] eqn:Eb; [| done].
  destruct a; try discriminate Ea. destruct b; try discriminate Eb. injection Ea as ->. injection Eb as ->.
  pose proof (isval_eval _ _ _ _ _ Ha) as Hx. pose proof (isval_eval _ _ _ _ _ Hb) as Hy'. simpl in Hx, Hy'.
  injection Hx as ->. injection Hy' as ->. rewrite exp_const_spec by done.
  apply sim_ret, isval_const. by apply wrap_inw.
Qed.

(** ** Gas *)

Lemma rest_rel_gas s r g :
  rest_rel X s r -> 0 <= g < 2 ^ 63 - 1 ->
  rest_rel X (set_gas g s) (mkR (r_stack r) g (r_mem r) (r_retbuf r) (r_host r)).
Proof. intros [] ?. by split. Qed.

Lemma sim_count_64 cs s r v c :
  val 64 (W cs s) v c -> c < 2 ^ 63 -> sim cs s r (emit (IGasDyn v)) (charge c) nothing.
Proof.
  intros Hv Hc. apply sim_emit; [done |]. intros Hr. pose proof (isval_range _ _ _ _ _ Hv) as [Hc0 _].
  unfold charge, gets, mbind, M_bind. cbn [exec1]. rewrite (use_val' 64 cs s v c) by done.
  pose proof (rr_gas _ _ _ Hr) as Hg. pose proof (rr_range _ _ _ Hr) as Hrange.
  cbn [mbind run_bind]. rewrite Hg, gasCheckFunc_spec by lia.
  rewrite (proj2 (Z.leb_le 0 c)) by lia. cbn [andb].
  destruct (Z.leb_spec c (r_gas r)); simpl; [| done].
  exists (set_gas (r_gas r - c) s). split_and!; try done. apply rest_rel_gas; [done | lia].
Qed.

Lemma sim_count cs s r v c :
  val 64 (W cs s) v c -> c < 2 ^ 63 -> sim cs s r (GasMeter.count v) (charge c) nothing.
Proof. intros Hv Hc. unfold GasMeter.count. rewrite (isval_type _ _ _ _ _ Hv). by apply sim_count_64. Qed.

(** A cost given as a word is clamped to the largest amount there is. *)
Lemma sim_count_word cs s r v c :
  val 128 (W cs s) v c -> sim cs s r (GasMeter.count v) (charge c) nothing.
Proof.
  intros Hv. unfold GasMeter.count. rewrite (isval_type _ _ _ _ _ Hv). simpl.
  pose proof (isval_range _ _ _ _ _ Hv) as [Hc0 Hc1].
  assert (val 128 (W cs s) (CreateZExt Constant_gasMax 128) INT64_MAX) as Hmax.
  { apply (isval_zext D 64); [lia |]. by apply isval_const. }
  pose proof (isval_icmp D IUGT 128 128 _ v _ c INT64_MAX Hv Hmax) as Hcmp. simpl in Hcmp.
  assert (val 64 (W cs s) (CreateSelect (CreateICmp IUGT v (CreateZExt Constant_gasMax 128)) Constant_gasMax
    (CreateTrunc v 64)) (Z.min c INT64_MAX)) as Hsel.
  { eapply isval_select; [exact Hcmp | done | unfold CreateTrunc; rewrite (isval_type _ _ _ _ _ Hv); simpl; by rewrite fold_type | |].
    - intros Hlt. apply Z.ltb_lt in Hlt. rewrite Z.min_r by lia. by apply isval_const.
    - intros Hlt. apply Z.ltb_ge in Hlt. rewrite Z.min_l by lia.
      eapply isval_trunc_small; [| lia | done]. unfold inw, INT64_MAX in *. lia. }
  assert (inv X gas0 gasPrice stk0 cs s r -> charge c r = charge (Z.min c INT64_MAX) r) as Heq.
  { intros Hi. pose proof (rr_range _ _ _ (inv_rest _ _ _ _ _ _ _ Hi)) as Hr. unfold charge, gets, mbind, M_bind.
    destruct (decide (c <= INT64_MAX)); [by rewrite Z.min_l by lia |]. rewrite Z.min_r by lia.
    unfold INT64_MAX in *.
    rewrite (proj2 (Z.leb_gt c (r_gas r))), (proj2 (Z.leb_gt (2 ^ 63 - 1) (r_gas r))) by lia.
    by rewrite !andb_false_r. }
  apply sim_inv. intros Hi Hi' tail. rewrite (Heq Hi).
  apply (sim_count_64 cs s r _ (Z.min c INT64_MAX) Hsel); [unfold INT64_MAX; lia | done].
Qed.

(** ** Memory *)

Lemma rest_rel_mem s r m :
  rest_rel X s r -> array_ok m ->
  rest_rel X (set_mem m s) (mkR (r_stack r) (r_gas r) (a_data m) (r_retbuf r) (r_host r)).
Proof. intros [] ?. by split. Qed.

Lemma array_ok_extend m n :
  array_ok m -> 0 <= n <= 2 ^ 34 -> n mod 32 = 0 -> a_size m <= n ->
  array_ok (mkArray (a_data m ++ replicate (Z.to_nat (n - a_size m)) 0) n n).
Proof.
  intros (Hs & Hc & Hb & Hm & Hl) Hn Hm32 Hle. split_and!; simpl; auto; try lia.
  - rewrite length_app, length_replicate. lia.
  - apply Forall_app; split; [done |]. by apply Forall_replicate_eq.
Qed.

Lemma array_ok_write m off bs :
  array_ok m -> bytes_ok bs -> 0 <= off -> off + Z.of_nat (length bs) <= a_size m ->
  mwrite (a_data m) off bs = Ok (splice (a_data m) (Z.to_nat off) bs)
  /\ array_ok (mkArray (splice (a_data m) (Z.to_nat off) bs) (a_size m) (a_cap m)).
Proof.
  intros (Hs & Hc & Hb & Hm & Hl) Hbs Ho Hle. split; [apply mwrite_in; lia |].
  split_and!; simpl; auto.
  - rewrite length_splice by lia. done.
  - by apply splice_ok.
Qed.

Lemma sim_require cs s r off size o n :
  val 128 (W cs s) off o -> val 128 (W cs s) size n ->
  sim cs s r (Memory.require off size) (expand X o n) (fun cs' s' _ _ => covers (W cs' s') o n).
Proof.
  intros Ho Hn. pose proof (isval_range _ _ _ _ _ Ho) as Hor. pose proof (isval_range _ _ _ _ _ Hn) as Hnr.
  assert (sim cs s r (emit (IMemRequire off size)) (expand X o n) (fun cs' s' _ _ => covers (W cs' s') o n)) as Hemit.
  { apply sim_emit; [done |]. intros Hr. pose proof Hr as [Hg Hgr Hm Hd _ _ _ _ _ _]. cbn [exec1].
    rewrite (use_val' 128 cs s off o), (use_val' 128 cs s size n) by done. cbn [mbind run_bind e_rev e_uninit env_of].
    rewrite Hg, getRequireFunc_spec by done. unfold expand.
    destruct (Z.eqb_spec n 0) as [-> |]; cbn [mbind run_bind].
    { exists (set_gas (r_gas r) (set_mem (s_mem s) s)). split_and!; try done; [| by left].
      destruct Hr. by split. }
    pose proof Hm as (Hs & _ & _ & Hm32 & Hml). unfold inw in *.
    set (req := roundup32 (Z.min o c_inputMax + Z.min n c_inputMax)).
    assert (0 <= Z.min o c_inputMax + Z.min n c_inputMax <= 2 ^ 34) as Hsum by (unfold c_inputMax; lia).
    destruct (roundup32_spec (Z.min o c_inputMax + Z.min n c_inputMax)) as [Hr32 Hrr]; [lia |]. fold req in Hr32, Hrr.
    unfold mbind at 1, M_bind at 1, gets. rewrite <- Hd, <- Hs.
    destruct (Z.leb_spec req (a_size (s_mem s))).
    { destruct ((o <=? c_inputMax) && (n <=? c_inputMax)) eqn:Hin; [| done]. cbn [mbind run_bind].
      apply andb_prop in Hin as [?%Z.leb_le ?%Z.leb_le].
      exists (set_gas (r_gas r) (set_mem (s_mem s) s)). split_and!; try done; [destruct Hr; by split |].
      right. simpl. lia. }
    destruct ((o <=? c_inputMax) && (n <=? c_inputMax)) eqn:Hin; [| done].
    apply andb_prop in Hin as [?%Z.leb_le ?%Z.leb_le]. cbv zeta.
    pose proof (memGas_mono (x_rev X) (a_size (s_mem s)) req ltac:(lia)) as Hmg.
    unfold charge, mbind, M_bind, gets. cbn [mbind run_bind].
    rewrite (proj2 (Z.leb_le 0 (memGas (x_rev X) req - memGas (x_rev X) (a_size (s_mem s))))) by lia. cbn [andb].
    destruct (Z.leb_spec (memGas (x_rev X) req - memGas (x_rev X) (a_size (s_mem s))) (r_gas r)) as [Hle | Hgt];
      cbn [mbind run_bind]; [| done].
    unfold set_rgas, set_rmem. cbn [r_stack r_gas r_mem r_retbuf r_host].
    eexists. split; [reflexivity |].
    assert (req <= 2 ^ 34).
    { pose proof (Z.div_mod req 32). assert (2 ^ 34 = 2 ^ 29 * 32) by lia. lia. }
    split_and!; try done; [simpl; lia | | right; simpl; lia].
    apply (rest_rel_gas _ (mkR (r_stack r) (r_gas r) _ (r_retbuf r) (r_host r))); [| lia].
    apply (rest_rel_mem s r (mkArray _ req req)); [done |].
    apply array_ok_extend; auto; lia. }
  unfold Memory.require. destruct size; try exact Hemit. cbn [dyn_const]. destruct z; try exact Hemit.
  pose proof (isval_eval _ _ _ _ _ Hn) as H1. simpl in H1. injection H1 as <-. apply sim_ret. by left.
Qed.

(** The bytes at a covered range are in the memory. *)
Lemma covers_read cs s r o n :
  rest_rel X s r -> covers (W cs s) o n -> inw 128 o -> inw 128 n ->
  mread (a_data (s_mem s)) (wrap 64 o) n = Ok (if n =? 0 then [] else take (Z.to_nat n) (drop (Z.to_nat o) (r_mem r))).
Proof.
  intros [_ _ (Hs & _ & _ & _ & ?) Hd _ _ _ _ _ _] [-> | (Hn & Hle)] [? ?] [? ?]; [done |].
  unfold mread. destruct (Z.eqb_spec n 0); [done |]. unfold c_inputMax in *. simpl in Hle.
  rewrite wrap_small by (unfold inw; lia). rewrite (proj2 (Z.leb_le _ _)) by lia. by rewrite Hd.
Qed.

Lemma covers_write cs s r o bs :
  rest_rel X s r -> covers (W cs s) o (Z.of_nat (length bs)) -> inw 128 o -> bytes_ok bs ->
  let data := if (length bs =? 0)%nat then r_mem r else splice (r_mem r) (Z.to_nat o) bs in
  mwrite (a_data (s_mem s)) (wrap 64 o) bs = Ok data
  /\ rest_rel X (set_mem (mkArray data (a_size (s_mem s)) (a_cap (s_mem s))) s)
       (mkR (r_stack r) (r_gas r) data (r_retbuf r) (r_host r)).
Proof.
  intros Hr Hc [? ?] Hb. pose proof Hr as [_ _ Hm Hd _ _ _ _ _ _]. cbv zeta.
  destruct (Nat.eqb_spec (length bs) 0) as [Hz |].
  - destruct bs; [| done]. unfold mwrite. simpl. rewrite Hd. split; [done |].
    rewrite <- Hd. destruct Hr. by split.
  - destruct Hc as [? | (Hn & Hle)]; [lia |]. pose proof Hm as (_ & _ & _ & _ & ?). simpl in Hle.
    rewrite wrap_small by (unfold inw; lia). rewrite <- Hd.
    destruct (array_ok_write (s_mem s) o bs) as [-> Ha]; auto; try lia. split; [done |].
    apply (rest_rel_mem s r (mkArray _ _ _)); auto.
Qed.

Lemma sim_mload cs s r addr o :
  val 128 (W cs s) addr o -> covers (W cs s) o 16 ->
  sim cs s r (emit_reg 128 (fun n => IMLoad n addr)) (mem_read o 16)
    (fun cs' s' v bs => val 128 (W cs' s') v (be_val bs)).
Proof.
  intros Ha Hc. pose proof (isval_range _ _ _ _ _ Ha) as Ho. eapply sim_conseq.
  - apply (sim_emit_reg X gas0 gasPrice uninit stk0 cs s r 128 _ (mem_read o 16) (fun z bs => z = be_val bs)); [done |].
    intros Hr. cbn [exec1]. rewrite (use_val' 128 cs s addr o) by done. cbn [mbind run_bind].
    unfold mem_read, gets, mbind, M_bind. cbn [mret M_ret]. unfold mloadFunc.
    rewrite (covers_read cs s r o 16) by done. cbn [mbind run_bind Z.eqb].
    set (bs := take (Z.to_nat 16) (drop (Z.to_nat o) (r_mem r))).
    assert (length bs = 16%nat /\ bytes_ok bs) as [Hl Hb].
    { pose proof Hr as [_ _ (Hs & _ & Hb & _) Hd _ _ _ _ _ _]. rewrite Hd in *. unfold bs.
      destruct Hc as [? | (? & Hle)]; [done |]. simpl in Hle. unfold inw in Ho.
      split; [rewrite length_take, length_drop; lia |]. by apply Forall_take, Forall_drop. }
    pose proof (Endianness.toNative_native_val bs Hb) as Ht. rewrite Hl in Ht. rewrite Ht.
    exists s, (be_val bs). split_and!; try done. pose proof (be_val_range bs Hb) as Hrange. by rewrite Hl in Hrange.
  - intros cs' s' v bs (z & Hv & ->). done.
Qed.

Lemma sim_mem_write cs s r i o bs :
  settled i = true -> covers (W cs s) o (Z.of_nat (length bs)) -> inw 128 o -> bytes_ok bs ->
  (forall data, mwrite (a_data (s_mem s)) (wrap 64 o) bs = Ok data ->
    exec1 E i s = Ok (set_mem (mkArray data (a_size (s_mem s)) (a_cap (s_mem s))) s)) ->
  sim cs s r (emit i) (mem_write o bs) nothing.
Proof.
  intros Hi Hc Ho Hb Hx. apply sim_emit; [done |]. intros Hr.
  destruct (covers_write cs s r o bs) as [Hw Hr']; auto. cbv zeta in *.
  unfold mem_write, gets, mbind, M_bind, set_rmem. rewrite (Hx _ Hw).
  eexists. split_and!; try done.
Qed.

Lemma sim_mstore cs s r addr v o z :
  val 128 (W cs s) addr o -> val 128 (W cs s) v z -> covers (W cs s) o 16 ->
  sim cs s r (emit (IMStore addr v)) (mem_write o (be_bytes 16 z)) nothing.
Proof.
  intros Ha Hv Hc. apply sim_mem_write; try done.
  - by eapply isval_range.
  - apply be_bytes_ok.
  - intros data Hw. cbn [exec1]. rewrite (use_val' 128 cs s addr o), (use_val' 128 cs s v z) by done.
    cbn [mbind run_bind]. unfold mstoreFunc. rewrite Endianness.native_bytes_toBE, Hw. done.
Qed.

Lemma sim_mstore8 cs s r addr v o z :
  val 128 (W cs s) addr o -> val 8 (W cs s) v z -> covers (W cs s) o 1 ->
  sim cs s r (emit (IMStore8 addr v)) (mem_write o [z]) nothing.
Proof.
  intros Ha Hv Hc. pose proof (isval_range _ _ _ _ _ Hv). apply sim_mem_write; try done.
  - by eapply isval_range.
  - apply Forall_singleton; done.
  - intros data Hw. cbn [exec1]. rewrite (use_val' 128 cs s addr o), (use_val' 8 cs s v z) by done.
    cbn [mbind run_bind]. unfold mstore8Func. by rewrite Hw.
Qed.

Lemma mem_small s r : rest_rel X s r -> 0 <= a_size (s_mem s) <= 2 ^ 34 /\ a_size (s_mem s) = Z.of_nat (length (r_mem r)).
Proof. intros [_ _ (Hs & _ & _ & _ & Hl) Hd _ _ _ _ _ _]. rewrite Hd in Hs. lia. Qed.

Lemma sim_getSize cs s r :
  sim cs s r Memory.getSize (mret tt) (yields 128 (Z.of_nat (length (r_mem r)))).
Proof.
  apply sim_inv. intros Hi. destruct (mem_small s r (inv_rest _ _ _ _ _ _ _ Hi)) as [Hm He].
  unfold Memory.getSize. eapply sim_bind_l; [| intros; apply keeps_ret; apply _ |].
  - apply (sim_read _ _ _ _ _ cs s r 64 IMemSize (a_size (s_mem s))); [done | unfold inw; lia | done].
  - intros cs' s' v _ Hv. apply sim_ret. rewrite <- He. apply (isval_zext D 64); [lia | done].
Qed.
End SimRuntime.
