(* ===== verification/SimCopy.v ===== *)
(** * Simulation of the copies to memory

    [Memory::copyBytes] and [Memory::copyBytesNoPadding] against the machine's
    copies, and [Ext::calldataload] against its padded read. *)
From S2P Require Import Prelude Bytes Instruction BasicBlocks LLVMInt Arith128 EvmAbi GasSchedule Keccak.
From S2P Require Import Runtime IR Builder Codegen Compiler Machine Denote Frames Heights Sim SimRuntime.

(** ** Byte strings *)

(** How many bytes of a padded read come from the data. *)
Definition copied (data : list Z) (i n : Z) : Z :=
  if Z.of_nat (length data) <=? i then 0 else Z.min n (Z.of_nat (length data) - i).

Lemma copied_range data i n : 0 <= i -> 0 <= n ->
  0 <= copied data i n <= n /\ (copied data i n <> 0 -> i + copied data i n <= Z.of_nat (length data)).
Proof. intros. unfold copied. destruct (Z.leb_spec (Z.of_nat (length data)) i); lia. Qed.

Lemma padded_split data i n : 0 <= i -> 0 <= n ->
  padded data i n = take (Z.to_nat (copied data i n)) (drop (Z.to_nat i) data)
                    ++ replicate (Z.to_nat (n - copied data i n)) 0.
Proof.
  intros Hi Hn. unfold padded, copied. destruct (Z.leb_spec (Z.of_nat (length data)) i) as [Hl | Hl].
  - by rewrite Z.sub_0_r.
  - destruct (decide (n <= Z.of_nat (length data) - i)).
    + rewrite Z.min_l by lia. rewrite Z.sub_diag. simpl. rewrite app_nil_r.
      by rewrite take_app_le by (rewrite length_drop; lia).
    + rewrite Z.min_r by lia. rewrite take_app_ge by (rewrite length_drop; lia).
      rewrite length_drop. rewrite (take_ge (drop (Z.to_nat i) data)) by (rewrite length_drop; lia).
      f_equal. rewrite take_replicate. f_equal. lia.
Qed.

Lemma length_padded data i n : 0 <= i -> 0 <= n -> length (padded data i n) = Z.to_nat n.
Proof.
  intros Hi Hn. rewrite padded_split by done. pose proof (copied_range data i n Hi Hn).
  rewrite length_app, length_replicate, length_take, length_drop. lia.
Qed.

Lemma padded_ok data i n : bytes_ok data -> 0 <= i -> 0 <= n -> bytes_ok (padded data i n).
Proof.
  intros Hd Hi Hn. rewrite padded_split by done. apply Forall_app; split.
  - by apply Forall_take, Forall_drop.
  - by apply Forall_replicate_eq.
Qed.

Lemma splice_app m off a b :
  (off <= length m)%nat -> splice (splice m off a) (off + length a) b = splice m off (a ++ b).
Proof.
  intros Ho. unfold splice. rewrite length_app.
  assert (length (take off m ++ a) = (off + length a)%nat) as Hl by (rewrite length_app, length_take; lia).
  rewrite !app_assoc. rewrite take_app_length' by lia.
  rewrite (drop_app_ge (take off m ++ a)) by lia. rewrite Hl, drop_drop.
  f_equal. f_equal. lia.
Qed.

Lemma mem_write_app {H} (r : rstate H) off a b :
  0 <= off -> length (a ++ b) = 0%nat \/ off <= Z.of_nat (length (r_mem r)) ->
  mem_write off (a ++ b) r = (_ ← mem_write off a; mem_write (off + Z.of_nat (length a)) b) r.
Proof.
  intros Ho Hl. unfold mem_write, mbind, M_bind, gets, set_rmem. simpl. rewrite length_app in *.
  destruct a as [| x a]; simpl; [by rewrite Z.add_0_r |].
  destruct b as [| y b]; simpl; [by rewrite app_nil_r |].
  change (x :: a ++ y :: b) with ((x :: a) ++ y :: b).
  rewrite <- splice_app by (simpl in Hl; lia).
  replace (Z.to_nat (off + Z.of_nat (S (length a)))) with (Z.to_nat off + length (x :: a))%nat by (simpl length; lia).
  done.
Qed.

Section SimCopy.
Context {H : Type} `{LLVMFolder} (X : Ctx H) (gas0 gasPrice uninit : Z) (HX : ctx_ok X) (stk0 : list Z).

Abbreviation D := (runtime_data X gas0 gasPrice).
Abbreviation E := (env_of X D uninit).
Abbreviation val := (isval D).
Abbreviation sim := (sim X gas0 gasPrice uninit stk0).
Abbreviation yields w z := (fun cs' s' v _ => val w (W cs' s') v z).
Abbreviation nothing := (fun _ _ _ _ => True).

(** The number of words a copy is charged for. *)
Lemma sim_words cs s r req n :
  val 64 (W cs s) req n -> n <= c_inputMax ->
  sim cs s r (CreateDiv (UDiv 64) (CreateNUWAdd req (getInt64 31)) (getInt64 32)) (mret tt)
    (yields 64 (words32 n)).
Proof.
  intros Hv Hn. pose proof (isval_range _ _ _ _ _ Hv) as [H1 _]. unfold c_inputMax in Hn.
  assert (0 <= words32 n <= n + 31)
    by (unfold words32; split; [apply Z.div_pos; lia | apply Z.div_le_upper_bound; lia]).
  apply (sim_div X gas0 gasPrice uninit stk0 cs s r (UDiv 64) 64 64 _ _ (n + 31) 32).
  - eapply isval_nuwadd; [unfold inw; lia | done | by apply isval_int64].
  - by apply isval_int64.
  - done.
  - unfold inw. simpl. lia.
Qed.

Lemma sim_countCopy cs s r words n :
  val 64 (W cs s) words n -> n <= 2 ^ 34 -> sim cs s r (GasMeter.countCopy words) (charge (3 * n)) nothing.
Proof.
  intros Hv Hn. pose proof (isval_range _ _ _ _ _ Hv) as [H1 _]. unfold GasMeter.countCopy.
  apply sim_count; [| lia]. rewrite Z.mul_comm.
  eapply isval_nuwmul; [unfold inw; lia | done | by apply isval_int64].
Qed.

Lemma covers_small w o n : covers w o n -> 0 <= n -> n <= c_inputMax.
Proof. unfold covers, c_inputMax. lia. Qed.

(** The copy itself: the bytes there are, then zeros. *)
Lemma sim_copy_emit cs s r src L dstIdx srcIdx cnt padIdx zeros i d n :
  source_bytes E s src = L -> (forall cs' s', wle (W cs s) (W cs' s') -> source_bytes E s' src = L) ->
  bytes_ok L -> Z.of_nat (length L) < 2 ^ 64 -> inw 128 i -> inw 128 d -> inw 128 n ->
  val 64 (W cs s) dstIdx (wrap 64 d) -> val 64 (W cs s) srcIdx (wrap 64 i) ->
  val 64 (W cs s) cnt (copied L i n) -> val 64 (W cs s) padIdx (wrap 64 d + copied L i n) ->
  val 64 (W cs s) zeros (n - copied L i n) -> covers (W cs s) d n ->
  sim cs s r (_ ← emit (IMemCpy src dstIdx srcIdx cnt); emit (IMemSet padIdx zeros))
    (mem_write d (padded L i n)) nothing.
Proof.
  intros Hsrc Hsrc' HL Hlen Hi Hd Hn Vd Vi Vc Vp Vz Hcov.
  assert (0 <= i) by apply Hi. assert (0 <= n) by apply Hn. assert (0 <= d) by apply Hd.
  pose proof (copied_range L i n ltac:(done) ltac:(done)) as [Hk1 Hk2].
  set (k := copied L i n) in *. set (bs := take (Z.to_nat k) (drop (Z.to_nat i) L)).
  assert (Z.of_nat (length bs) = k) as Hbs.
  { unfold bs. rewrite length_take, length_drop. destruct (decide (k = 0)); [lia |]. specialize (Hk2 ltac:(done)). lia. }
  assert (bytes_ok bs) by (unfold bs; by apply Forall_take, Forall_drop).
  assert (covers (W cs s) d k) as Hcovk by (unfold covers in *; lia).
  apply sim_inv. intros Hinv. pose proof (mem_small X s r (inv_rest _ _ _ _ _ _ _ Hinv)) as [Hm He].
  assert (n <> 0 -> d + n <= 2 ^ 34) as Hdn by (unfold covers in Hcov; simpl in Hcov; lia).
  assert (mem_write d (padded L i n) r = (_ ← mem_write d bs;
    mem_write (d + Z.of_nat (length bs)) (replicate (Z.to_nat (n - k)) 0)) r) as Heq.
  { rewrite padded_split by done. fold k. fold bs. apply mem_write_app; [done |].
    rewrite length_app, length_replicate. unfold covers in Hcov. simpl in Hcov. lia. }
  eapply sim_ext; [exact Heq |]. eapply sim_bind with (Q := nothing).
  - apply sim_mem_write; try done.
    { by rewrite Hbs. }
    intros data Hw. cbn [exec1]. rewrite (use_val' _ _ _ _ 64 cs s dstIdx (wrap 64 d)),
      (use_val' _ _ _ _ 64 cs s srcIdx (wrap 64 i)), (use_val' _ _ _ _ 64 cs s cnt k) by done.
    cbn [mbind run_bind]. rewrite Hsrc.
    assert (mread L (wrap 64 i) k = Ok bs) as ->; [| cbn [mbind run_bind]; by rewrite Hw].
    destruct (decide (k = 0)) as [Hz |].
    { unfold mread. rewrite Hz. unfold bs. by rewrite Hz. }
    specialize (Hk2 ltac:(done)). rewrite wrap_small by (unfold inw; lia). apply mread_in; lia.
  - intros. mono_rest.
  - intros cs' s' r' [] [] Hle _. advance Hle.
    destruct (decide (n - k = 0)) as [Hz |].
    + rewrite Hz. apply sim_mem_write; simpl; try done; [by left | |].
      { unfold inw, covers, c_inputMax in *. lia. }
      intros data Hw. cbn [exec1]. rewrite (use_val' _ _ _ _ 64 cs' s' padIdx (wrap 64 d + k)),
        (use_val' _ _ _ _ 64 cs' s' zeros (n - k)) by done. cbn [mbind run_bind].
      rewrite Hz. simpl. unfold mwrite in *. simpl in *. by injection Hw as <-.
    + assert (covers (W cs' s') (d + k) (n - k)) as Hcov2 by (unfold covers, c_inputMax in *; lia).
      assert (wrap 64 d = d) as Hd64 by (apply wrap_small; unfold inw; lia).
      rewrite Hbs. apply sim_mem_write; try done.
      * by rewrite length_replicate, Z2Nat.id by lia.
      * unfold inw, covers, c_inputMax in *. lia.
      * by apply Forall_replicate_eq.
      * intros data Hw. cbn [exec1]. rewrite (use_val' _ _ _ _ 64 cs' s' padIdx (wrap 64 d + k)),
          (use_val' _ _ _ _ 64 cs' s' zeros (n - k)) by done. cbn [mbind run_bind].
        rewrite Hd64. rewrite wrap_small in Hw by (unfold inw; lia). by rewrite Hw.
Qed.

(** The number of bytes [copyBytes] takes from the source. *)
Lemma isval_copied w L srcSize srcIdx req i n :
  Z.of_nat (length L) < 2 ^ 64 -> n < 2 ^ 64 ->
  val 128 w srcSize (Z.of_nat (length L)) -> val 128 w srcIdx i -> val 64 w req n ->
  val 64 w (CreateSelect (CreateICmp IUGE srcIdx srcSize) (getInt64 0)
    (CreateSelect (CreateICmp IUGT req (CreateNUWSub (CreateTrunc srcSize 64) (CreateTrunc srcIdx 64)))
      (CreateNUWSub (CreateTrunc srcSize 64) (CreateTrunc srcIdx 64)) req)) (copied L i n).
Proof.
  intros HL Hn Vs Vi Vr. pose proof (isval_range _ _ _ _ _ Vi) as [Hi _].
  pose proof (isval_range _ _ _ _ _ Vr) as [Hn0 _]. unfold copied.
  eapply isval_select; [eapply (isval_icmp D IUGE 128); eauto | done | typ | |]; cbn [icmp]; intros Hc; rewrite Hc.
  - by apply isval_int64.
  - apply Z.leb_gt in Hc.
    assert (val 64 w (CreateNUWSub (CreateTrunc srcSize 64) (CreateTrunc srcIdx 64)) (Z.of_nat (length L) - i)) as Vd.
    { eapply isval_nuwsub; [unfold inw; lia | |]; (eapply isval_trunc_small; [unfold inw; lia | lia | done]). }
    eapply isval_select; [eapply (isval_icmp D IUGT 64); eauto | typ | typ | |]; cbn [icmp]; intros Hc2.
    + apply Z.ltb_lt in Hc2. by rewrite Z.min_r by lia.
    + apply Z.ltb_ge in Hc2. by rewrite Z.min_l by lia.
Qed.

Lemma sim_copyBytes cs s r src L srcSize srcIdx dest req i d n :
  (forall cs' s', wle (W cs s) (W cs' s') -> source_bytes E s' src = L) ->
  bytes_ok L -> Z.of_nat (length L) < 2 ^ 64 ->
  val 128 (W cs s) srcSize (Z.of_nat (length L)) -> val 128 (W cs s) srcIdx i ->
  val 128 (W cs s) dest d -> val 128 (W cs s) req n ->
  sim cs s r (Memory.copyBytes src srcSize srcIdx dest req)
    (copy_padded X L d i n) nothing.
Proof.
  intros Hsrc HL Hlen Vs Vi Vd Vr. unfold Memory.copyBytes.
  pose proof (isval_range _ _ _ _ _ Vi) as Hi. pose proof (isval_range _ _ _ _ _ Vd) as Hd.
  pose proof (isval_range _ _ _ _ _ Vr) as Hn.
  eapply sim_bind; [eapply sim_require; eauto | mono_rest |].
  intros cs1 s1 r1 [] [] Hle1 Hc. advance Hle1.
  pose proof (covers_small _ _ _ Hc ltac:(apply Hn)) as Hns. cbv zeta.
  assert (n < 2 ^ 64) as Hn64 by (unfold c_inputMax in *; lia).
  assert (val 64 (W cs1 s1) (CreateTrunc req 64) n) as Vr64
    by (eapply isval_trunc_small; [unfold inw in *; lia | lia | done]).
  eapply sim_bind_l; [by apply sim_words | mono_rest |].
  intros cs2 s2 words Hle2 Vw. advance Hle2.
  eapply sim_bind; [apply sim_countCopy; [done |] | mono_rest |].
  { unfold words32, c_inputMax in *. apply Z.div_le_upper_bound; lia. }
  intros cs3 s3 r3 [] [] Hle3 _. advance Hle3.
  pose proof (isval_copied _ L _ _ _ i n Hlen Hn64 Vs Vi Vr64) as Vk.
  pose proof (copied_range L i n ltac:(apply Hi) ltac:(apply Hn)) as [Hk _].
  assert (val 64 (W cs3 s3) (CreateTrunc dest 64) (wrap 64 d)) as Vd64 by (eapply isval_trunc; [lia | done]).
  apply sim_inv. intros Hinv. pose proof (mem_small X s3 r3 (inv_rest _ _ _ _ _ _ _ Hinv)) as [Hm _].
  assert (wle (W cs s) (W cs3 s3)) as Hle by (etrans; [done |]; by etrans).
  eapply sim_copy_emit; eauto.
  - intros cs' s' Hle'. eapply Hsrc. by etrans.
  - eapply isval_trunc; [lia | done].
  - eapply isval_nuwadd; [| done | done]. unfold covers in Hc. simpl in Hc.
    pose proof (wrap_inw 64 d ltac:(lia)) as [Hw1 Hw2].
    destruct (decide (n = 0)); [unfold inw; lia |]. rewrite wrap_small by (unfold inw in *; lia). unfold inw in *. lia.
  - eapply isval_nuwsub; [unfold inw in *; lia | done | done].
Qed.

(** A copy from the return buffer. *)
Lemma sim_copyBytesNoPadding cs s r srcSize srcIdx dest req i d n :
  val 64 (W cs s) srcSize (Z.of_nat (length (r_retbuf r))) -> val 128 (W cs s) srcIdx i ->
  val 128 (W cs s) dest d -> val 128 (W cs s) req n ->
  sim cs s r (Memory.copyBytesNoPadding SrcReturnBuf srcSize srcIdx dest req)
    (copy_returned X d i n) nothing.
Proof.
  intros Vs Vi Vd Vr. unfold Memory.copyBytesNoPadding.
  pose proof (isval_range _ _ _ _ _ Vi) as Hi. pose proof (isval_range _ _ _ _ _ Vd) as Hd.
  pose proof (isval_range _ _ _ _ _ Vr) as Hn. pose proof (isval_range _ _ _ _ _ Vs) as Hs.
  apply sim_inv. intros Hinv. set (b := r_retbuf r) in *.
  eapply sim_bind; [eapply sim_keeps_buf; [| eapply sim_require; eauto] | mono_rest |].
  { unfold Memory.require. destruct (dyn_const req) as [[| |] |]; by repeat constructor. }
  intros cs1 s1 r1 [] [] Hle1 (Hc & Hb1 & Hb1'). advance Hle1.
  pose proof (covers_small _ _ _ Hc ltac:(apply Hn)) as Hns. cbv zeta.
  apply sim_inv. intros Hinv1. apply sim_gets.
  rewrite (inv_retbuf X gas0 gasPrice stk0 cs s r cs1 s1 r1) by done. fold b.
  destruct (Z.leb_spec (i + n) (Z.of_nat (length b))) as [Hin | Hout]; [| by intros _ tail].
  unfold inw in *. assert (n < 2 ^ 64) as Hn64 by lia.
  assert (val 64 (W cs1 s1) (CreateTrunc req 64) n) as Vr64
    by (eapply isval_trunc_small; [unfold inw; lia | lia | done]).
  eapply sim_bind_l; [eapply sim_keeps_buf; [| by apply sim_words] | mono_rest |].
  { unfold CreateDiv. destruct (fold _); by repeat constructor. }
  intros cs2 s2 words Hle2 (Vw & Hb2 & Hb2'). advance Hle2.
  assert (val 64 (W cs2 s2) (CreateSelect
    (CreateOr (CreateICmp IULT (CreateAdd srcIdx req) req)
       (CreateICmp IUGT (CreateAdd srcIdx req) (CreateZExt srcSize 128)))
    (getInt64 INT64_MAX) words) (words32 n)) as Vcost.
  { assert (val 128 (W cs2 s2) (CreateAdd srcIdx req) (i + n)) as Va.
    { eapply isval_eq; [eapply isval_add; [lia | done | done] |]. apply wrap_small. unfold inw. lia. }
    assert (val 128 (W cs2 s2) (CreateZExt srcSize 128) (Z.of_nat (length b))) as Vz
      by (eapply (isval_zext D 64); [lia | done]).
    eapply (isval_select D 64 _ _ _ _ false); [| typ | typ | done | done].
    eapply isval_eq; [eapply (isval_or D 1); [lia | |]; eapply (isval_icmp D _ 128); eauto |]. cbn [icmp].
    rewrite (proj2 (Z.ltb_ge (i + n) n)), (proj2 (Z.ltb_ge (Z.of_nat (length b)) (i + n))) by lia. done. }
  eapply sim_bind; [eapply sim_keeps_buf; [| apply sim_countCopy; [exact Vcost |]] | mono_rest |].
  { unfold GasMeter.countCopy, GasMeter.count. by repeat constructor. }
  { unfold words32, c_inputMax in *. apply Z.div_le_upper_bound; lia. }
  intros cs3 s3 r3 [] [] Hle3 (_ & Hb3 & Hb3'). advance Hle3.
  apply sim_inv. intros Hinv3. set (bs := take (Z.to_nat n) (drop (Z.to_nat i) b)).
  assert (r_retbuf r3 = b) as Hb by (eapply (inv_retbuf _ _ _ _ cs s r); eauto; congruence).
  pose proof (inv_rest _ _ _ _ _ _ _ Hinv3) as Hr3.
  assert (Z.of_nat (length bs) = n) as Hbl by (unfold bs; rewrite length_take, length_drop; lia).
  apply sim_mem_write; try done.
  - by rewrite Hbl.
  - apply Forall_take, Forall_drop. rewrite <- Hb, <- (rr_retbuf _ _ _ Hr3). apply Forall_take.
    by apply (rr_retbytes _ _ _ Hr3).
  - intros data Hw. cbn [exec1].
    assert (val 64 (W cs3 s3) (CreateTrunc dest 64) (wrap 64 d)) as Vd64 by (eapply isval_trunc; [lia | done]).
    assert (val 64 (W cs3 s3) (CreateTrunc srcIdx 64) i) as Vi64
      by (eapply isval_trunc_small; [unfold inw; lia | lia | done]).
    rewrite (use_val' _ _ _ _ 64 cs3 s3 (CreateTrunc dest 64) (wrap 64 d)),
      (use_val' _ _ _ _ 64 cs3 s3 (CreateTrunc srcIdx 64) i),
      (use_val' _ _ _ _ 64 cs3 s3 (CreateTrunc req 64) n) by done.
    cbn [mbind run_bind source_bytes].
    assert (mread (s_retdata s3) i n = Ok bs) as ->; [| cbn [mbind run_bind]; by rewrite Hw].
    pose proof (rr_retsize _ _ _ Hr3). pose proof (rr_retbuf _ _ _ Hr3) as Hrb. rewrite Hb in Hrb.
    assert (Z.of_nat (length b) = s_retsize s3) by (rewrite <- Hrb, length_take; lia).
    rewrite mread_in by lia. f_equal. unfold bs. rewrite <- Hrb. rewrite !take_drop_commute, take_take. do 2 f_equal. lia.
Qed.
End SimCopy.
