(* ===== verification/SimHost.v ===== *)
(** * Simulation of the host operations

    The operations of [Ext] and the accessors of [RuntimeManager] against the
    machine's use of the message and the host. *)
From S2P Require Import Prelude Bytes Instruction BasicBlocks LLVMInt Arith128 EvmAbi GasSchedule Keccak.
From S2P Require Import Runtime IR Builder Codegen Compiler Machine Denote Frames Heights Sim SimRuntime.
From S2P Require Import SimCopy.

Section SimHost.
Context {H : Type} `{LLVMFolder} (X : Ctx H) (gas0 gasPrice uninit : Z) (HX : ctx_ok X) (stk0 : list Z).

Abbreviation D := (runtime_data X gas0 gasPrice).
Abbreviation E := (env_of X D uninit).
Abbreviation T := (x_host X).
Abbreviation me := (address (x_msg X)).
Abbreviation val := (isval D).
Abbreviation sim := (sim X gas0 gasPrice uninit stk0).
Abbreviation yields w z := (fun cs' s' v _ => val w (W cs' s') v z).
Abbreviation nothing := (fun _ _ _ _ => True).

(** ** Byte arrays as integers *)

Lemma native_range n l : bytes_of_len n l -> inw (8 * Z.of_nat n) (Endianness.native_val l).
Proof. intros [<- Hb]. by apply le_val_range. Qed.

Lemma isval_native n wd w v l :
  wd = 8 * Z.of_nat n -> bytes_of_len n l -> val wd w v (Endianness.native_val l) ->
  val wd w (toNative v) (be_val l).
Proof.
  intros Hw [Hl Hb] Hv. eapply isval_eq; [eapply (isval_bswap D n); done |].
  rewrite <- Hl. by apply Endianness.toNative_native_val.
Qed.

Lemma native_bytes_val n l : bytes_of_len n l -> Endianness.native_bytes n (Endianness.native_val l) = l.
Proof. intros [<- Hb]. by apply le_bytes_le_val. Qed.

(** An address or a word on its way to the host. *)
Lemma isval_be n wd w v z :
  wd = 8 * Z.of_nat n -> val wd w v z -> val wd w (toBE v) (Endianness.toBE n z).
Proof. intros. by apply (isval_bswap D n). Qed.

Lemma isval_address w v z : val 256 w v z -> val 256 w (toBE (CreateTrunc v 256)) (Endianness.toBE 32 z).
Proof.
  intros Hv. apply (isval_be 32); [done |].
  eapply isval_trunc_small; [by eapply isval_range | lia | done].
Qed.

Lemma isval_me w : val 256 w Ext.myAddr (Endianness.native_val me).
Proof.
  pose proof (ok_address _ (ok_msg _ HX)) as Ha. pose proof (native_range 32 me Ha) as Hr.
  assert (val 256 w (toNative RuntimeManager.getAddress) (be_val me)) as Hv.
  { eapply (isval_native 32); [done | done |]. by apply (isval_data D Address w). }
  apply isval_address in Hv. eapply isval_eq; [exact Hv |].
  destruct Ha as [Hl Hb]. rewrite <- Hl, <- Endianness.toNative_native_val by done.
  unfold Endianness.toBE, Endianness.toNative, Endianness.bswapIfLE. simpl.
  apply bswap_involutive. by apply le_val_range.
Qed.

Lemma bytes_me : Endianness.native_bytes 32 (Endianness.native_val me) = me.
Proof. apply native_bytes_val, (ok_address _ (ok_msg _ HX)). Qed.

(** ** The message *)

Lemma isval_callDataSize w : val 128 w RuntimeManager.getCallDataSize (Z.of_nat (length (input (x_msg X)))).
Proof.
  pose proof (ok_input _ (ok_msg _ HX)) as [_ Hl]. apply (isval_zext D 64); [lia |].
  apply (isval_data D CallDataSize w). unfold inw. simpl. lia.
Qed.

Lemma isval_address_word w : val 256 w (toNative RuntimeManager.getAddress) (be_val me).
Proof.
  pose proof (ok_address _ (ok_msg _ HX)) as Ha. eapply (isval_native 32); [done | done |].
  apply (isval_data D Address w). by apply (native_range 32).
Qed.

Lemma isval_caller_word w : val 256 w (toNative RuntimeManager.getCaller) (be_val (caller (x_msg X))).
Proof.
  pose proof (ok_caller _ (ok_msg _ HX)) as Ha. eapply (isval_native 32); [done | done |].
  apply (isval_data D Caller w). by apply (native_range 32).
Qed.

Lemma isval_value_word w : val 128 w (toNative RuntimeManager.getValue) (be_val (EvmAbi.value (x_msg X))).
Proof.
  pose proof (ok_value _ (ok_msg _ HX)) as Ha. eapply (isval_native 16); [done | done |].
  apply (isval_data D Value w). by apply (native_range 16).
Qed.

Lemma isval_codeSize w :
  val 128 w (RuntimeManager.getCodeSize (length (x_code X))) (Z.of_nat (length (x_code X))).
Proof. pose proof (ok_code_len _ HX). apply isval_word. unfold inw. lia. Qed.

Lemma sim_calldataload cs s r idx i :
  val 128 (W cs s) idx i ->
  sim cs s r (Ext.calldataload idx) (mret tt) (yields 128 (be_val (padded (input (x_msg X)) i 16))).
Proof.
  intros Vi. pose proof (isval_range _ _ _ _ _ Vi) as [Hi _]. pose proof (isval_callDataSize (W cs s)) as Vs.
  pose proof (ok_input _ (ok_msg _ HX)) as [Hb Hl]. set (L := input (x_msg X)) in *.
  set (len := Z.of_nat (length L)) in *.
  assert (val 64 (W cs s) (CreateTrunc RuntimeManager.getCallDataSize 64) len) as Vs64
    by (eapply isval_trunc_small; [unfold inw; lia | lia | done]).
  assert (val 64 (W cs s) (CreateTrunc (CreateSelect (CreateICmp IULT idx RuntimeManager.getCallDataSize) idx
    RuntimeManager.getCallDataSize) 64) (Z.min i len)) as Vidx.
  { eapply isval_trunc_small; [unfold inw; lia | lia |].
    eapply isval_select; [eapply (isval_icmp D IULT 128); eauto | typ | unfold RuntimeManager.getCallDataSize; typ | |];
      cbn [icmp]; intros Hc; [apply Z.ltb_lt in Hc; by rewrite Z.min_l by lia | apply Z.ltb_ge in Hc; by rewrite Z.min_r by lia]. }
  unfold Ext.calldataload. cbv zeta.
  set (vidx := CreateTrunc (CreateSelect _ _ _) 64) in *.
  assert (val 64 (W cs s) (CreateNUWAdd vidx (getInt64 16)) (Z.min i len + 16)) as Vend
    by (eapply isval_nuwadd; [unfold inw; lia | done | by apply isval_int64]).
  set (vend := CreateSelect _ _ _).
  assert (val 64 (W cs s) vend (Z.min (Z.min i len + 16) len)) as Vend'.
  { eapply isval_select; [eapply (isval_icmp D IULE 64); eauto | typ | typ | |]; cbn [icmp]; intros Hc;
      [apply Z.leb_le in Hc; by rewrite Z.min_l by lia | apply Z.leb_gt in Hc; by rewrite Z.min_r by lia]. }
  assert (Z.min (Z.min i len + 16) len - Z.min i len = copied L i 16) as Hk.
  { unfold copied. fold len. destruct (Z.leb_spec len i); lia. }
  pose proof (copied_range L i 16 Hi ltac:(lia)) as [Hk1 Hk2].
  assert (val 64 (W cs s) (CreateNUWSub vend vidx) (copied L i 16)) as Vk
    by (rewrite <- Hk in *; eapply isval_nuwsub; [unfold inw; lia | done | done]).
  assert (val 64 (W cs s) (CreateNUWSub (getInt64 16) (CreateNUWSub vend vidx)) (16 - copied L i 16)) as Vp
    by (eapply isval_nuwsub; [unfold inw; lia | by apply isval_int64 | done]).
  assert (bytes_of_len 16 (padded L i 16)) as Hpad
    by (split; [by rewrite length_padded by lia | apply padded_ok; auto; lia]).
  eapply sim_bind_l; [| mono_rest |].
  - apply (sim_read _ _ _ _ _ cs s r 128 _ (Endianness.native_val (padded L i 16))); [done | by apply (native_range 16) |].
    intros _. cbn [exec1]. rewrite (use_val' _ _ _ _ 64 cs s vidx (Z.min i len)),
      (use_val' _ _ _ _ 64 cs s (CreateNUWSub vend vidx) (copied L i 16)),
      (use_val' _ _ _ _ 64 cs s (CreateNUWSub (getInt64 16) (CreateNUWSub vend vidx)) (16 - copied L i 16)) by done.
    cbn [mbind run_bind e_data env_of d_callData runtime_data]. fold L.
    assert (mread L (Z.min i len) (copied L i 16) = Ok (take (Z.to_nat (copied L i 16)) (drop (Z.to_nat i) L))) as ->.
    { destruct (decide (copied L i 16 = 0)) as [Hz |]; [unfold mread; by rewrite Hz |].
      specialize (Hk2 ltac:(done)). unfold len in *. rewrite Z.min_l by lia. apply mread_in; lia. }
    cbn [mbind run_bind]. replace (copied L i 16 + (16 - copied L i 16)) with 16 by lia. simpl.
    by rewrite <- padded_split by lia.
  - intros cs' s' v Hle Hv. apply sim_ret. by apply (isval_native 16).
Qed.

(** ** Reading the host *)

Lemma sim_sload cs s r key k :
  val 128 (W cs s) key k ->
  sim cs s r (Ext.sload key) (mret tt) (yields 128 (be_val (get_storage T (r_host r) me (be_bytes 16 k)))).
Proof.
  intros Vk. apply (isval_be 16) in Vk; [| done]. pose proof (isval_me (W cs s)) as Vm.
  pose proof (ok_storage _ (ok_host _ HX) (r_host r) me (be_bytes 16 k)) as Hs.
  eapply sim_bind_l; [| mono_rest |].
  - eapply (sim_read _ _ _ _ _ cs s r 128); [done | by apply (native_range 16) |].
    intros Hr. cbn [exec1]. rewrite (use_val' _ _ _ _ 256 cs s Ext.myAddr _ Vm), (use_val' _ _ _ _ 128 cs s _ _ Vk).
    cbn [mbind run_bind e_host env_of]. rewrite bytes_me, Endianness.native_bytes_toBE, (rr_host _ _ _ Hr). done.
  - intros cs' s' v Hle Hv. apply sim_ret. by apply (isval_native 16).
Qed.

Lemma sim_balance cs s r addr a :
  val 256 (W cs s) addr a ->
  sim cs s r (Ext.balance addr) (mret tt) (yields 128 (be_val (get_balance T (r_host r) (be_bytes 32 a)))).
Proof.
  intros Va. apply isval_address in Va. pose proof (ok_balance _ (ok_host _ HX) (r_host r) (be_bytes 32 a)) as Hs.
  eapply sim_bind_l; [| mono_rest |].
  - eapply (sim_read _ _ _ _ _ cs s r 128); [done | by apply (native_range 16) |].
    intros Hr. cbn [exec1]. rewrite (use_val' _ _ _ _ 256 cs s _ _ Va).
    cbn [mbind run_bind e_host env_of]. by rewrite Endianness.native_bytes_toBE, (rr_host _ _ _ Hr).
  - intros cs' s' v Hle Hv. apply sim_ret. by apply (isval_native 16).
Qed.

Lemma sim_exists cs s r addr a :
  val 256 (W cs s) addr a ->
  sim cs s r (Ext.exists_ addr) (mret tt) (yields 1 (account_exists T (r_host r) (be_bytes 32 a))).
Proof.
  intros Va. apply isval_address in Va. pose proof (ok_exists _ (ok_host _ HX) (r_host r) (be_bytes 32 a)) as Hs.
  eapply sim_bind_l; [| mono_rest |].
  - eapply (sim_read _ _ _ _ _ cs s r 32); [done | |].
    2: { intros Hr. cbn [exec1]. rewrite (use_val' _ _ _ _ 256 cs s _ _ Va). cbn [mbind run_bind e_host env_of].
         rewrite Endianness.native_bytes_toBE, (rr_host _ _ _ Hr). reflexivity. }
    unfold inw. lia.
  - intros cs' s' v Hle Hv. apply sim_ret. eapply isval_trunc_small; [unfold inw; lia | lia | exact Hv].
Qed.

Lemma sim_extcodesize cs s r addr a :
  val 256 (W cs s) addr a ->
  sim cs s r (Ext.extcodesize addr) (mret tt)
    (yields 128 (Z.of_nat (length (get_code T (r_host r) (be_bytes 32 a))))).
Proof.
  intros Va. apply isval_address in Va. pose proof (ok_code _ (ok_host _ HX) (r_host r) (be_bytes 32 a)) as [_ Hs].
  eapply sim_bind_l; [| mono_rest |].
  - eapply (sim_read _ _ _ _ _ cs s r 64); [done | |].
    2: { intros Hr. cbn [exec1]. rewrite (use_val' _ _ _ _ 256 cs s _ _ Va). cbn [mbind run_bind e_host env_of].
         rewrite Endianness.native_bytes_toBE, (rr_host _ _ _ Hr). reflexivity. }
    unfold inw. lia.
  - intros cs' s' v Hle Hv. apply sim_ret. eapply (isval_zext D 64); [lia | done].
Qed.

(** The code fetched stays where it is. *)
Lemma sim_extcode cs s r addr a :
  val 256 (W cs s) addr a ->
  let L := get_code T (r_host r) (be_bytes 32 a) in
  sim cs s r (Ext.extcode addr) (mret tt)
    (fun cs' s' v _ => val 128 (W cs' s') v.2 (Z.of_nat (length L))
       /\ forall cs'' s'', wle (W cs' s') (W cs'' s'') -> source_bytes E s'' v.1 = L).
Proof.
  intros Va L. apply isval_address in Va. pose proof (ok_code _ (ok_host _ HX) (r_host r) (be_bytes 32 a)) as [_ Hs].
  fold L in Hs. intros Hinv tail. pose proof (inv_rest _ _ _ _ _ _ _ Hinv) as Hr.
  unfold Ext.extcode, fresh, emit, mbind, C_bind, mret, C_ret. cbn [fst snd app].
  rewrite exec_log_emit by done. cbn [exec1]. rewrite (use_val' _ _ _ _ 256 cs s _ _ Va).
  cbn [mbind run_bind e_host env_of]. rewrite Endianness.native_bytes_toBE, (rr_host _ _ _ Hr). fold L.
  set (s1 := set_extcode (c_next cs) L s).
  assert (wle (W cs s) (W (set_next (S (c_next cs)) cs) (set_reg (c_next cs) (Some (Z.of_nat (length L))) s1))) as Hle.
  { apply wle_fresh; [done | simpl; lia |]. intros k Hk. simpl. destruct (Nat.eqb_spec k (c_next cs)); [lia | done]. }
  eexists. split_and!; [reflexivity | | done | |].
  - eapply inv_step; eauto; [by split_and! |]. destruct Hr. by split.
  - apply (isval_zext D 64); [lia |]. eapply isval_reg; [done | | unfold inw; lia]. simpl. by rewrite Nat.eqb_refl.
  - intros cs'' s'' (_ & _ & _ & Hc). simpl in *. rewrite Hc by lia. by rewrite Nat.eqb_refl.
Qed.

Lemma sim_blockHash cs s r number n :
  val 128 (W cs s) number n ->
  sim cs s r (Ext.blockHash number) (mret tt)
    (yields 256 (be_val (get_block_hash T (r_host r) (sgn 64 (wrap 64 n))))).
Proof.
  intros Vn. apply (isval_trunc D 128 64) in Vn; [| lia].
  pose proof (ok_hash _ (ok_host _ HX) (r_host r) (sgn 64 (wrap 64 n))) as Hs.
  eapply sim_bind_l; [| mono_rest |].
  - eapply (sim_read _ _ _ _ _ cs s r 256); [done | by apply (native_range 32) |].
    intros Hr. cbn [exec1]. rewrite (use_val' _ _ _ _ 64 cs s _ _ Vn).
    cbn [mbind run_bind e_host env_of]. by rewrite (rr_host _ _ _ Hr).
  - intros cs' s' v Hle Hv. apply sim_ret. by apply (isval_native 32).
Qed.

(** The item of the transaction context as a number of its width. *)
Definition tx_item (c : evm_tx_context) (i : nat) : Z := default 0 (txctx_item c i).

Lemma sim_getTxContextItem cs s r i :
  (i <= 6)%nat -> sim cs s r (RuntimeManager.getTxContextItem i) (mret tt)
    (yields (RuntimeManager.txctx_width i) (tx_item (get_tx_context T (r_host r)) i)).
Proof.
  intros Hi. set (c := get_tx_context T (r_host r)).
  pose proof (ok_tx _ (ok_host _ HX) (r_host r)) as (H1 & H2 & H3 & H4 & H5 & H6 & H7). fold c in H1, H2, H3, H4, H5, H6, H7.
  assert (exists z, txctx_item c i = Some z /\ inw (RuntimeManager.txctx_width i) z) as (z & Hz & Hw).
  { do 7 (destruct i as [| i]; [eexists; split; [reflexivity |]; done || by apply (native_range 16) || by apply (native_range 32) |]). lia. }
  unfold tx_item. rewrite Hz. simpl. eapply sim_conseq.
  - apply (sim_emit_reg X gas0 gasPrice uninit stk0 cs s r _ _ (mret tt) (fun z' _ => z' = z)); [done |].
    intros Hr. simpl. exists (set_txctx (Some c) s), z.
    assert (loadTxCtx E s = c) as ->.
    { unfold loadTxCtx. simpl. rewrite (rr_host _ _ _ Hr). destruct (s_txctx s) as [c' |] eqn:Hc; [| done].
      rewrite (rr_tx _ _ _ Hr c') by done. by rewrite (rr_host _ _ _ Hr). }
    rewrite Hz. split_and!; try done. pose proof (rr_host _ _ _ Hr) as Hh. destruct Hr. split; try done.
    simpl. intros c' [= <-]. unfold c. by rewrite Hh.
  - intros cs' s' v b (z' & Hv & ->). done.
Qed.

Lemma sim_returnBufSize cs s r :
  sim cs s r (emit_reg 64 IReturnBufSize) (mret tt) (yields 64 (Z.of_nat (length (r_retbuf r)))).
Proof.
  apply sim_inv. intros Hi. pose proof (inv_rest _ _ _ _ _ _ _ Hi) as Hr.
  pose proof (rr_retsize _ _ _ Hr). pose proof (rr_retlen _ _ _ Hr).
  assert (s_retsize s = Z.of_nat (length (r_retbuf r))) as He
    by (rewrite <- (rr_retbuf _ _ _ Hr), length_take; lia).
  rewrite <- He. apply sim_read; [done | unfold inw; lia | done].
Qed.

Lemma sim_getGas cs s r : sim cs s r RuntimeManager.getGas (mret tt) (yields 64 (r_gas r)).
Proof.
  apply sim_inv. intros Hi. pose proof (rr_range _ _ _ (inv_rest _ _ _ _ _ _ _ Hi)).
  apply sim_read; [done | unfold inw; lia |]. intros Hr. cbn [exec1]. by rewrite (rr_gas _ _ _ Hr).
Qed.

Lemma sim_setGas cs s r v g :
  val 64 (W cs s) v g -> g < 2 ^ 63 - 1 -> sim cs s r (RuntimeManager.setGas v) (set_rgas g) nothing.
Proof.
  intros Hv Hg. pose proof (isval_range _ _ _ _ _ Hv) as [H1 _]. apply sim_emit; [done |]. intros Hr.
  cbn [exec1]. rewrite (use_val' _ _ _ _ 64 cs s _ _ Hv). simpl.
  eexists. split_and!; try done. by apply rest_rel_gas.
Qed.

(** ** Changing the host *)

Lemma rest_rel_host s r h :
  rest_rel X s r -> rest_rel X (set_host h s) (mkR (r_stack r) (r_gas r) (r_mem r) (r_retbuf r) h).
Proof.
  intros []. split; try done. simpl. intros c Hc. rewrite (rr_tx c Hc). apply (ok_tx_const _ (ok_host _ HX)).
Qed.

Lemma sim_sstore cs s r key v k z :
  val 128 (W cs s) key k -> val 128 (W cs s) v z ->
  sim cs s r (Ext.sstore key v) (set_rhost (set_storage T (r_host r) me (be_bytes 16 k) (be_bytes 16 z))) nothing.
Proof.
  intros Vk Vz. apply (isval_be 16) in Vk, Vz; try done. pose proof (isval_me (W cs s)) as Vm.
  apply sim_emit; [done |]. intros Hr. cbn [exec1].
  rewrite (use_val' _ _ _ _ 256 cs s Ext.myAddr _ Vm), (use_val' _ _ _ _ 128 cs s _ _ Vk), (use_val' _ _ _ _ 128 cs s _ _ Vz).
  cbn [mbind run_bind e_host env_of]. rewrite bytes_me, !Endianness.native_bytes_toBE, (rr_host _ _ _ Hr).
  simpl. eexists. split_and!; try done. by apply rest_rel_host.
Qed.

Lemma sim_selfdestruct cs s r addr a :
  val 256 (W cs s) addr a ->
  sim cs s r (Ext.selfdestruct addr) (set_rhost (selfdestruct T (r_host r) me (be_bytes 32 a))) nothing.
Proof.
  intros Va. apply isval_address in Va. pose proof (isval_me (W cs s)) as Vm.
  apply sim_emit; [done |]. intros Hr. cbn [exec1].
  rewrite (use_val' _ _ _ _ 256 cs s Ext.myAddr _ Vm), (use_val' _ _ _ _ 256 cs s _ _ Va).
  cbn [mbind run_bind e_host env_of]. rewrite bytes_me, !Endianness.native_bytes_toBE, (rr_host _ _ _ Hr).
  simpl. eexists. split_and!; try done. by apply rest_rel_host.
Qed.

(** Reading a covered range of memory does not change the machine. *)
Lemma mem_read_ok (r : rstate H) o n :
  mem_read o n r = Ok (if n =? 0 then [] else take (Z.to_nat n) (drop (Z.to_nat o) (r_mem r)), r).
Proof. done. Qed.

Lemma isval_size cs (s : rt H) size n :
  val 128 (W cs s) size n -> forall o, covers (W cs s) o n -> val 64 (W cs s) (CreateTrunc size 64) n.
Proof.
  intros Vn o Hc. pose proof (isval_range _ _ _ _ _ Vn) as [H1 _].
  pose proof (covers_small _ _ _ Hc H1). unfold c_inputMax in *.
  eapply isval_trunc_small; [unfold inw; lia | lia | done].
Qed.

Lemma keccak_len bs : bytes_of_len 32 (keccak bs).
Proof. destruct (keccak_bytes bs). by split. Qed.

Lemma sim_sha3 cs s r off size o n :
  val 128 (W cs s) off o -> val 128 (W cs s) size n -> covers (W cs s) o n ->
  sim cs s r (Ext.sha3 off size) (mem_read o n) (fun cs' s' v bs => val 256 (W cs' s') v (be_val (keccak bs))).
Proof.
  intros Vo Vn Hc. pose proof (isval_size _ _ _ _ Vn o Hc) as Vn64.
  pose proof (isval_range _ _ _ _ _ Vo). pose proof (isval_range _ _ _ _ _ Vn).
  set (bs := if n =? 0 then [] else take (Z.to_nat n) (drop (Z.to_nat o) (r_mem r))).
  eapply sim_ext with (m' := mret bs); [done |].
  eapply sim_bind_l; [| mono_rest |].
  - eapply (sim_read _ _ _ _ _ cs s r 256 _ (Endianness.native_val (keccak bs))); [done | apply (native_range 32), keccak_len |].
    intros Hr. cbn [exec1]. rewrite (use_val' _ _ _ _ 128 cs s off _ Vo), (use_val' _ _ _ _ 64 cs s _ _ Vn64).
    cbn [mbind run_bind]. by rewrite (covers_read X cs s r o n) by done.
  - intros cs' s' v Hle Hv. apply sim_ret. apply (isval_native 32); [done | apply keccak_len | done].
Qed.

Lemma uses_vals cs s vs zs : Forall2 (val 128 (W cs s)) vs zs ->
  uses E s (map toBE vs) = Ok (map (Endianness.toBE 16) zs).
Proof.
  induction 1 as [| v z vs zs Hv _ IH]; [done |]. cbn [map uses].
  apply (isval_be 16) in Hv; [| done]. rewrite (use_val' _ _ _ _ 128 cs s _ _ Hv). cbn [mbind run_bind]. by rewrite IH.
Qed.

Lemma sim_log cs s r off size topics o n ts :
  val 128 (W cs s) off o -> val 128 (W cs s) size n -> covers (W cs s) o n -> Forall2 (val 128 (W cs s)) topics ts ->
  sim cs s r (Ext.log off size topics)
    (log_data X o n ts) nothing.
Proof.
  intros Vo Vn Hc Vt. pose proof (isval_size _ _ _ _ Vn o Hc) as Vn64. pose proof (isval_me (W cs s)) as Vm.
  pose proof (isval_range _ _ _ _ _ Vo). pose proof (isval_range _ _ _ _ _ Vn).
  apply sim_emit; [done |]. intros Hr. cbn [exec1].
  rewrite (use_val' _ _ _ _ 256 cs s Ext.myAddr _ Vm), (use_val' _ _ _ _ 128 cs s off _ Vo),
    (use_val' _ _ _ _ 64 cs s _ _ Vn64). cbn [mbind run_bind]. rewrite (uses_vals _ _ _ _ Vt). cbn [mbind run_bind].
  rewrite (covers_read X cs s r o n) by done. cbn [mbind run_bind e_host env_of].
  rewrite bytes_me, (rr_host _ _ _ Hr), map_map.
  assert (map (fun x => Endianness.native_bytes 16 (Endianness.toBE 16 x)) ts = map (be_bytes 16) ts) as ->
    by (apply map_ext; intros; apply Endianness.native_bytes_toBE).
  simpl. eexists. split_and!; try done. by apply rest_rel_host.
Qed.

(** The data a RETURN or REVERT leaves. *)
Definition returned (s : rt H) (out : list Z) : Prop :=
  exists o n, s_ret s = Some (o, n) /\ 0 <= n
    /\ out = (if n =? 0 then [] else take (Z.to_nat n) (drop (Z.to_nat o) (a_data (s_mem s))))
    /\ (n <> 0 -> 0 <= o /\ o + n <= a_size (s_mem s)).

Lemma sim_registerReturnData cs s r off size o n :
  val 128 (W cs s) off o -> val 128 (W cs s) size n -> covers (W cs s) o n ->
  sim cs s r (RuntimeManager.registerReturnData off size) (mem_read o n)
    (fun cs' s' _ out => returned s' out).
Proof.
  intros Vo Vn Hc. pose proof (isval_size _ _ _ _ Vn o Hc) as Vn64.
  pose proof (isval_range _ _ _ _ _ Vo) as [? ?]. pose proof (isval_range _ _ _ _ _ Vn) as [? ?].
  apply sim_emit; [done |]. intros Hr. cbn [exec1].
  rewrite (use_val' _ _ _ _ 128 cs s off _ Vo), (use_val' _ _ _ _ 64 cs s _ _ Vn64).
  cbn [mbind run_bind]. rewrite mem_read_ok. pose proof (mem_small X s r Hr) as [Hm _].
  eexists. split_and!; try done; [destruct Hr; by split |].
  exists (wrap 64 o), n. simpl. rewrite (rr_data _ _ _ Hr). split_and!; try done.
  - destruct (Z.eqb_spec n 0); [done |]. unfold covers in Hc. simpl in Hc. by rewrite wrap_small by (unfold inw; lia).
  - intros. unfold covers in Hc. simpl in Hc. rewrite wrap_small by (unfold inw; lia). lia.
Qed.
End SimHost.
