(* ===== verification/SimCall.v ===== *)
(** * Simulation of calls

    The call wrapper of [Ext] with [call_v2], and [Ext::call] and [Ext::create],
    against the machine's [send]. *)
From S2P Require Import Prelude Bytes Instruction BasicBlocks LLVMInt Arith128 EvmAbi GasSchedule Keccak.
From S2P Require Import Runtime IR Builder Codegen Compiler Machine Denote Frames Heights Sim SimRuntime.
From S2P Require Import SimCopy SimHost.

(** ** The failure bit *)

Lemma lor_sign g : 0 <= g < 2 ^ 63 -> Z.lor g EVM_CALL_FAILURE = g + 2 ^ 63.
Proof.
  intros Hg. rewrite Z.lor_comm.
  change (2 ^ 63) with (Z.shiftl 1 63) at 1. rewrite lor_shiftl_add by lia. lia.
Qed.

(** What the emitted code gets back: the gas left, with the sign bit on failure. *)
Definition call_code (success : bool) (gas : Z) : Z := if success then gas else gas + 2 ^ 63.

Lemma sgn_call_code b g : 0 <= g < 2 ^ 63 -> (0 <=? sgn 64 (call_code b g)) = b.
Proof.
  intros Hg. unfold call_code, sgn. simpl. destruct b.
  - rewrite (proj2 (Z.ltb_lt _ _)) by lia. apply Z.leb_le. lia.
  - rewrite (proj2 (Z.ltb_ge _ _)) by lia. apply Z.leb_gt. lia.
Qed.

Section SimCall.
Context {H : Type} `{LLVMFolder} (X : Ctx H) (gas0 gasPrice uninit : Z) (HX : ctx_ok X) (stk0 : list Z).

Abbreviation D := (runtime_data X gas0 gasPrice).
Abbreviation E := (env_of X D uninit).
Abbreviation T := (x_host X).
Abbreviation me := (address (x_msg X)).
Abbreviation val := (isval D).
Abbreviation sim := (sim X gas0 gasPrice uninit stk0).
Abbreviation yields w z := (fun cs' s' v _ => val w (W cs' s') v z).
Abbreviation nothing := (fun _ _ _ _ => True).

(** ** The wrapper *)

(** The instructions that send a message, and the kind they pass. *)
Definition sends (inst : Instruction) : bool :=
  match inst with CALL | CALLCODE | DELEGATECALL | STATICCALL | CREATE => true | _ => false end.
Definition kind_num (inst : Instruction) : Z := match inst with CREATE => K_CREATE | _ => call_kind inst end.

Lemma call_message_child h inst g addr v input :
  sends inst = true -> 0 <= g < 2 ^ 63 ->
  call_message (x_hash X) (x_current X h) (kind_num inst) g addr (be_bytes 16 v) input
  = child_message X h inst g addr v input.
Proof.
  intros Hs Hg. assert (sgn 64 g = g) as Hsg by (apply sgn_small; simpl; lia).
  unfold call_message, child_message. rewrite Hsg. destruct inst; try discriminate Hs; done.
Qed.

Lemma native_word_zero v : inw 128 v -> (Endianness.native_val (be_bytes 16 v) =? 0) = (v =? 0).
Proof.
  intros Hv. pose proof (Endianness.toNative_native_val (be_bytes 16 v) (be_bytes_ok 16 v)) as Ht.
  rewrite length_be_bytes, be_val_be_bytes in Ht. fold (wrap (8 * Z.of_nat 16) v) in Ht.
  rewrite wrap_small in Ht by done.
  destruct (Z.eqb_spec v 0) as [-> | Hne]; [done |]. apply Z.eqb_neq. intros Hz. rewrite Hz in Ht.
  change (Endianness.toNative 16 0) with 0 in Ht. lia.
Qed.

(** Whether depth and balance rule the call out. *)
Definition refused (inst : Instruction) (h : H) (v : Z) : bool :=
  (1024 <=? depth (x_msg X))
  || (negb (bool_decide (inst = DELEGATECALL)) && negb (v =? 0) && (be_val (get_balance T h me) <? v)).

Lemma getCallFunc_spec inst h g addr v input outSize :
  sends inst = true -> inw 128 v -> 0 <= g < 2 ^ 63 ->
  let msg := child_message X h inst g addr v input in
  let res := (host_call T h msg).1 in
  let ok := bool_decide (status_code res = EVM_SUCCESS) in
  getCallFunc T (x_hash X) (x_current X h) h (kind_num inst) g addr (be_bytes 16 v) input outSize me
    (wrap 64 (depth (x_msg X)))
  = if refused inst h v then (call_code false g, [], None, h)
    else (call_code ok (gas_left res),
          if bool_decide (inst = CREATE) && ok then take 32 (output res)
          else take (Z.to_nat outSize) (output res), Some (output res), (host_call T h msg).2).
Proof.
  intros Hs Hv Hg msg res ok. unfold getCallFunc, refused.
  pose proof (ok_depth _ (ok_msg _ HX)) as Hd. rewrite wrap_small by (unfold inw; lia). cbn [icmp].
  rewrite !sgn_small by (simpl; lia). rewrite native_word_zero by done.
  assert (Endianness.toNative 16 (Endianness.native_val (be_bytes 16 v)) = v) as ->.
  { pose proof (Endianness.toNative_native_val (be_bytes 16 v) (be_bytes_ok 16 v)) as Ht.
    rewrite length_be_bytes, be_val_be_bytes in Ht. rewrite Ht. by apply wrap_small. }
  destruct (ok_balance _ (ok_host _ HX) h me) as [Hbl Hbb].
  assert (Endianness.toNative 16 (Endianness.native_val (get_balance T h me)) = be_val (get_balance T h me)) as ->
    by (rewrite <- Hbl; by apply Endianness.toNative_native_val).
  assert (negb (kind_num inst =? K_DELEGATECALL) = negb (bool_decide (inst = DELEGATECALL))) as ->
    by (destruct inst; try discriminate Hs; done).
  assert ((let '(r, out, buf, h') := call_v2 T (x_hash X) (x_current X h) h (kind_num inst) g addr (be_bytes 16 v) input outSize
           in (r, out, Some buf, h'))
    = (call_code ok (gas_left res),
          if bool_decide (inst = CREATE) && ok then take 32 (output res)
          else take (Z.to_nat outSize) (output res), Some (output res), (host_call T h msg).2)) as Hcall.
  { unfold call_v2. rewrite call_message_child by done. fold msg. unfold ok, res.
    pose proof (ok_call_gas _ (ok_host _ HX) h msg ltac:(simpl; lia)) as Hgl. simpl in Hgl.
    destruct (host_call T h msg) as [rs h']. simpl in *.
    assert (wrap 64 (gas_left rs) = gas_left rs) as -> by (apply wrap_small; unfold inw; lia).
    assert ((kind_num inst =? K_CREATE) = bool_decide (inst = CREATE)) as ->
      by (destruct inst; try discriminate Hs; done).
    rewrite lor_sign by lia. unfold call_code.
    assert (take (Nat.min (Z.to_nat outSize) (length (output rs))) (output rs) = take (Z.to_nat outSize) (output rs)) as ->.
    { destruct (decide (Z.to_nat outSize <= length (output rs))%nat); [by rewrite Nat.min_l by lia |].
      rewrite Nat.min_r by lia. rewrite !take_ge by lia. done. }
    done. }
  rewrite Hcall, lor_sign by lia.
  destruct (Z.ltb_spec (depth (x_msg X)) 1024), (Z.leb_spec 1024 (depth (x_msg X))); try lia; cbn [orb]; [| done].
  destruct (negb (bool_decide (inst = DELEGATECALL)) && negb (v =? 0)); cbn [andb]; [| done].
  destruct (Z.leb_spec v (be_val (get_balance T h me))), (Z.ltb_spec (be_val (get_balance T h me)) v); try lia; done.
Qed.

(** ** Sending *)

(** A register defined after the return buffer is reset. *)
Lemma sim_reset_reg cs s r {B} (m : M B) i (P : Z -> B -> Prop) :
  (forall n, settled (i n) = true) ->
  (rest_rel X s r ->
   match m r with
   | Undef => True
   | Abort => False
   | Ok (b, r') => exists s' z, exec1 E (i (c_next cs)) (set_retbuf (s_retdata s) 0 s)
         = Ok (set_reg (c_next cs) (Some z) s')
       /\ s_regs s' = s_regs s /\ s_sp s' = s_sp s /\ s_stack s' = s_stack s
       /\ a_size (s_mem s) <= a_size (s_mem s') /\ s_extcode s' = s_extcode s /\ r_stack r' = r_stack r
       /\ rest_rel X s' r' /\ inw 64 z /\ P z b
   end) ->
  sim cs s r (_ ← RuntimeManager.resetReturnBuf; emit_reg 64 i) m
    (fun cs' s' v b => exists z, val 64 (W cs' s') v z /\ P z b).
Proof.
  intros Hi Hx Hinv tail. unfold RuntimeManager.resetReturnBuf, emit_reg, fresh, emit, mbind, C_bind, mret, C_ret.
  cbn [fst snd app]. change [EEmit IResetReturnBuf; EEmit (i (c_next cs))]
    with ([EEmit IResetReturnBuf] ++ [EEmit (i (c_next cs))]).
  rewrite exec_log_app, exec_log_emit by done. cbn [exec1 mbind run_bind]. rewrite exec_log_emit by done.
  specialize (Hx (inv_rest _ _ _ _ _ _ _ Hinv)). destruct (m r) as [[b r'] | |]; [| done | done].
  destruct Hx as (s' & z & He & Hr & Hsp & Hst & Hm & Hc & Hrs & Hrr & Hw & HP).
  assert (wle (W cs s) (W (set_next (S (c_next cs)) cs) (set_reg (c_next cs) (Some z) s'))) as Hle
    by (apply wle_fresh; auto; by rewrite Hc).
  exists (set_reg (c_next cs) (Some z) s'). split_and!; auto.
  - eapply inv_step; eauto; [by split_and! | by apply rest_rel_set_reg].
  - exists z. split; [| done]. eapply isval_reg; [reflexivity | | done]. simpl. by rewrite Nat.eqb_refl.
Qed.

(** The machine's state after a refused call and after one that was sent. *)
Lemma rest_rel_reset s r :
  rest_rel X s r ->
  rest_rel X (set_retbuf (s_retdata s) 0 s) (mkR (r_stack r) (r_gas r) (r_mem r) [] (r_host r)).
Proof. intros []. split; try done. simpl. lia. Qed.

Lemma rest_rel_retbuf s r b :
  rest_rel X s r -> bytes_ok b -> Z.of_nat (length b) < 2 ^ 64 ->
  rest_rel X (set_retbuf b (Z.of_nat (length b)) s) (mkR (r_stack r) (r_gas r) (r_mem r) b (r_host r)).
Proof.
  intros [] Hb Hl. split; try done; simpl; [lia |]. rewrite Nat2Z.id. by apply take_ge.
Qed.

Lemma isval_depth w : val 64 w RuntimeManager.getDepth (wrap 64 (depth (x_msg X))).
Proof. apply (isval_data D Depth w). by apply wrap_inw. Qed.

Lemma covers_take w o n (l : list Z) : 0 <= n -> covers w o n -> covers w o (Z.of_nat (length (take (Z.to_nat n) l))).
Proof. unfold covers, c_inputMax. rewrite length_take. lia. Qed.

Lemma bind_mem_read {B} o n (k : list Z -> M B) (r : rstate H) :
  (mem_read o n ≫= k) r = k (if n =? 0 then [] else take (Z.to_nat n) (drop (Z.to_nat o) (r_mem r))) r.
Proof. done. Qed.
Lemma bind_gets {A B} (f : rstate H -> A) (k : A -> M B) (r : rstate H) : (gets f ≫= k) r = k (f r) r.
Proof. done. Qed.

Lemma send_unfold inst msg v (r : rstate H) :
  send X inst msg v r =
    if refused inst (r_host r) v then Ok (None, mkR (r_stack r) (r_gas r) (r_mem r) [] (r_host r))
    else Ok (Some (host_call T (r_host r) msg).1,
             mkR (r_stack r) (r_gas r) (r_mem r) (output (host_call T (r_host r) msg).1) (host_call T (r_host r) msg).2).
Proof.
  unfold send, gets, mbind, M_bind. fold (refused inst (r_host r) v).
  destruct (refused inst (r_host r) v); [done |]. by destruct (host_call T (r_host r) msg).
Qed.

Lemma sim_call cs s r inst gas addr v inOff inSize outOff outSize g a z io isz oo osz :
  sends inst = true -> inst <> CREATE ->
  val 64 (W cs s) gas g -> g < 2 ^ 63 -> val 256 (W cs s) addr a -> val 128 (W cs s) v z ->
  val 128 (W cs s) inOff io -> val 128 (W cs s) inSize isz -> covers (W cs s) io isz ->
  val 128 (W cs s) outOff oo -> val 128 (W cs s) outSize osz -> covers (W cs s) oo osz ->
  sim cs s r (Ext.call (call_kind inst) gas addr v inOff inSize outOff outSize)
    (do_call X inst g (be_bytes 32 a) z io isz oo osz)
    (fun cs' s' c res => val 64 (W cs' s') c (call_code (succeeded res) (gas_back res g))
       /\ 0 <= gas_back res g <= g).
Proof.
  intros Hs Hnc Vg Hg Va Vz Vio Visz Hin Voo Vosz Hout.
  pose proof (isval_range _ _ _ _ _ Vg) as [Hg0 _]. pose proof (isval_range _ _ _ _ _ Vz) as Hz.
  pose proof (isval_range _ _ _ _ _ Vio) as Hio. pose proof (isval_range _ _ _ _ _ Visz) as Hisz.
  pose proof (isval_range _ _ _ _ _ Voo) as Hoo. pose proof (isval_range _ _ _ _ _ Vosz) as [Hosz _].
  pose proof (isval_size _ _ _ _ _ _ _ Visz io Hin) as Visz64. pose proof (isval_size _ _ _ _ _ _ _ Vosz oo Hout) as Vosz64.
  apply (isval_be X gas0 gasPrice 16) in Vz; [| done]. apply isval_address in Va.
  assert (val 64 (W cs s) (CreateTrunc gas 64) g) as Vg64
    by (eapply isval_trunc_small; [unfold inw; lia | lia | done]).
  eapply sim_conseq.
  - unfold Ext.call. cbv zeta. eapply (sim_reset_reg cs s r _ _ (fun c res =>
      c = call_code (succeeded res) (gas_back res g) /\ 0 <= gas_back res g <= g)); [done |].
    intros Hr. cbn [exec1].
    pose proof (isval_me X gas0 gasPrice HX (W cs s)) as Vm. pose proof (isval_depth (W cs s)) as Vd.
    change (use E (set_retbuf (s_retdata s) 0 s)) with (use E s).
    rewrite (use_val' _ _ _ _ 64 cs s _ _ Vg64), (use_val' _ _ _ _ 256 cs s _ _ Va), (use_val' _ _ _ _ 128 cs s _ _ Vz),
      (use_val' _ _ _ _ 128 cs s _ _ Vio), (use_val' _ _ _ _ 64 cs s _ _ Visz64), (use_val' _ _ _ _ 128 cs s _ _ Voo),
      (use_val' _ _ _ _ 64 cs s _ _ Vosz64), (use_val' _ _ _ _ 256 cs s _ _ Vm), (use_val' _ _ _ _ 64 cs s _ _ Vd).
    cbn [mbind run_bind]. set (s1 := set_retbuf (s_retdata s) 0 s).
    change (s_mem s1) with (s_mem s). rewrite (covers_read X cs s r io isz) by done.
    set (input := if isz =? 0 then [] else _). cbn [mbind run_bind e_host e_uninit_hash e_current env_of].
    rewrite !Endianness.native_bytes_toBE, (bytes_me X HX). change (s_host s1) with (s_host s). rewrite (rr_host _ _ _ Hr).
    replace (call_kind inst) with (kind_num inst) by (by destruct inst).
    rewrite getCallFunc_spec by done. cbv zeta. unfold do_call. rewrite bind_mem_read, bind_gets. fold input.
    set (msg := child_message X (r_host r) inst g (be_bytes 32 a) z input). unfold mbind at 1, M_bind at 1. rewrite send_unfold.
    destruct (refused inst (r_host r) z).
    + cbn [mbind run_bind]. unfold mwrite. simpl. eexists _, _. split; [reflexivity |].
      pose proof (rest_rel_reset s r Hr) as Hr1. split_and!; try done; try (simpl; lia).
      * apply (rest_rel_host X HX _ _ (r_host r)) in Hr1. destruct Hr1. by split.
      * unfold inw, call_code. lia.
    + set (res := (host_call T (r_host r) msg).1).
      rewrite (bool_decide_eq_false_2 (inst = CREATE)) by done. cbn [andb].
      pose proof (ok_call_gas _ (ok_host _ HX) (r_host r) msg ltac:(simpl; lia)) as Hgl.
      destruct (ok_call_out _ (ok_host _ HX) (r_host r) msg) as [Hob Hol]. fold res in Hgl, Hob, Hol. simpl in Hgl.
      destruct (covers_write X cs s r oo (take (Z.to_nat osz) (output res))) as [Hw Hr1]; auto.
      { apply covers_take; [lia | done]. }
      { by apply Forall_take. }
      rewrite Hw. cbn [mbind run_bind]. unfold mem_write, gets, mbind, M_bind, set_rmem. cbn [r_mem].
      eexists _, _. split; [reflexivity |]. cbv zeta in Hr1.
      split_and!; try done; try (simpl; lia).
      * apply (rest_rel_host X HX _ _ (host_call T (r_host r) msg).2) in Hr1.
        apply (rest_rel_retbuf _ _ (output res)) in Hr1; [| done | done]. destruct Hr1. by split.
      * unfold inw, call_code. case_bool_decide; lia.
  - intros cs' s' c res (c' & Hc & -> & Hrange). done.
Qed.

(** Two registers defined by the last instruction of a create. *)
Lemma sim_create cs s r gas v inOff inSize g z io isz :
  val 64 (W cs s) gas g -> g < 2 ^ 63 -> val 128 (W cs s) v z ->
  val 128 (W cs s) inOff io -> val 128 (W cs s) inSize isz -> covers (W cs s) io isz ->
  sim cs s r (Ext.create gas v inOff inSize) (do_create X g z io isz)
    (fun cs' s' c res => val 64 (W cs' s') c.1 (call_code (succeeded res) (gas_back res g))
       /\ 0 <= gas_back res g <= g /\ typeof c.2 = 256
       /\ forall rs, res = Some rs -> status_code rs = EVM_SUCCESS ->
            val 256 (W cs' s') c.2 (Endianness.native_val (take 32 (output rs)))
            /\ bytes_of_len 32 (take 32 (output rs))).
Proof.
  intros Vg Hg Vz Vio Visz Hin Hinv tail.
  pose proof (isval_range _ _ _ _ _ Vg) as [Hg0 _]. pose proof (isval_range _ _ _ _ _ Vz) as Hz.
  pose proof (isval_range _ _ _ _ _ Vio) as Hio. pose proof (isval_range _ _ _ _ _ Visz) as Hisz.
  pose proof (isval_size _ _ _ _ _ _ _ Visz io Hin) as Visz64.
  apply (isval_be X gas0 gasPrice 16) in Vz; [| done].
  pose proof (isval_me X gas0 gasPrice HX (W cs s)) as Vm. pose proof (isval_depth (W cs s)) as Vd.
  pose proof (inv_rest _ _ _ _ _ _ _ Hinv) as Hr.
  unfold Ext.create, RuntimeManager.resetReturnBuf, fresh, emit, mbind, C_bind, mret, C_ret. cbn [fst snd app c_next set_next].
  set (i := ICreate _ _ _ _ _ _ _ _). change [EEmit IResetReturnBuf; EEmit i] with ([EEmit IResetReturnBuf] ++ [EEmit i]).
  rewrite exec_log_app, exec_log_emit by done. cbn [exec1 mbind run_bind]. rewrite exec_log_emit by done.
  unfold i. cbn [exec1]. change (use E (set_retbuf (s_retdata s) 0 s)) with (use E s).
  rewrite (use_val' _ _ _ _ 64 cs s _ _ Vg), (use_val' _ _ _ _ 128 cs s _ _ Vz),
    (use_val' _ _ _ _ 128 cs s _ _ Vio), (use_val' _ _ _ _ 64 cs s _ _ Visz64),
    (use_val' _ _ _ _ 256 cs s _ _ Vm), (use_val' _ _ _ _ 64 cs s _ _ Vd).
  cbn [mbind run_bind]. set (s1 := set_retbuf (s_retdata s) 0 s).
  change (s_mem s1) with (s_mem s). rewrite (covers_read X cs s r io isz) by done.
  set (input := if isz =? 0 then [] else _). cbn [mbind run_bind e_host e_uninit_hash e_current e_undef_addr env_of].
  rewrite !Endianness.native_bytes_toBE, (bytes_me X HX). change (s_host s1) with (s_host s). rewrite (rr_host _ _ _ Hr).
  rewrite (getCallFunc_spec CREATE) by done. cbv zeta. unfold do_create. rewrite bind_mem_read, bind_gets. fold input.
  set (msg := child_message X (r_host r) CREATE g (x_addr X) z input). rewrite send_unfold.
  set (n := c_next cs). set (cs2 := set_next (S (S n)) (set_next (S n) cs)).
  assert (forall s2 r2 a b, rest_rel X s2 r2 -> s_regs s2 = s_regs s -> s_sp s2 = s_sp s -> s_stack s2 = s_stack s ->
    s_mem s2 = s_mem s -> s_extcode s2 = s_extcode s -> r_stack r2 = r_stack r ->
    let s3 := set_reg (S n) b (set_reg n a s2) in
    inv X gas0 gasPrice stk0 cs2 s3 r2 /\ wle (W cs s) (W cs2 s3)) as Hstep.
  { intros s2 r2 a b H7 H1 H2 H3 H4 H5 H6 s3.
    assert (wle (W cs s) (W cs2 s3)) as Hle.
    { split_and!; simpl; [lia | | rewrite H4; lia | by rewrite H5].
      intros k Hk. destruct (Nat.eqb_spec k (S n)), (Nat.eqb_spec k n); try lia. by rewrite H1. }
    split; [| done]. eapply inv_step; eauto; [by split_and! | by do 2 apply rest_rel_set_reg]. }
  assert (forall (s2 : rt H) a b, inw 64 a -> val 64 (W cs2 (set_reg (S n) b (set_reg n (Some a) s2))) (VReg 64 n) a) as Vr.
  { intros s2 a b Ha. split_and!; [done | | done]. intros ρ Hρ. simpl. rewrite Hρ by (simpl; lia). simpl.
    rewrite Nat.eqb_refl. by destruct (Nat.eqb_spec n (S n)); [lia |]. }
  destruct (refused CREATE (r_host r) z).
  - cbn [mbind run_bind]. pose proof (rest_rel_reset s r Hr) as Hr1.
    eapply (rest_rel_host X HX _ _ (r_host r)) in Hr1.
    destruct (Hstep _ _ (Some (call_code false g)) None Hr1 eq_refl eq_refl eq_refl eq_refl eq_refl eq_refl) as [Hi Hle].
    eexists. split; [reflexivity |]. split_and!; try done.
    apply Vr. unfold inw, call_code. simpl. lia.
  - set (res := (host_call T (r_host r) msg).1).
    rewrite (bool_decide_eq_true_2 (CREATE = CREATE)) by done. cbn [andb].
    pose proof (ok_call_gas _ (ok_host _ HX) (r_host r) msg ltac:(simpl; lia)) as Hgl.
    destruct (ok_call_out _ (ok_host _ HX) (r_host r) msg) as [Hob Hol].
    pose proof (ok_call_create _ (ok_host _ HX) (r_host r) msg eq_refl) as Hcr.
    fold res in Hgl, Hob, Hol, Hcr. simpl in Hgl. pose proof Hr as Hr1.
    eapply (rest_rel_host X HX _ _ (host_call T (r_host r) msg).2) in Hr1.
    eapply (rest_rel_retbuf _ _ (output res)) in Hr1; [| done | done].
    set (ok := bool_decide (status_code res = EVM_SUCCESS)).
    set (out := if ok then take 32 (output res) else take (Z.to_nat 32) (output res)).
    edestruct (Hstep _ _ (Some (call_code ok (gas_left res)))
      (if (length out =? 32)%nat then Some (Endianness.native_val out) else None)
      Hr1 eq_refl eq_refl eq_refl eq_refl eq_refl eq_refl) as [Hi Hle].
    eexists. split; [reflexivity |]. split; [exact Hi |]. split; [exact Hle |].
    split_and!; try done; try (simpl; lia).
    + apply Vr. unfold inw, call_code. change (succeeded (Some res)) with ok. simpl. destruct ok; lia.
    + intros rs [= <-] Hok. fold res in Hok. specialize (Hcr Hok).
      assert (bytes_of_len 32 (take 32 (output res))) as Hlen
        by (split; [rewrite length_take; lia | by apply Forall_take]).
      split; [| exact Hlen]. assert (ok = true) as Hokt by (by apply bool_decide_eq_true_2).
      assert (out = take 32 (output res)) as Hout by (unfold out; by rewrite Hokt). rewrite Hout, (proj1 Hlen).
      eapply isval_reg; [done | | by apply (native_range 32)]. simpl. by rewrite Nat.eqb_refl.
Qed.
End SimCall.
