(* ===== verification/SimArith.v ===== *)
(** * Simulation of the word instructions

    Arithmetic, comparisons and bit operations: the code each case of
    [Compiler::compileBasicBlock] emits computes what the machine specifies. *)
From S2P Require Import Prelude Bytes Instruction LLVMInt Arith128 EvmAbi GasSchedule Runtime IR Builder.
From S2P Require Import Codegen Compiler Machine Denote Frames Heights Sim SimStack SimRuntime.

Section SimArith.
Context {H : Type} `{LLVMFolder} (X : Ctx H) (gas0 gasPrice uninit : Z) (HX : ctx_ok X) (stk0 : list Z).

Abbreviation D := (runtime_data X gas0 gasPrice).
Abbreviation E := (env_of X D uninit).
Abbreviation val := (isval D).
Abbreviation sim := (sim X gas0 gasPrice uninit stk0).
Abbreviation nothing := (fun _ _ _ _ => True).

(** The instruction went on to the next one. *)
Definition goes_on : cstate -> rt H -> unit -> ctl -> Prop := fun _ _ _ c => c = Next.

(** The push an instruction ends with. *)
Lemma sim_push_next cs s r v z : val 128 (W cs s) v z -> sim cs s r (LocalStack.push v) (_ ← rpush z; mret Next) goes_on.
Proof.
  intros Hv. eapply (sim_map _ _ _ _ _ _ _ _ _ _ (fun _ => Next)); [by apply sim_push | done].
Qed.

Lemma sim_binary cs s r (f : value -> value -> value) (g : Z -> Z -> Z) :
  (forall w a b x y, val 128 w a x -> val 128 w b y -> val 128 w (f a b) (g x y)) ->
  sim cs s r (a ← LocalStack.pop; b ← LocalStack.pop; LocalStack.push (f a b)) (binary g) goes_on.
Proof.
  intros Hf. unfold binary. sim_step sim_pop as a x Va. sim_step sim_pop as b y Vb.
  apply sim_push_next. auto.
Qed.

Lemma sim_unary cs s r (f : value -> value) (g : Z -> Z) :
  (forall w a x, val 128 w a x -> val 128 w (f a) (g x)) ->
  sim cs s r (a ← LocalStack.pop; LocalStack.push (f a)) (x ← rpop; _ ← rpush (g x); mret Next) goes_on.
Proof. intros Hf. sim_step sim_pop as a x Va. apply sim_push_next. auto. Qed.

Lemma sim_ADD cs s r : sim cs s r compile_ADD (binary (fun x y => wrap 128 (x + y))) goes_on.
Proof. apply sim_binary. intros. by eapply isval_add. Qed.

Lemma sim_SUB cs s r : sim cs s r compile_SUB (binary (fun x y => wrap 128 (x - y))) goes_on.
Proof. apply sim_binary. intros. by eapply isval_sub. Qed.

Lemma sim_MUL cs s r : sim cs s r compile_MUL (binary (fun x y => wrap 128 (x * y))) goes_on.
Proof. apply sim_binary. intros. by eapply isval_mul. Qed.

Lemma sim_AND cs s r : sim cs s r compile_AND (binary Z.land) goes_on.
Proof. apply sim_binary. intros. by apply isval_and. Qed.

Lemma sim_OR cs s r : sim cs s r compile_OR (binary Z.lor) goes_on.
Proof. apply sim_binary. intros. by apply isval_or. Qed.

Lemma sim_XOR cs s r : sim cs s r compile_XOR (binary Z.lxor) goes_on.
Proof. apply sim_binary. intros. by apply isval_xor. Qed.

(** The five comparisons. *)
Lemma sim_cmp cs s r p f :
  (forall x y, inw 128 x -> inw 128 y -> icmp p 128 x y = f x y) ->
  sim cs s r (compile_cmp p) (binary (fun x y => b2z (f x y))) goes_on.
Proof.
  intros Hp. unfold compile_cmp. apply (sim_binary _ _ _ (fun a b => CreateZExt (CreateICmp p a b) Word)).
  intros w a b x y Va Vb. eapply (isval_zext _ 1 128); [lia |].
  rewrite <- Hp by (by eapply isval_range). by eapply isval_icmp.
Qed.

Lemma sim_ISZERO cs s r :
  sim cs s r compile_ISZERO (x ← rpop; _ ← rpush (b2z (x =? 0)); mret Next) goes_on.
Proof.
  apply (sim_unary _ _ _ (fun v => CreateZExt (CreateICmp IEQ v (Constant_get 0)) Word)). intros w a x Va.
  eapply (isval_zext _ 1 128); [lia |]. eapply isval_eq; [eapply isval_icmp; [done | by apply isval_word] | done].
Qed.

Lemma log2_inw w x : 0 < w -> inw w x -> Z.log2 x < w.
Proof.
  intros Hw [Hx1 Hx2]. destruct (Z.eq_dec x 0) as [-> |]; [by simpl |]. apply Z.log2_lt_pow2; lia.
Qed.

(** Complement as subtraction. *)
Lemma lxor_ones w x : 0 < w -> inw w x -> Z.lxor x (2 ^ w - 1) = 2 ^ w - 1 - x.
Proof.
  intros Hw Hx. pose proof (log2_inw w x Hw Hx) as Hl. destruct Hx as [Hx1 Hx2].
  replace (2 ^ w - 1) with (Z.ones w) by (rewrite Z.ones_equiv; lia).
  rewrite <- Z.ldiff_ones_l_low by done. symmetry. apply Z.sub_nocarry_ldiff. by apply Z.ldiff_ones_r_low.
Qed.

Lemma sim_NOT cs s r :
  sim cs s r compile_NOT (x ← rpop; _ ← rpush (2 ^ 128 - 1 - x); mret Next) goes_on.
Proof.
  apply (sim_unary _ _ _ (fun v => CreateXor v (Constant_get (-1)))). intros w a x Va.
  rewrite <- lxor_ones by (by eapply isval_range || lia).
  eapply isval_eq; [by apply isval_xor; [| | apply isval_Constant_get] | done].
Qed.

(** ** Divisions *)

(** The divisor a zero is replaced in. *)
Lemma isval_guard w b y :
  val 128 w b y ->
  val 1 w (CreateICmp IEQ b (Constant_get 0)) (b2z (y =? 0))
  /\ val 128 w (CreateSelect (CreateICmp IEQ b (Constant_get 0)) (Constant_get 1) b) (if y =? 0 then 1 else y).
Proof.
  intros Vb. assert (val 1 w (CreateICmp IEQ b (Constant_get 0)) (b2z (y =? 0))) as Vc.
  { eapply isval_eq; [eapply isval_icmp; [done | by apply isval_word] | done]. }
  split; [done |]. pose proof (isval_type _ _ _ _ _ Vb) as Ht.
  eapply isval_select; [done | by typ | done | intros Hy | intros Hy]; rewrite Hy; [by apply isval_word | done].
Qed.

(** The unsigned divisions. *)
Lemma sim_udivision cs s r op f :
  bin_width op = 128 -> (forall x y, y <> 0 -> eval_bin op x y = Some (f x y)) ->
  (forall x y, inw 128 x -> inw 128 y -> y <> 0 -> inw 128 (f x y)) ->
  sim cs s r (d ← LocalStack.pop; n ← LocalStack.pop;
              r ← CreateDiv op d (CreateSelect (CreateICmp IEQ n (Constant_get 0)) (Constant_get 1) n);
              LocalStack.push (CreateSelect (CreateICmp IEQ n (Constant_get 0)) (Constant_get 0) r))
    (binary (fun x y => if y =? 0 then 0 else f x y)) goes_on.
Proof.
  intros Hw Hf Hr. unfold binary. sim_step sim_pop as a x Va. sim_step sim_pop as b y Vb.
  destruct (isval_guard _ _ _ Vb) as [Vc Vn].
  assert ((if y =? 0 then 1 else y) <> 0) as Hy by (destruct (Z.eqb_spec y 0); lia).
  assert (inw (bin_width op) (f x (if y =? 0 then 1 else y))) as Hin
    by (rewrite Hw; apply Hr; auto; by eapply isval_range).
  specialize (Hf x _ Hy). sim_left sim_div as q Vq. rewrite Hw in Vq.
  apply sim_push_next. eapply isval_select; [done | by typ | by eapply isval_type | intros Hz | intros Hz]; rewrite Hz in *; [by apply isval_word | done].
Qed.

Lemma sim_DIV cs s r : sim cs s r compile_DIV (binary (fun x y => if y =? 0 then 0 else x / y)) goes_on.
Proof.
  apply (sim_udivision _ _ _ (UDiv Word) Z.div); [done | |]; simpl.
  - intros x y Hy. by destruct (Z.eqb_spec y 0).
  - unfold inw. intros x y ? ? ?. split; [apply Z.div_pos; lia |]. apply Z.div_lt_upper_bound; nia.
Qed.

Lemma sim_MOD cs s r : sim cs s r compile_MOD (binary (fun x y => if y =? 0 then 0 else x mod y)) goes_on.
Proof.
  apply (sim_udivision _ _ _ (URem Word) Z.modulo); [done | |]; simpl.
  - intros x y Hy. by destruct (Z.eqb_spec y 0).
  - unfold inw. intros x y ? ? ?. pose proof (Z.mod_pos_bound x y). lia.
Qed.

(** The signed divisor in range. *)
Lemma sgn_minus_one y : inw 128 y -> (sgn 128 y =? -1) = (y =? 2 ^ 128 - 1).
Proof.
  unfold inw, sgn. intros Hy. apply eq_true_iff_eq. rewrite !Z.eqb_eq. case_match; lia.
Qed.

(** The signed divisions: [neg] is the value for a divisor of -1. *)
Lemma sim_sdivision cs s r op (neg : value -> value) f :
  bin_width op = 128 ->
  (forall x y, y <> 0 -> sdiv_overflow x y = false -> eval_bin op x y = Some (wrap 128 (f x y))) ->
  (forall w a x, val 128 w a x -> val 128 w (neg a) (wrap 128 (f x (2 ^ 128 - 1)))) ->
  sim cs s r (d ← LocalStack.pop; n ← LocalStack.pop;
              r ← CreateDiv op d (CreateSelect (CreateICmp IEQ n (Constant_get 0)) (Constant_get 1) n);
              LocalStack.push (CreateSelect (CreateICmp IEQ n (Constant_get (-1))) (neg d)
                (CreateSelect (CreateICmp IEQ n (Constant_get 0)) (Constant_get 0) r)))
    (signed_division (fun x y => if y =? 0 then 0 else wrap 128 (f x y))) goes_on.
Proof.
  intros Hw Hf Hneg. unfold signed_division. sim_step sim_pop as a x Va. sim_step sim_pop as b y Vb.
  destruct (sdiv_overflow x y) eqn:Ho; [done |].
  destruct (isval_guard _ _ _ Vb) as [Vc Vn]. pose proof (isval_range _ _ _ _ _ Vb) as Hy.
  assert (eval_bin op x (if y =? 0 then 1 else y) = Some (wrap 128 (f x (if y =? 0 then 1 else y)))) as Hq.
  { apply Hf; [destruct (Z.eqb_spec y 0); lia |]. destruct (Z.eqb_spec y 0) as [-> |]; [| done].
    unfold sdiv_overflow. by rewrite andb_false_r. }
  assert (inw (bin_width op) (wrap 128 (f x (if y =? 0 then 1 else y)))) as Hin by (rewrite Hw; by apply wrap_inw).
  sim_left sim_div as q Vq. rewrite Hw in Vq.
  assert (val 1 (W cs'1 s'1) (CreateICmp IEQ b (Constant_get (-1))) (b2z (y =? 2 ^ 128 - 1))) as Vm.
  { eapply isval_eq; [eapply isval_icmp; [done | apply isval_Constant_get] | done]. }
  specialize (Hneg _ _ _ Va). apply sim_push_next.
  eapply isval_select; [done | by eapply isval_type | typ; done | intros Hz | intros _].
  - apply Z.eqb_eq in Hz as ->. done.
  - eapply isval_select; [done | by typ | by eapply isval_type | intros Hz | intros Hz]; rewrite Hz in *; [by apply isval_word | done].
Qed.

Lemma sim_SDIV cs s r : sim cs s r compile_SDIV (signed_division op_sdiv) goes_on.
Proof.
  apply (sim_sdivision _ _ _ (SDiv Word) (fun d => CreateSub (Constant_get 0) d) (fun x y => Z.quot (sgn 128 x) (sgn 128 y))); [done | |].
  - unfold sdiv_overflow. intros x y Hy Ho. unfold eval_bin. change (128 - 1) with 127. rewrite Ho. by destruct (Z.eqb_spec y 0).
  - intros w a x Va. eapply isval_eq; [eapply (isval_sub _ 128); [done | by apply isval_word | done] |].
    change (sgn 128 (2 ^ 128 - 1)) with (- (1)). rewrite Z.quot_opp_r, Z.quot_1_r by done.
    unfold sgn. case_match; [done |]. replace (- (x - 2 ^ 128)) with (0 - x + 1 * 2 ^ 128) by lia.
    unfold wrap. by rewrite Z.mod_add.
Qed.

Lemma sim_SMOD cs s r : sim cs s r compile_SMOD (signed_division op_smod) goes_on.
Proof.
  apply (sim_sdivision _ _ _ (SRem Word) (fun d => Constant_get 0) (fun x y => Z.rem (sgn 128 x) (sgn 128 y))); [done | |].
  - unfold sdiv_overflow. intros x y Hy Ho. unfold eval_bin. change (128 - 1) with 127. rewrite Ho. by destruct (Z.eqb_spec y 0).
  - intros w a x Va. change (sgn 128 (2 ^ 128 - 1)) with (- (1)). rewrite Z.rem_opp_r, Z.rem_1_r by done.
    by apply isval_word.
Qed.

(** The two instructions on 256-bit intermediate results. *)
Lemma sim_modular cs s r (op : value -> value -> value) f :
  (forall w a b x y, val 256 w a x -> val 256 w b y -> inw 128 x -> inw 128 y -> val 256 w (op a b) (f x y)) ->
  sim cs s r (a ← LocalStack.pop; b ← LocalStack.pop; m ← LocalStack.pop;
              s ← CreateDiv (URem 256) (op (CreateZExt a 256) (CreateZExt b 256)) (CreateZExt m 256);
              LocalStack.push (CreateSelect (CreateICmp IEQ m (Constant_get 0)) (Constant_get 0) (CreateTrunc s Word)))
    (x ← rpop; y ← rpop; m ← rpop;
     if m =? 0 then unspecified else _ ← rpush (f x y mod m); mret Next) goes_on.
Proof.
  intros Hop. sim_step sim_pop as a x Va. sim_step sim_pop as b y Vb. sim_step sim_pop as n m Vm.
  destruct (Z.eqb_spec m 0) as [| Hm]; [done |].
  pose proof (isval_range _ _ _ _ _ Va) as Hx. pose proof (isval_range _ _ _ _ _ Vb) as Hy.
  pose proof (isval_range _ _ _ _ _ Vm) as [Hm1 Hm2].
  assert (val 256 (W cs'1 s'1) (op (CreateZExt a 256) (CreateZExt b 256)) (f x y)) as Vo
    by (apply Hop; auto; by apply (isval_zext _ 128)).
  assert (val 256 (W cs'1 s'1) (CreateZExt n 256) m) as Vn by (by apply (isval_zext _ 128)).
  pose proof (Z.mod_pos_bound (f x y) m ltac:(lia)) as Hb.
  assert (eval_bin (URem 256) (f x y) m = Some (f x y mod m)) as Hq by (simpl; by destruct (Z.eqb_spec m 0)).
  assert (inw (bin_width (URem 256)) (f x y mod m)) as Hin by (unfold inw; simpl; lia).
  sim_left sim_div as q Vq. apply sim_push_next. destruct (isval_guard _ _ _ Vm) as [Vc _].
  eapply isval_select; [done | by typ | by typ | intros Hz | intros _].
  - apply Z.eqb_eq in Hz. lia.
  - eapply isval_trunc_small; [unfold inw; lia | done | done].
Qed.

Lemma sim_ADDMOD cs s r : sim cs s r compile_ADDMOD
  (x ← rpop; y ← rpop; m ← rpop; if m =? 0 then unspecified else _ ← rpush ((x + y) mod m); mret Next) goes_on.
Proof.
  apply (sim_modular _ _ _ CreateNUWAdd Z.add). unfold inw. intros.
  eapply isval_nuwadd; [unfold inw; lia | done | done].
Qed.

Lemma sim_MULMOD cs s r : sim cs s r compile_MULMOD
  (x ← rpop; y ← rpop; m ← rpop; if m =? 0 then unspecified else _ ← rpush ((x * y) mod m); mret Next) goes_on.
Proof.
  apply (sim_modular _ _ _ CreateNUWMul Z.mul). unfold inw. intros.
  eapply isval_nuwmul; [| done | done]. unfold inw. nia.
Qed.

(** ** Exponentiation *)

Lemma sigBytes_ctlz e : inw 128 e -> sigBytes e = (128 - ctlz 128 e + 7) / 8.
Proof.
  intros He. unfold sigBytes, ctlz. destruct (Z.eqb_spec e 0); [done |].
  replace (128 - (128 - 1 - Z.log2 e) + 7) with (Z.log2 e + 1 * 8) by lia. by rewrite Z.div_add.
Qed.

Lemma sigBytes_range e : inw 128 e -> 0 <= sigBytes e <= 16.
Proof.
  intros He. rewrite sigBytes_ctlz by done. pose proof (ctlz_range 128 e He ltac:(lia)).
  split; [apply Z.div_pos; lia |]. apply Z.lt_succ_r, Z.div_lt_upper_bound; lia.
Qed.

Lemma sim_countExp cs s r v e :
  val 128 (W cs s) v e ->
  sim cs s r (GasMeter.countExp (x_rev X) v) (charge (sigBytes e * exp_byte_cost X)) nothing.
Proof.
  intros Vv. pose proof (isval_range _ _ _ _ _ Vv) as He.
  pose proof (ctlz_range 128 e He ltac:(lia)) as Hlz. pose proof (sigBytes_range e He) as Hs.
  assert (val 64 (W cs s) (CreateSub (getInt64 128) (CreateTrunc (VUn (Ctlz Word) v) 64)) (128 - ctlz 128 e)) as Vb.
  { eapply isval_eq; [eapply (isval_sub _ 64); [done | by apply isval_int64 |] |].
    - eapply isval_trunc_small; [| done | eapply (isval_un _ (Ctlz Word)); [done | reflexivity |]]; unfold inw; simpl; lia.
    - rewrite wrap_small by (unfold inw; lia). done. }
  assert (val 64 (W cs s) (CreateAdd (CreateSub (getInt64 128) (CreateTrunc (VUn (Ctlz Word) v) 64)) (getInt64 7))
    (128 - ctlz 128 e + 7)) as Va.
  { eapply isval_eq; [eapply isval_add; [done | done | by apply isval_int64] |]. apply wrap_small. unfold inw. lia. }
  assert (val 64 (W cs s) (getInt64 8) 8) as V8 by (by apply isval_int64).
  assert (eval_bin (UDiv 64) (128 - ctlz 128 e + 7) 8 = Some (sigBytes e)) as Hq by (by rewrite sigBytes_ctlz).
  assert (inw (bin_width (UDiv 64)) (sigBytes e)) as Hin by (unfold inw; simpl; lia).
  unfold GasMeter.countExp. sim_left sim_div as q Vq.
  change (if rev_ge (x_rev X) EVM_AION then 1
    else if rev_ge (x_rev X) EVM_SPURIOUS_DRAGON then 50 else schedule.(expByteGas)) with (exp_byte_cost X).
  assert (0 <= exp_byte_cost X <= 50) as Hc by (unfold exp_byte_cost; repeat case_match; lia).
  apply sim_count; [| nia].
  eapply (isval_nuwmul _ 64 64); [unfold inw; nia | done |]. apply isval_int64. unfold inw. lia.
Qed.

Lemma sim_EXP cs s r : sim cs s r (compile_EXP (x_rev X))
  (b ← rpop; e ← rpop; _ ← charge (sigBytes e * exp_byte_cost X); _ ← rpush (wrap 128 (b ^ e)); mret Next) goes_on.
Proof.
  unfold compile_EXP. sim_step sim_pop as b x Vb. sim_step sim_pop as e y Ve.
  sim_step sim_countExp as u u' _. sim_left sim_exp as q Vq. by apply sim_push_next.
Qed.

(** ** Bytes of a word *)

Lemma isval_extract w v i x k b :
  val 128 w v x -> val 64 w i k -> Endianness.native_bytes 16 x !! Z.to_nat k = Some b -> inw 8 b ->
  val 8 w (fold (VExtract v i)) b.
Proof.
  intros (_ & Hv & _) (_ & Hi & _) Hb Hr. apply isval_fold. split_and!; [done | | done].
  intros ρ Hρ. simpl. rewrite (Hv ρ Hρ), (Hi ρ Hρ). done.
Qed.

Lemma sim_BYTE cs s r : sim cs s r compile_BYTE (binary op_byte) goes_on.
Proof.
  apply (sim_binary _ _ _ (fun idx v => CreateSelect (CreateICmp IULT idx (Constant_get 16))
    (CreateZExt (fold (VExtract (toBE v) (CreateZExt (CreateTrunc idx 4) 64))) Word) (Constant_get 0))).
  intros w a b k x Va Vb. pose proof (isval_range _ _ _ _ _ Va) as [Hk _].
  assert (val 64 w (CreateZExt (CreateTrunc a 4) 64) (wrap 4 k)) as Vi
    by (apply (isval_zext _ 4); [lia |]; by apply (isval_trunc _ 128)).
  assert (val 128 w (toBE b) (Endianness.toBE 16 x)) as Vx by (by apply (isval_bswap _ 16)).
  pose proof (wrap_inw 4 k ltac:(lia)) as [Hw1 Hw2]. simpl in Hw2.
  destruct (lookup_lt_is_Some_2 (be_bytes 16 x) (Z.to_nat (wrap 4 k))) as [c Hc]; [rewrite length_be_bytes; lia |].
  assert (inw 8 c) as Hcr by (eapply (Forall_lookup_1 _ _ _ _ (be_bytes_ok 16 x)); exact Hc).
  assert (val 1 w (CreateICmp IULT a (Constant_get 16)) (b2z (k <? 16))) as Vc.
  { eapply isval_eq; [eapply isval_icmp; [done | by apply isval_word] | done]. }
  unfold op_byte. eapply isval_select; [done | by typ | by typ | intros Hlt | intros Hlt]; rewrite Hlt; [| by apply isval_word].
  apply Z.ltb_lt in Hlt. rewrite wrap_small in Hc by (unfold inw; simpl; lia). rewrite Hc. simpl.
  apply (isval_zext _ 8); [lia |]. eapply isval_extract; [done | done | | done].
  rewrite Endianness.native_bytes_toBE, wrap_small by (unfold inw; simpl; lia). done.
Qed.

(** ** Sign extension *)

Lemma pow2_mask w n : 0 <= n <= w -> 2 ^ w - 2 ^ n = Z.shiftl (Z.ones (w - n)) n.
Proof.
  intros Hn. rewrite Z.shiftl_mul_pow2, Z.ones_equiv by lia.
  replace w with (w - n + n) at 1 by lia. rewrite Z.pow_add_r by lia. lia.
Qed.

Lemma testbit_mask w n i : 0 <= n <= w -> 0 <= i -> Z.testbit (2 ^ w - 2 ^ n) i = (n <=? i) && (i <? w).
Proof.
  intros Hn Hi. rewrite pow2_mask, Z.shiftl_spec by lia. destruct (Z.leb_spec n i); simpl.
  - rewrite Z.testbit_ones_nonneg by lia. destruct (Z.ltb_spec i w), (Z.ltb_spec (i - n) (w - n)); lia || done.
  - apply Z.testbit_neg_r. lia.
Qed.

(** Setting the bits from [n] on. *)
Lemma lor_high w x n : 0 <= n <= w -> inw w x -> Z.lor x (2 ^ w - 2 ^ n) = x mod 2 ^ n + (2 ^ w - 2 ^ n).
Proof.
  intros Hn Hx. rewrite Z.add_nocarry_lxor, Z.lxor_lor.
  - apply Z.bits_inj'. intros i Hi. rewrite !Z.lor_spec, testbit_mask by lia.
    destruct (Z.leb_spec n i); simpl; [| by rewrite Z.mod_pow2_bits_low by lia].
    destruct (Z.ltb_spec i w); simpl; [by rewrite !orb_true_r |].
    rewrite Z.mod_pow2_bits_high, (inw_testbit w x) by (done || lia). done.
  - apply Z.bits_inj'. intros i Hi. rewrite Z.land_spec, testbit_mask, Z.bits_0 by lia.
    destruct (Z.leb_spec n i); simpl; [rewrite Z.mod_pow2_bits_high by lia; done | by rewrite andb_false_r].
  - apply Z.bits_inj'. intros i Hi. rewrite Z.land_spec, testbit_mask, Z.bits_0 by lia.
    destruct (Z.leb_spec n i); simpl; [rewrite Z.mod_pow2_bits_high by lia; done | by rewrite andb_false_r].
Qed.

(** The sign of an [n + 1]-bit number is its bit [n]. *)
Lemma sgn_split n x : 0 <= n ->
  sgn (n + 1) (wrap (n + 1) x) = x mod 2 ^ n - (if Z.testbit x n then 2 ^ n else 0).
Proof.
  intros Hn. unfold wrap. assert (x mod 2 ^ (n + 1) = x mod 2 ^ n + 2 ^ n * (x / 2 ^ n mod 2)) as ->.
  { rewrite Z.pow_add_r, Z.pow_1_r by lia. apply Z.rem_mul_r; lia. }
  pose proof (Z.mod_pos_bound x (2 ^ n) ltac:(lia)). unfold sgn.
  replace (n + 1 - 1) with n by lia. replace (2 ^ (n + 1)) with (2 * 2 ^ n) by (rewrite Z.pow_add_r; lia).
  pose proof (Z.testbit_spec' x n Hn) as Hb. rewrite <- Hb.
  destruct (Z.testbit x n); simpl Z.b2z; case_match; lia.
Qed.

(** The shifts by the bit position, and the bit there. *)
Lemma isval_bit w a p x n :
  0 <= n < 128 -> val 128 w a x -> val 128 w p n ->
  val 1 w (CreateTrunc (CreateBin (LShr Word) a p) 1) (b2z (Z.testbit x n)).
Proof.
  intros Hn Va Vp. pose proof (isval_range _ _ _ _ _ Va) as [Hx1 Hx2].
  eapply isval_eq; [apply (isval_trunc _ 128); [done |] |].
  - eapply (isval_bin _ (LShr Word)); [done | done | simpl; by rewrite (proj2 (Z.ltb_lt _ _)) by lia |].
    rewrite Z.shiftr_div_pow2 by lia. unfold inw. simpl.
    split; [apply Z.div_pos; lia |]. apply Z.div_lt_upper_bound; nia.
  - unfold wrap. rewrite Z.shiftr_div_pow2, <- Z.testbit_spec' by lia. by destruct (Z.testbit x n).
Qed.

Lemma isval_mask w p n :
  0 <= n < 128 -> val 128 w p n ->
  val 128 w (CreateSub (CreateBin (Shl Word) (Constant_get 1) p) (Constant_get 1)) (2 ^ n - 1).
Proof.
  intros Hn Vp. pose proof (Z.pow_lt_mono_r 2 n 128 ltac:(lia) ltac:(lia) ltac:(lia)).
  eapply isval_eq; [eapply (isval_sub _ 128); [done | | by apply isval_word] | apply wrap_small; unfold inw; lia].
  eapply (isval_bin _ (Shl Word)); [by apply isval_word | done | |]; simpl.
  - rewrite (proj2 (Z.ltb_lt _ _)), Z.shiftl_1_l, wrap_small by (unfold inw; lia). done.
  - unfold inw. simpl in *. lia.
Qed.

Lemma isval_signextend w a p x n :
  0 <= n < 128 -> val 128 w a x -> val 128 w p n ->
  let mask := CreateSub (CreateBin (Shl Word) (Constant_get 1) p) (Constant_get 1) in
  val 128 w (CreateSelect (CreateTrunc (CreateBin (LShr Word) a p) 1)
      (CreateOr a (CreateXor mask (Constant_get (-1)))) (CreateAnd a mask))
    (wrap 128 (sgn (n + 1) (wrap (n + 1) x))).
Proof.
  intros Hn Va Vp mask. pose proof (isval_bit w a p x n Hn Va Vp) as Vt.
  pose proof (isval_mask w p n Hn Vp) as Vm. fold mask in Vm.
  pose proof (isval_range _ _ _ _ _ Va) as Hx. pose proof (isval_range _ _ _ _ _ Vm) as Hm.
  pose proof (Z.mod_pos_bound x (2 ^ n) ltac:(lia)) as Hb. pose proof (isval_type _ _ _ _ _ Va) as Ht.
  pose proof (Z.pow_lt_mono_r 2 n 128 ltac:(lia) ltac:(lia) ltac:(lia)) as Hp.
  assert (val 128 w (CreateXor mask (Constant_get (-1))) (2 ^ 128 - 2 ^ n)) as Vn.
  { eapply isval_eq; [by apply isval_xor; [| | apply isval_Constant_get] |].
    change (wrap 128 (-1)) with (2 ^ 128 - 1). rewrite lxor_ones by (done || lia). lia. }
  rewrite sgn_split by lia.
  eapply isval_select; [done | by typ | by typ | intros Hbit | intros Hbit]; rewrite Hbit.
  - eapply isval_eq; [by apply isval_or |]. rewrite lor_high by (done || lia).
    unfold wrap. rewrite <- (Z.mod_small (x mod 2 ^ n + _) (2 ^ 128)), <- (Z.mod_add _ (-1)) by lia. f_equal. lia.
  - eapply isval_eq; [by apply isval_and |]. rewrite Z.sub_1_r, <- Z.ones_equiv, Z.land_ones by lia.
    rewrite Z.sub_0_r. symmetry. apply wrap_small. unfold inw. lia.
Qed.

Lemma sim_SIGNEXTEND cs s r : sim cs s r compile_SIGNEXTEND (binary op_signextend) goes_on.
Proof.
  unfold compile_SIGNEXTEND. cbv zeta.
  set (pos := fun idx => CreateZExt (CreateAdd (CreateMul (CreateZExt (CreateTrunc idx 4) 64) (getInt64 8)) (getInt64 7)) Word).
  apply (sim_binary _ _ _ (fun idx a => CreateSelect (CreateICmp IULE idx (Constant_get 14))
    (CreateSelect (CreateTrunc (CreateBin (LShr Word) a (pos idx)) 1)
      (CreateOr a (CreateXor (CreateSub (CreateBin (Shl Word) (Constant_get 1) (pos idx)) (Constant_get 1)) (Constant_get (-1))))
      (CreateAnd a (CreateSub (CreateBin (Shl Word) (Constant_get 1) (pos idx)) (Constant_get 1)))) a)).
  intros w a b k x Va Vb. pose proof (isval_range _ _ _ _ _ Va) as [Hk _].
  pose proof (wrap_inw 4 k ltac:(lia)) as [Hw1 Hw2]. simpl in Hw2.
  assert (val 128 w (pos a) (wrap 4 k * 8 + 7)) as Vp.
  { apply (isval_zext _ 64); [lia |]. eapply isval_eq; [eapply (isval_add _ 64); [done | | by apply isval_int64] |].
    - eapply isval_mul; [done | | by apply isval_int64]. apply (isval_zext _ 4); [lia |]. by apply (isval_trunc _ 128).
    - rewrite (wrap_small 64 (_ * 8)) by (unfold inw; lia). apply wrap_small. unfold inw. lia. }
  assert (val 1 w (CreateICmp IULE a (Constant_get 14)) (b2z (k <=? 14))) as Vc.
  { eapply isval_eq; [eapply isval_icmp; [done | by apply isval_word] | done]. }
  apply (isval_signextend _ b _ x) in Vp; [| lia | done]. cbv zeta in Vp.
  unfold op_signextend. eapply isval_select; [done | by eapply isval_type | by eapply isval_type | |]; intros Hlt; rewrite Hlt; [| done].
  apply Z.leb_le in Hlt. rewrite (wrap_small 4 k) in Vp by (unfold inw; simpl; lia).
  eapply isval_eq; [exact Vp |]. replace (k * 8 + 7 + 1) with (8 * k + 8) by lia. done.
Qed.
End SimArith.
