(* ===== verification/SimInst.v ===== *)
(** * Simulation of the instructions

    Every case of the switch of [Compiler::compileBasicBlock] against the
    machine's step, gathered in [sim_body]. *)
From S2P Require Import Prelude Bytes Instruction LLVMInt Arith128 EvmAbi GasSchedule Keccak Runtime IR.
From S2P Require Import Builder Codegen Compiler Machine Denote Frames Heights Sim SimStack SimRuntime SimCopy.
From S2P Require Import SimHost SimCall SimArith.

Section SimInst.
Context {H : Type} `{LLVMFolder} (X : Ctx H) (gas0 gasPrice uninit : Z) (HX : ctx_ok X) (stk0 : list Z).

Abbreviation D := (runtime_data X gas0 gasPrice).
Abbreviation E := (env_of X D uninit).
Abbreviation T := (x_host X).
Abbreviation me := (address (x_msg X)).
Abbreviation val := (isval D).
Abbreviation sim := (sim X gas0 gasPrice uninit stk0).
Abbreviation nothing := (fun _ _ _ _ => True).

(** ** Words of 256 bits *)

Lemma sim_pushWord256 cs s r v z : val 256 (W cs s) v z -> sim cs s r (pushWord256 v) (rpush256 z) nothing.
Proof.
  intros Vv. pose proof (isval_range _ _ _ _ _ Vv) as [Hz1 Hz2]. unfold pushWord256, rpush256. cbv zeta.
  assert (val 128 (W cs s) (CreateTrunc v Word) (wrap 128 z)) as Vl by (by apply (isval_trunc _ 256)).
  assert (val 128 (W cs s) (CreateTrunc (CreateLShr v 128) Word) (Z.shiftr z 128)) as Vh.
  { eapply (isval_trunc_small _ 256); [| done | by apply isval_lshr].
    rewrite Z.shiftr_div_pow2 by lia. unfold inw. split; [apply Z.div_pos; lia |]. apply Z.div_lt_upper_bound; lia. }
  sim_step sim_push as u u' _. by apply sim_push.
Qed.

Lemma sim_pushWord256_next cs s r v z :
  val 256 (W cs s) v z -> sim cs s r (pushWord256 v) (_ ← rpush256 z; mret Next) goes_on.
Proof.
  intros Hv. eapply (sim_map _ _ _ _ _ _ _ _ _ _ (fun _ => Next)); [by apply sim_pushWord256 | done].
Qed.

Lemma sim_popWord256 cs s r : sim cs s r popWord256 rpop256 (fun cs' s' v z => val 256 (W cs' s') v z).
Proof.
  unfold popWord256, rpop256. sim_step sim_pop as hi x Vh. sim_step sim_pop as lo y Vl. cbv zeta.
  apply sim_ret. pose proof (isval_range _ _ _ _ _ Vh) as [Hx1 Hx2]. pose proof (isval_range _ _ _ _ _ Vl) as Hy.
  eapply isval_eq.
  - eapply (isval_or _ 256); [done | | by apply (isval_zext _ 128)].
    eapply (isval_shl _ 256); [done | done |]. by apply (isval_zext _ 128).
  - rewrite wrap_small by (rewrite Z.shiftl_mul_pow2 by lia; unfold inw; lia). by apply lor_shiftl_add.
Qed.

(** An instruction that ends with what the operation of the generator does. *)
Lemma sim_next cs s r (c : C unit) (m : @M H unit) : sim cs s r c m nothing -> sim cs s r c (_ ← m; mret Next) goes_on.
Proof. intros Hc. by eapply (sim_map _ _ _ _ _ _ _ _ _ _ (fun _ => Next)). Qed.

Lemma sim_next2 cs s r {B} (c : C unit) (m1 : @M H B) (m2 : B -> M unit) :
  sim cs s r c (m1 ≫= m2) nothing -> sim cs s r c (b ← m1; _ ← m2 b; mret Next) goes_on.
Proof.
  intros Hc. eapply sim_ext; [| apply sim_next, Hc]. unfold mbind, M_bind. by destruct (m1 r) as [[] | |].
Qed.

(** ** Memory and storage *)

Lemma sim_countSha3Data cs s r size n :
  val 128 (W cs s) size n -> n <= c_inputMax ->
  sim cs s r (GasMeter.countSha3Data size) (charge (6 * words32 n)) nothing.
Proof.
  intros Vn Hn. pose proof (isval_range _ _ _ _ _ Vn) as [Hn0 _]. unfold GasMeter.countSha3Data. cbv zeta.
  assert (val 64 (W cs s) (CreateTrunc size 64) n) as V64
    by (eapply isval_trunc_small; [unfold inw, c_inputMax in *; lia | done | done]).
  sim_left sim_words as w Vw. unfold c_inputMax in *.
  assert (0 <= words32 n < 2 ^ 34) by (unfold words32; split; [apply Z.div_pos; lia |]; apply Z.div_lt_upper_bound; lia).
  apply sim_count; [| lia]. eapply (isval_nuwmul _ 64 64); [unfold inw; lia | by apply isval_int64 | done].
Qed.

Lemma sim_SHA3 cs s r : sim cs s r compile_SHA3
  (off ← rpop; n ← rpop; _ ← expand X off n; _ ← charge (6 * words32 n); bs ← mem_read off n;
   _ ← rpush256 (be_val (keccak bs)); mret Next) goes_on.
Proof.
  unfold compile_SHA3. sim_step sim_pop as off o Vo. sim_step sim_pop as size n Vn.
  sim_step sim_require as u u' Hc. pose proof (isval_range _ _ _ _ _ Vn) as [Hn _].
  pose proof (covers_small _ _ _ Hc Hn). sim_step sim_countSha3Data as w w' _.
  sim_step sim_sha3 as h bs Vh. by apply sim_pushWord256_next.
Qed.

Lemma sim_POP cs s r : sim cs s r compile_POP (_ ← rpop; mret Next) goes_on.
Proof. unfold compile_POP. sim_step sim_pop as v z Vv. by apply sim_ret. Qed.

Lemma sim_loadWord cs s r addr o :
  val 128 (W cs s) addr o ->
  sim cs s r (Memory.loadWord addr) (_ ← expand X o 16; mem_read o 16) (fun cs' s' v bs => val 128 (W cs' s') v (be_val bs)).
Proof.
  intros Va. assert (val 128 (W cs s) (Constant_get (128 / 8)) 16) as V16 by (by apply isval_word).
  unfold Memory.loadWord. sim_step sim_require as u u' Hc. by apply sim_mload.
Qed.

Lemma sim_storeWord cs s r addr v o z :
  val 128 (W cs s) addr o -> val 128 (W cs s) v z ->
  sim cs s r (Memory.storeWord addr v) (_ ← expand X o 16; mem_write o (be_bytes 16 z)) nothing.
Proof.
  intros Va Vv. assert (val 128 (W cs s) (Constant_get (128 / 8)) 16) as V16 by (by apply isval_word).
  unfold Memory.storeWord. sim_step sim_require as u u' Hc. by apply sim_mstore.
Qed.

Lemma sim_storeByte cs s r addr v o z :
  val 128 (W cs s) addr o -> val 128 (W cs s) v z ->
  sim cs s r (Memory.storeByte addr v) (_ ← expand X o 1; mem_write o [wrap 8 z]) nothing.
Proof.
  intros Va Vv. assert (val 128 (W cs s) (Constant_get (8 / 8)) 1) as V1 by (by apply isval_word).
  unfold Memory.storeByte. sim_step sim_require as u u' Hc. apply sim_mstore8; [done | | done].
  by apply (isval_trunc _ 128).
Qed.

Lemma sim_MLOAD cs s r : sim cs s r compile_MLOAD
  (off ← rpop; _ ← expand X off 16; bs ← mem_read off 16; _ ← rpush (be_val bs); mret Next) goes_on.
Proof.
  unfold compile_MLOAD. sim_step sim_pop as a o Va. sim_step2 sim_loadWord as v bs Vv. by apply sim_push_next.
Qed.

Lemma sim_MSTORE cs s r : sim cs s r compile_MSTORE
  (off ← rpop; z ← rpop; _ ← expand X off 16; _ ← mem_write off (be_bytes 16 z); mret Next) goes_on.
Proof.
  unfold compile_MSTORE. sim_step sim_pop as a o Va. sim_step sim_pop as b z Vb.
  apply sim_next2. by apply sim_storeWord.
Qed.

Lemma sim_MSTORE8 cs s r : sim cs s r compile_MSTORE8
  (off ← rpop; z ← rpop; _ ← expand X off 1; _ ← mem_write off [wrap 8 z]; mret Next) goes_on.
Proof.
  unfold compile_MSTORE8. sim_step sim_pop as a o Va. sim_step sim_pop as b z Vb.
  apply sim_next2. by apply sim_storeByte.
Qed.

Lemma sim_MSIZE cs s r : sim cs s r compile_MSIZE
  (m ← gets r_mem; _ ← rpush (Z.of_nat (length m)); mret Next) goes_on.
Proof. apply sim_gets. unfold compile_MSIZE. sim_left sim_getSize as v Vv. by apply sim_push_next. Qed.

Lemma sim_SLOAD cs s r : sim cs s r compile_SLOAD
  (k ← rpop; h ← gets r_host; _ ← rpush (be_val (get_storage T h me (be_bytes 16 k))); mret Next) goes_on.
Proof.
  unfold compile_SLOAD. sim_step sim_pop as a k Va. apply sim_gets.
  sim_left sim_sload as v Vv. by apply sim_push_next.
Qed.

(** The cost of a storage write depends on the old value. *)
Definition sstore_cost (h : H) (k z : Z) : Z :=
  let old := be_val (get_storage T h me (be_bytes 16 k)) in
  if (old =? 0) && negb (z =? 0) then 20000 else if rev_ge (x_rev X) EVM_AION then 8000 else 5000.

Lemma land_b2z a b : Z.land (b2z a) (b2z b) = b2z (a && b).
Proof. by destruct a, b. Qed.

Lemma lor_b2z a b : Z.lor (b2z a) (b2z b) = b2z (a || b).
Proof. by destruct a, b. Qed.

Lemma sim_countSStore cs s r key v k z :
  val 128 (W cs s) key k -> val 128 (W cs s) v z ->
  sim cs s r (countSStore (x_rev X) key v) (charge (sstore_cost (r_host r) k z)) nothing.
Proof.
  intros Vk Vz. unfold countSStore. sim_left sim_sload as o Vo. cbv zeta. unfold sstore_cost.
  set (old := be_val _) in *.
  assert (val 1 (W cs' s') (CreateAnd (CreateICmp IEQ o (Constant_get 0)) (CreateICmp INE v (Constant_get 0)))
    (b2z ((old =? 0) && negb (z =? 0)))) as Vc.
  { rewrite <- land_b2z. apply isval_and; [done | |].
    - eapply isval_eq; [eapply isval_icmp; [done | by apply isval_word] | done].
    - eapply isval_eq; [eapply isval_icmp; [done | by apply isval_word] | done]. }
  apply sim_count; [| by repeat case_match].
  eapply isval_select; [done | by typ | by typ | |]; intros ->; apply isval_int64; unfold inw; by repeat case_match.
Qed.

Lemma sim_SSTORE cs s r : sim cs s r (compile_SSTORE (x_rev X))
  (k ← rpop; z ← rpop; h ← gets r_host; _ ← charge (sstore_cost h k z);
   _ ← set_rhost (set_storage T h me (be_bytes 16 k) (be_bytes 16 z)); mret Next) goes_on.
Proof.
  unfold compile_SSTORE. sim_step sim_pop as a k Va. sim_step sim_pop as b z Vb. apply sim_gets.
  sim_step_ok sim_countSStore as u u' _ Hm. apply sim_next.
  assert (r_host r'0 = r_host r'1) as ->.
  { unfold charge, gets, mbind, M_bind in Hm. case_match; [| done]. by injection Hm as _ <-. }
  by apply sim_sstore.
Qed.

(** ** Environment *)

(** The cost block is closed without running anything. *)
Lemma sim_commit cs s r : sim cs s r GasMeter.commitCostBlock (mret tt) nothing.
Proof.
  intros Hinv tail. unfold GasMeter.commitCostBlock, get_state, event_, modify, mbind, C_bind, mret, C_ret.
  simpl. exists s. destruct (m_checkCall cs); [destruct (m_blockCost cs =? 0) |]; simpl;
    (split_and!; [done | | done | done]); try done; eapply inv_step; eauto; try done; apply (inv_rest _ _ _ _ _ _ _ Hinv).
Qed.

Lemma sim_GAS cs s r : sim cs s r compile_GAS (g ← gets r_gas; _ ← rpush g; mret Next) goes_on.
Proof.
  unfold compile_GAS. sim_left sim_commit as u _. apply sim_gets. sim_left sim_getGas as g Vg.
  apply sim_push_next. by apply (isval_zext _ 64).
Qed.

Lemma sim_PC cs s r pc :
  inw 128 (Z.of_nat pc) -> sim cs s r (compile_PC pc) (_ ← rpush (Z.of_nat pc); mret Next) goes_on.
Proof. intros Hpc. apply sim_push_next. by apply isval_word. Qed.

Lemma sim_ADDRESS cs s r : sim cs s r compile_ADDRESS (_ ← rpush256 (be_val me); mret Next) goes_on.
Proof. apply sim_pushWord256_next. by apply isval_address_word. Qed.

Lemma sim_CALLER cs s r : sim cs s r compile_CALLER (_ ← rpush256 (be_val (caller (x_msg X))); mret Next) goes_on.
Proof. apply sim_pushWord256_next. by apply isval_caller_word. Qed.

Lemma sim_CALLVALUE cs s r :
  sim cs s r compile_CALLVALUE (_ ← rpush (be_val (EvmAbi.value (x_msg X))); mret Next) goes_on.
Proof. apply sim_push_next. by apply isval_value_word. Qed.

Lemma sim_CODESIZE cs s r :
  sim cs s r (compile_CODESIZE (length (x_code X))) (_ ← rpush (Z.of_nat (length (x_code X))); mret Next) goes_on.
Proof. apply sim_push_next. by apply isval_codeSize. Qed.

Lemma sim_CALLDATASIZE cs s r :
  sim cs s r compile_CALLDATASIZE (_ ← rpush (Z.of_nat (length (input (x_msg X)))); mret Next) goes_on.
Proof. apply sim_push_next. by apply isval_callDataSize. Qed.

(** The items of the transaction context, by the width they are pushed with. *)
Lemma sim_tx256 cs s r i f :
  (i <= 6)%nat -> RuntimeManager.txctx_width i = 256 ->
  (forall c, tx_item c i = Endianness.native_val (f c)) ->
  (forall h, bytes_of_len 32 (f (get_tx_context T h))) ->
  sim cs s r (v ← RuntimeManager.getTxContextItem i; pushWord256 (toNative v)) (push_tx256 X f) goes_on.
Proof.
  intros Hi Hw Hf Hl. unfold push_tx256. apply sim_gets. sim_left sim_getTxContextItem as v Vv.
  rewrite Hw, Hf in Vv. apply sim_pushWord256_next. by apply (isval_native _ _ _ 32).
Qed.

Lemma sim_tx128 cs s r i f :
  (i <= 6)%nat -> RuntimeManager.txctx_width i = 128 ->
  (forall c, tx_item c i = Endianness.native_val (f c)) ->
  (forall h, bytes_of_len 16 (f (get_tx_context T h))) ->
  sim cs s r (v ← RuntimeManager.getTxContextItem i; LocalStack.push (toNative v))
    (push_tx X (fun c => be_val (f c))) goes_on.
Proof.
  intros Hi Hw Hf Hl. unfold push_tx. apply sim_gets. sim_left sim_getTxContextItem as v Vv.
  rewrite Hw, Hf in Vv. apply sim_push_next. by apply (isval_native _ _ _ 16).
Qed.

Lemma sim_tx64 cs s r i f :
  (i <= 6)%nat -> RuntimeManager.txctx_width i = 64 -> (forall c, tx_item c i = f c) ->
  sim cs s r (v ← RuntimeManager.getTxContextItem i; LocalStack.push (CreateZExt v Word)) (push_tx X f) goes_on.
Proof.
  intros Hi Hw Hf. unfold push_tx. apply sim_gets. sim_left sim_getTxContextItem as v Vv.
  rewrite Hw, Hf in Vv. apply sim_push_next. by apply (isval_zext _ 64).
Qed.

Lemma sim_RETURNDATASIZE cs s r : sim cs s r compile_RETURNDATASIZE
  (b ← gets r_retbuf; _ ← rpush (Z.of_nat (length b)); mret Next) goes_on.
Proof.
  apply sim_gets. unfold compile_RETURNDATASIZE. sim_left sim_returnBufSize as v Vv.
  apply sim_push_next. by apply (isval_zext _ 64).
Qed.

Lemma sim_BLOCKHASH cs s r : sim cs s r compile_BLOCKHASH
  (n ← rpop; h ← gets r_host;
   _ ← rpush256 (if INT64_MAX <? n then 0 else be_val (get_block_hash T h n)); mret Next) goes_on.
Proof.
  unfold compile_BLOCKHASH. sim_step sim_pop as v n Vn. apply sim_gets. cbv zeta.
  pose proof (isval_range _ _ _ _ _ Vn) as [Hn _].
  sim_left sim_blockHash as hash Vh. apply sim_pushWord256_next.
  assert (val 1 (W cs'0 s'0) (CreateICmp IUGT v (CreateZExt (getInt64 INT64_MAX) Word)) (b2z (INT64_MAX <? n))) as Vc.
  { eapply isval_eq; [eapply isval_icmp; [done |] | done]. apply (isval_zext _ 64); [lia |]. by apply isval_int64. }
  eapply isval_select; [done | done | by eapply isval_type | |]; intros Hlt; rewrite Hlt.
  - by apply isval_const.
  - apply Z.ltb_ge in Hlt. unfold INT64_MAX in Hlt.
    rewrite wrap_small in Vh by (unfold inw; lia). unfold sgn in Vh.
    rewrite (proj2 (Z.ltb_lt _ _)) in Vh by (simpl; lia). done.
Qed.

Lemma sim_BALANCE cs s r : sim cs s r compile_BALANCE
  (a ← rpop256; h ← gets r_host; _ ← rpush (be_val (get_balance T h (be_bytes 32 a))); mret Next) goes_on.
Proof.
  unfold compile_BALANCE. sim_step sim_popWord256 as v a Va. apply sim_gets.
  sim_left sim_balance as b Vb. by apply sim_push_next.
Qed.

Lemma sim_EXTCODESIZE cs s r : sim cs s r compile_EXTCODESIZE
  (a ← rpop256; h ← gets r_host; _ ← rpush (Z.of_nat (length (get_code T h (be_bytes 32 a)))); mret Next) goes_on.
Proof.
  unfold compile_EXTCODESIZE. sim_step sim_popWord256 as v a Va. apply sim_gets.
  sim_left sim_extcodesize as b Vb. by apply sim_push_next.
Qed.

(** ** Copies *)

Lemma sim_CALLDATALOAD cs s r : sim cs s r compile_CALLDATALOAD
  (i ← rpop; _ ← rpush (be_val (padded (input (x_msg X)) i 16)); mret Next) goes_on.
Proof.
  unfold compile_CALLDATALOAD. sim_step sim_pop as v i Vi. sim_left sim_calldataload as b Vb. by apply sim_push_next.
Qed.

(** The copies from a source whose bytes do not change. *)
Lemma sim_copy cs s r src L srcSize :
  (forall s' : rt H, source_bytes E s' src = L) -> bytes_ok L -> Z.of_nat (length L) < 2 ^ 64 ->
  (forall w, val 128 w srcSize (Z.of_nat (length L))) ->
  sim cs s r (d ← LocalStack.pop; i ← LocalStack.pop; n ← LocalStack.pop; Memory.copyBytes src srcSize i d n)
    (rcopy X L) goes_on.
Proof.
  intros HL Hb Hl Hs. unfold rcopy. sim_step sim_pop as dv d Vd. sim_step sim_pop as iv i Vi. sim_step sim_pop as nv n Vn.
  apply sim_next. by apply sim_copyBytes.
Qed.

Lemma sim_CALLDATACOPY cs s r : sim cs s r compile_CALLDATACOPY (rcopy X (input (x_msg X))) goes_on.
Proof.
  destruct (ok_input _ (ok_msg _ HX)) as [Hb Hl].
  apply (sim_copy _ _ _ SrcCallData (input (x_msg X)) RuntimeManager.getCallDataSize); [done | exact Hb | lia | intros w; by apply isval_callDataSize].
Qed.

Lemma sim_CODECOPY cs s r : sim cs s r (compile_CODECOPY (length (x_code X))) (rcopy X (x_code X)) goes_on.
Proof.
  pose proof (ok_code_len _ HX). apply (sim_copy _ _ _ SrcCode); [done | apply (ok_code_bytes _ HX) | lia |].
  intros w. by apply isval_codeSize.
Qed.

Lemma rpop_inv (r r' : rstate H) z : rpop r = Ok (z, r') -> r_host r' = r_host r /\ r_retbuf r' = r_retbuf r.
Proof. unfold rpop, gets, mbind, M_bind, mret, M_ret, abort. case_match; [done |]. simpl. by intros [= _ <-]. Qed.

Lemma sim_EXTCODECOPY cs s r : sim cs s r compile_EXTCODECOPY
  (a ← rpop256; h ← gets r_host; rcopy X (get_code T h (be_bytes 32 a))) goes_on.
Proof.
  unfold compile_EXTCODECOPY, rcopy. sim_step sim_popWord256 as av a Va. apply sim_gets.
  set (L := get_code T (r_host r') (be_bytes 32 a)).
  sim_step_ok sim_pop as dv d Vd Hd. sim_step_ok sim_pop as iv i Vi Hii. sim_step_ok sim_pop as nv n Vn Hn.
  assert (get_code T (r_host r'2) (be_bytes 32 a) = L) as HL.
  { unfold L. apply rpop_inv in Hd as [<- _], Hii as [<- _], Hn as [<- _]. done. }
  sim_left sim_extcode as [src size] [Vs Hs]. cbn [fst snd] in *. rewrite HL in *.
  destruct (ok_code _ (ok_host _ HX) (r_host r') (be_bytes 32 a)) as [Hb Hl].
  apply sim_next. apply sim_copyBytes; auto.
Qed.

Lemma sim_RETURNDATACOPY cs s r : sim cs s r compile_RETURNDATACOPY
  (d ← rpop; i ← rpop; n ← rpop; _ ← copy_returned X d i n; mret Next) goes_on.
Proof.
  unfold compile_RETURNDATACOPY. sim_step sim_pop as dv d Vd. sim_step sim_pop as iv i Vi. sim_step sim_pop as nv n Vn.
  sim_left sim_returnBufSize as v Vv. apply sim_next. by apply sim_copyBytesNoPadding.
Qed.

(** ** Logs *)

Lemma sim_pops n cs s r :
  sim cs s r (pops n) (rpops n) (fun cs' s' vs zs => Forall2 (val 128 (W cs' s')) vs zs).
Proof.
  revert cs s r. induction n as [| n IH]; intros cs s r; cbn [pops rpops]; [by apply sim_ret |].
  sim_step sim_pop as v z Vv. sim_step IH as vs zs Hvs. apply sim_ret. by constructor.
Qed.

Lemma sim_countLogData cs s r size n :
  val 128 (W cs s) size n -> n <= c_inputMax ->
  sim cs s r (GasMeter.countLogData (x_rev X) size) (charge (n * (if rev_ge (x_rev X) EVM_AION then 20 else 8))) nothing.
Proof.
  intros Vn Hn. pose proof (isval_range _ _ _ _ _ Vn) as [Hn0 _]. unfold GasMeter.countLogData, c_inputMax in *.
  change schedule.(logDataGas) with 8. apply sim_count_word.
  apply (isval_nuwmul _ 128 128); [| done |]; [| apply isval_word]; unfold inw; case_match; lia.
Qed.

Lemma sim_LOG cs s r n : sim cs s r (compile_LOG (x_rev X) n) (step_log X n) goes_on.
Proof.
  unfold compile_LOG, step_log. sim_step sim_pop as ov o Vo. sim_step sim_pop as zv z Vz.
  sim_step sim_require as u u' Hc. pose proof (isval_range _ _ _ _ _ Vz) as [Hz _].
  pose proof (covers_small _ _ _ Hc Hz). sim_step sim_countLogData as w w' _.
  sim_step sim_pops as vs zs Hvs. apply sim_next. by apply sim_log.
Qed.

(** ** Ending the execution *)


Lemma sim_term cs s r t c (Q : cstate -> rt H -> unit -> ctl -> Prop) :
  Q (set_term t cs) s tt c -> sim cs s r (modify (set_term t)) (mret c) Q.
Proof.
  intros HQ Hinv tail. simpl. exists s. split_and!; try done.
  eapply inv_step; eauto; try done. apply (inv_rest _ _ _ _ _ _ _ Hinv).
Qed.

Lemma sim_STOP cs s r :
  sim cs s r compile_STOP (mret (Halt Stop [])) (fun cs' _ _ c => c_term cs' = Some (TExit Stop) /\ c = Halt Stop []).
Proof. by apply sim_term. Qed.

Lemma sim_RETURN cs s r (isRevert : bool) :
  let code := if isRevert then Revert else Return in
  sim cs s r (compile_RETURN isRevert)
    (off ← rpop; n ← rpop; _ ← expand X off n; out ← mem_read off n; mret (Halt code out))
    (fun cs' s' _ c => c_term cs' = Some (TExit code) /\ exists out, c = Halt code out /\ returned s' out).
Proof.
  intros code. unfold compile_RETURN. sim_step sim_pop as ov o Vo. sim_step sim_pop as nv n Vn.
  sim_step sim_require as u u' Hc. sim_step sim_registerReturnData as w out Hout.
  fold code. unfold RuntimeManager.exit. eapply sim_term. eauto.
Qed.

Lemma sim_JUMP cs s r : sim cs s r compile_JUMP (d ← rpop; mret (JumpTo d))
  (fun cs' s' _ c => exists v d, c_term cs' = Some (TJump v) /\ c = JumpTo d /\ val 128 (W cs' s') v d).
Proof. unfold compile_JUMP. sim_step sim_pop as v d Vd. apply sim_term. eauto. Qed.

Lemma sim_JUMPI cs s r : sim cs s r compile_JUMPI
  (d ← rpop; c ← rpop; mret (if c =? 0 then Next else JumpTo d))
  (fun cs' s' _ c => exists b v d z, c_term cs' = Some (TJumpI b v) /\ val 1 (W cs' s') b (b2z (negb (z =? 0)))
     /\ c = (if z =? 0 then Next else JumpTo d) /\ val 128 (W cs' s') v d).
Proof.
  unfold compile_JUMPI. sim_step sim_pop as v d Vd. sim_step sim_pop as b z Vb. apply sim_term.
  eexists _, _, _, _. split_and!; [done | | done | done].
  eapply isval_eq; [eapply isval_icmp; [done | by apply isval_word] | done].
Qed.

Lemma sim_JUMPDEST cs s r pc :
  sim cs s r (compile_JUMPDEST pc) (mret Next) (fun cs' _ _ c => c_term cs' = c_term cs /\ c = Next).
Proof.
  intros Hinv tail. simpl. exists s. split_and!; try done.
  eapply inv_step; eauto; try done. apply (inv_rest _ _ _ _ _ _ _ Hinv).
Qed.

(** ** Calls *)

Lemma charge_inv c (r r' : rstate H) u :
  charge c r = Ok (u, r') -> 0 <= c <= r_gas r /\ r' = mkR (r_stack r) (r_gas r - c) (r_mem r) (r_retbuf r) (r_host r).
Proof.
  unfold charge, gets, mbind, M_bind, set_rgas, abort.
  destruct (Z.leb_spec 0 c), (Z.leb_spec c (r_gas r)); simpl; [intros [= _ <-]; split; [lia | done] | done..].
Qed.

Lemma charge_zero (r : rstate H) : 0 <= r_gas r -> charge 0 r = Ok (tt, r).
Proof.
  intros Hg. unfold charge, gets, mbind, M_bind, set_rgas. rewrite (proj2 (Z.leb_le 0 (r_gas r)) Hg). simpl.
  rewrite Z.sub_0_r. by destruct r.
Qed.

Lemma expand_inv o n (r r' : rstate H) u : expand X o n r = Ok (u, r') -> r_gas r' <= r_gas r.
Proof.
  unfold expand. destruct (n =? 0); [intros [= _ <-]; lia |].
  unfold gets, mbind, M_bind at 1. case_match; case_match; try done; [intros [= _ <-]; lia |].
  unfold M_bind. destruct (charge _ r) as [[u' r1] | |] eqn:Hc; try done.
  apply charge_inv in Hc as [Hc ->]. unfold set_rmem. intros [= _ <-]. simpl. lia.
Qed.

(** A cost paid under a condition. *)
Lemma sim_count_if cs s r v (b : bool) c :
  val 64 (W cs s) v (if b then 0 else c) -> c < 2 ^ 63 ->
  sim cs s r (GasMeter.count v) (if b then mret tt else charge c) nothing.
Proof.
  intros Vv Hc. apply sim_inv. intros Hinv. pose proof (rr_range _ _ _ (inv_rest _ _ _ _ _ _ _ Hinv)) as Hg.
  destruct b; [| by apply sim_count].
  eapply sim_ext; [symmetry; apply charge_zero; lia |]. by apply sim_count.
Qed.

Lemma isval_noTransfer w v z : val 128 w v z -> val 1 w (CreateICmp IEQ v (Constant_get 0)) (b2z (z =? 0)).
Proof. intros Vv. eapply isval_eq; [eapply isval_icmp; [done | by apply isval_word] | done]. Qed.

Lemma sim_transfer cs s r inst v z :
  val 128 (W cs s) v z ->
  let transferGas := if bool_decide (inst = CALL) && x_static X then INT64_MAX
    else if rev_ge (x_rev X) EVM_AION then 15000 else schedule.(valueTransferGas) in
  sim cs s r (GasMeter.count (CreateSelect (CreateICmp IEQ v (Constant_get 0)) (getInt64 0) (getInt64 transferGas)))
    (if z =? 0 then mret tt else if bool_decide (inst = CALL) && x_static X then abort else charge (transfer_cost X)) nothing.
Proof.
  intros Vv tg. assert (0 <= tg < 2 ^ 63) as Htg by (unfold tg, INT64_MAX; cbn [valueTransferGas schedule]; repeat case_match; lia).
  assert (sim cs s r (GasMeter.count (CreateSelect (CreateICmp IEQ v (Constant_get 0)) (getInt64 0) (getInt64 tg)))
    (if z =? 0 then mret tt else charge tg) nothing) as Hs.
  { apply sim_count_if; [| lia]. apply isval_noTransfer in Vv.
    eapply isval_select; [done | by typ | by typ | |]; intros ->; apply isval_int64; unfold inw; lia. }
  destruct (z =? 0); [done |]. unfold tg in *. destruct (bool_decide (inst = CALL) && x_static X); [| exact Hs].
  intros Hinv tail. specialize (Hs Hinv tail). pose proof (rr_range _ _ _ (inv_rest _ _ _ _ _ _ _ Hinv)) as Hg.
  unfold charge, gets, mbind, M_bind in Hs. rewrite (proj2 (Z.leb_gt INT64_MAX (r_gas r))) in Hs by (unfold INT64_MAX; lia).
  exact Hs.
Qed.

Lemma sim_newAccount cs s r v addr a z :
  val 128 (W cs s) v z -> val 256 (W cs s) addr a ->
  let isNew := (account_exists T (r_host r) (be_bytes 32 a) =? 0)
    && negb (rev_ge (x_rev X) EVM_SPURIOUS_DRAGON && (z =? 0)) in
  sim cs s r (accountExists ← Ext.exists_ addr;
      let noPenaltyCond := if rev_ge (x_rev X) EVM_SPURIOUS_DRAGON
        then CreateOr accountExists (CreateICmp IEQ v (Constant_get 0)) else accountExists in
      GasMeter.count (CreateSelect noPenaltyCond (getInt64 0) (getInt64 schedule.(callNewAccount))))
    (if isNew then charge 25000 else mret tt) nothing.
Proof.
  intros Vv Va isNew. sim_left sim_exists as e Ve. cbv zeta.
  assert (account_exists T (r_host r) (be_bytes 32 a) = b2z (negb (account_exists T (r_host r) (be_bytes 32 a) =? 0))) as He
    by (by destruct (ok_exists _ (ok_host _ HX) (r_host r) (be_bytes 32 a)) as [-> | ->]).
  rewrite He in Ve. set (ex := negb (_ =? 0)) in *.
  set (cond := if rev_ge _ _ then _ else _).
  assert (val 1 (W cs' s') cond (b2z (negb isNew))) as Vc.
  { unfold cond. replace (negb isNew) with (ex || rev_ge (x_rev X) EVM_SPURIOUS_DRAGON && (z =? 0))
      by (unfold isNew, ex; by rewrite negb_andb, negb_involutive).
    destruct (rev_ge _ _); simpl.
    - rewrite <- lor_b2z. apply isval_or; [done | done |]. by apply isval_noTransfer.
    - by rewrite orb_false_r. }
  replace (if isNew then charge 25000 else mret tt) with (if negb isNew then mret tt else charge (H := H) 25000) by (by destruct isNew).
  apply sim_count_if; [| done].
  eapply isval_select; [done | by typ | by typ | |]; intros ->; by apply isval_int64.
Qed.

Lemma sim_newAccount_if cs s r inst v addr a z :
  val 128 (W cs s) v z -> val 256 (W cs s) addr a ->
  let isNew := (account_exists T (r_host r) (be_bytes 32 a) =? 0)
    && negb (rev_ge (x_rev X) EVM_SPURIOUS_DRAGON && (z =? 0)) in
  sim cs s r (if bool_decide (inst = CALL) then
      accountExists ← Ext.exists_ addr;
      let noPenaltyCond := if rev_ge (x_rev X) EVM_SPURIOUS_DRAGON
        then CreateOr accountExists (CreateICmp IEQ v (Constant_get 0)) else accountExists in
      GasMeter.count (CreateSelect noPenaltyCond (getInt64 0) (getInt64 schedule.(callNewAccount)))
      else mret tt)
    (if bool_decide (inst = CALL) && isNew then charge 25000 else mret tt) nothing.
Proof. intros Vv Va isNew. destruct (bool_decide _); [by apply sim_newAccount | by apply sim_ret]. Qed.

(** Arithmetic on gas amounts, which never wraps. *)
Lemma isval_gas_bin op f w a b x y :
  (op = Add i64 true true /\ f = Z.add \/ op = Sub i64 true true /\ f = Z.sub) ->
  val 64 w a x -> val 64 w b y -> x < 2 ^ 63 -> y < 2 ^ 63 -> 0 <= f x y < 2 ^ 63 ->
  val 64 w (CreateBin op a b) (f x y).
Proof.
  intros Hop Va Vb Hx Hy Hf. pose proof (isval_range _ _ _ _ _ Va) as [Hx0 _]. pose proof (isval_range _ _ _ _ _ Vb) as [Hy0 _].
  assert (arith f 64 true true x y = Some (f x y)) as Ha.
  { apply arith_nuw_nsw; [unfold inw; lia |]. unfold sgn. change (64 - 1) with 63.
    rewrite !(proj2 (Z.ltb_lt _ _)) by lia. lia. }
  assert (inw 64 (f x y)) by (unfold inw; lia).
  destruct Hop as [[-> ->] | [-> ->]];
    [apply (isval_bin _ (Add i64 true true) 64 64 w a b x y) | apply (isval_bin _ (Sub i64 true true) 64 64 w a b x y)]; done.
Qed.

(** All but one 64th of the gas left. *)
Lemma isval_allowed w gas g :
  val 64 w gas g -> g < 2 ^ 63 -> val 64 w (CreateBin (Sub i64 true true) gas (CreateLShr gas 6)) (g - g / 64).
Proof.
  intros Vg Hg. pose proof (isval_range _ _ _ _ _ Vg) as [Hg0 _].
  pose proof (Z.div_pos g 64 Hg0 ltac:(lia)). pose proof (Z.div_le_upper_bound g 64 g ltac:(lia) ltac:(lia)).
  apply (isval_gas_bin _ Z.sub); [by right | done | | lia | lia | lia].
  eapply isval_eq; [by apply (isval_lshr _ 64) |]. by rewrite Z.shiftr_div_pow2.
Qed.

Lemma sim_callGas cs s r v z :
  val 128 (W cs s) v z ->
  sim cs s r (if rev_ge (x_rev X) EVM_TANGERINE_WHISTLE then
               gas ← RuntimeManager.getGas;
               let gas64th := CreateLShr gas 6 in
               let gasMaxAllowed := CreateZExt (CreateBin (Sub i64 true true) gas gas64th) Word in
               let cmp := CreateICmp IUGT v gasMaxAllowed in
               mret (CreateSelect cmp gasMaxAllowed v)
             else mret v) (mret tt)
    (fun cs' s' c _ => val 128 (W cs' s') c
       (if rev_ge (x_rev X) EVM_TANGERINE_WHISTLE then Z.min z (r_gas r - r_gas r / 64) else z)).
Proof.
  intros Vv. destruct (rev_ge _ _); [| by apply sim_ret].
  apply sim_inv. intros Hinv. pose proof (rr_range _ _ _ (inv_rest _ _ _ _ _ _ _ Hinv)) as Hg.
  sim_left sim_getGas as gas Vg. cbv zeta. apply sim_ret.
  apply isval_allowed in Vg; [| lia]. apply (isval_zext _ 64 128) in Vg; [| lia].
  assert (val 1 (W cs' s') (CreateICmp IUGT v (CreateZExt (CreateBin (Sub i64 true true) gas (CreateLShr gas 6)) Word))
    (b2z (r_gas r - r_gas r / 64 <? z))) as Vc.
  { eapply isval_eq; [by eapply isval_icmp | done]. }
  eapply isval_select; [done | by typ | by eapply isval_type | |]; intros Hlt; [apply Z.ltb_lt in Hlt | apply Z.ltb_ge in Hlt];
    [rewrite Z.min_r by lia | rewrite Z.min_l by lia]; done.
Qed.

(** A transfer pays for the stipend. *)
Lemma transfer_inv inst z (r r' : rstate H) u :
  (if z =? 0 then mret tt else if bool_decide (inst = CALL) && x_static X then abort else charge (transfer_cost X)) r = Ok (u, r') ->
  r_gas r' + (if z =? 0 then 0 else 2300) <= r_gas r.
Proof.
  destruct (z =? 0); [intros [= _ <-]; lia |]. case_match; [done |].
  intros Hc. apply charge_inv in Hc as [_ ->]. unfold transfer_cost. simpl. case_match; lia.
Qed.

Lemma penalty_inv (b : bool) c (r r' : rstate H) u :
  (if b then charge c else mret tt) r = Ok (u, r') -> r_gas r' <= r_gas r.
Proof. destruct b; [| intros [= _ <-]; lia]. intros Hc. apply charge_inv in Hc as [? ->]. simpl. lia. Qed.

Lemma M_bind_ok {A B} (m : @M H A) (k : A -> M B) r b r' :
  (m ≫= k) r = Ok (b, r') -> exists a r1, m r = Ok (a, r1) /\ k a r1 = Ok (b, r').
Proof. unfold mbind, M_bind. destruct (m r) as [[a r1] | |]; try done. eauto. Qed.

Lemma sim_call_costs cs s r inst gas addr v inOff inSize outOff outSize g a z io isz oo osz :
  val 128 (W cs s) gas g -> val 256 (W cs s) addr a -> val 128 (W cs s) v z ->
  val 128 (W cs s) inOff io -> val 128 (W cs s) inSize isz ->
  val 128 (W cs s) outOff oo -> val 128 (W cs s) outSize osz ->
  sim cs s r (compile_call_costs (x_rev X) (x_static X) inst gas addr v inOff inSize outOff outSize)
    (call_costs X inst g a z io isz oo osz)
    (fun cs' s' c given => val 64 (W cs' s') c given /\ covers (W cs' s') io isz /\ covers (W cs' s') oo osz).
Proof.
  intros Vg Va Vz Vio Visz Voo Vosz. unfold compile_call_costs, call_costs. cbv zeta.
  sim_step sim_require as u1 u1' Hc1. sim_step sim_require as u2 u2' Hc2.
  sim_step_ok sim_transfer as u3 u3' _ Htr. pose proof (rr_range _ _ _ (inv_rest _ _ _ _ _ _ _ H1)) as Hg0. apply sim_gets.
  sim_step_ok (sim_newAccount_if _ _ _ inst) as u4 u4' _ Hna. pose proof (rr_range _ _ _ (inv_rest _ _ _ _ _ _ _ Hi0)) as Hg2.
  apply sim_gets.
  sim_left sim_callGas as cg Vcg. set (callGas := if rev_ge _ _ then _ else _) in *.
  sim_step_ok sim_count_word as u5 u5' _ Hch. apply charge_inv in Hch as [Hcg _].
  apply transfer_inv in Htr. apply penalty_inv in Hna.
  assert (0 <= callGas + (if z =? 0 then 0 else 2300) < 2 ^ 63) as Hgiven by (destruct (z =? 0); lia).
  apply sim_ret. split; [| done]. apply (isval_gas_bin _ Z.add); [by left | | | lia | by destruct (z =? 0) | lia].
  - eapply isval_trunc_small; [unfold inw; lia | done | done].
  - apply isval_noTransfer in Vz.
    eapply isval_select; [done | by typ | by typ | |]; intros ->; by apply isval_int64.
Qed.

(** The gas given to the callee is paid for. *)
Lemma call_costs_inv inst g a z io isz oo osz (r r' : rstate H) given :
  call_costs X inst g a z io isz oo osz r = Ok (given, r') -> 0 <= given /\ r_gas r' + given <= r_gas r.
Proof.
  unfold call_costs. intros Hc. repeat (apply M_bind_ok in Hc as (? & ? & ?Hs & Hc); cbv beta zeta in Hc).
  injection Hc as <- <-. apply expand_inv in Hs, Hs0. injection Hs2 as <- <-. injection Hs4 as <- <-.
  apply transfer_inv in Hs1. apply penalty_inv in Hs3. apply charge_inv in Hs5 as [Hcg ->]. simpl in *.
  destruct (z =? 0); lia.
Qed.

(** Decoding what a call returned. *)
Lemma isval_call_result w c (b : bool) g :
  val 64 w c (call_code b g) -> 0 <= g < 2 ^ 63 ->
  val 1 w (call_result c).1 (b2z b) /\ val 64 w (call_result c).2 g.
Proof.
  intros Vc Hg. unfold call_result. cbn [fst snd].
  assert (val 1 w (CreateICmp ISGE c (getInt64 0)) (b2z b)) as Vr.
  { eapply isval_eq; [eapply isval_icmp; [done | by apply isval_int64] |]. simpl.
    change (sgn 64 0) with 0. by rewrite sgn_call_code. }
  split; [done |].
  eapply isval_eq; [eapply isval_sub; [done | done |] |].
  - eapply (isval_select _ 64 _ _ _ _ b (if b then 0 else EVM_CALL_FAILURE)); [done | by typ | by typ | |]; intros ->; by apply isval_int64.
  - unfold call_code. destruct b; [rewrite Z.sub_0_r | replace (g + 2 ^ 63 - 2 ^ 63) with g by lia];
      apply wrap_small; unfold inw; lia.
Qed.

Lemma send_gas inst m v (r r' : rstate H) res : send X inst m v r = Ok (res, r') -> r_gas r' = r_gas r.
Proof. rewrite send_unfold. by case_match; intros [= _ <-]. Qed.

Lemma do_call_gas inst g a v io isz oo osz (r r' : rstate H) res :
  do_call X inst g a v io isz oo osz r = Ok (res, r') -> r_gas r' = r_gas r.
Proof.
  unfold do_call. intros Hc. repeat (apply M_bind_ok in Hc as (? & ? & ?Hs & Hc); cbv beta zeta in Hc).
  injection Hc as <- <-. injection Hs as <- <-. injection Hs0 as <- <-. apply send_gas in Hs1.
  rewrite <- Hs1. case_match; by injection Hs2 as _ <-.
Qed.

Lemma do_create_gas g v io isz (r r' : rstate H) res :
  do_create X g v io isz r = Ok (res, r') -> r_gas r' = r_gas r.
Proof.
  unfold do_create. intros Hc. do 2 (apply M_bind_ok in Hc as (? & ? & Hs & Hc); injection Hs as <- <-). by apply send_gas in Hc.
Qed.

Lemma sim_giveBack cs s r v g :
  val 64 (W cs s) v g -> r_gas r + g < 2 ^ 63 - 1 ->
  sim cs s r (GasMeter.giveBack v) (g' ← gets r_gas; set_rgas (g' + g)) nothing.
Proof.
  intros Vv Hg. apply sim_gets. apply sim_inv. intros Hinv. pose proof (rr_range _ _ _ (inv_rest _ _ _ _ _ _ _ Hinv)) as Hr.
  pose proof (isval_range _ _ _ _ _ Vv) as [Hg0 _].
  unfold GasMeter.giveBack. sim_left sim_getGas as gas Vg. apply sim_setGas; [| done].
  eapply isval_eq; [by eapply isval_add |]. apply wrap_small. unfold inw. lia.
Qed.

Lemma sim_value cs s r (b : bool) :
  sim cs s r (if b then LocalStack.pop else mret (Constant_get 0)) (if b then rpop else mret 0)
    (fun cs' s' v z => val 128 (W cs' s') v z).
Proof. destruct b; [apply sim_pop |]. apply sim_ret. by apply isval_word. Qed.

Lemma sim_CALL cs s r inst :
  sends inst = true -> inst <> CREATE ->
  sim cs s r (compile_CALL (x_rev X) (x_static X) inst) (step_call X inst) goes_on.
Proof.
  intros Hs Hnc. unfold compile_CALL, step_call.
  sim_step sim_pop as gas g Vg. sim_step sim_popWord256 as addr a Va. sim_step sim_value as v z Vz.
  sim_step sim_pop as inOff io Vio. sim_step sim_pop as inSize isz Visz.
  sim_step sim_pop as outOff oo Voo. sim_step sim_pop as outSize osz Vosz.
  sim_left sim_commit as u _.
  sim_step_ok sim_call_costs as c given (Vc & Hin & Hout) Hcc. apply call_costs_inv in Hcc as [Hg0 Hpaid].
  pose proof (rr_range _ _ _ (inv_rest _ _ _ _ _ _ _ H1)) as Hr0. pose proof (rr_range _ _ _ (inv_rest _ _ _ _ _ _ _ Hi)) as Hr1.
  assert (given < 2 ^ 63) as Hg1 by lia.
  sim_step_ok sim_call as c' res (Vc' & Hback) Hdo. apply do_call_gas in Hdo.
  apply isval_call_result in Vc' as [Vr Vb]; [| lia]. destruct (call_result c') as [ret finalGas]. cbn [fst snd] in *.
  eapply sim_bind2; [apply sim_giveBack; [done | lia] | mono_rest |]. intros ? ? ? [] [] HleZ _. advance HleZ. apply sim_push_next. by apply (isval_zext _ 1).
Qed.

Lemma sim_CREATE cs s r : sim cs s r (compile_CREATE (x_rev X)) (step_create X) goes_on.
Proof.
  unfold compile_CREATE, step_create. sim_step sim_pop as ev e Ve. sim_step sim_pop as ov o Vo. sim_step sim_pop as nv n Vn.
  sim_step_ok sim_require as u1 u1' Hc Hexp. sim_left sim_commit as u2 _. apply sim_gets.
  pose proof (rr_range _ _ _ (inv_rest _ _ _ _ _ _ _ Hi)) as Hg. sim_left sim_getGas as gas Vg. cbv zeta.
  set (keptV := if rev_ge _ _ then CreateLShr gas 6 else getInt64 0).
  set (g := r_gas _) in *. set (kept := if rev_ge _ _ then g / 64 else 0).
  assert (0 <= kept <= g) as Hk.
  { unfold kept. case_match; [| lia]. split; [apply Z.div_pos; lia | apply Z.div_le_upper_bound; lia]. }
  assert (val 64 (W cs'4 s'4) keptV kept) as Vk.
  { unfold keptV, kept. case_match; [| by apply isval_int64].
    eapply isval_eq; [by apply (isval_lshr _ 64) |]. by rewrite Z.shiftr_div_pow2. }
  assert (val 64 (W cs'4 s'4) (CreateBin (Sub i64 true true) gas keptV) (g - kept)) as Vs
    by (apply (isval_gas_bin _ Z.sub); [by right | done | done | lia | lia | lia]).
  eapply sim_bind_ok; [eapply sim_create; eauto; lia | mono_rest |].
  intros csA sA rA [c addr] res Hdo _ Hi2 HleZ. cbn [fst snd]. intros (Vc & Hback & Ht & Hok). advance HleZ.
  apply do_create_gas in Hdo. apply isval_call_result in Vc as [Vr Vb]; [| lia].
  destruct (call_result c) as [ret gasLeft]. cbn [fst snd] in *.
  assert (val 64 (W csA sA) (CreateAdd gasLeft keptV) (kept + gas_back res (g - kept))) as Vnew.
  { eapply isval_eq; [by eapply isval_add |]. rewrite wrap_small by (unfold inw; lia). lia. }
  eapply sim_bind; [apply sim_setGas; [done | lia] | mono_rest |]. intros ? ? ? [] [] HleY _. advance HleY.
  apply sim_pushWord256_next.
  eapply isval_select; [done | by typ | done | |].
  - intros Hs. destruct res as [rs |]; [| done]. destruct (Hok rs eq_refl) as [Va Hl]; [by apply bool_decide_eq_true in Hs |].
    rewrite Hs. apply (isval_zext _ 256); [lia |]. apply (isval_native _ _ _ 32); [done | done |]. eapply isval_mono; done.
  - intros Hs. rewrite Hs. destruct res; by apply isval_const.
Qed.

Lemma me_bytes : be_bytes 32 (be_val me) = me.
Proof. destruct (ok_address _ (ok_msg _ HX)) as [Hl Hb]. rewrite <- Hl. by apply be_bytes_be_val. Qed.

(** The penalty for a new beneficiary. *)
Lemma sim_beneficiary cs s r dest a :
  val 256 (W cs s) dest a ->
  let isNew := rev_ge (x_rev X) EVM_TANGERINE_WHISTLE && (account_exists T (r_host r) (be_bytes 32 a) =? 0)
    && negb (rev_ge (x_rev X) EVM_SPURIOUS_DRAGON && (be_val (get_balance T (r_host r) me) =? 0)) in
  sim cs s r
    (if rev_ge (x_rev X) EVM_TANGERINE_WHISTLE then
         destExists ← Ext.exists_ dest;
         noPenaltyCond ←
           (if rev_ge (x_rev X) EVM_SPURIOUS_DRAGON then
              let addr := toNative RuntimeManager.getAddress in
              balance ← Ext.balance addr;
              let noTransfer := CreateICmp IEQ balance (Constant_get 0) in
              mret (CreateOr destExists noTransfer)
            else mret destExists);
         let penalty := CreateSelect noPenaltyCond (getInt64 0) (getInt64 schedule.(callNewAccount)) in
         GasMeter.count penalty
       else mret tt)
    (if isNew then charge 25000 else mret tt) nothing.
Proof.
  intros Va isNew. destruct (rev_ge (x_rev X) EVM_TANGERINE_WHISTLE); [| by apply sim_ret]. simpl in isNew.
  sim_left sim_exists as e Ve.
  assert (account_exists T (r_host r) (be_bytes 32 a) = b2z (negb (account_exists T (r_host r) (be_bytes 32 a) =? 0))) as He
    by (by destruct (ok_exists _ (ok_host _ HX) (r_host r) (be_bytes 32 a)) as [-> | ->]).
  rewrite He in Ve. set (ex := negb (_ =? 0)) in *.
  replace (if isNew then charge 25000 else mret tt) with (if negb isNew then mret tt else charge (H := H) 25000) by (by destruct isNew).
  replace isNew with (negb (ex || rev_ge (x_rev X) EVM_SPURIOUS_DRAGON && (be_val (get_balance T (r_host r) me) =? 0)))
    by (unfold isNew, ex; by rewrite negb_orb, negb_involutive). rewrite negb_involutive.
  pose proof (isval_address_word X gas0 gasPrice HX (W cs' s')) as Vme.
  eapply (sim_bind_l _ _ _ _ _ _ _ _ _ _ _ (fun cs' s' c _ => val 1 (W cs' s') c
    (b2z (ex || rev_ge (x_rev X) EVM_SPURIOUS_DRAGON && (be_val (get_balance T (r_host r) me) =? 0))))).
  - destruct (rev_ge (x_rev X) EVM_SPURIOUS_DRAGON); [| apply sim_ret; by rewrite orb_false_r].
    cbv zeta. sim_left sim_balance as b Vb. apply sim_ret. simpl. rewrite <- lor_b2z. apply isval_or; [done | done |].
    rewrite me_bytes in Vb. by apply isval_noTransfer.
  - mono_rest.
  - intros ? ? c HleY Vc. cbv zeta. apply sim_count_if; [| done].
    eapply isval_select; [done | by typ | by typ | |]; intros ->; by apply isval_int64.
Qed.

Lemma sim_SELFDESTRUCT cs s r : sim cs s r (compile_SELFDESTRUCT (x_rev X)) (step_selfdestruct X)
  (fun cs' _ _ c => c_term cs' = Some (TExit Stop) /\ c = Halt Stop []).
Proof.
  unfold compile_SELFDESTRUCT, step_selfdestruct. sim_step sim_popWord256 as dest a Va. apply sim_gets. cbv zeta.
  sim_step_ok sim_beneficiary as u u' _ Hm.
  assert (r_host r' = r_host r'0) as -> by (case_match; [apply charge_inv in Hm as [_ ->] | injection Hm as _ <-]; done).
  sim_step sim_selfdestruct as w w' _. by apply sim_STOP.
Qed.

(** ** The dispatch *)

(** How the code of an instruction leaves, with what is in the terminator. *)
Definition leaves (cs' : cstate) (s' : rt H) (c : ctl) : Prop :=
  match c, c_term cs' with
  | Next, None => True
  | Next, Some (TJumpI b _) => val 1 (W cs' s') b 0
  | JumpTo d, Some (TJump v) => val 128 (W cs' s') v d
  | JumpTo d, Some (TJumpI b v) => val 1 (W cs' s') b 1 /\ val 128 (W cs' s') v d
  | Halt code out, Some (TExit code') =>
      code' = code /\ match code with Stop => out = [] | _ => returned s' out end
  | _, _ => False
  end.

(** The operand of a push, as the generator has it: the constant and its bits. *)
Definition push_ok (inst : Instruction) (data : Z * Z) : Prop :=
  match inst with
  | PUSH n => data.2 = (if (n <=? 16)%nat then 128 else 256) /\ inw data.2 data.1
  | _ => True
  end.

Lemma sim_PUSH cs s r n data :
  push_ok (PUSH n) data ->
  sim cs s r (compile_PUSH data.1 data.2) (step_body X 0 data.1 (PUSH n)) goes_on.
Proof.
  destruct data as [v bits]. intros [-> Hv]. unfold compile_PUSH. cbn [step_body fst snd] in *.
  destruct (n <=? 16)%nat; [apply sim_push_next | apply sim_pushWord256_next]; by apply isval_const.
Qed.

Create HintDb opcodes discriminated.
Hint Constants Opaque : opcodes.
#[local] Hint Resolve sim_ADD sim_SUB sim_MUL sim_DIV sim_SDIV sim_MOD sim_SMOD sim_ADDMOD sim_MULMOD sim_EXP
  sim_SIGNEXTEND sim_ISZERO sim_AND sim_OR sim_XOR sim_NOT sim_BYTE sim_SHA3 sim_ADDRESS sim_CALLER
  sim_CALLVALUE sim_CALLDATALOAD sim_CALLDATASIZE sim_CODESIZE sim_RETURNDATASIZE sim_CALLDATACOPY
  sim_CODECOPY sim_EXTCODECOPY sim_RETURNDATACOPY sim_BALANCE sim_EXTCODESIZE sim_BLOCKHASH sim_POP
  sim_MLOAD sim_MSTORE sim_MSTORE8 sim_SLOAD sim_SSTORE sim_PC sim_MSIZE sim_GAS sim_LOG sim_CREATE : opcodes.

#[local] Hint Extern 1 (Sim.sim _ _ _ _ _ _ _ _ (compile_cmp _) _ _) => apply sim_cmp; intros; reflexivity : opcodes.
#[local] Hint Extern 1 (Sim.sim _ _ _ _ _ _ _ _ (compile_CALL _ _ _) _ _) => apply sim_CALL; done : opcodes.
#[local] Hint Extern 1 (Sim.sim _ _ _ _ _ _ _ _ (LocalStack.dup _) _ _) => apply sim_next, sim_dup : opcodes.
#[local] Hint Extern 1 (Sim.sim _ _ _ _ _ _ _ _ (LocalStack.swap _) _ _) => apply sim_next, sim_swap : opcodes.

(** The instructions that go on to the next one. *)
Lemma sim_straight first pc data inst cs s r :
  jumps inst = false -> allowed X inst = true -> push_ok inst data -> inw 128 (Z.of_nat pc) ->
  sim cs s r (compileInst (x_rev X) (x_static X) (length (x_code X)) first pc data inst)
    (step_body X pc data.1 inst) goes_on.
Proof.
  intros Hj Ha Hp Hpc. pose proof (ok_tx _ (ok_host _ HX)) as Htx. cbv zeta in Htx.
  destruct inst; try discriminate Hj; try discriminate Ha; cbn [compileInst step_body]; try solve [eauto 2 with opcodes].
  - apply (sim_tx256 _ _ _ 1 tx_origin); [lia | done | done | apply Htx].
  - apply (sim_tx128 _ _ _ 0 tx_gas_price); [lia | done | done | apply Htx].
  - apply (sim_tx256 _ _ _ 2 block_coinbase); [lia | done | done | apply Htx].
  - by apply (sim_tx64 _ _ _ 4 block_timestamp); [lia | |].
  - by apply (sim_tx64 _ _ _ 3 block_number); [lia | |].
  - apply (sim_tx128 _ _ _ 6 block_difficulty); [lia | done | done | apply Htx].
  - by apply (sim_tx64 _ _ _ 5 block_gas_limit); [lia | |].
  - by apply (sim_PUSH _ _ _ _ data).
Qed.

(** For every instruction the revision and the call mode allow, the code the
    compiler emits does what the machine specifies. *)
Lemma sim_body first pc data inst cs s r :
  allowed X inst = true -> push_ok inst data -> inw 128 (Z.of_nat pc) -> c_term cs = None ->
  sim cs s r (compileInst (x_rev X) (x_static X) (length (x_code X)) first pc data inst)
    (step_body X pc data.1 inst) (fun cs' s' _ c => leaves cs' s' c).
Proof.
  intros Ha Hp Hpc Ht. destruct (jumps inst) eqn:Hj.
  - destruct inst; try discriminate Hj; cbn [compileInst step_body].
    + eapply sim_conseq; [apply sim_STOP |]. intros cs' s' [] c [Hc ->]. unfold leaves. by rewrite Hc.
    + eapply sim_conseq; [apply sim_JUMP |]. intros cs' s' [] c (v & d & Hc & -> & Vd). unfold leaves. by rewrite Hc.
    + eapply sim_conseq; [apply sim_JUMPI |]. intros cs' s' [] c (b & v & d & z & Hc & Vb & -> & Vd). unfold leaves.
      rewrite Hc. by destruct (z =? 0).
    + eapply sim_conseq; [apply sim_JUMPDEST |]. intros cs' s' [] c [Hc ->]. unfold leaves. by rewrite Hc, Ht.
    + eapply sim_conseq; [apply (sim_RETURN _ _ _ false) |]. intros cs' s' [] c (Hc & out & -> & Hr). unfold leaves. by rewrite Hc.
    + eapply sim_conseq; [apply (sim_RETURN _ _ _ true) |]. intros cs' s' [] c (Hc & out & -> & Hr). unfold leaves. by rewrite Hc.
    + eapply sim_conseq; [apply sim_SELFDESTRUCT |]. intros cs' s' [] c [Hc ->]. unfold leaves. by rewrite Hc.
  - eapply sim_conseq.
    + eapply sim_keeps; [by apply noterm_compileInst | by apply sim_straight].
    + intros cs' s' [] c [-> [Hc _]]. unfold leaves. by rewrite Hc, Ht.
Qed.
End SimInst.
