(* ===== verification/Charge.v ===== *)
(** * Charging a block at once

    [GasMeter] adds up the static costs of the instructions between two points
    where the gas counter can be observed and emits one check for the sum, at
    the start.  [charged] is the reference machine with this policy, and
    [charged_steps] shows that it makes no difference to the outcome: a run
    that cannot pay a later instruction aborts a little earlier. *)
From S2P Require Import Prelude Bytes Instruction BasicBlocks LLVMInt EvmAbi GasSchedule Keccak Runtime IR.
From S2P Require Import Machine Frames.

(** An instruction of a block: its position, and the constant and the bits of a push. *)
Record item := mkItem { i_pc : nat; i_data : Z * Z; i_inst : Instruction }.

Create HintDb shift discriminated.

Section Charge.
Context {H : Type} (X : Ctx H).

Abbreviation cost i := (getStepCost (x_rev X) (i_inst i)).
Abbreviation body i := (step_body X (i_pc i) (i_data i).1 (i_inst i)).

(** The instructions in turn, each paying its own cost. *)
Fixpoint steps (l : list item) : @M H ctl :=
  match l with
  | [] => mret Next
  | i :: l =>
      c ← step X (i_pc i) (i_data i).1 (i_inst i);
      match c with Next => steps l | _ => mret c end
  end.

(** The cost block at the start of [l]: up to an instruction that observes the
    gas counter, or one that is not allowed. *)
Fixpoint blockCost (l : list item) : Z :=
  match l with
  | [] => 0
  | i :: l => cost i + (if allowed X (i_inst i) && negb (commits (i_inst i)) then blockCost l else 0)
  end.

(** The instructions with cost blocks; [open]: the cost of the current one is paid. *)
Fixpoint charged (open : bool) (l : list item) : @M H ctl :=
  match l with
  | [] => mret Next
  | i :: l' =>
      _ ← (if open then mret tt else charge (blockCost l));
      if allowed X (i_inst i) then
        c ← body i;
        match c with Next => charged (negb (commits (i_inst i))) l' | _ => mret c end
      else abort
  end.

(** ** Computations that do not look at the gas counter *)

Definition less (d : Z) (r : rstate H) : rstate H :=
  mkR (r_stack r) (r_gas r - d) (r_mem r) (r_retbuf r) (r_host r).

(** With less gas the computation does the same, or aborts if the gas does not suffice. *)
Definition shiftable {A} (m : @M H A) : Prop := forall r d, 0 <= d <= r_gas r ->
  match m r with
  | Undef => m (less d r) = Undef \/ m (less d r) = Abort
  | Abort => m (less d r) = Abort
  | Ok (a, r') => 0 <= r_gas r' <= r_gas r /\
      m (less d r) = if d <=? r_gas r' then Ok (a, less d r') else Abort
  end.

Lemma shiftable_ret {A} (a : A) : shiftable (mret a).
Proof. intros r d Hd. simpl. split; [lia |]. by rewrite (proj2 (Z.leb_le _ _)) by lia. Qed.

Lemma shiftable_bind {A B} (m : @M H A) (k : A -> M B) :
  shiftable m -> (forall a, shiftable (k a)) -> shiftable (m ≫= k).
Proof.
  intros Hm Hk r d Hd. unfold mbind, M_bind. specialize (Hm r d Hd).
  destruct (m r) as [[a r1] | |]; [| by rewrite Hm | destruct Hm as [-> | ->]; auto]. destruct Hm as [Hg ->].
  destruct (Z.leb_spec d (r_gas r1)).
  - specialize (Hk a r1 d ltac:(lia)). destruct (k a r1) as [[b r2] | |]; [| done | done].
    destruct Hk as [Hg2 ->]. split; [lia | done].
  - pose proof (Hk a r1 0 ltac:(lia)) as Hk0. destruct (k a r1) as [[b r2] | |]; [| done | by right].
    destruct Hk0 as [Hg2 _]. split; [lia |]. by rewrite (proj2 (Z.leb_gt _ _)) by lia.
Qed.

Lemma shiftable_abort {A} : shiftable (A := A) abort.
Proof. by intros r d Hd. Qed.
Lemma shiftable_unspecified {A} : shiftable (A := A) unspecified.
Proof. intros r d Hd. by left. Qed.

(** Computations that neither read nor write the counter. *)
Lemma shiftable_pure {A} (m : @M H A) :
  (forall r d, match m r with
               | Undef => m (less d r) = Undef | Abort => m (less d r) = Abort
               | Ok (a, r') => r_gas r' = r_gas r /\ m (less d r) = Ok (a, less d r')
               end) -> shiftable m.
Proof.
  intros Hm r d Hd. specialize (Hm r d). destruct (m r) as [[a r'] | |]; [| done | by left].
  destruct Hm as [-> ->]. split; [lia |]. by rewrite (proj2 (Z.leb_le _ _)) by lia.
Qed.

Lemma shiftable_stack : shiftable (gets r_stack).
Proof. by apply shiftable_pure. Qed.
Lemma shiftable_mem : shiftable (gets r_mem).
Proof. by apply shiftable_pure. Qed.
Lemma shiftable_retbuf : shiftable (gets r_retbuf).
Proof. by apply shiftable_pure. Qed.
Lemma shiftable_host : shiftable (gets r_host).
Proof. by apply shiftable_pure. Qed.
Lemma shiftable_set_rstack st : shiftable (set_rstack st).
Proof. by apply shiftable_pure. Qed.
Lemma shiftable_set_rmem m : shiftable (set_rmem m).
Proof. by apply shiftable_pure. Qed.
Lemma shiftable_set_rretbuf b : shiftable (set_rretbuf b).
Proof. by apply shiftable_pure. Qed.
Lemma shiftable_set_rhost h : shiftable (set_rhost h).
Proof. by apply shiftable_pure. Qed.

Lemma shiftable_charge c : shiftable (charge c).
Proof.
  intros r d Hd. unfold charge, gets, mbind, M_bind, set_rgas, abort. cbn [r_gas less].
  destruct (Z.leb_spec 0 c); simpl; [| done].
  destruct (Z.leb_spec c (r_gas r)); destruct (Z.leb_spec c (r_gas r - d)); simpl; try lia; try done.
  - split; [lia |]. rewrite (proj2 (Z.leb_le _ _)) by lia. unfold less. simpl. do 3 f_equal. lia.
  - split; [lia |]. by rewrite (proj2 (Z.leb_gt _ _)) by lia.
Qed.

#[local] Hint Resolve shiftable_ret shiftable_abort shiftable_unspecified shiftable_stack shiftable_mem shiftable_retbuf
  shiftable_host shiftable_set_rstack shiftable_set_rmem shiftable_set_rretbuf shiftable_set_rhost shiftable_charge : shift.

Ltac shift_tac := repeat (cbv zeta; match goal with
  | |- shiftable (mbind _ _) => apply shiftable_bind; [| intros]
  | |- shiftable (match ?x with _ => _ end) => destruct x
  | |- shiftable _ => solve [auto with shift]
  end).

Lemma shiftable_rpop : shiftable rpop.
Proof. unfold rpop. shift_tac. Qed.
Lemma shiftable_rpush z : shiftable (rpush z).
Proof. unfold rpush. shift_tac. Qed.
Lemma shiftable_expand o n : shiftable (expand X o n).
Proof. unfold expand. shift_tac. Qed.
#[local] Hint Resolve shiftable_rpop shiftable_rpush shiftable_expand : shift.

Lemma shiftable_rpops n : shiftable (rpops n).
Proof. induction n; cbn [rpops]; shift_tac. Qed.
#[local] Hint Resolve shiftable_rpops : shift.

(** All instructions but those that end a cost block. *)
Lemma shiftable_body pc data inst : commits inst = false -> shiftable (step_body X pc data inst).
Proof.
  intros Hc. destruct inst; try discriminate Hc; cbn [step_body];
    unfold step_selfdestruct, step_log, binary, signed_division, push_tx, push_tx256, rcopy, copy_padded, copy_returned,
      rdup, rswap, rpush256, rpop256, log_data, mem_read, mem_write; shift_tac.
Qed.

(** ** Blocks *)

(** Only the last instruction ends a block. *)
Fixpoint straight (l : list item) : Prop :=
  match l with
  | [] => True
  | i :: l => (l = [] \/ setsEnd (i_inst i) = false) /\ straight l
  end.

Definition nexts (m : @M H ctl) : Prop := forall r c r', m r = Ok (c, r') -> c = Next.

Lemma nexts_ret : nexts (mret Next).
Proof. by intros r c r' [= <- _]. Qed.
Lemma nexts_bind {A} (m : @M H A) k : (forall a, nexts (k a)) -> nexts (m ≫= k).
Proof. intros Hk r c r'. unfold mbind, M_bind. destruct (m r) as [[a r1] | |]; [apply Hk | done | done]. Qed.
Lemma nexts_abort : nexts abort.
Proof. done. Qed.
Lemma nexts_unspecified : nexts unspecified.
Proof. done. Qed.
#[local] Hint Resolve nexts_ret nexts_abort nexts_unspecified : shift.

(** An instruction that does not end a block goes on to the next one. *)
Lemma body_next pc data inst : setsEnd inst = false -> nexts (step_body X pc data inst).
Proof.
  intros Hs. destruct inst; try discriminate Hs; cbn [step_body];
    unfold step_log, step_create, step_call, binary, signed_division, push_tx, push_tx256, rcopy;
    repeat (cbv zeta; match goal with
    | |- nexts (mbind _ _) => apply nexts_bind; intros
    | |- nexts (match ?x with _ => _ end) => destruct x
    | |- nexts _ => solve [auto with shift]
    end).
Qed.

(** One that ends the flow of control does not. *)
Lemma body_dead pc data inst r c r' :
  setsDead inst = true -> step_body X pc data inst r = Ok (c, r') -> c <> Next.
Proof.
  assert (forall A (m : @M H A) k, (forall a r c r', k a r = Ok (c, r') -> c <> Next) ->
    forall r c r', (m ≫= k) r = Ok (c, r') -> c <> Next) as Hbind.
  { intros A m k Hk r1 c1 r1'. unfold mbind, M_bind. destruct (m r1) as [[a r2] | |]; [apply Hk | done | done]. }
  intros Hs. revert r c r'. destruct inst; try discriminate Hs; cbn [step_body]; unfold step_selfdestruct;
    repeat (apply Hbind; intros ?); by intros r c r' [= <- _].
Qed.

Lemma less_0 r : less 0 r = r.
Proof. unfold less. rewrite Z.sub_0_r. by destruct r. Qed.

Lemma less_less a b r : less a (less b r) = less (b + a) r.
Proof. unfold less. simpl. f_equal. lia. Qed.

Lemma charge_ok c r : 0 <= c <= r_gas r -> charge c r = Ok (tt, less c r).
Proof.
  intros Hc. unfold charge, gets, mbind, M_bind, set_rgas.
  by rewrite (proj2 (Z.leb_le 0 c)), (proj2 (Z.leb_le c (r_gas r))) by lia.
Qed.

Lemma charge_abort c r : r_gas r < c -> charge (H := H) c r = Abort.
Proof.
  intros Hc. unfold charge, gets, mbind, M_bind. rewrite (proj2 (Z.leb_gt c (r_gas r))) by lia. by rewrite andb_false_r.
Qed.

Lemma getStepCost_nonneg rev inst : 0 <= getStepCost rev inst.
Proof.
  destruct inst; cbn [getStepCost]; repeat case_match; try by vm_compute.
  - lia.
  - cbn [logGas logTopicGas schedule]. lia.
Qed.

Lemma blockCost_nonneg l : 0 <= blockCost l.
Proof.
  induction l as [| i l IH]; simpl; [lia |]. pose proof (getStepCost_nonneg (x_rev X) (i_inst i)). case_match; lia.
Qed.

(** A block that runs to its end pays its first cost block. *)
Lemma steps_pay l r c r' : straight l -> steps l r = Ok (c, r') -> l <> [] \/ 0 <= r_gas r -> blockCost l <= r_gas r.
Proof.
  revert r. induction l as [| i l IH]; intros r Hl Hs Hr; cbn [blockCost]; [by destruct Hr |].
  destruct Hl as [Hi Hl]. cbn [steps] in Hs. unfold step in Hs.
  destruct (Z.le_gt_cases (cost i) (r_gas r)) as [Hc |];
    [| unfold mbind, M_bind in Hs; by rewrite charge_abort in Hs].
  pose proof (getStepCost_nonneg (x_rev X) (i_inst i)) as Hc0.
  unfold mbind, M_bind in Hs. rewrite charge_ok in Hs by lia.
  destruct (allowed X (i_inst i)); [| done]. destruct (commits (i_inst i)) eqn:Hcm; simpl; [lia |].
  pose proof (shiftable_body (i_pc i) (i_data i).1 _ Hcm (less (cost i) r) 0 ltac:(simpl; lia)) as Hb.
  destruct (body i (less (cost i) r)) as [[c1 r1] | |] eqn:Eb; [| done | done]. destruct Hb as [Hg _]. simpl in Hg.
  destruct Hi as [-> | Hi]; [simpl; lia |]. apply body_next in Eb as ->; [| done].
  specialize (IH r1 Hl Hs ltac:(right; lia)). lia.
Qed.

Definition agrees {A} (a b : run A) : Prop := match a with Undef => True | _ => b = a end.

Lemma charged_both l :
  straight l -> (forall r, agrees (steps l r) (charged false l r))
  /\ (forall r, blockCost l <= r_gas r -> agrees (steps l r) (charged true l (less (blockCost l) r))).
Proof.
  induction l as [| i l IH]; intros Hl.
  - split; [done |]. intros r Hr. cbn [blockCost]. by rewrite less_0.
  - pose proof (blockCost_nonneg (i :: l)) as Hk0. pose proof Hl as Hl'. destruct Hl' as [Hi Hll].
    specialize (IH Hll) as [IHf IHt]. pose proof (getStepCost_nonneg (x_rev X) (i_inst i)) as Hc0.
    assert (forall r, blockCost (i :: l) <= r_gas r ->
      agrees (steps (i :: l) r) (charged true (i :: l) (less (blockCost (i :: l)) r))) as Ht.
    { intros r Hr. pose proof (blockCost_nonneg l) as Hk1. cbn [blockCost] in *. cbn [steps charged].
      set (K := if _ && _ then blockCost l else 0) in *. assert (0 <= K) by (unfold K; case_match; lia).
      unfold step, mbind, M_bind, mret at 3, M_ret at 3. rewrite charge_ok by lia. rewrite <- less_less.
      set (r1 := less (cost i) r). assert (K <= r_gas r1) by (simpl; lia).
      destruct (allowed X (i_inst i)) eqn:Ha; [| done]. destruct (commits (i_inst i)) eqn:Hcm; simpl in K.
      - unfold K. rewrite less_0. destruct (body i r1) as [[c r2] | |] eqn:Eb; [| done | done]. simpl.
        destruct c; [apply IHf | done | done].
      - pose proof (shiftable_body (i_pc i) (i_data i).1 _ Hcm r1 K ltac:(lia)) as Hb.
        destruct (body i r1) as [[c r2] | |] eqn:Eb; [| by rewrite Hb | done]. destruct Hb as [Hg ->].
        assert (l = [] \/ c = Next) as [-> | ->] by (destruct Hi as [Hi | Hi]; [by left | right; by eapply body_next]).
        { unfold K. cbn [blockCost]. rewrite (proj2 (Z.leb_le _ _)), less_0 by lia. by destruct c. }
        destruct (Z.leb_spec K (r_gas r2)); [by apply IHt |].
        destruct (steps l r2) as [[c' r'] | |] eqn:Es; [| done | done].
        pose proof (steps_pay l r2 c' r' Hll Es ltac:(right; lia)). unfold K in *. lia. }
    split; [| exact Ht]. intros r. destruct (Z.le_gt_cases (blockCost (i :: l)) (r_gas r)) as [Hk | Hk].
    + specialize (Ht r Hk). cbn [charged]. unfold mbind at 1, M_bind at 1. rewrite charge_ok by lia. exact Ht.
    + cbn [charged]. unfold mbind at 1, M_bind at 1. rewrite charge_abort by lia.
      destruct (steps (i :: l) r) as [[c r'] | |] eqn:Es; [| done | done].
      pose proof (steps_pay (i :: l) r c r' Hl Es ltac:(by left)). lia.
Qed.
End Charge.
