(* ===== verification/CostBlocks.v ===== *)
(** * The checks of the cost blocks

    [GasMeter] fills in the amount of a gas check when it closes the cost
    block.  Here: the check that is emitted where a cost block opens gets the
    static costs of the instructions up to its end, and is erased if they are
    zero. *)
From S2P Require Import Prelude Bytes Instruction BasicBlocks LLVMInt EvmAbi GasSchedule Runtime IR Builder.
From S2P Require Import Codegen Compiler Machine Frames Charge.

(** Allocating registers only moves forward. *)
Definition next_rel (cs cs' : cstate) : Prop := (c_next cs <= c_next cs')%nat.

#[global] Instance next_rel_preorder : PreOrder next_rel.
Proof. unfold next_rel. split; [intros cs; lia | intros cs1 cs2 cs3; lia]. Qed.
#[global] Instance next_frame : Frame next_rel any.
Proof. split; [split |..]; try apply _; try done; intros; unfold next_rel; simpl; lia. Qed.

(** The event that closes a cost block, and the check it leaves. *)
Definition closing (id : nat) (c : Z) : event := if c =? 0 then EErase id else ESetCost id c.
Definition paid (id : nat) (c : Z) : list instr := if c =? 0 then [] else [IGasCheck id (Some c)].

(** The event does not close a block opened before register [n]. *)
Definition closes_from (n : nat) (e : event) : Prop :=
  match e with ESetCost id _ | EErase id => (n <= id)%nat | _ => True end.

Lemma settle_app l1 l2 i : settle (l1 ++ l2) i = settle l1 i ≫= settle l2.
Proof.
  revert i. induction l1 as [| e l1 IH]; intros i; simpl; [by rewrite app_nil_r |].
  generalize (touch e i). intros l. induction l as [| j l IHl]; [done |]. rewrite !bind_cons, bind_app, IH, IHl. done.
Qed.

Lemma settle_other l id o n :
  Forall (closes_from n) l -> (id < n)%nat -> settle l (IGasCheck id o) = [IGasCheck id o].
Proof.
  intros Hl Hn. induction Hl as [| e l He Hl IH]; [done |]. simpl.
  assert (touch e (IGasCheck id o) = [IGasCheck id o]) as ->; [| by rewrite bind_cons, IH].
  destruct e; simpl in *; try done; by destruct (Nat.eqb_spec id0 id); [lia |].
Qed.

Lemma settle_closing l1 l2 id c n :
  Forall (closes_from n) l1 -> Forall (closes_from n) l2 -> (id < n)%nat ->
  settle (l1 ++ closing id c :: l2) (IGasCheck id None) = paid id c.
Proof.
  intros H1 H2 Hn. rewrite settle_app, (settle_other l1 id None n) by done. rewrite bind_cons. simpl. rewrite app_nil_r.
  unfold closing, paid. destruct (c =? 0); simpl; rewrite Nat.eqb_refl; [done |].
  rewrite bind_cons, (settle_other l2 id _ n) by done. done.
Qed.

Lemma emits_from n l : Forall emits l -> Forall (closes_from n) l.
Proof. apply Forall_impl. by intros []. Qed.

Section CostBlocks.
Context {H : Type} `{LLVMFolder} (X : Ctx H).

Abbreviation rev := (x_rev X).
Abbreviation static := (x_static X).

(** ** Instructions that close a cost block *)

Definition closes {A} (c : C A) : Prop := forall cs id, m_checkCall cs = Some id ->
  exists l1 l2, (c cs).2 = l1 ++ closing id (m_blockCost cs) :: l2 /\ Forall emits l1 /\ Forall emits l2
    /\ m_checkCall (c cs).1.2 = None /\ m_blockCost (c cs).1.2 = 0.

Lemma closes_after {A B} (c : C A) (k : A -> C B) : costless c -> (forall a, closes (k a)) -> closes (c ≫= k).
Proof.
  intros Hc Hk cs id Hid. unfold mbind, C_bind. specialize (Hc cs). destruct (c cs) as [[a cs1] l1].
  destruct Hc as [[H1 H2] Hl]. simpl in *. destruct (Hk a cs1 id) as (l2 & l3 & He & ? & ? & ? & ?); [congruence |].
  destruct (k a cs1) as [[b cs2] l4]. simpl in *. subst. rewrite H2. exists (l1 ++ l2), l3. rewrite <- app_assoc.
  split_and!; auto. by apply Forall_app.
Qed.

Lemma closes_before {A B} (c : C A) (k : A -> C B) : closes c -> (forall a, costless (k a)) -> closes (c ≫= k).
Proof.
  intros Hc Hk cs id Hid. unfold mbind, C_bind. destruct (Hc cs id Hid) as (l1 & l2 & He & ? & ? & Ha & Hb).
  destruct (c cs) as [[a cs1] l]. simpl in *. specialize (Hk a cs1). destruct (k a cs1) as [[b cs2] l4].
  destruct Hk as [[Hc1 Hc2] Hl]. simpl in *. subst. exists l1, (l2 ++ l4). rewrite <- app_assoc. simpl.
  split_and!; auto; [by apply Forall_app | congruence | congruence].
Qed.

Lemma closes_commit : closes GasMeter.commitCostBlock.
Proof.
  intros cs id Hid. unfold GasMeter.commitCostBlock, get_state, event_, modify, mbind, C_bind. simpl. rewrite Hid.
  exists [], []. unfold closing. by destruct (m_blockCost cs =? 0).
Qed.

Lemma closes_compileInst size first pc data inst :
  commits inst = true -> closes (compileInst rev static size first pc data inst).
Proof.
  intros Hc. destruct inst; try discriminate Hc; cbn [compileInst]; unfold compile_GAS, compile_CREATE, compile_CALL;
  repeat match goal with
  | |- closes (GasMeter.commitCostBlock ≫= _) => apply closes_before; [apply closes_commit | intros]
  | |- closes (_ ≫= _) => apply closes_after; [| intros]
  end; codegen_unfold; keeps_tac.
Qed.

(** ** A list of instructions *)

Context (size first : nat).

Abbreviation inst_code i := (compileInst rev static size first (i_pc i) (i_data i) (i_inst i)).

(** The loop of [compileBasicBlock] over its instructions. *)
Fixpoint compile_items (l : list item) : C unit :=
  match l with
  | [] => mret tt
  | i :: l =>
      _ ← GasMeter.count_inst rev (i_inst i);
      if invalidInstruction rev static (i_inst i) then RuntimeManager.exit OutOfGas
      else _ ← inst_code i; compile_items l
  end.

Definition compile_rest (i : item) (l : list item) : C unit :=
  _ ← (if invalidInstruction rev static (i_inst i) then RuntimeManager.exit OutOfGas
       else _ ← inst_code i; compile_items l);
  GasMeter.commitCostBlock.
Definition compile_all (l : list item) : C unit := _ ← compile_items l; GasMeter.commitCostBlock.

Lemma invalid_allowed inst : invalidInstruction rev static inst = negb (allowed X inst).
Proof.
  destruct inst; try done; simpl; try by rewrite negb_involutive.
  all: rewrite negb_orb; f_equal; by rewrite Nat.ltb_antisym.
Qed.

(** What [compile_rest] pays for in the cost block of [i]. *)
Definition rest_cost (i : item) (l : list item) : Z :=
  if allowed X (i_inst i) && negb (commits (i_inst i)) then blockCost X l else 0.

(** The open cost block of [cs] is closed with [c]; later ones are new. *)
Definition closed_with (cs : cstate) (id : nat) (c : Z) (log : list event) : Prop :=
  exists l1 l2, log = l1 ++ closing id c :: l2 /\ Forall emits l1 /\ Forall (closes_from (c_next cs)) l2.

#[local] Hint Extern 1 (keeps next_rel _ (modify _)) => apply keeps_modify; intros; unfold next_rel; simpl; lia : keeps.

Lemma next_compileInst pc data inst : keeps next_rel any (compileInst rev static size first pc data inst).
Proof.
  assert (keeps next_rel any GasMeter.commitCostBlock).
  { apply (keeps_commit next_rel any); try apply _; try done. intros. unfold next_rel. simpl. lia. }
  destruct (commits inst) eqn:Hc; [| destruct (jumps inst) eqn:Hj; [| by apply keeps_compileInst; [apply _ |..]]];
    destruct inst; try discriminate Hc; try discriminate Hj; cbn [compileInst]; compile_unfold; codegen_unfold; keeps_tac.
Qed.

Lemma count_open inst cs id :
  m_checkCall cs = Some id ->
  GasMeter.count_inst rev inst cs = (tt, set_cost (Some id) (m_blockCost cs + getStepCost rev inst) cs, []).
Proof.
  intros Hid. unfold GasMeter.count_inst, get_state, modify, mbind, C_bind, mret, C_ret. simpl. rewrite Hid. simpl.
  by rewrite Hid.
Qed.

Lemma count_closed inst cs :
  m_checkCall cs = None -> m_blockCost cs = 0 ->
  GasMeter.count_inst rev inst cs =
    (tt, set_cost (Some (c_next cs)) (getStepCost rev inst) (set_next (S (c_next cs)) cs), [EEmit (IGasCheck (c_next cs) None)]).
Proof.
  intros Hid H0'. unfold GasMeter.count_inst, get_state, fresh, emit, modify, mbind, C_bind, mret, C_ret. simpl. rewrite Hid. simpl.
  by rewrite H0'.
Qed.

Lemma compile_all_open i l cs id :
  m_checkCall cs = Some id ->
  compile_all (i :: l) cs = compile_rest i l (set_cost (Some id) (m_blockCost cs + getStepCost rev (i_inst i)) cs).
Proof.
  intros Hid. unfold compile_all, compile_rest. cbn [compile_items]. unfold mbind, C_bind. rewrite (count_open _ _ _ Hid).
  simpl. by destruct (if invalidInstruction _ _ _ then _ else _) as [[[] ?] ?].
Qed.

Lemma compile_all_closed i l cs :
  m_checkCall cs = None -> m_blockCost cs = 0 ->
  let cs1 := set_cost (Some (c_next cs)) (getStepCost rev (i_inst i)) (set_next (S (c_next cs)) cs) in
  compile_all (i :: l) cs =
    (tt, (compile_rest i l cs1).1.2, EEmit (IGasCheck (c_next cs) None) :: (compile_rest i l cs1).2).
Proof.
  intros Hid H0' cs1. unfold compile_all, compile_rest. cbn [compile_items]. unfold mbind, C_bind.
  rewrite (count_closed _ _ Hid H0'). fold cs1. simpl.
  destruct (if invalidInstruction _ _ _ then _ else _) as [[[] ?] ?]. by destruct (GasMeter.commitCostBlock c) as [[[] ?] ?].
Qed.

Lemma next_compile_all l : keeps next_rel any (compile_all l).
Proof.
  assert (keeps next_rel any GasMeter.commitCostBlock) as Hcm.
  { apply (keeps_commit next_rel any); try apply _; try done. intros. unfold next_rel. simpl. lia. }
  apply keeps_bind; [apply _ | | auto]. induction l as [| i l IH]; cbn [compile_items]; [apply keeps_ret, _ |].
  apply keeps_bind; [apply _ | unfold GasMeter.count_inst; keeps_tac | intros _].
  destruct (invalidInstruction _ _ _); [unfold RuntimeManager.exit; keeps_tac |].
  apply keeps_bind; [apply _ | apply next_compileInst | done].
Qed.

Lemma closes_from_le n m l : (n <= m)%nat -> Forall (closes_from m) l -> Forall (closes_from n) l.
Proof. intros Hn. apply Forall_impl. intros []; simpl; lia || done. Qed.

Definition good_log (l : list item) : Prop := forall cs,
  (forall id, m_checkCall cs = Some id -> closed_with cs id (m_blockCost cs + blockCost X l) (compile_all l cs).2)
  /\ (m_checkCall cs = None -> m_blockCost cs = 0 -> Forall (closes_from (c_next cs)) (compile_all l cs).2).

Lemma compile_rest_invalid i l cs :
  invalidInstruction rev static (i_inst i) = true ->
  compile_rest i l cs = GasMeter.commitCostBlock (set_term (TExit OutOfGas) cs).
Proof.
  intros Hi. unfold compile_rest. rewrite Hi. unfold RuntimeManager.exit, modify, mbind, C_bind. simpl.
  by destruct (GasMeter.commitCostBlock _) as [[? ?] ?].
Qed.

Lemma compile_rest_valid i l cs :
  invalidInstruction rev static (i_inst i) = false ->
  compile_rest i l cs = (tt, (compile_all l (inst_code i cs).1.2).1.2, (inst_code i cs).2 ++ (compile_all l (inst_code i cs).1.2).2).
Proof.
  intros Hi. unfold compile_rest, compile_all. rewrite Hi. unfold mbind, C_bind.
  destruct (inst_code i cs) as [[[] cs1] l1]. simpl. destruct (compile_items l cs1) as [[[] cs2] l2]. simpl.
  destruct (GasMeter.commitCostBlock cs2) as [[[] cs3] l3]. simpl. by rewrite app_assoc.
Qed.

Lemma compile_rest_log i l cs id :
  good_log l -> m_checkCall cs = Some id -> closed_with cs id (m_blockCost cs + rest_cost i l) (compile_rest i l cs).2.
Proof.
  intros IH Hid. unfold rest_cost. pose proof (invalid_allowed (i_inst i)) as Hia.
  destruct (invalidInstruction rev static (i_inst i)) eqn:Hinv; destruct (allowed X (i_inst i)); try discriminate Hia.
  - rewrite compile_rest_invalid by done. destruct (closes_commit (set_term (TExit OutOfGas) cs) id Hid) as (l1 & l2 & He & ? & ? & _).
    exists l1, l2. rewrite Z.add_0_r. split_and!; auto. by apply emits_from.
  - rewrite compile_rest_valid by done. cbn [snd]. destruct (next_compileInst (i_pc i) (i_data i) (i_inst i) cs) as [Hn _].
    destruct (commits (i_inst i)) eqn:Hcm; simpl.
    + destruct (closes_compileInst size first (i_pc i) (i_data i) _ Hcm cs id Hid) as (l1 & l2 & He & H1' & H2' & Hc & Hb).
      exists l1, (l2 ++ (compile_all l (inst_code i cs).1.2).2). rewrite He, Z.add_0_r, <- app_assoc. split_and!; auto.
      apply Forall_app. split; [by apply emits_from |]. eapply closes_from_le; [exact Hn |]. by apply IH.
    + destruct (costless_compileInst rev static size first (i_pc i) (i_data i) _ Hcm cs) as [[Hc Hb] Hl].
      destruct (IH (inst_code i cs).1.2) as [IHo _]. destruct (IHo id) as (l1 & l2 & He & ? & ?); [congruence |].
      exists ((inst_code i cs).2 ++ l1), l2. rewrite He, Hb, <- app_assoc. split_and!; auto; [by apply Forall_app |].
      eapply closes_from_le; [exact Hn | done].
Qed.

Lemma compile_all_log l : good_log l.
Proof.
  induction l as [| i l IH]; intros cs; split.
  - intros id Hid. destruct (closes_commit cs id Hid) as (l1 & l2 & He & ? & ? & _).
    exists l1, l2. simpl. rewrite Z.add_0_r. split_and!; auto; [| by apply emits_from].
    unfold compile_all, mbind, C_bind. simpl. by destruct (GasMeter.commitCostBlock cs) as [[? ?] ?].
  - intros Hid _. unfold compile_all, GasMeter.commitCostBlock, get_state, mbind, C_bind. simpl. by rewrite Hid.
  - intros id Hid. rewrite (compile_all_open _ _ _ _ Hid).
    destruct (compile_rest_log i l (set_cost (Some id) (m_blockCost cs + getStepCost rev (i_inst i)) cs) id IH eq_refl)
      as (l1 & l2 & He & ? & ?).
    exists l1, l2. rewrite He. split_and!; auto. do 2 f_equal. simpl. unfold rest_cost. f_equal. lia.
  - intros Hid H0'. rewrite (compile_all_closed _ _ _ Hid H0'). cbn [snd]. constructor; [done |].
    match goal with |- Forall _ (compile_rest i l ?cs1).2 => destruct (compile_rest_log i l cs1 (c_next cs) IH eq_refl) as (l1 & l2 & -> & H1' & H2') end.
    apply Forall_app. split; [by apply emits_from |]. constructor.
    + unfold closing. case_match; simpl; lia.
    + eapply closes_from_le; [| done]. simpl. lia.
Qed.

(** The check emitted where a cost block opens, after all that follows it. *)
Lemma check_settled i l cs tail :
  m_checkCall cs = None -> m_blockCost cs = 0 -> Forall no_cost tail ->
  let cs1 := set_cost (Some (c_next cs)) (getStepCost rev (i_inst i)) (set_next (S (c_next cs)) cs) in
  settle ((compile_rest i l cs1).2 ++ tail) (IGasCheck (c_next cs) None) = paid (c_next cs) (blockCost X (i :: l)).
Proof.
  intros Hid H0' Ht cs1. destruct (compile_rest_log i l cs1 (c_next cs) (compile_all_log l) eq_refl) as (l1 & l2 & -> & H1' & H2').
  rewrite <- app_assoc. simpl app. apply (settle_closing _ _ _ _ (S (c_next cs))); [by apply emits_from | | lia].
  apply Forall_app. split; [done |]. eapply Forall_impl; [| exact Ht]. by intros [].
Qed.
End CostBlocks.
