(* ===== verification/Finalize.v ===== *)
(** * The ends of a block

    The stack check a block starts with, and the stores it ends with, which
    bring the array of the stack up to date ([LocalStack::finalize]). *)
From S2P Require Import Prelude Bytes Instruction BasicBlocks LLVMInt Arith128 EvmAbi GasSchedule Keccak.
From S2P Require Import Runtime IR Builder Codegen Compiler Machine Denote Frames Heights Sim SimStack.

(** The item the loop of [finalize] stores at [g + k]. *)
Definition pick (g gp : Z) (inputIt : list (option value)) (localIt : list value) (k : nat) : option value :=
  if g + Z.of_nat k <? - gp then mjoin (inputIt !! k)
  else localIt !! Z.to_nat (Z.of_nat k - Z.max 0 (- gp - g)).

Section Finalize.
Context {H : Type} `{LLVMFolder} (E : Env H).

Abbreviation evals s v := (evalv (e_data E) (s_regs s) v).

(** The slots after the stores of [n] items from [g] up. *)
Definition stored (s : rt H) (g : Z) (n : nat) (p : nat -> option value) (st : list (option Z)) : Prop :=
  length st = length (s_stack s) /\
  forall j, st !! j =
    (let k := Z.of_nat j - (s_sp s + g) in
     if (0 <=? k) && (k <? Z.of_nat n) then
       match p (Z.to_nat k) with Some v => (fun _ => evals s v) <$> s_stack s !! j | None => s_stack s !! j end
     else s_stack s !! j).

Lemma pick_input g gp o inputIt localIt k :
  g < - gp -> pick g gp (o :: inputIt) localIt (S k) = pick (g + 1) gp inputIt localIt k.
Proof.
  intros Hg. unfold pick. replace (g + Z.of_nat (S k)) with (g + 1 + Z.of_nat k) by lia. cbn [lookup list_lookup].
  case_match; [done |]. f_equal. lia.
Qed.

Lemma pick_local g gp inputIt v localIt k :
  - gp <= g -> pick g gp inputIt (v :: localIt) (S k) = pick (g + 1) gp inputIt localIt k.
Proof.
  intros Hg. unfold pick. rewrite !(proj2 (Z.ltb_ge _ _)) by lia.
  replace (Z.to_nat (Z.of_nat (S k) - Z.max 0 (- gp - g))) with (S k) by lia.
  replace (Z.to_nat (Z.of_nat k - Z.max 0 (- gp - (g + 1)))) with k by lia. done.
Qed.

(** One store, then the others. *)
Lemma stored_cons s g n p o st :
  stored (set_slots (match o with Some v => <[Z.to_nat (s_sp s + g) := evals s v]> (s_stack s) | None => s_stack s end) s)
    (g + 1) n (fun k => p (S k)) st ->
  p 0%nat = o -> (o <> None -> 0 <= s_sp s + g) -> stored s g (S n) p st.
Proof.
  intros [Hlen Hst] Hp Hg. split; [rewrite Hlen; destruct o; simpl; by rewrite ?length_insert |].
  intros j. rewrite Hst. cbv zeta. simpl s_sp. simpl s_stack. simpl s_regs.
  set (k := Z.of_nat j - (s_sp s + g)). replace (Z.of_nat j - (s_sp s + (g + 1))) with (k - 1) by lia.
  destruct (Z.leb_spec 0 (k - 1)), (Z.leb_spec 0 k); try lia; cbn [andb].
  - assert ((k - 1 <? Z.of_nat n) = (k <? Z.of_nat (S n))) as -> by (apply eq_true_iff_eq; rewrite !Z.ltb_lt; lia).
    assert (match o with Some v => <[Z.to_nat (s_sp s + g) := evals s v]> (s_stack s) | None => s_stack s end !! j = s_stack s !! j) as ->
      by (destruct o; [specialize (Hg ltac:(done)); apply list_lookup_insert_ne; lia | done]).
    replace (S (Z.to_nat (k - 1))) with (Z.to_nat k) by lia. done.
  - assert (k = 0) as Hk by lia. rewrite Hk. change (Z.to_nat 0) with 0%nat. rewrite (proj2 (Z.ltb_lt 0 _)), Hp by lia.
    destruct o; [specialize (Hg ltac:(done)) | done]. assert (j = Z.to_nat (s_sp s + g)) as -> by lia. destruct (s_stack s !! Z.to_nat (s_sp s + g)) eqn:El; simpl.
    + apply list_lookup_insert_eq. by eapply lookup_lt_Some.
    + rewrite lookup_ge_None, length_insert, <- lookup_ge_None. done.
  - destruct o; [specialize (Hg ltac:(done)); apply list_lookup_insert_ne; lia | done].
Qed.

(** The iterators have an item for each of the [n] slots from [g] up. *)
Definition enough (n : nat) (g gp : Z) (inputIt : list (option value)) (localIt : list value) : Prop :=
  (forall k, (k < n)%nat -> g + Z.of_nat k < - gp -> is_Some (inputIt !! k)) /\
  (forall k, (k < n)%nat -> - gp <= g + Z.of_nat k -> is_Some (localIt !! Z.to_nat (Z.of_nat k - Z.max 0 (- gp - g)))).

Definition in_slots (n : nat) (g : Z) (p : nat -> option value) (s : rt H) : Prop :=
  forall k v, (k < n)%nat -> p k = Some v -> 0 <= s_sp s + g + Z.of_nat k < Z.of_nat (length (s_stack s)).

Definition loop_runs (n : nat) : Prop := forall g gp inputIt localIt cs s tail,
  enough n g gp inputIt localIt -> in_slots n g (pick g gp inputIt localIt) s ->
  exists st, exec_log E (LocalStack.finalize_loop n g gp inputIt localIt cs).2 tail s = Ok (set_slots st s)
    /\ stored s g n (pick g gp inputIt localIt) st.

(** One round of the loop, on the item [o]. *)
Lemma finalize_step n g gp inputIt localIt inputIt' localIt' o cs s tail :
  loop_runs n -> pick g gp inputIt localIt 0 = o ->
  (forall k, pick g gp inputIt localIt (S k) = pick (g + 1) gp inputIt' localIt' k) ->
  enough n (g + 1) gp inputIt' localIt' -> in_slots (S n) g (pick g gp inputIt localIt) s ->
  exists st, exec_log E (match o with
      | Some item => _ ← emit (IStackStore item g); LocalStack.finalize_loop n (g + 1) gp inputIt' localIt'
      | None => LocalStack.finalize_loop n (g + 1) gp inputIt' localIt'
      end cs).2 tail s = Ok (set_slots st s) /\ stored s g (S n) (pick g gp inputIt localIt) st.
Proof.
  intros IH Ho Hp Hen Hslot.
  set (s1 := set_slots (match o with Some v => <[Z.to_nat (s_sp s + g) := evals s v]> (s_stack s) | None => s_stack s end) s).
  assert (o <> None -> 0 <= s_sp s + g < Z.of_nat (length (s_stack s))) as Hgo.
  { intros Hno. destruct o as [v |]; [| done]. specialize (Hslot 0%nat v ltac:(lia) Ho). lia. }
  destruct (IH (g + 1) gp inputIt' localIt' cs s1 tail Hen) as (st & He & Hst).
  { intros k v Hk Hv. rewrite <- Hp in Hv. specialize (Hslot (S k) v ltac:(lia) Hv).
    assert (length (s_stack s1) = length (s_stack s)) as -> by (simpl; destruct o; by rewrite ?length_insert).
    simpl. lia. }
  exists st. split.
  - destruct o as [v |]; [| unfold s1 in He; destruct s; exact He].
    specialize (Hgo ltac:(done)). unfold emit, mbind, C_bind. cbn [fst snd].
    destruct (LocalStack.finalize_loop n (g + 1) gp inputIt' localIt' cs) as [[? ?] l]. cbn [fst snd app exec_log] in *.
    rewrite settle_settled by done. cbn [exec exec1 mbind run_bind]. unfold slot.
    rewrite (proj2 (Z.leb_le _ _)), (proj2 (Z.ltb_lt _ _)) by lia. cbn [andb mbind run_bind].
    etrans; [exact He |]. by destruct s.
  - eapply stored_cons; [| exact Ho | intros Hno; specialize (Hgo Hno); lia]. fold s1.
    destruct Hst as [Hlen Hst]. split; [done |]. intros j. rewrite Hst. cbv zeta. by rewrite Hp.
Qed.

Lemma finalize_loop_exec n : loop_runs n.
Proof.
  induction n as [| n IH]; intros g gp inputIt localIt cs s tail [Hin Hloc] Hslot.
  - exists (s_stack s). split; [by destruct s |]. split; [done |]. intros j. cbv zeta.
    destruct (Z.leb_spec 0 (Z.of_nat j - (s_sp s + g))), (Z.ltb_spec (Z.of_nat j - (s_sp s + g)) (Z.of_nat 0)); try done. lia.
  - cbn [LocalStack.finalize_loop]. destruct (Z.ltb_spec g (- gp)) as [Hg | Hg].
    + destruct (Hin 0%nat ltac:(lia) ltac:(lia)) as [o Ho]. destruct inputIt as [| o' inputIt]; [done |].
      injection Ho as ->. destruct (finalize_step n g gp (o :: inputIt) localIt inputIt localIt o cs s tail) as (st & He & Hst); auto.
      * unfold pick. rewrite (proj2 (Z.ltb_lt _ _)) by lia. done.
      * intros k. by apply pick_input.
      * split; intros k Hk Hlt; [apply (Hin (S k)); lia |].
        destruct (Hloc (S k) ltac:(lia) ltac:(lia)) as [v Hv]. exists v. rewrite <- Hv. f_equal. lia.
      * exists st. split; [| done]. destruct o; exact He.
    + destruct (Hloc 0%nat ltac:(lia) ltac:(lia)) as [v Hv]. replace (Z.to_nat _) with 0%nat in Hv by lia.
      destruct localIt as [| v' localIt]; [done |]. injection Hv as ->.
      apply (finalize_step n g gp inputIt (v :: localIt) inputIt localIt (Some v)); auto.
      * unfold pick. rewrite (proj2 (Z.ltb_ge _ _)) by lia. by replace (Z.to_nat _) with 0%nat by lia.
      * intros k. by apply pick_local.
      * split; intros k Hk Hlt; [lia |]. destruct (Hloc (S k) ltac:(lia) ltac:(lia)) as [w Hw]. exists w.
        replace (Z.to_nat (Z.of_nat (S k) - Z.max 0 (- gp - g))) with (S k) in Hw by lia.
        by replace (Z.to_nat (Z.of_nat k - Z.max 0 (- gp - (g + 1)))) with k by lia.
Qed.
End Finalize.

(** ** The stack check *)

Definition no_prepare (e : event) : Prop :=
  match e with EEmit i => is_prepare i = false | ESetPrepare _ _ _ => False | _ => True end.

Lemma settle_prepare l1 l2 min max diff o :
  Forall no_prepare l1 -> Forall no_prepare l2 ->
  settle (l1 ++ ESetPrepare min max diff :: l2) (IPrepare o) = [IPrepare (Some (min, max, diff))].
Proof.
  assert (forall l o, Forall no_prepare l -> settle l (IPrepare o) = [IPrepare o]) as Hk.
  { intros l o' Hl. induction Hl as [| e l He Hl IH]; [done |]. simpl.
    assert (touch e (IPrepare o') = [IPrepare o']) as -> by (by destruct e). by rewrite bind_cons, IH. }
  intros H1 H2. induction H1 as [| e l1 He Hl1 IH]; simpl; [by rewrite Hk |].
  assert (touch e (IPrepare o) = [IPrepare o]) as -> by (by destruct e). by rewrite bind_cons, IH.
Qed.

Section Size.
Context {H : Type} (E : Env H).

Lemma exec1_size i s s' : is_prepare i = false -> exec1 E i s = Ok s' -> s_size s' = s_size s.
Proof.
  intros Hi He. destruct i; try discriminate Hi; simpl in He; unfold mbind, run_bind in He;
    repeat case_match; simplify_eq; done.
Qed.

Lemma settle_size i tail : is_prepare i = false -> Forall (fun i => is_prepare i = false) (settle tail i).
Proof.
  revert i. induction tail as [| e tail IH]; intros i Hi; cbn [settle]; [by constructor |].
  apply Forall_bind. assert (Forall (fun i => is_prepare i = false) (touch e i)) as Ht.
  { destruct e, i; simpl; repeat case_match; repeat constructor; done. }
  eapply Forall_impl; [| exact Ht]. exact IH.
Qed.

Lemma exec_size l s s' :
  Forall (fun i => is_prepare i = false) l -> exec E l s = Ok s' -> s_size s' = s_size s.
Proof.
  revert s. induction l as [| i l IH]; intros s Hl He; simpl in He; [by injection He as -> |].
  apply Forall_cons_1 in Hl as [Hi Hl]. apply run_bind_ok in He as (s1 & H1 & H2).
  apply exec1_size in H1 as <-; auto.
Qed.

(** Only the stack check sets the size of the stack. *)
Lemma exec_log_size l tail s s' :
  Forall no_prepare l -> exec_log E l tail s = Ok s' -> s_size s' = s_size s.
Proof.
  revert s. induction l as [| e l IH]; intros s Hl He; simpl in He; [by injection He as -> |].
  apply Forall_cons_1 in Hl as [Hi Hl]. destruct e as [i | | |]; auto.
  apply run_bind_ok in He as (s1 & H1 & H2).
  apply exec_size in H1 as <-; [auto |]. by apply settle_size.
Qed.
End Size.

Section SimFinalize.
Context {H : Type} `{LLVMFolder} (X : Ctx H) (gas0 gasPrice uninit : Z).

Abbreviation D := (runtime_data X gas0 gasPrice).
Abbreviation E := (env_of X D uninit).
Abbreviation inv := (inv X gas0 gasPrice).

(** The array of the stack holds the machine's stack. *)
Record stack_synced (s : rt H) (st : list Z) : Prop := {
  sy_size : s_size s = Z.of_nat (length st);
  sy_height : (length st <= 1024)%nat;
  sy_slots : length (s_stack s) = 1024%nat;
  sy_words : Forall (inw 128) st;
  sy_slot i z : st !! i = Some z -> s_stack s !! (length st - 1 - i)%nat = Some (Some z)
}.

Lemma inv_words stk0 cs s r : inv stk0 cs s r -> Forall (inw 128) (r_stack r).
Proof.
  intros [_ _ Hf _]. apply Forall_lookup. intros i z Hz. pose proof (fr_item _ _ _ _ _ _ _ Hf i z Hz) as Hi. cbv zeta in Hi.
  destruct (reverse (m_local cs) !! i); [by eapply isval_range |].
  destruct (m_input cs !! _) as [[v |] |]; [by eapply isval_range | |];
    eapply (Forall_lookup_1 _ _ _ _ (fr_words _ _ _ _ _ _ _ Hf)); eauto.
Qed.

Context (stk0 : list Z) (cs : cstate) (s : rt H) (r : rstate H) (Hi : inv stk0 cs s r).

Abbreviation gp := (Z.of_nat (m_globalPops cs)).
Abbreviation bottom := (- Z.of_nat (length (m_input cs))).
Abbreviation count := (Z.to_nat (LocalStack.size cs - bottom)).
Abbreviation picked := (pick bottom gp (reverse (m_input cs)) (m_local cs)).

Lemma finalize_enough : enough count bottom gp (reverse (m_input cs)) (m_local cs).
Proof.
  pose proof (cwf_len _ (inv_cwf _ _ _ _ _ _ _ Hi)). unfold LocalStack.size.
  split; intros k Hk Hg; apply lookup_lt_is_Some; rewrite ?length_reverse; lia.
Qed.

(** What is stored for an item of the input and of the local stack. *)
Lemma picked_input idx : (m_globalPops cs <= idx < length (m_input cs))%nat ->
  picked (length (m_input cs) - 1 - idx) = mjoin (m_input cs !! idx).
Proof.
  intros Hidx. unfold pick. rewrite (proj2 (Z.ltb_lt _ _)) by lia.
  rewrite list_lookup_reverse by lia. do 2 f_equal. lia.
Qed.

Lemma picked_local k : (k < length (m_local cs))%nat ->
  picked (length (m_input cs) - m_globalPops cs + k) = m_local cs !! k.
Proof.
  intros Hk. pose proof (cwf_len _ (inv_cwf _ _ _ _ _ _ _ Hi)). unfold pick.
  rewrite (proj2 (Z.ltb_ge _ _)) by lia. f_equal. lia.
Qed.

Lemma finalize_slots : in_slots count bottom picked s.
Proof.
  intros k v Hk Hv. destruct Hi as [Hc [Hb1 Hb2] Hf _]. destruct Hc as [Hc1 Hc2 Hc3 Hc4 Hc5 Hc6].
  rewrite (fr_sp _ _ _ _ _ _ _ Hf), (fr_slots _ _ _ _ _ _ _ Hf). unfold LocalStack.size in *.
  pose proof (fr_pops _ _ _ _ _ _ _ Hf). unfold pick in Hv.
  destruct (Z.ltb_spec (bottom + Z.of_nat k) (- gp)); [| lia].
  rewrite list_lookup_reverse in Hv by lia.
  destruct (m_input cs !! (length (m_input cs) - 1 - k)%nat) as [o |] eqn:Eo; [| done]. simpl in Hv. subst o.
  specialize (Hc6 _ _ Eo). lia.
Qed.

Lemma finalize_synced st :
  stored E s bottom count picked st -> s_size s = Z.of_nat (length stk0) + LocalStack.size cs ->
  stack_synced (set_slots st s) (r_stack r).
Proof.
  intros [Hlen Hst] Hsz. pose proof (inv_height _ _ _ _ _ _ _ Hi) as Hh. pose proof (inv_words _ _ _ _ Hi) as Hw.
  destruct Hi as [Hc [Hb1 Hb2] Hf Hr]. destruct Hc as [Hc1 Hc2 Hc3 Hc4 Hc5 Hc6].
  pose proof (fr_slots _ _ _ _ _ _ _ Hf) as H1024. pose proof (fr_pops _ _ _ _ _ _ _ Hf) as Hpops.
  split; simpl; [lia | lia | congruence | done |]. intros i z Hz.
  pose proof (lookup_lt_Some _ _ _ Hz) as Hil. pose proof (fr_item _ _ _ _ _ _ _ Hf i z Hz) as Hitem. cbv zeta in Hitem.
  rewrite Hst, (fr_sp _ _ _ _ _ _ _ Hf). cbv zeta. unfold LocalStack.size in *.
  destruct (lookup_lt_is_Some_2 (s_stack s) (length (r_stack r) - 1 - i)%nat ltac:(lia)) as [old Hold].
  destruct (reverse (m_local cs) !! i) as [v |] eqn:El.
  - apply lookup_lt_Some in El as Hi'. rewrite length_reverse in Hi'. rewrite list_lookup_reverse in El by lia.
    rewrite (proj2 (Z.leb_le _ _)), (proj2 (Z.ltb_lt _ _)) by lia. cbn [andb].
    replace (Z.to_nat _) with (length (m_input cs) - m_globalPops cs + (length (m_local cs) - 1 - i))%nat by lia.
    rewrite picked_local, El, Hold by lia. simpl. f_equal. by apply isval_eval in Hitem.
  - apply reverse_lookup_None in El. set (idx := (i - length (m_local cs) + m_globalPops cs)%nat) in *.
    assert (stk0 !! idx = Some z -> s_stack s !! (length (r_stack r) - 1 - i)%nat = Some (Some z)) as Hglob.
    { intros Hg. pose proof (lookup_lt_Some _ _ _ Hg). apply (fr_slot _ _ _ _ _ _ _ Hf) in Hg.
      by replace (length (r_stack r) - 1 - i)%nat with (length stk0 - 1 - idx)%nat by lia. }
    destruct (Nat.lt_ge_cases idx (length (m_input cs))) as [Hlt | Hge].
    + rewrite (proj2 (Z.leb_le _ _)), (proj2 (Z.ltb_lt _ _)) by lia. cbn [andb].
      replace (Z.to_nat _) with (length (m_input cs) - 1 - idx)%nat by lia. rewrite picked_input by lia.
      destruct (m_input cs !! idx) as [[v |] |]; simpl; [| auto | auto].
      rewrite Hold. simpl. f_equal. by apply isval_eval in Hitem.
    + rewrite (lookup_ge_None_2 _ _ Hge) in Hitem. rewrite (proj2 (Z.leb_gt _ _)) by lia. cbn [andb]. auto.
Qed.

Lemma sim_finalize tail :
  s_size s = Z.of_nat (length stk0) + LocalStack.size cs ->
  exists st, exec_log E (LocalStack.finalize cs).2 tail s = Ok (set_slots st s)
    /\ stack_synced (set_slots st s) (r_stack r).
Proof.
  intros Hsz. unfold LocalStack.finalize, get_state, event_, mbind, C_bind. cbn [fst snd app].
  destruct (finalize_loop_exec E count bottom gp (reverse (m_input cs)) (m_local cs) cs s tail finalize_enough finalize_slots)
    as (st & He & Hst).
  exists st. split; [| by apply finalize_synced].
  destruct (LocalStack.finalize_loop _ _ _ _ _ cs) as [[? ?] l]. exact He.
Qed.
End SimFinalize.
