(* ===== verification/SimBlock.v ===== *)
(** * Simulation of a basic block

    The code of a block: the stack check, the instructions with the checks of
    their cost blocks, and the stores of [LocalStack::finalize].  [sim_items]
    relates it to the machine that charges by cost block, and [run_block]
    to the machine that pays instruction by instruction. *)
From S2P Require Import Prelude Bytes Instruction BasicBlocks LLVMInt Arith128 EvmAbi GasSchedule Keccak.
From S2P Require Import Runtime IR Builder Codegen Compiler Machine Denote Frames Heights Sim SimStack.
From S2P Require Import SimRuntime SimCopy SimHost SimCall SimArith SimInst Charge CostBlocks Finalize.

Section SimBlock.
Context {H : Type} `{LLVMFolder} (X : Ctx H) (gas0 gasPrice uninit : Z) (HX : ctx_ok X).

Abbreviation D := (runtime_data X gas0 gasPrice).
Abbreviation E := (env_of X D uninit).
Abbreviation T := (x_host X).
Abbreviation val := (isval D).
Abbreviation rev := (x_rev X).
Abbreviation static := (x_static X).
Abbreviation size := (length (x_code X)).

Section Items.
Context (stk0 : list Z) (first : nat).

Abbreviation sim := (sim X gas0 gasPrice uninit stk0).
Abbreviation inv := (inv X gas0 gasPrice stk0).
Abbreviation inst_code i := (compileInst rev static size first (i_pc i) (i_data i) (i_inst i)).
Abbreviation compile_rest := (compile_rest X size first).
Abbreviation compile_all := (compile_all X size first).
Abbreviation leaves := (leaves X gas0 gasPrice).

(** The instructions of a block of real code. *)
Definition item_ok (i : item) : Prop :=
  push_ok (i_inst i) (i_data i) /\ inw 128 (Z.of_nat (i_pc i)) /\ encodable (i_inst i) = true
  /\ getStepCost rev (i_inst i) <= 200000.
Definition items_ok (l : list item) : Prop := Forall item_ok l /\ Z.of_nat (length l) <= 2 ^ 32 /\ straight l.

(** How the code of a block ends: as the machine does, or with an abort, or
    at an instruction that is not allowed. *)
Definition block_ends (m : run (ctl * rstate H)) (fin : cstate) (e : run (rt H)) : Prop :=
  match m with
  | Undef => True
  | Abort => ~ bounds (length stk0) fin \/ e = Abort
      \/ exists s' r', e = Ok s' /\ inv fin s' r' /\ c_term fin = Some (TExit OutOfGas)
  | Ok (c, r') => exists s', e = Ok s' /\ inv fin s' r' /\ leaves fin s' c
  end.

Lemma blockCost_bound l : Forall item_ok l -> blockCost X l <= 200000 * Z.of_nat (length l).
Proof.
  induction 1 as [| i l (_ & _ & _ & Hi) Hl IH]; cbn [blockCost length]; [done |].
  case_match; lia.
Qed.

(** The instructions that do not end a block leave the terminator open. *)
Lemma term_straight pc data inst cs :
  setsEnd inst = false -> c_term (compileInst rev static size first pc data inst cs).1.2 = c_term cs.
Proof.
  intros Hs. destruct (jumps inst) eqn:Hj; [by destruct inst |].
  by destruct (noterm_compileInst rev static size first pc data inst Hj cs) as [[Hc _] _].
Qed.

(** Paying for a cost block. *)
Lemma exec_paid cs s r id c cs1 :
  inv cs s r -> 0 <= c < 2 ^ 63 -> stack_rel cs cs1 -> (c_next cs <= c_next cs1)%nat ->
  match charge c r with
  | Undef => True
  | Abort => exec E (paid id c) s = Abort
  | Ok (_, r') => exists s', exec E (paid id c) s = Ok s' /\ inv cs1 s' r'
  end.
Proof.
  intros Hi Hc Hs Hn. pose proof (inv_rest _ _ _ _ _ _ _ Hi) as Hr. pose proof (rr_range _ _ _ Hr) as Hg.
  assert (forall s' r', s_regs s' = s_regs s -> s_sp s' = s_sp s -> s_stack s' = s_stack s -> s_mem s' = s_mem s ->
    s_extcode s' = s_extcode s -> r_stack r' = r_stack r -> rest_rel X s' r' -> inv cs1 s' r') as Hinv.
  { intros s' r' Er Esp Est Em Ex Ers Err. eapply inv_step; eauto.
    split_and!; simpl; rewrite ?Er, ?Em, ?Ex; auto. lia. }
  unfold paid. destruct (Z.eqb_spec c 0) as [-> |].
  - rewrite charge_zero by lia. exists s. split; [done |]. apply Hinv; done.
  - destruct (Z.le_gt_cases c (r_gas r)) as [Hle | Hgt].
    + rewrite charge_ok by lia. exists (set_gas (r_gas r - c) s). split.
      * cbn [exec exec1 need mbind run_bind]. rewrite wrap_small by (unfold inw; lia).
        rewrite (rr_gas _ _ _ Hr), gasCheckFunc_spec by lia. by rewrite (proj2 (Z.leb_le _ _)) by lia.
      * apply Hinv; try done. apply (rest_rel_gas X); [done | lia].
    + rewrite charge_abort by lia. cbn [exec exec1 need mbind run_bind]. rewrite wrap_small by (unfold inw; lia).
      rewrite (rr_gas _ _ _ Hr), gasCheckFunc_spec by lia. by rewrite (proj2 (Z.leb_gt _ _)) by lia.
Qed.

#[local] Hint Extern 1 (keeps mono_rel _ (modify _)) => apply keeps_modify; intros; split; simpl; lia : keeps.

Lemma mono_compile_all l : mono (compile_all l).
Proof.
  apply keeps_bind; [apply _ | | intros; apply mono_commit]. induction l as [| i l IH]; cbn [compile_items]; [apply keeps_ret, _ |].
  apply keeps_bind; [apply _ | unfold GasMeter.count_inst; keeps_tac | intros _].
  destruct (invalidInstruction _ _ _); [unfold RuntimeManager.exit; keeps_tac |].
  apply keeps_bind; [apply _ | apply mono_compileInst | done].
Qed.

(** The state of the gas meter where the machine has paid for the open cost block, or not. *)
Definition meter (open : bool) (cs : cstate) : Prop :=
  if open then exists id, m_checkCall cs = Some id else m_checkCall cs = None /\ m_blockCost cs = 0.

Definition simulated (l : list item) : Prop := forall open cs s r tail,
  inv cs s r -> c_term cs = None -> Forall no_cost tail -> meter open cs ->
  block_ends (charged X open l r) (compile_all l cs).1.2 (exec_log E (compile_all l cs).2 tail s).

(** Closing the cost block at the end. *)
Lemma commit_inv cs s r : inv cs s r ->
  let fin := (GasMeter.commitCostBlock cs).1.2 in
  inv fin s r /\ c_term fin = c_term cs /\ W fin s = W cs s
  /\ forall tail, exec_log E (GasMeter.commitCostBlock cs).2 tail s = Ok s.
Proof.
  intros Hi. unfold GasMeter.commitCostBlock, get_state, event_, modify, mbind, C_bind, mret, C_ret. simpl.
  destruct (m_checkCall cs); [destruct (m_blockCost cs =? 0) |]; simpl; (split_and!; try done).
  all: eapply inv_step; eauto; try done; apply (inv_rest _ _ _ _ _ _ _ Hi).
Qed.

Lemma compile_all_nil cs : compile_all [] cs = (tt, (GasMeter.commitCostBlock cs).1.2, (GasMeter.commitCostBlock cs).2).
Proof. unfold CostBlocks.compile_all, mbind, C_bind. simpl. by destruct (GasMeter.commitCostBlock cs) as [[[] ?] ?]. Qed.

Lemma simulated_nil : simulated [].
Proof.
  intros open cs s r tail Hi Ht _ _. rewrite compile_all_nil. cbn [charged fst snd]. simpl.
  destruct (commit_inv cs s r Hi) as (Hi' & Ht' & HW & He). exists s. split_and!; auto.
  unfold SimInst.leaves. by rewrite Ht', Ht.
Qed.

(** After an instruction the gas meter is open again unless it closed the cost block. *)
Lemma meter_after i cs :
  meter true cs -> meter (negb (commits (i_inst i))) (inst_code i cs).1.2.
Proof.
  intros [id Hid]. destruct (commits (i_inst i)) eqn:Hc; simpl.
  - destruct (closes_compileInst X size first (i_pc i) (i_data i) _ Hc cs id Hid) as (? & ? & ? & ? & ? & ? & ?). done.
  - destruct (costless_compileInst rev static size first (i_pc i) (i_data i) _ Hc cs) as [[-> _] _]. by exists id.
Qed.

(** The same way of leaving, the cost block closed. *)
Lemma leaves_commit cs s c : leaves cs s c -> leaves (GasMeter.commitCostBlock cs).1.2 s c.
Proof.
  unfold SimInst.leaves. unfold GasMeter.commitCostBlock, get_state, event_, modify, mbind, C_bind, mret, C_ret. simpl.
  destruct (m_checkCall cs); [destruct (m_blockCost cs =? 0) |]; done.
Qed.

Lemma sim_rest i l cs s r tail :
  item_ok i -> straight (i :: l) -> simulated l ->
  inv cs s r -> c_term cs = None -> Forall no_cost tail -> meter true cs ->
  block_ends
    ((if allowed X (i_inst i) then
        c ← step_body X (i_pc i) (i_data i).1 (i_inst i);
        match c with Next => charged X (negb (commits (i_inst i))) l | _ => mret c end
      else abort) r)
    (compile_rest i l cs).1.2 (exec_log E (compile_rest i l cs).2 tail s).
Proof.
  intros (Hp & Hpc & _) [Hend Hstr] IH Hi Ht Htail Hm. pose proof (invalid_allowed X (i_inst i)) as Hia.
  destruct (invalidInstruction rev static (i_inst i)) eqn:Hinv; destruct (allowed X (i_inst i)) eqn:Ha; try discriminate Hia.
  - rewrite compile_rest_invalid by done. simpl. right. right.
    assert (inv (set_term (TExit OutOfGas) cs) s r) as Hi'
      by (eapply inv_step; eauto; try done; apply (inv_rest _ _ _ _ _ _ _ Hi)).
    destruct (commit_inv _ _ _ Hi') as (Hf & Hft & _ & He). exists s, r. split_and!; auto.
  - rewrite compile_rest_valid by done. cbn [fst snd]. rewrite exec_log_app.
    pose proof (sim_body X gas0 gasPrice uninit HX stk0 first (i_pc i) (i_data i) (i_inst i) cs s r Ha Hp Hpc Ht Hi
      ((compile_all l (inst_code i cs).1.2).2 ++ tail)) as Hb.
    unfold mbind at 1, M_bind at 1. destruct (step_body _ _ _ _ r) as [[c r1] | |] eqn:Eb; [| | done].
    + destruct Hb as (s1 & He & Hi1 & Hw & Hl). rewrite He. cbn [mbind run_bind].
      pose proof (meter_after i cs Hm) as Hm1.
      assert (setsEnd (i_inst i) = false -> c = Next /\ c_term (inst_code i cs).1.2 = None) as Hnext.
      { intros Hs. split; [by eapply body_next |]. rewrite term_straight by done. done. }
      destruct Hend as [-> | Hs].
      * rewrite compile_all_nil. cbn [fst snd]. destruct (commit_inv _ _ _ Hi1) as (Hf & _ & _ & Hec).
        assert (match c with Next => charged X (negb (commits (i_inst i))) [] | _ => mret c end r1 = Ok (c, r1)) as -> by (by destruct c).
        exists s1. split_and!; auto. by apply leaves_commit.
      * destruct (Hnext Hs) as [-> Ht1]. by apply IH.
    + cbn [fst snd]. destruct Hb as [Hb | Hb]; [left | right; left; by rewrite Hb].
      intros Hf. apply Hb. eapply bounds_mono; [| exact Hf]. by apply mono_compile_all.
Qed.

Lemma sim_items l : items_ok l -> simulated l.
Proof.
  induction l as [| i l IH]; [intros _; apply simulated_nil |]. intros (Hok & Hlen & Hstr).
  pose proof (blockCost_bound _ Hok) as Hbound. pose proof (blockCost_nonneg X (i :: l)) as Hk0.
  apply Forall_cons_1 in Hok as [Hi Hok].
  assert (simulated l) as IHl by (apply IH; split_and!; [done | simpl in Hlen; lia | apply Hstr]).
  intros open cs s r tail Hinv Ht Htail Hm. cbn [charged]. unfold mbind at 1, M_bind at 1. destruct open.
  - destruct Hm as [id Hid]. rewrite (compile_all_open _ _ _ _ _ _ _ Hid).
    apply sim_rest; auto; [| by exists id]. eapply inv_step; eauto; try done. apply (inv_rest _ _ _ _ _ _ _ Hinv).
  - destruct Hm as [Hid H0']. rewrite (compile_all_closed _ _ _ _ _ _ Hid H0'). cbn [fst snd exec_log].
    rewrite check_settled by done.
    set (cs1 := set_cost _ _ _).
    pose proof (exec_paid cs s r (c_next cs) (blockCost X (i :: l)) cs1 Hinv ltac:(lia) ltac:(by split_and!) ltac:(simpl; lia)) as Hp.
    destruct (charge (blockCost X (i :: l)) r) as [[[] r1] | |]; [| | done].
    + destruct Hp as (s1 & -> & Hi1). cbn [mbind run_bind]. apply sim_rest; auto. by exists (c_next cs).
    + rewrite Hp. cbn [mbind run_bind]. right. by left.
Qed.
End Items.

(** ** A whole block *)

(** A run between two blocks. *)
Definition between (s : rt H) (r : rstate H) : Prop := rest_rel X s r /\ stack_synced s (r_stack r).

Definition any_rel (cs cs' : cstate) : Prop := True.
#[local] Instance any_rel_preorder : PreOrder any_rel.
Proof. by split. Qed.
#[local] Instance noprep_frame : Frame any_rel no_prepare.
Proof. split; [split |..]; try apply _; done. Qed.
#[local] Hint Extern 1 (keeps any_rel _ (modify _)) => apply keeps_modify; intros; exact I : keeps.

Lemma noprep_commit : keeps any_rel no_prepare GasMeter.commitCostBlock.
Proof. apply (keeps_commit any_rel no_prepare); try apply _; done. Qed.
#[local] Hint Resolve noprep_commit : keeps.

Lemma noprep_compile_all first l : keeps any_rel no_prepare (compile_all X size first l).
Proof.
  apply keeps_bind; [apply _ | | intros; apply noprep_commit].
  induction l as [| i l IH]; cbn [compile_items]; [apply keeps_ret, _ |].
  apply keeps_bind; [apply _ | unfold GasMeter.count_inst; keeps_tac | intros _].
  destruct (invalidInstruction _ _ _); [unfold RuntimeManager.exit; keeps_tac |].
  apply keeps_bind; [apply _ | | done].
  destruct (commits (i_inst i)) eqn:Hc; [| destruct (jumps (i_inst i)) eqn:Hj; [| by apply keeps_compileInst; [apply _ |..]]];
    destruct (i_inst i); try discriminate Hc; try discriminate Hj; cbn [compileInst]; compile_unfold; codegen_unfold; keeps_tac.
Qed.

(** The stores of [finalize] touch nothing and keep the state. *)
Lemma finalize_log cs : exists l,
  LocalStack.finalize cs = (tt, cs, ESetPrepare (m_minSize cs) (m_maxSize cs) (LocalStack.size cs) :: l)
  /\ Forall no_prepare l /\ Forall no_cost l.
Proof.
  assert (forall n g gp it1 it2 cs, exists l, LocalStack.finalize_loop n g gp it1 it2 cs = (tt, cs, l)
    /\ Forall no_prepare l /\ Forall no_cost l) as Hloop.
  { intros n. induction n as [| n IH]; intros g gp it1 it2 cs'; cbn [LocalStack.finalize_loop]; [by exists [] |].
    assert (forall v it1 it2, exists l, (_ ← emit (IStackStore v g); LocalStack.finalize_loop n (g + 1) gp it1 it2) cs' = (tt, cs', l)
      /\ Forall no_prepare l /\ Forall no_cost l) as Hst.
    { intros v it1' it2'. destruct (IH (g + 1) gp it1' it2' cs') as (l & He & ? & ?).
      exists (EEmit (IStackStore v g) :: l). unfold emit, mbind, C_bind. rewrite He. split_and!; [done | by constructor..]. }
    case_match; [destruct it1 as [| [v |] it1]; [by exists [] | apply Hst | apply IH] |].
    destruct it2 as [| v it2]; [by exists [] | apply Hst]. }
  unfold LocalStack.finalize, get_state, event_, mbind, C_bind.
  destruct (Hloop (Z.to_nat (LocalStack.size cs - - Z.of_nat (length (m_input cs)))) (- Z.of_nat (length (m_input cs)))
    (Z.of_nat (m_globalPops cs)) (reverse (m_input cs)) (m_local cs) cs) as (l & He & ? & ?).
  exists l. by rewrite He.
Qed.

Lemma grows_compile_all first l :
  Forall item_ok l -> grows (64 * Z.of_nat (length l)) (compile_all X size first l).
Proof.
  intros Hl. replace (64 * Z.of_nat (length l)) with (64 * Z.of_nat (length l) + 0) by lia.
  apply grows_bind; [| intros; apply grows_commit].
  induction Hl as [| i l (_ & _ & He & _) Hl IH]; cbn [compile_items length]; [apply grows_ret |].
  apply (grows_weaken (0 + Z.max 0 (64 + 64 * Z.of_nat (length l)))); [| lia].
  apply grows_bind; [| intros; apply grows_if].
  - apply grows_stackless. unfold GasMeter.count_inst.
    apply keeps_bind; [apply _ | apply keeps_get_state, _ | intros cs].
    apply keeps_bind; [apply _ | | intros; apply keeps_modify; try apply _; done].
    destruct (m_checkCall cs); [apply keeps_ret, _ |].
    apply keeps_bind; [apply _ | apply keeps_fresh; try apply _; done | intros n].
    apply keeps_bind; [apply _ | apply keeps_emit; try apply _; done | intros; apply keeps_modify; try apply _; done].
  - apply grows_stackless. apply keeps_modify; try apply _; done.
  - apply grows_bind; [by apply grows_compileInst | done].
Qed.

(** The code of a block, up to the loop over the positions. *)
Definition block_code (first : nat) (l : list item) : C unit :=
  _ ← LocalStack.init; _ ← compile_all X size first l; LocalStack.finalize.

Definition init_state (cs : cstate) : cstate :=
  mkC (c_next cs) [] [] 0 0 0 (m_checkCall cs) (m_blockCost cs) None (c_cases cs).

Lemma cwf_init cs : cwf (init_state cs).
Proof. split; simpl; try done. Qed.

Lemma block_code_log first l cs :
  let fin := (compile_all X size first l (init_state cs)).1.2 in
  exists stores,
    block_code first l cs = (tt, fin, EEmit (IPrepare None) :: (compile_all X size first l (init_state cs)).2
        ++ ESetPrepare (m_minSize fin) (m_maxSize fin) (LocalStack.size fin) :: stores)
    /\ (LocalStack.finalize fin).2 = ESetPrepare (m_minSize fin) (m_maxSize fin) (LocalStack.size fin) :: stores
    /\ Forall no_prepare stores /\ Forall no_cost stores.
Proof.
  intros fin. destruct (finalize_log fin) as (l' & He & Hp & Hc). exists l'. rewrite He. split_and!; try done.
  unfold block_code, LocalStack.init, modify, emit, mbind, C_bind. fold (init_state cs). subst fin. simpl.
  destruct (compile_all X size first l (init_state cs)) as [[[] cs1] l1]. simpl in *. by rewrite He.
Qed.

(** The stack check. *)
Lemma exec_prepare first l cs s r stores :
  items_ok l -> between s r -> Forall no_prepare stores ->
  let fin := (compile_all X size first l (init_state cs)).1.2 in
  let log := (compile_all X size first l (init_state cs)).2 ++ ESetPrepare (m_minSize fin) (m_maxSize fin) (LocalStack.size fin) :: stores in
  let s1 := set_frame (Z.of_nat (length (r_stack r))) (Z.of_nat (length (r_stack r)) + LocalStack.size fin) s in
  inv X gas0 gasPrice (r_stack r) (init_state cs) s1 r /\
  (~ bounds (length (r_stack r)) fin /\ exec E (settle log (IPrepare None)) s = Abort
   \/ bounds (length (r_stack r)) fin /\ exec E (settle log (IPrepare None)) s = Ok s1).
Proof.
  intros (Hok & Hlen & _) [Hr Hs] Hst fin log s1. unfold log.
  rewrite settle_prepare; [| apply noprep_compile_all | done]. cbn [exec exec1 need mbind run_bind].
  destruct (grows_compile_all first l Hok (init_state cs) (cwf_init cs)) as (Hwf & Hmin & Hmax). simpl in Hmin, Hmax.
  fold fin in Hwf, Hmin, Hmax. destruct Hwf as [Hw1 Hw2 Hw3 Hw4 _ _].
  destruct Hs as [Hsz Hh Hsl Hwd Hslot]. split.
  - split; [apply cwf_init | unfold bounds; simpl; lia | | by destruct Hr; split].
    split; simpl; try done; [lia |]. intros i z Hz. rewrite Nat.sub_0_r, Nat.add_0_r. exact Hz.
  - rewrite Hsz, stackPrepareFunc_spec by lia.
    destruct (Z.leb_spec 0 (Z.of_nat (length (r_stack r)) + m_minSize fin)) as [Hb1 | Hb1],
      (Z.leb_spec (Z.of_nat (length (r_stack r)) + m_maxSize fin) 1024) as [Hb2 | Hb2]; cbn [andb mbind run_bind];
      try (left; split; [unfold bounds; lia | done]).
    right. split; [done |]. by rewrite wrap_small by (unfold inw; lia).
Qed.

(** The cost block is closed at the end of a block. *)
Lemma meter_end first l open cs : meter open cs -> meter false (compile_all X size first l cs).1.2.
Proof.
  assert (forall cs, meter true cs -> meter false (GasMeter.commitCostBlock cs).1.2) as Hcommit.
  { intros cs' [id Hid]. destruct (closes_commit cs' id Hid) as (? & ? & ? & ? & ? & ? & ?). done. }
  assert (forall l, (forall open cs, meter open cs -> meter false (compile_all X size first l cs).1.2) ->
    forall i cs, meter true cs -> meter false (compile_rest X size first i l cs).1.2) as Hrest.
  { intros l' IH i cs' Hm. destruct (invalidInstruction rev static (i_inst i)) eqn:Hinv.
    - rewrite compile_rest_invalid by done. by apply Hcommit.
    - rewrite compile_rest_valid by done. cbn [fst snd]. eapply IH. by apply meter_after. }
  revert open cs. induction l as [| i l IH]; intros open cs Hm.
  - rewrite compile_all_nil. cbn [fst snd]. destruct open; [by apply Hcommit |]. destruct Hm as [Hid H0'].
    unfold GasMeter.commitCostBlock, get_state, mbind, C_bind. simpl. by rewrite Hid.
  - destruct open.
    + destruct Hm as [id Hid]. rewrite (compile_all_open _ _ _ _ _ _ _ Hid). apply Hrest; [done | by exists id].
    + destruct Hm as [Hid H0']. rewrite (compile_all_closed _ _ _ _ _ _ Hid H0'). cbn [fst snd].
      apply Hrest; [done | by exists (c_next cs)].
Qed.

(** How the run of a block ends against the machine. *)
Definition block_result (m : run (ctl * rstate H)) (fin : cstate) (e : run (rt H)) : Prop :=
  match m with
  | Undef => True
  | Abort => e = Abort \/ exists s', e = Ok s' /\ c_term fin = Some (TExit OutOfGas)
  | Ok (c, r') => exists s', e = Ok s' /\ between s' r' /\ leaves X gas0 gasPrice fin s' c
  end.

Lemma block_finalized stk0 fin s r tail :
  inv X gas0 gasPrice stk0 fin s r -> s_size s = Z.of_nat (length stk0) + LocalStack.size fin ->
  exists s', exec_log E (LocalStack.finalize fin).2 tail s = Ok s' /\ between s' r
    /\ forall c, leaves X gas0 gasPrice fin s c -> leaves X gas0 gasPrice fin s' c.
Proof.
  intros Hi Hsz. destruct (sim_finalize X gas0 gasPrice uninit stk0 fin s r Hi tail Hsz) as (st & He & Hsy).
  exists (set_slots st s). split_and!; [done | | done]. split; [| done].
  destruct (inv_rest _ _ _ _ _ _ _ Hi). by split.
Qed.

(** The code of a block does what the machine does with its instructions. *)
Lemma block_simulates first l cs s r :
  items_ok l -> between s r -> meter false cs ->
  block_result (steps X l r) (block_code first l cs).1.2 (exec E (build (block_code first l cs).2) s).
Proof.
  intros Hok Hbtw Hm. rewrite exec_build.
  destruct (block_code_log first l cs) as (stores & Hcode & Hfin & Hnp & Hnc). rewrite Hcode. cbn [fst snd exec_log].
  rewrite app_nil_r. destruct (exec_prepare first l cs s r stores Hok Hbtw Hnp) as (Hi1 & Hprep).
  set (fin := (compile_all X size first l (init_state cs)).1.2) in *.
  set (tail := ESetPrepare _ _ _ :: stores) in *. set (s1 := set_frame _ _ s) in *.
  assert (Forall no_cost tail) as Hnct by (by constructor).
  pose proof (sim_items (r_stack r) first l Hok false (init_state cs) s1 r tail Hi1 eq_refl Hnct Hm) as Hsim. fold fin in Hsim.
  assert (agrees (steps X l r) (charged X false l r)) as Hag by (apply charged_both, Hok).
  destruct (steps X l r) as [[c r'] | |]; simpl in Hag; [rewrite Hag in Hsim | rewrite Hag in Hsim | done]; simpl in Hsim.
  - destruct Hsim as (s2 & He & Hi2 & Hl). pose proof (inv_bounds _ _ _ _ _ _ _ Hi2) as Hb.
    destruct Hprep as [[Hn _] | [_ ->]]; [done |]. cbn [mbind run_bind].
    assert (s_size s2 = Z.of_nat (length (r_stack r)) + LocalStack.size fin) as Hsz.
    { apply exec_log_size in He; [done |]. apply noprep_compile_all. }
    destruct (block_finalized _ _ _ _ [] Hi2 Hsz) as (s3 & He3 & Hbt & Hlv). rewrite Hfin in He3.
    exists s3. rewrite exec_log_app, app_nil_r, He. cbn [mbind run_bind]. split_and!; auto.
  - destruct Hprep as [[_ ->] | [Hb ->]]; cbn [mbind run_bind]; [by left |].
    destruct Hsim as [Hn | [He | (s2 & r2 & He & Hi2 & Ht)]]; [done | left | right].
    + by rewrite exec_log_app, app_nil_r, He.
    + assert (s_size s2 = Z.of_nat (length (r_stack r)) + LocalStack.size fin) as Hsz.
      { apply exec_log_size in He; [done |]. apply noprep_compile_all. }
      destruct (block_finalized _ _ _ _ [] Hi2 Hsz) as (s3 & He3 & _). rewrite Hfin in He3.
      exists s3. rewrite exec_log_app, app_nil_r, He. cbn [mbind run_bind]. auto.
Qed.
End SimBlock.
