(* ===== verification/Program.v ===== *)
(** * The compiled program

    [Compiler::compile] and [Compiler::resolveJumps] of libevmjit/Compiler.cpp:
    the LLVM blocks of all basic blocks, the jump table, and the branches
    between them.  The code blocks are numbered in order; the number after the
    last is the Stop block.  [runMain] runs the main function from its entry:
    a [longjmp] of the runtime leads to the Abort block, which exits with
    OutOfGas. *)
From S2P Require Import Prelude Bytes Instruction BasicBlocks LLVMInt EvmAbi GasSchedule Runtime IR Builder.
From S2P Require Import Codegen Compiler.

(** An LLVM block before jumps are resolved, with the cases it added to the jump table. *)
Record lblock := mkL { b_instrs : list instr; b_term : option terminator; b_cases : list Z }.

(** Where a resolved branch goes: to a block, through the jump table, or to the Abort block. *)
Inductive target := ToBlock (n : nat) | ToTable (destIdx : value) | ToAbort.

Inductive branch := Br (t : target) | CondBr (cond : value) (t : target) (next : nat) | Exit (code : ReturnCode).

Record program := mkP { p_blocks : list (list instr * branch); p_table : list (Z * nat) }.

Section Compile.
Context `{LLVMFolder} (m_rev : evm_revision) (m_staticCall : bool) (code : list Z).

(** The generator at the start of the main function. *)
Definition start_state : cstate := mkC 0 [] [] 0 0 0 None 0 None [].

Definition set_cases (l : list Z) (cs : cstate) : cstate :=
  mkC (c_next cs) (m_input cs) (m_local cs) (m_globalPops cs) (m_minSize cs) (m_maxSize cs)
    (m_checkCall cs) (m_blockCost cs) (c_term cs) l.

(** The loop of [compile] over the blocks; [None] is a loop of a block cut short. *)
Fixpoint compileBlocks (blocks : list BasicBlock) (cs : cstate) : option (list lblock) :=
  match blocks with
  | [] => Some []
  | block :: blocks =>
      let '(ok, cs, log) := compileBasicBlock m_rev m_staticCall code block (set_cases [] cs) in
      if ok then bs ← compileBlocks blocks cs; Some (mkL (build log) (c_term cs) (c_cases cs) :: bs) else None
  end.

(** The cases of the switch instruction. *)
Definition jumpTable (bs : list lblock) : list (Z * nat) :=
  concat (imap (fun n b => (fun z => (z, n)) <$> b_cases b) bs).

(** [SwitchInst::findCaseValue] and the execution of the switch. *)
Fixpoint findCaseValue (table : list (Z * nat)) (z : Z) : target :=
  match table with
  | [] => ToAbort
  | (z', n) :: table => if z' =? z then ToBlock n else findCaseValue table z
  end.

(** [resolveJumps] on one block. *)
Definition resolveDest (table : list (Z * nat)) (destIdx : value) : target :=
  match dyn_const destIdx with
  | Some z => findCaseValue table z
  | None => ToTable destIdx
  end.

Definition resolveJump (table : list (Z * nat)) (n : nat) (term : option terminator) : branch :=
  match term with
  | None => Br (ToBlock (S n))
  | Some (TJump destIdx) => Br (resolveDest table destIdx)
  | Some (TJumpI cond destIdx) => CondBr cond (resolveDest table destIdx) (S n)
  | Some (TExit code) => Exit code
  end.

Definition resolveJumps (bs : list lblock) : program :=
  let table := jumpTable bs in
  mkP (imap (fun n b => (b_instrs b, resolveJump table n (b_term b))) bs) table.

Definition compile : option program :=
  blocks ← createBasicBlocks code;
  bs ← compileBlocks blocks start_state;
  Some (resolveJumps bs).
End Compile.

(** ** Running the main function *)

(** What the main function returns, with the runtime state at its end. *)
Inductive returned_code (H : Type) := Returned (code : ReturnCode) (s : rt H) | Undefined.
Arguments Returned {H}.
Arguments Undefined {H}.

Section Run.
Context {H : Type} (E : Env H) (P : program).

(** The block to go on with; [None] is the Abort block. *)
Definition goto (t : target) (s : rt H) : run (option nat) :=
  match t with
  | ToBlock n => Ok (Some n)
  | ToAbort => Ok None
  | ToTable v =>
      z ← use E s v;
      Ok (match findCaseValue (p_table P) z with ToBlock n => Some n | _ => None end)
  end.

(** The state in which the instructions stop: at their end, or before the
    first one that does not return. *)
Fixpoint stopped (l : list instr) (s : rt H) : rt H :=
  match l with
  | [] => s
  | i :: l => match exec1 E i s with Ok s' => stopped l s' | _ => s end
  end.

(** One block: the next one, or the result. *)
Definition runBlock (n : nat) (s : rt H) : (nat * rt H) + returned_code H :=
  match p_blocks P !! n with
  | None => inr (Returned Stop s)
  | Some (instrs, br) =>
      match exec E instrs s with
      | Abort => inr (Returned OutOfGas (stopped instrs s))
      | Undef => inr Undefined
      | Ok s =>
          let jump t :=
            match goto t s with
            | Ok (Some n) => inl (n, s)
            | Ok None => inr (Returned OutOfGas s)
            | _ => inr Undefined
            end in
          match br with
          | Exit code => inr (Returned code s)
          | Br t => jump t
          | CondBr cond t next =>
              match use E s cond with
              | Ok c => if c =? 1 then jump t else inl (next, s)
              | _ => inr Undefined
              end
          end
      end
  end.

(** [fuel] bounds the number of blocks run. *)
Fixpoint runBlocks (fuel : nat) (n : nat) (s : rt H) : option (returned_code H) :=
  match fuel with
  | O => None
  | S fuel => match runBlock n s with inl (n, s) => runBlocks fuel n s | inr res => Some res end
  end.

(** The state the entry block sets up. *)
Definition entry (gas : Z) (h : H) : rt H :=
  mkRt (fun _ => None) (replicate (Z.to_nat stackSizeLimit) None) 0 0 gas emptyArray [] 0 None (fun _ => []) h None.

Definition runMain (fuel : nat) (gas : Z) (h : H) : option (returned_code H) := runBlocks fuel 0 (entry gas h).
End Run.
