(* ===== verification/Interp.v ===== *)
(** * Running a contract on the reference machine

    The machine's loop over the code: the program counter, jumps to valid
    destinations, the end of the code.  [interp_block] gives its behaviour by
    basic blocks, and [interp_terminates] bounds the number of steps: every
    jump lands on a JUMPDEST, which costs gas. *)
From S2P Require Import Prelude Bytes Instruction BasicBlocks LLVMInt EvmAbi GasSchedule Keccak Runtime IR.
From S2P Require Import Builder Codegen Compiler Machine Frames Sim SimCall SimInst Charge.

(** The operand of a push: the bytes after it, zeros past the end of the code. *)
Definition operand (code : list Z) (pc : nat) : Z :=
  be_val (push_bytes code (length code) (numPushBytes (code_at code pc)) (S pc)).

(** Walking the code from [i] passes through [d]. *)
Fixpoint on_boundary (fuel : nat) (code : list Z) (i d : nat) : bool :=
  match fuel with
  | O => false
  | S fuel =>
      if (i =? d)%nat then true
      else if (i <? d)%nat && (i <? length code)%nat then on_boundary fuel code (nxt code i) d else false
  end.

(** A valid jump destination: a JUMPDEST that is not push data. *)
Definition valid_jump (code : list Z) (d : Z) : bool :=
  (0 <=? d) && (d <? Z.of_nat (length code))
  && bool_decide (inst_at code (Z.to_nat d) = JUMPDEST)
  && on_boundary (S (length code)) code 0 (Z.to_nat d).

Lemma on_boundary_reach fuel code i d :
  (i <= length code)%nat -> (length code < fuel + i)%nat -> on_boundary fuel code i d = true <-> reach code i d.
Proof.
  revert i. induction fuel as [| fuel IH]; intros i Hi Hf; [lia |]. cbn [on_boundary].
  destruct (Nat.eqb_spec i d) as [-> | Hne]; [split; [constructor | done] |].
  destruct (Nat.ltb_spec i d) as [Hd | Hd], (Nat.ltb_spec i (length code)) as [Hl | Hl]; cbn [andb].
  - pose proof (nxt_bounds code i Hl). rewrite IH by lia. split; intros Hr.
    + eapply reach_trans, Hr. constructor; [constructor | done].
    + apply reach_cases in Hr as [-> | [_ Hr]]; [lia | done].
  - split; [done |]. intros Hr. apply reach_cases in Hr as [-> | [? _]]; lia.
  - split; [done |]. intros Hr. apply reach_bounds in Hr; lia.
  - split; [done |]. intros Hr. apply reach_bounds in Hr; lia.
Qed.

Lemma valid_jump_spec code d :
  valid_jump code d = true <->
  0 <= d /\ (Z.to_nat d < length code)%nat /\ inst_at code (Z.to_nat d) = JUMPDEST /\ reach code 0 (Z.to_nat d).
Proof.
  unfold valid_jump. rewrite !andb_true_iff, Z.leb_le, Z.ltb_lt, bool_decide_eq_true, on_boundary_reach by lia.
  split; intros; split_and!; destruct_and?; auto; lia.
Qed.

(** How a run ends: halted with a code, output and final state; failed with
    all gas consumed; or left open. *)
Inductive ending (H : Type) := Halted (code : ReturnCode) (out : list Z) (r : rstate H) | Failed | LeftOpen.
Arguments Halted {H}.
Arguments Failed {H}.
Arguments LeftOpen {H}.

Section Interp.
Context {H : Type} (X : Ctx H).

Abbreviation code := (x_code X).

Fixpoint interp (fuel pc : nat) (r : rstate H) : option (ending H) :=
  match fuel with
  | O => None
  | S fuel =>
      if (length code <=? pc)%nat then Some (Halted Stop [] r)
      else
        match step X pc (operand code pc) (inst_at code pc) r with
        | Undef => Some LeftOpen
        | Abort => Some Failed
        | Ok (Next, r) => interp fuel (nxt code pc) r
        | Ok (JumpTo d, r) => if valid_jump code d then interp fuel (Z.to_nat d) r else Some Failed
        | Ok (Halt c out, r) => Some (Halted c out r)
        end
  end.

(** ** By blocks *)

(** The instruction at [i] of a block that ends at [e], as the compiler reads it. *)
Definition item_at (e i : nat) : item :=
  mkItem i (match inst_at code i with PUSH _ => (readPushData code i e).1 | _ => (0, 0) end) (inst_at code i).

Lemma push_bytes_end i e n :
  (i <= e <= length code)%nat -> (Nat.min (i + n) (length code) <= e)%nat -> push_bytes code e n i = push_bytes code (length code) n i.
Proof.
  intros Hi Hn. unfold push_bytes. destruct (Nat.le_gt_cases (length code) (i + n)).
  - assert (e = length code) as -> by lia. done.
  - rewrite !take_app, !length_take, !length_drop. rewrite !take_take. f_equal; f_equal; lia.
Qed.

(** The machine does not look at the operand of another instruction. *)
Lemma step_data pc d d' inst : (forall n, inst <> PUSH n) -> step X pc d inst = step X pc d' inst.
Proof. intros Hn. destruct inst; try done. by destruct (Hn n). Qed.

Lemma step_item e i l :
  bytes_ok code -> bblock code i e l ->
  step X i (i_data (item_at e i)).1 (inst_at code i) = step X i (operand code i) (inst_at code i).
Proof.
  intros Hc Hb. unfold item_at. cbn [i_data].
  destruct (inst_at code i) eqn:Hi; try by apply step_data.
  pose proof (bblock_bounds _ _ _ _ Hb). pose proof (bblock_readPush _ _ _ _ Hb) as Hn. rewrite nxt_eq in Hn by lia.
  rewrite readPushData_value by (done || lia). unfold operand. rewrite push_bytes_end by lia. done.
Qed.

(** The outcome of a block decides how the run goes on. *)
Definition continues (fuel e : nat) (m : run (ctl * rstate H)) (o : ending H) : Prop :=
  match m with
  | Undef => o = LeftOpen
  | Abort => o = Failed
  | Ok (Next, r) => exists fuel', (fuel' < fuel)%nat /\ interp fuel' e r = Some o
  | Ok (JumpTo d, r) =>
      if valid_jump code d then exists fuel', (fuel' < fuel)%nat /\ interp fuel' (Z.to_nat d) r = Some o else o = Failed
  | Ok (Halt c out, r) => o = Halted c out r
  end.

Lemma interp_block i e l fuel r o :
  bytes_ok code -> bblock code i e l -> interp fuel i r = Some o ->
  continues fuel e (steps X (item_at e <$> l) r) o.
Proof.
  intros Hc Hb. revert fuel r. induction Hb as [i Hi Hend | i e l Hi Hs Hn HJ Hb IH]; intros fuel r Ho.
  - destruct fuel as [| fuel]; [done |]. cbn [interp] in Ho.
    rewrite (proj2 (Nat.leb_gt _ _)) in Ho by lia. cbn [fmap list_fmap steps i_pc i_inst item_at].
    unfold mbind, M_bind. rewrite (step_item _ _ [i]) by (done || by apply bb_last).
    destruct (step X i (operand code i) (inst_at code i) r) as [[[| d | c out] r'] | |]; simpl in *; try (by injection Ho).
    + exists fuel. split; [lia | done].
    + destruct (valid_jump code d); [| by injection Ho]. exists fuel. split; [lia | done].
  - assert (bblock code i e (i :: l)) as Hb' by (by apply bb_cons).
    destruct fuel as [| fuel]; [done |]. cbn [interp] in Ho.
    rewrite (proj2 (Nat.leb_gt _ _)) in Ho by lia. cbn [fmap list_fmap steps i_pc i_inst item_at].
    unfold mbind, M_bind. rewrite (step_item _ _ (i :: l)) by done.
    destruct (step X i (operand code i) (inst_at code i) r) as [[[| d | c out] r'] | |]; simpl in *; try (by injection Ho).
    + specialize (IH fuel r' Ho). unfold continues in *.
      destruct (steps X (item_at e <$> l) r') as [[[| d | c out] r2] | |]; try done.
      * destruct IH as (f & Hf & ?). exists f. split; [lia | done].
      * destruct (valid_jump code d); [| done]. destruct IH as (f & Hf & ?). exists f. split; [lia | done].
    + destruct (valid_jump code d); [| by injection Ho]. exists fuel. split; [lia | done].
Qed.

(** ** Termination *)

Section Terminates.
Context (HT : host_ok (x_host X)).

(** No instruction makes gas. *)
Definition spends (m : @M H ctl) : Prop := forall r c r', m r = Ok (c, r') -> 0 <= r_gas r -> 0 <= r_gas r' <= r_gas r.

Lemma rpop_gas (r r' : rstate H) z : rpop r = Ok (z, r') -> r_gas r' = r_gas r.
Proof. unfold rpop, gets, mbind, M_bind, mret, M_ret, abort. case_match; [done |]. simpl. by intros [= _ <-]. Qed.

Lemma rpop256_gas (r r' : rstate H) z : rpop256 r = Ok (z, r') -> r_gas r' = r_gas r.
Proof.
  unfold rpop256. intros Hp. apply M_bind_ok in Hp as (? & ? & H1 & Hp). apply M_bind_ok in Hp as (? & ? & H2 & Hp).
  injection Hp as _ <-. apply rpop_gas in H1, H2. congruence.
Qed.

Lemma rpush_gas (r r' : rstate H) z u : rpush z r = Ok (u, r') -> r_gas r' = r_gas r.
Proof. unfold rpush, gets, mbind, M_bind, set_rstack, abort. case_match; [| done]. by intros [= _ <-]. Qed.

Lemma rpush256_gas (r r' : rstate H) z u : rpush256 z r = Ok (u, r') -> r_gas r' = r_gas r.
Proof.
  unfold rpush256. intros Hp. apply M_bind_ok in Hp as (? & ? & H1 & H2). apply rpush_gas in H1, H2. congruence.
Qed.

Lemma send_back inst m v (r r' : rstate H) res :
  send X inst m v r = Ok (res, r') -> 0 <= msg_gas m -> 0 <= gas_back res (msg_gas m) <= msg_gas m.
Proof. rewrite send_unfold. case_match; intros [= <- _] Hm; simpl; [lia |]. by apply ok_call_gas. Qed.

Lemma expand_nonneg o n (r r' : rstate H) u : expand X o n r = Ok (u, r') -> 0 <= r_gas r -> 0 <= r_gas r' <= r_gas r.
Proof.
  intros He Hr. pose proof (shiftable_expand X o n r 0 ltac:(lia)) as Hs. rewrite He in Hs. apply Hs.
Qed.

Lemma do_create_back g v io isz (r r' : rstate H) res :
  do_create X g v io isz r = Ok (res, r') -> 0 <= g -> 0 <= gas_back res g <= g.
Proof.
  unfold do_create. intros Hc Hg. do 2 (apply M_bind_ok in Hc as (? & ? & _ & Hc)). exact (send_back _ _ _ _ _ _ Hc Hg).
Qed.

Lemma do_call_back inst g a v io isz oo osz (r r' : rstate H) res :
  do_call X inst g a v io isz oo osz r = Ok (res, r') -> 0 <= g -> 0 <= gas_back res g <= g.
Proof.
  unfold do_call. intros Hc Hg. do 2 (apply M_bind_ok in Hc as (? & ? & _ & Hc)). apply M_bind_ok in Hc as (? & ? & Hs & Hc).
  apply M_bind_ok in Hc as (? & ? & _ & Hc). injection Hc as <- _. exact (send_back _ _ _ _ _ _ Hs Hg).
Qed.

Lemma spends_create : spends (step_create X).
Proof.
  intros r c r' Hs Hr. unfold step_create in Hs.
  apply M_bind_ok in Hs as (z1 & r1 & H1 & Hs). apply M_bind_ok in Hs as (z2 & r2 & H2 & Hs).
  apply M_bind_ok in Hs as (z3 & r3 & H3 & Hs). apply M_bind_ok in Hs as (u4 & r4 & H4 & Hs).
  apply M_bind_ok in Hs as (g & r5 & H5 & Hs). cbv zeta in Hs. apply M_bind_ok in Hs as (res & r6 & H6 & Hs).
  apply M_bind_ok in Hs as (u7 & r7 & H7 & Hs). apply M_bind_ok in Hs as (u8 & r8 & H8 & Hs). injection Hs as <- <-.
  apply rpop_gas in H1, H2, H3. apply expand_nonneg in H4; [| lia]. injection H5 as <- <-. injection H7 as _ <-.
  apply rpush256_gas in H8. rewrite H8. cbn [r_gas].
  set (kept := if rev_ge _ _ then _ else _) in *.
  assert (0 <= kept <= r_gas r4) as Hk.
  { unfold kept. case_match; [| lia]. split; [apply Z.div_pos; lia | apply Z.div_le_upper_bound; lia]. }
  apply do_create_back in H6; lia.
Qed.

Lemma value_gas (b : bool) (r r' : rstate H) z : (if b then rpop else mret 0) r = Ok (z, r') -> r_gas r' = r_gas r.
Proof. destruct b; [apply rpop_gas | by intros [= _ <-]]. Qed.

Lemma call_costs_nonneg inst g a z io isz oo osz (r r' : rstate H) given :
  call_costs X inst g a z io isz oo osz r = Ok (given, r') -> 0 <= r_gas r'.
Proof.
  unfold call_costs. intros Hc. repeat (apply M_bind_ok in Hc as (? & ? & ?Hs & Hc); cbv beta zeta in Hc).
  injection Hc as _ <-. apply charge_inv in Hs5 as [Hcg ->]. simpl. injection Hs4 as _ ->. lia.
Qed.

Lemma spends_call inst : spends (step_call X inst).
Proof.
  intros r c r' Hs Hr. unfold step_call in Hs.
  apply M_bind_ok in Hs as (z1 & r1 & H1 & Hs). apply M_bind_ok in Hs as (z2 & r2 & H2 & Hs).
  apply M_bind_ok in Hs as (z3 & r3 & H3 & Hs). apply M_bind_ok in Hs as (z4 & r4 & H4 & Hs).
  apply M_bind_ok in Hs as (z5 & r5 & H5 & Hs). apply M_bind_ok in Hs as (z6 & r6 & H6 & Hs).
  apply M_bind_ok in Hs as (z7 & r7 & H7 & Hs). apply M_bind_ok in Hs as (given & r8 & H8 & Hs).
  apply M_bind_ok in Hs as (res & r9 & H9 & Hs). apply M_bind_ok in Hs as (g & r10 & H10 & Hs).
  apply M_bind_ok in Hs as (u11 & r11 & H11 & Hs). apply M_bind_ok in Hs as (u12 & r12 & H12 & Hs). injection Hs as <- <-.
  apply rpop_gas in H1, H4, H5, H6, H7. apply rpop256_gas in H2. apply value_gas in H3.
  pose proof (call_costs_nonneg _ _ _ _ _ _ _ _ _ _ _ H8). apply call_costs_inv in H8 as [Hg Hle].
  pose proof (do_call_gas _ _ _ _ _ _ _ _ _ _ _ _ H9) as H9'. apply do_call_back in H9; [| done].
  injection H10 as <- <-. injection H11 as _ <-. apply rpush_gas in H12. rewrite H12. cbn [r_gas]. lia.
Qed.

Lemma body_spends pc data inst : spends (step_body X pc data inst).
Proof.
  intros r c r' Hs Hr. destruct (commits inst) eqn:Hc.
  - destruct inst; try discriminate Hc; cbn [step_body] in Hs;
      [| by eapply spends_create | by eapply spends_call..].
    apply M_bind_ok in Hs as (g & r1 & H1 & Hs). injection H1 as <- <-.
    apply M_bind_ok in Hs as (u & r2 & H2 & Hs). injection Hs as <- <-. apply rpush_gas in H2. lia.
  - pose proof (shiftable_body X pc data inst Hc r 0 ltac:(lia)) as Hb. rewrite Hs in Hb. apply Hb.
Qed.

Lemma step_spends pc data inst r c r' :
  step X pc data inst r = Ok (c, r') -> 0 <= r_gas r' <= r_gas r - getStepCost (x_rev X) inst.
Proof.
  unfold step. intros Hs. apply M_bind_ok in Hs as (u & r1 & H1 & Hs). apply charge_inv in H1 as [H1 ->].
  destruct (allowed X inst); [| done]. apply body_spends in Hs; simpl in Hs; lia.
Qed.

(** One step, then the rest of the run. *)
Lemma interp_step pc r :
  (pc < length code)%nat ->
  (forall r', step X pc (operand code pc) (inst_at code pc) r = Ok (Next, r') -> exists fuel o, interp fuel (nxt code pc) r' = Some o) ->
  (forall d r', step X pc (operand code pc) (inst_at code pc) r = Ok (JumpTo d, r') -> valid_jump code d = true ->
     exists fuel o, interp fuel (Z.to_nat d) r' = Some o) ->
  exists fuel o, interp fuel pc r = Some o.
Proof.
  intros Hpc Hnext Hjump.
  assert (forall fuel, interp (S fuel) pc r = match step X pc (operand code pc) (inst_at code pc) r with
    | Undef => Some LeftOpen | Abort => Some Failed | Ok (Next, r) => interp fuel (nxt code pc) r
    | Ok (JumpTo d, r) => if valid_jump code d then interp fuel (Z.to_nat d) r else Some Failed
    | Ok (Halt c out, r) => Some (Halted c out r) end) as Heq
    by (intros; cbn [interp]; by rewrite (proj2 (Nat.leb_gt _ _)) by lia).
  destruct (step X pc (operand code pc) (inst_at code pc) r) as [[[| d | c out] r'] | |].
  - destruct (Hnext r' eq_refl) as (fuel & o & Ho). exists (S fuel), o. by rewrite Heq.
  - destruct (valid_jump code d) eqn:Hv; [| exists 1%nat, Failed; by rewrite Heq].
    destruct (Hjump d r' eq_refl Hv) as (fuel & o & Ho). exists (S fuel), o. by rewrite Heq.
  - exists 1%nat. eexists. by rewrite Heq.
  - exists 1%nat. eexists. by rewrite Heq.
  - exists 1%nat. eexists. by rewrite Heq.
Qed.

(** The gas bounds the number of jumps, the length of the code the steps between two of them. *)
Lemma interp_halts (g k : nat) pc r :
  r_gas r <= Z.of_nat g -> (length code <= k + pc)%nat -> exists fuel o, interp fuel pc r = Some o.
Proof.
  revert k pc r. induction (lt_wf g) as [g _ IHg]. intros k. induction k as [| k IHk]; intros pc r Hg Hk.
  all: destruct (Nat.le_gt_cases (length code) pc) as [Hend | Hpc];
    [exists 1%nat; eexists; cbn [interp]; by rewrite (proj2 (Nat.leb_le _ _)) by lia | try lia].
  apply interp_step; [done | |].
  - intros r' Hs. apply step_spends in Hs. pose proof (getStepCost_nonneg (x_rev X) (inst_at code pc)).
    pose proof (nxt_bounds code pc Hpc). apply IHk; lia.
  - intros d r1 Hs Hv. apply valid_jump_spec in Hv as (Hd0 & Hd & HJ & _).
    apply step_spends in Hs. pose proof (getStepCost_nonneg (x_rev X) (inst_at code pc)).
    assert (forall c r2, step X (Z.to_nat d) (operand code (Z.to_nat d)) (inst_at code (Z.to_nat d)) r1 = Ok (c, r2) ->
      c = Next /\ 0 <= r_gas r2 < r_gas r1) as Hjd.
    { intros c r2 Hs2. split; [| apply step_spends in Hs2; rewrite HJ in Hs2; change (getStepCost (x_rev X) JUMPDEST) with 1 in Hs2; lia].
      rewrite HJ in Hs2. unfold step in Hs2. apply M_bind_ok in Hs2 as (? & ? & _ & Hs2). simpl in Hs2. by injection Hs2 as <- _. }
    apply interp_step; [done | |].
    + intros r2 Hs2. apply Hjd in Hs2 as [_ Hlt].
      apply (IHg (Z.to_nat (r_gas r2)) ltac:(lia) (length code)); lia.
    + intros d' r2 Hs2 _. apply Hjd in Hs2 as [? _]. done.
Qed.
End Terminates.
End Interp.
