(* ===== verification/SimProgram.v ===== *)
(** * Correctness of the compiler

    The compiled program against the reference machine: every run of the
    machine that ends, and all do, is a run of the program with the same
    result. *)
From S2P Require Import Prelude Bytes Instruction BasicBlocks LLVMInt Arith128 EvmAbi GasSchedule Keccak.
From S2P Require Import Runtime IR Builder Codegen Compiler Machine Denote Frames Heights Sim NullHost.
From S2P Require Import SimStack SimRuntime SimCopy SimHost SimCall SimArith SimInst Charge CostBlocks.
From S2P Require Import Finalize SimBlock Program Interp.

Section SimProgram.
Context {H : Type} `{LLVMFolder} (X : Ctx H) (gas0 gasPrice uninit : Z) (HX : ctx_ok X).

Abbreviation D := (runtime_data X gas0 gasPrice).
Abbreviation E := (env_of X D uninit).
Abbreviation T := (x_host X).
Abbreviation val := (isval D).
Abbreviation rev := (x_rev X).
Abbreviation static := (x_static X).
Abbreviation code := (x_code X).
Abbreviation size := (length (x_code X)).

(** ** The loop over the instructions of a block *)

Lemma nxt_no_push i : (i < length code)%nat -> (forall n, inst_at code i <> PUSH n) -> nxt code i = S i.
Proof.
  intros Hi Hn. rewrite nxt_eq by done. unfold numPushBytes. unfold inst_at in Hn.
  destruct (Instruction_of_byte (code_at code i)); try lia. by destruct (Hn n).
Qed.

(** One round of the loop. *)
Lemma compileLoop_step block i e l fuel :
  bblock code i e l -> m_end block = e -> m_firstInstrIdx block = m_begin block -> (m_begin block <= i)%nat ->
  let it := item_at X e i in
  compileLoop rev static (S fuel) code block i =
    (_ ← GasMeter.count_inst rev (i_inst it);
     if invalidInstruction rev static (i_inst it) then _ ← RuntimeManager.exit OutOfGas; mret true
     else _ ← compileInst rev static size (m_begin block) (i_pc it) (i_data it) (i_inst it);
          compileLoop rev static fuel code block (nxt code i)).
Proof.
  intros Hb He Hf Hbeg it. pose proof (bblock_bounds _ _ _ _ Hb) as Hbd. pose proof (bblock_iter _ _ _ _ Hb) as Hit.
  cbn [compileLoop]. rewrite (proj2 (Nat.eqb_neq _ _)) by lia.
  rewrite Hf. replace (i - m_begin block + m_begin block)%nat with i by lia. subst it. unfold item_at. cbn [i_inst i_pc i_data].
  destruct (inst_at code i) eqn:Hinst; try (rewrite nxt_no_push by (done || lia || congruence); reflexivity).
  rewrite He. destruct (readPushData code i e) as [[v bits] it']. cbn [fst snd] in *. by rewrite Hit.
Qed.

Lemma compileLoop_cons block i e l rest fuel cs :
  bblock code i e l -> m_end block = e -> m_firstInstrIdx block = m_begin block -> (m_begin block <= i)%nat ->
  (forall cs, compileLoop rev static fuel code block (nxt code i) cs =
    (true, (compile_items X size (m_begin block) rest cs).1.2, (compile_items X size (m_begin block) rest cs).2)) ->
  compileLoop rev static (S fuel) code block i cs =
    (true, (compile_items X size (m_begin block) (item_at X e i :: rest) cs).1.2,
     (compile_items X size (m_begin block) (item_at X e i :: rest) cs).2).
Proof.
  intros Hb He Hf Hbeg Hrest. rewrite (compileLoop_step block i e l fuel Hb He Hf Hbeg).
  cbn [compile_items]. unfold mbind, C_bind, mret, C_ret. destruct (GasMeter.count_inst _ _ cs) as [[u1 cs1] l1].
  destruct (invalidInstruction _ _ _); [done |].
  destruct (compileInst _ _ _ _ _ _ _ cs1) as [[u2 cs2] l2]. rewrite Hrest.
  by destruct (compile_items X size (m_begin block) rest cs2) as [[[] cs3] l3].
Qed.

Lemma compileLoop_items block i e l fuel cs :
  bblock code i e l -> m_end block = e -> m_firstInstrIdx block = m_begin block -> (m_begin block <= i)%nat ->
  (length l < fuel)%nat ->
  compileLoop rev static fuel code block i cs =
    (true, (compile_items X size (m_begin block) (item_at X e <$> l) cs).1.2,
     (compile_items X size (m_begin block) (item_at X e <$> l) cs).2).
Proof.
  intros Hb He Hf. revert fuel cs. induction Hb as [i Hi Hend | i e l Hi Hs Hn HJ Hb IH]; intros fuel cs Hbeg Hfuel;
    pose proof (nxt_bounds code i Hi); destruct fuel as [| fuel]; [simpl in Hfuel; lia | | simpl in Hfuel; lia |].
  - apply (compileLoop_cons block i (nxt code i) [i]); auto; [by apply bb_last |].
    intros cs'. destruct fuel as [| fuel]; [simpl in Hfuel; lia |]. cbn [compileLoop]. by rewrite He, Nat.eqb_refl.
  - apply (compileLoop_cons block i e (i :: l)); auto; [by apply bb_cons |].
    intros cs'. apply IH; auto; [lia | simpl in Hfuel; lia].
Qed.

Lemma bblock_length i e l : bblock code i e l -> (length l <= e - i)%nat.
Proof.
  induction 1 as [i Hi Hend | i e l Hi Hs Hn HJ Hb IH]; pose proof (nxt_bounds code i Hi); simpl; [lia |].
  pose proof (bblock_bounds _ _ _ _ Hb). lia.
Qed.

(** The code of a block is that of its instructions. *)
Lemma compileBasicBlock_code block l cs :
  bblock code (m_begin block) (m_end block) l -> m_firstInstrIdx block = m_begin block ->
  compileBasicBlock rev static code block cs =
    (true, (block_code X (m_begin block) (item_at X (m_end block) <$> l) cs).1.2,
     (block_code X (m_begin block) (item_at X (m_end block) <$> l) cs).2).
Proof.
  intros Hb Hf. pose proof (bblock_length _ _ _ Hb). unfold compileBasicBlock, block_code, compile_all. unfold mbind, C_bind.
  destruct (LocalStack.init cs) as [[u1 cs1] l1].
  rewrite (compileLoop_items block (m_begin block) (m_end block) l) by (done || lia).
  destruct (compile_items X size (m_begin block) _ cs1) as [[[] cs2] l2]. cbn [fst snd].
  destruct (GasMeter.commitCostBlock cs2) as [[u3 cs3] l3]. destruct (LocalStack.finalize cs3) as [[u4 cs4] l4].
  simpl. by rewrite app_nil_r, <- app_assoc.
Qed.

(** ** The instructions of real code *)

Lemma item_at_ok i e l : bblock code i e l -> item_ok X (item_at X e i).
Proof.
  intros Hb. pose proof (bblock_bounds _ _ _ _ Hb) as Hbd. pose proof (ok_code_bytes _ HX) as Hc. pose proof (ok_code_len _ HX) as Hl.
  assert (inw 8 (code_at code i)) as Hby by (by apply code_at_byte).
  unfold item_ok, item_at. cbn [i_pc i_data i_inst]. split_and!.
  - unfold push_ok. destruct (inst_at code i) eqn:Hi; try done.
    assert (numPushBytes (code_at code i) = n) as Hn by (unfold numPushBytes; unfold inst_at in Hi; by rewrite Hi).
    pose proof (numPushBytes_le _ Hby) as Hle. rewrite Hn in Hle.
    pose proof (readPushData_value code i e Hc ltac:(lia)) as Hv. rewrite Hn in Hv.
    assert ((readPushData code i e).1.2 = if (n <=? 16)%nat then 128 else 256) as Hb2.
    { unfold readPushData. rewrite Hn. destruct (readPushLoop _ _ _ _ _ _). cbn [fst snd].
      destruct (Nat.ltb_spec 16 n), (Nat.leb_spec n 16); lia || done. }
    split; [done |]. rewrite Hv, Hb2. pose proof (be_val_range _ (push_bytes_ok code e n (S i) Hc)) as Hr.
    rewrite length_push_bytes in Hr. eapply inw_mono; [| exact Hr]. destruct (Nat.leb_spec n 16); lia.
  - unfold inw. lia.
  - apply encodable_byte.
  - by apply getStepCost_range.
Qed.

Lemma block_items_ok i e l : bblock code i e l -> items_ok X (item_at X e <$> l).
Proof.
  intros Hb. pose proof (bblock_bounds _ _ _ _ Hb). pose proof (bblock_length _ _ _ Hb). pose proof (ok_code_len _ HX).
  split_and!; [| rewrite length_fmap; lia |].
  - clear -Hb HX. induction Hb as [i Hi Hend | i e l Hi Hs Hn HJ Hb IH]; cbn [fmap list_fmap].
    + constructor; [| done]. apply (item_at_ok i (nxt code i) [i]). by apply bb_last.
    + constructor; [| done]. apply (item_at_ok i e (i :: l)). by apply bb_cons.
  - clear -Hb. induction Hb as [i Hi Hend | i e l Hi Hs Hn HJ Hb IH]; cbn [fmap list_fmap straight]; [by split; [left |] |].
    split; [by right | done].
Qed.

(** ** The jump table *)

Lemma cases_other pc data inst first cs :
  inst <> JUMPDEST -> c_cases (compileInst rev static size first pc data inst cs).1.2 = c_cases cs.
Proof.
  intros Hi. set (R := fun cs cs' : cstate => c_cases cs' = c_cases cs).
  assert (PreOrder R) by (unfold R; split; [done | intros ??? ??; congruence]).
  assert (Frame R any) by (split; [split |..]; try apply _; done).
  assert (keeps R any GasMeter.commitCostBlock) by (apply (keeps_commit R any); done).
  assert (keeps R any (compileInst rev static size first pc data inst)) as Hk; [| apply (Hk cs)].
  destruct (commits inst) eqn:Hc; [| destruct (jumps inst) eqn:Hj; [| by apply keeps_compileInst]];
    destruct inst; try discriminate Hc; try discriminate Hj; try done; cbn [compileInst];
    compile_unfold; codegen_unfold; keeps_tac; by apply keeps_modify.
Qed.

Definition adds_case (l : list item) : bool := match l with i :: _ => bool_decide (i_inst i = JUMPDEST) | [] => false end.

Lemma cases_commit cs : c_cases (GasMeter.commitCostBlock cs).1.2 = c_cases cs.
Proof.
  unfold GasMeter.commitCostBlock, get_state, event_, modify, mbind, C_bind, mret, C_ret. simpl.
  destruct (m_checkCall cs); [destruct (m_blockCost cs =? 0) |]; done.
Qed.

Lemma compile_items_cons first i l cs : exists cs1, c_cases cs1 = c_cases cs /\
  (compile_items X size first (i :: l) cs).1.2 =
    if invalidInstruction rev static (i_inst i) then set_term (TExit OutOfGas) cs1
    else (compile_items X size first l (compileInst rev static size first (i_pc i) (i_data i) (i_inst i) cs1).1.2).1.2.
Proof.
  cbn [compile_items]. exists (GasMeter.count_inst rev (i_inst i) cs).1.2. split.
  - unfold GasMeter.count_inst, get_state, fresh, emit, modify, mbind, C_bind, mret, C_ret. simpl. by destruct (m_checkCall cs).
  - unfold mbind, C_bind. destruct (GasMeter.count_inst rev (i_inst i) cs) as [[u1 cs1] l1]. cbn [fst snd].
    destruct (invalidInstruction rev static (i_inst i)); [done |].
    destruct (compileInst _ _ _ _ _ _ _ cs1) as [[u2 cs2] l2]. cbn [fst snd].
    by destruct (compile_items X size first l cs2) as [[u3 cs3] l3].
Qed.

Lemma cases_items first l cs :
  Forall (fun i => i_inst i <> JUMPDEST) (tail l) ->
  c_cases (compile_items X size first l cs).1.2 = c_cases cs ++ (if adds_case l then [Z.of_nat first] else []).
Proof.
  assert (forall l cs, Forall (fun i => i_inst i <> JUMPDEST) l -> c_cases (compile_items X size first l cs).1.2 = c_cases cs) as Hno.
  { clear l cs. intros l. induction l as [| i l IH]; intros cs Hl; [done |]. apply Forall_cons_1 in Hl as [Hi Hl].
    destruct (compile_items_cons first i l cs) as (cs1 & <- & ->). destruct (invalidInstruction _ _ _); [done |].
    rewrite IH by done. by apply cases_other. }
  destruct l as [| i l]; cbn [tail adds_case]; intros Hl; [by rewrite app_nil_r |].
  destruct (compile_items_cons first i l cs) as (cs1 & <- & ->). case_bool_decide as HJ.
  - rewrite HJ. simpl invalidInstruction. cbn match. by rewrite Hno.
  - rewrite app_nil_r. destruct (invalidInstruction _ _ _); [done |]. rewrite Hno by done. by apply cases_other.
Qed.

Lemma bblock_tail i e l : bblock code i e l ->
  head l = Some i /\ Forall (fun it => i_inst it <> JUMPDEST) (tail (item_at X e <$> l)).
Proof.
  induction 1 as [i Hi Hend | i e l Hi Hs Hn HJ Hb [Hh IH]]; cbn [fmap list_fmap tail]; [done |]. split; [done |].
  destruct l as [| i' l]; [done |]. injection Hh as ->. cbn [fmap list_fmap tail] in *. by constructor.
Qed.

(** The cases a block adds: its start, if that is a jump destination. *)
Lemma cases_block first e l cs :
  bblock code first e l ->
  c_cases (block_code X first (item_at X e <$> l) cs).1.2 =
    c_cases cs ++ (if bool_decide (inst_at code first = JUMPDEST) then [Z.of_nat first] else []).
Proof.
  intros Hb. destruct (bblock_tail _ _ _ Hb) as [Hh Ht].
  destruct (block_code_log X first (item_at X e <$> l) cs) as (stores & -> & _). cbn [fst snd].
  unfold compile_all, mbind, C_bind. pose proof (cases_items first _ (init_state cs) Ht) as Hc.
  destruct (compile_items X size first (item_at X e <$> l) (init_state cs)) as [[u cs1] l1]. cbn [fst snd] in *.
  pose proof (cases_commit cs1) as Hcm. destruct (GasMeter.commitCostBlock cs1) as [[u2 cs2] l2]. cbn [fst snd] in *.
  rewrite Hcm, Hc. simpl c_cases. f_equal. destruct l as [| i l]; [done |]. injection Hh as ->. done.
Qed.

(** ** All blocks *)

Definition block_ok (b : BasicBlock) : Prop :=
  m_firstInstrIdx b = m_begin b /\ exists l, bblock code (m_begin b) (m_end b) l.

(** [lb] is the LLVM block of [b]. *)
Definition compiled (b : BasicBlock) (lb : lblock) : Prop := exists cs l,
  bblock code (m_begin b) (m_end b) l /\ meter false cs /\
  let c := block_code X (m_begin b) (item_at X (m_end b) <$> l) cs in
  lb = mkL (build c.2) (c_term c.1.2)
    (if bool_decide (inst_at code (m_begin b) = JUMPDEST) then [Z.of_nat (m_begin b)] else []).

Lemma compileBlocks_ok blocks cs :
  Forall block_ok blocks -> meter false cs ->
  exists lbs, compileBlocks rev static code blocks cs = Some lbs /\ Forall2 compiled blocks lbs.
Proof.
  intros Hb. revert cs. induction Hb as [| b blocks [Hf [l Hb]] Hbs IH]; intros cs Hm; [by exists [] |].
  cbn [compileBlocks]. rewrite (compileBasicBlock_code b l) by done.
  set (c := block_code X (m_begin b) (item_at X (m_end b) <$> l) (set_cases [] cs)).
  assert (meter false c.1.2) as Hm'.
  { unfold c. destruct (block_code_log X (m_begin b) (item_at X (m_end b) <$> l) (set_cases [] cs)) as (st & -> & _).
    cbn [fst snd]. by eapply (meter_end X _ _ false). }
  destruct (IH c.1.2 Hm') as (lbs & -> & HF). cbn [mbind option_bind]. eexists. split; [reflexivity |]. constructor; [| done].
  exists (set_cases [] cs), l. split_and!; [done | done |]. fold c. f_equal.
  unfold c. rewrite (cases_block _ _ _ _ Hb). done.
Qed.

Lemma findCaseValue_spec table z :
  match findCaseValue table z with
  | ToBlock n => (z, n) ∈ table
  | ToAbort => forall n, (z, n) ∉ table
  | ToTable _ => False
  end.
Proof.
  induction table as [| [z' n'] table IH]; cbn [findCaseValue]; [intros n; apply not_elem_of_nil |].
  destruct (Z.eqb_spec z' z) as [-> | Hne]; [left |].
  destruct (findCaseValue table z); [by right | done |]. intros n Hn. apply elem_of_cons in Hn as [[= -> ->] | Hn]; [done |].
  by eapply IH.
Qed.

Lemma jumpTable_spec blocks lbs z n :
  Forall2 compiled blocks lbs ->
  (z, n) ∈ jumpTable lbs <->
  exists b, blocks !! n = Some b /\ z = Z.of_nat (m_begin b) /\ inst_at code (m_begin b) = JUMPDEST.
Proof.
  intros HF. unfold jumpTable. rewrite list_elem_of_In, in_concat. split.
  - intros (l & Hl & Hz). apply list_elem_of_In, elem_of_lookup_imap in Hl as (k & lb & -> & Hk).
    apply list_elem_of_In, list_elem_of_fmap in Hz as (z' & [= -> ->] & Hz).
    destruct (Forall2_lookup_r _ _ _ _ _ HF Hk) as (b & Hb & (cs & l & _ & _ & ->)). cbn [b_cases] in Hz.
    exists b. case_bool_decide; [| by apply elem_of_nil in Hz]. apply list_elem_of_singleton in Hz. done.
  - intros (b & Hb & -> & HJ). destruct (Forall2_lookup_l _ _ _ _ _ HF Hb) as (lb & Hlb & Hc).
    exists ((fun z => (z, n)) <$> b_cases lb). split.
    + apply list_elem_of_In, elem_of_lookup_imap. by exists n, lb.
    + apply list_elem_of_In, list_elem_of_fmap. destruct Hc as (cs & l & _ & _ & ->). cbn [b_cases].
      rewrite bool_decide_eq_true_2 by done. eexists. split; [reflexivity | left].
Qed.

(** ** Running the blocks *)

Section Runs.
Context (blocks : list BasicBlock) (lbs : list lblock) (Hlay : layout code false 0 blocks) (HF : Forall2 compiled blocks lbs).

Abbreviation P := (resolveJumps lbs).
Abbreviation table := (jumpTable lbs).

(** The jump table has exactly the valid destinations. *)
Lemma jump_target d : 0 <= d ->
  match findCaseValue table d with
  | ToBlock n => valid_jump code d = true /\ exists b, blocks !! n = Some b /\ m_begin b = Z.to_nat d
  | ToAbort => valid_jump code d = false
  | ToTable _ => False
  end.
Proof.
  intros Hd. pose proof (findCaseValue_spec table d) as Hspec. destruct (findCaseValue table d) as [n | |]; [| done |].
  - apply (jumpTable_spec blocks) in Hspec as (b & Hb & -> & HJ); [| done]. rewrite Nat2Z.id.
    split; [| by exists b]. destruct (layout_block _ _ _ _ _ Hlay (list_elem_of_lookup_2 _ _ _ Hb)) as (Hr & _ & l & Hbb).
    pose proof (bblock_start _ _ _ _ Hbb). apply valid_jump_spec. rewrite Nat2Z.id. split_and!; auto.
  - apply not_true_is_false. intros Hv. apply valid_jump_spec in Hv as (_ & Hlt & HJ & Hr).
    destruct (layout_jumpdest _ _ _ _ _ Hlay Hr Hlt HJ) as (b & Hin & Hb). apply list_elem_of_lookup_1 in Hin as [n Hn].
    apply (Hspec n), (jumpTable_spec blocks); [done |]. exists b. rewrite Hb. split_and!; auto. lia.
Qed.

(** Taking a jump whose destination is [d]. *)
Lemma goto_target cs (s : rt H) v d :
  val 128 (W cs s) v d ->
  goto E P (resolveDest table v) s = Ok (match findCaseValue table d with ToBlock n => Some n | _ => None end).
Proof.
  intros Vd. pose proof (isval_range _ _ _ _ _ Vd) as [Hd _]. pose proof (jump_target d Hd) as Ht.
  unfold resolveDest. destruct (dyn_const v) as [z |] eqn:Hc.
  - assert (z = d) as ->. { destruct v; try discriminate Hc. injection Hc as ->. apply isval_eval in Vd. by injection Vd. }
    by destruct (findCaseValue table d).
  - cbn [goto]. by rewrite (use_val X gas0 gasPrice uninit 128 cs s v d Vd).
Qed.

(** What one block does, against the machine. *)
Definition block_step (n : nat) (m : run (ctl * rstate H)) (res : (nat * rt H) + returned_code H) : Prop :=
  match m with
  | Undef => True
  | Abort => exists s', res = inr (Returned OutOfGas s')
  | Ok (Next, r') => exists s', res = inl (S n, s') /\ between X s' r'
  | Ok (JumpTo d, r') =>
      if valid_jump code d
      then exists k b s', res = inl (k, s') /\ blocks !! k = Some b /\ m_begin b = Z.to_nat d /\ between X s' r'
      else exists s', res = inr (Returned OutOfGas s')
  | Ok (Halt c out, r') => exists s', res = inr (Returned c s') /\ between X s' r'
      /\ match c with Stop => out = [] | _ => returned s' out end
  end.

Lemma resolved n lb : lbs !! n = Some lb -> p_blocks P !! n = Some (b_instrs lb, resolveJump table n (b_term lb)).
Proof. intros Hn. unfold resolveJumps. cbn [p_blocks]. by rewrite list_lookup_imap, Hn. Qed.

Lemma jump_step cs n s r v d :
  val 128 (W cs s) v d -> between X s r ->
  block_step n (Ok (JumpTo d, r))
    (match goto E P (resolveDest table v) s with
     | Ok (Some n) => inl (n, s) | Ok None => inr (Returned OutOfGas s) | _ => inr Undefined
     end).
Proof.
  intros Vd Hs. rewrite (goto_target _ _ _ _ Vd). pose proof (isval_range _ _ _ _ _ Vd) as [Hd _].
  pose proof (jump_target d Hd) as Ht. unfold block_step. destruct (findCaseValue table d) as [k | |]; [| done |].
  - destruct Ht as [-> (b & Hb & Hbeg)]. by exists k, b, s.
  - rewrite Ht. by exists s.
Qed.

Lemma run_block n b s r :
  blocks !! n = Some b -> between X s r ->
  exists l, bblock code (m_begin b) (m_end b) l /\
    block_step n (steps X (item_at X (m_end b) <$> l) r) (runBlock E P n s).
Proof.
  intros Hn Hs. destruct (Forall2_lookup_l _ _ _ _ _ HF Hn) as (lb & Hlb & (cs & l & Hb & Hm & Hc)).
  exists l. split; [done |]. unfold runBlock. rewrite (resolved _ _ Hlb), Hc. cbn [b_instrs b_term].
  pose proof (block_simulates X gas0 gasPrice uninit HX (m_begin b) _ cs s r (block_items_ok _ _ _ Hb) Hs Hm) as Hsim.
  set (c := block_code X (m_begin b) (item_at X (m_end b) <$> l) cs) in *.
  destruct (steps X (item_at X (m_end b) <$> l) r) as [[ct r'] | |]; [| | done].
  - destruct Hsim as (s' & -> & Hs' & Hl). unfold leaves in Hl. unfold resolveJump.
    destruct ct as [| d | code' out]; destruct (c_term c.1.2) as [[v | cond v | code''] |]; try done.
    + rewrite (use_val X gas0 gasPrice uninit 1 _ s' cond 0 Hl). by exists s'.
    + by exists s'.
    + by apply (jump_step c.1.2).
    + destruct Hl as [Vc Vd]. rewrite (use_val X gas0 gasPrice uninit 1 _ s' cond 1 Vc). by apply (jump_step c.1.2).
    + destruct Hl as [-> Hout]. by exists s'.
  - destruct Hsim as [-> | (s' & -> & Ht)]; [by eexists |]. unfold resolveJump. rewrite Ht. by exists s'.
Qed.

(** The result of the program for the ending of a run. *)
Definition result_of (o : ending H) (res : returned_code H) : Prop :=
  match o with
  | LeftOpen => True
  | Failed => exists s, res = Returned OutOfGas s
  | Halted c out r => exists s, res = Returned c s /\ rest_rel X s r
      /\ match c with Stop => out = [] | _ => returned s out end
  end.

(** A block that goes on to the next one does not end the flow of control. *)
Lemma steps_next i e l j r r' :
  bblock code i e l -> last l = Some j -> steps X (item_at X e <$> l) r = Ok (Next, r') -> setsDead (inst_at code j) = false.
Proof.
  intros Hb Hj Hs. destruct (setsDead (inst_at code j)) eqn:Hd; [exfalso | done].
  revert r Hs. clear Hb i. induction l as [| i l IH]; [done |]. intros r Hs. cbn [fmap list_fmap steps] in Hs.
  apply M_bind_ok in Hs as (c & r1 & H1 & Hs). destruct l as [| i' l].
  - injection Hj as ->. cbn [fmap list_fmap steps i_inst item_at] in *. unfold step in H1.
    apply M_bind_ok in H1 as (u & r2 & _ & H1). destruct (allowed X (inst_at code j)); [| done].
    destruct (body_dead X _ _ _ _ _ _ Hd H1). destruct c; [done | done | done].
  - destruct c; [by apply (IH Hj r1) | done | done].
Qed.

(** Where block [n] starts; the Stop block stands for the end of the code. *)
Definition start_of (n : nat) : nat := match blocks !! n with Some b => m_begin b | None => length code end.

Lemma next_start n b l r r' :
  blocks !! n = Some b -> bblock code (m_begin b) (m_end b) l ->
  steps X (item_at X (m_end b) <$> l) r = Ok (Next, r') -> start_of (S n) = m_end b.
Proof.
  intros Hn Hb Hs. destruct (bblock_nonempty _ _ _ _ Hb) as [j Hj]. pose proof (steps_next _ _ _ _ _ _ Hb Hj Hs) as Hd.
  unfold start_of.
  destruct (layout_fallthrough _ _ _ _ _ _ _ _ Hlay Hn Hb Hj Hd) as [[He ->] | (b' & -> & Hb')]; [done | done].
Qed.

Lemma run_stop fuel n r s o :
  blocks !! n = None -> between X s r -> interp X fuel (length code) r = Some o ->
  exists res, runBlocks E P 1 n s = Some res /\ result_of o res.
Proof.
  intros Hn [Hr _] Ho. destruct fuel as [| fuel]; [done |]. cbn [interp] in Ho. rewrite Nat.leb_refl in Ho. injection Ho as <-.
  exists (Returned Stop s). split; [| by exists s]. cbn [runBlocks]. unfold runBlock.
  assert (p_blocks P !! n = None) as ->; [| done].
  unfold resolveJumps. cbn [p_blocks]. rewrite list_lookup_imap.
  assert (lbs !! n = None) as ->; [| done]. apply lookup_ge_None. rewrite <- (Forall2_length HF). by apply lookup_ge_None.
Qed.

Lemma run_simulates fuel n r s o :
  between X s r -> interp X fuel (start_of n) r = Some o ->
  o = LeftOpen \/ exists fuel' res, runBlocks E P fuel' n s = Some res /\ result_of o res.
Proof.
  revert n r s. induction (lt_wf fuel) as [fuel _ IH]. intros n r s Hs Ho.
  assert (forall fuel' k r' s', (fuel' < fuel)%nat -> between X s' r' -> interp X fuel' (start_of k) r' = Some o ->
    runBlock E P n s = inl (k, s') -> o = LeftOpen \/ exists fuel' res, runBlocks E P fuel' n s = Some res /\ result_of o res) as Hgo.
  { intros fuel' k r' s' Hf Hs' Ho' Hrun. destruct (IH fuel' Hf k r' s' Hs' Ho') as [? | (f & res & Hr & Hres)]; [by left |].
    right. exists (S f), res. cbn [runBlocks]. by rewrite Hrun. }
  assert (forall res, runBlock E P n s = inr res -> result_of o res ->
    o = LeftOpen \/ exists fuel' res, runBlocks E P fuel' n s = Some res /\ result_of o res) as Hend.
  { intros res Hrun Hres. right. exists 1%nat, res. cbn [runBlocks]. by rewrite Hrun. }
  unfold start_of in Ho. destruct (blocks !! n) as [b |] eqn:Hn.
  2: { right. exists 1%nat. by eapply run_stop. }
  destruct (run_block n b s r Hn Hs) as (l & Hb & Hst).
  pose proof (interp_block X _ _ _ _ _ _ (ok_code_bytes _ HX) Hb Ho) as Hc.
  destruct (steps X (item_at X (m_end b) <$> l) r) as [[[| d | c out] r'] | |] eqn:Es; cbn [continues block_step] in *.
  - destruct Hc as (f & Hf & Hi), Hst as (s' & Hrun & Hs'). eapply (Hgo f (S n)); eauto.
    by rewrite (next_start _ _ _ _ _ Hn Hb Es).
  - destruct (valid_jump code d).
    + destruct Hc as (f & Hf & Hi), Hst as (k & b' & s' & Hrun & Hk & Hbeg & Hs'). eapply (Hgo f k); eauto.
      unfold start_of. by rewrite Hk, Hbeg.
    + destruct Hst as (s' & Hrun). subst o. eapply Hend; [exact Hrun |]. by exists s'.
  - destruct Hst as (s' & Hrun & [Hr _] & Hout). subst o. eapply Hend; [exact Hrun |]. by exists s'.
  - destruct Hst as (s' & Hrun). subst o. eapply Hend; [exact Hrun |]. by exists s'.
  - by left.
Qed.
End Runs.

(** The start of a run. *)
Lemma entry_between gas h :
  0 <= gas < 2 ^ 63 - 1 -> between X (entry gas h) (mkR [] gas [] [] h).
Proof.
  intros Hg. split; split; simpl; try done. lia.
Qed.

(** The compiled program against the reference machine. *)
Lemma compile_simulates :
  0 <= gas0 < 2 ^ 63 - 1 ->
  exists P, compile rev static code = Some P /\
  forall h, exists o, (exists fuel, interp X fuel 0 (mkR [] gas0 [] [] h) = Some o) /\
    (o = LeftOpen \/ exists fuel res, runMain E P fuel gas0 h = Some res /\ result_of o res).
Proof.
  intros Hg. destruct (createBasicBlocks_layout code) as (blocks & Hbs & Hlay).
  assert (Forall block_ok blocks) as Hok.
  { apply Forall_forall. intros b Hb%list_elem_of_In. destruct (layout_block _ _ _ _ _ Hlay Hb) as (_ & Hf & Hl). done. }
  destruct (compileBlocks_ok blocks start_state Hok ltac:(done)) as (lbs & Hc & HF).
  exists (resolveJumps lbs). split; [unfold compile; rewrite Hbs; simpl; by rewrite Hc |]. intros h.
  destruct (interp_halts X (ok_host _ HX) (Z.to_nat gas0) (length code) 0 (mkR [] gas0 [] [] h)) as (fuel & o & Ho); [simpl; lia | lia |].
  exists o. split; [by exists fuel |]. eapply (run_simulates blocks lbs Hlay HF fuel 0); [by apply entry_between |].
  assert (start_of blocks 0 = 0%nat) as ->; [| done]. unfold start_of.
  destruct (layout_first _ _ _ Hlay) as [[He ->] | (b & -> & Hb)]; [done | done].
Qed.

(** C1: the compiler is correct.  Every code compiles, and for every message
    and host as documented the machine's run of it ends; unless the machine
    leaves the outcome open, the compiled program ends too, with the same code,
    output, gas left, memory and host state, or with an abort where the machine
    fails. *)
Theorem compile_correct :
  0 <= gas0 < 2 ^ 63 - 1 ->
  exists P, compile rev static code = Some P /\
  forall h, exists o, (exists fuel, interp X fuel 0 (mkR [] gas0 [] [] h) = Some o) /\
    (o = LeftOpen \/ exists fuel res, runMain E P fuel gas0 h = Some res /\ result_of o res).
Proof. apply compile_simulates. Qed.
End SimProgram.

(** [sum_code] with 100000 gas, on the empty host. *)
Lemma compile_correct_witness :
  let X := null_ctx 100000 sum_code in
  exists P, compile (H := const_fold) (x_rev X) (x_static X) (x_code X) = Some P /\
  forall h, exists o, (exists fuel, interp X fuel 0 (mkR [] 100000 [] [] h) = Some o) /\
    (o = LeftOpen \/ exists fuel res,
       runMain (env_of X (runtime_data X 100000 0) 0) P fuel 100000 h = Some res /\ result_of X o res).
Proof.
  apply (compile_correct (H0 := const_fold) (null_ctx 100000 sum_code) 100000 0 0 (sum_code_ok 100000)).
  split; [discriminate | reflexivity].
Defined.

(** What the compiled program returns: the code, the gas left and the output. *)
Definition observed {H} (res : option (returned_code H)) : option (ReturnCode * Z * list Z) :=
  match res with
  | Some (Returned c s) =>
      Some (c, s_gas s, match s_ret s with
                        | Some (o, n) => take (Z.to_nat n) (drop (Z.to_nat o) (a_data (s_mem s)))
                        | None => []
                        end)
  | _ => None
  end.

Example sum_code_runs :
  (P ← compile (H := const_fold) EVM_AION_V1 false sum_code;
   observed (runMain (env_of (null_ctx 100000 sum_code) (runtime_data (null_ctx 100000 sum_code) 100000 0) 0) P 3 100000 tt))
  = Some (Return, 99992, be_bytes 16 5).
Proof. vm_compute. reflexivity. Qed.
