(* ===== verification/Correctness.v ===== *)
(** * What the code generator guarantees

    The theorems on the parts of the generator, below the theorem on whole
    programs in SimProgram: one instruction, one block, the cost blocks of the
    gas meter, the jump table and the call wrapper; and the inputs on which the
    emitted code has undefined behaviour. *)
From S2P Require Import Prelude Bytes Instruction BasicBlocks LLVMInt Arith128 EvmAbi GasSchedule Keccak.
From S2P Require Import Runtime IR Builder Codegen Compiler Machine Denote Frames Heights Sim NullHost.
From S2P Require Import SimStack SimRuntime SimCopy SimHost SimCall SimArith SimInst Charge CostBlocks.
From S2P Require Import Finalize SimBlock Program Interp SimProgram.

(** ** One instruction *)

(** C12: for every instruction that the revision and the call mode allow, the
    code [Compiler::compileBasicBlock] emits for it does what the reference
    machine does: from related states it ends in related states and leaves in
    the same way, aborts where the machine aborts (by itself, or because the
    stack heights it recorded are out of bounds for the check at the start of
    the block), whatever is emitted after it. *)
Theorem compileInst_correct {H} `{LLVMFolder} (X : Ctx H) gas0 gasPrice uninit stk0 first pc data inst cs s r :
  ctx_ok X -> allowed X inst = true -> push_ok inst data -> inw 128 (Z.of_nat pc) -> c_term cs = None ->
  sim X gas0 gasPrice uninit stk0 cs s r
    (compileInst (x_rev X) (x_static X) (length (x_code X)) first pc data inst)
    (step_body X pc data.1 inst) (fun cs' s' _ c => leaves X gas0 gasPrice cs' s' c).
Proof. intros HX. by apply sim_body. Qed.

Lemma compileInst_correct_witness :
  let X := null_ctx 100000 sum_code in
  sim X 100000 0 0 [] start_state (entry 100000 tt) (mkR [] 100000 [] [] tt)
    (compileInst (H := const_fold) (x_rev X) (x_static X) (length (x_code X)) 0 0 (2, 128) (PUSH 1))
    (step_body X 0 2 (PUSH 1)) (fun cs' s' _ c => leaves X 100000 0 cs' s' c).
Proof.
  apply (compileInst_correct (H0 := const_fold) (null_ctx 100000 sum_code) 100000 0 0 [] 0 0 (2, 128) (PUSH 1)).
  - apply sum_code_ok.
  - reflexivity.
  - unfold push_ok, inw. simpl. lia.
  - unfold inw. simpl. lia.
  - reflexivity.
Defined.

(** ** One block *)

(** C11: the code of a basic block, with the stack check at its start, the
    checks of its cost blocks filled in later and the stores of
    [LocalStack::finalize], does what the machine does instruction by
    instruction; in particular the machine's stack is again in memory at its end. *)
Theorem block_correct {H} `{LLVMFolder} (X : Ctx H) gas0 gasPrice uninit first l cs s r :
  ctx_ok X -> items_ok X l -> between X s r -> meter false cs ->
  block_result X gas0 gasPrice (steps X l r) (block_code X first l cs).1.2
    (exec (env_of X (runtime_data X gas0 gasPrice) uninit) (build (block_code X first l cs).2) s).
Proof. intros HX. by apply block_simulates. Qed.

(** The block of [sum_code], from the start of a run. *)
Definition sum_items : list item :=
  [mkItem 0 (2, 128) (PUSH 1); mkItem 2 (3, 128) (PUSH 1); mkItem 4 (0, 0) ADD].

Lemma block_correct_witness :
  let X := null_ctx 100000 sum_code in
  block_result X 100000 0 (steps X sum_items (mkR [] 100000 [] [] tt))
    (block_code (H0 := const_fold) X 0 sum_items start_state).1.2
    (exec (env_of X (runtime_data X 100000 0) 0) (build (block_code (H0 := const_fold) X 0 sum_items start_state).2)
       (entry 100000 tt)).
Proof.
  apply (block_correct (H0 := const_fold) (null_ctx 100000 sum_code) 100000 0 0 0 sum_items start_state).
  - apply sum_code_ok.
  - split; [| split; [simpl; lia | simpl; auto]].
    repeat constructor; simpl; try lia; unfold inw; simpl; lia.
  - apply entry_between. lia.
  - split; reflexivity.
Defined.

(** ** The gas meter *)

(** Charging a cost block at once, before its first instruction, is not
    observable: for every straight-line list of instructions the machine that
    pays each cost block at its start ends as the one that pays instruction by
    instruction, with the same state and the same gas left. *)
Theorem charged_steps {H} (X : Ctx H) l r :
  straight l -> agrees (steps X l r) (charged X false l r).
Proof. intros Hl. by apply charged_both. Qed.

Lemma charged_steps_witness :
  agrees (steps (null_ctx 100 sum_code) sum_items (mkR [] 100 [] [] tt))
    (charged (null_ctx 100 sum_code) false sum_items (mkR [] 100 [] [] tt)).
Proof. apply (charged_steps (null_ctx 100 sum_code) sum_items (mkR [] 100 [] [] tt)). simpl. auto. Defined.

(** C13: where [GasMeter::count] opens a cost block it emits a check without an
    amount; after all that the rest of the block emits, that check carries the
    sum of the static costs of the instructions up to the one that commits, or
    is gone if the sum is zero. *)
Theorem cost_block_exact {H} `{LLVMFolder} (X : Ctx H) size first i l cs :
  m_checkCall cs = None -> m_blockCost cs = 0 ->
  exists log, (compile_all X size first (i :: l) cs).2 = EEmit (IGasCheck (c_next cs) None) :: log /\
    settle log (IGasCheck (c_next cs) None)
    = if blockCost X (i :: l) =? 0 then [] else [IGasCheck (c_next cs) (Some (blockCost X (i :: l)))].
Proof.
  intros Hid Hc. rewrite (compile_all_closed X size first i l cs Hid Hc). eexists. split; [reflexivity |].
  pose proof (check_settled X size first i l cs [] Hid Hc ltac:(constructor)) as Hs. cbv zeta in Hs. by rewrite app_nil_r in Hs.
Qed.

Lemma cost_block_exact_witness :
  let X := null_ctx 100000 sum_code in
  exists log, (compile_all (H0 := const_fold) X 13 0 sum_items start_state).2 = EEmit (IGasCheck 0 None) :: log /\
    settle log (IGasCheck 0 None) = [IGasCheck 0 (Some 3)].
Proof.
  intros X. change [IGasCheck 0 (Some 3)] with
    (if blockCost X sum_items =? 0 then [] else [IGasCheck 0 (Some (blockCost X sum_items))]).
  apply (cost_block_exact (H0 := const_fold) X 13 0 (mkItem 0 (2, 128) (PUSH 1))
    [mkItem 2 (3, 128) (PUSH 1); mkItem 4 (0, 0) ADD] start_state); reflexivity.
Defined.

(** ** Jumps *)

(** C15: the switch of the compiled program sends control to a block for
    exactly the valid destinations of the code, the JUMPDEST bytes that are not
    push data, and to the Abort block for every other number. *)
Theorem jump_table_exact `{LLVMFolder} rev static code P d :
  compile rev static code = Some P -> 0 <= d ->
  if valid_jump code d then exists n, findCaseValue (p_table P) d = ToBlock n
  else findCaseValue (p_table P) d = ToAbort.
Proof.
  intros HP Hd. destruct (createBasicBlocks_layout code) as (blocks & Hbs & Hlay).
  set (X := mkCtx null_host (null_message 0) (fun _ => null_message 0) code rev static [] []).
  assert (Forall (block_ok X) blocks) as Hok.
  { apply Forall_forall. intros b Hb%list_elem_of_In. destruct (layout_block _ _ _ _ _ Hlay Hb) as (_ & Hf & Hl). done. }
  destruct (compileBlocks_ok X blocks start_state Hok ltac:(done)) as (lbs & Hc & HF).
  unfold compile in HP. rewrite Hbs in HP. simpl in HP, Hc. rewrite Hc in HP. injection HP as <-.
  pose proof (jump_target X blocks lbs Hlay HF d Hd) as Ht. cbn [resolveJumps p_table].
  destruct (findCaseValue (jumpTable lbs) d) as [n | |]; [| done |].
  - destruct Ht as [Hv _]. simpl in Hv. rewrite Hv. by exists n.
  - simpl in Ht. by rewrite Ht.
Qed.

(** [PUSH1 3; JUMP; JUMPDEST]: position 3 is a destination. *)
Lemma jump_table_exact_witness :
  exists P, compile (H := const_fold) EVM_AION_V1 false [0x60; 3; 0x56; 0x5b] = Some P /\
  (if valid_jump [0x60; 3; 0x56; 0x5b] 3 then exists n, findCaseValue (p_table P) 3 = ToBlock n
   else findCaseValue (p_table P) 3 = ToAbort).
Proof.
  eexists. split; [vm_compute; reflexivity |].
  apply (jump_table_exact (H := const_fold) EVM_AION_V1 false [0x60; 3; 0x56; 0x5b]); [vm_compute; reflexivity | lia].
Defined.

(** ** Calls *)

(** C21: the wrapper around the host's call refuses a message exactly when the
    depth has reached 1024 or a transfer exceeds the balance, and then returns
    the whole gas with the failure bit and touches neither host nor return
    buffer; otherwise it sends the message with the sender, value, kind and
    flags of the call's kind, encodes the outcome in the sign of the gas left,
    and hands over at most the requested output (32 bytes for a successful
    create). *)
Theorem call_wrapper_correct {H} (X : Ctx H) inst h g addr v inp outSize :
  ctx_ok X -> sends inst = true -> inw 128 v -> 0 <= g < 2 ^ 63 ->
  let msg := child_message X h inst g addr v inp in
  let res := (host_call (x_host X) h msg).1 in
  let ok := bool_decide (status_code res = EVM_SUCCESS) in
  getCallFunc (x_host X) (x_hash X) (x_current X h) h (kind_num inst) g addr (be_bytes 16 v) inp outSize
    (address (x_msg X)) (wrap 64 (depth (x_msg X)))
  = if refused X inst h v then (call_code false g, [], None, h)
    else (call_code ok (gas_left res),
          if bool_decide (inst = CREATE) && ok then take 32 (output res)
          else take (Z.to_nat outSize) (output res), Some (output res), (host_call (x_host X) h msg).2).
Proof. intros HX. by apply getCallFunc_spec. Qed.

(** A transfer of 1 from an empty account is refused. *)
Lemma call_wrapper_correct_witness :
  let X := null_ctx 100000 sum_code in
  getCallFunc (x_host X) (x_hash X) (x_current X tt) tt (kind_num CALL) 500 (replicate 32 0) (be_bytes 16 1) [] 0
    (address (x_msg X)) (wrap 64 (depth (x_msg X))) = (call_code false 500, [], None, tt).
Proof.
  apply (call_wrapper_correct (null_ctx 100000 sum_code) CALL tt 500 (replicate 32 0) 1 [] 0).
  - apply sum_code_ok.
  - reflexivity.
  - unfold inw. lia.
  - lia.
Defined.

(** ** Undefined behaviour *)

(** The generator with the words [ws], the top first, on its local stack. *)
Definition with_words (ws : list Z) (cs : cstate) : cstate := set_local (reverse (VConst 128 <$> ws)) cs.

(** An unsigned remainder by zero, whatever the dividend is. *)
Lemma urem_zero_undef {H} (E : Env H) n w v m s :
  evalv (e_data E) (s_regs s) m = Some 0 -> exec E [IDiv n (URem w) v m] s = Undef.
Proof. intros Hm. cbn [exec exec1]. unfold use. rewrite Hm. by destruct (evalv _ _ v). Qed.

(** ADDMOD and MULMOD with a zero modulus, which the code means to answer
    with 0, execute an unsigned remainder by zero before the select that
    discards it: the emitted code is undefined there. *)
Theorem mulmod_zero_undefined {H} (E : Env H) a b cs s :
  exec E (build (compile_ADDMOD (H := no_fold) (with_words [a; b; 0] cs)).2) s = Undef /\
  exec E (build (compile_MULMOD (H := no_fold) (with_words [a; b; 0] cs)).2) s = Undef.
Proof. split; apply (urem_zero_undef E (c_next cs)); reflexivity. Qed.

(** SDIV and SMOD of the least word by -1 execute a signed division that
    overflows, before the select meant to protect against it: the emitted
    instructions are undefined there. *)
Theorem sdiv_overflow_undefined {H} (E : Env H) cs s :
  exec E (build (compile_SDIV (H := no_fold) (with_words [2 ^ 127; 2 ^ 128 - 1] cs)).2) s = Undef /\
  exec E (build (compile_SMOD (H := no_fold) (with_words [2 ^ 127; 2 ^ 128 - 1] cs)).2) s = Undef.
Proof. split; reflexivity. Qed.
