(* ===== verification/Cache.v ===== *)
(** * The object cache

    libevmjit/Cache.cpp: the cache of compiled objects on disk.  The state is
    the cache mode, the object found last, the files of the versioned cache
    directory, and the mutex that every operation takes.  [std::mutex] is not
    recursive: an operation that locks it while it is held does not come back.
    The contents of objects are abstract. *)
From stdpp Require Import gmap strings.
From S2P Require Import Prelude.

(** [enum class CacheMode]. *)
Module CacheMode.
Inductive CacheMode := off | on | read | write | clear | preload.
#[global] Instance CacheMode_eq_dec : EqDecision CacheMode.
Proof. solve_decision. Defined.
End CacheMode.
Import CacheMode(CacheMode).

Module Cache.
Section Cache.
Context {O : Type}.

Record cache := mkCache {
  x_cacheMutex : bool;        (* held *)
  g_mode : CacheMode;
  g_lastObject : option O;
  files : gmap string O;      (* the files of the cache directory *)
  writable : bool             (* the directory can be created and written *)
}.

(** An operation returns, or waits for ever on a mutex its own thread holds. *)
Inductive locked (A : Type) := Done (a : A) (c : cache) | Deadlock.
Arguments Done {A}.
Arguments Deadlock {A}.

Definition set_mutex (b : bool) (c : cache) : cache :=
  mkCache b (g_mode c) (g_lastObject c) (files c) (writable c).
Definition set_mode (m : CacheMode) (c : cache) : cache :=
  mkCache (x_cacheMutex c) m (g_lastObject c) (files c) (writable c).
Definition set_last (o : option O) (c : cache) : cache :=
  mkCache (x_cacheMutex c) (g_mode c) o (files c) (writable c).
Definition set_files (m : gmap string O) (c : cache) : cache :=
  mkCache (x_cacheMutex c) (g_mode c) (g_lastObject c) m (writable c).

(** [Guard g{x_cacheMutex}] around a body. *)
Definition guard {A} (body : cache -> locked A) (c : cache) : locked A :=
  if x_cacheMutex c then Deadlock
  else match body (set_mutex true c) with
       | Done a c => Done a (set_mutex false c)
       | Deadlock => Deadlock
       end.

(** [Cache::clear]: remove every file of the directory. *)
Definition clear : cache -> locked unit := guard (fun c => Done tt (set_files ∅ c)).

(** [Cache::init]: whether an [ObjectCache] is handed to the engine. *)
Definition init (mode : CacheMode) : cache -> locked bool :=
  guard (fun c =>
    let c := set_mode mode c in
    let off_or_not c := Done (negb (bool_decide (g_mode c = CacheMode.off))) c in
    if bool_decide (g_mode c = CacheMode.clear) then
      match clear c with
      | Done _ c => off_or_not (set_mode CacheMode.off c)
      | Deadlock => Deadlock
      end
    else off_or_not c).

(** [Cache::getObject]: the identifier of the fake module, or null. *)
Definition getObject (id : string) : cache -> locked (option string) :=
  guard (fun c =>
    if negb (bool_decide (g_mode c = CacheMode.on)) && negb (bool_decide (g_mode c = CacheMode.read))
    then Done None c
    else
      (* [if (!g_lastObject) g_lastObject = nullptr;] changes nothing *)
      let c := match files c !! id with Some o => set_last (Some o) c | None => c end in
      match g_lastObject c with
      | Some _ => Done (Some id) c
      | None => Done None c
      end).

(** [Cache::preload]: the names of the modules handed to the engine. *)
Fixpoint preload_files (names : list string) (c : cache) : locked (list string) :=
  match names with
  | [] => Done [] c
  | name :: names =>
      match getObject name c with
      | Done found c =>
          match preload_files names c with
          | Done l c => Done (match found with Some _ => name :: l | None => l end) c
          | Deadlock => Deadlock
          end
      | Deadlock => Deadlock
      end
  end.

Definition preload : cache -> locked (list string) :=
  guard (fun c => preload_files (map_to_list (files c)).*1 c).

(** [ObjectCache::notifyObjectCompiled]. *)
Definition notifyObjectCompiled (id : string) (object : O) : cache -> locked unit :=
  guard (fun c =>
    if negb (bool_decide (g_mode c = CacheMode.on)) && negb (bool_decide (g_mode c = CacheMode.write))
    then Done tt c
    else if writable c then Done tt (set_files (<[id := object]> (files c)) c) else Done tt c).

(** [ObjectCache::getObject]: moves the object out. *)
Definition ObjectCache_getObject : cache -> locked (option O) :=
  guard (fun c => Done (g_lastObject c) (set_last None c)).

(** What loading an object from the cache gives: the search, then the engine's request. *)
Definition load (id : string) (c : cache) : locked (option O) :=
  match getObject id c with
  | Done (Some _) c => ObjectCache_getObject c
  | Done None c => Done None c
  | Deadlock => Deadlock
  end.
End Cache.
Arguments cache : clear implicits.
Arguments locked : clear implicits.
Arguments Done {O A}.
Arguments Deadlock {O A}.
End Cache.
Import Cache.

Section CacheProps.
Context {O : Type}.
Implicit Types (c : cache O) (o : O).

(** A cache that is off answers nothing. *)
Lemma getObject_off c id : x_cacheMutex c = false -> g_mode c = CacheMode.off -> getObject id c = Done None c.
Proof. intros Hm Ho. destruct c as [mutex mode last fs w]; simpl in *; by subst. Qed.

(** C36: an object written to the cache is the one read back for the same
    identifier, whatever was found before, other objects stay as they were, and
    the mutex is free again. *)
Theorem cache_roundtrip c id o :
  x_cacheMutex c = false -> g_mode c = CacheMode.on -> writable c = true ->
  exists c1 c2, notifyObjectCompiled id o c = Done tt c1 /\ load id c1 = Done (Some o) c2 /\
    x_cacheMutex c2 = false /\ g_lastObject c2 = None /\ files c2 = <[id := o]> (files c).
Proof.
  intros Hm Ho Hw. destruct c as [mutex mode last fs w]; simpl in *; subst.
  eexists _, _. split; [reflexivity |].
  unfold load, getObject, guard; simpl. rewrite lookup_insert_eq. simpl. by split_and!.
Qed.

(** The mode restricts the traffic: in any other mode than on and read no
    search finds anything or changes the state, and in any other mode than on
    and write no compiled object reaches the directory. *)
Theorem cache_modes c id o :
  x_cacheMutex c = false ->
  (g_mode c <> CacheMode.on -> g_mode c <> CacheMode.read -> getObject id c = Done None c) /\
  (g_mode c <> CacheMode.on -> g_mode c <> CacheMode.write -> notifyObjectCompiled id o c = Done tt c).
Proof.
  intros Hm. destruct c as [mutex mode last fs w]; simpl in *; subst. split; intros H1 H2;
    unfold getObject, notifyObjectCompiled, guard; simpl; by rewrite !bool_decide_eq_false_2.
Qed.

(** Initialising the cache in mode clear locks the mutex and then calls
    [Cache::clear], which locks it again: the call never returns.  Every other
    mode returns with the mutex free. *)
Theorem init_deadlocks c mode :
  x_cacheMutex c = false ->
  match init mode c with
  | Deadlock => mode = CacheMode.clear
  | Done installed c' => mode <> CacheMode.clear /\ x_cacheMutex c' = false /\ g_mode c' = mode /\
      installed = negb (bool_decide (mode = CacheMode.off)) /\ files c' = files c
  end.
Proof.
  intros Hm. destruct c as [mutex m last fs w]; simpl in *; subst. unfold init, guard; simpl.
  destruct mode; simpl; by split_and?.
Qed.

(** Preloading a directory that holds an object never returns either: the
    search for the first file locks the mutex that the loop holds. *)
Theorem preload_deadlocks c :
  x_cacheMutex c = false -> files c <> ∅ -> preload c = Deadlock.
Proof.
  intros Hm Hf. unfold preload, guard. rewrite Hm. cbn [files set_mutex].
  destruct (map_to_list (files c)) as [| [k v] l] eqn:E; [by apply map_to_list_empty_iff in E |]. done.
Qed.

(** An object that was found but not taken by the engine is returned for
    the next identifier that is not in the cache: the reset at the start of the
    search only assigns null to a pointer that is null already. *)
Theorem stale_object c id o :
  x_cacheMutex c = false -> g_mode c = CacheMode.on -> g_lastObject c = Some o -> files c !! id = None ->
  exists c', load id c = Done (Some o) c'.
Proof.
  intros Hm Ho Hl Hn. destruct c as [mutex mode last fs w]; simpl in *; subst.
  unfold load, getObject, guard; simpl. rewrite Hn. simpl. by eexists.
Qed.
End CacheProps.

(** An empty cache that is on, and one that holds an object. *)
Definition empty_cache : cache nat := mkCache false CacheMode.on None ∅ true.
Definition full_cache : cache nat := mkCache false CacheMode.on (Some 7%nat) {["a"%string := 1%nat]} true.

Lemma cache_roundtrip_witness :
  exists c1 c2, notifyObjectCompiled "a" 5%nat empty_cache = Done tt c1 /\ load "a" c1 = Done (Some 5%nat) c2 /\
    x_cacheMutex c2 = false /\ g_lastObject c2 = None /\ files c2 = <["a"%string := 5%nat]> (files empty_cache).
Proof. apply (cache_roundtrip empty_cache "a" 5%nat); reflexivity. Defined.

Lemma cache_modes_witness :
  (g_mode empty_cache <> CacheMode.on -> g_mode empty_cache <> CacheMode.read ->
     getObject "a" empty_cache = Done None empty_cache) /\
  (g_mode empty_cache <> CacheMode.on -> g_mode empty_cache <> CacheMode.write ->
     notifyObjectCompiled "a" 5%nat empty_cache = Done tt empty_cache).
Proof. apply (cache_modes empty_cache "a" 5%nat). reflexivity. Defined.

Lemma init_deadlocks_witness :
  match init CacheMode.clear empty_cache with
  | Deadlock => CacheMode.clear = CacheMode.clear
  | Done installed c' => CacheMode.clear <> CacheMode.clear /\ x_cacheMutex c' = false /\ g_mode c' = CacheMode.clear /\
      installed = negb (bool_decide (CacheMode.clear = CacheMode.off)) /\ files c' = files empty_cache
  end.
Proof. apply (init_deadlocks empty_cache CacheMode.clear). reflexivity. Defined.

Lemma preload_deadlocks_witness : preload full_cache = Deadlock.
Proof.
  apply (preload_deadlocks full_cache); [reflexivity |].
  intros H. apply (f_equal (fun m => m !! "a"%string)) in H. discriminate H.
Defined.

Lemma stale_object_witness : exists c', load "b" full_cache = Done (Some 7%nat) c'.
Proof. apply (stale_object full_cache "b" 7%nat); reflexivity. Defined.
