(* ===== verification/HostInv.v ===== *)
(** * Compiled code and the host

    Compiled code reaches the host only through the function table: every
    property of the host's state that the callbacks keep is kept by a whole
    run, however it ends. *)
From S2P Require Import Prelude Bytes Instruction LLVMInt EvmAbi Runtime IR Builder Program NullHost.

(** The callbacks that can change the host's state keep [I]. *)
Record keeps_host {H} (T : evm_context_fn_table H) (I : H -> Prop) : Prop := {
  kh_sstore h a k v : I h -> I (set_storage T h a k v);
  kh_selfdestruct h a b : I h -> I (selfdestruct T h a b);
  kh_call h m : I h -> I (host_call T h m).2;
  kh_log h a d ts : I h -> I (host_log T h a d ts)
}.

Section HostInv.
Context {H : Type} (E : Env H) (I : H -> Prop) (HT : keeps_host (e_host E) I).

Lemma getCallFunc_host uh msg h k g a v inp osz me d :
  I h -> I (getCallFunc (e_host E) uh msg h k g a v inp osz me d).2.
Proof.
  intros Hh. unfold getCallFunc, call_v2.
  pose proof (kh_call _ _ HT h (call_message uh msg k g a v inp) Hh) as Hc.
  destruct (host_call (e_host E) h _) as [res h']. repeat case_match; done.
Qed.

(** The two instructions that send a message. *)
Ltac destruct_call :=
  match goal with He : context [getCallFunc _ ?uh ?m ?h ?k ?g ?a ?v ?inp ?osz ?me ?d] |- _ =>
    pose proof (getCallFunc_host uh m h k g a v inp osz me d ltac:(done)) as Hc;
    destruct (getCallFunc _ uh m h k g a v inp osz me d) as [[[r out] buf] h'];
    repeat (apply run_bind_ok in He as (? & _ & He)); injection He as <-; destruct buf; exact Hc
  end.

Lemma exec1_host i s s' : exec1 E i s = Ok s' -> I (s_host s) -> I (s_host s').
Proof.
  intros He Hh. destruct i; cbn [exec1] in He;
    repeat (apply run_bind_ok in He as (? & _ & He));
    try (destruct_call; done);
    repeat (case_match; repeat (apply run_bind_ok in He as (? & _ & He))); simplify_eq; simpl; try done; by apply HT.
Qed.

Lemma exec_host l s s' : exec E l s = Ok s' -> I (s_host s) -> I (s_host s').
Proof.
  revert s. induction l as [| i l IH]; cbn [exec]; intros s He Hh; [by injection He as <- |].
  apply run_bind_ok in He as (s1 & H1 & He). eapply IH, exec1_host; done.
Qed.

Lemma stopped_host l s : I (s_host s) -> I (s_host (stopped E l s)).
Proof.
  revert s. induction l as [| i l IH]; cbn [stopped]; intros s Hh; [done |].
  destruct (exec1 E i s) eqn:He; [| done | done]. eapply IH, exec1_host; done.
Qed.

Lemma runBlock_host P n s :
  I (s_host s) ->
  match runBlock E P n s with
  | inl (_, s') => I (s_host s')
  | inr (Returned _ s') => I (s_host s')
  | inr Undefined => True
  end.
Proof.
  intros Hh. unfold runBlock. destruct (p_blocks P !! n) as [[instrs br] |]; [| done].
  destruct (exec E instrs s) as [s1 | |] eqn:He; [| by apply stopped_host | done].
  pose proof (exec_host _ _ _ He Hh) as H1. repeat case_match; simplify_eq; done.
Qed.

(** A run keeps what the callbacks keep. *)
Lemma runBlocks_host P fuel n s c s' :
  I (s_host s) -> runBlocks E P fuel n s = Some (Returned c s') -> I (s_host s').
Proof.
  revert n s. induction fuel as [| fuel IH]; intros n s Hh Hr; [done |]. cbn [runBlocks] in Hr.
  pose proof (runBlock_host P n s Hh) as Hb. destruct (runBlock E P n s) as [[n' s1] | [c1 s1 |]]; [eauto | | done].
  by injection Hr as <- <-.
Qed.
End HostInv.

(** Compiled code changes the state of the host only through the callbacks
    of the function table: whatever they keep, a run of the program keeps, to
    its end or up to the abort. *)
Theorem run_keeps_host {H} (E : Env H) (I : H -> Prop) P fuel gas h c s :
  keeps_host (e_host E) I -> I h -> runMain E P fuel gas h = Some (Returned c s) -> I (s_host s).
Proof. intros HT Hh. by apply (runBlocks_host E I HT). Qed.

(** The empty program stops at once. *)
Lemma run_keeps_host_witness :
  let E := mkEnv (null_host_for nat) (mkRuntimeData 100 0 [] (replicate 16 0) [] (replicate 32 0) (replicate 32 0) 0)
             (fun _ => null_message 100) EVM_AION_V1 0 [] [] in
  s_host (entry (H := nat) 100 7%nat) = 7%nat.
Proof.
  intros E. apply (run_keeps_host E (fun h => h = 7%nat) (mkP [] []) 1 100 7%nat Stop (entry 100 7%nat));
    [split; intros; assumption | reflexivity | reflexivity].
Defined.
