(* ===== verification/JIT.v ===== *)
(** * The JIT engine

    libevmjit/JIT.cpp: the instance that keeps the compiled functions, compiles
    code on demand and runs it for a message.  LLVM's execution engine is a
    parameter, the class [Engine]; [engine_ok] states what the program relies on
    of it.  The state of the instance is reachable from the host's callbacks
    (they run nested messages on it), so it is one half of the host state. *)
From Stdlib Require Import Ascii String.
From stdpp Require Import gmap strings.
From S2P Require Import Prelude Bytes Instruction BasicBlocks LLVMInt EvmAbi GasSchedule Runtime IR Builder.
From S2P Require Import Codegen Compiler Machine Sim SimHost Program Interp SimProgram HostInv NullHost Cache.
Import CacheMode(CacheMode) Cache.

(** ** Code identifiers *)

Definition toChar (rev : evm_revision) : ascii :=
  match rev with
  | EVM_FRONTIER => "F"%char | EVM_HOMESTEAD => "H"%char | EVM_TANGERINE_WHISTLE => "T"%char
  | EVM_SPURIOUS_DRAGON => "S"%char | EVM_BYZANTIUM => "B"%char | EVM_AION => "A"%char
  | EVM_CONSTANTINOPLE => "C"%char | EVM_AION_V1 => "D"%char
  end.

(** [hexChars[d]]. *)
Definition hexChar (d : Z) : ascii :=
  default "?"%char (list_ascii_of_string "0123456789abcdef" !! Z.to_nat d).

Fixpoint hexBytes (l : list Z) (rest : string) : string :=
  match l with
  | [] => rest
  | b :: l => String (hexChar (Z.shiftr b 4)) (String (hexChar (Z.land b 0xf)) (hexBytes l rest))
  end.

Definition makeCodeId (codeHash : list Z) (rev : evm_revision) (flags : Z) : string :=
  hexBytes codeHash (String (toChar rev)
    (if Z.land flags EVM_STATIC =? 0 then EmptyString else String "S" EmptyString)).

(** ** The instance *)

(** [struct CodeMapEntry]; a null function is [None]. *)
Record CodeMapEntry (F : Type) := mkEntry { func : option F; hits : Z }.
Arguments mkEntry {F}.
Arguments func {F}.
Arguments hits {F}.

(** [JITImpl].  [m_engine] counts the engines made so far, [m_totalMemorySize]
    is the memory manager's, [cnt] the static counter of [compile]. *)
Record JITImpl (F O : Type) := mkJIT {
  m_codeMap : gmap string (CodeMapEntry F);
  m_engine : nat;
  m_totalMemorySize : Z;
  cnt : Z;
  currentMsg : option evm_message;
  hitThreshold : Z;
  object_cache : cache O
}.
Arguments mkJIT {F O}.
Arguments m_codeMap {F O}.
Arguments m_engine {F O}.
Arguments m_totalMemorySize {F O}.
Arguments cnt {F O}.
Arguments currentMsg {F O}.
Arguments hitThreshold {F O}.
Arguments object_cache {F O}.

(** What the engine is given: a module of the compiler, or the fake one of the cache. *)
Inductive module := Compiled (rev : evm_revision) (code : list Z) (P : program) | FakeModule (id : string).

(** The part of LLVM the instance calls: the pass pipelines, the engine's
    code generation with the size of the sections it allocates, and a call of
    the function ([fuel] bounds the run). *)
Class Engine (F O K : Type) := {
  optimize : program -> program;
  prepare : program -> program;
  sectionSize : module -> Z;
  getFunctionAddress : module -> string -> cache O -> option F * cache O;
  callFunc : nat -> F -> Env (JITImpl F O * K) -> Z -> JITImpl F O * K -> option (returned_code (JITImpl F O * K))
}.

(** The result of an operation: a value, a thread waiting for itself,
    undefined behaviour, or a run cut short by its fuel. *)
Inductive outcome (A : Type) := Val (a : A) | Hang | UB | NoFuel.
Arguments Val {A}.
Arguments Hang {A}.
Arguments UB {A}.
Arguments NoFuel {A}.

#[global] Instance outcome_ret : MRet outcome := fun _ => Val.
#[global] Instance outcome_bind : MBind outcome := fun A B f m =>
  match m with Val a => f a | Hang => Hang | UB => UB | NoFuel => NoFuel end.

Definition lift {O A} (r : locked O A) : outcome (A * cache O) :=
  match r with Done a c => Val (a, c) | Deadlock => Hang end.

Section JIT.
Context {F O K : Type} `{LLVMFolder} `{Engine F O K}.
(** The options [-O] and [-cache], the host's table, and the bytes of
    uninitialised memory. *)
Context (g_optimize : bool) (g_cache : CacheMode) (T : evm_context_fn_table (JITImpl F O * K)).
Context (uninit : Z) (uninit_hash undef_addr : list Z).

Abbreviation JIT := (JITImpl F O).

Definition set_map (m : gmap string (CodeMapEntry F)) (j : JIT) : JIT :=
  mkJIT m (m_engine j) (m_totalMemorySize j) (cnt j) (currentMsg j) (hitThreshold j) (object_cache j).
Definition set_engine (n : nat) (size : Z) (j : JIT) : JIT :=
  mkJIT (m_codeMap j) n size (cnt j) (currentMsg j) (hitThreshold j) (object_cache j).
Definition set_cnt (n : Z) (j : JIT) : JIT :=
  mkJIT (m_codeMap j) (m_engine j) (m_totalMemorySize j) n (currentMsg j) (hitThreshold j) (object_cache j).
Definition set_msg (m : option evm_message) (j : JIT) : JIT :=
  mkJIT (m_codeMap j) (m_engine j) (m_totalMemorySize j) (cnt j) m (hitThreshold j) (object_cache j).
Definition set_threshold (t : Z) (j : JIT) : JIT :=
  mkJIT (m_codeMap j) (m_engine j) (m_totalMemorySize j) (cnt j) (currentMsg j) t (object_cache j).
Definition set_cache (c : cache O) (j : JIT) : JIT :=
  mkJIT (m_codeMap j) (m_engine j) (m_totalMemorySize j) (cnt j) (currentMsg j) (hitThreshold j) c.

Definition noEntry : CodeMapEntry F := mkEntry None 0.

(** [JITImpl::getExecFunc]: counts the hit and returns the entry. *)
Definition getExecFunc (id : string) (j : JIT) : CodeMapEntry F * JIT :=
  let e := default noEntry (m_codeMap j !! id) in
  let e := mkEntry (func e) (wrap 64 (hits e + 1)) in
  (e, set_map (<[id := e]> (m_codeMap j)) j).

(** [JITImpl::mapExecFunc]. *)
Definition mapExecFunc (id : string) (f : F) (j : JIT) : JIT :=
  let e := default noEntry (m_codeMap j !! id) in
  set_map (<[id := mkEntry (Some f) (hits e)]> (m_codeMap j)) j.

(** [JITImpl::resetEngine]: the compiled code goes with the old engine. *)
Definition resetEngine (j : JIT) : outcome JIT :=
  let j := set_engine (S (m_engine j)) 0 (set_map ∅ j) in
  '(_, c) ← lift (init g_cache (object_cache j));
  Val (set_cache c j).

(** [JITImpl::checkMemorySize]. *)
Definition checkMemorySize (j : JIT) : outcome JIT :=
  if 1000 * 1024 * 1024 <? m_totalMemorySize j then resetEngine j else Val j.

(** [JITImpl::compile]. *)
Definition compile_code (rev : evm_revision) (staticCall : bool) (code : list Z) (id : string) (j : JIT)
  : outcome (option F * JIT) :=
  let j := set_cnt (sgn 64 (wrap 64 (cnt j + 1))) j in
  j ← (if Z.rem (cnt j) 20000 =? 0 then resetEngine j else Val j);
  '(found, c) ← lift (getObject id (object_cache j));
  m ← match found with
      | Some _ => Val (FakeModule id)
      | None =>
          match compile rev staticCall code with
          | Some P => Val (Compiled rev code (prepare (if g_optimize then optimize P else P)))
          | None => NoFuel
          end
      end;
  let '(f, c) := getFunctionAddress m id c in
  Val (f, set_engine (m_engine j) (m_totalMemorySize j + sectionSize m) (set_cache c j)).

(** [ExecutionContext::getReturnData]: [s_ret] is the pointer into the memory
    and the size that RETURN and REVERT leave. *)
Definition getReturnData (s : rt (JIT * K)) : list Z :=
  match s_ret s with
  | Some (off, size) =>
      if (a_size (s_mem s) <=? off) || (size =? 0) then []
      else take (Z.to_nat size) (drop (Z.to_nat off) (a_data (s_mem s)))
  | None => []
  end.

(** What [jit.currentMsg] points at, [msg] having been stored there. *)
Definition current (msg : evm_message) (h : JIT * K) : evm_message := default msg (currentMsg h.1).

(** The environment of the run: the [RuntimeData] filled from the message. *)
Definition exec_env (rev : evm_revision) (msg : evm_message) (code : list Z) : Env (JIT * K) :=
  mkEnv T (mkRuntimeData (msg_gas msg) 0 (input msg) (EvmAbi.value msg) code (address msg) (caller msg) (depth msg))
    (current msg) rev uninit uninit_hash undef_addr.

(** The result for a return code. *)
Definition make_result (c : ReturnCode) (s : rt (JIT * K)) : evm_result :=
  let '(status, gas) :=
    match c with
    | Revert => (EVM_REVERT, s_gas s)
    | OutOfGas => (EVM_OUT_OF_GAS, 0)
    | _ => (EVM_SUCCESS, s_gas s)
    end in
  mkResult status gas (match c with Return | Revert => getReturnData s | _ => [] end).

(** [execute].  A function whose engine is gone when it would return is
    undefined behaviour. *)
Definition execute (fuel : nat) (rev : evm_revision) (msg : evm_message) (code : list Z) (h : JIT * K)
  : outcome (evm_result * (JIT * K)) :=
  let '(j, k) := h in
  j ← (if depth msg =? 0 then checkMemorySize j else Val j);
  let prevMsg := currentMsg j in
  let j := set_msg (Some msg) j in
  let codeIdentifier := makeCodeId (code_hash msg) rev (flags msg) in
  let '(codeEntry, j) := getExecFunc codeIdentifier j in
  let run_func f j :=
    match callFunc fuel f (exec_env rev msg code) (msg_gas msg) (j, k) with
    | Some (Returned returnCode s) =>
        let '(j', k') := s_host s in
        if (m_engine j' =? m_engine j)%nat
        then Val (make_result returnCode s, (set_msg prevMsg j', k'))
        else UB
    | Some Undefined => UB
    | None => NoFuel
    end in
  match func codeEntry with
  | Some f => run_func f j
  | None =>
      if hits codeEntry <=? hitThreshold j then Val (mkResult EVM_REJECTED 0 [], (j, k))
      else
        let staticCall := negb (Z.land (flags msg) EVM_STATIC =? 0) in
        '(f, j) ← compile_code rev staticCall code codeIdentifier j;
        match f with
        | Some f => run_func f (mapExecFunc codeIdentifier f j)
        | None => Val (mkResult EVM_INTERNAL_ERROR 0 [], (j, k))
        end
  end.
End JIT.

(** ** Options *)

(** [isspace] and [isdigit] of the C locale. *)
Definition isspace (c : ascii) : bool :=
  let n := Z.of_nat (nat_of_ascii c) in (n =? 32) || ((9 <=? n) && (n <=? 13)).
Definition isdigit (c : ascii) : bool :=
  let n := Z.of_nat (nat_of_ascii c) in (48 <=? n) && (n <=? 57).

Fixpoint skip_spaces (s : string) : string :=
  match s with String c s' => if isspace c then skip_spaces s' else s | EmptyString => s end.

(** The longest prefix of decimal digits: its value after [acc], and whether there is one. *)
Fixpoint digits (acc : Z) (some : bool) (s : string) : option Z :=
  match s with
  | String c s' => if isdigit c then digits (10 * acc + (Z.of_nat (nat_of_ascii c) - 48)) true s'
                   else if some then Some acc else None
  | EmptyString => if some then Some acc else None
  end.

(** [std::stoul]: [None] is an exception (no digits, or out of range). *)
Definition stoul (s : string) : option Z :=
  let s := skip_spaces s in
  let '(neg, s) := match s with
                   | String "-" s => (true, s) | String "+" s => (false, s) | _ => (false, s)
                   end in
  v ← digits 0 false s;
  if v <? 2 ^ 64 then Some (if neg then wrap 64 (- v) else v) else None.

(** [set_option]: the returned flag and the instance. *)
Definition set_option {F O} (name value : string) (j : JITImpl F O) : Z * JITImpl F O :=
  if bool_decide (name = "hits-threshold"%string) then
    match stoul value with
    | Some t => (1, set_threshold t j)
    | None => (0, j)
    end
  else (0, j).

(** A number in decimal, the most significant digit first. *)
Fixpoint decimal (ds : list nat) : string :=
  match ds with [] => EmptyString | d :: ds => String (ascii_of_nat (48 + d)) (decimal ds) end.
Definition decimal_value (acc : Z) (ds : list nat) : Z := foldl (fun a d => 10 * a + Z.of_nat d) acc ds.

Lemma digit_char d : (d < 10)%nat ->
  isdigit (ascii_of_nat (48 + d)) = true /\ isspace (ascii_of_nat (48 + d)) = false
  /\ Z.of_nat (nat_of_ascii (ascii_of_nat (48 + d))) - 48 = Z.of_nat d.
Proof. intros Hd. do 10 (destruct d as [| d]; [by vm_compute |]). lia. Qed.

Lemma digits_decimal ds acc some :
  Forall (fun d => d < 10)%nat ds -> (ds <> [] \/ some = true) -> digits acc some (decimal ds) = Some (decimal_value acc ds).
Proof.
  intros Hds. revert acc some. induction Hds as [| d ds Hd Hds IH]; intros acc some Hne; cbn [decimal digits].
  - by destruct Hne as [? | ->].
  - destruct (digit_char d Hd) as (-> & _ & ->). rewrite IH by (by right). done.
Qed.

(** The text of a number parses to the number. *)
Lemma stoul_decimal ds :
  Forall (fun d => d < 10)%nat ds -> ds <> [] -> decimal_value 0 ds < 2 ^ 64 -> stoul (decimal ds) = Some (decimal_value 0 ds).
Proof.
  intros Hds Hne Hv. unfold stoul. pose proof (digits_decimal ds 0 false Hds (or_introl Hne)) as Hd.
  destruct ds as [| d ds]; [done |]. apply Forall_cons_1 in Hds as [Hd' Hds]. cbn [decimal skip_spaces] in *.
  destruct (digit_char d Hd') as (Hdig & -> & _).
  assert (exists b0 b1 b2 b3 b4 b5 b6 b7, ascii_of_nat (48 + d) = Ascii b0 b1 b2 b3 b4 b5 b6 b7 /\ b4 = true) as
    (b0 & b1 & b2 & b3 & b4 & b5 & b6 & b7 & Hc & ->).
  { do 10 (destruct d as [| d]; [do 8 eexists; split; [vm_compute; reflexivity | done] |]). lia. }
  rewrite Hc in *. destruct b0, b1, b2, b3, b5, b6, b7; cbn [mbind option_bind]; rewrite Hd; cbn [mbind option_bind];
    by rewrite (proj2 (Z.ltb_lt _ _)) by done.
Qed.

(** The option hits-threshold takes a decimal number below [2^64] and sets
    the threshold to it; every other option name is refused without a change. *)
Theorem set_option_threshold {F O} (ds : list nat) (name value : string) (j : JITImpl F O) :
  Forall (fun d => d < 10)%nat ds -> ds <> [] -> decimal_value 0 ds < 2 ^ 64 ->
  set_option "hits-threshold" (decimal ds) j = (1, set_threshold (decimal_value 0 ds) j) /\
  (name <> "hits-threshold"%string -> set_option name value j = (0, j)).
Proof.
  intros Hds Hne Hv. split.
  - unfold set_option. rewrite bool_decide_eq_true_2 by done. by rewrite stoul_decimal.
  - intros Hn. unfold set_option. by rewrite bool_decide_eq_false_2.
Qed.

(** ** Code identifiers are unique *)

Lemma hexChar_inj a b : 0 <= a < 16 -> 0 <= b < 16 -> hexChar a = hexChar b -> a = b.
Proof.
  intros Ha Hb Hab.
  assert (forall n, (n < 16)%nat -> forall m, (m < 16)%nat -> hexChar (Z.of_nat n) = hexChar (Z.of_nat m) -> n = m) as Hall.
  { intros n Hn m Hm. do 16 (destruct n as [| n]; [do 16 (destruct m as [| m]; [by vm_compute |]); lia |]). lia. }
  specialize (Hall (Z.to_nat a) ltac:(lia) (Z.to_nat b) ltac:(lia)). rewrite !Z2Nat.id in Hall by lia. specialize (Hall Hab). lia.
Qed.

Lemma hexBytes_inj l l' r r' :
  bytes_ok l -> bytes_ok l' -> length l = length l' -> hexBytes l r = hexBytes l' r' -> l = l' /\ r = r'.
Proof.
  revert l'. induction l as [| b l IH]; intros [| b' l'] Hl Hl' Hn Heq; try done.
  apply Forall_cons_1 in Hl as [Hb Hl]. apply Forall_cons_1 in Hl' as [Hb' Hl']. cbn [hexBytes] in Heq.
  injection Heq as H1 H2 H3. injection Hn as Hn. destruct (IH l' Hl Hl' Hn H3) as [-> ->]. split; [| done]. f_equal.
  unfold inw in *. rewrite !Z.shiftr_div_pow2 in H1 by lia. change 0xf with (Z.ones 4) in H2. rewrite !Z.land_ones in H2 by lia.
  change (2 ^ 4) with 16 in *.
  apply hexChar_inj in H1; [| split; [apply Z.div_pos; lia | apply Z.div_lt_upper_bound; lia] ..].
  apply hexChar_inj in H2; [| apply Z.mod_pos_bound; lia ..].
  rewrite (Z.div_mod b 16), (Z.div_mod b' 16) by lia. lia.
Qed.

Lemma toChar_inj rev rev' : toChar rev = toChar rev' -> rev = rev'.
Proof. by destruct rev, rev'. Qed.

Lemma makeCodeId_eq h h' rev rev' f f' :
  bytes_of_len 32 h -> bytes_of_len 32 h' -> makeCodeId h rev f = makeCodeId h' rev' f' ->
  h = h' /\ rev = rev' /\ (Z.land f EVM_STATIC =? 0) = (Z.land f' EVM_STATIC =? 0).
Proof.
  intros [Hn Hb] [Hn' Hb'] Heq. unfold makeCodeId in Heq. apply hexBytes_inj in Heq as [-> Heq]; [| done | done | congruence].
  injection Heq as H1 H2. apply toChar_inj in H1 as ->. repeat case_match; done.
Qed.

(** The identifier under which compiled code is kept determines the code
    hash, the revision and the call mode: no two of them share a function. *)
Theorem makeCodeId_injective h h' rev rev' f f' :
  bytes_of_len 32 h -> bytes_of_len 32 h' -> makeCodeId h rev f = makeCodeId h' rev' f' ->
  h = h' /\ rev = rev' /\ (Z.land f EVM_STATIC =? 0) = (Z.land f' EVM_STATIC =? 0).
Proof. apply makeCodeId_eq. Qed.

(** Spurious Dragon and the static mode both add the letter S. *)
Lemma makeCodeId_injective_witness :
  makeCodeId (replicate 32 0) EVM_SPURIOUS_DRAGON 0 = makeCodeId (replicate 32 0) EVM_SPURIOUS_DRAGON 2 /\
  replicate 32 0 = replicate 32 0 /\ EVM_SPURIOUS_DRAGON = EVM_SPURIOUS_DRAGON /\
  (Z.land 0 EVM_STATIC =? 0) = (Z.land 2 EVM_STATIC =? 0).
Proof.
  split; [reflexivity |].
  apply (makeCodeId_injective (replicate 32 0) (replicate 32 0) EVM_SPURIOUS_DRAGON EVM_SPURIOUS_DRAGON 0 2);
    [apply zeros_of_len | apply zeros_of_len | reflexivity].
Defined.

(** ** Executing a message *)

Section Execute.
Context {F O K : Type} `{LLVMFolder} `{Engine F O K}.
Context (g_optimize : bool) (T : evm_context_fn_table (JITImpl F O * K)).
Context (uninit : Z) (uninit_hash undef_addr : list Z).

Abbreviation JIT := (JITImpl F O).
Abbreviation execute := (execute g_optimize CacheMode.off T uninit uninit_hash undef_addr).
Abbreviation compile_code := (compile_code g_optimize CacheMode.off).
Abbreviation is_static flags := (negb (Z.land flags EVM_STATIC =? 0)).

(** A function runs as the program it was made from: wherever the program's
    behaviour is defined, a call ends in the same way. *)
Definition runs (rev : evm_revision) (code : list Z) (P : program) (f : F) : Prop :=
  forall (E : Env (JIT * K)) fuel g h c s, e_rev E = rev -> d_code (e_data E) = code ->
    runMain E P fuel g h = Some (Returned c s) -> exists fuel', callFunc fuel' f E g h = Some (Returned c s).

(** What the instance relies on of LLVM: passes and code generation produce a
    function that runs as the program, and do not use an object cache that is off. *)
Definition engine_ok : Prop := forall rev code P id c, g_mode c = CacheMode.off ->
  exists f, getFunctionAddress (Compiled rev code (prepare (if g_optimize then optimize P else P))) id c = (Some f, c)
    /\ runs rev code P f.

(** The cache is off and no operation is under way. *)
Definition cache_off (j : JIT) : Prop :=
  g_mode (object_cache j) = CacheMode.off /\ x_cacheMutex (object_cache j) = false.

(** Every function kept runs as the program of the code its identifier names;
    [codes] gives the code with a hash. *)
Definition code_map_ok (codes : list Z -> list Z) (j : JIT) : Prop :=
  forall hash rev flags e f, bytes_of_len 32 hash ->
    m_codeMap j !! makeCodeId hash rev flags = Some e -> func e = Some f ->
    exists P, compile rev (is_static flags) (codes hash) = Some P /\ runs rev (codes hash) P f.

Context (codes : list Z -> list Z) (HE : engine_ok).

Lemma code_map_hit id j : code_map_ok codes j -> code_map_ok codes (getExecFunc id j).2.
Proof.
  intros Hj hash rev flags e f Hh. simpl. destruct (decide (id = makeCodeId hash rev flags)) as [-> | Hne].
  - rewrite lookup_insert_eq. intros [= <-] Hf. simpl in Hf.
    destruct (m_codeMap j !! makeCodeId hash rev flags) as [e |] eqn:He; [by eapply Hj | done].
  - rewrite lookup_insert_ne by done. by apply Hj.
Qed.

Lemma code_map_add hash rev flags f P j :
  bytes_of_len 32 hash -> compile rev (is_static flags) (codes hash) = Some P -> runs rev (codes hash) P f ->
  code_map_ok codes j -> code_map_ok codes (mapExecFunc (makeCodeId hash rev flags) f j).
Proof.
  intros Hh HP Hf Hj hash' rev' flags' e f' Hh'. unfold mapExecFunc. simpl.
  destruct (decide (makeCodeId hash rev flags = makeCodeId hash' rev' flags')) as [Heq | Hne].
  - rewrite Heq, lookup_insert_eq. intros [= <-] [= <-]. apply makeCodeId_eq in Heq as (<- & <- & Hs); [| done | done].
    exists P. by rewrite <- Hs.
  - rewrite lookup_insert_ne by done. by apply Hj.
Qed.

Lemma reset_ok j : cache_off j -> exists j', resetEngine CacheMode.off j = Val j' /\ m_codeMap j' = ∅ /\ cache_off j'
  /\ currentMsg j' = currentMsg j /\ hitThreshold j' = hitThreshold j.
Proof.
  intros [Hm Hx]. unfold resetEngine, init, guard. simpl. rewrite Hx. simpl. eexists. split; [reflexivity |]. done.
Qed.

Lemma code_map_empty j : m_codeMap j = ∅ -> code_map_ok codes j.
Proof. intros Hj hash rev flags e f _. by rewrite Hj, lookup_empty. Qed.

(** The instance after compiling is ready to run the function. *)
Lemma compile_code_ok hash rev flags j :
  let code := codes hash in let id := makeCodeId hash rev flags in
  bytes_of_len 32 hash -> cache_off j -> code_map_ok codes j -> (exists P, compile rev (is_static flags) code = Some P) ->
  exists f j', compile_code rev (is_static flags) code id j = Val (Some f, j') /\ cache_off j'
    /\ code_map_ok codes (mapExecFunc id f j') /\ currentMsg j' = currentMsg j
    /\ exists P, compile rev (is_static flags) code = Some P /\ runs rev code P f.
Proof.
  intros code id Hh Hc Hm [P HP]. unfold compile_code.
  set (j0 := set_cnt _ j). assert (cache_off j0 /\ code_map_ok codes j0 /\ currentMsg j0 = currentMsg j) as Hj0 by done.
  assert (exists j1, (if Z.rem (cnt j0) 20000 =? 0 then resetEngine CacheMode.off j0 else Val j0) = Val j1
    /\ cache_off j1 /\ code_map_ok codes j1 /\ currentMsg j1 = currentMsg j) as (j1 & -> & [Hmode Hx] & Hm1 & Hcur).
  { destruct Hj0 as (H1 & H2 & H3). destruct (Z.rem (cnt j0) 20000 =? 0); [| by exists j0].
    destruct (reset_ok j0 H1) as (j1 & -> & Hem & Ho & Hcu & _). exists j1. split_and!; try done; by apply code_map_empty. }
  cbn [mbind outcome_bind]. rewrite (getObject_off _ id Hx Hmode). cbn [lift mbind outcome_bind]. rewrite HP.
  cbn [mbind outcome_bind]. destruct (HE rev code P id (object_cache j1) Hmode) as (f & -> & Hf).
  exists f. eexists. split; [reflexivity |]. split_and!; try done; [| by exists P].
  eapply code_map_add; try done.
Qed.

Context (rev : evm_revision) (msg : evm_message).
Abbreviation code := (codes (code_hash msg)).
Abbreviation X := (mkCtx T msg (current msg) code rev (is_static (flags msg)) uninit_hash undef_addr).
Abbreviation id := (makeCodeId (code_hash msg) rev (flags msg)).

(** What a caller of the interface sees of an ending of the reference machine. *)
Definition spec_result (c : ReturnCode) (gas : Z) (out : list Z) : evm_result :=
  match c with
  | Return => mkResult EVM_SUCCESS gas out
  | Revert => mkResult EVM_REVERT gas out
  | OutOfGas => mkResult EVM_OUT_OF_GAS 0 []
  | _ => mkResult EVM_SUCCESS gas []
  end.

Lemma getReturnData_out (s : rt (JIT * K)) out :
  returned s out -> getReturnData s = out.
Proof.
  intros (o & n & Hr & Hn & -> & Hin). unfold getReturnData. rewrite Hr.
  destruct (Z.eqb_spec n 0) as [-> | Hne]; [by rewrite orb_true_r |]. destruct (Hin Hne).
  by rewrite (proj2 (Z.leb_gt _ _)) by lia.
Qed.

Lemma make_result_spec c (s : rt (JIT * K)) (r : rstate (JIT * K)) out :
  s_gas s = r_gas r -> match c with Stop => out = [] | _ => returned s out end ->
  make_result c s = spec_result c (r_gas r) out.
Proof.
  intros Hg Ho. unfold make_result, spec_result. destruct c; rewrite ?Hg; try done; by rewrite (getReturnData_out _ _ Ho).
Qed.

Context (HX : ctx_ok X) (Hgas : 0 <= msg_gas msg < 2 ^ 63 - 1) (Hhash : bytes_of_len 32 (code_hash msg)).

Abbreviation env := (exec_env T uninit uninit_hash undef_addr rev msg code).
Abbreviation keeps_codes := (keeps_host T (fun h => code_map_ok codes h.1)).
Abbreviation keeps_engine := (forall n, keeps_host T (fun h => m_engine h.1 = n)).

(** A function made from the code returns what the machine does. *)
Lemma run_function f j k :
  (exists P, compile rev (is_static (flags msg)) code = Some P /\ runs rev code P f) ->
  exists o, (exists fuel, interp X fuel 0 (mkR [] (msg_gas msg) [] [] (j, k)) = Some o) /\
    (o = LeftOpen \/ exists fuel c s,
       callFunc fuel f env (msg_gas msg) (j, k) = Some (Returned c s) /\
       match o with
       | Halted c' out r => make_result c s = spec_result c' (r_gas r) out /\ s_host s = r_host r /\ 0 <= r_gas r < 2 ^ 63 - 1
       | _ => make_result c s = mkResult EVM_OUT_OF_GAS 0 []
       end /\
       forall I : JIT * K -> Prop, keeps_host T I -> I (j, k) -> I (s_host s)).
Proof.
  intros (P & HP & Hf). destruct (compile_simulates X (msg_gas msg) 0 uninit HX Hgas) as (P' & HP' & Hsim).
  simpl in HP'. rewrite HP in HP'. injection HP' as <-. destruct (Hsim (j, k)) as (o & Ho & Hrun). exists o. split; [done |].
  destruct Hrun as [-> | (fuel & res & Hr & Hres)]; [by left |].
  assert (forall c s, runMain env P fuel (msg_gas msg) (j, k) = Some (Returned c s) ->
    forall I : JIT * K -> Prop, keeps_host T I -> I (j, k) -> I (s_host s)) as Hkeep.
  { intros c s Hrm I HI Hjk. by apply (runBlocks_host env I HI P fuel 0 (entry (msg_gas msg) (j, k)) c). }
  destruct o as [c out r | |]; [right | right | by left].
  - destruct Hres as (s & -> & Hrest & Hout). destruct (Hf env _ _ _ _ _ eq_refl eq_refl Hr) as (fuel' & Hc).
    exists fuel', c, s. split; [done |]. split; [| by eapply Hkeep].
    split; [by apply make_result_spec; [apply Hrest |] | split; [apply (rr_host _ _ _ Hrest) | apply (rr_range _ _ _ Hrest)]].
  - destruct Hres as (s & ->). destruct (Hf env _ _ _ _ _ eq_refl eq_refl Hr) as (fuel' & Hc).
    exists fuel', OutOfGas, s. split; [done |]. split; [done | by eapply Hkeep].
Qed.

(** The entry of the message's code when [execute] looks it up: the memory
    check at the start of a transaction may have thrown all entries away. *)
Definition remembered (j : JIT) : CodeMapEntry F :=
  if (depth msg =? 0) && (1000 * 1024 * 1024 <? m_totalMemorySize j) then noEntry
  else default noEntry (m_codeMap j !! id).

(** Code that is not compiled and was not asked for more often than the threshold, this time included. *)
Definition turned_away (j : JIT) : Prop :=
  func (remembered j) = None /\ wrap 64 (hits (remembered j) + 1) <= hitThreshold j.

(** The instance after the memory check. *)
Lemma checked_ok j : cache_off j -> code_map_ok codes j ->
  exists j1, (if depth msg =? 0 then checkMemorySize CacheMode.off j else Val j) = Val j1 /\
    cache_off j1 /\ code_map_ok codes j1 /\ currentMsg j1 = currentMsg j /\ hitThreshold j1 = hitThreshold j /\
    default noEntry (m_codeMap j1 !! id) = remembered j.
Proof.
  intros Hc Hm. unfold checkMemorySize, remembered. destruct (depth msg =? 0); cbn [andb]; [| by exists j].
  destruct (_ <? m_totalMemorySize j); [| by exists j].
  destruct (reset_ok j Hc) as (j1 & -> & He & Ho & Hcu & Ht). exists j1. split_and!; try done; [by apply code_map_empty | by rewrite He, lookup_empty].
Qed.

(** What a turned away message leaves behind: the hit is counted, and the message is the current one. *)
Lemma execute_away fuel j k :
  cache_off j -> code_map_ok codes j -> turned_away j ->
  exists j', execute fuel rev msg code (j, k) = Val (mkResult EVM_REJECTED 0 [], (j', k)) /\
    m_codeMap j' !! id = Some (mkEntry None (wrap 64 (hits (remembered j) + 1))) /\
    cache_off j' /\ code_map_ok codes j' /\ hitThreshold j' = hitThreshold j /\ currentMsg j' = Some msg.
Proof.
  intros Hc Hm [Hf Hh]. destruct (checked_ok j Hc Hm) as (j1 & Hj1 & Hc1 & Hm1 & _ & Ht1 & He).
  unfold execute, JIT.execute. rewrite Hj1. cbn [mbind outcome_bind]. set (j0 := set_msg (Some msg) j1).
  pose proof (code_map_hit id j0 Hm1) as Hm2. unfold getExecFunc in *. change (m_codeMap j0) with (m_codeMap j1) in *.
  rewrite He, Hf in *. cbn [func hits snd] in *. change (hitThreshold (set_map _ j0)) with (hitThreshold j1).
  rewrite Ht1, (proj2 (Z.leb_le _ _)) by done.
  eexists. split; [reflexivity |]. split; [cbn; by rewrite lookup_insert_eq |]. split; [exact Hc1 | split; [exact Hm2 |]]. done.
Qed.

(** The function [execute] runs for a message that is not turned away. *)
Lemma execute_function j k :
  cache_off j -> code_map_ok codes j -> ~ turned_away j ->
  exists f j2, currentMsg j2 = Some msg /\ is_Some (m_codeMap j2 !! id ≫= func) /\ code_map_ok codes j2 /\
    (exists P, compile rev (is_static (flags msg)) code = Some P /\ runs rev code P f) /\
    forall fuel, execute fuel rev msg code (j, k) =
      match callFunc fuel f env (msg_gas msg) (j2, k) with
      | Some (Returned c s) =>
          if (m_engine (s_host s).1 =? m_engine j2)%nat
          then Val (make_result c s, (set_msg (currentMsg j) (s_host s).1, (s_host s).2)) else UB
      | Some Undefined => UB
      | None => NoFuel
      end.
Proof.
  intros Hc Hm Hacc. destruct (checked_ok j Hc Hm) as (j1 & Hj1 & Hc1 & Hm1 & Hcur & Ht1 & He).
  set (j0 := set_msg (Some msg) j1). set (e := (getExecFunc id j0).1). set (j3 := (getExecFunc id j0).2).
  assert (cache_off j3 /\ code_map_ok codes j3 /\ currentMsg j3 = Some msg) as (Hc3 & Hm3 & Hcur3)
    by (split; [exact Hc1 | split; [by apply (code_map_hit id j0) | done]]).
  assert (func e = func (remembered j) /\ hits e = wrap 64 (hits (remembered j) + 1)) as [Hfe Hhe] by (rewrite <- He; done).
  destruct (func e) as [f |] eqn:Ef.
  - exists f, j3. assert (m_codeMap j3 !! id = Some e) as Hl by (simpl; by rewrite lookup_insert_eq).
    split_and!; try done; [rewrite Hl; cbn [mbind option_bind]; by rewrite Ef | by eapply Hm3 |].
    intros fuel. unfold execute, JIT.execute. rewrite Hj1.
    cbn [mbind outcome_bind]. fold j0. rewrite (surjective_pairing (getExecFunc id j0)). fold e j3. rewrite Ef, Hcur.
    destruct (callFunc _ _ _ _ _) as [[c s |] |]; [| done | done]. by destruct (s_host s) as [j' k'].
  - assert ((hits e <=? hitThreshold j3) = false) as Hth.
    { apply Z.leb_gt, Z.nle_gt. intros Hle. apply Hacc. split; [done |]. rewrite <- Hhe. change (hitThreshold j3) with (hitThreshold j1) in Hle. lia. }
    destruct (compile_simulates X (msg_gas msg) 0 uninit HX Hgas) as (P' & HP' & _).
    destruct (compile_code_ok (code_hash msg) rev (flags msg) j3 Hhash Hc3 Hm3 ltac:(by exists P'))
      as (f & j4 & Hcc & Hc4 & Hm4 & Hcur4 & HP).
    exists f, (mapExecFunc id f j4). split; [simpl; by rewrite Hcur4 |]. split; [cbn; rewrite lookup_insert_eq; by eexists |].
    split; [done | split; [done |]]. intros fuel. unfold execute, JIT.execute. rewrite Hj1.
    cbn [mbind outcome_bind]. fold j0. rewrite (surjective_pairing (getExecFunc id j0)). fold e j3. rewrite Ef, Hth, Hcc, Hcur.
    cbn [mbind outcome_bind]. destruct (callFunc _ _ _ _ _) as [[c s |] |]; [| done | done]. by destruct (s_host s) as [j' k'].
Qed.

(** A message that is run.  At the start of the run ([j2]) it is the current
    message and its code is compiled.  An ending of the reference machine from
    there is the result, with the previous message put back; a run whose engine
    was replaced meanwhile returns into code that is gone. *)
Definition served (j : JIT) (k : K) : Prop :=
  exists j2 o, currentMsg j2 = Some msg /\ is_Some (m_codeMap j2 !! id ≫= func) /\
    (exists fuel, interp X fuel 0 (mkR [] (msg_gas msg) [] [] (j2, k)) = Some o) /\
    match o with
    | Halted c out r =>
        0 <= r_gas r < 2 ^ 63 - 1 /\
        (exists fuel, execute fuel rev msg code (j, k) =
           if (m_engine (r_host r).1 =? m_engine j2)%nat
           then Val (spec_result c (r_gas r) out, (set_msg (currentMsg j) (r_host r).1, (r_host r).2)) else UB) /\
        (keeps_codes -> code_map_ok codes (r_host r).1)
    | Failed =>
        exists fuel,
          (exists j' k', execute fuel rev msg code (j, k) = Val (mkResult EVM_OUT_OF_GAS 0 [], (j', k')) /\
             currentMsg j' = currentMsg j /\ (keeps_codes -> code_map_ok codes j')) \/
          (execute fuel rev msg code (j, k) = UB /\ ~ keeps_engine)
    | LeftOpen => True
    end.

Lemma execute_served j k : cache_off j -> code_map_ok codes j -> ~ turned_away j -> served j k.
Proof.
  intros Hc Hm Hacc. destruct (execute_function j k Hc Hm Hacc) as (f & j2 & Hcur & Hin & Hm2 & HP & Hex).
  destruct (run_function f j2 k HP) as (o & Ho & Hrun). exists j2, o. split; [done |]. split; [done |]. split; [done |].
  destruct Hrun as [-> | (fuel & c & s & Hcall & Has & Hkeep)]; [done |]. destruct o as [c' out r | |]; [| | done].
  - destruct Has as (Hres & Hhost & Hrange). rewrite Hhost in Hkeep. split; [done |]. split; [| intros HC; by apply (Hkeep _ HC)].
    exists fuel. by rewrite Hex, Hcall, Hhost, Hres.
  - exists fuel. rewrite Hex, Hcall, Has. destruct (Nat.eqb_spec (m_engine (s_host s).1) (m_engine j2)) as [He | Hne].
    + left. eexists _, _. split; [reflexivity |]. split; [done |]. intros HC. by apply (Hkeep _ HC).
    + right. split; [done |]. intros HT. apply Hne. by apply (Hkeep _ (HT _)).
Qed.


(** [n] executions of the message. *)
Fixpoint executes (fuel n : nat) (h : JIT * K) : outcome (list evm_result * (JIT * K)) :=
  match n with
  | 0%nat => Val ([], h)
  | S n => '(res, h) ← execute fuel rev msg code h; '(rest, h) ← executes fuel n h; Val (res :: rest, h)
  end.

(** The code is not compiled and was asked for [n] times. *)
Definition cold (n : Z) (j : JIT) : Prop :=
  remembered j = mkEntry None n /\ m_totalMemorySize j <= 1000 * 1024 * 1024 /\ cache_off j /\ code_map_ok codes j.

Lemma remembered_small j : m_totalMemorySize j <= 1000 * 1024 * 1024 -> remembered j = default noEntry (m_codeMap j !! id).
Proof. intros Hs. unfold remembered. by rewrite (proj2 (Z.ltb_ge _ _)), andb_false_r by lia. Qed.

Lemma execute_cold fuel n j k :
  cold n j -> 0 <= n < 2 ^ 64 - 1 -> n + 1 <= hitThreshold j ->
  exists j', execute fuel rev msg code (j, k) = Val (mkResult EVM_REJECTED 0 [], (j', k)) /\ cold (n + 1) j' /\
    hitThreshold j' = hitThreshold j.
Proof.
  intros (He & Hs & Hc & Hm) Hn Ht. assert (Hw : wrap 64 (n + 1) = n + 1) by (apply wrap_small; unfold inw; lia).
  destruct (execute_away fuel j k Hc Hm) as (j' & Hex & Hl & Hc' & Hm' & Ht' & _); [split; rewrite He; cbn [func hits]; [done | lia] |].
  exists j'. split; [done |]. split; [| done]. rewrite He in Hl. cbn [hits] in Hl. rewrite Hw in Hl.
  assert (m_totalMemorySize j' <= 1000 * 1024 * 1024) as Hs'.
  { revert Hex. unfold execute, JIT.execute, checkMemorySize. rewrite (proj2 (Z.ltb_ge _ _)) by lia.
    assert ((if depth msg =? 0 then Val j else Val j) = Val j) as -> by by case_match. cbn [mbind outcome_bind].
    unfold getExecFunc. cbn [m_codeMap set_msg]. rewrite <- (remembered_small j Hs), He. cbn [func hits].
    rewrite Hw. cbn [hitThreshold set_map set_msg]. rewrite (proj2 (Z.leb_le _ _)) by lia. intros [= <-]. done. }
  split; [by rewrite (remembered_small j' Hs'), Hl |]. done.
Qed.

Lemma executes_cold fuel t n j k :
  cold n j -> 0 <= n -> n + Z.of_nat t < 2 ^ 64 - 1 -> n + Z.of_nat t <= hitThreshold j ->
  exists j', executes fuel t (j, k) = Val (replicate t (mkResult EVM_REJECTED 0 []), (j', k)) /\ cold (n + Z.of_nat t) j' /\
    hitThreshold j' = hitThreshold j.
Proof.
  revert n j. induction t as [| t IH]; intros n j Hc Hn Hb Ht; [exists j; by rewrite Z.add_0_r |].
  destruct (execute_cold fuel n j k Hc ltac:(lia) ltac:(lia)) as (j1 & Hex & Hc1 & Ht1).
  destruct (IH (n + 1) j1 Hc1 ltac:(lia) ltac:(lia) ltac:(lia)) as (j2 & Hexs & Hc2 & Ht2).
  exists j2. cbn [executes replicate]. rewrite Hex. cbn [mbind outcome_bind]. rewrite Hexs. cbn [mbind outcome_bind].
  split_and!; [done | | congruence]. replace (n + Z.of_nat (S t)) with (n + 1 + Z.of_nat t) by lia. done.
Qed.

End Execute.

(** ** Compilations that replace the engine *)

Section Reset.
Context {F O K : Type} `{LLVMFolder} `{Engine F O K}.
Context (g_optimize : bool) (g_cache : CacheMode) (rev : evm_revision) (code : list Z) (id : string).
Abbreviation JIT := (JITImpl F O).

(** The compilation that brings the counter to a multiple of 20000 throws
    the engine and all functions kept away, also when it is done for a nested
    message while functions of that engine are running. *)
Theorem compile_resets staticCall (j : JIT) f j' :
  0 <= cnt j < 2 ^ 63 - 1 -> (cnt j + 1) mod 20000 = 0 ->
  compile_code g_optimize g_cache rev staticCall code id j = Val (f, j') ->
  m_engine j' = S (m_engine j) /\ m_codeMap j' = ∅.
Proof.
  intros Hc Hm. unfold compile_code. rewrite sgn_wrap by (simpl; lia). cbn [cnt set_cnt].
  rewrite Z.rem_mod_nonneg, Hm by lia. cbn [Z.eqb]. unfold resetEngine. cbn [object_cache set_engine set_map set_cnt].
  destruct (init g_cache (object_cache j)) as [b c1 |]; [| done]. cbn [lift mbind outcome_bind object_cache set_cache].
  destruct (getObject id c1) as [found c2 |]; [| done]. cbn [lift mbind outcome_bind].
  destruct found as [i |]; [| destruct (compile rev staticCall code) as [P |]; [| done]]; cbn [mbind outcome_bind];
    destruct (getFunctionAddress _ _ _) as [f' c3]; intros [= _ <-]; done.
Qed.
End Reset.

(** ** An engine that interprets *)

(** Programs as functions, run directly; no passes, no sections. *)
#[global] Instance direct_engine (K : Type) : Engine program unit K := {
  optimize P := P;
  prepare P := P;
  sectionSize _ := 0;
  getFunctionAddress m _ c := match m with Compiled _ _ P => (Some P, c) | FakeModule _ => (None, c) end;
  callFunc fuel P E g h := runMain E P fuel g h
}.

Lemma direct_engine_ok K : engine_ok (F := program) (O := unit) (K := K) true.
Proof. intros rev code P id c Hc. exists P. split; [done |]. intros E fuel g h c' s _ _ Hr. by exists fuel. Qed.

(** A new instance, and one without a hit threshold. *)
Definition new_jit : JITImpl program unit := mkJIT ∅ 1 0 0 None 0 (mkCache false CacheMode.off None ∅ true).

Lemma null_keeps {H} (I : H -> Prop) : keeps_host (null_host_for H) I.
Proof. by split. Qed.


(** The whole path on [sum_code]: compiled, run and kept. *)
Example sum_code_executes :
  match execute (H := const_fold) true CacheMode.off (null_host_for _) 0 (replicate 32 0) (replicate 32 0)
          3 EVM_AION_V1 (null_message 100000) sum_code (new_jit, tt) with
  | Val (res, (j, _)) => Some (res, bool_decide (m_codeMap j = ∅), currentMsg j)
  | _ => None
  end = Some (mkResult EVM_SUCCESS 99992 (be_bytes 16 5), false, None).
Proof. vm_compute. reflexivity. Qed.


(** The 20000th compilation. *)
Lemma compile_resets_witness :
  exists f j', compile_code (H := const_fold) (K := unit) true CacheMode.off EVM_AION_V1 false sum_code
      (makeCodeId (replicate 32 0) EVM_AION_V1 0) (set_cnt 19999 new_jit) = Val (f, j')
    /\ m_engine j' = S (m_engine (set_cnt 19999 new_jit)) /\ m_codeMap j' = ∅.
Proof.
  eexists _, _. split; [vm_compute; reflexivity |].
  eapply (compile_resets (H := const_fold) (K := unit) true CacheMode.off EVM_AION_V1 sum_code (makeCodeId (replicate 32 0) EVM_AION_V1 0) false (set_cnt 19999 new_jit));
    [simpl; lia | reflexivity | vm_compute; reflexivity].
Defined.

Lemma set_option_threshold_witness :
  set_option "hits-threshold" "12" new_jit = (1, set_threshold 12 new_jit) /\
  ("version"%string <> "hits-threshold"%string -> set_option "version" "1" new_jit = (0, new_jit)).
Proof.
  apply (set_option_threshold [1%nat; 2%nat] "version" "1" new_jit); [repeat constructor | discriminate | reflexivity].
Defined.
