(* ===== verification/JavaData.v ===== *)
(** * Data of the Java front end

    modFastVM/src/org/aion/fastvm: 16-byte data words (FvmDataWord.java),
    result codes, transaction kinds, execution contexts and results, with the
    big-endian encodings that cross the JNI boundary.  A Java exception is
    [None].  Bytes are given by their unsigned values, [int] and [long] by
    their signed ones; an [AionAddress] is its 32 bytes. *)
From S2P Require Import Prelude Bytes.

Lemma sgn_wrap_small w z : 0 < w -> - 2 ^ (w - 1) <= z < 2 ^ (w - 1) -> sgn w (wrap w z) = z.
Proof.
  intros Hw Hz. pose proof (pow2_half w Hw). unfold sgn, wrap. destruct (Z.ltb_spec 0 0); [lia |].
  destruct (Z_lt_ge_dec z 0).
  - rewrite <- (Z.mod_add z 1), Z.mod_small by lia. bool_cases.
  - rewrite Z.mod_small by lia. bool_cases.
Qed.

(** ** java.math.BigInteger and java.nio.ByteBuffer, as far as they are used *)

Definition bitLength (z : Z) : Z :=
  let m := if z <? 0 then - z - 1 else z in
  if m =? 0 then 0 else Z.log2 m + 1.

(** [BigInteger.toByteArray]: two's complement, big-endian, shortest. *)
Definition toByteArray (z : Z) : list Z := be_bytes (Z.to_nat (bitLength z / 8 + 1)) z.

(** [new BigInteger(1, bytes)]. *)
Definition fromMagnitude (l : list Z) : Z := be_val l.

(** A [ByteBuffer] being written: what is left of its capacity and what has
    been written. *)
Record WBuffer := mkW { remaining : Z; written : list Z }.

Definition allocate (capacity : Z) : option WBuffer :=
  if capacity <? 0 then None else Some (mkW capacity []).

Definition put (l : list Z) (b : WBuffer) : option WBuffer :=
  if Z.of_nat (length l) <=? remaining b
  then Some (mkW (remaining b - Z.of_nat (length l)) (written b ++ l)) else None.
Definition putInt (n : Z) : WBuffer -> option WBuffer := put (be_bytes 4 n).
Definition putLong (n : Z) : WBuffer -> option WBuffer := put (be_bytes 8 n).

(** The backing array is zero where nothing has been written. *)
Definition array (b : WBuffer) : list Z := written b ++ replicate (Z.to_nat (remaining b)) 0.

(** Reading: the bytes that are left. *)
Definition get (n : Z) (b : list Z) : option (list Z * list Z) :=
  if (0 <=? n) && (n <=? Z.of_nat (length b)) then Some (take (Z.to_nat n) b, drop (Z.to_nat n) b) else None.
Definition getInt (b : list Z) : option (Z * list Z) :=
  '(l, b) ← get 4 b; Some (sgn 32 (be_val l), b).
Definition getLong (b : list Z) : option (Z * list Z) :=
  '(l, b) ← get 8 b; Some (sgn 64 (be_val l), b).

(** ** FvmDataWord *)
Module FvmDataWord.
Abbreviation SIZE := (16%nat).

Definition rightPadBytesWithZeroes (bytes : list Z) : list Z :=
  replicate (SIZE - length bytes) 0 ++ bytes.

(** The constructor. *)
Definition fromBytes (bytes : list Z) : option (list Z) :=
  if (length bytes =? SIZE)%nat then Some bytes
  else if (length bytes <? SIZE)%nat then Some (rightPadBytesWithZeroes bytes)
  else None.

Definition removeLargeBigIntegerLeadingZeroByte (number : Z) : list Z :=
  let bytes := toByteArray number in
  match bytes with
  | 0 :: rest => if (length bytes =? SIZE + 1)%nat then rest else bytes
  | _ => bytes
  end.

Definition fromBigInteger (n : Z) : option (list Z) :=
  fromBytes (removeLargeBigIntegerLeadingZeroByte n).

Abbreviation fromLong n := (fromBytes (replicate 8 0 ++ be_bytes 8 n)).
Definition fromInt (n : Z) : option (list Z) := fromBytes (replicate 12 0 ++ be_bytes 4 n).

Definition toBigInteger (data : list Z) : Z := fromMagnitude data.
Definition toLong (data : list Z) : Z := sgn 64 (be_val (drop 8 data)).
Definition toInt (data : list Z) : Z := sgn 32 (be_val (drop 12 data)).

(** A number that fits [k] bytes has zeros in front when written in more. *)
Lemma be_bytes_pad k m n :
  (k <= m)%nat -> 0 <= n < 2 ^ (8 * Z.of_nat k) -> be_bytes m n = replicate (m - k) 0 ++ be_bytes k n.
Proof.
  intros Hk Hn.
  assert (E : be_val (replicate (m - k) 0 ++ be_bytes k n) = n).
  { rewrite be_val_app, be_val_zeros, be_val_be_bytes. apply Z.mod_small. lia. }
  rewrite <- E at 1.
  replace m with (length (replicate (m - k) 0 ++ be_bytes k n)) at 1
    by (rewrite length_app, length_replicate, length_be_bytes; lia).
  apply be_bytes_be_val. apply Forall_app_2; [| apply be_bytes_ok]. apply Forall_replicate. done.
Qed.

Lemma bitLength_le n j : 0 <= n -> 0 <= j -> bitLength n <= j <-> n < 2 ^ j.
Proof.
  intros Hn Hj. unfold bitLength. rewrite (proj2 (Z.ltb_ge _ _)) by lia.
  destruct (Z.eqb_spec n 0) as [-> | Hz]; [pose proof (pow2_pos j); lia |].
  rewrite (Z.log2_lt_pow2 n j) by lia. lia.
Qed.

(** [toByteArray] has room for the sign bit, and not a byte more. *)
Lemma length_toByteArray n m :
  0 <= n -> (0 < m)%nat -> (length (toByteArray n) <= m)%nat <-> n < 2 ^ (8 * Z.of_nat m - 1).
Proof.
  intros Hn Hm. unfold toByteArray. rewrite length_be_bytes, <- bitLength_le by lia.
  assert (0 <= bitLength n) by (unfold bitLength; repeat case_match; pose proof (Z.log2_nonneg n);
    pose proof (Z.log2_nonneg (- n - 1)); lia).
  pose proof (Z.div_mod (bitLength n) 8). pose proof (Z.mod_pos_bound (bitLength n) 8). lia.
Qed.

Lemma toByteArray_fits n : 0 <= n -> 0 <= n < 2 ^ (8 * Z.of_nat (length (toByteArray n))).
Proof.
  intros Hn. set (m := length (toByteArray n)).
  assert (Hm : (0 < m)%nat).
  { unfold m, toByteArray. rewrite length_be_bytes.
    pose proof (Z.div_pos (bitLength n) 8). unfold bitLength in *. repeat case_match; pose proof (Z.log2_nonneg n); lia. }
  split; [done |]. eapply Z.lt_trans; [apply (length_toByteArray n m Hn Hm); done |].
  apply Z.pow_lt_mono_r; lia.
Qed.

Lemma toByteArray_pad n m :
  0 <= n -> (length (toByteArray n) <= m)%nat ->
  be_bytes m n = replicate (m - length (toByteArray n)) 0 ++ toByteArray n.
Proof.
  intros Hn Hm. rewrite (be_bytes_pad _ m n Hm (toByteArray_fits n Hn)). f_equal.
  unfold toByteArray. by rewrite length_be_bytes.
Qed.

Lemma fromBytes_short l : (length l <= 16)%nat -> fromBytes l = Some (replicate (16 - length l) 0 ++ l).
Proof.
  intros Hl. unfold fromBytes, rightPadBytesWithZeroes.
  destruct (Nat.eqb_spec (length l) 16) as [E | ?]; [by rewrite E |]. by rewrite (proj2 (Nat.ltb_lt _ _)) by lia.
Qed.
Lemma fromBytes_long l : (16 < length l)%nat -> fromBytes l = None.
Proof.
  intros Hl. unfold fromBytes. by rewrite (proj2 (Nat.eqb_neq _ _)), (proj2 (Nat.ltb_ge _ _)) by lia.
Qed.

(** The leading zero is dropped exactly from the numbers of 128 bits. *)
Lemma removeLarge_spec n :
  0 <= n -> removeLargeBigIntegerLeadingZeroByte n =
            if (2 ^ 127 <=? n) && (n <? 2 ^ 128) then be_bytes 16 n else toByteArray n.
Proof.
  intros Hn. unfold removeLargeBigIntegerLeadingZeroByte.
  pose proof (length_toByteArray n 16 Hn) as H16. pose proof (length_toByteArray n 17 Hn) as H17.
  change (8 * Z.of_nat 16 - 1) with 127 in H16. change (8 * Z.of_nat 17 - 1) with 135 in H17.
  destruct (Nat.eqb_spec (length (toByteArray n)) (SIZE + 1)) as [E | E].
  - assert (Hr : 2 ^ 127 <= n < 2 ^ 135) by lia.
    pose proof (toByteArray_pad n 17 Hn ltac:(lia)) as P. rewrite E in P. change (be_bytes 17 n = toByteArray n) in P.
    destruct (Z.ltb_spec n (2 ^ 128)) as [Hlt | Hge].
    + rewrite <- P, (be_bytes_pad 16 17 n) by (lia || exact (conj Hn Hlt)).
      rewrite (proj2 (Z.leb_le _ _)) by lia. done.
    + rewrite andb_false_r. rewrite <- P. destruct (be_bytes 17 n) as [| [] l] eqn:B; try done. exfalso.
      assert (Hx : be_bytes 17 n !! 0%nat = Some 0) by by rewrite B.
      rewrite be_bytes_lookup in Hx by lia.
      assert (Hmod : n / 2 ^ 128 mod 256 = 0) by by injection Hx.
      pose proof (Z.div_le_lower_bound n (2 ^ 128) 1 ltac:(lia) ltac:(lia)).
      pose proof (Z.div_lt_upper_bound n (2 ^ 128) 256 ltac:(lia) ltac:(lia)). rewrite Z.mod_small in Hmod by lia. lia.
  - assert ((2 ^ 127 <=? n) && (n <? 2 ^ 128) = false) as -> by bool_cases.
    by destruct (toByteArray n) as [| [] ?].
Qed.

(** The words are exactly the numbers below [2 ^ 128], in big-endian order. *)
Lemma fromBigInteger_spec n :
  0 <= n -> fromBigInteger n = if n <? 2 ^ 128 then Some (be_bytes 16 n) else None.
Proof.
  intros Hn. unfold fromBigInteger. rewrite (removeLarge_spec n Hn).
  pose proof (length_toByteArray n 16 Hn) as H16. change (8 * Z.of_nat 16 - 1) with 127 in H16.
  destruct (Z.leb_spec (2 ^ 127) n); destruct (Z.ltb_spec n (2 ^ 128)); cbn [andb].
  - by rewrite fromBytes_short, length_be_bytes by (rewrite length_be_bytes; lia).
  - apply fromBytes_long. lia.
  - rewrite fromBytes_short by lia. f_equal. symmetry. apply toByteArray_pad; lia.
  - lia.
Qed.

Lemma fromBigInteger_word l :
  length l = 16%nat -> bytes_ok l -> fromBigInteger (be_val l) = Some l.
Proof.
  intros Hl Hok. pose proof (be_val_range l Hok) as Hr. rewrite Hl in Hr.
  rewrite fromBigInteger_spec by lia. rewrite (proj2 (Z.ltb_lt _ _)) by lia. f_equal.
  rewrite <- Hl. by apply be_bytes_be_val.
Qed.

Lemma fromLong_spec k : fromLong k = Some (replicate 8 0 ++ be_bytes 8 k).
Proof. unfold fromBytes. by rewrite length_app, length_be_bytes. Qed.
End FvmDataWord.

(** ** FastVmResultCode *)
Module FastVmResultCode.
Inductive FastVmResultCode :=
| SUCCESS | INVALID_NONCE | INVALID_NRG_LIMIT | INSUFFICIENT_BALANCE | FAILURE | OUT_OF_NRG
| BAD_INSTRUCTION | BAD_JUMP_DESTINATION | STACK_OVERFLOW | STACK_UNDERFLOW | REVERT
| STATIC_MODE_ERROR | INCOMPATIBLE_CONTRACT_CALL | ABORT | REJECT_DEPLOY | VM_REJECTED
| VM_INTERNAL_ERROR.

#[global] Instance FastVmResultCode_eq_dec : EqDecision FastVmResultCode.
Proof. solve_decision. Defined.

(** [FastVmResultCode.values()]. *)
Definition values : list FastVmResultCode :=
  [SUCCESS; INVALID_NONCE; INVALID_NRG_LIMIT; INSUFFICIENT_BALANCE; FAILURE; OUT_OF_NRG;
   BAD_INSTRUCTION; BAD_JUMP_DESTINATION; STACK_OVERFLOW; STACK_UNDERFLOW; REVERT;
   STATIC_MODE_ERROR; INCOMPATIBLE_CONTRACT_CALL; ABORT; REJECT_DEPLOY; VM_REJECTED;
   VM_INTERNAL_ERROR].

Definition toInt (c : FastVmResultCode) : Z :=
  match c with
  | SUCCESS => 0 | INVALID_NONCE => 101 | INVALID_NRG_LIMIT => 102 | INSUFFICIENT_BALANCE => 103
  | FAILURE => 1 | OUT_OF_NRG => 2 | BAD_INSTRUCTION => 3 | BAD_JUMP_DESTINATION => 4
  | STACK_OVERFLOW => 5 | STACK_UNDERFLOW => 6 | REVERT => 7 | STATIC_MODE_ERROR => 8
  | INCOMPATIBLE_CONTRACT_CALL => 9 | ABORT => 11 | REJECT_DEPLOY => 104 | VM_REJECTED => -1
  | VM_INTERNAL_ERROR => -2
  end.

(** The map from numbers, filled in the order of [values]: the last one wins. *)
Definition fromInt (n : Z) : option FastVmResultCode :=
  foldl (fun r c => if toInt c =? n then Some c else r) None values.

Inductive ResultCategory := CSuccess | CRejected | CFailed | CFatal | CRevert.

Definition category (c : FastVmResultCode) : ResultCategory :=
  match c with
  | SUCCESS => CSuccess
  | INVALID_NONCE | INVALID_NRG_LIMIT | INSUFFICIENT_BALANCE | REJECT_DEPLOY => CRejected
  | REVERT => CRevert
  | VM_REJECTED | VM_INTERNAL_ERROR => CFatal
  | _ => CFailed
  end.

Abbreviation isSuccess c := (match category c with CSuccess => true | _ => false end).
Abbreviation isRejected c := (match category c with CRejected => true | _ => false end).
Abbreviation isFailed c := (match category c with CFailed | CRevert => true | _ => false end).
Abbreviation isFatal c := (match category c with CFatal => true | _ => false end).
Abbreviation isRevert c := (match category c with CRevert => true | _ => false end).

Lemma fromInt_toInt c : fromInt (toInt c) = Some c.
Proof. by destruct c. Qed.

Lemma toInt_fromInt n c : fromInt n = Some c -> toInt c = n.
Proof.
  unfold fromInt, values. cbn [foldl]. intros H.
  repeat (match type of H with (if ?a =? ?b then _ else _) = _ => destruct (Z.eqb_spec a b) end;
          [by simplify_eq |]).
  discriminate.
Qed.
End FastVmResultCode.
Import FastVmResultCode(FastVmResultCode).

(** ** TransactionKind *)
Module TransactionKind.
Inductive TransactionKind := CALL | DELEGATE_CALL | CALLCODE | CREATE.

#[global] Instance TransactionKind_eq_dec : EqDecision TransactionKind.
Proof. solve_decision. Defined.

Definition intValue (k : TransactionKind) : Z :=
  match k with CALL => 0 | DELEGATE_CALL => 1 | CALLCODE => 2 | CREATE => 3 end.

Definition fromInt (n : Z) : option TransactionKind :=
  if n =? 0 then Some CALL else if n =? 1 then Some DELEGATE_CALL
  else if n =? 2 then Some CALLCODE else if n =? 3 then Some CREATE else None.
End TransactionKind.
Import TransactionKind(TransactionKind).

(** ** FastVmTransactionResult *)
Module FastVmTransactionResult.
Record FastVmTransactionResult := mkTxResult {
  code : FastVmResultCode;
  energyRemaining : Z;   (* long *)
  output : list Z
}.

Abbreviation checkNegativeEnergy energy := (Z.max energy 0).

(** The constructor. *)
Definition make (code : FastVmResultCode) (energy : Z) (output : list Z) : FastVmTransactionResult :=
  mkTxResult code (checkNegativeEnergy energy) output.

Definition toBytes (r : FastVmTransactionResult) : option (list Z) :=
  buffer ← allocate (sgn 32 (wrap 32 (4 + 8 + 4 + Z.of_nat (length (output r)))));
  buffer ← putInt (FastVmResultCode.toInt (code r)) buffer;
  buffer ← putLong (energyRemaining r) buffer;
  buffer ← putInt (Z.of_nat (length (output r))) buffer;
  buffer ← put (output r) buffer;
  Some (array buffer).

Definition fromBytes (bytes : list Z) : option FastVmTransactionResult :=
  '(n, bytes) ← getInt bytes;
  code ← FastVmResultCode.fromInt n;
  '(energy, bytes) ← getLong bytes;
  '(outputLength, bytes) ← getInt bytes;
  '(output, _) ← get outputLength bytes;
  Some (make code energy output).

Definition setResultCodeAndEnergyRemaining (c : FastVmResultCode) (e : Z) (r : FastVmTransactionResult) :=
  mkTxResult c e (output r).
Definition setResultCode (c : FastVmResultCode) (r : FastVmTransactionResult) :=
  mkTxResult c (energyRemaining r) (output r).
Abbreviation setEnergyRemaining e r := (mkTxResult (code r) e (output r)).
Abbreviation setReturnData out r := (mkTxResult (code r) (energyRemaining r) out).
End FastVmTransactionResult.
Import FastVmTransactionResult(FastVmTransactionResult, mkTxResult).

(** A data word holds exactly the numbers below [2 ^ 128]: conversion from
    a big integer fails exactly on larger ones and otherwise gives the number
    back; longs come back; and shorter byte arrays are filled up with zeros on
    the left, so that they keep their value as numbers. *)
Theorem data_word_roundtrip n k bytes :
  0 <= n -> - 2 ^ 63 <= k < 2 ^ 63 -> (length bytes <= 16)%nat ->
  (FvmDataWord.fromBigInteger n = None <-> 2 ^ 128 <= n) /\
  (forall w, FvmDataWord.fromBigInteger n = Some w ->
     length w = 16%nat /\ FvmDataWord.toBigInteger w = n) /\
  option_map FvmDataWord.toLong (FvmDataWord.fromLong k) = Some k /\
  option_map FvmDataWord.toBigInteger (FvmDataWord.fromBytes bytes) = Some (be_val bytes).
Proof.
  intros Hn Hk Hb. rewrite (FvmDataWord.fromBigInteger_spec n Hn).
  split; [destruct (Z.ltb_spec n (2 ^ 128)); split; (done || lia) |].
  split; [| split].
  - intros w. destruct (Z.ltb_spec n (2 ^ 128)); intros [= <-]. split; [apply length_be_bytes |].
    unfold FvmDataWord.toBigInteger, fromMagnitude. rewrite be_val_be_bytes. by apply Z.mod_small.
  - rewrite FvmDataWord.fromLong_spec. cbn [option_map]. f_equal. unfold FvmDataWord.toLong.
    rewrite drop_app_length' by done. rewrite be_val_be_bytes. by apply sgn_wrap_small.
  - rewrite FvmDataWord.fromBytes_short by done. cbn [option_map]. f_equal.
    unfold FvmDataWord.toBigInteger, fromMagnitude. by rewrite be_val_app, be_val_zeros.
Qed.

Lemma data_word_roundtrip_witness :
  option_map FvmDataWord.toBigInteger (FvmDataWord.fromBytes [1; 2]) = Some 258.
Proof.
  destruct (data_word_roundtrip (2 ^ 127) (-1) [1; 2]) as (_ & _ & _ & H); [lia | lia | vm_compute; lia |].
  exact H.
Defined.
