(* ===== verification/SideEffects.v ===== *)
(** * Side effects

    modFastVM/src/org/aion/fastvm/SideEffects.java: the logs, internal
    transactions and deleted accounts that an execution collects.  [Log] and
    [InternalTransaction] are value classes of the aion-types library; the
    equality that [List.remove] uses on them is an argument. *)
From stdpp Require Import gmap.
From S2P Require Import Prelude Bytes.

(** [org.aion.types.Log]. *)
Record Log := mkLog { log_address : list Z; log_topics : list (list Z); log_data : list Z }.

(** [org.aion.types.InternalTransaction]: [destination] is [None] for a
    contract creation. *)
Record InternalTransaction := mkInternal {
  rejected : bool;
  tx_sender : list Z;
  tx_destination : option (list Z);
  senderNonce : Z;
  tx_value : Z;
  tx_data : list Z;
  energyLimit : Z;
  energyPrice : Z
}.

Definition isCreateTx (t : InternalTransaction) : bool := bool_decide (tx_destination t = None).

Definition contractCallTransaction rej sender dest nonce value data limit price : InternalTransaction :=
  mkInternal rej sender (Some dest) nonce value data limit price.
Definition contractCreateTransaction rej sender nonce value data limit price : InternalTransaction :=
  mkInternal rej sender None nonce value data limit price.

Module SideEffects.
Record SideEffects := mkEffects {
  deleteAccounts : gset (list Z);
  internalTxs : list InternalTransaction;
  logs : list Log
}.

Definition new : SideEffects := mkEffects ∅ [] [].

Definition addToDeletedAddresses (a : list Z) (e : SideEffects) : SideEffects :=
  mkEffects ({[a]} ∪ deleteAccounts e) (internalTxs e) (logs e).

Definition addAllToDeletedAddresses (l : list (list Z)) (e : SideEffects) : SideEffects :=
  foldl (fun e a => addToDeletedAddresses a e) e l.

Definition addLog (l : Log) (e : SideEffects) : SideEffects :=
  mkEffects (deleteAccounts e) (internalTxs e) (logs e ++ [l]).

Definition addLogs (l : list Log) (e : SideEffects) : SideEffects :=
  foldl (fun e x => addLog x e) e l.

Definition addInternalTransaction (t : InternalTransaction) (e : SideEffects) : SideEffects :=
  mkEffects (deleteAccounts e) (internalTxs e ++ [t]) (logs e).

Definition addInternalTransactions (l : list InternalTransaction) (e : SideEffects) : SideEffects :=
  foldl (fun e t => addInternalTransaction t e) e l.

Definition copyTransactionAsRejected (t : InternalTransaction) : InternalTransaction :=
  match tx_destination t with
  | None => contractCreateTransaction true (tx_sender t) (senderNonce t) (tx_value t) (tx_data t)
              (energyLimit t) (energyPrice t)
  | Some d => contractCallTransaction true (tx_sender t) d (senderNonce t) (tx_value t) (tx_data t)
                (energyLimit t) (energyPrice t)
  end.

Definition copyAllTransactionsAsRejected (l : list InternalTransaction) : list InternalTransaction :=
  map copyTransactionAsRejected l.

Definition markAllInternalTransactionsAsRejected (e : SideEffects) : SideEffects :=
  mkEffects (deleteAccounts e) (copyAllTransactionsAsRejected (internalTxs e)) (logs e).

Definition getAddressesToBeDeleted (e : SideEffects) : list (list Z) := elements (deleteAccounts e).

Definition merge (other e : SideEffects) : SideEffects :=
  let e := addInternalTransactions (internalTxs other) e in
  let e := addAllToDeletedAddresses (getAddressesToBeDeleted other) e in
  addLogs (logs other) e.

Section Equals.
Variable equals : InternalTransaction -> InternalTransaction -> bool.

(** [List.remove(Object)]: the first element that equals the argument goes. *)
Fixpoint remove (t : InternalTransaction) (l : list InternalTransaction) : list InternalTransaction :=
  match l with
  | [] => []
  | x :: l => if equals t x then l else x :: remove t l
  end.

Definition markMostRecentInternalTransactionAsRejected (e : SideEffects) : SideEffects :=
  match last (internalTxs e) with
  | None => e
  | Some toReject =>
      mkEffects (deleteAccounts e)
        (remove toReject (internalTxs e) ++ [copyTransactionAsRejected toReject]) (logs e)
  end.
End Equals.

(** ** Lemmas *)

Lemma addInternalTransactions_txs l e : internalTxs (addInternalTransactions l e) = internalTxs e ++ l.
Proof.
  revert e. induction l as [| t l IH]; intros e; cbn [addInternalTransactions foldl]; [by rewrite app_nil_r |].
  etrans; [apply IH |]. cbn. by rewrite <- app_assoc.
Qed.
Lemma addInternalTransactions_rest l e :
  deleteAccounts (addInternalTransactions l e) = deleteAccounts e /\ logs (addInternalTransactions l e) = logs e.
Proof. revert e. induction l as [| t l IH]; intros e; [done |]. apply (IH (addInternalTransaction t e)). Qed.

Lemma addLogs_logs l e : logs (addLogs l e) = logs e ++ l.
Proof.
  revert e. induction l as [| t l IH]; intros e; cbn [addLogs foldl]; [by rewrite app_nil_r |].
  etrans; [apply IH |]. cbn. by rewrite <- app_assoc.
Qed.
Lemma addLogs_rest l e :
  deleteAccounts (addLogs l e) = deleteAccounts e /\ internalTxs (addLogs l e) = internalTxs e.
Proof. revert e. induction l as [| t l IH]; intros e; [done |]. apply (IH (addLog t e)). Qed.

Lemma addAllToDeleted_accounts l e :
  deleteAccounts (addAllToDeletedAddresses l e) = list_to_set l ∪ deleteAccounts e.
Proof.
  revert e. induction l as [| t l IH]; intros e; cbn [addAllToDeletedAddresses foldl]; [set_solver |].
  etrans; [apply IH |]. cbn. set_solver.
Qed.
Lemma addAllToDeleted_rest l e :
  internalTxs (addAllToDeletedAddresses l e) = internalTxs e /\ logs (addAllToDeletedAddresses l e) = logs e.
Proof. revert e. induction l as [| t l IH]; intros e; [done |]. apply (IH (addToDeletedAddresses t e)). Qed.

(** Merging appends the transactions and the logs and unites the accounts. *)
Lemma merge_spec other e :
  merge other e = mkEffects (deleteAccounts other ∪ deleteAccounts e)
                    (internalTxs e ++ internalTxs other) (logs e ++ logs other).
Proof.
  unfold merge, getAddressesToBeDeleted.
  set (e1 := addInternalTransactions _ _). set (e2 := addAllToDeletedAddresses _ _).
  assert (E : forall x, x = mkEffects (deleteAccounts x) (internalTxs x) (logs x)) by by intros [].
  rewrite (E (addLogs _ _)), addLogs_logs.
  destruct (addLogs_rest (logs other) e2) as [-> ->]. unfold e2. rewrite addAllToDeleted_accounts.
  destruct (addAllToDeleted_rest (elements (deleteAccounts other)) e1) as [-> ->]. unfold e1.
  destruct (addInternalTransactions_rest (internalTxs other) e) as [-> ->].
  by rewrite addInternalTransactions_txs, list_to_set_elements_L.
Qed.

Lemma copyTransactionAsRejected_rejected t : rejected (copyTransactionAsRejected t) = true.
Proof. unfold copyTransactionAsRejected. by destruct (tx_destination t). Qed.

(** Removing the last transaction when none before it equals it. *)
Lemma remove_last equals l t :
  equals t t = true -> Forall (fun x => equals t x = false) l -> remove equals t (l ++ [t]) = l.
Proof.
  intros Ht. induction 1 as [| x l Hx Hl IH]; cbn; [by rewrite Ht |]. by rewrite Hx, IH.
Qed.

(** In general an equal one goes, so the rest is the same up to the order. *)
Lemma remove_perm equals l t :
  equals t t = true -> (forall x, equals t x = true -> x = t) -> t ∈ l -> l ≡ₚ t :: remove equals t l.
Proof.
  intros Ht Heq. induction l as [| x l IH]; intros Hin; [by apply not_elem_of_nil in Hin |]. cbn.
  destruct (equals t x) eqn:Ex; [by rewrite (Heq _ Ex) |].
  apply elem_of_cons in Hin as [-> | Hin]; [congruence |].
  rewrite (IH Hin) at 1. constructor.
Qed.
End SideEffects.
