(* ===== verification/ExecutionContext.v ===== *)
(** * Execution contexts

    modFastVM/src/org/aion/fastvm/ExecutionContext.java: the context of an
    execution on the Java side and its encoding, which the native library
    parses; Callback.parseMessage: the context of a nested call, from the
    message the native library encodes. *)
From S2P Require Import Prelude Bytes JavaData SideEffects.

Import TransactionKind(TransactionKind) SideEffects(SideEffects).

Module ExecutionContext.
Record ExecutionContext := mkContext {
  isCreate : bool;
  txHash : list Z;
  address : list Z;
  contractAddress : option (list Z);
  origin : list Z;
  sender : list Z;
  nrgPrice : list Z;          (* 16 bytes *)
  nrg : Z;                    (* long *)
  callValue : list Z;         (* 16 bytes *)
  callData : list Z;
  depth : Z;                  (* int *)
  kind : TransactionKind;
  flags : Z;                  (* int *)
  blockCoinbase : list Z;
  blockNumber : Z;
  blockTimestamp : Z;
  blockNrgLimit : Z;
  blockDifficulty : list Z;   (* 16 bytes *)
  sideEffects : SideEffects
}.

(** [from]: the arguments are not null, a contract address is never given. *)
Definition from (transactionHash destination origin sender : list Z) (energyPrice energy value : Z)
  (data : list Z) (depth : Z) (kind : TransactionKind) (flags : Z) (miner : list Z)
  (blockNumber blockTimestamp blockEnergyLimit : Z) (blockDifficulty : list Z) : option ExecutionContext :=
  price ← FvmDataWord.fromLong energyPrice;
  value ← FvmDataWord.fromBigInteger value;
  Some (mkContext (bool_decide (kind = TransactionKind.CREATE)) transactionHash destination None origin sender
          price energy value data depth kind flags miner blockNumber blockTimestamp blockEnergyLimit
          blockDifficulty SideEffects.new).

Definition set_callData (d : list Z) (c : ExecutionContext) : ExecutionContext :=
  mkContext (isCreate c) (txHash c) (address c) (contractAddress c) (origin c) (sender c) (nrgPrice c) (nrg c)
    (callValue c) d (depth c) (kind c) (flags c) (blockCoinbase c) (blockNumber c) (blockTimestamp c)
    (blockNrgLimit c) (blockDifficulty c) (sideEffects c).
Definition set_effects (e : SideEffects) (c : ExecutionContext) : ExecutionContext :=
  mkContext (isCreate c) (txHash c) (address c) (contractAddress c) (origin c) (sender c) (nrgPrice c) (nrg c)
    (callValue c) (callData c) (depth c) (kind c) (flags c) (blockCoinbase c) (blockNumber c) (blockTimestamp c)
    (blockNrgLimit c) (blockDifficulty c) e.
Abbreviation setDestinationAddress a c := (mkContext (isCreate c) (txHash c) a (contractAddress c) (origin c) (sender c) (nrgPrice c) (nrg c)
    (callValue c) (callData c) (depth c) (kind c) (flags c) (blockCoinbase c) (blockNumber c) (blockTimestamp c)
    (blockNrgLimit c) (blockDifficulty c) (sideEffects c)).

Abbreviation getTransferValue c := (FvmDataWord.toBigInteger (callValue c)).
Abbreviation getTransactionEnergyPrice c := (FvmDataWord.toLong (nrgPrice c)).

Definition ENCODE_BASE_LEN : Z := 32 * 4 + 16 * 3 + 8 * 4 + 4 * 4.

Definition getEncodingLength (c : ExecutionContext) : Z :=
  sgn 32 (wrap 32 (ENCODE_BASE_LEN + Z.of_nat (length (callData c)))).

(** [toBytes] drops the call data of a creation from the context itself. *)
Definition forget_data (c : ExecutionContext) : ExecutionContext :=
  if isCreate c then set_callData [] c else c.

Definition toBytes (c : ExecutionContext) : option (list Z * ExecutionContext) :=
  let c := forget_data c in
  buffer ← allocate (getEncodingLength c);
  buffer ← put (address c) buffer;
  buffer ← put (origin c) buffer;
  buffer ← put (sender c) buffer;
  buffer ← put (nrgPrice c) buffer;
  buffer ← putLong (nrg c) buffer;
  buffer ← put (callValue c) buffer;
  buffer ← putInt (Z.of_nat (length (callData c))) buffer;
  buffer ← put (callData c) buffer;
  buffer ← putInt (depth c) buffer;
  buffer ← putInt (TransactionKind.intValue (kind c)) buffer;
  buffer ← putInt (flags c) buffer;
  buffer ← put (blockCoinbase c) buffer;
  buffer ← putLong (blockNumber c) buffer;
  buffer ← putLong (blockTimestamp c) buffer;
  buffer ← putLong (blockNrgLimit c) buffer;
  buffer ← put (blockDifficulty c) buffer;
  Some (array buffer, c).

(** A context as the Java types have it. *)
Record context_ok (c : ExecutionContext) : Prop := {
  ok_address : length (address c) = 32%nat /\ bytes_ok (address c);
  ok_origin : length (origin c) = 32%nat /\ bytes_ok (origin c);
  ok_sender : length (sender c) = 32%nat /\ bytes_ok (sender c);
  ok_price : length (nrgPrice c) = 16%nat /\ bytes_ok (nrgPrice c);
  ok_nrg : - 2 ^ 63 <= nrg c < 2 ^ 63;
  ok_value : length (callValue c) = 16%nat /\ bytes_ok (callValue c);
  ok_data : bytes_ok (callData c) /\ Z.of_nat (length (callData c)) < 2 ^ 31 - ENCODE_BASE_LEN;
  ok_depth : - 2 ^ 31 <= depth c < 2 ^ 31;
  ok_flags : - 2 ^ 31 <= flags c < 2 ^ 31;
  ok_coinbase : length (blockCoinbase c) = 32%nat /\ bytes_ok (blockCoinbase c);
  ok_number : - 2 ^ 63 <= blockNumber c < 2 ^ 63;
  ok_timestamp : - 2 ^ 63 <= blockTimestamp c < 2 ^ 63;
  ok_limit : - 2 ^ 63 <= blockNrgLimit c < 2 ^ 63;
  ok_difficulty : length (blockDifficulty c) = 16%nat /\ bytes_ok (blockDifficulty c)
}.
End ExecutionContext.
Import ExecutionContext(ExecutionContext).

(** [Callback.parseMessage], with [prev] the context of the caller. *)
Definition parseMessage (prev : ExecutionContext) (message : list Z) : option ExecutionContext :=
  '(address, message) ← get 32 message;
  '(caller, message) ← get 32 message;
  '(nrgLimit, message) ← getLong message;
  '(buf, message) ← get 16 message;
  let callValue := fromMagnitude buf in
  '(n, message) ← getInt message;
  '(callData, message) ← get n message;
  '(depth, message) ← getInt message;
  '(k, message) ← getInt message;
  kind ← TransactionKind.fromInt k;
  '(flags, message) ← getInt message;
  ExecutionContext.from (ExecutionContext.txHash prev) address (ExecutionContext.origin prev) caller
    (ExecutionContext.getTransactionEnergyPrice prev) nrgLimit callValue callData depth kind flags
    (ExecutionContext.blockCoinbase prev) (ExecutionContext.blockNumber prev) (ExecutionContext.blockTimestamp prev)
    (ExecutionContext.blockNrgLimit prev) (ExecutionContext.blockDifficulty prev).

(** A call with no data. *)
Definition null_context (nrg : Z) : ExecutionContext :=
  ExecutionContext.mkContext false [] (replicate 32 0) None (replicate 32 0) (replicate 32 0) (replicate 16 0) nrg (replicate 16 0)
    [] 0 TransactionKind.CALL 0 (replicate 32 0) 1 2 3 (replicate 16 0) SideEffects.new.

Lemma null_context_ok nrg : 0 <= nrg < 2 ^ 63 -> ExecutionContext.context_ok (null_context nrg).
Proof. intros. split; cbn -[replicate]; try (split; [done | by apply Forall_replicate]); try lia. split; [done | unfold ExecutionContext.ENCODE_BASE_LEN; simpl; lia]. Qed.
