(* ===== verification/Jni.v ===== *)
(** * The JNI library: codecs

    jni/org_aion_fastvm_FastVM.cpp: numbers in byte arrays, the parsing of
    execution contexts and call results, the encoding of messages and results.
    A read or write outside of an array, an uninitialised byte that is used
    and a call kind without an enumerator are undefined behaviour, [None].
    The theorems relate the two sides of the boundary: what one side encodes
    the other parses. *)
From S2P Require Import Prelude Bytes EvmAbi JavaData SideEffects ExecutionContext.

(** ** Reading *)

(** [memcpy] out of an array. *)
Definition memcpy_from (b : list Z) (offset n : Z) : option (list Z) :=
  if (0 <=? offset) && (0 <=? n) && (offset + n <=? Z.of_nat (length b))
  then Some (take (Z.to_nat n) (drop (Z.to_nat offset) b)) else None.

(** The loop of [read_int] and [read_long]: [w] bits, from byte [i] on. *)
Fixpoint read_loop (w : Z) (n : nat) (b : list Z) (offset : Z) (ret : Z) : option Z :=
  match n with
  | 0%nat => Some ret
  | S n =>
      x ← memcpy_from b offset 1;
      read_loop w n b (offset + 1) (wrap w (wrap w (Z.shiftl ret 8) + Z.land (be_val x) 255))
  end.
Definition read_int (b : list Z) (offset : Z) : option Z := read_loop 32 4 b offset 0.
Definition read_long (b : list Z) (offset : Z) : option Z := read_loop 64 8 b offset 0.

Definition call_kind_of (n : Z) : option evm_call_kind :=
  if n =? 0 then Some EVM_CALL else if n =? 1 then Some EVM_DELEGATECALL
  else if n =? 2 then Some EVM_CALLCODE else if n =? 3 then Some EVM_CREATE else None.

Definition status_of (n : Z) : evm_status_code :=
  if n =? 0 then EVM_SUCCESS else if n =? 1 then EVM_FAILURE else if n =? 2 then EVM_OUT_OF_GAS
  else if n =? 3 then EVM_BAD_INSTRUCTION else if n =? 4 then EVM_BAD_JUMP_DESTINATION
  else if n =? 5 then EVM_STACK_OVERFLOW else if n =? 6 then EVM_STACK_UNDERFLOW
  else if n =? 7 then EVM_REVERT else if n =? 8 then EVM_STATIC_MODE_ERROR
  else if n =? -1 then EVM_REJECTED else if n =? -2 then EVM_INTERNAL_ERROR else EVM_UNNAMED n.

(** [parse_context]: fills the message and the transaction context in; what it
    does not assign stays as it was.  Offsets are 32-bit numbers. *)
Definition parse_context (b : list Z) (msg : evm_message) (ctx : evm_tx_context)
  : option (evm_message * evm_tx_context) :=
  let address_len := 32 in
  let offset := 0 in
  address ← memcpy_from b offset address_len; let offset := offset + address_len in
  tx_origin ← memcpy_from b offset address_len; let offset := offset + address_len in
  caller ← memcpy_from b offset address_len; let offset := offset + address_len in
  let offset := offset + 16 in
  gas ← read_long b offset; let offset := offset + 8 in
  value ← memcpy_from b offset 16; let offset := offset + 16 in
  input_size ← read_int b offset; let offset := offset + 4 in
  input ← memcpy_from b offset input_size; let offset := wrap 32 (offset + input_size) in
  depth ← read_int b offset; let offset := offset + 4 in
  k ← read_int b offset; let offset := offset + 4 in
  kind ← call_kind_of k;
  flags ← read_int b offset; let offset := offset + 4 in
  block_coinbase ← memcpy_from b offset address_len; let offset := offset + address_len in
  block_number ← read_long b offset; let offset := offset + 8 in
  block_timestamp ← read_long b offset; let offset := offset + 8 in
  block_gas_limit ← read_long b offset; let offset := offset + 8 in
  block_difficulty ← memcpy_from b offset 16;
  Some (mkMessage address caller value input (code_hash msg) (sgn 64 gas) (sgn 32 depth) kind flags,
        mkTxContext (tx_gas_price ctx) tx_origin block_coinbase block_number block_timestamp block_gas_limit
          block_difficulty).

(** [parse_result]. *)
Definition parse_result (p : list Z) : option evm_result :=
  let offset := 0 in
  status_code ← read_int p offset; let offset := offset + 4 in
  gas_left ← read_long p offset; let offset := offset + 8 in
  output_size ← read_int p offset; let offset := offset + 4 in
  buf ← memcpy_from p offset output_size;
  Some (mkResult (status_of (sgn 32 status_code)) (sgn 64 gas_left) buf).

(** ** Writing *)

(** A block from [malloc]: [None] where nothing has been written. *)
Definition malloc (size : Z) : list (option Z) := replicate (Z.to_nat size) None.

Definition store1 (buf : list (option Z)) (offset x : Z) : option (list (option Z)) :=
  if (0 <=? offset) && (offset <? Z.of_nat (length buf))
  then Some (<[Z.to_nat offset := Some x]> buf) else None.

(** [memcpy] into the block. *)
Fixpoint memcpy_to (buf : list (option Z)) (offset : Z) (l : list Z) : option (list (option Z)) :=
  match l with
  | [] => Some buf
  | x :: l => buf ← store1 buf offset x; memcpy_to buf (offset + 1) l
  end.

(** [memcpy] of a whole field of a struct, which has its size. *)
Definition memcpy_field (n : nat) (buf : list (option Z)) (offset : Z) (l : list Z) : option (list (option Z)) :=
  if (length l =? n)%nat then memcpy_to buf offset l else None.

(** The loop of [write_int] and [write_long]: [b[last - i]], from [i] on. *)
Fixpoint write_loop (n : nat) (last i : Z) (buf : list (option Z)) (offset num : Z) : option (list (option Z)) :=
  match n with
  | 0%nat => Some buf
  | S n =>
      buf ← store1 buf (offset + (last - i)) (Z.land (Z.shiftr num (i * 8)) 255);
      write_loop n last (i + 1) buf offset num
  end.
Definition write_int (buf : list (option Z)) (offset num : Z) := write_loop 4 3 0 buf offset (wrap 32 num).
Definition write_long (buf : list (option Z)) (offset num : Z) := write_loop 8 7 0 buf offset (wrap 64 num).

(** [NewByteArray] and [SetByteArrayRegion]: the bytes must be initialised. *)
Definition toByteArray (buf : list (option Z)) : option (list Z) := mapM id buf.

(** [encode_message]: the size is computed in 32 bits. *)
Definition encode_message (msg : evm_message) : option (list Z) :=
  let address_len := 32 in
  let input_size := Z.of_nat (length (input msg)) in
  let size := wrap 32 (address_len + address_len + 8 + 16 + 4 + input_size + 4 + 4 + 4) in
  let buf := malloc size in
  let offset := 0 in
  buf ← memcpy_field 32 buf offset (address msg); let offset := offset + address_len in
  buf ← memcpy_field 32 buf offset (caller msg); let offset := offset + address_len in
  buf ← write_long buf offset (msg_gas msg); let offset := offset + 8 in
  buf ← memcpy_field 16 buf offset (value msg); let offset := offset + 16 in
  buf ← write_int buf offset input_size; let offset := offset + 4 in
  buf ← memcpy_to buf offset (input msg); let offset := wrap 32 (offset + input_size) in
  buf ← write_int buf offset (depth msg); let offset := offset + 4 in
  buf ← write_int buf offset (call_kind_num (kind msg)); let offset := offset + 4 in
  buf ← write_int buf offset (flags msg);
  toByteArray buf.

(** [encode_result]. *)
Definition encode_result (result : evm_result) : option (list Z) :=
  let output_size := Z.of_nat (length (output result)) in
  let size := wrap 32 (4 + 8 + 4 + output_size) in
  let buf := malloc size in
  let offset := 0 in
  buf ← write_int buf offset (status_num (status_code result)); let offset := offset + 4 in
  buf ← write_long buf offset (gas_left result); let offset := offset + 8 in
  buf ← write_int buf offset output_size; let offset := offset + 4 in
  buf ← memcpy_to buf offset (output result);
  toByteArray buf.

(** ** Reading what lies at an offset *)

Definition lies_at (b : list Z) (offset : Z) (rest : list Z) : Prop :=
  exists pre, b = pre ++ rest /\ offset = Z.of_nat (length pre).

Lemma lies_at_start b : lies_at b 0 b.
Proof. by exists []. Qed.

Lemma lies_at_next b offset l rest n :
  lies_at b offset (l ++ rest) -> Z.of_nat (length l) = n -> lies_at b (offset + n) rest.
Proof.
  intros (pre & -> & ->) <-. exists (pre ++ l). split; [by rewrite app_assoc |]. rewrite length_app. lia.
Qed.

Lemma lies_at_bound b offset rest :
  lies_at b offset rest -> 0 <= offset /\ offset + Z.of_nat (length rest) = Z.of_nat (length b).
Proof. intros (pre & -> & ->). rewrite length_app. lia. Qed.

Lemma memcpy_from_at b offset l rest n :
  lies_at b offset (l ++ rest) -> Z.of_nat (length l) = n -> memcpy_from b offset n = Some l.
Proof.
  intros H <-. destruct (lies_at_bound _ _ _ H) as [? Hb]. rewrite length_app in Hb.
  destruct H as (pre & -> & ->). unfold memcpy_from.
  rewrite !(proj2 (Z.leb_le _ _)) by lia. cbn [andb]. f_equal.
  rewrite !Nat2Z.id, drop_app_length. apply take_app_length.
Qed.

Lemma read_loop_at w l b offset rest ret :
  0 <= w -> lies_at b offset (l ++ rest) -> bytes_ok l ->
  read_loop w (length l) b offset (wrap w ret) = Some (wrap w (ret * 2 ^ (8 * Z.of_nat (length l)) + be_val l)).
Proof.
  intros Hw. revert offset ret. induction l as [| x l IH]; intros offset ret Hat Hl; cbn [length read_loop].
  { f_equal. f_equal. cbn. lia. }
  rewrite (memcpy_from_at _ _ [x] (l ++ rest)) by done. cbn [mbind option_bind].
  apply Forall_cons_1 in Hl as [Hx Hl].
  assert (Hn : lies_at b (offset + 1) (l ++ rest)) by by apply (lies_at_next _ _ [x]).
  change (be_val [x]) with (x + 256 * 0). rewrite Z.mul_0_r, Z.add_0_r.
  change 255 with (Z.ones 8). rewrite Z.land_ones, (Z.mod_small x) by (done || lia).
  rewrite Z.shiftl_mul_pow2, wrap_mul_l, wrap_add_l by lia. rewrite (IH _ _ Hn Hl). do 2 f_equal.
  change (x :: l) with ([x] ++ l). rewrite be_val_app. change (be_val [x]) with (x + 256 * 0).
  replace (8 * Z.of_nat (S (length l))) with (8 + 8 * Z.of_nat (length l)) by lia.
  rewrite Z.pow_add_r by lia. ring.
Qed.

Lemma read_at n w l b offset rest :
  w = 8 * Z.of_nat n -> lies_at b offset (l ++ rest) -> length l = n -> bytes_ok l ->
  read_loop w n b offset 0 = Some (be_val l).
Proof.
  intros -> Hat <- Hl.
  pose proof (read_loop_at (8 * Z.of_nat (length l)) l b offset rest 0 ltac:(lia) Hat Hl) as E.
  rewrite (wrap_small _ 0) in E by (pose proof (pow2_pos (8 * Z.of_nat (length l))); unfold inw; lia).
  rewrite E. f_equal. rewrite Z.mul_0_l, Z.add_0_l. apply wrap_small. by apply be_val_range.
Qed.

Lemma read_int_at b offset z rest :
  lies_at b offset (be_bytes 4 z ++ rest) -> read_int b offset = Some (wrap 32 z).
Proof.
  intros H. unfold read_int. erewrite (read_at 4) by (eauto using length_be_bytes, be_bytes_ok).
  by rewrite be_val_be_bytes.
Qed.
Lemma read_long_at b offset z rest :
  lies_at b offset (be_bytes 8 z ++ rest) -> read_long b offset = Some (wrap 64 z).
Proof.
  intros H. unfold read_long. erewrite (read_at 8) by (eauto using length_be_bytes, be_bytes_ok).
  by rewrite be_val_be_bytes.
Qed.

(** ** Writing a block from its front *)

(** [done] is written at the front, [k] bytes are still free. *)
Definition filled (don : list Z) (k : nat) : list (option Z) := map Some don ++ replicate k None.

Lemma store1_app d t j x :
  0 <= j -> store1 (d ++ t) (Z.of_nat (length d) + j) x = t' ← store1 t j x; Some (d ++ t').
Proof.
  intros Hj. unfold store1. rewrite length_app.
  rewrite !(proj2 (Z.leb_le _ _)) by lia. cbn [andb].
  destruct (Z.ltb_spec (Z.of_nat (length d) + j) (Z.of_nat (length d + length t)));
    destruct (Z.ltb_spec j (Z.of_nat (length t))); try lia; [| done].
  cbn [mbind option_bind]. f_equal. rewrite Z2Nat.inj_add, Nat2Z.id by lia.
  rewrite insert_app_r_alt by lia. do 2 f_equal. lia.
Qed.

Lemma memcpy_to_filled l don k :
  (length l <= k)%nat ->
  memcpy_to (filled don k) (Z.of_nat (length don)) l = Some (filled (don ++ l) (k - length l)).
Proof.
  revert don k. induction l as [| x l IH]; intros don k Hk; cbn [memcpy_to length] in *.
  { by rewrite app_nil_r, Nat.sub_0_r. }
  destruct k as [| k]; [lia |]. unfold filled at 1.
  replace (Z.of_nat (length don)) with (Z.of_nat (length (map Some don)) + 0) at 1 by (rewrite length_map; lia).
  rewrite store1_app by lia.
  change (store1 (replicate (S k) None) 0 x) with (Some (Some x :: replicate k None)).
  cbn [mbind option_bind].
  replace (map Some don ++ Some x :: replicate k None) with (filled (don ++ [x]) k)
    by (unfold filled; rewrite map_app, <- app_assoc; done).
  replace (Z.of_nat (length don) + 1) with (Z.of_nat (length (don ++ [x]))) by (rewrite length_app; simpl; lia).
  rewrite IH by lia. by rewrite <- app_assoc.
Qed.

Lemma write_loop_app n last i d t num :
  0 <= i -> i + Z.of_nat n <= last + 1 ->
  write_loop n last i (d ++ t) (Z.of_nat (length d)) num = t' ← write_loop n last i t 0 num; Some (d ++ t').
Proof.
  revert i t. induction n as [| n IH]; intros i t Hi Hn; cbn [write_loop]; [done |].
  rewrite store1_app, Z.add_0_l by lia. destruct (store1 t _ _) as [t' |]; [| done]. cbn [mbind option_bind].
  rewrite IH by lia. done.
Qed.

Lemma byte_shift num i : 0 <= i -> Z.land (Z.shiftr num (i * 8)) 255 = num / 2 ^ (8 * i) mod 256.
Proof.
  intros. change 255 with (Z.ones 8). rewrite Z.land_ones, Z.shiftr_div_pow2 by lia.
  by rewrite (Z.mul_comm i).
Qed.

Lemma store1_in t j x :
  0 <= j < Z.of_nat (length t) -> store1 t j x = Some (<[Z.to_nat j := Some x]> t).
Proof. intros. unfold store1. rewrite (proj2 (Z.leb_le _ _)), (proj2 (Z.ltb_lt _ _)) by lia. done. Qed.

Lemma be_bytes_explicit n z :
  be_bytes n z = map (fun i => z / 2 ^ (8 * Z.of_nat (n - 1 - i)) mod 256) (seq 0 n).
Proof.
  apply list_eq_same_length with n; [by rewrite length_map, length_seq | by rewrite length_be_bytes |].
  intros i x y Hi Hx Hy. rewrite be_bytes_lookup in Hx by done.
  rewrite list_lookup_fmap, lookup_seq_lt in Hy by done. cbn in Hy. congruence.
Qed.

Lemma write_front n rest num :
  (n = 4 \/ n = 8)%nat ->
  write_loop n (Z.of_nat n - 1) 0 (replicate n None ++ rest) 0 num = Some (map Some (be_bytes n num) ++ rest).
Proof.
  intros [-> | ->]; rewrite be_bytes_explicit; cbn [write_loop];
    repeat (rewrite store1_in by (rewrite ?length_insert, ?length_app, ?length_replicate; simpl; lia);
            cbn [mbind option_bind]);
    rewrite !byte_shift by lia; reflexivity.
Qed.

Lemma write_filled n don k num :
  (n = 4 \/ n = 8)%nat -> (n <= k)%nat ->
  write_loop n (Z.of_nat n - 1) 0 (filled don k) (Z.of_nat (length don)) num
  = Some (filled (don ++ be_bytes n num) (k - n)).
Proof.
  intros Hn Hk. unfold filled at 1.
  rewrite <- (length_map Some don), write_loop_app by lia.
  replace k with (n + (k - n))%nat at 1 by lia. rewrite replicate_add, write_front by done.
  cbn [mbind option_bind]. unfold filled. by rewrite map_app, <- app_assoc.
Qed.

Lemma be_bytes_wrap n z : be_bytes n (wrap (8 * Z.of_nat n) z) = be_bytes n z.
Proof.
  apply (f_equal (@reverse Z)). unfold wrap.
  rewrite <- le_val_le_bytes. rewrite <- (length_le_bytes n z) at 1. apply le_bytes_le_val, le_bytes_ok.
Qed.

Lemma write_int_filled don k num :
  (4 <= k)%nat -> write_int (filled don k) (Z.of_nat (length don)) num = Some (filled (don ++ be_bytes 4 num) (k - 4)).
Proof.
  intros. unfold write_int. rewrite (write_filled 4) by auto. by rewrite (be_bytes_wrap 4).
Qed.
Lemma write_long_filled don k num :
  (8 <= k)%nat -> write_long (filled don k) (Z.of_nat (length don)) num = Some (filled (don ++ be_bytes 8 num) (k - 8)).
Proof.
  intros. unfold write_long. rewrite (write_filled 8) by auto. by rewrite (be_bytes_wrap 8).
Qed.

Lemma toByteArray_filled don : toByteArray (filled don 0) = Some don.
Proof.
  unfold filled, toByteArray. rewrite app_nil_r.
  induction don as [| x don IH]; [done |]. cbn. by rewrite IH.
Qed.

(** ** The formats *)

Definition message_bytes (m : evm_message) : list Z :=
  address m ++ caller m ++ be_bytes 8 (msg_gas m) ++ value m ++ be_bytes 4 (Z.of_nat (length (input m))) ++
  input m ++ be_bytes 4 (depth m) ++ be_bytes 4 (call_kind_num (kind m)) ++ be_bytes 4 (flags m).

Definition result_bytes (status gas : Z) (out : list Z) : list Z :=
  be_bytes 4 status ++ be_bytes 8 gas ++ be_bytes 4 (Z.of_nat (length out)) ++ out.

Module C := ExecutionContext.
Import C(ExecutionContext).
Definition context_bytes (c : ExecutionContext) : list Z :=
  C.address c ++ C.origin c ++ C.sender c ++ C.nrgPrice c ++ be_bytes 8 (C.nrg c) ++ C.callValue c ++
  be_bytes 4 (Z.of_nat (length (C.callData c))) ++ C.callData c ++ be_bytes 4 (C.depth c) ++
  be_bytes 4 (TransactionKind.intValue (C.kind c)) ++ be_bytes 4 (C.flags c) ++ C.blockCoinbase c ++
  be_bytes 8 (C.blockNumber c) ++ be_bytes 8 (C.blockTimestamp c) ++ be_bytes 8 (C.blockNrgLimit c) ++
  C.blockDifficulty c.

Ltac lengths := rewrite ?length_app, ?length_be_bytes; simpl length; lia.

(** One write of an encoder: the offset is the number of bytes written. *)
Ltac at_length d o :=
  lazymatch o with Z.of_nat (length d) => idtac | _ => replace o with (Z.of_nat (length d)) by lengths end.
Ltac write_step :=
  lazymatch goal with
  | |- context [memcpy_to (filled ?d _) ?o _] => at_length d o; rewrite memcpy_to_filled by lengths
  | |- context [write_long (filled ?d _) ?o _] => at_length d o; rewrite write_long_filled by lengths
  | |- context [write_int (filled ?d _) ?o _] => at_length d o; rewrite write_int_filled by lengths
  end; cbn [mbind option_bind].

Definition struct_ok (m : evm_message) : Prop :=
  length (address m) = 32%nat /\ length (caller m) = 32%nat /\ length (EvmAbi.value m) = 16%nat.

Lemma encode_struct m :
  struct_ok m -> Z.of_nat (length (input m)) < 2 ^ 32 - 104 -> encode_message m = Some (message_bytes m).
Proof.
  intros (Ha & Hc & Hv) Hi. unfold encode_message, memcpy_field. rewrite Ha, Hc, Hv, !Nat.eqb_refl.
  set (n := length (input m)) in *. rewrite !(wrap_small 32) by (unfold inw; lia).
  unfold malloc. change (replicate ?k None) with (filled [] k).
  replace (Z.to_nat _) with (104 + n)%nat by lia.
  repeat write_step. replace (_ - _)%nat with 0%nat by lengths.
  rewrite toByteArray_filled. unfold message_bytes. by rewrite <- !app_assoc.
Qed.
Lemma encode_message_bytes m :
  message_ok m -> Z.of_nat (length (input m)) < 2 ^ 32 - 104 -> encode_message m = Some (message_bytes m).
Proof. intros [[Ha _] [Hc _] [Hv _] _ _]. by apply encode_struct. Qed.

Lemma memcpy_to_bounds buf o l buf' : memcpy_to buf o l = Some buf' ->
  length buf' = length buf /\ (l = [] \/ o + Z.of_nat (length l) <= Z.of_nat (length buf)).
Proof.
  revert buf o. induction l as [| x l IH]; intros buf o; cbn [memcpy_to]; [intros [= <-]; auto |]. unfold store1.
  destruct (Z.leb_spec 0 o), (Z.ltb_spec o (Z.of_nat (length buf))); cbn; try done.
  intros [Hl Hb]%IH. rewrite length_insert in Hl, Hb. split; [done |]. right. destruct Hb as [-> | Hb]; cbn; lia.
Qed.
Lemma write_loop_length n last i buf o z buf' : write_loop n last i buf o z = Some buf' -> length buf' = length buf.
Proof.
  revert i buf. induction n as [| n IH]; intros i buf; cbn [write_loop]; [by intros [= <-] |]. unfold store1.
  destruct (_ && _); cbn; [| done]. intros ->%IH. by rewrite length_insert.
Qed.

(** What was encoded is a message. *)
Lemma encode_message_inv m b : encode_message m = Some b ->
  struct_ok m /\ Z.of_nat (length (input m)) < 2 ^ 32 - 104 /\ b = message_bytes m.
Proof.
  intros He. assert (struct_ok m /\ Z.of_nat (length (input m)) < 2 ^ 32 - 104) as [Hs Hi].
  { unfold encode_message, memcpy_field in He. set (n := Z.of_nat (length (input m))) in *. set (size := wrap 32 (32 + 32 + 8 + 16 + 4 + n + 4 + 4 + 4)) in He.
    destruct (Nat.eqb_spec (length (address m)) 32) as [Ha |]; [| done].
    apply bind_Some in He as (b1 & [H1 _]%memcpy_to_bounds & He).
    destruct (Nat.eqb_spec (length (caller m)) 32) as [Hc |]; [| done].
    apply bind_Some in He as (b2 & [H2 _]%memcpy_to_bounds & He). apply bind_Some in He as (b3 & H3%write_loop_length & He).
    destruct (Nat.eqb_spec (length (EvmAbi.value m)) 16) as [Hv |]; [| done].
    apply bind_Some in He as (b4 & [H4 _]%memcpy_to_bounds & He). apply bind_Some in He as (b5 & H5%write_loop_length & He).
    apply bind_Some in He as (b6 & [_ H6]%memcpy_to_bounds & _). split; [done |].
    assert (Z.of_nat (length b5) = size) as Hb5.
    { rewrite H5, H4, H3, H2, H1. unfold malloc. rewrite length_replicate. pose proof (wrap_inw 32 (32 + 32 + 8 + 16 + 4 + n + 4 + 4 + 4) ltac:(lia)) as Hw. fold size in Hw.
      unfold inw in Hw. lia. }
    destruct H6 as [E | H6]; [unfold n; rewrite E; cbn; lia |]. rewrite Hb5 in H6. fold n in H6.
    destruct (Z.lt_ge_cases n (2 ^ 32 - 104)) as [| Hge]; [done |]. exfalso.
    assert (size <= n - 12 - 1); [| lia]. unfold size, wrap.
    replace (32 + 32 + 8 + 16 + 4 + n + 4 + 4 + 4) with (104 + n) by lia.
    pose proof (Z.div_mod (104 + n) (2 ^ 32) ltac:(lia)). pose proof (Z.div_le_lower_bound (104 + n) (2 ^ 32) 1). lia. }
  rewrite encode_struct in He by done. by injection He as <-.
Qed.

Lemma encode_result_bytes r :
  Z.of_nat (length (output r)) < 2 ^ 32 - 16 ->
  encode_result r = Some (result_bytes (status_num (status_code r)) (gas_left r) (output r)).
Proof.
  intros Hi. unfold encode_result. set (n := length (output r)) in *. rewrite !(wrap_small 32) by (unfold inw; lia).
  unfold malloc. change (replicate ?k None) with (filled [] k).
  replace (Z.to_nat _) with (16 + n)%nat by lia.
  repeat write_step. replace (_ - _)%nat with 0%nat by lengths.
  rewrite toByteArray_filled. unfold result_bytes. by rewrite <- !app_assoc.
Qed.

(** The encoders of the Java side. *)
Lemma bind_put {A} l r w (f : WBuffer -> option A) :
  Z.of_nat (length l) <= r -> put l (mkW r w) ≫= f = f (mkW (r - Z.of_nat (length l)) (w ++ l)).
Proof. intros. unfold put. cbn [remaining written]. by rewrite (proj2 (Z.leb_le _ _)). Qed.
Lemma bind_putInt {A} z r w (f : WBuffer -> option A) :
  4 <= r -> putInt z (mkW r w) ≫= f = f (mkW (r - 4) (w ++ be_bytes 4 z)).
Proof. intros. unfold putInt. by rewrite bind_put, length_be_bytes by (by rewrite length_be_bytes). Qed.
Lemma bind_putLong {A} z r w (f : WBuffer -> option A) :
  8 <= r -> putLong z (mkW r w) ≫= f = f (mkW (r - 8) (w ++ be_bytes 8 z)).
Proof. intros. unfold putLong. by rewrite bind_put, length_be_bytes by (by rewrite length_be_bytes). Qed.
Lemma bind_allocate {A} n (f : WBuffer -> option A) : 0 <= n -> allocate n ≫= f = f (mkW n []).
Proof. intros. unfold allocate. by rewrite (proj2 (Z.ltb_ge _ _)). Qed.

Lemma array_full r w : r = 0 -> array (mkW r w) = w.
Proof. intros ->. apply app_nil_r. Qed.

Ltac put_step := first [rewrite bind_put by lengths | rewrite bind_putInt by lengths | rewrite bind_putLong by lengths].

Lemma sgn_int z : 0 <= z < 2 ^ 31 -> sgn 32 (wrap 32 z) = z.
Proof. intros. rewrite wrap_small by (unfold inw; lia). apply sgn_small. lia. Qed.

Lemma toBytes_result (r : FastVmTransactionResult.FastVmTransactionResult) :
  Z.of_nat (length (FastVmTransactionResult.output r)) < 2 ^ 31 - 16 ->
  FastVmTransactionResult.toBytes r =
  Some (result_bytes (FastVmResultCode.toInt (FastVmTransactionResult.code r))
          (FastVmTransactionResult.energyRemaining r) (FastVmTransactionResult.output r)).
Proof.
  intros Hl. unfold FastVmTransactionResult.toBytes. rewrite sgn_int by lia.
  rewrite bind_allocate by lia. repeat put_step.
  rewrite array_full by lengths. unfold result_bytes. by rewrite <- !app_assoc.
Qed.

Lemma toBytes_context c :
  C.context_ok c -> C.toBytes c = Some (context_bytes (C.forget_data c), C.forget_data c).
Proof.
  intros Hc. unfold C.toBytes.
  assert (H : C.context_ok (C.forget_data c)).
  { unfold C.forget_data. destruct (C.isCreate c); [| done]. destruct Hc. split; cbn; auto. split; [done | lia]. }
  set (c' := C.forget_data c) in *. clearbody c'. clear c Hc.
  destruct H as [[] [] [] [] _ [] [_ Hd] _ _ [] _ _ _ []]. unfold C.getEncodingLength, C.ENCODE_BASE_LEN in *.
  rewrite sgn_int by lia.
  rewrite bind_allocate by lia. repeat put_step.
  rewrite array_full by lengths. unfold context_bytes. by rewrite <- !app_assoc.
Qed.

(** ** The parsers *)

(** The kind as the native side sees it. *)
Definition kind_of (k : TransactionKind.TransactionKind) : evm_call_kind :=
  match k with
  | TransactionKind.CALL => EVM_CALL
  | TransactionKind.DELEGATE_CALL => EVM_DELEGATECALL
  | TransactionKind.CALLCODE => EVM_CALLCODE
  | TransactionKind.CREATE => EVM_CREATE
  end.

Lemma bind_some {A B} (x : A) (f : A -> option B) : Some x ≫= f = f x.
Proof. done. Qed.

Lemma bind_memcpy {A} b offset l rest n (f : list Z -> option A) :
  lies_at b offset (l ++ rest) -> Z.of_nat (length l) = n -> memcpy_from b offset n ≫= f = f l.
Proof. intros H Hn. by rewrite (memcpy_from_at _ _ _ _ _ H Hn). Qed.
Lemma bind_read_int {A} b offset z rest (f : Z -> option A) :
  lies_at b offset (be_bytes 4 z ++ rest) -> read_int b offset ≫= f = f (wrap 32 z).
Proof. intros H. by rewrite (read_int_at _ _ _ _ H). Qed.
Lemma bind_read_long {A} b offset z rest (f : Z -> option A) :
  lies_at b offset (be_bytes 8 z ++ rest) -> read_long b offset ≫= f = f (wrap 64 z).
Proof. intros H. by rewrite (read_long_at _ _ _ _ H). Qed.

(** One read of a parser at the offset of [H], which moves on. *)
Ltac next H n := apply (lies_at_next _ _ _ _ n) in H; [| lengths].
Ltac read_step H :=
  lazymatch goal with
  | |- memcpy_from _ ?o ?n ≫= _ = _ =>
      lazymatch type of H with
      | lies_at _ ?o' _ => replace o with o' by lia
      end;
      rewrite (bind_memcpy _ _ _ _ _ _ H) by lengths; next H n
  | |- read_int _ ?o ≫= _ = _ =>
      lazymatch type of H with
      | lies_at _ ?o' _ => replace o with o' by lia
      end;
      rewrite (bind_read_int _ _ _ _ _ H); next H 4
  | |- read_long _ ?o ≫= _ = _ =>
      lazymatch type of H with
      | lies_at _ ?o' _ => replace o with o' by lia
      end;
      rewrite (bind_read_long _ _ _ _ _ H); next H 8
  end.

Lemma call_kind_of_kind k : call_kind_of (wrap 32 (TransactionKind.intValue k)) = Some (kind_of k).
Proof. by destruct k. Qed.

Definition message_of (c : ExecutionContext) (hash : list Z) : evm_message :=
  mkMessage (C.address c) (C.sender c) (C.callValue c) (C.callData c) hash (C.nrg c) (C.depth c)
    (kind_of (C.kind c)) (wrap 32 (C.flags c)).

Definition tx_context_of (c : ExecutionContext) (price : list Z) : evm_tx_context :=
  mkTxContext price (C.origin c) (C.blockCoinbase c) (wrap 64 (C.blockNumber c)) (wrap 64 (C.blockTimestamp c))
    (wrap 64 (C.blockNrgLimit c)) (C.blockDifficulty c).

Lemma parse_context_bytes c msg ctx :
  C.context_ok c ->
  parse_context (context_bytes c) msg ctx
  = Some (message_of c (code_hash msg), tx_context_of c (tx_gas_price ctx)).
Proof.
  intros Hc. unfold parse_context. cbv zeta.
  pose proof (lies_at_start (context_bytes c)) as H. unfold context_bytes at 2 in H.
  set (b := context_bytes c) in *. clearbody b. destruct Hc as [[] [] [] [] ? [] [_ Hd] ? ? [] ? ? ? []].
  unfold C.ENCODE_BASE_LEN in Hd.
  read_step H. read_step H. read_step H. next H 16. read_step H. read_step H. read_step H.
  rewrite (wrap_small 32 (Z.of_nat _)) by (unfold inw; lia).
  read_step H. rewrite (wrap_small 32 (_ + _)) by (unfold inw; lia).
  read_step H. read_step H. rewrite call_kind_of_kind, bind_some. read_step H.
  read_step H. read_step H. read_step H. read_step H.
  rewrite <- (app_nil_r (C.blockDifficulty c)) in H. read_step H.
  unfold message_of, tx_context_of. rewrite !sgn_wrap_small by lia. done.
Qed.

Lemma parse_result_bytes status gas out :
  - 2 ^ 31 <= status < 2 ^ 31 -> - 2 ^ 63 <= gas < 2 ^ 63 -> Z.of_nat (length out) < 2 ^ 32 ->
  parse_result (result_bytes status gas out) = Some (mkResult (status_of status) gas out).
Proof.
  intros Hs Hg Ho. unfold parse_result. cbv zeta.
  pose proof (lies_at_start (result_bytes status gas out)) as H. unfold result_bytes at 2 in H.
  set (b := result_bytes _ _ _) in *. clearbody b.
  read_step H. read_step H. read_step H. rewrite (wrap_small 32 (Z.of_nat _)) by (unfold inw; lia).
  rewrite <- (app_nil_r out) in H. read_step H. by rewrite !sgn_wrap_small by lia.
Qed.

(** Reading from a Java buffer. *)
Lemma bind_get {A} l rest n (f : list Z * list Z -> option A) :
  Z.of_nat (length l) = n -> get n (l ++ rest) ≫= f = f (l, rest).
Proof.
  intros <-. unfold get. rewrite length_app, !(proj2 (Z.leb_le _ _)) by lia. cbn [andb].
  by rewrite Nat2Z.id, take_app_length, drop_app_length.
Qed.
Lemma bind_getInt {A} z rest (f : Z * list Z -> option A) :
  getInt (be_bytes 4 z ++ rest) ≫= f = f (sgn 32 (wrap 32 z), rest).
Proof. unfold getInt. by rewrite bind_get, be_val_be_bytes by (by rewrite length_be_bytes). Qed.
Lemma bind_getLong {A} z rest (f : Z * list Z -> option A) :
  getLong (be_bytes 8 z ++ rest) ≫= f = f (sgn 64 (wrap 64 z), rest).
Proof. unfold getLong. by rewrite bind_get, be_val_be_bytes by (by rewrite length_be_bytes). Qed.

(** The context a message opens below [prev]. *)
Definition child_context (prev : ExecutionContext) (m : evm_message) (k : TransactionKind.TransactionKind) : ExecutionContext :=
  C.mkContext (bool_decide (k = TransactionKind.CREATE)) (C.txHash prev) (address m) None (C.origin prev) (caller m)
    (replicate 8 0 ++ be_bytes 8 (C.getTransactionEnergyPrice prev)) (msg_gas m) (value m) (input m) (depth m) k
    (sgn 32 (wrap 32 (flags m))) (C.blockCoinbase prev) (C.blockNumber prev) (C.blockTimestamp prev)
    (C.blockNrgLimit prev) (C.blockDifficulty prev) SideEffects.SideEffects.new.

(** The kind as the Java side sees it. *)
Definition kind_to (k : evm_call_kind) : TransactionKind.TransactionKind :=
  match k with
  | EVM_CALL => TransactionKind.CALL
  | EVM_DELEGATECALL => TransactionKind.DELEGATE_CALL
  | EVM_CALLCODE => TransactionKind.CALLCODE
  | EVM_CREATE => TransactionKind.CREATE
  end.

Lemma parseMessage_bytes prev m :
  message_ok m -> - 2 ^ 63 <= msg_gas m < 2 ^ 63 -> Z.of_nat (length (input m)) < 2 ^ 31 ->
  parseMessage prev (message_bytes m) = Some (child_context prev m (kind_to (kind m))).
Proof.
  intros [[Ha _] [Hc _] [Hv Hvb] [_ _] Hd] Hg Hi. unfold parseMessage, message_bytes.
  rewrite bind_get by lia. cbv beta match. rewrite bind_get by lia. cbv beta match.
  rewrite bind_getLong. cbv beta match. rewrite bind_get by lia. cbv beta match zeta.
  rewrite bind_getInt. cbv beta match. rewrite !sgn_wrap_small by lia.
  rewrite bind_get by lia. cbv beta match. rewrite bind_getInt. cbv beta match.
  rewrite bind_getInt. cbv beta match.
  replace (TransactionKind.fromInt _) with (Some (kind_to (kind m))) by by destruct (kind m).
  rewrite bind_some. rewrite <- (app_nil_r (be_bytes 4 (flags m))), bind_getInt. cbv beta match.
  unfold C.from. rewrite FvmDataWord.fromLong_spec, bind_some. unfold fromMagnitude.
  rewrite FvmDataWord.fromBigInteger_word, bind_some by done.
  unfold child_context. by rewrite !sgn_wrap_small by lia.
Qed.

(** ** What one side sends the other receives *)

Lemma forget_data_ok c : C.context_ok c -> C.context_ok (C.forget_data c).
Proof.
  intros []. unfold C.forget_data. destruct (C.isCreate c); split; cbn; auto. split; [done | unfold C.ENCODE_BASE_LEN; lia].
Qed.

(** An execution context that the Java side encodes arrives in the native
    library as the message and the transaction context with the same fields;
    only the call data of a creation is dropped, and the gas price is not
    read: the transaction context keeps the price it had. *)
Theorem context_transport c msg ctx :
  C.context_ok c ->
  exists bytes c', C.toBytes c = Some (bytes, c') /\
    c' = (if C.isCreate c then C.set_callData [] c else c) /\
    parse_context bytes msg ctx
    = Some (mkMessage (C.address c) (C.sender c) (C.callValue c) (C.callData c') (code_hash msg) (C.nrg c)
              (C.depth c) (kind_of (C.kind c)) (wrap 32 (C.flags c)),
            mkTxContext (tx_gas_price ctx) (C.origin c) (C.blockCoinbase c) (wrap 64 (C.blockNumber c))
              (wrap 64 (C.blockTimestamp c)) (wrap 64 (C.blockNrgLimit c)) (C.blockDifficulty c)).
Proof.
  intros Hc. exists (context_bytes (C.forget_data c)), (C.forget_data c).
  split; [by apply toBytes_context | split; [done |]].
  rewrite parse_context_bytes by (by apply forget_data_ok).
  unfold message_of, tx_context_of, C.forget_data. by destruct (C.isCreate c).
Qed.

Lemma child_context_ok prev m k :
  C.context_ok prev -> message_ok m -> - 2 ^ 63 <= msg_gas m < 2 ^ 63 ->
  Z.of_nat (length (input m)) < 2 ^ 31 - C.ENCODE_BASE_LEN -> C.context_ok (child_context prev m k).
Proof.
  intros Hp [Ha Hc Hv [Hib _] Hd] Hg Hi. destruct Hp. split; cbn -[be_bytes replicate]; auto; try lia.
  - split; [by rewrite length_app, length_be_bytes |].
    apply Forall_app_2; [by apply Forall_replicate | apply be_bytes_ok].
  - pose proof (wrap_inw 32 (flags m) ltac:(lia)) as Hw. pose proof (sgn_range 32 (wrap 32 (flags m)) ltac:(lia) Hw). lia.
Qed.

(** C32: the message of a nested call survives its way through the Java side:
    encoded by [encode_message], parsed by [parseMessage] below the calling
    context, encoded by [toBytes] and parsed again by [parse_context], it has
    the same address, caller, value, gas, depth, kind and flags, and the same
    input unless it creates a contract; the transaction context of the native
    library, a global variable, is overwritten with the value it has. *)
Theorem message_transport prev m msg price :
  C.context_ok prev -> message_ok m -> - 2 ^ 63 <= msg_gas m < 2 ^ 63 -> inw 32 (flags m) ->
  Z.of_nat (length (input m)) < 2 ^ 31 - C.ENCODE_BASE_LEN ->
  exists b c bytes c', encode_message m = Some b /\ parseMessage prev b = Some c /\
    C.toBytes c = Some (bytes, c') /\
    parse_context bytes msg (tx_context_of prev price)
    = Some (mkMessage (address m) (caller m) (value m)
              (match kind m with EVM_CREATE => [] | _ => input m end) (code_hash msg) (msg_gas m) (depth m)
              (kind m) (flags m), tx_context_of prev price).
Proof.
  intros Hp Hm Hg Hf Hi. unfold C.ENCODE_BASE_LEN in Hi.
  set (c := child_context prev m (kind_to (kind m))).
  assert (Hc : C.context_ok c) by by apply child_context_ok.
  exists (message_bytes m), c, (context_bytes (C.forget_data c)), (C.forget_data c).
  split; [apply encode_message_bytes; [done | lia] |].
  split; [apply parseMessage_bytes; [done.. | lia] |].
  split; [by apply toBytes_context |].
  rewrite parse_context_bytes by (by apply forget_data_ok).
  assert (Hw : wrap 32 (sgn 32 (wrap 32 (flags m))) = flags m)
    by (rewrite wrap_sgn by (lia || by apply wrap_inw); by apply wrap_small).
  unfold message_of, tx_context_of, C.forget_data, c, child_context.
  destruct (kind m); cbn -[wrap sgn be_bytes replicate bool_decide];
    (case_bool_decide; [try discriminate | try congruence]); cbn -[wrap sgn be_bytes replicate]; by rewrite Hw.
Qed.

Lemma status_num_of n : status_num (status_of n) = n.
Proof. unfold status_of. bool_cases. Qed.

(** The result code for a status with an enumerator. *)
Definition code_of (s : evm_status_code) : option FastVmResultCode.FastVmResultCode :=
  match s with
  | EVM_SUCCESS => Some FastVmResultCode.SUCCESS
  | EVM_FAILURE => Some FastVmResultCode.FAILURE
  | EVM_OUT_OF_GAS => Some FastVmResultCode.OUT_OF_NRG
  | EVM_BAD_INSTRUCTION => Some FastVmResultCode.BAD_INSTRUCTION
  | EVM_BAD_JUMP_DESTINATION => Some FastVmResultCode.BAD_JUMP_DESTINATION
  | EVM_STACK_OVERFLOW => Some FastVmResultCode.STACK_OVERFLOW
  | EVM_STACK_UNDERFLOW => Some FastVmResultCode.STACK_UNDERFLOW
  | EVM_REVERT => Some FastVmResultCode.REVERT
  | EVM_STATIC_MODE_ERROR => Some FastVmResultCode.STATIC_MODE_ERROR
  | EVM_REJECTED => Some FastVmResultCode.VM_REJECTED
  | EVM_INTERNAL_ERROR => Some FastVmResultCode.VM_INTERNAL_ERROR
  | EVM_UNNAMED _ => None
  end.

Lemma fromBytes_result status gas out code :
  FastVmResultCode.fromInt (sgn 32 (wrap 32 status)) = Some code -> - 2 ^ 63 <= gas < 2 ^ 63 ->
  Z.of_nat (length out) < 2 ^ 31 ->
  FastVmTransactionResult.fromBytes (result_bytes status gas out)
  = Some (FastVmTransactionResult.mkTxResult code (Z.max gas 0) out).
Proof.
  intros Hc Hg Ho. unfold FastVmTransactionResult.fromBytes, result_bytes.
  rewrite bind_getInt. cbv beta match. rewrite Hc, bind_some, bind_getLong. cbv beta match.
  rewrite bind_getInt. cbv beta match. rewrite <- (app_nil_r out) at 2.
  rewrite bind_get by (by rewrite sgn_wrap_small by lia). cbv beta match.
  by rewrite sgn_wrap_small by lia.
Qed.

(** Results cross the boundary in both directions: a result of the native
    library is received by the Java side with the corresponding code, its
    gas (a negative amount as zero) and its output, and a result of the Java
    side is received by the native library with the same number, gas and
    output; both sides agree on what is a success. *)
Theorem result_transport (r : evm_result) code (t : FastVmTransactionResult.FastVmTransactionResult) :
  code_of (status_code r) = Some code -> - 2 ^ 63 <= gas_left r < 2 ^ 63 ->
  Z.of_nat (length (output r)) < 2 ^ 31 ->
  - 2 ^ 63 <= FastVmTransactionResult.energyRemaining t < 2 ^ 63 ->
  Z.of_nat (length (FastVmTransactionResult.output t)) < 2 ^ 31 - 16 ->
  (exists b, encode_result r = Some b /\
     FastVmTransactionResult.fromBytes b
     = Some (FastVmTransactionResult.mkTxResult code (Z.max (gas_left r) 0) (output r))) /\
  (exists b s, FastVmTransactionResult.toBytes t = Some b /\
     parse_result b = Some (mkResult s (FastVmTransactionResult.energyRemaining t) (FastVmTransactionResult.output t)) /\
     status_num s = FastVmResultCode.toInt (FastVmTransactionResult.code t) /\
     (s = EVM_SUCCESS <-> FastVmTransactionResult.code t = FastVmResultCode.SUCCESS)).
Proof.
  intros Hc Hg Ho He Hl. split.
  - eexists. split; [apply encode_result_bytes; lia |]. apply fromBytes_result; [| done..].
    destruct (status_code r); simplify_eq/=; reflexivity.
  - exists (result_bytes (FastVmResultCode.toInt (FastVmTransactionResult.code t))
              (FastVmTransactionResult.energyRemaining t) (FastVmTransactionResult.output t)),
      (status_of (FastVmResultCode.toInt (FastVmTransactionResult.code t))).
    split; [by apply toBytes_result |].
    split; [apply parse_result_bytes; [by destruct (FastVmTransactionResult.code t) | lia..] |].
    split; [apply status_num_of | by destruct (FastVmTransactionResult.code t)].
Qed.

(** ** Examples *)

Definition small_message (k : evm_call_kind) : evm_message :=
  mkMessage (replicate 32 1) (replicate 32 2) (replicate 16 3) [4; 5] (replicate 32 0) 1000 7 k 1.

Lemma small_message_ok k : message_ok (small_message k).
Proof. split; cbn -[replicate]; try (split; [done | by apply Forall_replicate]); try lia. split; [by repeat constructor | done]. Qed.

Lemma context_transport_witness : exists bytes c',
  C.toBytes (null_context 5) = Some (bytes, c') /\
  option_map (fun p => msg_gas p.1)
    (parse_context bytes (small_message EVM_CALL) (tx_context_of (null_context 5) (replicate 16 0))) = Some 5.
Proof.
  destruct (context_transport (null_context 5) (small_message EVM_CALL) (tx_context_of (null_context 5) (replicate 16 0)))
    as (bytes & c' & H1 & _ & H2); [by apply null_context_ok |].
  exists bytes, c'. split; [exact H1 |]. rewrite H2. reflexivity.
Defined.

Lemma message_transport_witness : exists b c bytes c',
  encode_message (small_message EVM_CREATE) = Some b /\ parseMessage (null_context 5) b = Some c /\
  C.toBytes c = Some (bytes, c') /\
  option_map (fun p => input p.1) (parse_context bytes (small_message EVM_CALL)
    (tx_context_of (null_context 5) (replicate 16 0))) = Some [].
Proof.
  destruct (message_transport (null_context 5) (small_message EVM_CREATE) (small_message EVM_CALL) (replicate 16 0))
    as (b & c & bytes & c' & H1 & H2 & H3 & H4);
    [by apply null_context_ok | apply small_message_ok | simpl; lia | done | done |].
  exists b, c, bytes, c'. split; [exact H1 | split; [exact H2 | split; [exact H3 |]]]. rewrite H4. reflexivity.
Defined.

Lemma result_transport_witness : exists b, encode_result (mkResult EVM_REVERT 12 [9]) = Some b /\
  FastVmTransactionResult.fromBytes b = Some (FastVmTransactionResult.mkTxResult FastVmResultCode.REVERT 12 [9]).
Proof.
  apply (result_transport (mkResult EVM_REVERT 12 [9]) FastVmResultCode.REVERT
    (FastVmTransactionResult.mkTxResult FastVmResultCode.FAILURE 3 [])); done || (simpl; lia).
Defined.
