(* ===== verification/JniHost.v ===== *)
(** * The JNI library: callbacks and execution

    jni/org_aion_fastvm_FastVM.cpp: the function table that the native library
    gives to the virtual machine, made of calls of the static methods of
    Callback.java, and [run], which parses a context, hashes and executes the
    code and encodes the result; FastVM.java: the same seen from Java. *)
From S2P Require Import Prelude Bytes EvmAbi Keccak Runtime IR Builder Codegen Compiler Machine Sim NullHost SimHost Program Interp SimProgram.
From S2P Require Import Cache HostInv JIT JavaData SideEffects ExecutionContext Jni.
Import CacheMode(CacheMode).

(** ** The methods of Callback that the library calls *)
Record JavaCallback (H : Type) := mkCallback {
  cb_get_block_hash : H -> Z -> list Z;
  cb_get_code : H -> list Z -> list Z;
  cb_get_balance : H -> list Z -> list Z;
  cb_exists : H -> list Z -> bool;
  cb_get_storage : H -> list Z -> list Z -> list Z;
  cb_put_storage : H -> list Z -> list Z -> list Z -> H;
  cb_selfdestruct : H -> list Z -> list Z -> H;
  cb_log : H -> list Z -> list Z -> list Z -> H;
  cb_call : H -> list Z -> list Z * H
}.
Arguments mkCallback {H}.
Arguments cb_get_block_hash {H}.
Arguments cb_get_code {H}.
Arguments cb_get_balance {H}.
Arguments cb_exists {H}.
Arguments cb_get_storage {H}.
Arguments cb_put_storage {H}.
Arguments cb_selfdestruct {H}.
Arguments cb_log {H}.
Arguments cb_call {H}.

Section Table.
Context {H : Type} (cb : JavaCallback H).

(** The word and the hash that [memcpy] takes from an array. *)
Definition word_of (l : list Z) : list Z := take 16 l.
Definition hash_of (l : list Z) : list Z := take 32 l.

Definition jni_account_exists (h : H) (address : list Z) : Z := Z.b2z (cb_exists cb h address).
Definition jni_get_balance (h : H) (address : list Z) : list Z := word_of (cb_get_balance cb h address).
Definition jni_get_code (h : H) (address : list Z) : list Z := cb_get_code cb h address.
Definition jni_get_storage (h : H) (address key : list Z) : list Z := word_of (cb_get_storage cb h address key).
Definition jni_set_storage (h : H) (address key value : list Z) : H := cb_put_storage cb h address key value.
Definition jni_get_block_hash (h : H) (number : Z) : list Z := hash_of (cb_get_block_hash cb h number).
Definition jni_selfdestruct (h : H) (address beneficiary : list Z) : H := cb_selfdestruct cb h address beneficiary.

(** The topics are one array, 32 bytes each. *)
Definition jni_log (h : H) (address data : list Z) (topics : list (list Z)) : H :=
  cb_log cb h address (concat topics) data.

(** A message that cannot be encoded and an answer that cannot be parsed are
    undefined behaviour; the table has an arbitrary answer there. *)
Definition jni_call (h : H) (msg : evm_message) : evm_result * H :=
  match encode_message msg with
  | None => (mkResult EVM_INTERNAL_ERROR 0 [], h)
  | Some m =>
      let '(r, h) := cb_call cb h m in
      (default (mkResult EVM_INTERNAL_ERROR 0 []) (parse_result r), h)
  end.

(** [ctx_fn_table], while the global variable [ctx] has the given value. *)
Definition ctx_fn_table (ctx : evm_tx_context) : evm_context_fn_table H :=
  mkHost H jni_account_exists jni_get_storage jni_set_storage jni_get_balance jni_get_code jni_selfdestruct
    jni_call (fun _ => ctx) jni_get_block_hash jni_log.

(** What the library relies on of the Java side: the lengths of the arrays,
    and answers to calls that are encoded results, with no more energy than
    the message had and the address of a new contract. *)
Record callback_ok : Prop := {
  cb_ok_storage h a k : bytes_of_len 16 (cb_get_storage cb h a k);
  cb_ok_balance h a : bytes_of_len 16 (cb_get_balance cb h a);
  cb_ok_code h a : bytes_ok (cb_get_code cb h a) /\ Z.of_nat (length (cb_get_code cb h a)) < 2 ^ 31;
  cb_ok_hash h n : bytes_of_len 32 (cb_get_block_hash cb h n);
  cb_ok_call h m b : encode_message m = Some b -> exists t,
    FastVmTransactionResult.toBytes t = Some (cb_call cb h b).1 /\
    (0 <= msg_gas m -> 0 <= FastVmTransactionResult.energyRemaining t <= msg_gas m) /\
    - 2 ^ 63 <= FastVmTransactionResult.energyRemaining t < 2 ^ 63 /\
    bytes_ok (FastVmTransactionResult.output t) /\
    Z.of_nat (length (FastVmTransactionResult.output t)) < 2 ^ 31 - 16 /\
    (kind m = EVM_CREATE -> FastVmTransactionResult.code t = FastVmResultCode.SUCCESS ->
     (32 <= length (FastVmTransactionResult.output t))%nat)
}.

Definition tx_context_ok (c : evm_tx_context) : Prop :=
  bytes_of_len 16 (tx_gas_price c) /\ bytes_of_len 32 (tx_origin c) /\ bytes_of_len 32 (block_coinbase c) /\
  inw 64 (block_number c) /\ inw 64 (block_timestamp c) /\ inw 64 (block_gas_limit c) /\
  bytes_of_len 16 (block_difficulty c).

Context (Hcb : callback_ok).

Lemma jni_call_result h m : exists s g out, (jni_call h m).1 = mkResult s g out /\
  (0 <= msg_gas m -> 0 <= g <= msg_gas m) /\ bytes_ok out /\ Z.of_nat (length out) < 2 ^ 31 /\
  (kind m = EVM_CREATE -> s = EVM_SUCCESS -> (32 <= length out)%nat).
Proof.
  unfold jni_call. destruct (encode_message m) as [b |] eqn:Hb.
  - destruct (cb_ok_call Hcb h m b Hb) as (t & Ht & Hgas & Hg & Hout & Hl & Hcr).
    rewrite toBytes_result in Ht by done. destruct (cb_call cb h b) as [r h']. cbn [fst] in Ht. injection Ht as <-.
    cbn [fst]. rewrite parse_result_bytes; [| by destruct (FastVmTransactionResult.code t) | lia | lia].
    cbn [default from_option]. do 3 eexists. split; [reflexivity |]. split; [done | split; [done | split; [lia |]]].
    intros Hk Hs. apply Hcr; [done |]. by destruct (FastVmTransactionResult.code t).
  - do 3 eexists. split; [reflexivity |]. simpl. split; [lia | split; [done | split; [done | done]]].
Qed.

(** The table meets what compiled code relies on. *)
Lemma ctx_fn_table_ok ctx : tx_context_ok ctx -> host_ok (ctx_fn_table ctx).
Proof.
  intros Hctx. split; cbn; intros.
  - unfold jni_get_storage, word_of. destruct (cb_ok_storage Hcb h a k) as [Hl Hb].
    split; [rewrite length_take; lia | by apply Forall_take].
  - unfold jni_get_balance, word_of. destruct (cb_ok_balance Hcb h a) as [Hl Hb].
    split; [rewrite length_take; lia | by apply Forall_take].
  - destruct (cb_ok_code Hcb h a). split; [done |]. unfold jni_get_code. lia.
  - unfold jni_account_exists. destruct (cb_exists cb h a); auto.
  - unfold jni_get_block_hash, hash_of. destruct (cb_ok_hash Hcb h n) as [Hl Hb].
    split; [rewrite length_take; lia | by apply Forall_take].
  - apply Hctx.
  - done.
  - destruct (jni_call_result h m) as (s & g & out & -> & Hg & _). by apply Hg.
  - destruct (jni_call_result h m) as (s & g & out & -> & _ & Hb & Hl & _). split; [done | simpl; lia].
  - destruct (jni_call_result h m) as (s & g & out & E & _ & _ & _ & Hc). rewrite E in *. by apply Hc.
Qed.
End Table.

(** ** Execution *)

Definition set_code_hash (hash : list Z) (m : evm_message) : evm_message :=
  mkMessage (EvmAbi.address m) (EvmAbi.caller m) (EvmAbi.value m) (EvmAbi.input m) hash (msg_gas m) (EvmAbi.depth m) (EvmAbi.kind m) (EvmAbi.flags m).

(** The contexts of nested calls have the transaction context of their caller. *)
Lemma child_tx_context prev m c price : parseMessage prev m = Some c -> tx_context_of c price = tx_context_of prev price.
Proof.
  unfold parseMessage, ExecutionContext.from. intros Hp.
  repeat (apply bind_Some in Hp as (? & _ & Hp); repeat case_match; simplify_eq).
  all: try done. all: by injection Hp as <-.
Qed.

Section Run.
Context {F O K : Type} `{LLVMFolder} `{Engine F O (evm_tx_context * K)}.
Context (g_optimize : bool) (cb : JavaCallback (JITImpl F O * (evm_tx_context * K))).
Context (uninit : Z) (uninit_hash undef_addr : list Z) (uninit_msg : evm_message).

Abbreviation JIT := (JITImpl F O).
Abbreviation execute ctx := (execute g_optimize CacheMode.off (ctx_fn_table cb ctx) uninit uninit_hash undef_addr).

(** The instance, the global [ctx], and the rest of the process. *)
Abbreviation process := (JITImpl F O * (evm_tx_context * K))%type.

(** [Java_org_aion_fastvm_FastVM_run]; the message starts uninitialised.
    Nested runs store into [ctx] too, but what they store is the same
    ([child_tx_context]), so the table answers with the one stored here. *)
Definition run (fuel : nat) (code context : list Z) (rev : evm_revision) (h : process) : outcome (list Z * process) :=
  let '(j, (ctx, k)) := h in
  match parse_context context uninit_msg ctx with
  | None => UB
  | Some (msg, ctx) =>
      let msg := set_code_hash (keccak code) msg in
      '(result, h) ← execute ctx fuel rev msg code (j, (ctx, k));
      match encode_result result with
      | Some ret => Val (ret, h)
      | None => UB
      end
  end.

(** [FastVM.runPost040Fork] and [runPre040Fork] between the push and the pop
    of the callback stack; an exception of [toBytes] or [fromBytes] is [None].
    [create] and [destroy] do nothing to the instance, which is a singleton. *)
Definition fastvm_run (fuel : nat) (code : list Z) (c : ExecutionContext.ExecutionContext) (rev : evm_revision) (h : process)
  : outcome (option (FastVmTransactionResult.FastVmTransactionResult) * ExecutionContext.ExecutionContext * process) :=
  match ExecutionContext.toBytes c with
  | None => Val (None, c, h)
  | Some (bytes, c) =>
      '(result, h) ← run fuel code bytes rev h;
      Val (FastVmTransactionResult.fromBytes result, c, h)
  end.

(** What Java sees of an ending of the reference machine. *)
Definition java_result (c : ReturnCode) (gas : Z) (out : list Z) : FastVmTransactionResult.FastVmTransactionResult :=
  match c with
  | Return => FastVmTransactionResult.mkTxResult FastVmResultCode.SUCCESS gas out
  | Revert => FastVmTransactionResult.mkTxResult FastVmResultCode.REVERT gas out
  | OutOfGas => FastVmTransactionResult.mkTxResult FastVmResultCode.OUT_OF_NRG 0 []
  | _ => FastVmTransactionResult.mkTxResult FastVmResultCode.SUCCESS gas []
  end.

Lemma result_encoded c gas out :
  0 <= gas < 2 ^ 63 -> Z.of_nat (length out) < 2 ^ 31 - 16 ->
  exists ret, encode_result (spec_result c gas out) = Some ret /\ FastVmTransactionResult.fromBytes ret = Some (java_result c gas out).
Proof.
  intros Hg Hl. destruct c; cbn [spec_result java_result]; (eexists; split; [apply encode_result_bytes; simpl; lia |]);
    cbn [status_code gas_left output]; (erewrite fromBytes_result; [| reflexivity | lia | simpl; lia]); repeat f_equal; lia.
Qed.

Context (codes : list Z -> list Z) (HE : engine_ok (F := F) (O := O) (K := evm_tx_context * K) g_optimize) (Hcb : callback_ok cb).
Context (c : ExecutionContext.ExecutionContext) (Hc : C.context_ok c) (Hnrg : 0 <= C.nrg c < 2 ^ 63 - 1).
Context (Hdepth : 0 <= C.depth c).
Context (code : list Z) (Hcode : bytes_ok code /\ Z.of_nat (length code) < 2 ^ 31).
Context (Hhash : codes (keccak code) = code) (rev : evm_revision).

(** The context as the encoding leaves it, the message and the transaction
    context of the native side, and the execution they describe. *)
Definition sent : ExecutionContext.ExecutionContext := C.forget_data c.
Definition message : evm_message := message_of sent (keccak code).
Definition tx_context (ctx : evm_tx_context) : evm_tx_context := tx_context_of sent (tx_gas_price ctx).
Definition exec_ctx (ctx : evm_tx_context) : Ctx process :=
  mkCtx (ctx_fn_table cb (tx_context ctx)) message (current message) code rev (negb (Z.land (flags message) EVM_STATIC =? 0))
    uninit_hash undef_addr.

Lemma message_is_ok : message_ok message.
Proof.
  pose proof (forget_data_ok c Hc) as Hs. change (C.context_ok sent) in Hs. split; cbn.
  - apply Hs.
  - apply Hs.
  - apply Hs.
  - destruct (C.ok_data _ Hs) as [? Hl]. unfold C.ENCODE_BASE_LEN in Hl. split; [done | lia].
  - unfold sent, C.forget_data. pose proof (C.ok_depth c Hc). destruct (C.isCreate c); simpl; lia.
Qed.

Lemma tx_context_is_ok ctx : bytes_of_len 16 (tx_gas_price ctx) -> tx_context_ok (tx_context ctx).
Proof.
  intros Hp. pose proof (forget_data_ok c Hc) as Hs. unfold tx_context, tx_context_of, tx_context_ok. cbn -[wrap].
  split_and!; try done; try (by apply wrap_inw); apply Hs.
Qed.

Lemma exec_ctx_ok ctx : bytes_of_len 16 (tx_gas_price ctx) -> ctx_ok (exec_ctx ctx).
Proof.
  intros Hp. split; cbn.
  - apply ctx_fn_table_ok; [done | by apply tx_context_is_ok].
  - apply message_is_ok.
  - apply Hcode.
  - destruct Hcode. lia.
Qed.

(** From the result of [execute] to what Java gets. *)
Lemma fastvm_run_execute fuel ctx j k res h' ret :
  execute (tx_context ctx) fuel rev message code (j, (tx_context ctx, k)) = Val (res, h') -> encode_result res = Some ret ->
  fastvm_run fuel code c rev (j, (ctx, k)) = Val (FastVmTransactionResult.fromBytes ret, sent, h').
Proof.
  intros Hr Hret. unfold fastvm_run. rewrite (toBytes_context c Hc). unfold run.
  rewrite parse_context_bytes by (by apply forget_data_ok).
  change (set_code_hash (keccak code) _) with message. fold sent. change (tx_context_of sent _) with (tx_context ctx).
  rewrite Hr. cbn [mbind outcome_bind]. rewrite Hret. done.
Qed.
Lemma fastvm_run_undefined fuel ctx j k :
  execute (tx_context ctx) fuel rev message code (j, (tx_context ctx, k)) = UB -> fastvm_run fuel code c rev (j, (ctx, k)) = UB.
Proof.
  intros Hr. unfold fastvm_run. rewrite (toBytes_context c Hc). unfold run.
  rewrite parse_context_bytes by (by apply forget_data_ok).
  change (set_code_hash (keccak code) _) with message. fold sent. change (tx_context_of sent _) with (tx_context ctx). by rewrite Hr.
Qed.

End Run.

(** ** A Java side with nothing in it *)

Definition null_result : FastVmTransactionResult.FastVmTransactionResult :=
  FastVmTransactionResult.mkTxResult FastVmResultCode.FAILURE 0 [].

Definition null_callback (H : Type) : JavaCallback H :=
  mkCallback (fun _ _ => replicate 32 0) (fun _ _ => []) (fun _ _ => replicate 16 0) (fun _ _ => false)
    (fun _ _ _ => replicate 16 0) (fun h _ _ _ => h) (fun h _ _ => h) (fun h _ _ _ => h)
    (fun h _ => (result_bytes 1 0 [], h)).

Lemma null_callback_ok H : callback_ok (null_callback H).
Proof.
  split; cbn -[replicate result_bytes]; intros; try apply zeros_of_len; [done |].
  exists null_result. split; [by apply toBytes_result |]. cbn. split_and!; try done || lia.
Qed.

Lemma null_callback_keeps {H} (I : H -> Prop) tx : keeps_host (ctx_fn_table (null_callback H) tx) I.
Proof.
  split; cbn; intros; try done. unfold jni_call. by destruct (encode_message _).
Qed.

Definition null_tx_context : evm_tx_context :=
  mkTxContext (replicate 16 0) (replicate 32 0) (replicate 32 0) 0 0 0 (replicate 16 0).

