(* ===== verification/Callback.v ===== *)
(** * Callbacks into the Java side

    modFastVM/src/org/aion/fastvm/Callback.java: the stack of contexts and
    world states, the queries and effects of the running contract, and the
    nested calls and creations.  Contexts and world states are objects that the
    stack and the methods share: they are kept in two stores and referred to by
    their index.  The world state is the interface IExternalStateForFvm, a class
    here, whose documented behaviour is [balances_ok] and [storage_ok]; the
    native library is an argument, with a state of its own.  A method is a
    function on the stores, the stack and that state that may throw: the changes
    made before the exception stay. *)
From stdpp Require Import gmap.
From S2P Require Import Prelude Bytes JavaData SideEffects ExecutionContext.
Import FastVmResultCode(FastVmResultCode) TransactionKind(TransactionKind) SideEffects(SideEffects).
Module C := ExecutionContext.
Module R := FastVmTransactionResult.
Import C(ExecutionContext) R(FastVmTransactionResult, mkTxResult).

Module FvmConstants.
Abbreviation ENERGY_CODE_DEPOSIT := (1000).
Abbreviation CREATE_TRANSACTION_FEE := (200000).
Abbreviation TRANSACTION_BASE_FEE := (21000).
Abbreviation ZERO_BYTE_FEE := (4).
Abbreviation NONZERO_BYTE_FEE := (64).
Abbreviation MAX_CALL_DEPTH := (128).
End FvmConstants.

(** [IExternalStateForFvm]; [null] is [None].  [commit child parent] is the
    parent after [child.commit()]. *)
Class ExternalState (S : Type) := {
  newChildExternalState : S -> S;
  commit : S -> S -> S;
  isPrecompiledContract : S -> list Z -> bool;
  runInternalPrecompiledContractCall : ExecutionContext -> S -> FastVmTransactionResult * ExecutionContext * S;
  addStorageValue : list Z -> list Z -> list Z -> S -> S;
  removeStorage : list Z -> list Z -> S -> S;
  getStorageValue : S -> list Z -> list Z -> option (list Z);
  destinationAddressIsSafeForFvm : S -> list Z -> bool;
  getCode : S -> list Z -> option (list Z);
  putCode : list Z -> list Z -> S -> S;
  hasAccountState : S -> list Z -> bool;
  createAccount : list Z -> S -> S;
  getBalance : S -> list Z -> option Z;
  addBalance : list Z -> Z -> S -> S;
  getNonce : S -> list Z -> Z;
  incrementNonce : list Z -> S -> S;
  isFork040enabled : S -> bool;
  isForkSignatureSwapEnabled : S -> bool;
  getBlockHashByNumber : S -> Z -> option (list Z)
}.

(** The stores of the objects, the stack of pairs of references, and the state
    of the native library. *)
Record jvm (N S : Type) := mkJvm { contexts : list ExecutionContext; worlds : list S; stack : list (nat * nat); library : N }.
Arguments mkJvm {N S}.
Arguments contexts {N S}.
Arguments worlds {N S}.
Arguments stack {N S}.
Arguments library {N S}.

(** Methods return or throw. *)
Definition method (N S A : Type) : Type := jvm N S -> option A * jvm N S.
#[global] Instance method_ret N S : MRet (method N S) := fun _ a st => (Some a, st).
#[global] Instance method_bind N S : MBind (method N S) := fun _ _ f m st =>
  match m st with
  | (Some a, st) => f a st
  | (None, st) => (None, st)
  end.

Section Callback.
Context {N S : Type} `{ExternalState S}.
Context (equals : InternalTransaction -> InternalTransaction -> bool).

(** [CapabilitiesProvider.getExternalCapabilities().computeNewContractAddress]. *)
Context (computeNewContractAddress : list Z -> Z -> list Z).

Abbreviation J := (method N S).

Definition throw {A} : J A := fun st => (None, st).
Definition lift_option {A} (o : option A) : J A := match o with Some a => mret a | None => throw end.

(** ** Objects *)

Definition new_context (c : ExecutionContext) : J nat := fun st =>
  (Some (length (contexts st)), mkJvm (contexts st ++ [c]) (worlds st) (stack st) (library st)).
Definition new_world (s : S) : J nat := fun st =>
  (Some (length (worlds st)), mkJvm (contexts st) (worlds st ++ [s]) (stack st) (library st)).
Definition context_at (i : nat) : J ExecutionContext := fun st => lift_option (contexts st !! i) st.
Definition world_at (i : nat) : J S := fun st => lift_option (worlds st !! i) st.
Definition change_context (i : nat) (f : ExecutionContext -> ExecutionContext) : J () := fun st =>
  (Some tt, mkJvm (alter f i (contexts st)) (worlds st) (stack st) (library st)).
Definition change_world (i : nat) (f : S -> S) : J () := fun st =>
  (Some tt, mkJvm (contexts st) (alter f i (worlds st)) (stack st) (library st)).

(** ** The stack *)

Definition push (p : nat * nat) : J () := fun st => (Some tt, mkJvm (contexts st) (worlds st) (p :: stack st) (library st)).
Definition pop : J () := fun st =>
  match stack st with _ :: l => (Some tt, mkJvm (contexts st) (worlds st) l (library st)) | [] => (None, st) end.
Definition peek : J (nat * nat) := fun st => lift_option (head (stack st)) st.
Definition context : J ExecutionContext := p ← peek; context_at p.1.
Definition externalState : J S := p ← peek; world_at p.2.

(** Changes of the top context's side effects and of the top world state. *)
Definition marked (f : SideEffects -> SideEffects) (ctx : ExecutionContext) : ExecutionContext :=
  C.set_effects (f (C.sideEffects ctx)) ctx.
Definition effect (f : SideEffects -> SideEffects) : J () := p ← peek; change_context p.1 (marked f).
Definition update (f : S -> S) : J () := p ← peek; change_world p.2 f.

(** ** Queries and effects *)

Definition getBlockHash (number : Z) : J (list Z) :=
  s ← externalState; mret (default (replicate 32 0) (getBlockHashByNumber s number)).

Definition cbGetCode (address : list Z) : J (list Z) :=
  s ← externalState; mret (default [] (getCode s address)).

Definition cbGetBalance (address : list Z) : J (list Z) :=
  s ← externalState;
  match getBalance s address with
  | None => mret (replicate 16 0)
  | Some balance => lift_option (FvmDataWord.fromBigInteger balance)
  end.

Definition exists_ (address : list Z) : J bool :=
  s ← externalState; mret (hasAccountState s address).

(** The value is dereferenced without a test for [null]. *)
Definition getStorage (address key : list Z) : J (list Z) :=
  s ← externalState;
  key ← lift_option (FvmDataWord.fromBytes key);
  lift_option (getStorageValue s address key).

Definition isZero (value : list Z) : bool := forallb (Z.eqb 0) (reverse value).

Definition putStorage (address key value : list Z) : J () :=
  key ← lift_option (FvmDataWord.fromBytes key);
  if (length value =? 0)%nat || isZero value then update (removeStorage address key)
  else
    v ← lift_option (FvmDataWord.fromBytes value);
    update (addStorageValue address key v).

Definition selfDestruct (sender destination : list Z) : J () :=
  s ← externalState;
  balance ← lift_option (getBalance s sender);
  let internalTx := contractCallTransaction false sender destination (getNonce s sender) balance [] 0 1 in
  _ ← effect (SideEffects.addInternalTransaction internalTx);
  _ ← update (addBalance sender (- balance));
  _ ← (if bool_decide (sender = destination) then mret tt else update (addBalance destination balance));
  effect (SideEffects.addToDeletedAddresses sender).

(** The loop over the topics: [Arrays.copyOfRange] fills up with zeros. *)
Fixpoint topics_loop (fuel : nat) (topics : list Z) : list (list Z) :=
  match fuel, topics with
  | _, [] => []
  | 0%nat, _ => []
  | Datatypes.S fuel, _ => (take 32 topics ++ replicate (32 - length topics) 0) :: topics_loop fuel (drop 32 topics)
  end.

Definition log (address topics data : list Z) : J () :=
  effect (SideEffects.addLog (mkLog address (topics_loop (length topics) topics) data)).

(** ** Nested executions *)

(** The native [run]: from the code and the encoded context to the encoded
    result; the flag is the revision after the fork. *)
Context (native_run : bool -> list Z -> list Z -> J (list Z)).

(** [ExecutionContext.toBytes], which drops the call data of a creation. *)
Definition encode (ctx : nat) : J (list Z) :=
  _ ← change_context ctx C.forget_data;
  c ← context_at ctx;
  lift_option (fst <$> C.toBytes c).

(** [FastVM.runPre040Fork] and [runPost040Fork]. *)
Definition runFork (post040 : bool) (code : list Z) (ctx world : nat) : J FastVmTransactionResult :=
  _ ← push (ctx, world);
  bytes ← encode ctx;
  result ← native_run post040 code bytes;
  _ ← pop;
  lift_option (R.fromBytes result).

(** What happens after a failed execution: the child state is dropped. *)
Definition reject (ctx : nat) : J () :=
  _ ← effect (SideEffects.markMostRecentInternalTransactionAsRejected equals);
  change_context ctx (marked SideEffects.markAllInternalTransactionsAsRejected).

(** [child.commit()], for a child of [parent]. *)
Definition commit_to (parent child : nat) : J () := s ← world_at child; change_world parent (commit s).

(** The end of both kinds of nested executions. *)
Definition finish (ctx parent child : nat) (result : FastVmTransactionResult) : J FastVmTransactionResult :=
  _ ← (if bool_decide (R.code result = FastVmResultCode.SUCCESS) then commit_to parent child else reject ctx);
  mret result.

(** The execution proper of a call. *)
Definition callCode (codeAddress : list Z) (ctx child : nat) : J FastVmTransactionResult :=
  c ← context_at ctx;
  childState ← world_at child;
  if isPrecompiledContract childState (C.address c) then
    let '(result, c', childState') := runInternalPrecompiledContractCall c childState in
    _ ← change_context ctx (fun _ => c');
    _ ← change_world child (fun _ => childState');
    mret result
  else
    let code := if hasAccountState childState codeAddress then default [] (getCode childState codeAddress) else [] in
    if (length code =? 0)%nat then mret (R.make FastVmResultCode.SUCCESS (C.nrg c) [])
    else runFork (isForkSignatureSwapEnabled childState) code ctx child.

Definition is_own (k : TransactionKind) : bool :=
  bool_decide (k = TransactionKind.CALLCODE) || bool_decide (k = TransactionKind.DELEGATE_CALL).

Definition doCall (ctx : nat) : J FastVmTransactionResult :=
  c ← context_at ctx;
  let codeAddress := C.address c in
  let own := is_own (C.kind c) in
  _ ← (if own then prev ← context; change_context ctx (fun c => C.setDestinationAddress (C.address prev) c) else mret tt);
  state ← externalState;
  if negb (destinationAddressIsSafeForFvm state codeAddress)
  then mret (R.make FastVmResultCode.INCOMPATIBLE_CONTRACT_CALL 0 [])
  else
    parent ← peek;
    child ← new_world (newChildExternalState state);
    c ← context_at ctx;
    childState ← world_at child;
    _ ← effect (SideEffects.addInternalTransaction
          (contractCallTransaction false (C.sender c) (C.address c) (getNonce childState (C.sender c))
             (C.getTransferValue c) (C.callData c) 0 1));
    _ ← (if own then mret tt
         else _ ← change_world child (addBalance (C.sender c) (- C.getTransferValue c));
              change_world child (addBalance (C.address c) (C.getTransferValue c)));
    result ← callCode codeAddress ctx child;
    finish ctx parent.2 child result.

(** The state of the child before the creation code runs. *)
Definition prepareCreate (ctx : ExecutionContext) (newAddress : list Z) (oldBalance : Z) (childState : S) : S :=
  let childState := createAccount newAddress childState in
  let childState := incrementNonce newAddress childState in
  let childState := addBalance newAddress oldBalance childState in
  let transferAmount := C.getTransferValue ctx in
  let childState := addBalance (C.sender ctx) (- transferAmount) childState in
  let childState := addBalance newAddress transferAmount childState in
  incrementNonce (C.sender ctx) childState.

(** Whether the new address is taken. *)
Definition alreadyExists (newAddress : list Z) (childState : S) : bool :=
  let taken := hasAccountState childState newAddress in
  if isFork040enabled childState
  then match getCode childState newAddress with
       | None | Some [] => false
       | _ => taken
       end
  else taken.

Definition createTx (ctx : ExecutionContext) (s : S) : InternalTransaction :=
  contractCreateTransaction false (C.sender ctx) (getNonce s (C.sender ctx)) (C.getTransferValue ctx) (C.callData ctx) 0 1.

(** The execution proper of a creation. *)
Definition createCode (taken : bool) (ctx child : nat) : J FastVmTransactionResult :=
  c ← context_at ctx;
  childState ← world_at child;
  let result := R.make FastVmResultCode.SUCCESS (C.nrg c) [] in
  if taken then mret (R.setResultCodeAndEnergyRemaining FastVmResultCode.FAILURE 0 result)
  else if (length (C.callData c) =? 0)%nat then mret result
  else runFork (isForkSignatureSwapEnabled childState) (C.callData c) ctx child.

(** The end of a creation: the deposit for the code and the code itself. *)
Definition finishCreate (newAddress : list Z) (ctx parent child : nat) (result : FastVmTransactionResult) : J FastVmTransactionResult :=
  if bool_decide (R.code result = FastVmResultCode.SUCCESS)
  then
    if R.energyRemaining result <? FvmConstants.ENERGY_CODE_DEPOSIT
    then _ ← reject ctx; mret (R.setResultCodeAndEnergyRemaining FastVmResultCode.FAILURE 0 result)
    else
      _ ← change_world child (putCode newAddress (R.output result));
      _ ← commit_to parent child;
      mret (R.setReturnData newAddress result)
  else _ ← reject ctx; mret result.

Definition doCreate (ctx : nat) : J FastVmTransactionResult :=
  parent ← peek;
  state ← externalState;
  child ← new_world (newChildExternalState state);
  c ← context_at ctx;
  childState ← world_at child;
  let newAddress := computeNewContractAddress (C.sender c) (getNonce childState (C.sender c)) in
  _ ← change_context ctx (fun c => C.setDestinationAddress newAddress c);
  _ ← effect (SideEffects.addInternalTransaction (createTx c childState));
  let taken := alreadyExists newAddress childState in
  oldBalance ← lift_option (getBalance childState newAddress);
  _ ← change_world child (prepareCreate c newAddress oldBalance);
  childState ← world_at child;
  _ ← change_context ctx (marked (SideEffects.addInternalTransaction (createTx c childState)));
  result ← createCode taken ctx child;
  finishCreate newAddress ctx parent.2 child result.

Definition failure : FastVmTransactionResult := R.make FastVmResultCode.FAILURE 0 [].

(** Side effects of a nested execution: all of a successful one, the internal
    transactions of a failed one. *)
Definition mergeEffects (result : FastVmTransactionResult) (ctx : nat) : J () :=
  c ← context_at ctx;
  effect (if bool_decide (R.code result = FastVmResultCode.SUCCESS) then SideEffects.merge (C.sideEffects c)
          else SideEffects.addInternalTransactions (SideEffects.internalTxs (C.sideEffects c))).

(** [performCall] from the checks to the side effects. *)
Definition nested (ctx : nat) (c : ExecutionContext) : J FastVmTransactionResult :=
  if FvmConstants.MAX_CALL_DEPTH <=? C.depth c then mret failure
  else
    state ← externalState;
    callersBalance ← lift_option (getBalance state (C.sender c));
    if callersBalance <? C.getTransferValue c then mret failure
    else
      result ← (if bool_decide (C.kind c = TransactionKind.CREATE) then doCreate ctx else doCall ctx);
      _ ← mergeEffects result ctx;
      mret result.

(** [performCall] up to the encoding of its result. *)
Definition performResult (message : list Z) : J FastVmTransactionResult :=
  prev ← context;
  c ← lift_option (parseMessage prev message);
  ctx ← new_context c;
  nested ctx c.

Definition performCall (message : list Z) : J (list Z) :=
  result ← performResult message;
  lift_option (R.toBytes result).

(** [call] catches everything that is thrown. *)
Definition call (message : list Z) : J (list Z) := fun st =>
  match performCall message st with
  | (Some r, st) => (Some r, st)
  | (None, st) => lift_option (R.toBytes (R.make FastVmResultCode.VM_INTERNAL_ERROR 0 [])) st
  end.

(** ** Methods on a stack whose top is known *)

Definition on_top (ci wi : nat) (c : ExecutionContext) (s : S) (st : jvm N S) : Prop :=
  head (stack st) = Some (ci, wi) /\ contexts st !! ci = Some c /\ worlds st !! wi = Some s.

Lemma bind_peek {A} (f : nat * nat -> J A) p st : head (stack st) = Some p -> (peek ≫= f) st = f p st.
Proof. intros E. unfold peek, mbind, method_bind. by rewrite E. Qed.
Lemma bind_context {A} (f : ExecutionContext -> J A) ci wi c s st : on_top ci wi c s st -> (context ≫= f) st = f c st.
Proof. intros (E & Ec & _). unfold context, context_at, peek, mbind, method_bind. rewrite E. cbn. by rewrite Ec. Qed.
Lemma bind_state {A} (f : S -> J A) ci wi c s st : on_top ci wi c s st -> (externalState ≫= f) st = f s st.
Proof. intros (E & _ & Es). unfold externalState, world_at, peek, mbind, method_bind. rewrite E. cbn. by rewrite Es. Qed.
Lemma bind_lift {A B} (a : A) (f : A -> J B) st : (lift_option (Some a) ≫= f) st = f a st.
Proof. done. Qed.
Lemma bind_context_at {A} (f : ExecutionContext -> J A) i c st : contexts st !! i = Some c -> (context_at i ≫= f) st = f c st.
Proof. intros E. unfold context_at, mbind, method_bind. by rewrite E. Qed.
Lemma bind_world_at {A} (f : S -> J A) i s st : worlds st !! i = Some s -> (world_at i ≫= f) st = f s st.
Proof. intros E. unfold world_at, mbind, method_bind. by rewrite E. Qed.
Lemma bind_inv {A B} (m : J A) (f : A -> J B) st b st' :
  (m ≫= f) st = (Some b, st') -> exists a st1, m st = (Some a, st1) /\ f a st1 = (Some b, st').
Proof. unfold mbind, method_bind. destruct (m st) as [[a |] st1]; [eauto | done]. Qed.
Lemma assoc_bind {A B D} (m : J A) (f : A -> J B) (g : B -> J D) st : ((m ≫= f) ≫= g) st = (m ≫= fun a => f a ≫= g) st.
Proof. unfold mbind, method_bind. by destruct (m st) as [[a |] st1]. Qed.
Lemma bind_none {A B} (m : J A) (f : A -> J B) st st1 : m st = (None, st1) -> (m ≫= f) st = (None, st1).
Proof. intros E. unfold mbind, method_bind. by rewrite E. Qed.
Lemma bind_eq {A B} (m : J A) (f : A -> J B) a st st1 : m st = (Some a, st1) -> (m ≫= f) st = f a st1.
Proof. intros E. unfold mbind, method_bind. by rewrite E. Qed.
Lemma effect_top g ci wi c s st : on_top ci wi c s st ->
  exists st1, effect g st = (Some tt, st1) /\ on_top ci wi (marked g c) s st1 /\ worlds st1 = worlds st /\ stack st1 = stack st /\
    contexts st1 = alter (marked g) ci (contexts st) /\ library st1 = library st.
Proof.
  intros (E & Ec & Es). unfold effect. rewrite (bind_peek _ _ _ E). eexists. split; [reflexivity |].
  split_and!; try done. split_and!; cbn; [done | by rewrite list_lookup_alter_eq, Ec | done].
Qed.
Lemma update_top g ci wi c s st : on_top ci wi c s st ->
  exists st1, update g st = (Some tt, st1) /\ on_top ci wi c (g s) st1 /\ contexts st1 = contexts st /\ stack st1 = stack st /\
    worlds st1 = alter g wi (worlds st) /\ library st1 = library st.
Proof.
  intros (E & Ec & Es). unfold update. rewrite (bind_peek _ _ _ E). eexists. split; [reflexivity |].
  split_and!; try done. split_and!; cbn; [done | done | by rewrite list_lookup_alter_eq, Es].
Qed.
End Callback.

(** ** Balances *)

Section Balances.
Context {N S : Type} `{ExternalState S}.

(** The balance of an account; [null] counts as zero. *)
Definition balance (s : S) (a : list Z) : Z := default 0 (getBalance s a).

(** What the code relies on of the interface for balances: it returns the
    balance, additions, children that start as their parent, commits, and the
    other operations that leave balances alone; a new account has none. *)
Record balances_ok : Prop := {
  bal_some s a : is_Some (getBalance s a);
  bal_add a v s b : balance (addBalance a v s) b = balance s b + (if decide (a = b) then v else 0);
  bal_child s a : balance (newChildExternalState s) a = balance s a;
  bal_commit child s a : balance (commit child s) a = balance child a;
  bal_create a s b : balance (createAccount a s) b = if decide (a = b) then 0 else balance s b;
  bal_nonce a s b : balance (incrementNonce a s) b = balance s b;
  bal_code a code s b : balance (putCode a code s) b = balance s b
}.

Context (HB : balances_ok).

Lemma getBalance_some s a : getBalance s a = Some (balance s a).
Proof. unfold balance. by destruct (bal_some HB s a) as [v ->]. Qed.

Lemma get_ok n b l b' : bytes_ok b -> get n b = Some (l, b') -> bytes_ok l /\ bytes_ok b'.
Proof. unfold get. intros Hb. case_match; [| done]. intros [= <- <-]. split; [by apply Forall_take | by apply Forall_drop]. Qed.

(** The value of a parsed message is a number. *)
Lemma parseMessage_value prev message ctx :
  bytes_ok message -> parseMessage prev message = Some ctx -> 0 <= C.getTransferValue ctx.
Proof.
  intros Hm. unfold parseMessage, getLong.
  intros ([a m1] & G1 & Hrest)%bind_Some. destruct (get_ok _ _ _ _ Hm G1) as [_ Hm1]. clear G1.
  apply bind_Some in Hrest as ([b m2] & G2 & Hrest). destruct (get_ok _ _ _ _ Hm1 G2) as [_ Hm2]. clear G2.
  apply bind_Some in Hrest as ([g m3] & G3 & Hrest). apply bind_Some in G3 as ([l m3'] & G3 & [= <- <-]).
  destruct (get_ok _ _ _ _ Hm2 G3) as [_ Hm3]. clear G3.
  apply bind_Some in Hrest as ([v m4] & G4 & Hrest). destruct (get_ok _ _ _ _ Hm3 G4) as [Hv _]. clear G4.
  cbv zeta in Hrest.
  apply bind_Some in Hrest as ([n m5] & _ & Hrest). apply bind_Some in Hrest as ([data m6] & _ & Hrest).
  apply bind_Some in Hrest as ([d m7] & _ & Hrest). apply bind_Some in Hrest as ([k m8] & _ & Hrest).
  apply bind_Some in Hrest as (kd & _ & Hrest). apply bind_Some in Hrest as ([fl m9] & _ & Hrest).
  apply bind_Some in Hrest as (price & _ & Hrest). apply bind_Some in Hrest as (w & Hw & [= <-]).
  unfold C.getTransferValue, FvmDataWord.toBigInteger. cbn. unfold fromMagnitude in *.
  pose proof (be_val_range v Hv). rewrite FvmDataWord.fromBigInteger_spec in Hw by lia.
  destruct (Z.ltb_spec (be_val v) (2 ^ 128)); [| done]. injection Hw as <-. apply be_val_range, be_bytes_ok.
Qed.

(** SELFDESTRUCT empties the account and moves its whole balance to the
    beneficiary, and touches no other balance; it records the transfer and marks
    the account as deleted; when the account is its own beneficiary the balance
    is destroyed. *)
Theorem selfdestruct_balance sender destination ci wi c s (st : jvm N S) :
  on_top ci wi c s st ->
  exists c' s' st', selfDestruct sender destination st = (Some tt, st') /\ on_top ci wi c' s' st' /\ stack st' = stack st /\
    (forall a, balance s' a = if decide (sender = a) then 0
       else balance s a + (if decide (destination = a) then balance s sender else 0)) /\
    sender ∈ SideEffects.deleteAccounts (C.sideEffects c') /\
    SideEffects.internalTxs (C.sideEffects c') = SideEffects.internalTxs (C.sideEffects c) ++
      [contractCallTransaction false sender destination (getNonce s sender) (balance s sender) [] 0 1].
Proof.
  intros Hst. unfold selfDestruct. rewrite (bind_state _ _ _ _ _ _ Hst), getBalance_some, bind_lift. cbv zeta.
  destruct (effect_top (SideEffects.addInternalTransaction (contractCallTransaction false sender destination (getNonce s sender) (balance s sender) [] 0 1))
    _ _ _ _ _ Hst) as (st1 & E1 & H1 & _ & S1 & _). rewrite (bind_eq _ _ _ _ _ E1).
  destruct (update_top (addBalance sender (- balance s sender)) _ _ _ _ _ H1) as (st2 & E2 & H2 & _ & S2 & _). rewrite (bind_eq _ _ _ _ _ E2).
  destruct (decide (sender = destination)) as [<- | Hne].
  - rewrite bool_decide_eq_true_2 by done.
    destruct (effect_top (SideEffects.addToDeletedAddresses sender) _ _ _ _ _ H2) as (st4 & E4 & H4 & _ & S4 & _).
    eexists _, _, st4. split; [exact E4 |]. split; [exact H4 |]. split; [congruence |]. split; [| split; [cbn; set_solver | done]].
    intros a. rewrite (bal_add HB). destruct (decide (sender = a)) as [<- |]; lia.
  - rewrite bool_decide_eq_false_2 by done.
    destruct (update_top (addBalance destination (balance s sender)) _ _ _ _ _ H2) as (st3 & E3 & H3 & _ & S3 & _). rewrite (bind_eq _ _ _ _ _ E3).
    destruct (effect_top (SideEffects.addToDeletedAddresses sender) _ _ _ _ _ H3) as (st4 & E4 & H4 & _ & S4 & _).
    eexists _, _, st4. split; [exact E4 |]. split; [exact H4 |]. split; [congruence |]. split; [| split; [cbn; set_solver | done]].
    intros a. rewrite !(bal_add HB). destruct (decide (sender = a)) as [<- |]; [rewrite decide_False by done; lia |]. lia.
Qed.
End Balances.

(** ** Storage *)

Section Storage.
Context {N S : Type} `{ExternalState S}.

(** What the interface documents: the value stored last, and [null] where
    there is none. *)
Record storage_ok : Prop := {
  sto_add a k v s : getStorageValue (addStorageValue a k v s) a k = Some v;
  sto_add_other a k v s a' k' : (a, k) <> (a', k') ->
    getStorageValue (addStorageValue a k v s) a' k' = getStorageValue s a' k';
  sto_remove a k s : getStorageValue (removeStorage a k s) a k = None;
  sto_remove_other a k s a' k' : (a, k) <> (a', k') ->
    getStorageValue (removeStorage a k s) a' k' = getStorageValue s a' k'
}.

Lemma getStorage_top a k ci wi c s (st : jvm N S) : on_top ci wi c s st -> length k = 16%nat ->
  (getStorage a k st).1 = getStorageValue s a k.
Proof.
  intros Hst Hk. unfold getStorage. rewrite (bind_state _ _ _ _ _ _ Hst). unfold FvmDataWord.fromBytes. rewrite Hk. cbn [Nat.eqb].
  rewrite bind_lift. by destruct (getStorageValue s a k).
Qed.

(** A word that is stored is read back and no other word changes, except
    that after a zero has been stored, which removes the pair, reading throws
    where the interface answers [null] as documented. *)
Theorem storage_roundtrip a k v a' k' ci wi c s (st : jvm N S) :
  storage_ok -> length k = 16%nat -> length k' = 16%nat -> length v = 16%nat -> on_top ci wi c s st ->
  exists s' st', putStorage a k v st = (Some tt, st') /\ on_top ci wi c s' st' /\ stack st' = stack st /\
    (getStorage a k st').1 = (if isZero v then None else Some v) /\
    ((a, k) <> (a', k') -> (getStorage a' k' st').1 = (getStorage a' k' st).1).
Proof.
  intros Hok Hk Hk' Hv Hst. assert (Hw : forall l, length l = 16%nat -> FvmDataWord.fromBytes l = Some l).
  { intros l Hl. unfold FvmDataWord.fromBytes. by rewrite Hl. }
  unfold putStorage. rewrite (Hw k Hk), bind_lift, Hv. cbn [Nat.eqb orb]. destruct (isZero v).
  - destruct (update_top (removeStorage a k) _ _ _ _ _ Hst) as (st' & E & Ht & _ & Hs & _). eexists _, st'. split; [exact E |]. split; [exact Ht |]. split; [done |].
    rewrite (getStorage_top _ _ _ _ _ _ _ Ht Hk), (sto_remove Hok). split; [done |]. intros Hne.
    by rewrite (getStorage_top _ _ _ _ _ _ _ Ht Hk'), (getStorage_top _ _ _ _ _ _ _ Hst Hk'), (sto_remove_other Hok).
  - rewrite (Hw v Hv), bind_lift.
    destruct (update_top (addStorageValue a k v) _ _ _ _ _ Hst) as (st' & E & Ht & _ & Hs & _). eexists _, st'. split; [exact E |]. split; [exact Ht |]. split; [done |].
    rewrite (getStorage_top _ _ _ _ _ _ _ Ht Hk), (sto_add Hok). split; [done |]. intros Hne.
    by rewrite (getStorage_top _ _ _ _ _ _ _ Ht Hk'), (getStorage_top _ _ _ _ _ _ _ Hst Hk'), (sto_add_other Hok).
Qed.
End Storage.

(** ** Exceptions *)

Section Exceptions.
Context {N S : Type} `{ExternalState S}.
Context (equals : InternalTransaction -> InternalTransaction -> bool) (computeNewContractAddress : list Z -> Z -> list Z).
Context (native_run : bool -> list Z -> list Z -> method N S (list Z)).

(** The world state in which the code of a plain call runs. *)
Definition callee_state (ctx : ExecutionContext) (s : S) : S :=
  addBalance (C.address ctx) (C.getTransferValue ctx) (addBalance (C.sender ctx) (- C.getTransferValue ctx) (newChildExternalState s)).

(** A run that throws keeps the frame it pushed, and what it left above. *)
Lemma runFork_throws post code ctx world st :
  (forall bytes st1, exists st2 l, native_run post code bytes st1 = (None, st2) /\ stack st2 = l ++ stack st1) ->
  exists st2 l, runFork native_run post code ctx world st = (None, st2) /\ stack st2 = l ++ (ctx, world) :: stack st.
Proof.
  intros Hn. unfold runFork. erewrite bind_eq by reflexivity. set (st1 := mkJvm _ _ _ _).
  assert (exists o st2, encode ctx st1 = (o, st2) /\ stack st2 = stack st1) as (o & st2 & E & H2).
  { unfold encode. erewrite bind_eq by reflexivity. unfold context_at, mbind, method_bind. cbn [contexts].
    destruct (_ !! ctx); [cbn; destruct (_ <$> _) |]; by eexists _, _. }
  destruct o as [bytes |]; [| unfold mbind, method_bind; rewrite E; exists st2, []; by rewrite H2].
  rewrite (bind_eq _ _ _ _ _ E). destruct (Hn bytes st2) as (st3 & l & E3 & H3). unfold mbind, method_bind. rewrite E3.
  exists st3, l. by rewrite H3, H2.
Qed.

(** In [doCall]. *)
Lemma doCall_throws ci wi c s st i ctx code :
  on_top ci wi c s st -> contexts st !! i = Some ctx -> ci <> i -> C.kind ctx = TransactionKind.CALL ->
  destinationAddressIsSafeForFvm s (C.address ctx) = true ->
  isPrecompiledContract (callee_state ctx s) (C.address ctx) = false ->
  hasAccountState (callee_state ctx s) (C.address ctx) = true ->
  getCode (callee_state ctx s) (C.address ctx) = Some code -> code <> [] ->
  (forall bytes st1, exists st2 l, native_run (isForkSignatureSwapEnabled (callee_state ctx s)) code bytes st1 = (None, st2) /\ stack st2 = l ++ stack st1) ->
  exists st' l, doCall equals native_run i st = (None, st') /\ stack st' = l ++ (i, length (worlds st)) :: stack st.
Proof.
  intros Ht Hi Hne Hk Hsafe Hp Ha Hc Hcode Hn. unfold doCall. rewrite (bind_context_at _ _ _ _ Hi). cbv zeta.
  unfold is_own. rewrite Hk. cbn [bool_decide orb]. rewrite !bool_decide_eq_false_2 by done. cbn [orb].
  erewrite bind_eq by reflexivity. rewrite (bind_state _ _ _ _ _ _ Ht), Hsafe. cbn [negb].
  pose proof Ht as (Hh & Hci & Hwi). rewrite (bind_peek _ _ _ Hh). erewrite bind_eq by reflexivity.
  set (w := length (worlds st)). set (st1 := mkJvm (contexts st) _ (stack st) (library st)).
  rewrite (bind_context_at _ i ctx) by exact Hi. rewrite (bind_world_at _ w (newChildExternalState s)) by (by apply list_lookup_middle).
  unfold effect at 1. rewrite assoc_bind, (bind_peek _ (ci, wi) st1 Hh). erewrite bind_eq by reflexivity.
  rewrite assoc_bind. erewrite bind_eq by reflexivity. erewrite bind_eq by reflexivity.
  set (st2 := mkJvm _ _ _ _).
  assert (contexts st2 !! i = Some ctx) as Hi2 by (cbn; by rewrite list_lookup_alter_ne).
  assert (worlds st2 !! w = Some (callee_state ctx s)) as Hw2 by (cbn; by rewrite !list_lookup_alter_eq, list_lookup_middle).
  assert (stack st2 = stack st) as Hs2 by done. clearbody st2.
  unfold callCode. rewrite assoc_bind, (bind_context_at _ _ _ _ Hi2), assoc_bind, (bind_world_at _ _ _ _ Hw2), Hp. cbv zeta.
  rewrite Ha, Hc. change (default [] (Some code)) with code. destruct (Nat.eqb_spec (length code) 0) as [E |]; [by destruct code |].
  destruct (runFork_throws _ code i w st2 Hn) as (st3 & l & E3 & H3). exists st3, l. split; [apply bind_none; exact E3 | by rewrite H3, Hs2].
Qed.

(** C39: A nested run that throws leaves its frame on the stack of Callback, as
    nothing removes it on that path: when a contract calls another one that has
    code, can pay and is not too deep, and the native run of that code throws,
    then [call] answers VM_INTERNAL_ERROR, and the frame of the callee stays on
    top of the caller's, under whatever the run itself has left.  *)
Theorem exception_keeps_frame message ci wi c s st ctx code :
  on_top ci wi c s st -> parseMessage c message = Some ctx -> C.kind ctx = TransactionKind.CALL ->
  C.depth ctx < FvmConstants.MAX_CALL_DEPTH ->
  (exists b, getBalance s (C.sender ctx) = Some b /\ C.getTransferValue ctx <= b) ->
  destinationAddressIsSafeForFvm s (C.address ctx) = true ->
  isPrecompiledContract (callee_state ctx s) (C.address ctx) = false ->
  hasAccountState (callee_state ctx s) (C.address ctx) = true ->
  getCode (callee_state ctx s) (C.address ctx) = Some code -> code <> [] ->
  (forall bytes st1, exists st2 l, native_run (isForkSignatureSwapEnabled (callee_state ctx s)) code bytes st1 = (None, st2) /\ stack st2 = l ++ stack st1) ->
  exists st' l, call equals computeNewContractAddress native_run message st = (R.toBytes (R.make FastVmResultCode.VM_INTERNAL_ERROR 0 []), st') /\
    stack st' = l ++ (length (contexts st), length (worlds st)) :: stack st.
Proof.
  intros Ht Hm Hk Hd (b & Hb & Hv) Hsafe Hp Ha Hc Hcode Hn. unfold call, performCall, performResult.
  rewrite !assoc_bind, (bind_context _ _ _ _ _ _ Ht), assoc_bind, Hm, bind_lift, assoc_bind. erewrite bind_eq by reflexivity.
  set (st1 := mkJvm (contexts st ++ [ctx]) (worlds st) (stack st) (library st)). destruct Ht as (Hh & Hci & Hwi).
  pose proof (lookup_lt_Some _ _ _ Hci) as Hlt.
  assert (on_top ci wi c s st1) as Ht1 by (split_and!; [done | by apply lookup_app_l_Some | done]).
  destruct (doCall_throws ci wi c s st1 (length (contexts st)) ctx code Ht1) as (st2 & l & E & H2); try done.
  { by apply list_lookup_middle. } { lia. }
  exists st2, l. split; [| done]. unfold nested. destruct (Z.leb_spec FvmConstants.MAX_CALL_DEPTH (C.depth ctx)); [lia |].
  rewrite assoc_bind, (bind_state _ _ _ _ _ _ Ht1), Hb, assoc_bind, bind_lift. destruct (Z.ltb_spec b (C.getTransferValue ctx)); [lia |].
  rewrite bool_decide_eq_false_2 by (by rewrite Hk). rewrite assoc_bind, (bind_none _ _ _ _ E). reflexivity.
Qed.
End Exceptions.

(** ** A world of maps *)

Record world := mkWorld {
  w_balance : gmap (list Z) Z;
  w_nonce : gmap (list Z) Z;
  w_code : gmap (list Z) (list Z);
  w_storage : gmap (list Z * list Z) (list Z)
}.

#[global] Instance world_state : ExternalState world := {
  newChildExternalState s := s;
  commit child _ := child;
  isPrecompiledContract _ _ := false;
  runInternalPrecompiledContractCall ctx s := (R.make FastVmResultCode.SUCCESS (C.nrg ctx) [], ctx, s);
  addStorageValue a k v s := mkWorld (w_balance s) (w_nonce s) (w_code s) (<[(a, k) := v]> (w_storage s));
  removeStorage a k s := mkWorld (w_balance s) (w_nonce s) (w_code s) (delete (a, k) (w_storage s));
  getStorageValue s a k := w_storage s !! (a, k);
  destinationAddressIsSafeForFvm _ _ := true;
  getCode s a := w_code s !! a;
  putCode a code s := mkWorld (w_balance s) (w_nonce s) (<[a := code]> (w_code s)) (w_storage s);
  hasAccountState s a := bool_decide (is_Some (w_balance s !! a));
  createAccount a s := mkWorld (<[a := 0]> (w_balance s)) (w_nonce s) (w_code s) (w_storage s);
  getBalance s a := Some (default 0 (w_balance s !! a));
  addBalance a v s := mkWorld (<[a := default 0 (w_balance s !! a) + v]> (w_balance s)) (w_nonce s) (w_code s) (w_storage s);
  getNonce s a := default 0 (w_nonce s !! a);
  incrementNonce a s := mkWorld (w_balance s) (<[a := default 0 (w_nonce s !! a) + 1]> (w_nonce s)) (w_code s) (w_storage s);
  isFork040enabled _ := true;
  isForkSignatureSwapEnabled _ := true;
  getBlockHashByNumber _ _ := None
}.

Lemma world_balances_ok : balances_ok (S := world).
Proof.
  split; unfold balance; cbn; intros; try done.
  - destruct (decide (a = b)) as [-> |]; [by rewrite lookup_insert_eq | rewrite lookup_insert_ne by done; cbn; lia].
  - destruct (decide (a = b)) as [-> |]; [by rewrite lookup_insert_eq | by rewrite lookup_insert_ne].
Qed.

Lemma world_storage_ok : storage_ok (S := world).
Proof.
  split; cbn; intros.
  - apply lookup_insert_eq.
  - by apply lookup_insert_ne.
  - apply lookup_delete_eq.
  - by apply lookup_delete_ne.
Qed.

Definition ten : world := mkWorld {[replicate 32 2 := 10]} ∅ ∅ ∅.

(** The stack with one frame. *)
Definition one_frame (c : ExecutionContext) (s : world) : jvm () world := mkJvm [c] [s] [(0%nat, 0%nat)] tt.

Lemma selfdestruct_balance_witness :
  exists c' s' st', selfDestruct (replicate 32 2) (replicate 32 1) (one_frame (null_context 0) ten) = (Some tt, st') /\
    on_top 0 0 c' s' st' /\ balance s' (replicate 32 2) = 0 /\ balance s' (replicate 32 1) = 10.
Proof.
  destruct (selfdestruct_balance world_balances_ok (replicate 32 2) (replicate 32 1) 0 0 (null_context 0) ten (one_frame (null_context 0) ten))
    as (c' & s' & st' & H1 & H2 & _ & H3 & _); [split_and!; reflexivity |].
  exists c', s', st'. split; [exact H1 |]. split; [exact H2 |]. rewrite !H3. split; reflexivity.
Defined.

Lemma storage_roundtrip_witness :
  exists s' st', putStorage [1] (replicate 16 1) (replicate 16 2) (one_frame (null_context 0) ten) = (Some tt, st') /\
    on_top 0 0 (null_context 0) s' st' /\ (getStorage [1] (replicate 16 1) st').1 = Some (replicate 16 2).
Proof.
  destruct (storage_roundtrip [1] (replicate 16 1) (replicate 16 2) [2] (replicate 16 3) 0 0 (null_context 0) ten (one_frame (null_context 0) ten))
    as (s' & st' & H1 & H2 & _ & H3 & _); [apply world_storage_ok | reflexivity .. | split_and!; reflexivity |].
  exists s', st'. split; [exact H1 |]. split; [exact H2 | exact H3].
Defined.

(** A call from the contract at 1 to the one at 3, which has code. *)
Definition inner_message : list Z :=
  replicate 32 3 ++ replicate 32 1 ++ be_bytes 8 1000 ++ be_bytes 16 0 ++ be_bytes 4 0 ++ be_bytes 4 1 ++ be_bytes 4 0 ++ be_bytes 4 0.
Definition two_contracts : world :=
  mkWorld {[replicate 32 1 := 10; replicate 32 3 := 0]} ∅ {[replicate 32 3 := [0x5b; 0]]} ∅.
Definition inner_context : ExecutionContext := default (null_context 0) (parseMessage (null_context 0) inner_message).

Lemma exception_keeps_frame_witness :
  exists st' l, call (fun _ _ => false) (fun _ _ => replicate 32 9) (fun _ _ _ => throw) inner_message (one_frame (null_context 0) two_contracts) =
      (R.toBytes (R.make FastVmResultCode.VM_INTERNAL_ERROR 0 []), st') /\
    stack st' = l ++ [(1%nat, 1%nat); (0%nat, 0%nat)].
Proof.
  apply (exception_keeps_frame (fun _ _ => false) (fun _ _ => replicate 32 9) (fun _ _ _ => throw) inner_message 0 0 (null_context 0) two_contracts
    (one_frame (null_context 0) two_contracts) inner_context [0x5b; 0]).
  - split_and!; reflexivity.
  - vm_compute. reflexivity.
  - vm_compute. reflexivity.
  - vm_compute. reflexivity.
  - exists 10. vm_compute. split; [reflexivity | discriminate].
  - reflexivity.
  - reflexivity.
  - vm_compute. reflexivity.
  - vm_compute. reflexivity.
  - discriminate.
  - intros bytes st1. exists st1, []. split; reflexivity.
Defined.
