(* ===== verification/AsmItem.v ===== *)
(** * Assembly items of the Solidity compiler

    libevmasm/Instruction.h and Instruction.cpp: the opcodes that the Solidity
    compiler knows and its table of their names, arguments, results and side
    effects; AssemblyItem.h and AssemblyItem.cpp: the items of an assembly;
    SemanticInformation.cpp: what the optimisers ask about them.  The
    enumeration [Instruction : uint8_t] is its byte.  Source locations, jump
    types and recorded push values, which only debug output shows, are left
    out. *)
From Stdlib Require Import String.
From stdpp Require Import strings pretty.
From S2P Require Import Prelude Bytes.
Open Scope string_scope.
Open Scope Z_scope.

(** [enum class Tier]. *)
Inductive Tier := TZero | TBase | TVeryLow | TLow | TMid | THigh | TExt | TExtCode | TBalance | TSpecial | TInvalid.

(** [struct InstructionInfo]. *)
Record InstructionInfo := mkInfo {
  i_name : string;
  additional : nat;
  args : nat;
  ret : nat;
  sideEffects : bool;
  gasPriceTier : Tier
}.

(** [enum class Instruction], with the names of its enumerators. *)
Definition opcodes : list (string * Z) :=
  [("STOP", 0x00); ("ADD", 0x01); ("MUL", 0x02); ("SUB", 0x03); ("DIV", 0x04);
   ("SDIV", 0x05); ("MOD", 0x06); ("SMOD", 0x07); ("ADDMOD", 0x08); ("MULMOD", 0x09);
   ("EXP", 0x0a); ("SIGNEXTEND", 0x0b); ("LT", 0x10); ("GT", 0x11); ("SLT", 0x12);
   ("SGT", 0x13); ("EQ", 0x14); ("ISZERO", 0x15); ("AND", 0x16); ("OR", 0x17);
   ("XOR", 0x18); ("NOT", 0x19); ("BYTE", 0x1a); ("KECCAK256", 0x20); ("ADDRESS", 0x30);
   ("BALANCE", 0x31); ("ORIGIN", 0x32); ("CALLER", 0x33); ("CALLVALUE", 0x34); ("CALLDATALOAD", 0x35);
   ("CALLDATASIZE", 0x36); ("CALLDATACOPY", 0x37); ("CODESIZE", 0x38); ("CODECOPY", 0x39); ("GASPRICE", 0x3a);
   ("EXTCODESIZE", 0x3b); ("EXTCODECOPY", 0x3c); ("RETURNDATASIZE", 0x3d); ("RETURNDATACOPY", 0x3e); ("BLOCKHASH", 0x40);
   ("COINBASE", 0x41); ("TIMESTAMP", 0x42); ("NUMBER", 0x43); ("DIFFICULTY", 0x44); ("GASLIMIT", 0x45);
   ("JUMPTO", 0x4a); ("JUMPIF", 0x4b); ("JUMPV", 0x4c); ("JUMPSUB", 0x4d); ("JUMPSUBV", 0x4e);
   ("RETURNSUB", 0x4f); ("POP", 0x50); ("MLOAD", 0x51); ("MSTORE", 0x52); ("MSTORE8", 0x53);
   ("SLOAD", 0x54); ("SSTORE", 0x55); ("JUMP", 0x56); ("JUMPI", 0x57); ("PC", 0x58);
   ("MSIZE", 0x59); ("GAS", 0x5a); ("JUMPDEST", 0x5b); ("BEGINSUB", 0x5c); ("BEGINDATA", 0x5d);
   ("PUSH1", 0x60); ("PUSH2", 0x61); ("PUSH3", 0x62); ("PUSH4", 0x63); ("PUSH5", 0x64);
   ("PUSH6", 0x65); ("PUSH7", 0x66); ("PUSH8", 0x67); ("PUSH9", 0x68); ("PUSH10", 0x69);
   ("PUSH11", 0x6a); ("PUSH12", 0x6b); ("PUSH13", 0x6c); ("PUSH14", 0x6d); ("PUSH15", 0x6e);
   ("PUSH16", 0x6f); ("PUSH17", 0x70); ("PUSH18", 0x71); ("PUSH19", 0x72); ("PUSH20", 0x73);
   ("PUSH21", 0x74); ("PUSH22", 0x75); ("PUSH23", 0x76); ("PUSH24", 0x77); ("PUSH25", 0x78);
   ("PUSH26", 0x79); ("PUSH27", 0x7a); ("PUSH28", 0x7b); ("PUSH29", 0x7c); ("PUSH30", 0x7d);
   ("PUSH31", 0x7e); ("PUSH32", 0x7f); ("DUP1", 0x80); ("DUP2", 0x81); ("DUP3", 0x82);
   ("DUP4", 0x83); ("DUP5", 0x84); ("DUP6", 0x85); ("DUP7", 0x86); ("DUP8", 0x87);
   ("DUP9", 0x88); ("DUP10", 0x89); ("DUP11", 0x8a); ("DUP12", 0x8b); ("DUP13", 0x8c);
   ("DUP14", 0x8d); ("DUP15", 0x8e); ("DUP16", 0x8f); ("DUP17", 0xb0); ("DUP18", 0xb1);
   ("DUP19", 0xb2); ("DUP20", 0xb3); ("DUP21", 0xb4); ("DUP22", 0xb5); ("DUP23", 0xb6);
   ("DUP24", 0xb7); ("DUP25", 0xb8); ("DUP26", 0xb9); ("DUP27", 0xba); ("DUP28", 0xbb);
   ("DUP29", 0xbc); ("DUP30", 0xbd); ("DUP31", 0xbe); ("DUP32", 0xbf); ("SWAP1", 0x90);
   ("SWAP2", 0x91); ("SWAP3", 0x92); ("SWAP4", 0x93); ("SWAP5", 0x94); ("SWAP6", 0x95);
   ("SWAP7", 0x96); ("SWAP8", 0x97); ("SWAP9", 0x98); ("SWAP10", 0x99); ("SWAP11", 0x9a);
   ("SWAP12", 0x9b); ("SWAP13", 0x9c); ("SWAP14", 0x9d); ("SWAP15", 0x9e); ("SWAP16", 0x9f);
   ("SWAP17", 0xc0); ("SWAP18", 0xc1); ("SWAP19", 0xc2); ("SWAP20", 0xc3); ("SWAP21", 0xc4);
   ("SWAP22", 0xc5); ("SWAP23", 0xc6); ("SWAP24", 0xc7); ("SWAP25", 0xc8); ("SWAP26", 0xc9);
   ("SWAP27", 0xca); ("SWAP28", 0xcb); ("SWAP29", 0xcc); ("SWAP30", 0xcd); ("SWAP31", 0xce);
   ("SWAP32", 0xcf); ("LOG0", 0xa0); ("LOG1", 0xa1); ("LOG2", 0xa2); ("LOG3", 0xa3);
   ("LOG4", 0xa4); ("CREATE", 0xf0); ("CALL", 0xf1); ("CALLCODE", 0xf2); ("RETURN", 0xf3);
   ("DELEGATECALL", 0xf4); ("STATICCALL", 0xfa); ("CREATE2", 0xfb); ("REVERT", 0xfd); ("INVALID", 0xfe);
   ("SELFDESTRUCT", 0xff)].

(** [c_instructionInfo]. *)
Definition c_instructionInfo : list (Z * InstructionInfo) :=
  [(0x00, mkInfo "STOP" 0 0 0 true TZero); (0x01, mkInfo "ADD" 0 2 1 false TVeryLow);
   (0x03, mkInfo "SUB" 0 2 1 false TVeryLow); (0x02, mkInfo "MUL" 0 2 1 false TLow);
   (0x04, mkInfo "DIV" 0 2 1 false TLow); (0x05, mkInfo "SDIV" 0 2 1 false TLow);
   (0x06, mkInfo "MOD" 0 2 1 false TLow); (0x07, mkInfo "SMOD" 0 2 1 false TLow);
   (0x0a, mkInfo "EXP" 0 2 1 false TSpecial); (0x19, mkInfo "NOT" 0 1 1 false TVeryLow);
   (0x10, mkInfo "LT" 0 2 1 false TVeryLow); (0x11, mkInfo "GT" 0 2 1 false TVeryLow);
   (0x12, mkInfo "SLT" 0 2 1 false TVeryLow); (0x13, mkInfo "SGT" 0 2 1 false TVeryLow);
   (0x14, mkInfo "EQ" 0 2 1 false TVeryLow); (0x15, mkInfo "ISZERO" 0 1 1 false TVeryLow);
   (0x16, mkInfo "AND" 0 2 1 false TVeryLow); (0x17, mkInfo "OR" 0 2 1 false TVeryLow);
   (0x18, mkInfo "XOR" 0 2 1 false TVeryLow); (0x1a, mkInfo "BYTE" 0 2 1 false TVeryLow);
   (0x08, mkInfo "ADDMOD" 0 3 1 false TMid); (0x09, mkInfo "MULMOD" 0 3 1 false TMid);
   (0x0b, mkInfo "SIGNEXTEND" 0 2 1 false TLow); (0x20, mkInfo "KECCAK256" 0 2 2 false TSpecial);
   (0x30, mkInfo "ADDRESS" 0 0 2 false TBase); (0x31, mkInfo "BALANCE" 0 2 1 false TBalance);
   (0x32, mkInfo "ORIGIN" 0 0 2 false TBase); (0x33, mkInfo "CALLER" 0 0 2 false TBase);
   (0x34, mkInfo "CALLVALUE" 0 0 1 false TBase); (0x35, mkInfo "CALLDATALOAD" 0 1 1 false TVeryLow);
   (0x36, mkInfo "CALLDATASIZE" 0 0 1 false TBase); (0x37, mkInfo "CALLDATACOPY" 0 3 0 true TVeryLow);
   (0x38, mkInfo "CODESIZE" 0 0 1 false TBase); (0x39, mkInfo "CODECOPY" 0 3 0 true TVeryLow);
   (0x3a, mkInfo "GASPRICE" 0 0 1 false TBase); (0x3b, mkInfo "EXTCODESIZE" 0 2 1 false TExtCode);
   (0x3c, mkInfo "EXTCODECOPY" 0 5 0 true TExtCode); (0x3d, mkInfo "RETURNDATASIZE" 0 0 1 false TBase);
   (0x3e, mkInfo "RETURNDATACOPY" 0 3 0 true TVeryLow); (0x40, mkInfo "BLOCKHASH" 0 1 2 false TExt);
   (0x41, mkInfo "COINBASE" 0 0 2 false TBase); (0x42, mkInfo "TIMESTAMP" 0 0 1 false TBase);
   (0x43, mkInfo "NUMBER" 0 0 1 false TBase); (0x44, mkInfo "DIFFICULTY" 0 0 1 false TBase);
   (0x45, mkInfo "GASLIMIT" 0 0 1 false TBase); (0x50, mkInfo "POP" 0 1 0 false TBase);
   (0x51, mkInfo "MLOAD" 0 1 1 true TVeryLow); (0x52, mkInfo "MSTORE" 0 2 0 true TVeryLow);
   (0x53, mkInfo "MSTORE8" 0 2 0 true TVeryLow); (0x54, mkInfo "SLOAD" 0 1 1 false TSpecial);
   (0x55, mkInfo "SSTORE" 0 2 0 true TSpecial); (0x56, mkInfo "JUMP" 0 1 0 true TMid);
   (0x57, mkInfo "JUMPI" 0 2 0 true THigh); (0x58, mkInfo "PC" 0 0 1 false TBase);
   (0x59, mkInfo "MSIZE" 0 0 1 false TBase); (0x5a, mkInfo "GAS" 0 0 1 false TBase);
   (0x5b, mkInfo "JUMPDEST" 0 0 0 true TSpecial); (0x60, mkInfo "PUSH1" 1 0 1 false TVeryLow);
   (0x61, mkInfo "PUSH2" 2 0 1 false TVeryLow); (0x62, mkInfo "PUSH3" 3 0 1 false TVeryLow);
   (0x63, mkInfo "PUSH4" 4 0 1 false TVeryLow); (0x64, mkInfo "PUSH5" 5 0 1 false TVeryLow);
   (0x65, mkInfo "PUSH6" 6 0 1 false TVeryLow); (0x66, mkInfo "PUSH7" 7 0 1 false TVeryLow);
   (0x67, mkInfo "PUSH8" 8 0 1 false TVeryLow); (0x68, mkInfo "PUSH9" 9 0 1 false TVeryLow);
   (0x69, mkInfo "PUSH10" 10 0 1 false TVeryLow); (0x6a, mkInfo "PUSH11" 11 0 1 false TVeryLow);
   (0x6b, mkInfo "PUSH12" 12 0 1 false TVeryLow); (0x6c, mkInfo "PUSH13" 13 0 1 false TVeryLow);
   (0x6d, mkInfo "PUSH14" 14 0 1 false TVeryLow); (0x6e, mkInfo "PUSH15" 15 0 1 false TVeryLow);
   (0x6f, mkInfo "PUSH16" 16 0 1 false TVeryLow); (0x70, mkInfo "PUSH17" 17 0 2 false TVeryLow);
   (0x71, mkInfo "PUSH18" 18 0 2 false TVeryLow); (0x72, mkInfo "PUSH19" 19 0 2 false TVeryLow);
   (0x73, mkInfo "PUSH20" 20 0 2 false TVeryLow); (0x74, mkInfo "PUSH21" 21 0 2 false TVeryLow);
   (0x75, mkInfo "PUSH22" 22 0 2 false TVeryLow); (0x76, mkInfo "PUSH23" 23 0 2 false TVeryLow);
   (0x77, mkInfo "PUSH24" 24 0 2 false TVeryLow); (0x78, mkInfo "PUSH25" 25 0 2 false TVeryLow);
   (0x79, mkInfo "PUSH26" 26 0 2 false TVeryLow); (0x7a, mkInfo "PUSH27" 27 0 2 false TVeryLow);
   (0x7b, mkInfo "PUSH28" 28 0 2 false TVeryLow); (0x7c, mkInfo "PUSH29" 29 0 2 false TVeryLow);
   (0x7d, mkInfo "PUSH30" 30 0 2 false TVeryLow); (0x7e, mkInfo "PUSH31" 31 0 2 false TVeryLow);
   (0x7f, mkInfo "PUSH32" 32 0 2 false TVeryLow); (0x80, mkInfo "DUP1" 0 1 2 false TVeryLow);
   (0x81, mkInfo "DUP2" 0 2 3 false TVeryLow); (0x82, mkInfo "DUP3" 0 3 4 false TVeryLow);
   (0x83, mkInfo "DUP4" 0 4 5 false TVeryLow); (0x84, mkInfo "DUP5" 0 5 6 false TVeryLow);
   (0x85, mkInfo "DUP6" 0 6 7 false TVeryLow); (0x86, mkInfo "DUP7" 0 7 8 false TVeryLow);
   (0x87, mkInfo "DUP8" 0 8 9 false TVeryLow); (0x88, mkInfo "DUP9" 0 9 10 false TVeryLow);
   (0x89, mkInfo "DUP10" 0 10 11 false TVeryLow); (0x8a, mkInfo "DUP11" 0 11 12 false TVeryLow);
   (0x8b, mkInfo "DUP12" 0 12 13 false TVeryLow); (0x8c, mkInfo "DUP13" 0 13 14 false TVeryLow);
   (0x8d, mkInfo "DUP14" 0 14 15 false TVeryLow); (0x8e, mkInfo "DUP15" 0 15 16 false TVeryLow);
   (0x8f, mkInfo "DUP16" 0 16 17 false TVeryLow); (0xb0, mkInfo "DUP17" 0 17 18 false TVeryLow);
   (0xb1, mkInfo "DUP18" 0 18 19 false TVeryLow); (0xb2, mkInfo "DUP19" 0 19 20 false TVeryLow);
   (0xb3, mkInfo "DUP20" 0 20 21 false TVeryLow); (0xb4, mkInfo "DUP21" 0 21 22 false TVeryLow);
   (0xb5, mkInfo "DUP22" 0 22 23 false TVeryLow); (0xb6, mkInfo "DUP23" 0 23 24 false TVeryLow);
   (0xb7, mkInfo "DUP24" 0 24 25 false TVeryLow); (0xb8, mkInfo "DUP25" 0 25 26 false TVeryLow);
   (0xb9, mkInfo "DUP26" 0 26 27 false TVeryLow); (0xba, mkInfo "DUP27" 0 27 28 false TVeryLow);
   (0xbb, mkInfo "DUP28" 0 28 29 false TVeryLow); (0xbc, mkInfo "DUP29" 0 29 30 false TVeryLow);
   (0xbd, mkInfo "DUP30" 0 30 31 false TVeryLow); (0xbe, mkInfo "DUP31" 0 31 32 false TVeryLow);
   (0xbf, mkInfo "DUP32" 0 32 33 false TVeryLow); (0x90, mkInfo "SWAP1" 0 2 2 false TVeryLow);
   (0x91, mkInfo "SWAP2" 0 3 3 false TVeryLow); (0x92, mkInfo "SWAP3" 0 4 4 false TVeryLow);
   (0x93, mkInfo "SWAP4" 0 5 5 false TVeryLow); (0x94, mkInfo "SWAP5" 0 6 6 false TVeryLow);
   (0x95, mkInfo "SWAP6" 0 7 7 false TVeryLow); (0x96, mkInfo "SWAP7" 0 8 8 false TVeryLow);
   (0x97, mkInfo "SWAP8" 0 9 9 false TVeryLow); (0x98, mkInfo "SWAP9" 0 10 10 false TVeryLow);
   (0x99, mkInfo "SWAP10" 0 11 11 false TVeryLow); (0x9a, mkInfo "SWAP11" 0 12 12 false TVeryLow);
   (0x9b, mkInfo "SWAP12" 0 13 13 false TVeryLow); (0x9c, mkInfo "SWAP13" 0 14 14 false TVeryLow);
   (0x9d, mkInfo "SWAP14" 0 15 15 false TVeryLow); (0x9e, mkInfo "SWAP15" 0 16 16 false TVeryLow);
   (0x9f, mkInfo "SWAP16" 0 17 17 false TVeryLow); (0xc0, mkInfo "SWAP17" 0 18 18 false TVeryLow);
   (0xc1, mkInfo "SWAP18" 0 19 19 false TVeryLow); (0xc2, mkInfo "SWAP19" 0 20 20 false TVeryLow);
   (0xc3, mkInfo "SWAP20" 0 21 21 false TVeryLow); (0xc4, mkInfo "SWAP21" 0 22 22 false TVeryLow);
   (0xc5, mkInfo "SWAP22" 0 23 23 false TVeryLow); (0xc6, mkInfo "SWAP23" 0 24 24 false TVeryLow);
   (0xc7, mkInfo "SWAP24" 0 25 25 false TVeryLow); (0xc8, mkInfo "SWAP25" 0 26 26 false TVeryLow);
   (0xc9, mkInfo "SWAP26" 0 27 27 false TVeryLow); (0xca, mkInfo "SWAP27" 0 28 28 false TVeryLow);
   (0xcb, mkInfo "SWAP28" 0 29 29 false TVeryLow); (0xcc, mkInfo "SWAP29" 0 30 30 false TVeryLow);
   (0xcd, mkInfo "SWAP30" 0 31 31 false TVeryLow); (0xce, mkInfo "SWAP31" 0 32 32 false TVeryLow);
   (0xcf, mkInfo "SWAP32" 0 33 33 false TVeryLow); (0xa0, mkInfo "LOG0" 0 2 0 true TSpecial);
   (0xa1, mkInfo "LOG1" 0 4 0 true TSpecial); (0xa2, mkInfo "LOG2" 0 6 0 true TSpecial);
   (0xa3, mkInfo "LOG3" 0 8 0 true TSpecial); (0xa4, mkInfo "LOG4" 0 10 0 true TSpecial);
   (0xf0, mkInfo "CREATE" 0 3 2 true TSpecial); (0xf1, mkInfo "CALL" 0 8 1 true TSpecial);
   (0xf2, mkInfo "CALLCODE" 0 8 1 true TSpecial); (0xf3, mkInfo "RETURN" 0 2 0 true TZero);
   (0xf4, mkInfo "DELEGATECALL" 0 7 1 true TSpecial); (0xfa, mkInfo "STATICCALL" 0 7 1 true TSpecial);
   (0xfb, mkInfo "CREATE2" 0 4 1 true TSpecial); (0xfd, mkInfo "REVERT" 0 2 0 true TZero);
   (0xfe, mkInfo "INVALID" 0 0 0 true TZero); (0xff, mkInfo "SELFDESTRUCT" 0 2 0 true TSpecial)].

(** [c_instructions]: mnemonics. *)
Definition c_instructions : list (string * Z) :=
  [("STOP", 0x00); ("ADD", 0x01); ("SUB", 0x03); ("MUL", 0x02); ("DIV", 0x04);
   ("SDIV", 0x05); ("MOD", 0x06); ("SMOD", 0x07); ("EXP", 0x0a); ("NOT", 0x19);
   ("LT", 0x10); ("GT", 0x11); ("SLT", 0x12); ("SGT", 0x13); ("EQ", 0x14);
   ("ISZERO", 0x15); ("AND", 0x16); ("OR", 0x17); ("XOR", 0x18); ("BYTE", 0x1a);
   ("ADDMOD", 0x08); ("MULMOD", 0x09); ("SIGNEXTEND", 0x0b); ("KECCAK256", 0x20); ("ADDRESS", 0x30);
   ("BALANCE", 0x31); ("ORIGIN", 0x32); ("CALLER", 0x33); ("CALLVALUE", 0x34); ("CALLDATALOAD", 0x35);
   ("CALLDATASIZE", 0x36); ("CALLDATACOPY", 0x37); ("CODESIZE", 0x38); ("CODECOPY", 0x39); ("GASPRICE", 0x3a);
   ("EXTCODESIZE", 0x3b); ("EXTCODECOPY", 0x3c); ("RETURNDATASIZE", 0x3d); ("RETURNDATACOPY", 0x3e); ("BLOCKHASH", 0x40);
   ("COINBASE", 0x41); ("TIMESTAMP", 0x42); ("NUMBER", 0x43); ("DIFFICULTY", 0x44); ("GASLIMIT", 0x45);
   ("POP", 0x50); ("MLOAD", 0x51); ("MSTORE", 0x52); ("MSTORE8", 0x53); ("SLOAD", 0x54);
   ("SSTORE", 0x55); ("JUMP", 0x56); ("JUMPI", 0x57); ("PC", 0x58); ("MSIZE", 0x59);
   ("GAS", 0x5a); ("JUMPDEST", 0x5b); ("PUSH1", 0x60); ("PUSH2", 0x61); ("PUSH3", 0x62);
   ("PUSH4", 0x63); ("PUSH5", 0x64); ("PUSH6", 0x65); ("PUSH7", 0x66); ("PUSH8", 0x67);
   ("PUSH9", 0x68); ("PUSH10", 0x69); ("PUSH11", 0x6a); ("PUSH12", 0x6b); ("PUSH13", 0x6c);
   ("PUSH14", 0x6d); ("PUSH15", 0x6e); ("PUSH16", 0x6f); ("PUSH17", 0x70); ("PUSH18", 0x71);
   ("PUSH19", 0x72); ("PUSH20", 0x73); ("PUSH21", 0x74); ("PUSH22", 0x75); ("PUSH23", 0x76);
   ("PUSH24", 0x77); ("PUSH25", 0x78); ("PUSH26", 0x79); ("PUSH27", 0x7a); ("PUSH28", 0x7b);
   ("PUSH29", 0x7c); ("PUSH30", 0x7d); ("PUSH31", 0x7e); ("PUSH32", 0x7f); ("DUP1", 0x80);
   ("DUP2", 0x81); ("DUP3", 0x82); ("DUP4", 0x83); ("DUP5", 0x84); ("DUP6", 0x85);
   ("DUP7", 0x86); ("DUP8", 0x87); ("DUP9", 0x88); ("DUP10", 0x89); ("DUP11", 0x8a);
   ("DUP12", 0x8b); ("DUP13", 0x8c); ("DUP14", 0x8d); ("DUP15", 0x8e); ("DUP16", 0x8f);
   ("SWAP1", 0x90); ("SWAP2", 0x91); ("SWAP3", 0x92); ("SWAP4", 0x93); ("SWAP5", 0x94);
   ("SWAP6", 0x95); ("SWAP7", 0x96); ("SWAP8", 0x97); ("SWAP9", 0x98); ("SWAP10", 0x99);
   ("SWAP11", 0x9a); ("SWAP12", 0x9b); ("SWAP13", 0x9c); ("SWAP14", 0x9d); ("SWAP15", 0x9e);
   ("SWAP16", 0x9f); ("SWAP17", 0xc0); ("SWAP18", 0xc1); ("SWAP19", 0xc2); ("SWAP20", 0xc3);
   ("SWAP21", 0xc4); ("SWAP22", 0xc5); ("SWAP23", 0xc6); ("SWAP24", 0xc7); ("SWAP25", 0xc8);
   ("SWAP26", 0xc9); ("SWAP27", 0xca); ("SWAP28", 0xcb); ("SWAP29", 0xcc); ("SWAP30", 0xcd);
   ("SWAP31", 0xce); ("SWAP32", 0xcf); ("LOG0", 0xa0); ("LOG1", 0xa1); ("LOG2", 0xa2);
   ("LOG3", 0xa3); ("LOG4", 0xa4); ("CREATE", 0xf0); ("CALL", 0xf1); ("CALLCODE", 0xf2);
   ("STATICCALL", 0xfa); ("RETURN", 0xf3); ("DELEGATECALL", 0xf4); ("CREATE2", 0xfb); ("REVERT", 0xfd);
   ("INVALID", 0xfe); ("SELFDESTRUCT", 0xff)].

Definition lookup_info (i : Z) : option InstructionInfo := snd <$> List.find (fun p => fst p =? i) c_instructionInfo.

(** [instructionInfo]: unknown bytes have no arguments, results or effects. *)
Definition instructionInfo (i : Z) : InstructionInfo :=
  default (mkInfo ("<INVALID_INSTRUCTION: " +:+ pretty i +:+ ">") 0 0 0 false TInvalid) (lookup_info i).

Definition isValidInstruction (i : Z) : bool := bool_decide (is_Some (lookup_info i)).

Module Op.
Definition STOP := 0x00.
Definition ADD := 0x01.
Definition MUL := 0x02.
Definition SUB := 0x03.
Definition DIV := 0x04.
Definition SDIV := 0x05.
Definition MOD := 0x06.
Definition SMOD := 0x07.
Definition ADDMOD := 0x08.
Definition MULMOD := 0x09.
Definition EXP := 0x0a.
Definition SIGNEXTEND := 0x0b.
Definition LT := 0x10.
Definition GT := 0x11.
Definition SLT := 0x12.
Definition SGT := 0x13.
Definition ISZERO := 0x15.
Definition BYTE := 0x1a.
Definition AND := 0x16.
Definition OR := 0x17.
Definition XOR := 0x18.
Definition NOT := 0x19.
Definition EQ := 0x14.
Definition KECCAK256 := 0x20.
Definition BALANCE := 0x31.
Definition CALLDATACOPY := 0x37.
Definition CODECOPY := 0x39.
Definition EXTCODESIZE := 0x3b.
Definition EXTCODECOPY := 0x3c.
Definition RETURNDATASIZE := 0x3d.
Definition RETURNDATACOPY := 0x3e.
Definition POP := 0x50.
Definition MLOAD := 0x51.
Definition MSTORE := 0x52.
Definition MSTORE8 := 0x53.
Definition SLOAD := 0x54.
Definition SSTORE := 0x55.
Definition JUMP := 0x56.
Definition JUMPI := 0x57.
Definition PC := 0x58.
Definition MSIZE := 0x59.
Definition GAS := 0x5a.
Definition JUMPDEST := 0x5b.
Definition PUSH1 := 0x60.
Definition PUSH16 := 0x6f.
Definition PUSH20 := 0x73.
Definition PUSH32 := 0x7f.
Definition DUP1 := 0x80.
Definition DUP16 := 0x8f.
Definition DUP17 := 0xb0.
Definition DUP32 := 0xbf.
Definition SWAP1 := 0x90.
Definition SWAP16 := 0x9f.
Definition SWAP17 := 0xc0.
Definition SWAP32 := 0xcf.
Definition LOG0 := 0xa0.
Definition CREATE := 0xf0.
Definition CALL := 0xf1.
Definition CALLCODE := 0xf2.
Definition RETURN := 0xf3.
Definition DELEGATECALL := 0xf4.
Definition STATICCALL := 0xfa.
Definition CREATE2 := 0xfb.
Definition REVERT := 0xfd.
Definition INVALID := 0xfe.
Definition SELFDESTRUCT := 0xff.
End Op.

(** [pushInstruction], [dupInstruction], [swapInstruction], [logInstruction];
    a failed assertion is [None]. *)
Definition pushInstruction (n : Z) : option Z :=
  if (1 <=? n) && (n <=? 32) then Some (Op.PUSH1 + n - 1) else None.
Definition dupInstruction (n : Z) : option Z :=
  if (1 <=? n) && (n <=? 32) then Some (if n <=? 16 then Op.DUP1 + n - 1 else Op.DUP17 + n - 17) else None.
Definition swapInstruction (n : Z) : option Z :=
  if (1 <=? n) && (n <=? 32) then Some (if n <=? 16 then Op.SWAP1 + n - 1 else Op.SWAP17 + n - 17) else None.
Definition logInstruction (n : Z) : option Z := if n <=? 8 then Some (Op.LOG0 + n) else None.

(** [getPushNumber], [getDupNumber], [getSwapNumber]. *)
Definition getPushNumber (i : Z) : Z := wrap 32 (i - Op.PUSH1 + 1).
Definition getDupNumber (i : Z) : Z := wrap 32 (i - Op.DUP1 + 1).
Definition getSwapNumber (i : Z) : Z := wrap 32 (i - Op.SWAP1 + 1).

(** [eachInstruction]: the instructions of a byte string with their operands. *)
Fixpoint each_operand (n : nat) (mem : list Z) (data : Z) : Z * list Z :=
  match n with
  | 0%nat => (data, mem)
  | S n =>
      let data := wrap 256 (Z.shiftl data 8) in
      match mem with
      | [] => each_operand n [] data
      | b :: mem => each_operand n mem (Z.lor data b)
      end
  end.

Fixpoint each_loop (fuel : nat) (mem : list Z) : list (Z * Z) :=
  match fuel, mem with
  | S fuel, i :: mem =>
      let n := if isValidInstruction i then additional (instructionInfo i) else 0%nat in
      let '(data, mem) := each_operand n mem 0 in
      (i, data) :: each_loop fuel mem
  | _, _ => []
  end.
Definition eachInstruction (mem : list Z) : list (Z * Z) := each_loop (length mem) mem.

(** ** Items *)

(** [class AssemblyItem]: an operation has an instruction, the others data. *)
Inductive AssemblyItem :=
| UndefinedItem (data : Z)
| Operation (i : Z)
| Push (data : Z)
| PushString (data : Z)
| PushTag (data : Z)
| PushSub (data : Z)
| PushSubSize (data : Z)
| PushProgramSize (data : Z)
| Tag (data : Z)
| PushData (data : Z)
| PushLibraryAddress (data : Z).

(** [operator==]. *)
#[global] Instance AssemblyItem_eq_dec : EqDecision AssemblyItem.
Proof. solve_decision. Defined.

(** [dev::bytesRequired]: the loop runs once per byte. *)
Fixpoint bytesRequired_loop (fuel : nat) (i : Z) : Z :=
  match fuel with
  | 0%nat => 0
  | S fuel => if i =? 0 then 0 else 1 + bytesRequired_loop fuel (Z.shiftr i 8)
  end.
Definition dev_bytesRequired (i : Z) : Z := bytesRequired_loop 32 i.

(** [splitForeignPushTag]: the sub assembly, with -1 for the own one, and the tag. *)
Definition splitForeignPushTag (data : Z) : Z * Z := (wrap 64 (wrap 64 (data / 2 ^ 64) - 1), wrap 64 data).

(** [setPushTagSubIdAndTag] and [toSubAssemblyTag]. *)
Definition setPushTagSubIdAndTag (subId tag : Z) : Z := wrap 256 (tag + wrap 256 (Z.shiftl (wrap 64 (subId + 1)) 64)).
Definition toSubAssemblyTag (subId : Z) (item : AssemblyItem) : option AssemblyItem :=
  match item with
  | PushTag d | Tag d => if d <? 2 ^ 64 then Some (PushTag (setPushTagSubIdAndTag subId (wrap 64 d))) else None
  | _ => None
  end.

(** [AssemblyItem::bytesRequired]; [None] is the exception. *)
Definition bytesRequired (addressLength : Z) (item : AssemblyItem) : option Z :=
  match item with
  | Operation _ | Tag _ => Some 1
  | PushString _ => Some 17
  | Push d => Some (1 + Z.max 1 (dev_bytesRequired d))
  | PushSubSize _ | PushProgramSize _ => Some 4
  | PushTag _ | PushData _ | PushSub _ => Some (wrap 32 (1 + addressLength))
  | PushLibraryAddress _ => Some 21
  | UndefinedItem _ => None
  end.

Definition arguments (item : AssemblyItem) : nat :=
  match item with Operation i => args (instructionInfo i) | _ => 0 end.

Definition returnValues (item : AssemblyItem) : nat :=
  match item with
  | Operation i => ret (instructionInfo i)
  | Push d => if 16 <? dev_bytesRequired d then 2 else 1
  | PushString _ | PushTag _ | PushData _ | PushSub _ | PushSubSize _ | PushProgramSize _ => 1
  | PushLibraryAddress _ => 2
  | Tag _ | UndefinedItem _ => 0
  end.

Abbreviation deposit item := (Z.of_nat (returnValues item) - Z.of_nat (arguments item)).

(** ** SemanticInformation *)

Definition isDupInstruction (item : AssemblyItem) : bool :=
  match item with
  | Operation i => ((Op.DUP1 <=? i) && (i <=? Op.DUP16)) || ((Op.DUP17 <=? i) && (i <=? Op.DUP32))
  | _ => false
  end.

Definition isSwapInstruction (item : AssemblyItem) : bool :=
  match item with
  | Operation i => ((Op.SWAP1 <=? i) && (i <=? Op.SWAP16)) || ((Op.SWAP17 <=? i) && (i <=? Op.SWAP32))
  | _ => false
  end.

Definition canBeFunctional (item : AssemblyItem) : bool :=
  match item with
  | Operation _ => negb (isDupInstruction item) && negb (isSwapInstruction item)
  | Tag _ | UndefinedItem _ => false
  | _ => true
  end.

Definition breaksCSEAnalysisBlock (item : AssemblyItem) : bool :=
  match item with
  | UndefinedItem _ | Tag _ => true
  | Operation i =>
      if isSwapInstruction item || isDupInstruction item then false
      else if (i =? Op.GAS) || (i =? Op.PC) then true
      else if i =? Op.MSIZE then true
      else
        let info := instructionInfo i in
        if i =? Op.SSTORE then false
        else if i =? Op.MSTORE then false
        else sideEffects info || (2 <? args info)%nat
  | _ => false
  end.

Definition isCommutativeOperation (item : AssemblyItem) : bool :=
  match item with
  | Operation i => existsb (Z.eqb i) [Op.ADD; Op.MUL; Op.EQ; Op.AND; Op.OR; Op.XOR]
  | _ => false
  end.

Definition isJumpInstruction (item : AssemblyItem) : bool :=
  bool_decide (item = Operation Op.JUMP) || bool_decide (item = Operation Op.JUMPI).

Definition altersControlFlow (item : AssemblyItem) : bool :=
  match item with
  | Operation i =>
      existsb (Z.eqb i) [Op.JUMP; Op.JUMPI; Op.RETURN; Op.SELFDESTRUCT; Op.STOP; Op.INVALID; Op.REVERT]
  | _ => false
  end.

Definition isDeterministic (item : AssemblyItem) : bool :=
  match item with
  | Operation i =>
      negb (existsb (Z.eqb i) [Op.CALL; Op.CALLCODE; Op.DELEGATECALL; Op.STATICCALL; Op.CREATE; Op.CREATE2; Op.GAS;
        Op.PC; Op.MSIZE; Op.BALANCE; Op.EXTCODESIZE; Op.RETURNDATACOPY; Op.RETURNDATASIZE])
  | _ => true
  end.

Definition invalidatesMemory (i : Z) : bool :=
  existsb (Z.eqb i) [Op.CALLDATACOPY; Op.CODECOPY; Op.EXTCODECOPY; Op.RETURNDATACOPY; Op.MSTORE; Op.MSTORE8; Op.CALL;
    Op.CALLCODE; Op.DELEGATECALL; Op.STATICCALL].

Definition invalidatesStorage (i : Z) : bool :=
  existsb (Z.eqb i) [Op.CALL; Op.CALLCODE; Op.DELEGATECALL; Op.CREATE; Op.CREATE2; Op.SSTORE].
