(* ===== verification/AsmTable.v ===== *)
(** * The compiler's instruction table and the machine

    The Solidity compiler trusts its table [c_instructionInfo] for the stack
    layout and for what its optimisers may drop.  Here the table is compared
    with the reference machine: the operand lengths with which the table and
    the just-in-time compiler walk over code agree, an instruction that
    succeeds takes [args] items off the stack and puts [ret] items there, and
    one without side effects changes nothing else (but for the memory that
    hashing touches). *)
From S2P Require Import Prelude Bytes Instruction BasicBlocks LLVMInt EvmAbi GasSchedule Keccak Runtime IR.
From S2P Require Import Machine NullHost Interp AsmItem.

(** ** Stack effects *)

Section Effects.
Context {H : Type} (X : Ctx H).

(** A computation that succeeds replaces [a] stack items by [k]. *)
Definition eff {A} (a k : nat) (m : @M H A) : Prop := forall r x r', m r = Ok (x, r') ->
  exists ins outs rest, r_stack r = ins ++ rest /\ r_stack r' = outs ++ rest /\ length ins = a /\ length outs = k.

Lemma eff_ret {A} (x : A) : eff 0 0 (mret x).
Proof. intros r y r' [= <- <-]. exists [], [], (r_stack r). done. Qed.

Lemma eff_bind {A B} a1 k1 a2 k2 a k (m : @M H A) (f : A -> M B) :
  eff a1 k1 m -> (forall x, eff a2 k2 (f x)) -> a = (a1 + (a2 - k1))%nat -> k = (k2 + (k1 - a2))%nat ->
  eff a k (m ≫= f).
Proof.
  intros Hm Hf -> -> r y r'. unfold mbind, M_bind. destruct (m r) as [[x r1] | |] eqn:E; [| done..]. intros E'.
  apply Hm in E as (i1 & o1 & t1 & H1 & H2 & <- & <-). apply Hf in E' as (i2 & o2 & t2 & H3 & H4 & <- & <-).
  rewrite H2 in H3. apply app_eq_inv in H3 as [(d & -> & ->) | (d & -> & ->)].
  - exists i1, (o2 ++ d), t1. rewrite H1, H4, !length_app, <- app_assoc. split_and!; [done | done | lia | lia].
  - exists (i1 ++ d), o2, t2. rewrite H1, H4, !length_app, <- app_assoc. split_and!; [done | done | lia | lia].
Qed.

(** Any effect for what never succeeds. *)
Lemma eff_abort {A} a k : eff (A := A) a k abort.
Proof. done. Qed.
Lemma eff_unspecified {A} a k : eff (A := A) a k unspecified.
Proof. done. Qed.

(** What does not touch the stack. *)
Lemma eff_still {A} (m : @M H A) : (forall r x r', m r = Ok (x, r') -> r_stack r' = r_stack r) -> eff 0 0 m.
Proof. intros Hm r x r' E. exists [], [], (r_stack r). rewrite (Hm _ _ _ E). done. Qed.

Lemma eff_gets {A} (f : rstate H -> A) : eff 0 0 (gets f).
Proof. apply eff_still. by intros r x r' [= <- <-]. Qed.
Lemma eff_set_rgas g : eff 0 0 (@set_rgas H g).
Proof. apply eff_still. by intros r x r' [= <- <-]. Qed.
Lemma eff_set_rmem m : eff 0 0 (@set_rmem H m).
Proof. apply eff_still. by intros r x r' [= <- <-]. Qed.
Lemma eff_set_rretbuf b : eff 0 0 (@set_rretbuf H b).
Proof. apply eff_still. by intros r x r' [= <- <-]. Qed.
Lemma eff_set_rhost h : eff 0 0 (@set_rhost H h).
Proof. apply eff_still. by intros r x r' [= <- <-]. Qed.

Lemma eff_rpop : eff 1 0 (@rpop H).
Proof.
  intros r x r'. unfold rpop, mbind, M_bind, gets. destruct (r_stack r) as [| z st]; [done |]. intros [= <- <-].
  exists [z], [], st. done.
Qed.

Lemma eff_rpush z : eff 0 1 (@rpush H z).
Proof.
  intros r x r'. unfold rpush, mbind, M_bind, gets. destruct (_ <? _)%nat; [| done]. intros [= <- <-].
  exists [], [z], (r_stack r). done.
Qed.

Lemma eff_rdup n : eff (S n) (S (S n)) (@rdup H n).
Proof.
  intros r x r'. unfold rdup, rpush, mbind, M_bind, gets. destruct (r_stack r !! n) as [z |] eqn:E; [| done].
  destruct (_ <? _)%nat; [| done]. intros [= <- <-]. apply lookup_lt_Some in E.
  exists (take (S n) (r_stack r)), (z :: take (S n) (r_stack r)), (drop (S n) (r_stack r)).
  cbn [r_stack length app]. rewrite take_drop, length_take. split_and!; [done | done | lia | lia].
Qed.

Lemma eff_rswap n : eff (S n) (S n) (@rswap H n).
Proof.
  intros r x r'. unfold rswap, mbind, M_bind, gets. destruct (r_stack r !! n) as [z |] eqn:E; [| done].
  destruct (r_stack r !! 0%nat) as [t |]; [| done]. intros [= <- <-]. apply lookup_lt_Some in E.
  exists (take (S n) (r_stack r)), (<[0%nat := z]> (<[n := t]> (take (S n) (r_stack r)))), (drop (S n) (r_stack r)).
  cbn [r_stack]. rewrite take_drop, !length_insert, length_take. split_and!; [done | | lia | lia].
  rewrite <- !insert_app_l by (rewrite ?length_insert, length_take; lia). by rewrite take_drop.
Qed.

Lemma eff_rpops n : eff n 0 (@rpops H n).
Proof.
  induction n as [| n IH]; [apply eff_ret |]. cbn [rpops].
  eapply eff_bind; [apply eff_rpop | intros z; eapply eff_bind; [apply IH | intros; apply eff_ret | done | done] | lia | lia].
Qed.
End Effects.

(** Compute the effect of a straight-line computation. *)
Ltac eff_step :=
  lazymatch goal with
  | |- eff _ _ (mret _) => apply eff_ret
  | |- eff _ _ (mbind _ _) => eapply eff_bind; [| intros ? | |]
  | |- eff _ _ abort => apply eff_abort
  | |- eff _ _ unspecified => apply eff_unspecified
  | |- eff _ _ (gets _) => apply eff_gets
  | |- eff _ _ (set_rgas _) => apply eff_set_rgas
  | |- eff _ _ (set_rmem _) => apply eff_set_rmem
  | |- eff _ _ (set_rretbuf _) => apply eff_set_rretbuf
  | |- eff _ _ (set_rhost _) => apply eff_set_rhost
  | |- eff _ _ rpop => apply eff_rpop
  | |- eff _ _ (rpush _) => apply eff_rpush
  | |- eff _ _ (rdup _) => apply eff_rdup
  | |- eff _ _ (rswap _) => apply eff_rswap
  | |- eff _ _ (rpops _) => apply eff_rpops
  | |- eff _ _ (rpush256 _) => unfold rpush256
  | |- eff _ _ rpop256 => unfold rpop256
  end.

Ltac eff_arith := first [reflexivity | cbn; lia].
Ltac eff_solve :=
  repeat first
    [ eff_step
    | eauto with effects; fail
    | lazymatch goal with
      | |- eff _ _ (if ?b then _ else _) => destruct b
      | |- eff _ _ (match ?x with Some _ => _ | None => _ end) => destruct x
      | |- eff _ _ (let '(_, _) := ?x in _) => destruct x
      | |- _ = _ => eff_arith
      end ].

Create HintDb effects.

Section Derived.
Context {H : Type} (X : Ctx H).

Lemma eff_charge c : eff 0 0 (@charge H c).
Proof. unfold charge. eff_solve. Qed.
#[local] Hint Resolve eff_charge : effects.

Lemma eff_expand off n : eff 0 0 (expand X off n).
Proof. unfold expand. eff_solve. Qed.

Lemma eff_mem_read off n : eff 0 0 (@mem_read H off n).
Proof. unfold mem_read. eff_solve. Qed.

Lemma eff_mem_write off bs : eff 0 0 (@mem_write H off bs).
Proof. unfold mem_write. eff_solve. Qed.
#[local] Hint Resolve eff_expand eff_mem_read eff_mem_write : effects.

Lemma eff_copy_padded src d i n : eff 0 0 (copy_padded X src d i n).
Proof. unfold copy_padded. eff_solve. Qed.

Lemma eff_copy_returned d i n : eff 0 0 (copy_returned X d i n).
Proof. unfold copy_returned. eff_solve. Qed.

Lemma eff_send inst m v : eff 0 0 (send X inst m v).
Proof. unfold send. eff_solve. Qed.
#[local] Hint Resolve eff_copy_padded eff_copy_returned eff_send : effects.

Lemma eff_do_create g e off n : eff 0 0 (do_create X g e off n).
Proof. unfold do_create. eff_solve. Qed.

Lemma eff_do_call inst g a v i1 i2 o1 o2 : eff 0 0 (do_call X inst g a v i1 i2 o1 o2).
Proof. unfold do_call. eff_solve. Qed.

Lemma eff_call_costs inst g a v i1 i2 o1 o2 : eff 0 0 (call_costs X inst g a v i1 i2 o1 o2).
Proof. unfold call_costs. eff_solve. Qed.

Lemma eff_log_data off size topics : eff 0 0 (log_data X off size topics).
Proof. unfold log_data. eff_solve. Qed.
#[local] Hint Resolve eff_do_create eff_do_call eff_call_costs eff_log_data : effects.

(** The stack items an instruction takes and those it leaves. *)
Definition inst_args (inst : Instruction) : nat :=
  match inst with
  | STOP | ADDRESS | CALLER | ORIGIN | COINBASE | GASPRICE | DIFFICULTY | GASLIMIT | NUMBER | TIMESTAMP | CALLVALUE
  | CALLDATASIZE | CODESIZE | RETURNDATASIZE | JUMPDEST | PC | MSIZE | GAS | PUSH _ | INVALID _ => 0
  | ISZERO | NOT | CALLDATALOAD | BLOCKHASH | POP | MLOAD | SLOAD | JUMP => 1
  | ADDMOD | MULMOD | CALLDATACOPY | CODECOPY | RETURNDATACOPY | CREATE => 3
  | EXTCODECOPY => 5
  | CALL | CALLCODE => 8
  | DELEGATECALL | STATICCALL => 7
  | DUP n => n
  | SWAP n => S n
  | LOG n => 2 + 2 * n
  | _ => 2
  end.

Definition inst_ret (inst : Instruction) : nat :=
  match inst with
  | STOP | CALLDATACOPY | CODECOPY | EXTCODECOPY | RETURNDATACOPY | POP | MSTORE | MSTORE8 | SSTORE | JUMP | JUMPI
  | JUMPDEST | LOG _ | RETURN | REVERT | SELFDESTRUCT | INVALID _ => 0
  | SHA3 | ADDRESS | CALLER | ORIGIN | COINBASE | BLOCKHASH | CREATE => 2
  | PUSH n => if (n <=? 16)%nat then 1 else 2
  | DUP n | SWAP n => S n
  | _ => 1
  end.

(** The families are numbered from one. *)
Definition inst_wf (inst : Instruction) : Prop := match inst with DUP n => (0 < n)%nat | _ => True end.

Lemma eff_step_call inst :
  eff (if bool_decide (inst = CALL) || bool_decide (inst = CALLCODE) then 8 else 7) 1 (step_call X inst).
Proof. unfold step_call. destruct (bool_decide (inst = CALL) || bool_decide (inst = CALLCODE)); eff_solve. Qed.

Lemma eff_step_body pc data inst : inst_wf inst -> eff (inst_args inst) (inst_ret inst) (step_body X pc data inst).
Proof.
  intros Hwf. destruct inst; try exact (eff_step_call _); cbn [step_body inst_args inst_ret];
    unfold binary, signed_division, rcopy, push_tx, push_tx256, step_log, step_create, step_selfdestruct;
    try solve [eff_solve].
  destruct n as [| n]; [by apply Nat.lt_irrefl in Hwf |]. rewrite Nat.sub_1_r. eff_solve.
Qed.
End Derived.

(** ** Silence *)

Section Silence.
Context {H : Type} (X : Ctx H).

(** Memory, return buffer and host are as before. *)
Definition same_env (r r' : rstate H) : Prop :=
  r_mem r' = r_mem r /\ r_retbuf r' = r_retbuf r /\ r_host r' = r_host r.

(** A computation that leaves them as they are and, where it steers, goes on. *)
Definition silent {A} (Q : A -> Prop) (m : @M H A) : Prop :=
  forall r x r', m r = Ok (x, r') -> Q x /\ same_env r r'.

Abbreviation quiet := (silent (fun _ => True)).

Lemma silent_ret {A} (Q : A -> Prop) x : Q x -> silent Q (mret x).
Proof. by intros HQ r y r' [= <- <-]. Qed.

Lemma silent_bind {A B} (Q : B -> Prop) (m : @M H A) (f : A -> M B) :
  quiet m -> (forall x, silent Q (f x)) -> silent Q (m ≫= f).
Proof.
  intros Hm Hf r y r'. unfold mbind, M_bind. destruct (m r) as [[x r1] | |] eqn:E; [| done..]. intros E'.
  apply Hm in E as (_ & ? & ? & ?). apply Hf in E' as (? & ? & ? & ?). unfold same_env. split_and!; congruence.
Qed.

Lemma silent_none {A} (Q : A -> Prop) (m : @M H A) : (forall r x r', m r = Ok (x, r') -> False) -> silent Q m.
Proof. by intros Hm r x r' E; destruct (Hm r x r'). Qed.

Lemma quiet_gets {A} (f : rstate H -> A) : quiet (gets f).
Proof. by intros r x r' [= <- <-]. Qed.
Lemma quiet_set_rstack st : quiet (@set_rstack H st).
Proof. by intros r x r' [= <- <-]. Qed.
Lemma quiet_set_rgas g : quiet (@set_rgas H g).
Proof. by intros r x r' [= <- <-]. Qed.
End Silence.

#[global] Hint Resolve silent_ret quiet_gets quiet_set_rstack quiet_set_rgas : effects.

Ltac silent_solve :=
  repeat first
    [ eauto with effects; fail
    | apply silent_none; done
    | lazymatch goal with
      | |- silent _ (mbind _ _) => apply silent_bind; [| intros ?]
      | |- silent _ (if ?b then _ else _) => destruct b
      | |- silent _ (match ?x with [] => _ | _ :: _ => _ end) => destruct x
      | |- silent _ (match ?x with Some _ => _ | None => _ end) => destruct x
      end ].

Section Silent.
Context {H : Type} (X : Ctx H).

Abbreviation quiet := (silent (fun _ => True)).

Lemma quiet_rpop : quiet (@rpop H).
Proof. unfold rpop. silent_solve. Qed.
Lemma quiet_rpush z : quiet (@rpush H z).
Proof. unfold rpush. silent_solve. Qed.
Lemma quiet_charge c : quiet (@charge H c).
Proof. unfold charge. silent_solve. Qed.
#[local] Hint Resolve quiet_rpop quiet_rpush quiet_charge : effects.
Lemma quiet_rpush256 z : quiet (@rpush256 H z).
Proof. unfold rpush256. silent_solve. Qed.
Lemma quiet_rpop256 : quiet (@rpop256 H).
Proof. unfold rpop256. silent_solve. Qed.
Lemma quiet_rdup n : quiet (@rdup H n).
Proof. unfold rdup. silent_solve. Qed.
Lemma quiet_rswap n : quiet (@rswap H n).
Proof. unfold rswap. silent_solve. Qed.
#[local] Hint Resolve quiet_rpush256 quiet_rpop256 quiet_rdup quiet_rswap : effects.

(** The instructions whose only effect, gas apart, is on the stack. *)
Definition inst_pure (inst : Instruction) : bool :=
  match inst with
  | STOP | CALLDATACOPY | CODECOPY | EXTCODECOPY | RETURNDATACOPY | MLOAD | MSTORE | MSTORE8 | SSTORE | JUMP | JUMPI
  | JUMPDEST | LOG _ | CREATE | CALL | CALLCODE | DELEGATECALL | STATICCALL | RETURN | REVERT | SELFDESTRUCT
  | INVALID _ | SHA3 => false
  | _ => true
  end.

Lemma silent_step_body pc data inst :
  inst_pure inst = true -> silent (fun c => c = Next) (step_body X pc data inst).
Proof.
  intros Hp. destruct inst; try discriminate Hp; cbn [step_body];
    unfold binary, signed_division, push_tx, push_tx256; silent_solve.
Qed.

Lemma silent_step pc data inst : inst_pure inst = true -> silent (fun c => c = Next) (step X pc data inst).
Proof.
  intros Hp. apply silent_bind; [apply quiet_charge | intros _]. destruct (allowed X inst); [by apply silent_step_body |].
  by apply silent_none.
Qed.

Lemma eff_machine_step pc data inst : inst_wf inst -> eff (inst_args inst) (inst_ret inst) (step X pc data inst).
Proof.
  intros Hw. eapply eff_bind; [apply eff_charge | intros _ | cbn [Nat.add]; symmetry; apply Nat.sub_0_r | symmetry; apply Nat.add_0_r].
  destruct (allowed X inst); [by apply eff_step_body | apply eff_abort].
Qed.

(** ** The table *)

Definition is_invalid (inst : Instruction) : bool := match inst with INVALID _ => true | _ => false end.
Definition inst_wfb (inst : Instruction) : bool := match inst with DUP n => (0 <? n)%nat | _ => true end.

(** A row of the table is right about its byte; bytes without a row are not
    instructions of the machine. *)
Definition row_ok (b : Z) : bool :=
  let inst := Instruction_of_byte b in
  match lookup_info b with
  | Some info =>
      (additional info =? numPushBytes b)%nat
      && (is_invalid inst
          || ((args info =? inst_args inst)%nat && (ret info =? inst_ret inst)%nat && inst_wfb inst
              && (sideEffects info || (b =? Op.KECCAK256) || inst_pure inst)))
  | None => is_invalid inst
  end.

Lemma row_ok_all b : inw 8 b -> row_ok b = true.
Proof. apply forall_byte. vm_compute. reflexivity. Qed.

Lemma step_valid pc data inst r c r' : step X pc data inst r = Ok (c, r') -> is_invalid inst = false.
Proof.
  destruct inst; try done. unfold step, charge, mbind, M_bind, gets. by destruct (_ && _).
Qed.

Lemma table_row b info :
  inw 8 b -> lookup_info b = Some info -> is_invalid (Instruction_of_byte b) = false ->
  inst_wf (Instruction_of_byte b) /\ args info = inst_args (Instruction_of_byte b) /\
  ret info = inst_ret (Instruction_of_byte b) /\
  (sideEffects info = false -> b <> Op.KECCAK256 -> inst_pure (Instruction_of_byte b) = true).
Proof.
  intros Hb Hl Hi. pose proof (row_ok_all b Hb) as Hr. unfold row_ok in Hr. rewrite Hl, Hi in Hr. cbn [orb] in Hr.
  rewrite !andb_true_iff, !Nat.eqb_eq in Hr. destruct Hr as (_ & ((Ha & Hr) & Hw) & Hp). split_and!; [| done | done |].
  - destruct (Instruction_of_byte b); try done. by apply Nat.ltb_lt in Hw.
  - intros Hs Hk. apply Z.eqb_neq in Hk. by rewrite Hs, Hk in Hp.
Qed.
End Silent.

Lemma additional_numPush b : inw 8 b -> additional (instructionInfo b) = numPushBytes b.
Proof.
  intros Hb. apply Nat.eqb_eq. revert b Hb. apply (forall_byte (fun b => additional (instructionInfo b) =? numPushBytes b)%nat).
  vm_compute. reflexivity.
Qed.

(** The Solidity compiler's instruction table is right about the machine:
    an instruction that succeeds replaces the [args] topmost stack items by
    [ret] others and leaves the items below alone, and one that the table
    calls free of side effects, hashing apart, goes on to the next instruction
    with memory, return buffer and host unchanged. *)
Theorem table_effects {H} (X : Ctx H) pc data b info r c r' :
  inw 8 b -> lookup_info b = Some info -> step X pc data (Instruction_of_byte b) r = Ok (c, r') ->
  (exists ins outs rest, r_stack r = ins ++ rest /\ r_stack r' = outs ++ rest /\
     length ins = args info /\ length outs = ret info) /\
  (sideEffects info = false -> b <> Op.KECCAK256 -> c = Next /\ same_env r r').
Proof.
  intros Hb Hl Hs. pose proof (step_valid _ _ _ _ _ _ _ Hs) as Hi.
  destruct (table_row b info Hb Hl Hi) as (Hw & -> & -> & Hp). split.
  - exact (eff_machine_step X pc data _ Hw _ _ _ Hs).
  - intros Hse Hk. exact (silent_step X pc data _ (Hp Hse Hk) _ _ _ Hs).
Qed.

Lemma table_effects_witness :
  exists r', step (null_ctx 100 []) 0 0 (Instruction_of_byte 0x08) (mkR [7; 8; 10; 1] 100 [] [] ()) = Ok (Next, r')
    /\ r_stack r' = [5; 1] /\ same_env (mkR [7; 8; 10; 1] 100 [] [] ()) r'.
Proof.
  eexists. split; [vm_compute; reflexivity |]. split; [reflexivity |].
  edestruct (table_effects (null_ctx 100 []) 0 0 0x08 (instructionInfo 0x08) (mkR [7; 8; 10; 1] 100 [] [] ())
    Next) as [_ Hs]; [done | vm_compute; reflexivity | vm_compute; reflexivity | apply Hs; done].
Defined.

(** ** Walking the code *)

(** The positions of the instructions from [i] on. *)
Fixpoint walk (fuel : nat) (code : list Z) (i : nat) : list nat :=
  match fuel with
  | 0%nat => []
  | S fuel => if (i <? length code)%nat then i :: walk fuel code (nxt code i) else []
  end.

Lemma each_operand_spec n mem pre :
  bytes_ok mem -> bytes_ok pre -> (length pre + n <= 32)%nat ->
  each_operand n mem (be_val pre) = (be_val (pre ++ take n (mem ++ replicate n 0)), drop n mem).
Proof.
  revert mem pre. induction n as [| n IH]; intros mem pre Hm Hp Hn; cbn [each_operand].
  - by rewrite take_0, app_nil_r, drop_0.
  - assert (forall b, inw 8 b -> bytes_ok (pre ++ [b])) as Hsnoc by (intros; apply Forall_app; auto).
    destruct mem as [| b mem].
    + replace (wrap 256 (Z.shiftl (be_val pre) 8)) with (Z.lor (wrap 256 (Z.shiftl (be_val pre) 8)) 0) by apply Z.lor_0_r.
      rewrite (push_step 256 pre 0), IH by (first [done | by apply Hsnoc | rewrite ?length_app; cbn [length]; lia]).
      rewrite !app_nil_l, <- app_assoc, !take_replicate, !Nat.min_id. by rewrite !drop_nil.
    + apply Forall_cons_1 in Hm as [Hb Hm].
      rewrite (push_step 256 pre b), IH by (first [done | by apply Hsnoc | rewrite ?length_app; cbn [length]; lia]).
      cbn [app take drop]. f_equal. rewrite <- app_assoc. cbn [app]. do 3 f_equal.
      change (0 :: replicate n 0) with (replicate (S n) 0). rewrite replicate_S_end, app_assoc.
      rewrite (take_app_le (mem ++ _)); [done |]. rewrite length_app, length_replicate. lia.
Qed.

Lemma drop_nxt code i :
  (i < length code)%nat -> drop (numPushBytes (code_at code i)) (drop (S i) code) = drop (nxt code i) code.
Proof.
  intros Hi. rewrite drop_drop, nxt_eq by done.
  destruct (Nat.le_gt_cases (length code) (S i + numPushBytes (code_at code i))).
  - rewrite !drop_ge by lia. done.
  - f_equal. lia.
Qed.

Lemma each_loop_walk fuel code i :
  bytes_ok code -> (length code - i <= fuel)%nat ->
  each_loop fuel (drop i code) = (fun i => (code_at code i, operand code i)) <$> walk fuel code i.
Proof.
  intros Hc. revert i. induction fuel as [| fuel IH]; intros i Hf; [done |]. cbn [each_loop walk].
  destruct (Nat.ltb_spec i (length code)) as [Hi | Hi]; [| by rewrite drop_ge].
  destruct (lookup_lt_is_Some_2 code i Hi) as [b Hb]. rewrite (drop_S _ _ _ Hb).
  assert (code_at code i = b) as Hat by (unfold code_at; by rewrite Hb).
  assert (inw 8 b) as Hbyte by (rewrite <- Hat; by apply code_at_byte).
  replace (if isValidInstruction b then _ else _) with (numPushBytes b).
  2:{ rewrite <- additional_numPush by done. unfold isValidInstruction, instructionInfo.
      destruct (lookup_info b) as [info |]; [by rewrite bool_decide_eq_true_2 by eauto |].
      by destruct (bool_decide _). }
  pose proof (numPushBytes_le b Hbyte). change 0 with (be_val []) at 1.
  rewrite each_operand_spec by (first [by apply Forall_drop | apply Forall_nil | done]).
  rewrite <- Hat, drop_nxt by done. pose proof (nxt_bounds code i Hi). rewrite fmap_cons, IH by lia. f_equal. f_equal.
  unfold operand, push_bytes. rewrite (take_ge (drop _ _)) by (rewrite length_drop; lia). done.
Qed.

(** C33: [eachInstruction], with which the Solidity compiler reads byte code,
    sees the code as the virtual machine does: the same instructions at the
    same positions, with the same operands. *)
Theorem eachInstruction_machine code :
  bytes_ok code ->
  eachInstruction code = (fun i => (code_at code i, operand code i)) <$> walk (length code) code 0.
Proof. intros Hc. unfold eachInstruction. by rewrite <- each_loop_walk, drop_0 by (done || lia). Qed.

Lemma eachInstruction_machine_witness :
  eachInstruction [0x60; 0x2a; 0x5b; 0x0c; 0x61; 7] = [(0x60, 42); (0x5b, 0); (0x0c, 0); (0x61, 0x700)].
Proof. rewrite eachInstruction_machine; [reflexivity | apply (bool_decide_unpack _); vm_compute; exact I]. Defined.
