(* ===== verification/Assembly.v ===== *)
(** * Assemblies of the Solidity compiler

    libevmasm/Assembly.h and Assembly.cpp: collecting items, tags, data and
    sub-assemblies, and [assemble], which lays them out as byte code and fills
    in the references; LinkerObject.cpp: linking library addresses.  A
    [std::map] is its list of entries in key order, a [multimap] of references
    the list of its insertions, a vector of tag positions has [npos] for a tag
    without one.  An exception or an access out of bounds is an error value.
    Source locations and the printed forms are left out; the cache
    [m_assembledObject] does not show, since an assembly is not changed once
    assembled. *)
From Stdlib Require Import String.
From stdpp Require Import strings.
From S2P Require Import Prelude Bytes Keccak Runtime AsmItem.
Open Scope list_scope.
Open Scope Z_scope.

(** ** [std::map] *)

Section StdMap.
Context {A : Type}.

Definition smap := list (Z * A).

(** [m[k] = v]. *)
Fixpoint smap_set (k : Z) (v : A) (m : smap) : smap :=
  match m with
  | [] => [(k, v)]
  | (k', v') :: m' => if k <? k' then (k, v) :: m else if k =? k' then (k, v) :: m' else (k', v') :: smap_set k v m'
  end.

Definition smap_find (k : Z) (m : smap) : option A := snd <$> List.find (fun p => fst p =? k) m.

(** [m.insert(pair)] keeps an entry that is there. *)
Definition smap_insert (k : Z) (v : A) (m : smap) : smap := match smap_find k m with Some _ => m | None => smap_set k v m end.
End StdMap.
Arguments smap : clear implicits.

(** ** Errors *)

Inductive asm_error := EInvalidOpcode | EAssembly | EInvalidDeposit | EOutOfRange | EUndefinedBehaviour | ENoFuel.

Definition res (A : Type) : Type := (asm_error + A)%type.
#[global] Instance res_ret : MRet res := fun A a => inr a.
#[global] Instance res_bind : MBind res := fun A B f m => match m with inl e => inl e | inr a => f a end.

Definition throw {A} (e : asm_error) : res A := inl e.
Definition assertThrow (b : bool) (e : asm_error) : res unit := if b then mret () else throw e.
Definition at_ {A} (e : asm_error) (o : option A) : res A := match o with Some a => mret a | None => throw e end.

Definition mapR {A B} (f : A -> res B) : list A -> res (list B) :=
  fix go l := match l with [] => mret [] | x :: l => y ← f x; ys ← go l; mret (y :: ys) end.

Fixpoint foldR {A S} (f : S -> A -> res S) (s : S) (l : list A) : res S :=
  match l with [] => mret s | x :: l => s ← f s x; foldR f s l end.

(** ** Linker objects *)

Record LinkerObject := mkObject { bytecode : list Z; linkReferences : smap string }.

(** [LinkerObject::append]. *)
Definition obj_append (o other : LinkerObject) : LinkerObject :=
  mkObject (bytecode o ++ bytecode other)
    (foldl (fun m ref => smap_set (fst ref + Z.of_nat (length (bytecode o))) (snd ref) m) (linkReferences o) (linkReferences other)).

Definition find_lib (name : string) (libs : list (string * list Z)) : option (list Z) :=
  snd <$> List.find (fun p => bool_decide (fst p = name)) libs.

(** The part of a name after its first colon. *)
Fixpoint after_colon (s : string) : option string :=
  match s with
  | EmptyString => None
  | String c s => if bool_decide (c = Ascii.ascii_of_nat 58) then Some s else after_colon s
  end.

(** [matchLibrary]. *)
Definition matchLibrary (name : string) (libs : list (string * list Z)) : option (list Z) :=
  match find_lib name libs with
  | Some a => Some a
  | None => match after_colon name with Some simple => find_lib simple libs | None => None end
  end.

(** [copyTo(ref(bytecode).cropped(pos, 20))]: nothing when out of bounds. *)
Definition copy_address (code : list Z) (pos : Z) (addr : list Z) : list Z :=
  if pos + 20 <=? Z.of_nat (length code) then splice code (Z.to_nat pos) (take 20 addr) else code.

(** [LinkerObject::link]: addresses of 20 bytes by library name. *)
Definition obj_link (libs : list (string * list Z)) (o : LinkerObject) : LinkerObject :=
  foldl (fun o ref =>
    match matchLibrary (snd ref) libs with
    | Some addr => mkObject (copy_address (bytecode o) (fst ref) addr) (linkReferences o)
    | None => mkObject (bytecode o) (linkReferences o ++ [ref])
    end) (mkObject (bytecode o) []) (linkReferences o).

(** ** Assemblies *)

(** [class Assembly]; [m_deposit] is an [int]. *)
#[warnings="-register-all"]
Inductive Assembly := mkAssembly {
  m_usedTags : Z;
  m_items : list AssemblyItem;
  m_data : smap (list Z);
  m_auxiliaryData : list Z;
  m_subs : list Assembly;
  m_strings : smap (list Z);
  m_libraries : smap string;
  m_deposit : Z
}.

Definition empty_assembly : Assembly := mkAssembly 1 [] [] [] [] [] [] 0.

Definition set_tags n (a : Assembly) := mkAssembly n (m_items a) (m_data a) (m_auxiliaryData a) (m_subs a) (m_strings a) (m_libraries a) (m_deposit a).
Definition set_items l (a : Assembly) := mkAssembly (m_usedTags a) l (m_data a) (m_auxiliaryData a) (m_subs a) (m_strings a) (m_libraries a) (m_deposit a).
Definition set_data d (a : Assembly) := mkAssembly (m_usedTags a) (m_items a) d (m_auxiliaryData a) (m_subs a) (m_strings a) (m_libraries a) (m_deposit a).
Definition set_aux d (a : Assembly) := mkAssembly (m_usedTags a) (m_items a) (m_data a) d (m_subs a) (m_strings a) (m_libraries a) (m_deposit a).
Definition set_subs s (a : Assembly) := mkAssembly (m_usedTags a) (m_items a) (m_data a) (m_auxiliaryData a) s (m_strings a) (m_libraries a) (m_deposit a).
Definition set_strings s (a : Assembly) := mkAssembly (m_usedTags a) (m_items a) (m_data a) (m_auxiliaryData a) (m_subs a) s (m_libraries a) (m_deposit a).
Definition set_libraries s (a : Assembly) := mkAssembly (m_usedTags a) (m_items a) (m_data a) (m_auxiliaryData a) (m_subs a) (m_strings a) s (m_deposit a).
Definition set_deposit d (a : Assembly) := mkAssembly (m_usedTags a) (m_items a) (m_data a) (m_auxiliaryData a) (m_subs a) (m_strings a) (m_libraries a) d.

(** The characters of a string as bytes. *)
Fixpoint string_bytes (s : string) : list Z :=
  match s with EmptyString => [] | String c s => Z.of_nat (Ascii.nat_of_ascii c) :: string_bytes s end.

(** [dev::keccak256] as a number. *)
Definition dev_keccak256 (data : list Z) : Z := be_val (keccak data).

Definition newTag (a : Assembly) : AssemblyItem * Assembly := (Tag (m_usedTags a), set_tags (wrap 32 (m_usedTags a + 1)) a).
Definition newPushTag (a : Assembly) : AssemblyItem * Assembly := (PushTag (m_usedTags a), set_tags (wrap 32 (m_usedTags a + 1)) a).
Definition newData (data : list Z) (a : Assembly) : AssemblyItem * Assembly :=
  let h := dev_keccak256 data in (PushData h, set_data (smap_set h data (m_data a)) a).
Definition newSub (sub : Assembly) (a : Assembly) : AssemblyItem * Assembly :=
  (PushSub (Z.of_nat (length (m_subs a))), set_subs (m_subs a ++ [sub]) a).
Definition newPushString (data : list Z) (a : Assembly) : AssemblyItem * Assembly :=
  let h := dev_keccak256 data in (PushString h, set_strings (smap_set h data (m_strings a)) a).
Abbreviation newPushSubSize subId := (PushSubSize subId).
Definition newPushLibraryAddress (identifier : string) (a : Assembly) : AssemblyItem * Assembly :=
  let h := dev_keccak256 (string_bytes identifier) in (PushLibraryAddress h, set_libraries (smap_set h identifier (m_libraries a)) a).

(** [append(AssemblyItem)]. *)
Definition append (i : AssemblyItem) (a : Assembly) : res Assembly :=
  _ ← assertThrow (0 <=? m_deposit a) EAssembly;
  mret (set_items (m_items a ++ [i]) (set_deposit (m_deposit a + deposit i) a)).

(** The renumbering of [append(Assembly)]. *)
Definition shift_item (tags subs : Z) (i : AssemblyItem) : AssemblyItem :=
  match i with
  | Tag d => Tag (wrap 256 (d + tags))
  | PushTag d => PushTag (wrap 256 (d + tags))
  | PushSub d => PushSub (wrap 256 (d + subs))
  | PushSubSize d => PushSubSize (wrap 256 (d + subs))
  | _ => i
  end.

Definition append_assembly (b a : Assembly) : res Assembly :=
  let newDeposit := m_deposit a + m_deposit b in
  a ← foldR (fun a i => append (shift_item (m_usedTags a) (Z.of_nat (length (m_subs a))) i) a) a (m_items b);
  let a := set_deposit newDeposit a in
  let a := set_tags (wrap 32 (m_usedTags a + m_usedTags b)) a in
  let a := set_data (foldl (fun m p => smap_insert (fst p) (snd p) m) (m_data a) (m_data b)) a in
  let a := set_strings (foldl (fun m p => smap_insert (fst p) (snd p) m) (m_strings a) (m_strings b)) a in
  let a := set_subs (m_subs a ++ m_subs b) a in
  mret (set_libraries (foldl (fun m p => smap_insert (fst p) (snd p) m) (m_libraries a) (m_libraries b)) a).

(** [append(Assembly, int)]: pop down to the wanted deposit. *)
Definition append_assembly_deposit (b : Assembly) (d : Z) (a : Assembly) : res Assembly :=
  _ ← assertThrow (d <=? m_deposit b) EInvalidDeposit;
  a ← append_assembly b a;
  foldR (fun a i => append i a) a (replicate (Z.to_nat (m_deposit b - d)) (Operation Op.POP)).

Definition appendProgramSize : Assembly -> res Assembly := append (PushProgramSize 0).
Definition appendJump (a : Assembly) : res (AssemblyItem * Assembly) :=
  let '(t, a) := newPushTag a in
  a ← append t a; a ← append (Operation Op.JUMP) a; mret (t, a).
Definition appendJumpI (a : Assembly) : res (AssemblyItem * Assembly) :=
  let '(t, a) := newPushTag a in
  a ← append t a; a ← append (Operation Op.JUMPI) a; mret (t, a).
Definition appendSubroutine (sub : Assembly) (a : Assembly) : res (AssemblyItem * Assembly) :=
  let '(i, a) := newSub sub a in
  a ← append (newPushSubSize (Z.of_nat (length (m_subs a) - 1))) a; mret (i, a).
Definition appendAuxiliaryDataToEnd (data : list Z) (a : Assembly) : Assembly := set_aux (m_auxiliaryData a ++ data) a.
Definition injectStart (i : AssemblyItem) (a : Assembly) : Assembly := set_items (i :: m_items a) a.
Definition adjustDeposit (adj : Z) (a : Assembly) : res Assembly :=
  let a := set_deposit (m_deposit a + adj) a in _ ← assertThrow (0 <=? m_deposit a) EInvalidDeposit; mret a.
Definition setDeposit (d : Z) (a : Assembly) : res Assembly :=
  let a := set_deposit d a in _ ← assertThrow (0 <=? m_deposit a) EInvalidDeposit; mret a.

(** [optimise] returns the assembly as it is: the calls are commented out. *)
Definition optimise (enable isCreation : bool) (runs : Z) (a : Assembly) : Assembly := a.

(** ** Assembling *)

Definition npos : Z := 2 ^ 64 - 1.

Definition zlen {A} (l : list A) : Z := Z.of_nat (length l).

(** The sum of [bytesRequired(unsigned subTagSize)] for one tag size. *)
Definition required_at (tagSize : Z) (a : Assembly) : res Z :=
  foldR (fun ret i => n ← at_ EInvalidOpcode (AsmItem.bytesRequired tagSize i); mret (wrap 32 (ret + n)))
    (foldl (fun ret d => wrap 32 (ret + zlen (snd d))) 1 (m_data a)) (m_items a).

(** [Assembly::bytesRequired]: the loop over tag sizes; four bytes hold any [unsigned]. *)
Fixpoint required_loop (fuel : nat) (tagSize : Z) (a : Assembly) : res Z :=
  match fuel with
  | 0%nat => throw ENoFuel
  | S fuel =>
      ret ← required_at tagSize a;
      if dev_bytesRequired ret <=? tagSize then mret ret else required_loop fuel (wrap 32 (tagSize + 1)) a
  end.
Definition bytesRequired (subTagSize : Z) (a : Assembly) : res Z := required_loop 5 subTagSize a.

(** What the first pass has produced: the code, the link references, the tag
    positions, and the places to fill in. *)
Record estate := mkE {
  e_code : list Z;
  e_links : smap string;
  e_pos : list Z;
  e_tagRef : list (Z * (Z * Z));
  e_dataRef : list (Z * Z);
  e_subRef : list (Z * Z);
  e_sizeRef : list Z
}.

Definition put (bs : list Z) (e : estate) : estate :=
  mkE (e_code e ++ bs) (e_links e) (e_pos e) (e_tagRef e) (e_dataRef e) (e_subRef e) (e_sizeRef e).
Definition set_pos (p : list Z) (e : estate) : estate :=
  mkE (e_code e) (e_links e) p (e_tagRef e) (e_dataRef e) (e_subRef e) (e_sizeRef e).
Definition add_link (id : string) (e : estate) : estate :=
  mkE (e_code e) (smap_set (zlen (e_code e)) id (e_links e)) (e_pos e) (e_tagRef e) (e_dataRef e) (e_subRef e) (e_sizeRef e).
Definition add_tagRef (t : Z * Z) (e : estate) : estate :=
  mkE (e_code e) (e_links e) (e_pos e) (e_tagRef e ++ [(zlen (e_code e), t)]) (e_dataRef e) (e_subRef e) (e_sizeRef e).
Definition add_dataRef (h : Z) (e : estate) : estate :=
  mkE (e_code e) (e_links e) (e_pos e) (e_tagRef e) (e_dataRef e ++ [(h, wrap 32 (zlen (e_code e)))]) (e_subRef e) (e_sizeRef e).
Definition add_subRef (i : Z) (e : estate) : estate :=
  mkE (e_code e) (e_links e) (e_pos e) (e_tagRef e) (e_dataRef e) (e_subRef e ++ [(i, zlen (e_code e))]) (e_sizeRef e).
Definition add_sizeRef (e : estate) : estate :=
  mkE (e_code e) (e_links e) (e_pos e) (e_tagRef e) (e_dataRef e) (e_subRef e) (e_sizeRef e ++ [wrap 32 (zlen (e_code e))]).

(** [PUSH1 - 1 + n] in a byte. *)
Definition push_byte (n : Z) : Z := wrap 8 (Op.PUSH1 - 1 + n).

Definition zeros (n : Z) : list Z := replicate (Z.to_nat n) 0.

(** A number as a push of the bytes it takes, one at least. *)
Definition push_compact (v : Z) : list Z :=
  let b := Z.max 1 (dev_bytesRequired v) in push_byte b :: be_bytes (Z.to_nat b) v.

Section Assemble.
(** The sub-assemblies as assembled, with their tag positions. *)
Context (subs : list (LinkerObject * list Z)) (a : Assembly) (bytesPerTag bytesPerDataRef : Z).

(** The position of the invalid jump destination, tag 0, is the first
    instruction that is not a tag. *)
Definition mark_invalid (i : AssemblyItem) (e : estate) : res estate :=
  match i with
  | Tag _ => mret e
  | _ =>
      p0 ← at_ EUndefinedBehaviour (e_pos e !! 0%nat);
      mret (if p0 =? npos then set_pos (<[0%nat := zlen (e_code e)]> (e_pos e)) e else e)
  end.

Definition emit_item (e : estate) (i : AssemblyItem) : res estate :=
  e ← mark_invalid i e;
  match i with
  | Operation i => mret (put [i] e)
  | PushString h =>
      s ← at_ EOutOfRange (smap_find h (m_strings a));
      mret (put (Op.PUSH16 :: take 16 (s ++ replicate 16 0)) e)
  | Push d => mret (put (push_compact d) e)
  | PushTag d => mret (put (zeros bytesPerTag) (add_tagRef (splitForeignPushTag d) (put [push_byte bytesPerTag] e)))
  | PushData h => mret (put (zeros bytesPerDataRef) (add_dataRef h (put [push_byte bytesPerDataRef] e)))
  | PushSub d => mret (put (zeros bytesPerDataRef) (add_subRef (wrap 64 d) (put [push_byte bytesPerDataRef] e)))
  | PushSubSize d =>
      sub ← at_ EOutOfRange (subs !! Z.to_nat (wrap 64 d));
      mret (put (push_compact (zlen (bytecode (fst sub)))) e)
  | PushProgramSize _ => mret (put (zeros bytesPerDataRef) (add_sizeRef (put [push_byte bytesPerDataRef] e)))
  | PushLibraryAddress h =>
      id ← at_ EOutOfRange (smap_find h (m_libraries a));
      mret (put (replicate 20 0) (add_link id (put [Op.PUSH20] e)))
  | Tag d =>
      _ ← assertThrow (negb (d =? 0)) EAssembly;
      _ ← assertThrow (fst (splitForeignPushTag d) =? npos) EAssembly;
      _ ← assertThrow (zlen (e_code e) <? 0xffffffff) EAssembly;
      _ ← assertThrow (wrap 64 d <? zlen (e_pos e)) EUndefinedBehaviour;
      mret (put [Op.JUMPDEST] (set_pos (<[Z.to_nat (wrap 64 d) := zlen (e_code e)]> (e_pos e)) e))
  | UndefinedItem _ => throw EInvalidOpcode
  end.

Definition emit_items (e : estate) (l : list AssemblyItem) : res estate := foldR emit_item e l.

(** Write a number over the [n] bytes at [pos]. *)
Definition patch (n : Z) (v : Z) (code : list Z) (pos : Z) : list Z := splice code (Z.to_nat pos) (be_bytes (Z.to_nat n) v).

(** The references with a key. *)
Definition refs_to (k : Z) (refs : list (Z * Z)) : list Z := snd <$> filter (fun r => fst r = k) refs.

(** One referenced sub-assembly: fill in its offset and append it. *)
Definition place_sub (subRef : list (Z * Z)) (o : LinkerObject) (i : nat) : res LinkerObject :=
  match refs_to (Z.of_nat i) subRef with
  | [] => mret o
  | refs =>
      sub ← at_ EOutOfRange (subs !! i);
      let o := mkObject (foldl (patch bytesPerDataRef (zlen (bytecode o))) (bytecode o) refs) (linkReferences o) in
      mret (obj_append o (fst sub))
  end.

Definition place_tag (pos : list Z) (o : LinkerObject) (ref : Z * (Z * Z)) : res LinkerObject :=
  let '(p, (subId, tagId)) := ref in
  _ ← assertThrow ((subId =? npos) || (subId <? zlen subs)) EAssembly;
  tagPositions ← (if subId =? npos then mret pos else sub ← at_ EOutOfRange (subs !! Z.to_nat subId); mret (snd sub));
  _ ← assertThrow (tagId <? zlen tagPositions) EAssembly;
  q ← at_ EOutOfRange (tagPositions !! Z.to_nat tagId);
  _ ← assertThrow (negb (q =? npos)) EAssembly;
  _ ← assertThrow (dev_bytesRequired q <=? bytesPerTag) EAssembly;
  mret (mkObject (patch bytesPerTag q (bytecode o) p) (linkReferences o)).

Definition place_data (dataRef : list (Z * Z)) (o : LinkerObject) (d : Z * list Z) : LinkerObject :=
  match refs_to (fst d) dataRef with
  | [] => o
  | refs => mkObject (foldl (patch bytesPerDataRef (zlen (bytecode o))) (bytecode o) refs ++ snd d) (linkReferences o)
  end.

Definition is_empty {A} (l : list A) : bool := (length l =? 0)%nat.

(** The passes of [assemble] once the sizes are known. *)
Definition assemble_with : res (LinkerObject * list Z) :=
  e ← emit_items (mkE [] [] (replicate (Z.to_nat (m_usedTags a)) npos) [] [] [] []) (m_items a);
  let stop := if negb (is_empty (m_subs a)) || negb (is_empty (m_data a)) || negb (is_empty (m_auxiliaryData a)) then [0] else [] in
  let o := mkObject (e_code e ++ stop) (e_links e) in
  o ← foldR (place_sub (e_subRef e)) o (seq 0 (length (m_subs a)));
  o ← foldR (place_tag (e_pos e)) o (e_tagRef e);
  let o := foldl (place_data (e_dataRef e)) o (m_data a) in
  let o := mkObject (bytecode o ++ m_auxiliaryData a) (linkReferences o) in
  let o := mkObject (foldl (patch bytesPerDataRef (zlen (bytecode o))) (bytecode o) (e_sizeRef e)) (linkReferences o) in
  mret (o, e_pos e).
End Assemble.

(** The size in which the loop over tag sizes starts: the largest tag position
    of a sub-assembly. *)
Definition sub_tag_size (subs : list (LinkerObject * list Z)) : Z :=
  foldl (fun n sub => match snd sub with [] => n | p :: ps => Z.max n (foldl Z.max p ps) end) 1 subs.

(** The widths of tag and data references. *)
Definition ref_sizes (subs : list (LinkerObject * list Z)) (a : Assembly) : res (Z * Z) :=
  bytesRequiredForCode ← bytesRequired (wrap 32 (sub_tag_size subs)) a;
  let including := wrap 32 (bytesRequiredForCode + 1 + zlen (m_auxiliaryData a)) in
  let including := foldl (fun n sub => wrap 32 (n + zlen (bytecode (fst sub)))) including subs in
  mret (dev_bytesRequired bytesRequiredForCode, dev_bytesRequired including).

(** [Assembly::assemble], with the tag positions it leaves behind. *)
Fixpoint assemble (a : Assembly) : res (LinkerObject * list Z) :=
  subs ← mapR assemble (m_subs a);
  sizes ← ref_sizes subs a;
  assemble_with subs a (fst sizes) (snd sizes).
