(* ===== verification/AsmLayout.v ===== *)
(** * What [assemble] produces

    The byte code of an assembly is the concatenation of its items' bytes,
    followed by a STOP, the referenced sub-assemblies, the referenced data and
    the auxiliary data, with every reference filled in: [assemble_layout].  The
    first pass leaves holes; each later pass is shown to fill the holes of one
    kind and nothing else. *)
From Stdlib Require Import String.
From stdpp Require Import strings.
From S2P Require Import Prelude Bytes Keccak Runtime AsmItem Assembly.
Open Scope list_scope.
Open Scope Z_scope.

(** ** Results *)

Lemma res_bind_inr {A B} (m : res A) (f : A -> res B) b : (m ≫= f) = inr b -> exists a, m = inr a /\ f a = inr b.
Proof. destruct m as [e | a]; [done |]. by exists a. Qed.

Lemma res_bind_ok {A B} (a : A) (f : A -> res B) : ((inr a : res A) ≫= f) = f a.
Proof. done. Qed.

Lemma assertThrow_inr b e u : assertThrow b e = inr u -> b = true.
Proof. by destruct b. Qed.

Lemma at_inr {A} e (o : option A) a : at_ e o = inr a -> o = Some a.
Proof. destruct o; [by intros [= ->] | done]. Qed.

Lemma foldR_app {A S} (f : S -> A -> res S) s l l' : foldR f s (l ++ l') = (foldR f s l ≫= fun s => foldR f s l').
Proof. revert s. induction l as [| x l IH]; intros s; [done |]. cbn. destruct (f s x); [done | apply IH]. Qed.

(** Take a successful computation apart. *)
Ltac inv_res H :=
  repeat (apply res_bind_inr in H; let x := fresh "x" in let E := fresh "E" in destruct H as (x & E & H); cbv beta in H).

(** ** The bytes of items *)

(** What the references are filled with: the value of a tag reference, the
    offsets of data and sub-assemblies, the size of the program. *)
Record fills := mkFills { f_tag : Z * Z -> Z; f_data : Z -> Z; f_sub : Z -> Z; f_size : Z }.

Definition no_fills : fills := mkFills (fun _ => 0) (fun _ => 0) (fun _ => 0) 0.

Section Layout.
Context (subs : list (LinkerObject * list Z)) (a : Assembly) (t d : Z).

Definition string_value (h : Z) : list Z := take 16 (default [] (smap_find h (m_strings a)) ++ replicate 16 0).
Definition sub_size (i : Z) : Z := zlen (bytecode (default (mkObject [] [], []) (subs !! Z.to_nat (wrap 64 i))).1).

Definition item_bytes (F : fills) (i : AssemblyItem) : list Z :=
  match i with
  | Operation i => [i]
  | PushString h => Op.PUSH16 :: string_value h
  | Push v => push_compact v
  | PushTag v => push_byte t :: be_bytes (Z.to_nat t) (f_tag F (splitForeignPushTag v))
  | PushData h => push_byte d :: be_bytes (Z.to_nat d) (f_data F h)
  | PushSub v => push_byte d :: be_bytes (Z.to_nat d) (f_sub F (wrap 64 v))
  | PushSubSize v => push_compact (sub_size v)
  | PushProgramSize _ => push_byte d :: be_bytes (Z.to_nat d) (f_size F)
  | PushLibraryAddress _ => Op.PUSH20 :: replicate 20 0
  | Tag _ => [Op.JUMPDEST]
  | UndefinedItem _ => []
  end.

Definition layout (F : fills) (l : list AssemblyItem) : list Z := concat (item_bytes F <$> l).

Lemma layout_cons F i l : layout F (i :: l) = item_bytes F i ++ layout F l.
Proof. done. Qed.

Lemma layout_app F l l' : layout F (l ++ l') = layout F l ++ layout F l'.
Proof. unfold layout. by rewrite fmap_app, concat_app. Qed.

(** The sizes do not depend on what is filled in. *)
Definition item_size (i : AssemblyItem) : Z := zlen (item_bytes no_fills i).

Lemma length_item_bytes F i : zlen (item_bytes F i) = item_size i.
Proof. unfold item_size, zlen. destruct i; cbn [item_bytes length]; rewrite ?length_be_bytes; done. Qed.

Fixpoint total_size (l : list AssemblyItem) : Z := match l with [] => 0 | i :: l => item_size i + total_size l end.

Lemma zlen_app {A} (l l' : list A) : zlen (l ++ l') = zlen l + zlen l'.
Proof. unfold zlen. rewrite length_app. lia. Qed.

Lemma zlen_nonneg {A} (l : list A) : 0 <= zlen l.
Proof. unfold zlen. lia. Qed.

Lemma length_layout F l : zlen (layout F l) = total_size l.
Proof.
  induction l as [| i l IH]; [done |]. rewrite layout_cons, zlen_app, IH, length_item_bytes. done.
Qed.

Lemma zeros_be n : zeros n = be_bytes (Z.to_nat n) 0.
Proof.
  unfold zeros, be_bytes. induction (Z.to_nat n) as [| k IH]; [done |].
  cbn [le_bytes]. rewrite reverse_cons. change (0 / 256) with 0. rewrite <- IH. change (0 mod 256) with 0.
  by rewrite <- replicate_S_end.
Qed.

(** ** Holes *)

(** The positions one past the start of the items that [f] picks. *)
Fixpoint holes {A} (f : AssemblyItem -> option A) (off : Z) (l : list AssemblyItem) : list (A * Z) :=
  match l with
  | [] => []
  | i :: l => (match f i with Some k => [(k, off + 1)] | None => [] end) ++ holes f (off + item_size i) l
  end.

Lemma holes_app {A} (f : AssemblyItem -> option A) off l l' :
  holes f off (l ++ l') = holes f off l ++ holes f (off + total_size l) l'.
Proof.
  revert off. induction l as [| i l IH]; intros off; cbn [holes total_size app].
  - by rewrite Z.add_0_r.
  - rewrite IH, app_assoc. do 2 f_equal. lia.
Qed.

(** Items that refer to a tag, data, a sub-assembly or the program size. *)
Definition tag_ref (i : AssemblyItem) : option (Z * Z) := match i with PushTag v => Some (splitForeignPushTag v) | _ => None end.
Definition data_ref (i : AssemblyItem) : option Z := match i with PushData h => Some h | _ => None end.
Definition sub_ref (i : AssemblyItem) : option Z := match i with PushSub v => Some (wrap 64 v) | _ => None end.
Definition size_ref (i : AssemblyItem) : option unit := match i with PushProgramSize _ => Some () | _ => None end.

Lemma patch_hole n v pre h old post :
  length old = Z.to_nat n -> patch n v (pre ++ (h :: old) ++ post) (zlen pre + 1) = pre ++ (h :: be_bytes (Z.to_nat n) v) ++ post.
Proof.
  intros Hl. unfold patch, splice, zlen. replace (Z.to_nat (Z.of_nat (length pre) + 1)) with (length pre + 1)%nat by lia.
  rewrite length_be_bytes, <- Hl. change ((h :: old) ++ post) with ([h] ++ old ++ post).
  rewrite (app_assoc pre [h] (old ++ post)), take_app_length' by (rewrite length_app; cbn; lia).
  rewrite (app_assoc (pre ++ [h]) old post), drop_app_length' by (rewrite !length_app; cbn; lia).
  by rewrite <- app_assoc.
Qed.

(** Filling every hole of one kind turns one layout into another. *)
Lemma patch_holes {A} (f : AssemblyItem -> option A) (val : A -> Z) n F F' l pre tail :
  (forall i, match f i with
   | Some k => exists h old, item_bytes F i = h :: old /\ length old = Z.to_nat n /\
       item_bytes F' i = h :: be_bytes (Z.to_nat n) (val k)
   | None => item_bytes F' i = item_bytes F i
   end) ->
  foldl (fun c kp => patch n (val kp.1) c kp.2) (pre ++ layout F l ++ tail) (holes f (zlen pre) l) = pre ++ layout F' l ++ tail.
Proof.
  intros Hf. revert pre. induction l as [| i l IH]; intros pre; [done |]. cbn [holes]. rewrite !layout_cons, foldl_app.
  pose proof (length_item_bytes F' i) as Hs. specialize (Hf i).
  assert (foldl (fun c kp => patch n (val kp.1) c kp.2) (pre ++ (item_bytes F i ++ layout F l) ++ tail)
    (match f i with Some k => [(k, zlen pre + 1)] | None => [] end) = (pre ++ item_bytes F' i) ++ layout F l ++ tail) as ->.
  { destruct (f i) as [k |]; cbn [foldl fst snd].
    - destruct Hf as (h & old & -> & Hold & ->). rewrite <- (app_assoc (h :: old)), patch_hole by done. by rewrite <- !app_assoc.
    - rewrite Hf. by rewrite <- !app_assoc. }
  rewrite <- Hs, <- zlen_app, IH. by rewrite <- !app_assoc.
Qed.

(** The holes with one key. *)
Definition only {A} `{EqDecision A} (k : A) (f : AssemblyItem -> option A) (i : AssemblyItem) : option A :=
  if decide (f i = Some k) then Some k else None.

Lemma refs_to_holes k (f : AssemblyItem -> option Z) off l : refs_to k (holes f off l) = snd <$> holes (only k f) off l.
Proof.
  unfold refs_to. revert off. induction l as [| i l IH]; intros off; [done |]. cbn [holes].
  rewrite filter_app, !fmap_app, IH. f_equal. unfold only. destruct (f i) as [j |]; [| by rewrite decide_False].
  destruct (decide (j = k)) as [-> | Hn].
  - rewrite decide_True by done. rewrite filter_cons_True by done. done.
  - rewrite decide_False by congruence. rewrite filter_cons_False by done. done.
Qed.

Lemma foldl_patch_key {A} n v c (l : list (A * Z)) :
  foldl (patch n v) c (snd <$> l) = foldl (fun c kp => patch n v c kp.2) c l.
Proof. revert c. induction l as [| x l IH]; intros c; [done |]. apply IH. Qed.

(** ** The first pass *)

Definition pos_of (p : Z * Z) : Z := p.2.

(** The tag positions after one item at offset [off]. *)
Definition pos_step (pos : list Z) (off : Z) (i : AssemblyItem) : list Z :=
  match i with
  | Tag v => <[Z.to_nat (wrap 64 v) := off]> pos
  | _ => match pos !! 0%nat with Some p => if p =? npos then <[0%nat := off]> pos else pos | None => pos end
  end.

Fixpoint pos_steps (pos : list Z) (off : Z) (l : list AssemblyItem) : list Z :=
  match l with [] => pos | i :: l => pos_steps (pos_step pos off i) (off + item_size i) l end.

(** What an item adds to the state of the first pass. *)
Definition extends (e e' : estate) (l : list AssemblyItem) : Prop :=
  e_code e' = e_code e ++ layout no_fills l /\
  e_pos e' = pos_steps (e_pos e) (zlen (e_code e)) l /\
  e_tagRef e' = e_tagRef e ++ ((fun kp => (kp.2, kp.1)) <$> holes tag_ref (zlen (e_code e)) l) /\
  e_dataRef e' = e_dataRef e ++ ((fun kp => (kp.1, wrap 32 kp.2)) <$> holes data_ref (zlen (e_code e)) l) /\
  e_subRef e' = e_subRef e ++ holes sub_ref (zlen (e_code e)) l /\
  e_sizeRef e' = e_sizeRef e ++ ((fun kp => wrap 32 kp.2) <$> holes size_ref (zlen (e_code e)) l).

Lemma extends_nil e : extends e e [].
Proof. unfold extends. cbn. by rewrite !app_nil_r. Qed.

Lemma extends_cons e e1 e2 i l : extends e e1 [i] -> extends e1 e2 l -> extends e e2 (i :: l).
Proof.
  intros (C1 & P1 & T1 & D1 & S1 & Z1) (C2 & P2 & T2 & D2 & S2 & Z2). unfold extends.
  assert (zlen (e_code e1) = zlen (e_code e) + item_size i) as Hz.
  { rewrite C1, zlen_app, length_layout. cbn [total_size]. lia. }
  rewrite C2, P2, T2, D2, S2, Z2, Hz, C1, P1, T1, D1, S1, Z1. cbn [holes pos_steps].
  rewrite !fmap_app, !app_nil_r, <- !app_assoc, layout_cons. split_and!; try done.
  unfold layout. cbn. by rewrite app_nil_r.
Qed.

Lemma extends_item e e' i : emit_item subs a t d e i = inr e' -> extends e e' [i].
Proof.
  unfold emit_item. intros H. inv_res H.
  assert (e_code x = e_code e /\ e_links x = e_links e /\ e_tagRef x = e_tagRef e /\ e_dataRef x = e_dataRef e /\
    e_subRef x = e_subRef e /\ e_sizeRef x = e_sizeRef e) as (HC & HL & HT & HD & HS & HZ).
  { unfold mark_invalid in E. destruct i; try (by injection E as <-); inv_res E; injection E as <-; by destruct (_ =? _). }
  assert (match i with Tag _ => e_pos x = e_pos e | _ => e_pos x = pos_step (e_pos e) (zlen (e_code e)) i end) as HP.
  { unfold mark_invalid in E. destruct i; try (by injection E as <-); inv_res E; injection E as <-;
      apply at_inr in E0; cbn [pos_step]; rewrite E0; by destruct (_ =? _). }
  unfold extends, layout. cbn [fmap list_fmap concat holes pos_steps]. rewrite !app_nil_r.
  destruct i; cbn [tag_ref data_ref sub_ref size_ref item_bytes fmap list_fmap fst snd app] in *; rewrite ?app_nil_r; try discriminate H;
    inv_res H; injection H as <-;
    cbn [put e_code e_pos e_tagRef e_dataRef e_subRef e_sizeRef add_tagRef add_dataRef add_subRef add_sizeRef add_link set_pos];
    rewrite ?HC, ?HT, ?HD, ?HS, ?HZ, ?HP, ?zlen_app, ?zeros_be, <- ?app_assoc; cbn [app];
    repeat match goal with E : at_ _ _ = inr _ |- _ => apply at_inr in E end; try done.
  - unfold string_value. by rewrite E0.
  - unfold sub_size. by rewrite E0.
Qed.

Lemma extends_items e e' l : emit_items subs a t d e l = inr e' -> extends e e' l.
Proof.
  unfold emit_items. revert e. induction l as [| i l IH]; intros e H; cbn [foldR] in H.
  - injection H as <-. apply extends_nil.
  - inv_res H. eapply extends_cons; [by apply extends_item | by apply IH].
Qed.

Lemma emit_items_defined e e' l : emit_items subs a t d e l = inr e' -> Forall (fun i => forall v, i <> UndefinedItem v) l.
Proof.
  unfold emit_items. revert e. induction l as [| i l IH]; intros e H; [constructor |]. cbn [foldR] in H. inv_res H.
  constructor; [| by apply (IH x)]. intros v ->. unfold emit_item in E. by inv_res E.
Qed.

(** ** The later passes *)

Definition set_f_tag g F := mkFills g (f_data F) (f_sub F) (f_size F).
Definition set_f_data h v F := mkFills (f_tag F) (fun k => if decide (k = h) then v else f_data F k) (f_sub F) (f_size F).
Definition set_f_sub j v F := mkFills (f_tag F) (f_data F) (fun k => if decide (k = j) then v else f_sub F k) (f_size F).
Definition set_f_size v F := mkFills (f_tag F) (f_data F) (f_sub F) v.

(** Filling the holes of one key. *)
Lemma patch_only (f : AssemblyItem -> option Z) k v F F' l tail :
  (forall i, match f i with
   | Some j => exists old, item_bytes F i = push_byte d :: old /\ length old = Z.to_nat d /\
       (j = k -> item_bytes F' i = push_byte d :: be_bytes (Z.to_nat d) v) /\ (j <> k -> item_bytes F' i = item_bytes F i)
   | None => item_bytes F' i = item_bytes F i
   end) ->
  foldl (patch d v) (layout F l ++ tail) (refs_to k (holes f 0 l)) = layout F' l ++ tail.
Proof.
  intros Hf. rewrite refs_to_holes, foldl_patch_key.
  apply (patch_holes (only k f) (fun _ => v) d F F' l []). intros i. specialize (Hf i). unfold only.
  destruct (f i) as [j |].
  - destruct Hf as (old & H1 & H2 & H3 & H4). case_decide as E; [| apply H4; congruence].
    injection E as ->. exists (push_byte d), old. auto.
  - by rewrite decide_False.
Qed.

Lemma patch_sub k v F l tail :
  foldl (patch d v) (layout F l ++ tail) (refs_to k (holes sub_ref 0 l)) = layout (set_f_sub k v F) l ++ tail.
Proof.
  apply patch_only. intros i. destruct i; cbn [sub_ref]; try done. eexists. split; [reflexivity |].
  split; [by rewrite length_be_bytes |]. cbn [item_bytes set_f_sub f_sub]. split; intros; by case_decide.
Qed.

Lemma patch_data k v F l tail :
  foldl (patch d v) (layout F l ++ tail) (refs_to k (holes data_ref 0 l)) = layout (set_f_data k v F) l ++ tail.
Proof.
  apply patch_only. intros i. destruct i; cbn [data_ref]; try done. eexists. split; [reflexivity |].
  split; [by rewrite length_be_bytes |]. cbn [item_bytes set_f_data f_data]. split; intros; by case_decide.
Qed.

Lemma patch_size v F l tail :
  foldl (patch d v) (layout F l ++ tail) (snd <$> holes size_ref 0 l) = layout (set_f_size v F) l ++ tail.
Proof.
  rewrite foldl_patch_key. apply (patch_holes size_ref (fun _ => v) d F _ l []).
  intros i. destruct i; cbn [size_ref]; try done. eexists _, _. split; [reflexivity |]. by rewrite length_be_bytes.
Qed.

Lemma patch_tag g F l tail :
  foldl (fun c kp => patch t (g kp.1) c kp.2) (layout F l ++ tail) (holes tag_ref 0 l) = layout (set_f_tag g F) l ++ tail.
Proof.
  apply (patch_holes tag_ref g t F _ l []).
  intros i. destruct i; cbn [tag_ref]; try done. eexists _, _. split; [reflexivity |]. by rewrite length_be_bytes.
Qed.

(** [bs] stands at offset [p] of the code, after the items. *)
Definition in_tail (p : Z) (bs tail : list Z) : Prop :=
  exists x y, tail = x ++ bs ++ y /\ p = total_size (m_items a) + zlen x.

Lemma in_tail_app p bs tail z : in_tail p bs tail -> in_tail p bs (tail ++ z).
Proof. intros (x & y & -> & ->). exists x, (y ++ z). by rewrite <- !app_assoc. Qed.

Lemma in_tail_end F bs tail : in_tail (zlen (layout F (m_items a) ++ tail)) bs (tail ++ bs).
Proof. exists tail, []. rewrite app_nil_r, zlen_app, length_layout. done. Qed.

Lemma refs_to_nonempty k f off l i :
  i ∈ l -> f i = Some k -> refs_to k (holes f off l) <> [].
Proof.
  intros Hin Hf. rewrite refs_to_holes. revert off. induction l as [| j l IH]; intros off; [by apply elem_of_nil in Hin |].
  cbn [holes]. rewrite fmap_app. apply elem_of_cons in Hin as [<- | Hin].
  - unfold only at 1. by rewrite decide_True.
  - intros [_ H2]%app_eq_nil. by apply (IH Hin _ H2).
Qed.

Abbreviation items := (m_items a).

(** Every sub-assembly below [n] that is referenced stands where the references say. *)
Definition subs_placed (n : nat) (F : fills) (tail : list Z) : Prop :=
  forall i k, i ∈ items -> sub_ref i = Some (Z.of_nat k) -> (k < n)%nat ->
  exists sub, subs !! k = Some sub /\ in_tail (f_sub F (Z.of_nat k)) (bytecode sub.1) tail.

Lemma place_subs_spec n o o' stop :
  bytecode o = layout no_fills items ++ stop ->
  foldR (place_sub subs d (holes sub_ref 0 items)) o (seq 0 n) = inr o' ->
  exists F tail, bytecode o' = layout F items ++ stop ++ tail /\ subs_placed n F (stop ++ tail) /\ (n = 0%nat -> tail = []).
Proof.
  intros Ho. revert o'. induction n as [| n IH]; intros o' H.
  - injection H as <-. exists no_fills, []. rewrite app_nil_r. split_and!; [done | | done]. intros i k _ _ Hk. lia.
  - rewrite seq_S, foldR_app in H. cbn [Nat.add] in H. inv_res H. apply IH in E as (F & tail & Hx & HF & _). clear IH.
    injection H as <-. rename E0 into E. unfold place_sub in E.
    destruct (refs_to (Z.of_nat n) (holes sub_ref 0 items)) as [| r refs] eqn:Er.
    + injection E as <-. exists F, tail. split_and!; [done | | done]. intros i k Hi Hk Hn.
      destruct (decide (k = n)) as [-> | Hne]; [| apply (HF i k Hi Hk); lia].
      by destruct (refs_to_nonempty (Z.of_nat n) sub_ref 0 items i Hi Hk).
    + inv_res E. apply at_inr in E0. injection E as <-. cbn [obj_append bytecode].
      pose proof (patch_sub (Z.of_nat n) (zlen (bytecode x)) F items (stop ++ tail)) as Hp. rewrite Er, <- Hx in Hp.
      cbn [foldl] in Hp. rewrite Hp.
      exists (set_f_sub (Z.of_nat n) (zlen (bytecode x)) F), (tail ++ bytecode x1.1). rewrite <- !app_assoc. split_and!; [done | | done].
      intros i k Hi Hk Hn. cbn [set_f_sub f_sub]. destruct (decide (k = n)) as [-> | Hne].
      * exists x1. split; [done |]. rewrite decide_True, Hx, (app_assoc stop) by done. apply in_tail_end.
      * destruct (HF i k Hi Hk) as (sub & Hs & Ht); [lia |]. exists sub. split; [done |].
        rewrite decide_False, (app_assoc stop) by lia. by apply in_tail_app.
Qed.

(** The position of a tag, possibly of a sub-assembly. *)
Definition tag_position (pos : list Z) (st : Z * Z) : option Z :=
  if st.1 =? npos then pos !! Z.to_nat st.2 else sub ← subs !! Z.to_nat st.1; sub.2 !! Z.to_nat st.2.

Definition tag_placed (pos : list Z) (st : Z * Z) : Prop :=
  exists q, tag_position pos st = Some q /\ q <> npos /\ dev_bytesRequired q <= t.

Lemma place_tag_spec pos o o' p st :
  place_tag subs t pos o (p, st) = inr o' ->
  bytecode o' = patch t (default 0 (tag_position pos st)) (bytecode o) p /\ tag_placed pos st.
Proof.
  unfold place_tag, tag_placed, tag_position. destruct st as [s q]. cbn [fst snd]. intros H. inv_res H. injection H as <-.
  apply assertThrow_inr in E1, E3, E4. apply at_inr in E2. apply negb_true_iff, Z.eqb_neq in E3. apply Z.leb_le in E4.
  destruct (s =? npos).
  - injection E0 as <-. rewrite E2. cbn. eauto.
  - inv_res E0. apply at_inr in E5. injection E0 as <-. rewrite E5. cbn. rewrite E2. cbn. eauto.
Qed.

Lemma place_tags_spec pos (H : list (Z * Z * Z)) o o' :
  foldR (place_tag subs t pos) o ((fun kp => (kp.2, kp.1)) <$> H) = inr o' ->
  bytecode o' = foldl (fun c kp => patch t (default 0 (tag_position pos kp.1)) c kp.2) (bytecode o) H /\
  Forall (fun kp => tag_placed pos kp.1) H.
Proof.
  revert o. induction H as [| [st p] H IH]; intros o Hf; cbn [foldR fmap list_fmap] in Hf.
  - by injection Hf as <-.
  - inv_res Hf. apply place_tag_spec in E as [Ex Ht]. apply IH in Hf as [Hf Hall]. cbn [foldl fst snd] in *. rewrite <- Ex.
    split; [done |]. by constructor.
Qed.

Lemma in_holes {A} (f : AssemblyItem -> option A) off l i k : i ∈ l -> f i = Some k -> exists p, (k, p) ∈ holes f off l.
Proof.
  intros Hin Hf. revert off. induction l as [| j l IH]; intros off; [by apply elem_of_nil in Hin |]. cbn [holes].
  apply elem_of_cons in Hin as [<- | Hin].
  - rewrite Hf. exists (off + 1). apply elem_of_app. left. by apply list_elem_of_singleton.
  - destruct (IH Hin (off + item_size j)) as [p Hp]. exists p. apply elem_of_app. by right.
Qed.

Lemma total_size_nonneg l : 0 <= total_size l.
Proof. rewrite <- (length_layout no_fills). apply zlen_nonneg. Qed.

(** Positions fit in the [unsigned] they are kept in. *)
Lemma holes_small {A} (f : AssemblyItem -> option A) off l :
  (forall i k, f i = Some k -> 1 <= item_size i) -> 0 <= off -> off + total_size l < 2 ^ 32 ->
  (fun kp => (kp.1, wrap 32 kp.2)) <$> holes f off l = holes f off l.
Proof.
  intros Hf. revert off. induction l as [| i l IH]; intros off H0 Hs; [done |]. cbn [holes total_size] in *.
  pose proof (total_size_nonneg l). assert (0 <= item_size i) by apply zlen_nonneg.
  rewrite fmap_app, IH by lia. f_equal. destruct (f i) as [k |] eqn:E; [| done]. apply Hf in E.
  cbn. rewrite wrap_small; [done |]. unfold inw. lia.
Qed.

Lemma hole_size i : is_Some (tag_ref i) \/ is_Some (data_ref i) \/ is_Some (sub_ref i) \/ is_Some (size_ref i) -> 1 <= item_size i.
Proof. unfold item_size, zlen. destruct i; cbn; intros H; try lia; by destruct H as [[] | [[] | [[] | []]]]. Qed.

Definition data_placed (dm : smap (list Z)) (F : fills) (tail : list Z) : Prop :=
  forall h bs i, (h, bs) ∈ dm -> i ∈ items -> data_ref i = Some h -> in_tail (f_data F h) bs tail.

Lemma place_datas_spec dm F tail o :
  NoDup (dm.*1) -> bytecode o = layout F items ++ tail ->
  exists F' tail', bytecode (foldl (place_data d (holes data_ref 0 items)) o dm) = layout F' items ++ tail ++ tail' /\
    data_placed dm F' (tail ++ tail') /\ f_tag F' = f_tag F /\ f_sub F' = f_sub F /\
    (forall h, h ∉ dm.*1 -> f_data F' h = f_data F h) /\ (dm = [] -> tail' = []).
Proof.
  revert F tail o. induction dm as [| [h bs] dm IH]; intros F tail o Hnd Ho.
  - exists F, []. rewrite app_nil_r. split_and!; try done. intros h bs i Hin. by apply elem_of_nil in Hin.
  - rewrite fmap_cons in Hnd. pose proof (NoDup_cons_1_1 _ _ Hnd) as Hh. apply NoDup_cons_1_2 in Hnd. cbn [foldl].
    set (o1 := place_data d (holes data_ref 0 items) o (h, bs)).
    assert (exists F1 t1, bytecode o1 = layout F1 items ++ tail ++ t1 /\ f_tag F1 = f_tag F /\ f_sub F1 = f_sub F /\
      (forall h', h' <> h -> f_data F1 h' = f_data F h') /\
      (forall i, i ∈ items -> data_ref i = Some h -> in_tail (f_data F1 h) bs (tail ++ t1))) as (F1 & t1 & H1 & HT & HS & HD & HP).
    { unfold o1, place_data. cbn [fst snd]. destruct (refs_to h (holes data_ref 0 items)) as [| r refs] eqn:Er.
      - exists F, []. rewrite app_nil_r. split_and!; try done. intros i Hi Hr.
        by destruct (refs_to_nonempty h data_ref 0 items i Hi Hr).
      - exists (set_f_data h (zlen (bytecode o)) F), bs. cbn [bytecode set_f_data f_tag f_sub f_data].
        pose proof (patch_data h (zlen (bytecode o)) F items tail) as Hp. rewrite Er, <- Ho in Hp. rewrite Hp.
        rewrite <- app_assoc. split_and!; try done; [intros; by rewrite decide_False |].
        intros i _ _. rewrite decide_True, Ho by done. apply in_tail_end. }
    destruct (IH F1 (tail ++ t1) o1 Hnd H1) as (F' & t' & H' & HD' & HT' & HS' & HK & _).
    exists F', (t1 ++ t'). rewrite (app_assoc tail). split_and!; try congruence; try done.
    + intros h0 bs0 i Hin Hi Hr. apply elem_of_cons in Hin as [[= -> ->] | Hin]; [| by apply (HD' h0 bs0 i)].
      rewrite HK by done. apply in_tail_app. by apply (HP i).
    + intros h0 Hn. apply not_elem_of_cons in Hn as [Hn1 Hn2]. rewrite HK by done. by apply HD.
Qed.

(** ** Tag positions *)

(** The offset of item [k]. *)
Definition offset (k : nat) : Z := total_size (take k items).

(** Items as the compiler makes them: opcodes without operands, 256-bit
    constants, tags that are neither foreign nor tag 0. *)
Definition item_wf (i : AssemblyItem) : Prop :=
  match i with
  | Operation b => inw 8 b /\ ~ (Op.PUSH1 <= b <= Op.PUSH32)
  | Push v => inw 256 v
  | Tag v => 0 < v < 2 ^ 64
  | _ => True
  end.

(** A recorded position is that of such a tag; that of tag 0 is not a tag's. *)
Definition pos_ok (l : list AssemblyItem) (pos : list Z) : Prop :=
  forall q p, pos !! q = Some p -> p <> npos ->
  exists k i, l !! k = Some i /\ p = total_size (take k l) /\
    match i with Tag v => (0 < q)%nat /\ v = Z.of_nat q | _ => q = 0%nat end.

Lemma pos_ok_snoc l pos i : pos_ok l pos -> pos_ok (l ++ [i]) pos.
Proof.
  intros H q p Hq Hp. destruct (H q p Hq Hp) as (k & j & Hk & -> & Hj). exists k, j.
  pose proof (lookup_lt_Some _ _ _ Hk). rewrite lookup_app_l, take_app_le by lia. auto.
Qed.

Lemma pos_ok_step l pos i : item_wf i -> pos_ok l pos -> pos_ok (l ++ [i]) (pos_step pos (total_size l) i).
Proof.
  intros Hwf H. assert (forall q, match i with Tag v => (0 < q)%nat /\ v = Z.of_nat q | _ => q = 0%nat end ->
    pos_ok (l ++ [i]) (<[q := total_size l]> pos)) as Hins.
  { intros q Hq q' p [(<- & <- & _) | [_ Hq']]%list_lookup_insert_Some Hp; [| by apply (pos_ok_snoc l pos i H q' p)].
    exists (length l), i. rewrite lookup_app_r, Nat.sub_diag, take_app_length by lia. auto. }
  destruct i; cbn [pos_step]; try (destruct (pos !! 0%nat) as [p0 |]; [destruct (p0 =? npos); [by apply Hins |] |]; by apply pos_ok_snoc).
  apply Hins. cbn [item_wf] in Hwf. rewrite wrap_small by (unfold inw; lia). lia.
Qed.

Lemma pos_ok_steps l l' pos : Forall item_wf l' -> pos_ok l pos -> pos_ok (l ++ l') (pos_steps pos (total_size l) l').
Proof.
  revert l pos. induction l' as [| i l' IH]; intros l pos Hwf H; cbn [pos_steps]; [by rewrite app_nil_r |].
  apply Forall_cons_1 in Hwf as [Hi Hwf].
  replace (total_size l + item_size i) with (total_size (l ++ [i])).
  - rewrite cons_middle, app_assoc. apply IH; [done |]. by apply pos_ok_step.
  - clear. induction l as [| j l IH]; cbn [total_size app] in *; lia.
Qed.

(** ** The theorem *)

Record assembly_wf : Prop := {
  wf_items : Forall item_wf items;
  wf_data : NoDup (m_data a).*1
}.

(** The byte code [code] with tag positions [pos] is what the assembly says. *)
Record assembled (code pos : list Z) (F : fills) (tail : list Z) : Prop := {
  as_code : code = layout F items ++ tail;
  as_tail : tail = [] \/ head tail = Some 0;
  as_tags i st : i ∈ items -> tag_ref i = Some st ->
    tag_position pos st = Some (f_tag F st) /\ f_tag F st <> npos /\ dev_bytesRequired (f_tag F st) <= t;
  as_subs : subs_placed (length (m_subs a)) F tail;
  as_data : data_placed (m_data a) F tail;
  as_aux : exists x, tail = x ++ m_auxiliaryData a;
  as_size : f_size F = zlen code;
  as_pos : pos_ok items pos;
  as_defined : Forall (fun i => forall v, i <> UndefinedItem v) items
}.

Lemma assemble_with_spec o pos :
  assembly_wf -> assemble_with subs a t d = inr (o, pos) -> total_size items < 2 ^ 32 ->
  exists F tail, assembled (bytecode o) pos F tail.
Proof.
  intros [Hwf Hnd] H Hsz. unfold assemble_with in H. inv_res H. injection H as <- <-. cbn [bytecode] in *.
  pose proof (emit_items_defined _ _ _ E) as Hdef. apply extends_items in E as (HC & HP & HT & HD & HS & HZ). cbn [e_code e_pos e_tagRef e_dataRef e_subRef e_sizeRef app] in *.
  change (zlen []) with 0 in *. rewrite HS in E0. rewrite HT in E1.
  set (stop := if negb (is_empty (m_subs a)) || _ || _ then [0] else []) in *.
  apply (place_subs_spec _ _ _ stop) in E0 as (F1 & t1 & H1 & HF1 & Hn1); [| by rewrite HC].
  apply place_tags_spec in E1 as [H2 Htags]. 
  rewrite H1, (patch_tag (fun st => default 0 (tag_position (e_pos x) st))) in H2.
  rewrite holes_small in HD by (try done; intros i k Hk; apply hole_size; eauto).
  rewrite HD in *.
  destruct (place_datas_spec (m_data a) _ _ x1 Hnd H2) as (F3 & t3 & H3 & HD3 & HT3 & HS3 & _ & Hn3).
  set (o3 := foldl (place_data d (holes data_ref 0 items)) x1 (m_data a)) in *.
  rewrite H3, <- app_assoc. set (tail := (((stop ++ t1) ++ t3) ++ m_auxiliaryData a)).
  assert (e_sizeRef x = snd <$> holes size_ref 0 items) as ->.
  { rewrite HZ. rewrite <- (holes_small size_ref 0 items) at 2 by (try done; intros i k Hk; apply hole_size; eauto).
    by rewrite <- list_fmap_compose. }
  rewrite patch_size. set (F := set_f_size (zlen (layout F3 items ++ tail)) F3).
  exists F, tail. split.
  - done.
  - unfold tail, stop. destruct (m_subs a), (m_data a), (m_auxiliaryData a); cbn [is_empty length Nat.eqb negb orb app];
      try (by right). left. by rewrite Hn1, Hn3.
  - intros i st Hi Hr. destruct (in_holes tag_ref 0 items i st Hi Hr) as [p Hp].
    rewrite Forall_forall in Htags. apply list_elem_of_In in Hp. destruct (Htags _ Hp) as (q & Hq & ? & ?). cbn [fst] in Hq.
    unfold F, set_f_size. cbn [f_tag]. rewrite HT3. cbn [set_f_tag f_tag]. rewrite Hq. done.
  - intros i k Hi Hk Hn. unfold F. cbn [set_f_size f_sub]. rewrite HS3. cbn [set_f_tag f_sub].
    destruct (HF1 i k Hi Hk Hn) as (sub & Hsub & Hin). exists sub. split; [done |]. unfold tail. do 2 apply in_tail_app. exact Hin.
  - intros h bs i Hin Hi Hr. unfold tail. apply in_tail_app. by apply (HD3 h bs i).
  - eexists. reflexivity.
  - unfold F. cbn [set_f_size f_size]. unfold tail. rewrite !zlen_app, !length_layout. done.
  - rewrite HP. apply (pos_ok_steps [] items); [done |]. intros q p Hq Hp. by apply lookup_replicate in Hq as [-> _].
  - done.
Qed.
End Layout.
