(* ===== verification/AsmRun.v ===== *)
(** * Assembled code does what its items say

    An interpreter of assembly items over the reference machine's
    instructions: a push takes the value the assembler gave it, a jump goes to
    the tag at its target, the end of the items is the appended STOP or the end
    of the code.  [assembled_run] shows that running the byte code is running
    the items: the boundaries, operands and jump destinations that the virtual
    machine finds in the byte code are those of the items. *)
From stdpp Require Import strings.
From S2P Require Import Prelude Bytes Instruction BasicBlocks LLVMInt EvmAbi GasSchedule Keccak Runtime IR.
From S2P Require Import Machine NullHost Interp AsmItem AsmTable Assembly AsmLayout.
Open Scope list_scope.
Open Scope Z_scope.

(** ** Byte lengths *)

Lemma bytesRequired_loop_bound fuel v : 0 <= v -> 0 <= bytesRequired_loop fuel v <= Z.of_nat fuel.
Proof.
  revert v. induction fuel as [| fuel IH]; intros v Hv; cbn [bytesRequired_loop]; [lia |].
  destruct (v =? 0); [lia |]. specialize (IH (Z.shiftr v 8)). rewrite Z.shiftr_nonneg in IH. lia.
Qed.

Lemma bytesRequired_loop_fits fuel v : inw (8 * Z.of_nat fuel) v -> inw (8 * bytesRequired_loop fuel v) v.
Proof.
  revert v. induction fuel as [| fuel IH]; intros v Hv; [done |]. cbn [bytesRequired_loop].
  destruct (Z.eqb_spec v 0) as [-> | Hn]; [done |].
  assert (inw (8 * Z.of_nat fuel) (Z.shiftr v 8)) as Hs.
  { unfold inw in *. rewrite Z.shiftr_div_pow2 by lia. replace (8 * Z.of_nat (S fuel)) with (8 + 8 * Z.of_nat fuel) in Hv by lia.
    rewrite Z.pow_add_r in Hv by lia. split; [apply Z.div_pos; lia |]. apply Z.div_lt_upper_bound; lia. }
  pose proof (bytesRequired_loop_bound fuel (Z.shiftr v 8) (proj1 Hs)). apply IH in Hs. unfold inw in *.
  rewrite Z.shiftr_div_pow2 in * by lia.
  replace (8 * (1 + bytesRequired_loop fuel (v / 2 ^ 8))) with (8 + 8 * bytesRequired_loop fuel (v / 2 ^ 8)) by lia.
  rewrite Z.pow_add_r by lia. pose proof (Z.div_mod v (2 ^ 8) ltac:(lia)). pose proof (Z.mod_pos_bound v (2 ^ 8) ltac:(lia)). nia.
Qed.

Lemma dev_bytesRequired_bound v : inw 256 v -> 0 <= dev_bytesRequired v <= 32.
Proof. intros [Hv _]. apply (bytesRequired_loop_bound 32 v Hv). Qed.

Lemma dev_bytesRequired_fits v : inw 256 v -> inw (8 * dev_bytesRequired v) v.
Proof. exact (bytesRequired_loop_fits 32 v). Qed.

(** A number needs no more bytes than any that hold it. *)
Lemma bytesRequired_loop_le fuel n v : 0 <= n -> inw (8 * n) v -> bytesRequired_loop fuel v <= n.
Proof.
  revert n v. induction fuel as [| fuel IH]; intros n v Hn Hv; cbn [bytesRequired_loop]; [done |].
  destruct (Z.eqb_spec v 0) as [-> | Hz]; [done |].
  assert (0 < n). { destruct (decide (n = 0)) as [-> |]; [unfold inw in Hv; lia | lia]. }
  assert (bytesRequired_loop fuel (Z.shiftr v 8) <= n - 1); [| lia]. apply IH; [lia |].
  unfold inw in *. rewrite Z.shiftr_div_pow2 by lia. replace (8 * n) with (8 + 8 * (n - 1)) in Hv by lia.
  rewrite Z.pow_add_r in Hv by lia. split; [apply Z.div_pos; lia |]. apply Z.div_lt_upper_bound; lia.
Qed.

Lemma dev_bytesRequired_le n v : 0 <= n -> inw (8 * n) v -> dev_bytesRequired v <= n.
Proof. apply bytesRequired_loop_le. Qed.

Lemma push_byte_inst n : 1 <= n <= 32 ->
  inw 8 (push_byte n) /\ Instruction_of_byte (push_byte n) = PUSH (Z.to_nat n) /\ numPushBytes (push_byte n) = Z.to_nat n.
Proof.
  intros Hn. unfold push_byte. rewrite wrap_small by (unfold inw, Op.PUSH1; lia).
  split; [unfold inw, Op.PUSH1; lia |].
  assert (Instruction_of_byte (Op.PUSH1 - 1 + n) = PUSH (Z.to_nat n)) as Hi.
  { unfold Instruction_of_byte, Op.PUSH1. destruct (Z.leb_spec 0x60 (0x60 - 1 + n)); [| lia].
    destruct (Z.leb_spec (0x60 - 1 + n) 0x7f); [| lia]. cbn [andb]. f_equal. lia. }
  split; [done |]. unfold numPushBytes. by rewrite Hi.
Qed.

(** ** Code around an instruction *)

Lemma chunk_code_at pre b rest post : code_at (pre ++ (b :: rest) ++ post) (length pre) = b.
Proof. unfold code_at. by rewrite lookup_app_r, Nat.sub_diag by lia. Qed.

Lemma chunk_nxt pre b rest post :
  numPushBytes b = length rest ->
  nxt (pre ++ (b :: rest) ++ post) (length pre) = (length pre + S (length rest))%nat.
Proof.
  intros Hb. rewrite nxt_eq by (rewrite !length_app; cbn; lia). rewrite chunk_code_at, Hb, !length_app. cbn [length]. lia.
Qed.

Lemma chunk_operand pre b rest post :
  numPushBytes b = length rest -> operand (pre ++ (b :: rest) ++ post) (length pre) = be_val rest.
Proof.
  intros Hb. unfold operand. rewrite chunk_code_at, Hb. f_equal. unfold push_bytes.
  change (b :: rest) with ([b] ++ rest). rewrite <- (app_assoc [b]), (app_assoc pre).
  rewrite (drop_app_length' (pre ++ [b])) by (rewrite length_app; cbn; lia).
  rewrite (take_ge (rest ++ post)) by (rewrite !length_app; cbn; lia). by rewrite <- app_assoc, take_app_length.
Qed.

(** ** Items as instructions *)

Section Items.
Context (subs : list (LinkerObject * list Z)) (a : Assembly) (t d : Z).

Abbreviation items := (m_items a).

(** The instruction of an item. *)
Definition item_inst (i : AssemblyItem) : Instruction :=
  match i with
  | Operation b => Instruction_of_byte b
  | PushString _ => PUSH 16
  | Push v => PUSH (Z.to_nat (Z.max 1 (dev_bytesRequired v)))
  | PushTag _ => PUSH (Z.to_nat t)
  | PushData _ | PushSub _ | PushProgramSize _ => PUSH (Z.to_nat d)
  | PushSubSize v => PUSH (Z.to_nat (Z.max 1 (dev_bytesRequired (sub_size subs v))))
  | PushLibraryAddress _ => PUSH 20
  | Tag _ => JUMPDEST
  | UndefinedItem _ => INVALID 0xfe
  end.

(** What it pushes: offsets and sizes are cut to the reserved width, an
    unlinked library has address zero. *)
Definition item_value (F : fills) (i : AssemblyItem) : Z :=
  match i with
  | PushString h => be_val (string_value a h)
  | Push v => v
  | PushTag v => f_tag F (splitForeignPushTag v)
  | PushData h => wrap (8 * d) (f_data F h)
  | PushSub v => wrap (8 * d) (f_sub F (wrap 64 v))
  | PushProgramSize _ => wrap (8 * d) (f_size F)
  | PushSubSize v => sub_size subs v
  | _ => 0
  end.

(** Reasonable widths, sizes and positions. *)
Record sizes_ok : Prop := {
  sz_t : 1 <= t <= 32;
  sz_d : 1 <= d <= 32;
  sz_subs : Forall (fun sub => zlen (bytecode sub.1) < 2 ^ 64 /\ Forall (inw 64) sub.2) subs
}.

Lemma push_compact_shape v : inw 256 v ->
  exists b rest, push_compact v = b :: rest /\ inw 8 b /\
    Instruction_of_byte b = PUSH (Z.to_nat (Z.max 1 (dev_bytesRequired v))) /\ numPushBytes b = length rest /\ be_val rest = v.
Proof.
  intros Hv. pose proof (dev_bytesRequired_bound v Hv). pose proof (dev_bytesRequired_fits v Hv) as Hf.
  set (n := Z.max 1 (dev_bytesRequired v)). destruct (push_byte_inst n) as (H1 & H2 & H3); [lia |].
  exists (push_byte n), (be_bytes (Z.to_nat n) v). rewrite length_be_bytes. split_and!; try done.
  rewrite be_val_be_bytes, Z2Nat.id by lia. apply Z.mod_small, (inw_mono (8 * dev_bytesRequired v)); [lia | done].
Qed.

Lemma push_ref_shape n v : 1 <= n <= 32 ->
  let bs := push_byte n :: be_bytes (Z.to_nat n) v in
  exists b rest, bs = b :: rest /\ inw 8 b /\ Instruction_of_byte b = PUSH (Z.to_nat n) /\
    numPushBytes b = length rest /\ be_val rest = wrap (8 * n) v.
Proof.
  intros Hn. destruct (push_byte_inst n) as (H1 & H2 & H3); [lia |].
  exists (push_byte n), (be_bytes (Z.to_nat n) v). rewrite length_be_bytes. split_and!; try done.
  by rewrite be_val_be_bytes, Z2Nat.id by lia.
Qed.

Lemma sub_size_bound v : sizes_ok -> inw 64 (sub_size subs v).
Proof.
  intros [_ _ Hs]. unfold sub_size. destruct (subs !! Z.to_nat (wrap 64 v)) as [sub |] eqn:E; cbn [default from_option id]; [| done].
  apply (Forall_lookup_1 _ _ _ _ Hs) in E as [E _]. split; [apply zlen_nonneg | done].
Qed.

Lemma non_push_inst b : inw 8 b -> ~ (Op.PUSH1 <= b <= Op.PUSH32) -> numPushBytes b = 0%nat.
Proof.
  intros _ Hn. rewrite numPushBytes_eq. unfold Op.PUSH1, Op.PUSH32 in Hn.
  destruct (Z.leb_spec 0x60 b), (Z.leb_spec b 0x7f); cbn [andb]; done || lia.
Qed.

Lemma item_shape F i :
  sizes_ok -> item_wf i -> (forall v, i <> UndefinedItem v) ->
  (forall st, tag_ref i = Some st -> inw (8 * t) (f_tag F st)) ->
  exists b rest, item_bytes subs a t d F i = b :: rest /\ inw 8 b /\ Instruction_of_byte b = item_inst i /\
    numPushBytes b = length rest /\ be_val rest = item_value F i.
Proof.
  intros Hs Hwf Hu Ht. pose proof (sz_t Hs). pose proof (sz_d Hs).
  destruct i; cbn [item_bytes item_inst item_value] in *; try by apply push_ref_shape.
  - by destruct (Hu data).
  - destruct Hwf as [Hb Hn]. exists i, []. by rewrite non_push_inst.
  - by apply push_compact_shape.
  - eexists _, _. split; [done |]. split; [done |]. split; [done |]. split; [| done].
    unfold string_value. rewrite length_take, length_app, length_replicate. change (numPushBytes Op.PUSH16) with 16%nat. lia.
  - destruct (push_ref_shape t (f_tag F (splitForeignPushTag data))) as (b & rest & H1 & H2 & H3 & H4 & H5); [done |].
    exists b, rest. split_and!; try done. rewrite H5. by apply wrap_small, Ht.
  - apply push_compact_shape. by apply (inw_mono 64), sub_size_bound.
  - by eexists _, [].
  - by eexists _, _.
Qed.
End Items.

(** ** Running *)

Section Run.
Context {H : Type} (X : Ctx H) (subs : list (LinkerObject * list Z)) (a : Assembly) (t d : Z).
Context (pos : list Z) (F : fills) (tail : list Z).

Abbreviation items := (m_items a).
Abbreviation code := (x_code X).
Abbreviation off := (fun k => Z.to_nat (offset subs a t d k)).

(** The item a jump lands on: a tag, or a JUMPDEST, at that offset. *)
Definition landing (v : Z) : option nat :=
  List.find (fun k => (offset subs a t d k =? v) && bool_decide (item_inst subs t d <$> items !! k = Some JUMPDEST))
    (seq 0 (length items)).

(** The items from the [k]th on.  A jump past the items is not described. *)
Fixpoint irun (fuel k : nat) (r : rstate H) : option (ending H) :=
  match fuel with
  | 0%nat => None
  | S fuel =>
      let '(inst, v) :=
        match items !! k with
        | Some i => (item_inst subs t d i, item_value subs a d F i)
        | None => (STOP, 0)
        end in
      if (length items <=? k)%nat && is_empty tail then Some (Halted Stop [] r)
      else
        match step X (off k) v inst r with
        | Undef => Some LeftOpen
        | Abort => Some Failed
        | Ok (Next, r) => irun fuel (S k) r
        | Ok (Halt c out, r) => Some (Halted c out r)
        | Ok (JumpTo v, r) =>
            match landing v with
            | Some k => irun fuel k r
            | None => if v <? total_size subs a t d items then Some Failed else None
            end
        end
  end.

Context (Hsz : sizes_ok subs t d) (Hwf : Forall item_wf items) (Hlen : total_size subs a t d items < 2 ^ 32).
Context (Has : assembled subs a t d code pos F tail).

Lemma offset_bounds k : 0 <= offset subs a t d k <= total_size subs a t d items.
Proof.
  unfold offset. split; [apply total_size_nonneg |]. rewrite <- (take_drop k items) at 2.
  rewrite <- !(length_layout subs a t d no_fills), layout_app, zlen_app. pose proof (zlen_nonneg (layout subs a t d no_fills (drop k items))). lia.
Qed.

Lemma tag_fits i st : i ∈ items -> tag_ref i = Some st -> inw (8 * t) (f_tag F st).
Proof.
  intros Hi Hr. destruct (as_tags _ _ _ _ _ _ _ _ Has i st Hi Hr) as (Hq & Hn & Hb). destruct Hsz as [Ht _ Hs].
  assert (inw 256 (f_tag F st)) as Hw.
  { unfold tag_position in Hq. destruct (st.1 =? npos).
    - destruct (as_pos _ _ _ _ _ _ _ _ Has _ _ Hq Hn) as (k & j & _ & -> & _).
      pose proof (offset_bounds k) as Ho. unfold offset in Ho. apply (inw_mono 32); [lia |]. unfold inw. lia.
    - destruct (subs !! Z.to_nat st.1) as [sub |] eqn:E; [| done]. cbn in Hq.
      apply (Forall_lookup_1 _ _ _ _ Hs) in E as [_ E]. apply (Forall_lookup_1 _ _ _ _ E) in Hq. by apply (inw_mono 64). }
  apply (inw_mono (8 * dev_bytesRequired (f_tag F st))); [| by apply dev_bytesRequired_fits].
  pose proof (dev_bytesRequired_bound _ Hw). lia.
Qed.

(** The code around item [k]. *)
Lemma code_chunk k i :
  items !! k = Some i ->
  exists pre b rest post, code = pre ++ (b :: rest) ++ post /\ length pre = off k /\ off (S k) = (off k + S (length rest))%nat /\
    inw 8 b /\ Instruction_of_byte b = item_inst subs t d i /\ numPushBytes b = length rest /\
    be_val rest = item_value subs a d F i.
Proof.
  intros Hk. destruct (item_shape subs a t d F i Hsz) as (b & rest & H1 & H2 & H3 & H4 & H5).
  - by apply (Forall_lookup_1 _ _ _ _ Hwf Hk).
  - by apply (Forall_lookup_1 _ _ _ _ (as_defined _ _ _ _ _ _ _ _ Has) Hk).
  - intros st. apply tag_fits. by apply list_elem_of_lookup_2 in Hk.
  - exists (layout subs a t d F (take k items)), b, rest, (layout subs a t d F (drop (S k) items) ++ tail).
    assert (forall l, zlen (layout subs a t d F l) = total_size subs a t d l) as Hl by apply length_layout.
    assert (offset subs a t d (S k) = offset subs a t d k + Z.of_nat (S (length rest))) as Ho.
    { unfold offset. rewrite (take_S_r _ _ _ Hk), <- !Hl, layout_app, zlen_app. unfold layout at 2. cbn [fmap list_fmap concat].
      rewrite H1, app_nil_r. done. }
    pose proof (offset_bounds k). split_and!; try done.
    + rewrite (as_code _ _ _ _ _ _ _ _ Has). rewrite <- (take_drop_middle items k i Hk) at 1.
      rewrite layout_app, layout_cons, H1, <- !app_assoc. done.
    + unfold offset. rewrite <- Hl. unfold zlen. lia.
    + rewrite Ho. lia.
Qed.

(** The machine at item [k] sees its instruction, its operand and the next item. *)
Lemma machine_at k i :
  items !! k = Some i ->
  (off k < length code)%nat /\ inst_at code (off k) = item_inst subs t d i /\ operand code (off k) = item_value subs a d F i /\
  nxt code (off k) = off (S k).
Proof.
  intros Hk. destruct (code_chunk k i Hk) as (pre & b & rest & post & Hc & Hp & Hn & _ & H1 & H2 & H3).
  rewrite Hc, <- Hp. unfold inst_at. rewrite chunk_code_at, chunk_nxt, chunk_operand by done.
  split_and!; try done; [rewrite !length_app; cbn [length]; lia | lia].
Qed.

Lemma off_0 : off 0%nat = 0%nat.
Proof. unfold offset. by rewrite take_0. Qed.

Lemma off_end k : (length items <= k)%nat -> offset subs a t d k = total_size subs a t d items.
Proof. intros Hk. unfold offset. by rewrite take_ge. Qed.

Lemma total_le_code : (Z.to_nat (total_size subs a t d items) + length tail = length code)%nat.
Proof.
  rewrite (as_code _ _ _ _ _ _ _ _ Has), length_app. rewrite <- (length_layout subs a t d F). unfold zlen. lia.
Qed.

Lemma reach_off k : (k <= length items)%nat -> reach code 0 (off k).
Proof.
  induction k as [| k IH]; intros Hk; [rewrite off_0; constructor |].
  destruct (lookup_lt_is_Some_2 items k) as [i Hi]; [lia |]. destruct (machine_at k i Hi) as (Hl & _ & _ & Hn).
  rewrite <- Hn. constructor; [apply IH; lia | done].
Qed.

(** Instructions before the end of the items start at items. *)
Lemma reach_inv j :
  reach code 0 j -> (j < Z.to_nat (total_size subs a t d items))%nat -> exists k, (k < length items)%nat /\ j = off k.
Proof.
  assert (reach code 0 j -> (exists k, (k <= length items)%nat /\ j = off k) \/ (Z.to_nat (total_size subs a t d items) <= j)%nat) as Hr.
  { induction 1 as [| j Hj IH Hl]; [left; exists 0%nat; rewrite off_0; split; [lia | done] |]. destruct IH as [(k & Hk & ->) | IH].
    - destruct (decide (k = length items)) as [-> | Hne].
      + right. pose proof (nxt_bounds code _ Hl). rewrite off_end in * by done. lia.
      + destruct (lookup_lt_is_Some_2 items k) as [i Hi]; [lia |]. destruct (machine_at k i Hi) as (_ & _ & _ & ->).
        left. exists (S k). split; [lia | done].
    - right. pose proof (nxt_bounds code _ Hl). lia. }
  intros Hj Ht. destruct (Hr Hj) as [(k & Hk & ->) | Hge]; [| lia]. exists k. split; [| done].
  destruct (decide (k = length items)) as [-> |]; [| lia]. rewrite off_end in Ht by done. lia.
Qed.

Lemma landing_Some v k :
  landing v = Some k -> valid_jump code v = true /\ Z.to_nat v = off k.
Proof.
  intros Hf. apply find_some in Hf as [Hin Hb]. apply in_seq in Hin. apply andb_true_iff in Hb as [Ho Hi].
  apply Z.eqb_eq in Ho. apply bool_decide_eq_true in Hi. destruct (items !! k) as [i |] eqn:Hk; [| done]. injection Hi as Hi.
  destruct (machine_at k i Hk) as (Hl & Hinst & _). rewrite <- Ho. split; [| done]. apply valid_jump_spec.
  pose proof (offset_bounds k). split_and!; [lia | done | by rewrite Hinst | apply reach_off; lia].
Qed.

Lemma landing_None v :
  landing v = None -> v < total_size subs a t d items -> valid_jump code v = false.
Proof.
  intros Hf Hv. apply not_true_is_false. intros Hj. apply valid_jump_spec in Hj as (H0 & Hl & Hi & Hr).
  apply reach_inv in Hr as (k & Hk & Hvk); [| lia]. destruct (lookup_lt_is_Some_2 items k Hk) as [i Hki].
  destruct (machine_at k i Hki) as (_ & Hinst & _). rewrite Hvk, Hinst in Hi.
  assert (In k (seq 0 (length items))) as Hin by (apply in_seq; lia). pose proof (offset_bounds k).
  pose proof (find_none _ _ Hf k Hin) as Hc. cbv beta in Hc. rewrite Hki in Hc. cbn [fmap option_fmap option_map] in Hc.
  rewrite Hi, bool_decide_eq_true_2, andb_true_r in Hc by done. apply Z.eqb_neq in Hc. lia.
Qed.

Lemma irun_interp fuel k r o : (k <= length items)%nat -> irun fuel k r = Some o -> interp X fuel (off k) r = Some o.
Proof.
  revert k r. induction fuel as [| fuel IH]; intros k r Hk Hr; [done |]. cbn [irun interp] in *. pose proof total_le_code as Hc.
  assert (forall v r', (match landing v with Some k => irun fuel k r' | None => if v <? total_size subs a t d items then Some Failed else None end
    = Some o) -> (if valid_jump code v then interp X fuel (Z.to_nat v) r' else Some Failed) = Some o) as Hjump.
  { intros v r' Hl. destruct (landing v) as [k' |] eqn:El.
    - pose proof (find_some _ _ El) as [Hin _]. apply in_seq in Hin. apply landing_Some in El as [-> ->]. apply IH; [lia | done].
    - destruct (Z.ltb_spec v (total_size subs a t d items)); [| done]. by rewrite landing_None. }
  destruct (Nat.leb_spec (length items) k) as [He | He]; cbn [andb] in Hr.
  - assert (k = length items) as -> by lia. rewrite off_end in * by done. rewrite lookup_ge_None_2 in Hr by done.
    destruct (as_tail _ _ _ _ _ _ _ _ Has) as [Ht | Ht].
    + rewrite Ht in *. cbn in Hr. cbn [length] in Hc. destruct (Nat.leb_spec (length code) (Z.to_nat (total_size subs a t d items))); [done | lia].
    + destruct tail as [| z tl] eqn:Et; [done |]. injection Ht as ->. cbn [is_empty length Nat.eqb] in Hr, Hc.
      destruct (Nat.leb_spec (length code) (Z.to_nat (total_size subs a t d items))); [lia |].
      assert (inst_at code (Z.to_nat (total_size subs a t d items)) = STOP) as Hs.
      { unfold inst_at. rewrite (as_code _ _ _ _ _ _ _ _ Has), <- (length_layout subs a t d F). unfold zlen. rewrite Nat2Z.id.
        by rewrite (chunk_code_at _ 0 [] tl). }
      rewrite Hs, (step_data X _ _ 0 STOP) by done. unfold step in *.
      unfold mbind, M_bind in *. destruct (charge _ r) as [[[] r1] | |]; [| done..]. exact Hr.
  - destruct (lookup_lt_is_Some_2 items k He) as [i Hi]. rewrite Hi in Hr. destruct (machine_at k i Hi) as (Hl & -> & -> & ->).
    destruct (Nat.leb_spec (length code) (off k)); [lia |].
    destruct (step X _ _ _ r) as [[[| v | c out] r'] | |]; try done; [apply IH; [lia | done] | by apply Hjump].
Qed.
End Run.

(** ** The sizes *)

Lemma foldl_wrap32 {A} (f : A -> Z) n (l : list A) : inw 32 n -> inw 32 (foldl (fun n x => wrap 32 (n + f x)) n l).
Proof. revert n. induction l as [| x l IH]; intros n Hn; [done |]. apply IH, wrap_inw. lia. Qed.

Lemma required_at_inw tagSize a n : required_at tagSize a = inr n -> inw 32 n.
Proof.
  unfold required_at. pose proof (foldl_wrap32 (fun p => zlen (snd p)) 1 (m_data a) ltac:(done)) as H0.
  cbv beta in H0. revert H0. generalize (foldl (fun n p => wrap 32 (n + zlen p.2)) 1 (m_data a)) as m.
  induction (m_items a) as [| i l IH]; intros m Hm H; cbn [foldR] in H; [by injection H as <- |].
  inv_res H. inv_res E. injection E as <-. refine (IH _ _ H). apply wrap_inw. lia.
Qed.

Lemma required_at_fuel tagSize a : required_at tagSize a <> inl ENoFuel.
Proof.
  unfold required_at. generalize (foldl (fun n p => wrap 32 (n + zlen p.2)) 1 (m_data a)) as m.
  induction (m_items a) as [| i l IH]; intros m; cbn [foldR]; [done |].
  destruct (AsmItem.bytesRequired tagSize i); [apply IH | done].
Qed.

Lemma required_loop_inw fuel tagSize a n : required_loop fuel tagSize a = inr n -> inw 32 n.
Proof.
  revert tagSize. induction fuel as [| fuel IH]; intros tagSize H; cbn [required_loop] in H; [done |]. inv_res H.
  destruct (dev_bytesRequired x <=? tagSize); [injection H as <-; by apply (required_at_inw tagSize a) | by apply IH in H].
Qed.

Lemma required_loop_fuel fuel tagSize a :
  inw 32 tagSize -> 4 < tagSize + Z.of_nat fuel -> (0 < fuel)%nat -> required_loop fuel tagSize a <> inl ENoFuel.
Proof.
  revert tagSize. induction fuel as [| fuel IH]; intros tagSize Ht Hf H0; [lia |]. cbn [required_loop].
  destruct (required_at tagSize a) as [e | n] eqn:E; [pose proof (required_at_fuel tagSize a) as Hn; by rewrite E in Hn |].
  rewrite res_bind_ok. apply required_at_inw in E. pose proof (dev_bytesRequired_le 4 n ltac:(lia) E).
  destruct (Z.leb_spec (dev_bytesRequired n) tagSize); [done |].
  rewrite wrap_small by (unfold inw in *; lia). apply IH; [unfold inw in *; lia | lia | lia].
Qed.

Lemma ref_sizes_bound subs a t d : ref_sizes subs a = inr (t, d) -> t <= 4 /\ d <= 4.
Proof.
  unfold ref_sizes, bytesRequired. intros H. inv_res H. injection H as <- <-. apply required_loop_inw in E.
  split; apply dev_bytesRequired_le; try lia; [done |]. apply foldl_wrap32, wrap_inw. lia.
Qed.

Lemma assemble_inv a o pos : assemble a = inr (o, pos) ->
  exists subs t d, mapR assemble (m_subs a) = inr subs /\ ref_sizes subs a = inr (t, d) /\ assemble_with subs a t d = inr (o, pos).
Proof.
  intros H. destruct a. cbn [assemble] in H. apply res_bind_inr in H as (subs & E1 & H).
  apply res_bind_inr in H as ([t d] & E2 & H). by exists subs, t, d.
Qed.

(** ** Jumps to tags *)

Section Tags.
Context {H : Type} (X : Ctx H) (subs : list (LinkerObject * list Z)) (a : Assembly) (t d : Z).
Context (pos : list Z) (F : fills) (tail : list Z).
Context (Hsz : sizes_ok subs t d) (Hwf : Forall item_wf (m_items a)) (Hlen : total_size subs a t d (m_items a) < 2 ^ 32).
Context (Has : assembled subs a t d (x_code X) pos F tail).

Lemma offset_S k i : m_items a !! k = Some i -> offset subs a t d k < offset subs a t d (S k).
Proof.
  intros Hk. destruct (code_chunk X subs a t d pos F tail Hsz Hwf Hlen Has k i Hk) as (? & ? & ? & ? & _ & _ & Ho & _).
  pose proof (offset_bounds subs a t d k). pose proof (offset_bounds subs a t d (S k)). lia.
Qed.

Lemma offset_mono k k' : (k < k')%nat -> (k' <= length (m_items a))%nat -> offset subs a t d k < offset subs a t d k'.
Proof.
  assert (forall j, (j < length (m_items a))%nat -> offset subs a t d j < offset subs a t d (S j)) as Hs.
  { intros j Hj. destruct (lookup_lt_is_Some_2 (m_items a) j Hj) as [i Hi]. by apply (offset_S j i). }
  induction 1 as [| k' Hlt IH]; intros Hle; [apply Hs; lia |]. specialize (Hs k'). lia.
Qed.

Lemma landing_at k i : m_items a !! k = Some i -> item_inst subs t d i = JUMPDEST ->
  landing subs a t d (offset subs a t d k) = Some k.
Proof.
  intros Hk Hi. pose proof (lookup_lt_Some _ _ _ Hk) as Hl.
  destruct (landing subs a t d (offset subs a t d k)) as [k' |] eqn:E; unfold landing in E.
  - apply find_some in E as [Hin Hb]. apply in_seq in Hin. apply andb_true_iff in Hb as [Ho _]. apply Z.eqb_eq in Ho. f_equal.
    pose proof (offset_mono k k'). pose proof (offset_mono k' k). lia.
  - apply (find_none _ _) with (x := k) in E; [| apply in_seq; lia]. rewrite Z.eqb_refl, Hk in E.
    cbn [fmap option_fmap option_map] in E. by rewrite Hi, bool_decide_eq_true_2 in E.
Qed.

Lemma landing_not k i : m_items a !! k = Some i -> item_inst subs t d i <> JUMPDEST ->
  landing subs a t d (offset subs a t d k) = None.
Proof.
  intros Hk Hi. pose proof (lookup_lt_Some _ _ _ Hk) as Hl.
  destruct (landing subs a t d (offset subs a t d k)) as [k' |] eqn:E; [| done].
  apply find_some in E as [Hin Hb]. apply in_seq in Hin. apply andb_true_iff in Hb as [Ho Hd]. apply Z.eqb_eq in Ho.
  assert (k' = k) as -> by (pose proof (offset_mono k k'); pose proof (offset_mono k' k); lia).
  rewrite Hk in Hd. apply bool_decide_eq_true in Hd. injection Hd as Hd. done.
Qed.

Lemma own_tag v : inw 64 v -> splitForeignPushTag v = (npos, v).
Proof. intros Hv. unfold splitForeignPushTag. rewrite Z.div_small, (wrap_small 64 v) by done. done. Qed.

(** What a push of a tag of the assembly's own pushes. *)
Lemma own_tag_position v :
  inw 64 v -> PushTag v ∈ m_items a ->
  exists k i, m_items a !! k = Some i /\ item_value subs a d F (PushTag v) = offset subs a t d k /\
    match i with Tag w => 0 < v /\ w = v | _ => v = 0 end.
Proof.
  intros Hv Hin. destruct (as_tags _ _ _ _ _ _ _ _ Has _ _ Hin eq_refl) as (Hq & Hn & _).
  cbn [item_value]. rewrite own_tag in * by done. unfold tag_position in Hq. cbn [fst snd] in Hq. rewrite Z.eqb_refl in Hq.
  destruct (as_pos _ _ _ _ _ _ _ _ Has _ _ Hq Hn) as (k & i & Hk & Hp & Hi). exists k, i. split_and!; [done | done |].
  unfold inw in Hv. destruct i; lia.
Qed.
End Tags.

(** ** The theorems *)

(** An assembly whose sub-assemblies assembled to [subs] and whose references
    take [t] and [d] bytes: everything has a reasonable size. *)
Record assembles (a : Assembly) (subs : list (LinkerObject * list Z)) (t d : Z) (o : LinkerObject) (pos : list Z) : Prop := {
  asm_subs : mapR assemble (m_subs a) = inr subs;
  asm_sizes : ref_sizes subs a = inr (t, d);
  asm_ok : assemble a = inr (o, pos);
  asm_wf : assembly_wf a;
  asm_pos : 0 < t /\ 0 < d;
  asm_small : Forall (fun sub => zlen (bytecode sub.1) < 2 ^ 64 /\ Forall (inw 64) sub.2) subs;
  asm_size : total_size subs a t d (m_items a) < 2 ^ 32
}.

Lemma assembles_assembled a subs t d o pos :
  assembles a subs t d o pos -> sizes_ok subs t d /\ exists F tail, assembled subs a t d (bytecode o) pos F tail.
Proof.
  intros [H1 H2 H3 H4 H5 H6 H7]. pose proof (ref_sizes_bound _ _ _ _ H2). split; [split; [lia | lia | done] |].
  apply assemble_inv in H3 as (subs' & t' & d' & E1 & E2 & E3). rewrite H1 in E1. injection E1 as <-.
  rewrite H2 in E2. injection E2 as <- <-. by apply (assemble_with_spec subs a t d).
Qed.

(** [assemble] lays an assembly out as its items say: the byte code is the
    items' bytes, in order, and then nothing or a STOP with the referenced
    sub-assemblies, the referenced data and the auxiliary data; references hold
    the positions of their tags, the offsets of sub-assemblies and data, and
    the size of the program (offsets and size cut to the width reserved). *)
Theorem assemble_layout a subs t d o pos :
  assembles a subs t d o pos -> exists F tail, assembled subs a t d (bytecode o) pos F tail.
Proof. intros Ha. apply (assembles_assembled a subs t d o pos Ha). Qed.

(** C6: Running assembled code is running its items: the virtual machine finds
    the items' instructions, operands and jump destinations in the byte code. *)
Theorem assembled_run {H} (X : Ctx H) a subs t d o pos :
  assembles a subs t d o pos -> x_code X = bytecode o ->
  exists F tail, assembled subs a t d (bytecode o) pos F tail /\
    forall fuel r e, irun X subs a t d F tail fuel 0 r = Some e -> interp X fuel 0 r = Some e.
Proof.
  intros Ha Hx. destruct (assembles_assembled _ _ _ _ _ _ Ha) as [Hs (F & tail & HF)]. exists F, tail. split; [done |].
  intros fuel r e Hr. rewrite <- Hx in HF.
  pose proof (irun_interp X subs a t d pos F tail Hs (wf_items a (asm_wf _ _ _ _ _ _ Ha)) (asm_size _ _ _ _ _ _ Ha) HF fuel 0 r e) as Hi.
  cbv beta in Hi. rewrite off_0 in Hi. apply Hi; [lia | done].
Qed.

(** Jumping to a pushed tag of the assembly goes to that tag, in the byte
    code as in the items; jumping to tag 0, the error tag, fails. *)
Theorem tag_jump {H} (X : Ctx H) a subs t d o pos v :
  assembles a subs t d o pos -> x_code X = bytecode o -> inw 64 v -> PushTag v ∈ m_items a ->
  ~ Operation Op.JUMPDEST ∈ m_items a ->
  exists F tail, assembled subs a t d (bytecode o) pos F tail /\
    let dest := item_value subs a d F (PushTag v) in
    if v =? 0 then valid_jump (x_code X) dest = false
    else valid_jump (x_code X) dest = true /\
      exists k, m_items a !! k = Some (Tag v) /\ landing subs a t d dest = Some k.
Proof.
  intros Ha Hx Hv Hin Hno. destruct (assembles_assembled _ _ _ _ _ _ Ha) as [Hs (F & tail & HF)]. exists F, tail. split; [done |].
  rewrite <- Hx in HF. pose proof (wf_items a (asm_wf _ _ _ _ _ _ Ha)) as Hwf. pose proof (asm_size _ _ _ _ _ _ Ha) as Hsz.
  destruct (own_tag_position X subs a t d pos F tail HF v Hv Hin) as (k & i & Hk & Hval & Hi). cbv zeta. rewrite Hval.
  destruct (decide (item_inst subs t d i = JUMPDEST)) as [Hj | Hj].
  - assert (i = Tag v /\ v <> 0) as [-> Hv0].
    { destruct i; cbn [item_inst] in Hj; try discriminate Hj; [| destruct Hi as [Hi ->]; split; [done | lia]].
      destruct Hno. apply list_elem_of_lookup_2 with k. rewrite Hk. do 2 f_equal.
      destruct (Forall_lookup_1 _ _ _ _ Hwf Hk) as [Hb _]. by rewrite <- (byte_of_Instruction_of_byte i Hb), Hj. }
    apply Z.eqb_neq in Hv0 as ->. pose proof (landing_at X subs a t d pos F tail Hs Hwf Hsz HF k _ Hk Hj) as Hl.
    split; [| by exists k]. by apply (landing_Some X subs a t d pos F tail Hs Hwf Hsz HF _ k).
  - assert (v = 0) as ->. { destruct i; try done. }
    cbn [Z.eqb]. apply (landing_None X subs a t d pos F tail Hs Hwf Hsz HF).
    + by apply (landing_not X subs a t d pos F tail Hs Hwf Hsz HF k i).
    + pose proof (offset_mono X subs a t d pos F tail Hs Hwf Hsz HF k (length (m_items a))) as Hm.
      rewrite (off_end subs a t d (length (m_items a))) in Hm by done. apply Hm; [by apply lookup_lt_Some in Hk | done].
Qed.

(** ** An example *)

(** A jump over data: a sub-assembly, a data section and auxiliary data. *)
Definition demo_sub : Assembly := mkAssembly 1 [Push 1; Operation Op.POP] [] [] [] [] [] 0.
Definition demo : Assembly :=
  mkAssembly 3 [PushTag 1; Operation Op.JUMP; PushTag 0; Operation Op.JUMP; Tag 1; Push 0x1234; PushData 9; PushSub 0; PushSubSize 0;
    PushProgramSize 0; Operation Op.STOP] [(9, [1; 2; 3])] [0xaa] [demo_sub] [] [] 0.

Definition demo_subs : list (LinkerObject * list Z) := [(mkObject [0x60; 1; 0x50] [], [0])].
Definition demo_code : list Z :=
  [0x60; 6; 0x56; 0x60; 0; 0x56; 0x5b; 0x61; 0x12; 0x34; 0x60; 23; 0x60; 20; 0x60; 3; 0x60; 27; 0; 0; 0x60; 1; 0x50; 1; 2; 3; 0xaa].
Definition demo_pos : list Z := [0; 6; npos].

Lemma demo_assembles : assembles demo demo_subs 1 1 (mkObject demo_code []) demo_pos.
Proof.
  split.
  - vm_compute. reflexivity.
  - vm_compute. reflexivity.
  - vm_compute. reflexivity.
  - split; [| apply (bool_decide_unpack _); vm_compute; exact I].
    apply Forall_forall. intros i Hi. cbn in Hi. unfold Op.JUMP, Op.STOP in Hi.
    destruct_or! Hi; subst i; cbn [item_wf]; unfold inw, Op.PUSH1, Op.PUSH32; lia.
  - lia.
  - constructor; [| constructor]. split; [reflexivity |]. constructor; [done | constructor].
  - vm_compute. reflexivity.
Qed.

Lemma assemble_layout_witness : exists F tail, assembled demo_subs demo 1 1 demo_code demo_pos F tail.
Proof. exact (assemble_layout demo demo_subs 1 1 (mkObject demo_code []) demo_pos demo_assembles). Defined.

Lemma assembled_run_witness :
  exists F tail, assembled demo_subs demo 1 1 demo_code demo_pos F tail /\
    forall fuel r e, irun (null_ctx 100 demo_code) demo_subs demo 1 1 F tail fuel 0 r = Some e ->
      interp (null_ctx 100 demo_code) fuel 0 r = Some e.
Proof. exact (assembled_run (null_ctx 100 demo_code) demo demo_subs 1 1 (mkObject demo_code []) demo_pos demo_assembles eq_refl). Defined.

Lemma tag_jump_witness :
  exists F tail, assembled demo_subs demo 1 1 demo_code demo_pos F tail /\
    (valid_jump demo_code (item_value demo_subs demo 1 F (PushTag 1)) = true /\
     exists k, m_items demo !! k = Some (Tag 1) /\ landing demo_subs demo 1 1 (item_value demo_subs demo 1 F (PushTag 1)) = Some k).
Proof.
  apply (tag_jump (null_ctx 100 demo_code) demo demo_subs 1 1 (mkObject demo_code []) demo_pos 1 demo_assembles eq_refl);
    apply (bool_decide_unpack _); vm_compute; exact I.
Defined.

Definition demo_fills : fills := mkFills (fun st => if st.2 =? 1 then 6 else 0) (fun _ => 23) (fun _ => 20) 27.

(** The items and the byte code of the example stop with the same stack. *)
Example demo_run :
  let r := mkR [] 100 [] [] () in
  let e := Some (Halted Stop [] (mkR [27; 3; 20; 23; 0x1234] 92 [] [] ())) in
  irun (null_ctx 100 demo_code) demo_subs demo 1 1 demo_fills [0] 20 0 r = e /\ interp (null_ctx 100 demo_code) 20 0 r = e.
Proof. vm_compute. split; reflexivity. Qed.

(** ** Reference widths *)

(** Data references are counted with the width of a tag but take the width of
    an offset into everything. *)
Definition crowded : Assembly :=
  mkAssembly 1 (replicate 100 (PushSub 0) ++ [PushProgramSize 0]) [] (replicate (Z.to_nat 65326) 0) [demo_sub] [] [] 0.

(** The width of offsets is computed from an estimate of the code that
    counts every data reference with the width of a tag.  Where offsets are
    wider than tags the estimate is too low, and nothing checks that they fit:
    an assembly of 65633 bytes pushes 97 as its size. *)
Theorem program_size_cut :
  match assemble crowded with
  | inr (o, _) => zlen (bytecode o) = 65633 /\ take 3 (drop 300 (bytecode o)) = 0x61 :: be_bytes 2 97
  | inl _ => False
  end.
Proof. vm_compute. split; reflexivity. Qed.

(** A tag of a sub-assembly that is never placed. *)
Definition unplaced_sub : Assembly := mkAssembly 2 [Push 1; Operation Op.POP] [] [] [] [] [] 0.
Definition many_tags (subs : list Assembly) : Assembly :=
  mkAssembly 2 (concat (replicate 130 [PushTag 1; Operation Op.POP]) ++ [Tag 1]) [] [] subs [] [] 0.

(** The loop over tag sizes starts from the largest tag position in a
    sub-assembly, not from the bytes it takes, and a tag without position counts
    as the largest number: tags are then counted with zero bytes, and an
    assembly that assembles without the sub-assembly is rejected with it. *)
Theorem unplaced_sub_tag :
  assemble (many_tags [unplaced_sub]) = inl EAssembly /\ is_Some (match assemble (many_tags []) with inr o => Some o | inl _ => None end).
Proof. split; [vm_compute; reflexivity |]. vm_compute. by eexists. Qed.
