(* ===== verification/Peephole.v ===== *)
(** * The peephole optimiser

    libevmasm/PeepholeOptimiser.cpp: the rules over windows of one to three
    items, the pass over an assembly's items, and [optimise], which keeps the
    result when it is shorter; the loop of Assembly::optimiseInternal repeats it.
    What it preserves is stated for runs of the items on the reference machine,
    which pay for every item; tags and data have one and the same value before
    and after. *)
From stdpp Require Import strings.
From S2P Require Import Prelude Bytes Instruction BasicBlocks LLVMInt EvmAbi GasSchedule Keccak Runtime IR.
From S2P Require Import Machine NullHost Frames Charge Interp AsmItem AsmTable Assembly AsmLayout AsmRun.
Open Scope list_scope.
Open Scope Z_scope.

(** ** The rules *)

(** A rule takes a window off the front of the items: what it writes and what
    is left. *)
Definition rule : Type := list AssemblyItem -> option (list AssemblyItem * list AssemblyItem).

Definition is_op (b : Z) (i : AssemblyItem) : bool := bool_decide (i = Operation b).
Definition is_tag (i : AssemblyItem) : bool := match i with Tag _ => true | _ => false end.

Definition Identity : rule := fun l => match l with i :: rest => Some ([i], rest) | _ => None end.

Definition pushes (i : AssemblyItem) : bool :=
  match i with
  | Push _ | PushString _ | PushTag _ | PushSub _ | PushSubSize _ | PushProgramSize _ | PushData _ | PushLibraryAddress _ => true
  | _ => false
  end.

Definition PushPop : rule := fun l =>
  match l with
  | push :: pop :: rest => if is_op Op.POP pop && (isDupInstruction push || pushes push) then Some ([], rest) else None
  | _ => None
  end.

Definition OpPop : rule := fun l =>
  match l with
  | Operation b :: pop :: rest =>
      if is_op Op.POP pop && (ret (instructionInfo b) =? 1)%nat && negb (sideEffects (instructionInfo b))
      then Some (replicate (args (instructionInfo b)) (Operation Op.POP), rest) else None
  | _ => None
  end.

Definition DoubleSwap : rule := fun l =>
  match l with
  | s1 :: s2 :: rest => if bool_decide (s1 = s2) && isSwapInstruction s1 then Some ([], rest) else None
  | _ => None
  end.

Definition DoublePush : rule := fun l =>
  match l with
  | Push v1 :: Push v2 :: rest => if v1 =? v2 then Some ([Push v1; Operation Op.DUP1], rest) else None
  | _ => None
  end.

Definition JumpToNext : rule := fun l =>
  match l with
  | PushTag v :: jump :: Tag w :: rest =>
      if (is_op Op.JUMP jump || is_op Op.JUMPI jump) && (v =? w)
      then Some ((if is_op Op.JUMPI jump then [Operation Op.POP] else []) ++ [Tag w], rest) else None
  | _ => None
  end.

Definition TagConjunctions : rule := fun l =>
  match l with
  | PushTag v :: Push c :: and_ :: rest =>
      if is_op Op.AND and_ && (Z.land c 0xFFFFFFFF =? 0xFFFFFFFF) then Some ([PushTag v], rest) else None
  | _ => None
  end.

(** The items up to the next tag. *)
Fixpoint skip_dead (l : list AssemblyItem) : list AssemblyItem :=
  match l with [] => [] | i :: l' => if is_tag i then l else skip_dead l' end.

Definition ends_flow (i : AssemblyItem) : bool :=
  is_op Op.JUMP i || is_op Op.RETURN i || is_op Op.STOP i || is_op Op.INVALID i || is_op Op.SELFDESTRUCT i || is_op Op.REVERT i.

Definition UnreachableCode : rule := fun l =>
  match l with
  | i :: rest =>
      if ends_flow i && negb (length (skip_dead rest) =? length rest)%nat then Some ([i], skip_dead rest) else None
  | _ => None
  end.

(** [applyMethods]: the first rule that applies. *)
Definition methods : list rule :=
  [PushPop; OpPop; DoublePush; DoubleSwap; JumpToNext; UnreachableCode; TagConjunctions; Identity].

Fixpoint applyMethods (ms : list rule) (l : list AssemblyItem) : option (list AssemblyItem * list AssemblyItem) :=
  match ms with [] => None | m :: ms => match m l with Some o => Some o | None => applyMethods ms l end end.

(** The pass over the items. *)
Fixpoint pass (fuel : nat) (l : list AssemblyItem) : list AssemblyItem :=
  match fuel with
  | 0%nat => []
  | S fuel =>
      match l with
      | [] => []
      | _ => match applyMethods methods l with Some (out, rest) => out ++ pass fuel rest | None => [] end
      end
  end.
Definition optimised (l : list AssemblyItem) : list AssemblyItem := pass (length l) l.

(** [eth::bytesRequired] of items; [None] is an exception. *)
Fixpoint items_bytesRequired (l : list AssemblyItem) (addressLength : Z) : option Z :=
  match l with
  | [] => Some 0
  | i :: l => n ← AsmItem.bytesRequired addressLength i; m ← items_bytesRequired l addressLength; Some (n + m)
  end.

(** [PeepholeOptimiser::optimise]: the new items, when they are better. *)
Definition optimise (l : list AssemblyItem) : option (option (list AssemblyItem)) :=
  let l' := optimised l in
  if (length l' <? length l)%nat then Some (Some l')
  else if (length l' =? length l)%nat then
    n' ← items_bytesRequired l' 3; n ← items_bytesRequired l 3;
    Some (if n' <? n then Some l' else None)
  else Some None.

(** [while (peepOpt.optimise()) count++;] *)
Fixpoint optimise_loop (fuel : nat) (l : list AssemblyItem) : option (list AssemblyItem) :=
  match fuel with
  | 0%nat => None
  | S fuel => o ← optimise l; match o with Some l' => optimise_loop fuel l' | None => Some l end
  end.

(** ** What items mean *)

Section Meaning.
(** The value an item pushes. *)
Context {H : Type} (X : Ctx H) (V : AssemblyItem -> Z).

(** The instruction of an item, where only the number of words pushed matters. *)
Definition sym_inst (i : AssemblyItem) : Instruction :=
  match i with
  | Operation b => Instruction_of_byte b
  | Push v => PUSH (Z.to_nat (Z.max 1 (dev_bytesRequired v)))
  | PushString _ => PUSH 16
  | PushTag _ | PushData _ | PushSub _ | PushSubSize _ | PushProgramSize _ => PUSH 4
  | PushLibraryAddress _ => PUSH 20
  | Tag _ => JUMPDEST
  | UndefinedItem _ => INVALID 0xfe
  end.

(** An item that looks neither at the gas nor at its position. *)
Definition unaware (i : AssemblyItem) : Prop := commits (sym_inst i) = false /\ sym_inst i <> PC.

(** The step of the machine; the position only matters to PC. *)
Definition exec_item (i : AssemblyItem) : @M H ctl := step X 0 (V i) (sym_inst i).

Lemma exec_anywhere i pc : unaware i -> exec_item i = step X pc (V i) (sym_inst i).
Proof. intros [_ Hi]. unfold exec_item, step. by destruct (sym_inst i). Qed.

(** From the tag with a given address on. *)
Fixpoint find_tag (w : Z) (l : list AssemblyItem) : option (list AssemblyItem) :=
  match l with
  | [] => None
  | Tag v :: l' => if V (PushTag v) =? w then Some l else find_tag w l'
  | _ :: l' => find_tag w l'
  end.

(** A run that halts: how, its output and the state. *)
Fixpoint prun (fuel : nat) (prog cur : list AssemblyItem) (r : rstate H) : option (ReturnCode * list Z * rstate H) :=
  match fuel with
  | 0%nat => None
  | S fuel =>
      match cur with
      | [] => Some (Stop, [], r)
      | i :: rest =>
          match exec_item i r with
          | Ok (Next, r) => prun fuel prog rest r
          | Ok (JumpTo w, r) => match find_tag w prog with Some l => prun fuel prog l r | None => None end
          | Ok (Halt c out, r) => Some (c, out, r)
          | _ => None
          end
      end
  end.

(** ** Gas *)

Definition more (k : Z) (r : rstate H) : rstate H := mkR (r_stack r) (r_gas r + k) (r_mem r) (r_retbuf r) (r_host r).
Abbreviation cost i := (getStepCost (x_rev X) (sym_inst i)).

Lemma more_more k k' r : more k (more k' r) = more (k + k') r.
Proof. unfold more. cbn. f_equal. lia. Qed.
Lemma more_0 r : more 0 r = r.
Proof. destruct r. unfold more. cbn. f_equal. lia. Qed.

Lemma exec_body i r c r' : exec_item i r = Ok (c, r') ->
  0 <= cost i <= r_gas r /\ step_body X 0 (V i) (sym_inst i) (more (- cost i) r) = Ok (c, r').
Proof.
  unfold exec_item, step, charge, gets, set_rgas. unfold mbind, M_bind. destruct (Z.leb_spec 0 (cost i)); [| done].
  destruct (Z.leb_spec (cost i) (r_gas r)); [| done]. cbn [andb]. destruct (allowed X (sym_inst i)); [| done].
  intros E. split; [lia |]. rewrite <- E. reflexivity.
Qed.
Lemma exec_gas i r c r' : unaware i -> exec_item i r = Ok (c, r') -> 0 <= r_gas r' <= r_gas r - cost i.
Proof.
  intros [Hi _] [Hc E]%exec_body. pose proof (shiftable_body X 0 (V i) _ Hi (more (- cost i) r) 0 ltac:(cbn; lia)) as Hs.
  rewrite E in Hs. cbn in Hs. lia.
Qed.

(** With more gas an item does the same, and the gas is left over. *)
Lemma exec_more i r c r' k : unaware i -> 0 <= k -> exec_item i r = Ok (c, r') -> exec_item i (more k r) = Ok (c, more k r').
Proof.
  intros [Hi _] Hk E. pose proof (exec_body i r c r' E) as [Hc _].
  assert (shiftable (exec_item i)) as Hs.
  { apply shiftable_bind; [apply shiftable_charge | intros _]. destruct (allowed X _); [by apply shiftable_body | apply shiftable_abort]. }
  specialize (Hs (more k r) k ltac:(cbn; lia)).
  assert (less k (more k r) = r) as Hr by (destruct r; unfold less, more; cbn; f_equal; lia). rewrite Hr, E in Hs.
  destruct (exec_item i (more k r)) as [[c' r1] | |]; [| done | by destruct Hs]. destruct Hs as [_ Hs].
  destruct (_ <=? _); [| done]. injection Hs as -> ->. f_equal. f_equal. destruct r1. unfold less, more. cbn. f_equal. lia.
Qed.

Lemma find_tag_Forall (P : AssemblyItem -> Prop) w l l' : Forall P l -> find_tag w l = Some l' -> Forall P l'.
Proof.
  induction 1 as [| i l Hi Hl IH]; [done |]. cbn [find_tag]. destruct i; try exact IH. destruct (_ =? w); [| exact IH].
  intros [= <-]. by constructor.
Qed.

Lemma prun_more fuel prog cur r c out s k :
  Forall unaware prog -> Forall unaware cur -> 0 <= k ->
  prun fuel prog cur r = Some (c, out, s) -> prun fuel prog cur (more k r) = Some (c, out, more k s).
Proof.
  intros Hp Hcur Hk. revert cur r Hcur. induction fuel as [| fuel IH]; intros cur r Hcur He; [done |]. cbn [prun] in *.
  destruct cur as [| i rest]; [by injection He as <- <- <- |]. apply Forall_cons_1 in Hcur as [Hi Hrest].
  destruct (exec_item i r) as [[cc r1] | |] eqn:E; [| done..]. rewrite (exec_more i r cc r1 k) by done.
  destruct cc as [| w | c' out']; [by apply IH | | by injection He as <- <- <-].
  destruct (find_tag w prog) as [l |] eqn:Ef; [| done]. apply IH; [by apply (find_tag_Forall unaware w prog) | done].
Qed.

(** ** Straight lines *)

(** [l] runs straight from [r] to [r']. *)
Fixpoint straight (l : list AssemblyItem) (r r' : rstate H) : Prop :=
  match l with [] => r' = r | i :: l => exists r1, exec_item i r = Ok (Next, r1) /\ straight l r1 r' end.

Lemma straight_more l r r' k : Forall unaware l -> 0 <= k -> straight l r r' -> straight l (more k r) (more k r').
Proof.
  intros Hl Hk. revert r. induction Hl as [| i l Hi Hl IH]; intros r; cbn [straight]; [by intros -> |].
  intros (r1 & E & Hs). exists (more k r1). split; [by apply exec_more | by apply IH].
Qed.

Lemma straight_prun l rest prog r r' n e :
  straight l r r' -> prun n prog rest r' = Some e -> exists n', prun n' prog (l ++ rest) r = Some e.
Proof.
  revert r. induction l as [| i l IH]; intros r Hs He; cbn [straight app] in *; [subst r'; by exists n |].
  destruct Hs as (r1 & Hi & Hs). destruct (IH r1 Hs He) as [n' Hn]. exists (S n'). cbn [prun]. by rewrite Hi.
Qed.

(** Items that never jump or halt run straight whenever the run halts. *)
Definition plain (i : AssemblyItem) : Prop := forall r c r', exec_item i r = Ok (c, r') -> c = Next.

Lemma plain_prun l rest prog r n e :
  Forall plain l -> prun n prog (l ++ rest) r = Some e ->
  exists r' m, straight l r r' /\ (m + length l = n)%nat /\ prun m prog rest r' = Some e.
Proof.
  intros Hp. revert r n. induction l as [| i l IH]; intros r n He; cbn [straight app length] in *.
  - exists r, n. split_and!; [done | lia | done].
  - apply Forall_cons_1 in Hp as [Hi Hp]. destruct n as [| n]; [done |]. cbn [prun] in He.
    destruct (exec_item i r) as [[c r1] | |] eqn:E; [| done..]. pose proof (Hi _ _ _ E) as ->.
    destruct (IH Hp r1 n He) as (r' & m & Hs & Hm & Hr). exists r', m. split_and!; [by exists r1 | lia | done].
Qed.
End Meaning.

(** ** The rules on windows *)

(** An item that pushes one word at most. *)
Definition narrow (i : AssemblyItem) : Prop :=
  match i with Push v => inw 128 v | PushLibraryAddress _ => False | _ => True end.

(** ADDMOD and MULMOD take three words and can be as cheap as one POP. *)
Definition frugal (i : AssemblyItem) : Prop := i <> Operation Op.ADDMOD /\ i <> Operation Op.MULMOD.

Section Windows.
Context {H : Type} (X : Ctx H) (V : AssemblyItem -> Z).
Context (HV : forall v, V (Push v) = v) (HT : forall v, inw 32 (V (PushTag v))).

Abbreviation exec := (exec_item X V).
Abbreviation cost := (getStepCost (x_rev X)).
Abbreviation at_stack r st k := (mkR st (r_gas r - k) (r_mem r) (r_retbuf r) (r_host r)).

(** The costs that matter. *)
Lemma costs :
  1 <= cost POP /\ cost (DUP 1) = cost (PUSH 0) /\ 0 <= cost AND /\ 0 <= cost JUMP /\ cost POP <= cost (PUSH 0) /\ 0 <= cost JUMPI.
Proof. unfold getStepCost. destruct (rev_ge _ _); cbn; lia. Qed.
Lemma cost_push n : cost (PUSH n) = cost (PUSH 0).
Proof. done. Qed.
#[local] Opaque getStepCost.

Lemma sym_inst_push i : narrow i -> pushes i = true -> exists n, sym_inst i = PUSH n /\ (n <=? 16)%nat = true.
Proof.
  destruct i; cbn [sym_inst pushes narrow]; intros Hn Hp; try done; eexists; (split; [reflexivity |]); try done.
  apply Nat.leb_le. pose proof (dev_bytesRequired_le 16 data ltac:(lia) Hn). lia.
Qed.

Lemma step_charged pc data inst (r : rstate H) : 0 <= cost inst ->
  step X pc data inst r = if cost inst <=? r_gas r then (if allowed X inst then step_body X pc data inst (at_stack r (r_stack r) (cost inst)) else Abort) else Abort.
Proof.
  intros Hc. unfold step, charge, gets, set_rgas. unfold mbind, M_bind. rewrite (proj2 (Z.leb_le 0 _)) by done. cbn [andb].
  destruct (_ <=? _); [| done]. by destruct (allowed X inst).
Qed.

Lemma exec_push i r :
  narrow i -> pushes i = true ->
  exec i r = if cost (PUSH 0) <=? r_gas r
             then if (length (r_stack r) <? 1024)%nat then Ok (Next, at_stack r (V i :: r_stack r) (cost (PUSH 0))) else Abort
             else Abort.
Proof.
  intros Hn Hp. destruct (sym_inst_push i Hn Hp) as (n & Hi & Hle). unfold exec_item. rewrite Hi. pose proof costs.
  rewrite step_charged by (rewrite cost_push; lia). rewrite (cost_push n). destruct (_ <=? r_gas r); [| done]. cbn [allowed step_body]. rewrite Hle.
  unfold rpush, gets, set_rstack. unfold mbind, M_bind. cbn [r_stack]. by destruct (length (r_stack r) <? 1024)%nat.
Qed.

Lemma exec_pop r : exec (Operation Op.POP) r =
  if cost POP <=? r_gas r then match r_stack r with [] => Abort | _ :: st => Ok (Next, at_stack r st (cost POP)) end else Abort.
Proof.
  unfold exec_item. change (sym_inst (Operation Op.POP)) with POP. pose proof costs. rewrite step_charged by lia.
  destruct (_ <=? _); [| done]. by destruct r as [[| z st] g m b h].
Qed.

(** Popping items off. *)
Lemma straight_pops ins rest (r : rstate H) :
  r_stack r = ins ++ rest -> Z.of_nat (length ins) * cost POP <= r_gas r ->
  straight X V (replicate (length ins) (Operation Op.POP)) r (at_stack r rest (Z.of_nat (length ins) * cost POP)).
Proof.
  revert r. pose proof costs as Hc. induction ins as [| z ins IH]; intros r Hr Hg; cbn [length replicate straight].
  - destruct r. cbn in *. subst. f_equal. lia.
  - cbn [length] in Hg. rewrite Nat2Z.inj_succ, Z.mul_succ_l in *. exists (at_stack r (ins ++ rest) (cost POP)).
    rewrite exec_pop, Hr. rewrite (proj2 (Z.leb_le _ _)) by nia.
    split; [done |]. specialize (IH (at_stack r (ins ++ rest) (cost POP)) eq_refl ltac:(cbn [r_gas]; lia)). cbn [r_gas r_mem r_retbuf r_host] in IH.
    replace (r_gas r - (Z.of_nat (length ins) * cost POP + cost POP)) with (r_gas r - cost POP - Z.of_nat (length ins) * cost POP) by lia. exact IH.
Qed.

Lemma plain_push i : narrow i -> pushes i = true -> plain X V i.
Proof. intros Hn Hp r c r'. rewrite exec_push by done. destruct (_ <=? _); [| done]. destruct (_ <? _)%nat; [by intros [= <- <-] | done]. Qed.

Lemma plain_pop : plain X V (Operation Op.POP).
Proof. intros r c r'. rewrite exec_pop. destruct (_ <=? _); [| done]. destruct (r_stack r); [done | by intros [= <- <-]]. Qed.

Lemma plain_pure i : inst_pure (sym_inst i) = true -> plain X V i.
Proof. intros Hp r c r' Hr. apply exec_body in Hr as [_ Hr]. by apply (silent_step_body X 0 (V i) _ Hp) in Hr as [-> _]. Qed.

Lemma is_op_eq b i : is_op b i = true -> i = Operation b.
Proof. apply bool_decide_eq_true. Qed.

(** A rule on a window of items that run straight: what it writes does the same,
    perhaps with [k] more gas, and leaves at least as much gas. *)
Definition local_ok (w out : list AssemblyItem) : Prop :=
  Forall (plain X V) w /\ forall r r', straight X V w r r' ->
    exists k d, (0 <= k /\ (Forall frugal w -> k = 0)) /\ 0 <= d /\ straight X V out (more k r) (more d r').

Lemma local_gain w out : Forall (plain X V) w ->
  (forall r r', straight X V w r r' -> exists d, 0 <= d /\ straight X V out r (more d r')) -> local_ok w out.
Proof.
  intros Hp Hs. split; [done |]. intros r r' Hr. destruct (Hs r r' Hr) as (d & Hd & Ho). exists 0, d. rewrite more_0. auto with lia.
Qed.

(** The state is the same but for the gas. *)
Lemma more_intro (r r' : rstate H) : r_stack r = r_stack r' -> same_env r r' -> r_gas r' <= r_gas r -> exists d, 0 <= d /\ more d r' = r.
Proof.
  intros Hs (Hm & Hb & Hh) Hg. exists (r_gas r - r_gas r'). split; [lia |]. destruct r, r'. unfold more. cbn in *. subst. f_equal. lia.
Qed.

Lemma push_pop_ok push : narrow push -> pushes push = true -> local_ok [push; Operation Op.POP] [].
Proof.
  intros Hn Hp. pose proof costs as Hc. apply local_gain; [repeat constructor; [by apply plain_push | apply plain_pop] |].
  intros r r' (r1 & H1 & r2 & H2 & ->). cbn [straight]. rewrite exec_push in H1 by done. destruct (_ <=? _) in H1; [| done].
  destruct (_ <? _)%nat; [| done]. injection H1 as <-. rewrite exec_pop in H2. destruct (_ <=? _) in H2; [| done]. cbn [r_stack] in H2. injection H2 as <-.
  apply more_intro; [done | done | cbn [r_gas]; lia].
Qed.

(** The families of DUP and SWAP. *)
Lemma dup_inst b : inw 8 b -> isDupInstruction (Operation b) = true -> exists n, Instruction_of_byte b = DUP (S n).
Proof.
  intros Hb Hd.
  pose proof (forall_byte (fun b => implb (isDupInstruction (Operation b)) (match Instruction_of_byte b with DUP (S _) => true | _ => false end))
    ltac:(vm_compute; reflexivity) b Hb) as Hc. cbv beta in Hc. rewrite Hd in Hc. cbn [implb] in Hc.
  destruct (Instruction_of_byte b); try discriminate Hc. destruct n; [discriminate Hc | by eexists].
Qed.

Lemma swap_inst b : inw 8 b -> isSwapInstruction (Operation b) = true -> exists n, Instruction_of_byte b = SWAP (S n).
Proof.
  intros Hb Hd.
  pose proof (forall_byte (fun b => implb (isSwapInstruction (Operation b)) (match Instruction_of_byte b with SWAP (S _) => true | _ => false end))
    ltac:(vm_compute; reflexivity) b Hb) as Hc. cbv beta in Hc. rewrite Hd in Hc. cbn [implb] in Hc.
  destruct (Instruction_of_byte b); try discriminate Hc. destruct n; [discriminate Hc | by eexists].
Qed.

Lemma body_dup n data (r : rstate H) c r' :
  step_body X 0 data (DUP n) r = Ok (c, r') ->
  c = Next /\ exists z, r' = mkR (z :: r_stack r) (r_gas r) (r_mem r) (r_retbuf r) (r_host r).
Proof.
  cbn [step_body]. unfold rdup, rpush, gets, set_rstack, mbind, M_bind. destruct (r_stack r !! (n - 1)%nat) as [z |]; [| done].
  destruct (_ <? _)%nat; [| done]. intros [= <- <-]. eauto.
Qed.

Lemma dup_pop_ok b : inw 8 b -> isDupInstruction (Operation b) = true -> local_ok [Operation b; Operation Op.POP] [].
Proof.
  intros Hb Hd. destruct (dup_inst b Hb Hd) as [n Hn]. pose proof costs as Hc. apply local_gain.
  - repeat constructor; [apply plain_pure; cbn [sym_inst]; by rewrite Hn | apply plain_pop].
  - intros r r' (r1 & H1 & r2 & H2 & ->). cbn [straight]. apply exec_body in H1 as [Hg H1]. cbn [sym_inst] in Hg, H1. rewrite Hn in Hg, H1.
    apply body_dup in H1 as (_ & z & ->). rewrite exec_pop in H2. destruct (_ <=? _) in H2; [| done]. cbn [r_stack] in H2. injection H2 as <-.
    apply more_intro; [done | done | cbn [r_gas more]; lia].
Qed.

Lemma swap_twice (st : list Z) n z t :
  st !! n = Some z -> st !! 0%nat = Some t ->
  let st' := <[0%nat := z]> (<[n := t]> st) in
  st' !! n = Some t /\ st' !! 0%nat = Some z /\ <[0%nat := t]> (<[n := z]> st') = st.
Proof.
  intros Hn H0 st'. assert (Hl := lookup_lt_Some _ _ _ Hn). assert (Hl0 := lookup_lt_Some _ _ _ H0). unfold st'.
  destruct n as [| n].
  - assert (z = t) as -> by congruence. rewrite !list_insert_insert_eq, !list_lookup_insert_eq by (rewrite ?length_insert; lia).
    split_and!; try done. by apply list_insert_id.
  - rewrite list_lookup_insert_ne, !list_lookup_insert_eq by (rewrite ?length_insert; lia). split_and!; try done.
    rewrite (list_insert_insert_ne _ (S n) 0%nat), list_insert_insert_eq, list_insert_insert_eq by lia.
    rewrite list_insert_insert_ne by lia. rewrite list_insert_id by (by rewrite list_lookup_insert_ne). by apply list_insert_id.
Qed.

Lemma body_swap n data (r : rstate H) c r' :
  step_body X 0 data (SWAP n) r = Ok (c, r') ->
  c = Next /\ exists z t, r_stack r !! n = Some z /\ r_stack r !! 0%nat = Some t /\
    r' = mkR (<[0%nat := z]> (<[n := t]> (r_stack r))) (r_gas r) (r_mem r) (r_retbuf r) (r_host r).
Proof.
  cbn [step_body]. unfold rswap, gets, set_rstack, mbind, M_bind. destruct (r_stack r !! n) as [z |]; [| done].
  destruct (r_stack r !! 0%nat) as [t |]; [| done]. intros [= <- <-]. eauto 10.
Qed.

Lemma double_swap_ok b : inw 8 b -> isSwapInstruction (Operation b) = true -> local_ok [Operation b; Operation b] [].
Proof.
  intros Hb Hd. destruct (swap_inst b Hb Hd) as [n Hn]. apply local_gain.
  - repeat constructor; apply plain_pure; cbn [sym_inst]; by rewrite Hn.
  - intros r r' (r1 & H1 & r2 & H2 & ->). cbn [straight]. apply exec_body in H1 as [Hg1 H1], H2 as [Hg2 H2].
    cbn [sym_inst] in Hg1, H1, Hg2, H2. rewrite Hn in Hg1, H1, Hg2, H2.
    apply body_swap in H1 as (_ & z & t & Hz & Ht & ->). cbn [r_stack r_gas r_mem r_retbuf r_host more] in *.
    apply body_swap in H2 as (_ & z' & t' & Hz' & Ht' & ->). cbn [r_stack r_gas r_mem r_retbuf r_host more] in *.
    destruct (swap_twice _ _ _ _ Hz Ht) as (E1 & E2 & E3). rewrite E1 in Hz'. rewrite E2 in Ht'. injection Hz' as <-. injection Ht' as <-.
    rewrite E3.
    apply more_intro; [done | done | cbn [r_gas]; lia].
Qed.

Lemma double_push_ok v : inw 128 v -> local_ok [Push v; Push v] [Push v; Operation Op.DUP1].
Proof.
  intros Hv. pose proof costs as Hc. apply local_gain; [repeat constructor; by apply plain_push |].
  intros r r' (r1 & H1 & r2 & H2 & ->). exists 0. split; [done |]. rewrite more_0. cbn [straight]. exists r1. split; [done |]. exists r2. split; [| done].
  rewrite <- H2. rewrite exec_push in H1 by done. destruct (_ <=? _) in H1; [| done]. destruct (_ <? _)%nat; [| done]. injection H1 as <-.
  rewrite (exec_push (Push v)) by done. cbn [r_stack r_gas r_mem r_retbuf r_host]. rewrite HV.
  unfold exec_item. change (sym_inst (Operation Op.DUP1)) with (DUP 1). rewrite step_charged by lia.
  destruct Hc as (_ & -> & _). cbn [r_gas]. destruct (_ <=? _); [| done].
  cbn [allowed step_body Nat.leb orb Nat.sub r_stack]. unfold rdup, rpush, gets, set_rstack. unfold mbind, M_bind.
  cbn [r_stack r_gas r_mem r_retbuf r_host lookup list_lookup]. by destruct (_ <? _)%nat.
Qed.

Lemma land_ones w c : inw 32 w -> Z.land c 0xFFFFFFFF = 0xFFFFFFFF -> Z.land c w = w.
Proof.
  intros Hw Hc. apply Z.bits_inj'. intros n Hn. rewrite Z.land_spec. destruct (Z.lt_ge_cases n 32) as [Hlt | Hge].
  - assert (Z.testbit c n = true) as ->; [| done]. assert (Z.testbit (Z.land c 0xFFFFFFFF) n = Z.testbit 0xFFFFFFFF n) as Hb by by rewrite Hc.
    rewrite Z.land_spec in Hb. change 0xFFFFFFFF with (Z.ones 32) in Hb. rewrite Z.ones_spec_low in Hb by lia. by rewrite andb_true_r in Hb.
  - by rewrite (inw_testbit 32 w n), andb_false_r by (done || lia).
Qed.

Lemma tag_conjunction_ok v c :
  inw 128 c -> Z.land c 0xFFFFFFFF = 0xFFFFFFFF -> local_ok [PushTag v; Push c; Operation Op.AND] [PushTag v].
Proof.
  intros Hc Hm. pose proof costs as Hcost. apply local_gain; [repeat constructor; [by apply plain_push | by apply plain_push | by apply plain_pure] |].
  intros r r' (r1 & H1 & r2 & H2 & r3 & H3 & ->). cbn [straight].
  assert (exists d, 0 <= d /\ more d r3 = r1) as (d & Hd & E); [| exists d; split; [done |]; exists r1; by rewrite E].
  rewrite exec_push in H1 by done. destruct (_ <=? _) in H1; [| done]. destruct (_ <? _)%nat; [| done]. injection H1 as <-.
  rewrite exec_push in H2 by done. destruct (_ <=? _) in H2; [| done]. cbn [r_stack r_gas r_mem r_retbuf r_host] in H2.
  destruct (_ <? _)%nat; [| done]. injection H2 as <-.
  apply exec_body in H3 as [Hg H3]. change (sym_inst (Operation Op.AND)) with AND in Hg, H3. cbn [step_body] in H3.
  unfold binary, rpop, rpush, gets, set_rstack, mbind, M_bind, mret, M_ret in H3. cbn [r_stack r_mem r_retbuf r_host r_gas more] in H3.
  rewrite HV, land_ones in H3 by (done || apply HT). destruct (_ <? _)%nat in H3; [| done]. injection H3 as <-.
  apply more_intro; [done | done | cbn [r_gas]; lia].
Qed.

Lemma body_valid data inst (r : rstate H) c r' : step_body X 0 data inst r = Ok (c, r') -> is_invalid inst = false.
Proof. by destruct inst. Qed.

(** All other instructions pay for the words they take. *)
Lemma args_cost b :
  inw 8 b -> ret (instructionInfo b) = 1%nat -> sideEffects (instructionInfo b) = false -> frugal (Operation b) ->
  Z.of_nat (args (instructionInfo b)) * cost POP <= cost (Instruction_of_byte b) + cost POP.
Proof.
  intros Hb Hr Hs [H1 H2].
  assert (forallb (fun rev => implb ((ret (instructionInfo b) =? 1)%nat && negb (sideEffects (instructionInfo b)) && negb (b =? Op.ADDMOD) && negb (b =? Op.MULMOD))
    (Z.of_nat (args (instructionInfo b)) * getStepCost rev POP <=? getStepCost rev (Instruction_of_byte b) + getStepCost rev POP))
    [EVM_FRONTIER; EVM_HOMESTEAD; EVM_TANGERINE_WHISTLE; EVM_SPURIOUS_DRAGON; EVM_BYZANTIUM; EVM_AION; EVM_CONSTANTINOPLE; EVM_AION_V1] = true) as Hc.
  { revert b Hb Hr Hs H1 H2. intros b Hb _ _ _ _. revert b Hb. apply (forall_byte (fun b => forallb _ _)). vm_compute. reflexivity. }
  rewrite forallb_forall in Hc. specialize (Hc (x_rev X)). rewrite Hr, Hs in Hc.
  rewrite (proj2 (Z.eqb_neq b Op.ADDMOD)), (proj2 (Z.eqb_neq b Op.MULMOD)) in Hc by congruence. apply Z.leb_le, Hc. destruct (x_rev X); cbn; tauto.
Qed.

Lemma op_pop_ok b :
  inw 8 b -> unaware (Operation b) -> ret (instructionInfo b) = 1%nat -> sideEffects (instructionInfo b) = false ->
  local_ok [Operation b; Operation Op.POP] (replicate (args (instructionInfo b)) (Operation Op.POP)).
Proof.
  intros Hb Hu Hr Hs. pose proof (args_cost b Hb Hr Hs) as Hcost. pose proof costs as [Hpop _].
  unfold instructionInfo in *. destruct (lookup_info b) as [info |] eqn:Hl; cbn [default from_option id] in *; [| discriminate Hr].
  assert (b <> Op.KECCAK256) as Hk by (intros ->; vm_compute in Hl; injection Hl as <-; discriminate Hr).
  assert (forall r c r', exec (Operation b) r = Ok (c, r') ->
    c = Next /\ same_env r r' /\ exists ins z rest, r_stack r = ins ++ rest /\ r_stack r' = z :: rest /\ length ins = args info) as He.
  { intros r c r' [_ E]%exec_body. cbn [sym_inst] in E.
    destruct (table_row b info Hb Hl (body_valid _ _ _ _ _ E)) as (Hw & Ha & Hre & Hp). specialize (Hp Hs Hk).
    destruct (eff_step_body X _ _ _ Hw _ _ _ E) as (ins & outs & rest & H1 & H2 & H3 & H4).
    apply (silent_step_body X _ _ _ Hp) in E as [-> Henv]. split; [done |]. split; [exact Henv |].
    rewrite <- Hre, Hr in H4. destruct outs as [| z [|]]; try discriminate H4. exists ins, z, rest. rewrite Ha. done. }
  split; [constructor; [intros r c r' E; by apply He in E as [-> _] | constructor; [apply plain_pop | constructor]] |].
  intros r r' (r1 & H1 & r2 & H2 & ->). pose proof (exec_gas X V _ _ _ _ Hu H1) as Hg. cbn [sym_inst] in Hg.
  pose proof (exec_body X V _ _ _ _ H1) as [Hcb _]. cbn [sym_inst] in Hcb.
  apply He in H1 as (_ & Henv & ins & z & rest & E1 & E2 & Hlen).
  rewrite exec_pop, E2 in H2. destruct (Z.leb_spec (cost POP) (r_gas r1)); [| done]. injection H2 as <-. set (n := Z.of_nat (args info)) in *.
  set (k := Z.max 0 (n * cost POP - cost (Instruction_of_byte b) - cost POP)).
  pose proof (straight_pops ins rest (more k r) E1) as Hp. rewrite Hlen in Hp. fold n in Hp. specialize (Hp ltac:(cbn [r_gas more]; lia)).
  destruct (more_intro (at_stack (more k r) rest (n * cost POP)) (at_stack r1 rest (cost POP))) as (d & Hd & E).
  { done. } { by destruct Henv as (? & ? & ?). } { cbn [r_gas more]. lia. }
  exists k, d. rewrite E. split; [split; [lia |] | done]. intros [Hfr _]%Forall_cons_1. specialize (Hcost Hfr). lia.
Qed.
End Windows.

(** ** What the pass keeps of the items *)

Lemma applyMethods_in ms l o : applyMethods ms l = Some o -> exists m, m ∈ ms /\ m l = Some o.
Proof.
  induction ms as [| m ms IH]; cbn [applyMethods]; [done |]. destruct (m l) as [o' |] eqn:E.
  - intros [= ->]. exists m. split; [by left | done].
  - intros Ho. destruct (IH Ho) as (m' & Hm & Hr). exists m'. split; [by right | done].
Qed.

Lemma Forall_suffix {A} (P : A -> Prop) (l l' : list A) : l' `suffix_of` l -> Forall P l -> Forall P l'.
Proof. intros [pre ->] Hl. by apply Forall_app in Hl as [_ Hl]. Qed.

Section Kept.
Context (P : AssemblyItem -> Prop) (Hpop : P (Operation Op.POP)) (Hdup : P (Operation Op.DUP1)).

Lemma rule_Forall (m : rule) l out rest :
  m ∈ methods -> m l = Some (out, rest) -> Forall P l -> Forall P out /\ rest `suffix_of` l.
Proof.
  assert (forall i j (l : list AssemblyItem), l `suffix_of` i :: j :: l) as Hs2 by (intros i j k; by exists [i; j]).
  assert (forall i j k (l : list AssemblyItem), l `suffix_of` i :: j :: k :: l) as Hs3 by (intros i j k l0; by exists [i; j; k]).
  intros Hm E Hl. apply list_elem_of_In in Hm. cbn in Hm.
  destruct_or! Hm; try subst m.
  - destruct l as [| x [| y l]]; cbn [PushPop] in E; try done. destruct (_ && _); [| done]. injection E as <- <-. auto.
  - destruct l as [| [] [| y l]]; cbn [OpPop] in E; try done. destruct (_ && _ && _); [| done]. injection E as <- <-.
    split; [by apply Forall_replicate_eq | done].
  - destruct l as [| [] [| [] l]]; cbn [DoublePush] in E; try done. destruct (_ =? _); [| done]. injection E as <- <-.
    apply Forall_cons_1 in Hl as [Hx _]. split; [constructor; [done | by constructor] | done].
  - destruct l as [| x [| y l]]; cbn [DoubleSwap] in E; try done. destruct (_ && _); [| done]. injection E as <- <-. auto.
  - destruct l as [| [] [| j [| [] l]]]; cbn [JumpToNext] in E; try done. destruct (_ && _); [| done]. injection E as <- <-.
    apply Forall_cons_1 in Hl as [_ Hl]. apply Forall_cons_1 in Hl as [_ Hl]. apply Forall_cons_1 in Hl as [Ht _].
    split; [destruct (is_op Op.JUMPI j); repeat (constructor; [done |]); constructor | done].
  - destruct l as [| x l]; cbn [UnreachableCode] in E; [done |]. destruct (_ && _); [| done]. injection E as <- <-.
    apply Forall_cons_1 in Hl as [Hx _]. split; [by constructor |]. apply (suffix_cons_r _ l). clear.
    induction l as [| j l IH]; cbn [skip_dead]; [done |]. destruct (is_tag j); [done |]. by apply suffix_cons_r.
  - destruct l as [| [] [| [] [| z l]]]; cbn [TagConjunctions] in E; try done. destruct (_ && _); [| done]. injection E as <- <-.
    apply Forall_cons_1 in Hl as [Hx _]. split; [by constructor | done].
  - destruct l as [| x l]; cbn [Identity] in E; [done |]. injection E as <- <-. apply Forall_cons_1 in Hl as [Hx _].
    split; [by constructor | by exists [x]].
Qed.

Lemma optimised_Forall l : Forall P l -> Forall P (optimised l).
Proof.
  unfold optimised. generalize (length l) as n. intros n. revert l. induction n as [| n IH]; intros l Hl; cbn [pass]; [constructor |].
  destruct l as [| i l]; [constructor |]. destruct (applyMethods methods (i :: l)) as [[out rest] |] eqn:E; [| constructor].
  apply applyMethods_in in E as (m & Hm & E). destruct (rule_Forall m _ _ _ Hm E Hl) as [Ho Hr].
  apply Forall_app. split; [done |]. apply IH. by apply (Forall_suffix _ (i :: l)).
Qed.
End Kept.

(** ** The pass *)

Lemma skip_dead_le l : (length (skip_dead l) <= length l)%nat.
Proof. induction l as [| i l IH]; cbn [skip_dead length]; [done |]. destruct (is_tag i); cbn [length]; lia. Qed.

Section Pass.
Context {H : Type} (X : Ctx H) (V : AssemblyItem -> Z).
Context (HV : forall v, V (Push v) = v) (HT : forall v, inw 32 (V (PushTag v))).
Context (HI : forall v w, inw 32 v -> inw 32 w -> V (PushTag v) = V (PushTag w) -> v = w).

(** An item that pushes two words is not followed by an item with which a rule
    would take it for one word. *)
Definition pair_ok (x y : AssemblyItem) : Prop :=
  narrow x \/ (y <> Operation Op.POP /\ y <> x /\ y <> Operation Op.AND).

Fixpoint safe (l : list AssemblyItem) : Prop :=
  match l with
  | x :: l' => (match x with Operation b => inw 8 b | Tag v => inw 32 v | _ => True end /\ unaware x) /\ (match l' with y :: _ => pair_ok x y | [] => True end) /\ safe l'
  | [] => True
  end.

Definition no_tags (l : list AssemblyItem) : Prop := Forall (fun i => is_tag i = false) l.

(** The windows. *)
Inductive window : list AssemblyItem -> list AssemblyItem -> list AssemblyItem -> Prop :=
| w_local w out rest : w <> [] -> local_ok X V w out -> no_tags w -> no_tags out -> window (w ++ rest) out rest
| w_jump v rest : window (PushTag v :: Operation Op.JUMP :: Tag v :: rest) [Tag v] rest
| w_jumpi v rest : window (PushTag v :: Operation Op.JUMPI :: Tag v :: rest) [Operation Op.POP; Tag v] rest
| w_dead i rest : ends_flow i = true -> window (i :: rest) [i] (skip_dead rest)
| w_same i rest : window (i :: rest) [i] rest.

Lemma window_PushPop l out rest : safe l -> PushPop l = Some (out, rest) -> window l out rest.
Proof.
  destruct l as [| push [| pop rest0]]; cbn [PushPop]; try done. intros ([Hb _] & Hp & _).
  destruct (is_op Op.POP pop) eqn:E; [| done]. apply is_op_eq in E as ->. cbn [andb].
  destruct (isDupInstruction push || pushes push) eqn:E; [| done]. intros [= <- <-].
  destruct Hp as [Hn | (? & _)]; [| done].
  apply (w_local [push; Operation Op.POP] [] rest0); [done | | destruct push; try done; repeat constructor | constructor].
  destruct push; try done; try (by apply push_pop_ok). apply dup_pop_ok; [done |]. by rewrite orb_false_r in E.
Qed.

Lemma window_OpPop l out rest : safe l -> OpPop l = Some (out, rest) -> window l out rest.
Proof.
  destruct l as [| [] [| pop rest0]]; cbn [OpPop]; try done. intros ([Hb Hu] & _ & _).
  destruct (is_op Op.POP pop && _ && _) eqn:E; [| done]. intros [= <- <-]. rewrite !andb_true_iff in E. destruct E as [[E1 E2] E3].
  apply is_op_eq in E1 as ->. apply Nat.eqb_eq in E2. apply negb_true_iff in E3.
  apply (w_local [Operation i; Operation Op.POP]); [done | by apply op_pop_ok | by repeat constructor |].
  by apply Forall_replicate_eq.
Qed.

Lemma window_DoublePush l out rest : safe l -> DoublePush l = Some (out, rest) -> window l out rest.
Proof.
  destruct l as [| [] [| [] rest0]]; cbn [DoublePush]; try done. intros (_ & Hp & _).
  destruct (Z.eqb_spec data data0) as [<- |]; [| done]. intros [= <- <-]. destruct Hp as [Hn | (_ & ? & _)]; [| done].
  apply (w_local [Push data; Push data]); [done | by apply double_push_ok | by repeat constructor | by repeat constructor].
Qed.

Lemma window_DoubleSwap l out rest : safe l -> DoubleSwap l = Some (out, rest) -> window l out rest.
Proof.
  destruct l as [| s1 [| s2 rest0]]; cbn [DoubleSwap]; try done. intros ([Hb _] & _ & _).
  case_bool_decide as E; [| done]. subst s2. cbn [andb]. destruct (isSwapInstruction s1) eqn:E; [| done]. intros [= <- <-].
  destruct s1; try discriminate E.
  apply (w_local [Operation i; Operation i] []); [done | by apply double_swap_ok | by repeat constructor | constructor].
Qed.

Lemma window_JumpToNext l out rest : JumpToNext l = Some (out, rest) -> window l out rest.
Proof.
  destruct l as [| [] [| jump [| [] rest0]]]; cbn [JumpToNext]; try done.
  destruct (Z.eqb_spec data data0) as [<- |]; [| by rewrite andb_false_r]. rewrite andb_true_r.
  destruct (is_op Op.JUMPI jump) eqn:E.
  - apply is_op_eq in E as ->. rewrite orb_true_r. intros [= <- <-]. constructor.
  - rewrite orb_false_r. destruct (is_op Op.JUMP jump) eqn:E'; [| done]. apply is_op_eq in E' as ->. intros [= <- <-]. constructor.
Qed.

Lemma window_TagConjunctions l out rest : safe l -> TagConjunctions l = Some (out, rest) -> window l out rest.
Proof.
  destruct l as [| [] [| [] [| conj_ rest0]]]; cbn [TagConjunctions]; try done. intros (_ & _ & _ & Hp & _).
  destruct (is_op Op.AND conj_) eqn:E; [| done]. apply is_op_eq in E as ->. cbn [andb].
  destruct (Z.eqb_spec (Z.land data0 0xFFFFFFFF) 0xFFFFFFFF) as [E |]; [| done]. intros [= <- <-].
  destruct Hp as [Hn | (_ & _ & ?)]; [| done].
  apply (w_local [PushTag data; Push data0; Operation Op.AND]); [done | by apply tag_conjunction_ok | by repeat constructor | by repeat constructor].
Qed.

Lemma window_methods l out rest : safe l -> applyMethods methods l = Some (out, rest) -> window l out rest.
Proof.
  intros Hs. unfold methods. cbn [applyMethods].
  destruct (PushPop l) as [o |] eqn:E1; [intros [= ->]; by apply window_PushPop |].
  destruct (OpPop l) as [o |] eqn:E2; [intros [= ->]; by apply window_OpPop |].
  destruct (DoublePush l) as [o |] eqn:E3; [intros [= ->]; by apply window_DoublePush |].
  destruct (DoubleSwap l) as [o |] eqn:E4; [intros [= ->]; by apply window_DoubleSwap |].
  destruct (JumpToNext l) as [o |] eqn:E5; [intros [= ->]; by apply window_JumpToNext |].
  destruct (UnreachableCode l) as [o |] eqn:E6; [intros [= ->] |].
  - destruct l as [| i l]; [done |]. cbn [UnreachableCode] in E6. destruct (ends_flow i) eqn:Ee; [| done].
    destruct (negb _) in E6; [| done]. injection E6 as <- <-. by constructor.
  - destruct (TagConjunctions l) as [o |] eqn:E7; [intros [= ->]; by apply window_TagConjunctions |].
    destruct l as [| i l]; [done |]. intros [= <- <-]. constructor.
Qed.

(** A window is a non-empty prefix. *)
Lemma window_suffix l out rest : window l out rest -> (length rest < length l)%nat /\ rest `suffix_of` l.
Proof.
  destruct 1 as [w out rest Hw _ _ _ | v rest | v rest | i rest _ | i rest].
  - rewrite length_app. destruct w; [done |]. cbn [length]. split; [lia | by eexists].
  - split; [cbn; lia | by exists [PushTag v; Operation Op.JUMP; Tag v]].
  - split; [cbn; lia | by exists [PushTag v; Operation Op.JUMPI; Tag v]].
  - pose proof (skip_dead_le rest). split; [cbn; lia |]. apply (suffix_cons_r _ rest). clear.
    induction rest as [| j rest IH]; cbn [skip_dead]; [done |]. destruct (is_tag j); [done |]. by apply suffix_cons_r.
  - split; [cbn; lia | by exists [i]].
Qed.

Lemma safe_unaware l : safe l -> Forall unaware l.
Proof. induction l as [| i l IH]; [constructor |]. intros ([_ Hi] & _ & Hs). constructor; [done | by apply IH]. Qed.

Lemma safe_suffix l l' : l' `suffix_of` l -> safe l -> safe l'.
Proof. intros [pre ->]. induction pre as [| x pre IH]; [done |]. cbn [app safe]. intros (_ & _ & Hs). by apply IH. Qed.

Lemma apply_some l : l <> [] -> exists out rest, applyMethods methods l = Some (out, rest).
Proof.
  intros Hl. unfold methods. cbn [applyMethods].
  destruct (PushPop l) as [[] |]; [by eexists _, _ |]. destruct (OpPop l) as [[] |]; [by eexists _, _ |].
  destruct (DoublePush l) as [[] |]; [by eexists _, _ |]. destruct (DoubleSwap l) as [[] |]; [by eexists _, _ |].
  destruct (JumpToNext l) as [[] |]; [by eexists _, _ |]. destruct (UnreachableCode l) as [[] |]; [by eexists _, _ |].
  destruct (TagConjunctions l) as [[] |]; [by eexists _, _ |]. destruct l; [done |]. by eexists _, _.
Qed.

Lemma pass_fuel fuel fuel' l : safe l -> (length l <= fuel)%nat -> (length l <= fuel')%nat -> pass fuel l = pass fuel' l.
Proof.
  revert fuel' l. induction fuel as [| fuel IH]; intros fuel' l Hs H1 H2.
  - destruct l; [| cbn in H1; lia]. by destruct fuel'.
  - destruct fuel' as [| fuel']; [destruct l; [done | cbn in H2; lia] |]. cbn [pass]. destruct l as [| i l]; [done |].
    destruct (applyMethods methods (i :: l)) as [[out rest] |] eqn:E; [| done]. apply window_methods in E; [| done].
    destruct (window_suffix _ _ _ E) as [Hl Hsuf]. f_equal. apply IH; [by apply (safe_suffix (i :: l)) | cbn in *; lia | cbn in *; lia].
Qed.

Lemma optimised_window l : safe l -> l <> [] -> exists out rest, window l out rest /\ optimised l = out ++ optimised rest.
Proof.
  intros Hs Hl. destruct (apply_some l Hl) as (out & rest & E). exists out, rest. pose proof (window_methods _ _ _ Hs E) as Hw. split; [done |].
  destruct (window_suffix _ _ _ Hw) as [Hlt Hsuf]. unfold optimised. destruct l as [| i l]; [done |]. cbn [length pass]. rewrite E. f_equal.
  apply pass_fuel; [by apply (safe_suffix (i :: l)) | cbn in Hlt; lia | done].
Qed.

(** ** Tags *)

Abbreviation find := (find_tag V).

Lemma find_no_tags w l l' : no_tags l -> find w (l ++ l') = find w l'.
Proof. induction 1 as [| i l Hi _ IH]; [done |]. destruct i; done. Qed.

Lemma find_skip_dead w l : find w (skip_dead l) = find w l.
Proof. induction l as [| i l IH]; [done |]. cbn [skip_dead]. destruct i; done. Qed.

Lemma find_suffix w l l' : find w l = Some l' -> l' `suffix_of` l /\ exists v rest, l' = Tag v :: rest.
Proof.
  induction l as [| i l IH]; [done |]. intros Hf.
  assert (find w l = Some l' -> l' `suffix_of` i :: l /\ exists v rest, l' = Tag v :: rest) as Hrec.
  { intros Hf'. destruct (IH Hf') as [Hs Ht]. split; [by apply suffix_cons_r | done]. }
  destruct i; cbn [find_tag] in Hf; try (by apply Hrec). destruct (_ =? w); [injection Hf as <- | by apply Hrec].
  split; [done | eauto].
Qed.

Lemma optimised_tag v rest : safe (Tag v :: rest) -> optimised (Tag v :: rest) = Tag v :: optimised rest.
Proof.
  intros Hs. unfold optimised. cbn [length pass].
  assert (applyMethods methods (Tag v :: rest) = Some ([Tag v], rest)) as ->; [| done].
  unfold methods. cbn [applyMethods]. destruct rest as [| y [| z rest]]; cbn; rewrite ?andb_false_r; done.
Qed.

(** The pass keeps the tags, and what follows them. *)
Lemma find_optimised w l : safe l -> find w (optimised l) = optimised <$> find w l.
Proof.
  remember (length l) as n eqn:Hn. revert l Hn. induction (lt_wf n) as [n _ IH]. intros l -> Hs.
  destruct l as [| i0 l0]; [done |]. destruct (optimised_window (i0 :: l0) Hs) as (out & rest & Hw & ->); [done |].
  destruct (window_suffix _ _ _ Hw) as [Hlt Hsuf]. pose proof (safe_suffix _ _ Hsuf Hs) as Hsr.
  specialize (IH _ Hlt rest eq_refl Hsr).
  assert (forall v, safe (Tag v :: rest) -> find w (Tag v :: optimised rest) = optimised <$> find w (Tag v :: rest)) as Htag.
  { intros v Hst. cbn [find_tag]. destruct (_ =? w); [| done]. cbn [fmap option_fmap option_map]. by rewrite optimised_tag. }
  destruct Hw as [w0 out rest Hne _ H1 H2 | v rest | v rest | i rest He | i rest].
  - by rewrite !find_no_tags.
  - apply (Htag v). by destruct Hs as (_ & _ & _ & _ & Hs).
  - apply (Htag v). by destruct Hs as (_ & _ & _ & _ & Hs).
  - assert (is_tag i = false) as Hi by (by destruct i).
    rewrite (find_no_tags w [i]) by (by constructor).
    change (i :: rest) with ([i] ++ rest). rewrite (find_no_tags w [i] rest) by (by constructor). by rewrite IH, find_skip_dead.
  - destruct i; try exact IH. by apply Htag.
Qed.

(** ** Correctness *)

Definition tags_of (l : list AssemblyItem) : list Z := omap (fun i => match i with Tag v => Some v | _ => None end) l.

Lemma find_unique v prog rest :
  safe prog -> NoDup (tags_of prog) -> Tag v :: rest `suffix_of` prog -> find (V (PushTag v)) prog = Some (Tag v :: rest).
Proof.
  intros Hs Hnd [pre ->]. assert (inw 32 v) as Hv by (by apply (safe_suffix _ (Tag v :: rest)) in Hs as [[? _] _]; [| eexists]).
  induction pre as [| i pre IH]; cbn [app find_tag]; [by rewrite Z.eqb_refl |]. cbn [app safe] in Hs. destruct Hs as ([Hi _] & _ & Hs).
  destruct i; cbn [find_tag]; try (by apply IH). cbn in Hnd. pose proof (NoDup_cons_1_1 _ _ Hnd) as Hn. apply NoDup_cons_1_2 in Hnd.
  destruct (Z.eqb_spec (V (PushTag data)) (V (PushTag v))) as [E |]; [| by apply IH]. apply HI in E as ->; [| done | done].
  destruct Hn. unfold tags_of. rewrite omap_app. apply elem_of_app. right. cbn. by left.
Qed.

(** What a computation returns. *)
Definition returns {A} (Q : A -> Prop) (m : @M H A) : Prop := forall r x r', m r = Ok (x, r') -> Q x.

Lemma returns_ret {A} (Q : A -> Prop) x : Q x -> returns Q (mret x).
Proof. by intros HQ r y r' [= <- <-]. Qed.

Lemma returns_bind {A B} (Q : B -> Prop) (m : @M H A) (f : A -> M B) : (forall x, returns Q (f x)) -> returns Q (m ≫= f).
Proof.
  intros Hf r y r'. unfold mbind, M_bind. destruct (m r) as [[x r1] | |]; [| done..]. apply Hf.
Qed.

Lemma ends_flow_exec i (r : rstate H) r' : ends_flow i = true -> exec_item X V i r <> Ok (Next, r').
Proof.
  unfold ends_flow. rewrite !orb_true_iff. intros He E. apply exec_body in E as [_ E].
  assert (returns (fun c => c <> Next) (step_body X 0 (V i) (sym_inst i))) as Hr; [| by apply Hr in E].
  destruct_or! He; apply is_op_eq in He as ->; cbn [sym_inst];
    lazymatch goal with |- context [Instruction_of_byte ?b] =>
      let v := eval vm_compute in (Instruction_of_byte b) in change (Instruction_of_byte b) with v end; cbn [step_body];
    unfold step_selfdestruct; repeat (apply returns_bind; intros ?); first [by apply returns_ret | done].
Qed.

Abbreviation run := (prun X V).

Abbreviation cost := (getStepCost (x_rev X)).
Abbreviation at_stack r st k := (mkR st (r_gas r - k) (r_mem r) (r_retbuf r) (r_host r)).

Lemma exec_jump (r : rstate H) : exec_item X V (Operation Op.JUMP) r =
  if cost JUMP <=? r_gas r then match r_stack r with [] => Abort | d :: st => Ok (JumpTo d, at_stack r st (cost JUMP)) end else Abort.
Proof.
  unfold exec_item. change (sym_inst (Operation Op.JUMP)) with JUMP. pose proof (costs X). rewrite step_charged by lia.
  destruct (_ <=? _); [| done]. by destruct r as [[| d st] g m b h].
Qed.

Lemma exec_jumpi (r : rstate H) : exec_item X V (Operation Op.JUMPI) r =
  if cost JUMPI <=? r_gas r then
    match r_stack r with d :: c :: st => Ok (if c =? 0 then Next else JumpTo d, at_stack r st (cost JUMPI)) | _ => Abort end
  else Abort.
Proof.
  unfold exec_item. change (sym_inst (Operation Op.JUMPI)) with JUMPI. pose proof (costs X). rewrite step_charged by lia.
  destruct (_ <=? _); [| done]. by destruct r as [[| d [| c st]] g m b h].
Qed.

(** The run of the optimised items goes on as the run [e], perhaps with more gas. *)
Definition goes_on (prog cur : list AssemblyItem) (r : rstate H) (e : ReturnCode * list Z * rstate H) : Prop :=
  exists k d n', (0 <= k /\ (Forall frugal prog -> k = 0)) /\ 0 <= d /\ run n' (optimised prog) cur (more k r) = Some (e.1, more d e.2).

Section Prog.
Context (prog : list AssemblyItem) (Hs : safe prog) (Hnd : NoDup (tags_of prog)).

Lemma optimised_unaware cur : cur `suffix_of` prog -> Forall unaware (optimised cur).
Proof. intros Hc. apply optimised_Forall; [done | done |]. apply safe_unaware. by apply (safe_suffix prog). Qed.

(** More gas than needed. *)
Lemma goes_on_more cur r e j : Forall unaware cur -> 0 <= j -> goes_on prog cur r e -> goes_on prog cur (more j r) e.
Proof.
  intros Hu Hj (k & d & n & Hk & Hd & Hr). exists k, (j + d), n. split; [done |]. split; [lia |]. destruct e as [[c out] s].
  apply (prun_more X V _ _ _ _ _ _ _ j) in Hr; [| by apply optimised_unaware | done | done].
  rewrite !more_more in *. cbn [fst snd] in *. by rewrite Z.add_comm.
Qed.

(** After items that run straight. *)
Lemma goes_on_straight w rest r r' e k d :
  Forall unaware w -> Forall unaware rest -> 0 <= k /\ (Forall frugal prog -> k = 0) -> 0 <= d ->
  straight X V w (more k r) (more d r') -> goes_on prog rest r' e -> goes_on prog (w ++ rest) r e.
Proof.
  intros Hw Hrest Hk Hd Hst (k' & d' & n & Hk' & Hd' & Hr). destruct e as [[c out] s].
  apply (straight_more X V _ _ _ k') in Hst; [| done | lia]. rewrite !more_more in Hst.
  apply (prun_more X V _ _ _ _ _ _ _ d) in Hr; [| by apply optimised_unaware | done | done]. rewrite !more_more in Hr. cbn [fst snd] in *.
  rewrite (Z.add_comm d k') in Hr. destruct (straight_prun X V _ _ _ _ _ _ _ Hst Hr) as [n' Hn].
  exists (k' + k), (d + d'), n'. split; [split; [lia |]; intros Hf; pose proof (proj2 Hk Hf); pose proof (proj2 Hk' Hf); lia |]. split; [lia | done].
Qed.

Context (n : nat) (e : ReturnCode * list Z * rstate H).
Context (IH : forall m cur r, (m < n)%nat -> cur `suffix_of` prog -> run m prog cur r = Some e -> goes_on prog (optimised cur) r e).

(** An item that the pass keeps: what follows goes on as before. *)
Lemma kept_item i rest rest' (r : rstate H) :
  i :: rest `suffix_of` prog -> (ends_flow i = true \/ rest' = rest) ->
  run n prog (i :: rest) r = Some e -> goes_on prog (i :: optimised rest') r e.
Proof.
  intros Hsuf Hend He. destruct n as [| n']; [done |]. cbn [prun] in He.
  assert (unaware i) as Hi. { apply (safe_suffix prog) in Hsuf; [| done]. by destruct Hsuf as [[_ ?] _]. }
  destruct (exec_item X V i r) as [[[| w | c out] r1] | |] eqn:E; try done.
  - destruct Hend as [Hend | ->]; [by destruct (ends_flow_exec i r r1 Hend) |].
    destruct (IH n' rest r1) as (k & d & m & Hk & Hd & Hm); [lia | etransitivity; [by exists [i] | exact Hsuf] | done |].
    exists k, d, (S m). split; [done |]. split; [done |]. cbn [prun]. by rewrite (exec_more X V i r Next r1 k Hi (proj1 Hk) E).
  - destruct (find w prog) as [l |] eqn:Ef; [| done]. destruct (find_suffix _ _ _ Ef) as [Hl _].
    destruct (IH n' l r1) as (k & d & m & Hk & Hd & Hm); [lia | done | done |].
    exists k, d, (S m). split; [done |]. split; [done |]. cbn [prun]. rewrite (exec_more X V i r _ r1 k Hi (proj1 Hk) E). by rewrite find_optimised, Ef.
  - injection He as <-. exists 0, 0, 1%nat. split; [done |]. split; [done |]. cbn [prun]. by rewrite more_0, E, more_0.
Qed.

Lemma jump_to_next v (jumpi : bool) rest (r : rstate H) :
  PushTag v :: Operation (if jumpi then Op.JUMPI else Op.JUMP) :: Tag v :: rest `suffix_of` prog ->
  run n prog (PushTag v :: Operation (if jumpi then Op.JUMPI else Op.JUMP) :: Tag v :: rest) r = Some e ->
  goes_on prog ((if jumpi then [Operation Op.POP] else []) ++ Tag v :: optimised rest) r e.
Proof.
  intros Hsuf He. assert (Tag v :: rest `suffix_of` prog) as Htag.
  { etransitivity; [| exact Hsuf]. by exists [PushTag v; Operation (if jumpi then Op.JUMPI else Op.JUMP)]. }
  pose proof (find_unique v prog rest Hs Hnd Htag) as Hfind. rewrite <- (optimised_tag v rest) by (by apply (safe_suffix prog)).
  pose proof (costs X) as Hc. pose proof (optimised_unaware _ Htag) as Hu.
  destruct n as [| [| n']]; [done | |]; cbn [prun] in He; rewrite exec_push in He by done;
    destruct (Z.leb_spec (cost (PUSH 0)) (r_gas r)); try done; destruct (_ <? _)%nat; try done.
  destruct jumpi; [rewrite exec_jumpi in He | rewrite exec_jump in He]; cbn [r_stack r_gas r_mem r_retbuf r_host] in He.
  - destruct (Z.leb_spec (cost JUMPI) (r_gas r - cost (PUSH 0))); [| done].
    destruct (r_stack r) as [| c st] eqn:Er; [done |]. set (r2 := mkR st _ _ _ _) in He.
    assert (run n' prog (Tag v :: rest) r2 = Some e) as He'. { destruct (c =? 0); [done |]. by rewrite Hfind in He. }
    apply IH in He'; [| lia | done]. eapply (goes_on_straight [Operation Op.POP] _ r r2 e 0 (cost (PUSH 0) + cost JUMPI - cost POP)); try done; [by constructor | lia |].
    cbn [straight]. eexists. rewrite more_0, exec_pop, Er. rewrite (proj2 (Z.leb_le _ _)) by lia. split; [done |]. unfold more, r2. cbn [r_stack r_gas r_mem r_retbuf r_host]. f_equal. lia.
  - destruct (Z.leb_spec (cost JUMP) (r_gas r - cost (PUSH 0))); [| done].
    rewrite Hfind in He. apply IH in He; [| lia | done]. apply (goes_on_more _ _ _ (cost (PUSH 0) + cost JUMP)) in He; [| done | lia].
    destruct r as [st g mem buf h]. unfold more in He. cbn [r_stack r_gas r_mem r_retbuf r_host] in He.
    replace (g - cost (PUSH 0) - cost JUMP + (cost (PUSH 0) + cost JUMP)) with g in He by lia. exact He.
Qed.
End Prog.

(** A run of the items that halts is one of the optimised items. *)
Lemma optimised_run n prog cur (r : rstate H) e :
  safe prog -> NoDup (tags_of prog) -> cur `suffix_of` prog -> run n prog cur r = Some e -> goes_on prog (optimised cur) r e.
Proof.
  intros Hs Hnd. revert cur r. induction (lt_wf n) as [n _ IH']. intros cur r Hsuf He.
  assert (forall m cur r, (m < n)%nat -> cur `suffix_of` prog -> run m prog cur r = Some e -> goes_on prog (optimised cur) r e) as IH
    by (intros m c r' Hm; by apply IH').
  clear IH'. destruct cur as [| i0 cur0].
  { exists 0, 0, 1%nat. destruct n; [done |]. injection He as <-. cbn. by rewrite !more_0. }
  destruct (optimised_window (i0 :: cur0)) as (out & rest & Hw & Hopt); [by apply (safe_suffix prog) | done |].
  pose proof (optimised_unaware prog Hs _ Hsuf) as Hu. rewrite Hopt in Hu |- *. clear Hopt. apply Forall_app in Hu as [Huo Hur].
  destruct Hw as [w out rest Hne Hloc _ _ | v rest | v rest | i rest Hend | i rest].
  - destruct Hloc as [Hp Hst]. apply plain_prun in He as (r' & m & Hw & Hm & He); [| done].
    assert (m < n)%nat as Hlt by (destruct w; [done | cbn in Hm; lia]). apply IH in He; [| done | etransitivity; [by eexists | exact Hsuf]].
    destruct (Hst r r' Hw) as (k & d & [Hk Hfr] & Hd & Ho). apply (goes_on_straight prog Hs out (optimised rest) r r' e k d); try done.
    split; [done |]. intros Hf. apply Hfr. pose proof (Forall_suffix frugal prog (w ++ rest) Hsuf Hf) as Hf2. by apply Forall_app in Hf2 as [? _].
  - by apply (jump_to_next prog Hs Hnd n e IH v false).
  - by apply (jump_to_next prog Hs Hnd n e IH v true).
  - apply (kept_item prog Hs n e IH i rest); auto.
  - apply (kept_item prog Hs n e IH i rest); auto.
Qed.

Lemma tags_app l l' : tags_of (l ++ l') = tags_of l ++ tags_of l'.
Proof. apply omap_app. Qed.

Lemma tags_none l : no_tags l -> tags_of l = [].
Proof. induction 1 as [| i l Hi _ IH]; [done |]. by destruct i. Qed.

Lemma tags_skip_dead l : tags_of (skip_dead l) = tags_of l.
Proof. induction l as [| i l IH]; [done |]. cbn [skip_dead]. by destruct i. Qed.

Lemma tags_window l out rest : window l out rest -> tags_of l = tags_of out ++ tags_of rest.
Proof.
  destruct 1 as [w out rest _ _ H1 H2 | v rest | v rest | i rest He | i rest]; try done.
  - by rewrite tags_app, (tags_none w), (tags_none out).
  - rewrite tags_skip_dead. by destruct i.
  - by destruct i.
Qed.

Lemma tags_optimised l : safe l -> tags_of (optimised l) = tags_of l.
Proof.
  remember (length l) as n eqn:Hn. revert l Hn. induction (lt_wf n) as [n _ IH]. intros l -> Hs.
  destruct l as [| i0 l0]; [done |]. destruct (optimised_window (i0 :: l0) Hs) as (out & rest & Hw & ->); [done |].
  destruct (window_suffix _ _ _ Hw) as [Hlt Hsuf]. rewrite tags_app, (tags_window _ _ _ Hw). f_equal.
  apply (IH _ Hlt); [done |]. by apply (safe_suffix (i0 :: l0)).
Qed.
End Pass.

(** ** Repeated passes *)

(** Items with opcodes that are bytes, tags that are [unsigned] and constants
    of one word, which look neither at the gas nor at their position. *)
Definition tame (i : AssemblyItem) : Prop :=
  (narrow i /\ unaware i) /\ match i with Operation b => inw 8 b | Tag v => inw 32 v | UndefinedItem _ => False | _ => True end.

Lemma tame_safe l : Forall tame l -> safe l.
Proof.
  induction 1 as [| i l [[Hn Hu] Hi] _ IH]; [done |]. cbn [safe]. split_and!; [by destruct i | done | | done]. destruct l; [done |]. by left.
Qed.
Lemma optimised_tame l : Forall tame l -> Forall tame (optimised l).
Proof. by apply optimised_Forall. Qed.

Lemma items_bytesRequired_tame l : Forall tame l -> exists n, items_bytesRequired l 3 = Some n /\ 0 <= n.
Proof.
  induction 1 as [| i l [_ Hi] _ (n & IH & Hn)]; [by exists 0 |]. cbn [items_bytesRequired].
  assert (exists k, AsmItem.bytesRequired 3 i = Some k /\ 0 <= k) as (k & -> & Hk).
  { destruct i; try done; eexists; (split; [reflexivity |]); try done. lia. }
  rewrite IH. cbn. exists (k + n). split; [done | lia].
Qed.

(** [optimise] either gives up or makes the items fewer, or as many and shorter. *)
Lemma optimise_cases l :
  Forall tame l ->
  optimise l = Some None \/
  (optimise l = Some (Some (optimised l)) /\
   ((length (optimised l) < length l)%nat \/
    (length (optimised l) = length l /\ exists n n', items_bytesRequired l 3 = Some n /\ items_bytesRequired (optimised l) 3 = Some n' /\
      0 <= n' < n))).
Proof.
  intros Hl. unfold optimise. destruct (Nat.ltb_spec (length (optimised l)) (length l)); [right; auto |].
  destruct (Nat.eqb_spec (length (optimised l)) (length l)) as [E |]; [| by left].
  destruct (items_bytesRequired_tame _ (optimised_tame l Hl)) as (n' & -> & Hn').
  destruct (items_bytesRequired_tame l Hl) as (n & -> & Hn). cbn.
  destruct (Z.ltb_spec n' n); [right; split; [done |]; right; split; [done |]; exists n, n'; split_and!; done || lia | by left].
Qed.

Section Loop.
Context {H : Type} (X : Ctx H) (V : AssemblyItem -> Z).
Context (HV : forall v, V (Push v) = v) (HT : forall v, inw 32 (V (PushTag v))).
Context (HI : forall v w, inw 32 v -> inw 32 w -> V (PushTag v) = V (PushTag w) -> v = w).

(** Runs of [l] that halt are runs of [l'], which needs at most [k] more gas to
    leave at least as much. *)
Definition refines (l l' : list AssemblyItem) : Prop :=
  forall n (r : rstate H) c out s, prun X V n l l r = Some (c, out, s) ->
    exists k d n', (0 <= k /\ (Forall frugal l -> k = 0)) /\ 0 <= d /\ prun X V n' l' l' (more k r) = Some (c, out, more d s).

Lemma refines_refl l : refines l l.
Proof. intros n r c out s Hr. exists 0, 0, n. rewrite !more_0. done. Qed.
Lemma refines_trans l l1 l2 : (Forall frugal l -> Forall frugal l1) -> refines l l1 -> refines l1 l2 -> refines l l2.
Proof.
  intros Hf H1 H2 n r c out s Hr. destruct (H1 n r c out s Hr) as (k & d & n1 & Hk & Hd & Hr1).
  destruct (H2 n1 _ c out _ Hr1) as (k' & d' & n2 & Hk' & Hd' & Hr2). exists (k' + k), (d' + d), n2. rewrite !more_more in Hr2.
  split; [split; [lia |]; intros Hl; pose proof (proj2 Hk Hl); pose proof (proj2 Hk' (Hf Hl)); lia |]. split; [lia | done].
Qed.

Lemma loop_step l :
  Forall tame l -> NoDup (tags_of l) -> Forall tame (optimised l) /\ NoDup (tags_of (optimised l)) /\ refines l (optimised l).
Proof.
  intros Hl Hnd. pose proof (tame_safe l Hl) as Hs. split_and!; [by apply optimised_tame | by rewrite (tags_optimised X V HV HT) |].
  intros n r c out s He. by apply (optimised_run X V HV HT HI n l l) in He.
Qed.

Lemma loop_correct l :
  Forall tame l -> NoDup (tags_of l) ->
  exists fuel l', optimise_loop fuel l = Some l' /\ optimise l' = Some None /\ refines l l'.
Proof.
  remember (length l) as k eqn:Hk. revert l Hk. induction (lt_wf k) as [k _ IHk]. intros l Hk Hl Hnd.
  destruct (items_bytesRequired_tame l Hl) as (m & Hm & Hm0).
  revert l Hk Hl Hnd Hm. induction (Z.lt_wf 0 m) as [m _ IHm]. intros l Hk Hl Hnd Hm.
  assert (forall fuel l', optimise l = Some (Some (optimised l)) -> refines (optimised l) l' ->
    optimise_loop fuel (optimised l) = Some l' -> optimise l' = Some None ->
    exists fuel l', optimise_loop fuel l = Some l' /\ optimise l' = Some None /\ refines l l') as Hgo.
  { intros fuel l' Ho Hr Hf Hend. exists (S fuel), l'. cbn [optimise_loop]. rewrite Ho. cbn. split_and!; [done | done |].
    apply (refines_trans l (optimised l)); [by apply optimised_Forall | apply (loop_step l Hl Hnd) | done]. }
  destruct (optimise_cases l Hl) as [E | [E Hsm]].
  - exists 1%nat, l. cbn [optimise_loop]. rewrite E. split_and!; [done | done |]. apply refines_refl.
  - destruct (loop_step l Hl Hnd) as (Hl' & Hnd' & _). destruct Hsm as [Hlt | (Heq & n & n' & E1 & E2 & Hn)].
    + destruct (IHk (length (optimised l)) ltac:(lia) (optimised l) eq_refl Hl' Hnd') as (fuel & l' & H1 & H2 & H3).
      by apply (Hgo fuel l').
    + rewrite E1 in Hm. injection Hm as ->.
      destruct (IHm n' ltac:(lia) ltac:(lia) (optimised l) ltac:(lia) Hl' Hnd' E2) as (fuel & l' & H1 & H2 & H3).
      by apply (Hgo fuel l').
Qed.
End Loop.

(** C7: Repeated peephole optimisation ends, and what it leaves does what the
    items did.  A run of an assembly's items on the machine that halts, with its
    return code, output and state, is one of the optimised items, with the same
    gas and with at least as much gas left over; only where there is an ADDMOD
    or MULMOD, whose removal can cost more than it, more gas may be needed.  The
    constants are single words and no library address is among the items, as
    the rules suppose; tags are unique; no item looks at the gas (GAS, calls
    and creations) or at its position (PC); and tags and data have the same
    values, and CODECOPY and CODESIZE see the same code, before and after. *)
Theorem peephole_correct {H} (X : Ctx H) V l :
  (forall v, V (Push v) = v) -> (forall v, inw 32 (V (PushTag v))) ->
  (forall v w, inw 32 v -> inw 32 w -> V (PushTag v) = V (PushTag w) -> v = w) ->
  Forall tame l -> NoDup (tags_of l) ->
  exists fuel l', optimise_loop fuel l = Some l' /\ optimise l' = Some None /\
    forall n (r : rstate H) c out s, prun X V n l l r = Some (c, out, s) ->
      exists k d n', (0 <= k /\ (Forall frugal l -> k = 0)) /\ 0 <= d /\ prun X V n' l' l' (more k r) = Some (c, out, more d s).
Proof.
  intros HV HT HI Hl Hnd. destruct (loop_correct X V HV HT HI l Hl Hnd) as (fuel & l' & H1 & H2 & H3). by exists fuel, l'.
Qed.

Definition plain_values (i : AssemblyItem) : Z := match i with Push v => v | PushTag v => wrap 32 v | _ => 0 end.

(** [7 + 1], a jump to the next item, dead code, and the sum returned. *)
Definition peep_demo : list AssemblyItem :=
  [Push 7; Push 1; Push 1; Operation Op.POP; Operation Op.ADD; PushTag 1; Operation Op.JUMP; Tag 1; Push 0; Operation Op.MSTORE;
   Push 16; Push 0; Operation Op.RETURN; Push 5; Operation Op.POP].

Lemma peephole_correct_witness :
  (Forall tame peep_demo /\ Forall frugal peep_demo) /\
  exists fuel l', optimise_loop fuel peep_demo = Some l' /\ optimise l' = Some None /\
    exists d n' s, 0 <= d /\ prun (null_ctx 0 []) plain_values n' l' l' (mkR [] 1000 [] [] ()) = Some (Return, be_bytes 16 8, more d s).
Proof.
  assert (Forall tame peep_demo) as Ht.
  { apply Forall_forall. intros i Hi. cbn in Hi.
    destruct_or! Hi; subst i; unfold tame, narrow, unaware, inw, Op.POP, Op.ADD, Op.JUMP, Op.MSTORE, Op.RETURN; split_and!; try done; try lia. }
  assert (Forall frugal peep_demo) as Hf.
  { apply Forall_forall. intros i Hi. cbn in Hi. destruct_or! Hi; subst i; split; discriminate. }
  split; [split; [exact Ht | exact Hf] |]. destruct (peephole_correct (null_ctx 0 []) plain_values peep_demo) as (fuel & l' & H1 & H2 & H3).
  - reflexivity.
  - intros v. apply wrap_inw. lia.
  - intros v w Hv Hw. cbn [plain_values]. by rewrite !wrap_small.
  - exact Ht.
  - apply (bool_decide_unpack _). vm_compute. exact I.
  - exists fuel, l'. split; [exact H1 |]. split; [exact H2 |].
    destruct (prun (null_ctx 0 []) plain_values 20 peep_demo peep_demo (mkR [] 1000 [] [] ())) as [[[c out] s] |] eqn:E; [| vm_compute in E; discriminate E].
    assert (c = Return /\ out = be_bytes 16 8) as [-> ->] by (vm_compute in E; injection E as <- <- _; split; reflexivity).
    destruct (H3 20%nat _ _ _ _ E) as (k & d & n' & [_ Hk] & Hd & Hr). rewrite (Hk Hf), more_0 in Hr. exists d, n', s. split; [exact Hd | exact Hr].
Defined.

(** What the passes make of the example. *)
Example peep_demo_optimised :
  optimise_loop 10 peep_demo =
    Some [Push 7; Push 1; Operation Op.ADD; Tag 1; Push 0; Operation Op.MSTORE; Push 16; Push 0; Operation Op.RETURN].
Proof. vm_compute. reflexivity. Qed.

(** The gas may indeed go up: on Aion ADDMOD costs as much as a single POP, and
    the rule for an operation whose result is dropped writes three of them. *)
Theorem peephole_costs_more :
  exists l l', optimise l = Some (Some l') /\
    (fst <$> prun (null_ctx 0 []) plain_values 20 l l (mkR [] 5 [] [] ())) = Some (Stop, []) /\
    (forall n, prun (null_ctx 0 []) plain_values n l' l' (mkR [] 5 [] [] ()) = None).
Proof.
  exists [Push 1; Push 2; Push 3; Operation Op.ADDMOD; Operation Op.POP; Operation Op.STOP; Push 0; Push 0].
  eexists. split; [vm_compute; reflexivity |]. split; [vm_compute; reflexivity |].
  intros n. do 12 (destruct n as [| n]; [reflexivity |]). reflexivity.
Qed.

(** The rules take an item for one word on the stack also where it is two:
    a constant of more than 16 bytes with a POP after it is dropped, although
    the POP removes only its upper half, and the program returns another word. *)
Theorem peephole_wide_constant :
  exists l l', optimise l = Some (Some l') /\
    (fst <$> prun (null_ctx 0 []) plain_values 20 l l (mkR [] 1000 [] [] ())) = Some (Return, be_bytes 16 0) /\
    (fst <$> prun (null_ctx 0 []) plain_values 20 l' l' (mkR [] 1000 [] [] ())) = Some (Return, be_bytes 16 7).
Proof.
  exists [Push 7; Push (2 ^ 128); Operation Op.POP; Push 0; Operation Op.MSTORE; Push 16; Push 0; Operation Op.RETURN].
  eexists. split; [vm_compute; reflexivity |]. vm_compute. split; reflexivity.
Qed.
