(* ===== verification/Transaction.v ===== *)
(** * Executing a transaction

    modFastVM/src/org/aion/fastvm/FastVirtualMachine.java with its helpers
    TransactionUtil, TransactionResultUtil, CapabilitiesProvider and
    ExecutionContext.fromTransaction: the rejection checks, the energy fee, the
    execution in a world state of its own, and what is committed.  The world
    state is the class [ExternalState] with the further methods of the
    interface that are used here.  A child world state without changes of its
    own shows its parent, so the grandchild, which is created before the fee is
    deducted and first used after, is created where it is first used. *)
From stdpp Require Import gmap.
From S2P Require Import Prelude Bytes JavaData SideEffects ExecutionContext Callback.
Import FastVmResultCode(FastVmResultCode) TransactionKind(TransactionKind) SideEffects(SideEffects).
Import C(ExecutionContext) R(FastVmTransactionResult, mkTxResult).

(** [org.aion.types.Transaction]; absent data is empty. *)
Record Transaction := mkTransaction {
  tx_isCreate : bool;
  senderAddress : list Z;
  destinationAddress : list Z;   (* null for a creation *)
  tx_hash : list Z;
  tx_nonce : Z;
  tx_value : Z;
  tx_data : list Z;
  energyLimit : Z;   (* long *)
  energyPrice : Z    (* long *)
}.

Module TransactionUtil.
Definition zeroBytesInData (data : list Z) : Z := Z.of_nat (length (filter (fun b => b = 0) data)).
Definition nonZeroBytesInData (data : list Z) : Z := Z.of_nat (length data) - zeroBytesInData data.
Definition computeTransactionCost (tx : Transaction) : Z :=
  (if tx_isCreate tx then FvmConstants.CREATE_TRANSACTION_FEE else 0) + FvmConstants.TRANSACTION_BASE_FEE
  + zeroBytesInData (tx_data tx) * FvmConstants.ZERO_BYTE_FEE
  + nonZeroBytesInData (tx_data tx) * FvmConstants.NONZERO_BYTE_FEE.
End TransactionUtil.

(** The subtraction of two [long] numbers. *)
Definition long_sub (a b : Z) : Z := sgn 64 (wrap 64 (a - b)).

(** [TransactionStatus] and the result of a transaction. *)
Inductive TransactionStatus := Successful | Rejection | RevertedFailure | NonRevertedFailure | Fatal.
Record FvmWrappedTransactionResult := mkWrapped {
  status : TransactionStatus;
  result_logs : list Log;
  result_internalTransactions : list InternalTransaction;
  energyUsed : Z;
  result_output : list Z;
  deletedAddresses : list (list Z)
}.

Module TransactionResultUtil.
Definition transactionStatusFromFvmResultCode (c : FastVmResultCode) : TransactionStatus :=
  if FastVmResultCode.isSuccess c then Successful
  else if FastVmResultCode.isRejected c then Rejection
  else if FastVmResultCode.isRevert c then RevertedFailure
  else if FastVmResultCode.isFailed c then NonRevertedFailure
  else Fatal.
Definition createFvmWrappedTransactionResult (c : FastVmResultCode) (txs : list InternalTransaction) (logs : list Log)
  (used : Z) (out : list Z) (deleted : list (list Z)) : FvmWrappedTransactionResult :=
  mkWrapped (transactionStatusFromFvmResultCode c) logs txs used out deleted.
Definition createWithCodeAndEnergyRemaining (c : FastVmResultCode) (used : Z) : FvmWrappedTransactionResult :=
  mkWrapped (transactionStatusFromFvmResultCode c) [] [] used [] [].
End TransactionResultUtil.

(** The methods of [IExternalStateForFvm] that only transactions use. *)
Class TransactionState (S : Type) `{ExternalState S} := {
  isValidEnergyLimitForCreate : S -> Z -> list Z -> bool;
  isValidEnergyLimitForNonCreate : S -> Z -> list Z -> bool;
  accountNonceEquals : S -> list Z -> Z -> bool;
  accountBalanceIsAtLeast : S -> list Z -> Z -> bool;
  deductEnergyCost : list Z -> Z -> S -> S;
  hasStorage : S -> list Z -> bool;
  setVmType : list Z -> S -> S;
  getMinerAddress : S -> list Z;
  getBlockNumber : S -> Z;
  getBlockTimestamp : S -> Z;
  getBlockEnergyLimit : S -> Z;
  getBlockDifficulty : S -> list Z
}.

(** The static state: the objects and the stack of Callback, and whether
    CapabilitiesProvider holds capabilities. *)
Record statics (N S : Type) := mkStatics { machine : jvm N S; installed : bool }.
Arguments mkStatics {N S}.
Arguments machine {N S}.
Arguments installed {N S}.

Definition program (N S A : Type) : Type := statics N S -> option A * statics N S.
#[global] Instance program_ret N S : MRet (program N S) := fun _ a j => (Some a, j).
#[global] Instance program_bind N S : MBind (program N S) := fun _ _ f m j =>
  match m j with (Some a, j) => f a j | (None, j) => (None, j) end.

Section Transaction.
Context {N S : Type} `{TransactionState S}.
Context (computeNewContractAddress : list Z -> Z -> list Z).
Context (native_run : bool -> list Z -> list Z -> method N S (list Z)).

Abbreviation P := (program N S).

Definition raise {A} : P A := fun j => (None, j).

(** A method of the objects and the stack. *)
Definition on_machine {A} (m : method N S A) : P A := fun j =>
  let '(a, st) := m (machine j) in (a, mkStatics st (installed j)).

Definition installExternalCapabilities : P () := fun j =>
  if installed j then (None, j) else (Some (), mkStatics (machine j) true).
Definition removeExternalCapabilities : P () := fun j => (Some (), mkStatics (machine j) false).

(** [ExecutionContext.fromTransaction]; a value that is not a data word throws. *)
Definition fromTransaction (tx : Transaction) (contract : option (list Z)) (miner : list Z)
  (number timestamp limit : Z) (difficulty : list Z) : option ExecutionContext :=
  price ← FvmDataWord.fromLong (energyPrice tx);
  let energy := long_sub (energyLimit tx) (TransactionUtil.computeTransactionCost tx) in
  value ← FvmDataWord.fromBigInteger (tx_value tx);
  let destination := if tx_isCreate tx then default [] contract else destinationAddress tx in
  let kind := if tx_isCreate tx then TransactionKind.CREATE else TransactionKind.CALL in
  Some (C.mkContext (tx_isCreate tx) (tx_hash tx) destination contract (senderAddress tx) (senderAddress tx) price energy value
    (tx_data tx) 0 kind 0 miner number timestamp limit difficulty SideEffects.new).

Definition constructTransactionContext (tx : Transaction) (contract : option (list Z)) (s : S) : option ExecutionContext :=
  fromTransaction tx contract (getMinerAddress s) (getBlockNumber s) (getBlockTimestamp s) (getBlockEnergyLimit s) (getBlockDifficulty s).

Definition performRejectionChecks (s : S) (tx : Transaction) (result : FastVmTransactionResult) : FastVmTransactionResult :=
  let rejected code := R.setEnergyRemaining (energyLimit tx) (R.setResultCode code result) in
  let checks :=
    if negb (accountNonceEquals s (senderAddress tx) (tx_nonce tx)) then rejected FastVmResultCode.INVALID_NONCE
    else
      let transactionCost := energyPrice tx * energyLimit tx + tx_value tx in
      if negb (accountBalanceIsAtLeast s (senderAddress tx) transactionCost) then rejected FastVmResultCode.INSUFFICIENT_BALANCE
      else result in
  if tx_isCreate tx then
    if negb (isValidEnergyLimitForCreate s (energyLimit tx) (tx_data tx)) then rejected FastVmResultCode.INVALID_NRG_LIMIT
    else if isForkSignatureSwapEnabled s then rejected FastVmResultCode.REJECT_DEPLOY
    else checks
  else
    if negb (isValidEnergyLimitForNonCreate s (energyLimit tx) (tx_data tx)) then rejected FastVmResultCode.INVALID_NRG_LIMIT
    else checks.

Definition incrementNonceAndDeductEnergyCost (tx : Transaction) (s : S) : S :=
  let child := newChildExternalState s in
  let child := incrementNonce (senderAddress tx) child in
  let energyCost := energyLimit tx * energyPrice tx in
  let child := deductEnergyCost (senderAddress tx) energyCost child in
  commit child s.

(** The run of the virtual machine between installing and removing the capabilities. *)
Definition locked_run (fork040 : bool) (code : list Z) (ctx world : nat) : P FastVmTransactionResult :=
  _ ← installExternalCapabilities;
  r ← on_machine (runFork native_run fork040 code ctx world);
  _ ← removeExternalCapabilities;
  mret r.

(** The transfer of the value at the end of an execution. *)
Definition transfer (tx : Transaction) (to : list Z) (s : S) : S :=
  addBalance to (tx_value tx) (addBalance (senderAddress tx) (- tx_value tx) s).

(** Whether a creation can take the address. *)
Definition addressUsable (fork040 : bool) (a : list Z) (s : S) : bool :=
  fork040 && (length (default [] (getCode s a)) =? 0)%nat && (getNonce s a =? 0) && negb (hasStorage s a).

Definition runContractCreationTransaction (ctx world : nat) (tx : Transaction) (result : FastVmTransactionResult)
  (fork040 : bool) : P FastVmTransactionResult :=
  let contractAddress := computeNewContractAddress (senderAddress tx) (tx_nonce tx) in
  s ← on_machine (world_at world);
  if hasAccountState s contractAddress && negb (addressUsable fork040 contractAddress s)
  then mret (R.setEnergyRemaining 0 (R.setResultCode FastVmResultCode.FAILURE result))
  else
    _ ← on_machine (if hasAccountState s contractAddress then mret tt else change_world world (createAccount contractAddress));
    _ ← on_machine (change_world world (setVmType contractAddress));
    result ←
      (if (length (tx_data tx) =? 0)%nat then mret result
       else
         newResult ← locked_run fork040 (tx_data tx) ctx world;
         _ ← on_machine (if FastVmResultCode.toInt (R.code newResult) =? FastVmResultCode.toInt FastVmResultCode.SUCCESS
                         then change_world world (putCode contractAddress (R.output newResult)) else mret tt);
         mret newResult);
    _ ← on_machine (change_world world (transfer tx contractAddress));
    mret result.

Definition runNonContractCreationTransaction (ctx world : nat) (tx : Transaction) (result : FastVmTransactionResult)
  (fork040 : bool) : P FastVmTransactionResult :=
  s ← on_machine (world_at world);
  let code := default [] (getCode s (destinationAddress tx)) in
  result ← (if (length code =? 0)%nat then mret result else locked_run fork040 code ctx world);
  _ ← on_machine (change_world world (transfer tx (destinationAddress tx)));
  mret result.

(** The account a transaction pays to. *)
Definition recipient (tx : Transaction) : list Z :=
  if tx_isCreate tx then computeNewContractAddress (senderAddress tx) (tx_nonce tx) else destinationAddress tx.

Definition transactionContext (tx : Transaction) (s : S) : option ExecutionContext :=
  constructTransactionContext tx (if tx_isCreate tx then Some (computeNewContractAddress (senderAddress tx) (tx_nonce tx)) else None) s.

(** [FastVirtualMachine.run]: the result and the world state after it. *)
Definition run (s : S) (tx : Transaction) (fork040 : bool) : P (FvmWrappedTransactionResult * S) :=
  match transactionContext tx s with
  | None => raise
  | Some c =>
      let child := newChildExternalState s in
      let result := R.make FastVmResultCode.SUCCESS (long_sub (energyLimit tx) (TransactionUtil.computeTransactionCost tx)) [] in
      let result := performRejectionChecks child tx result in
      if negb (FastVmResultCode.isSuccess (R.code result))
      then mret (TransactionResultUtil.createWithCodeAndEnergyRemaining (R.code result)
                   (long_sub (energyLimit tx) (R.energyRemaining result)), s)
      else
        let child := incrementNonceAndDeductEnergyCost tx child in
        ctx ← on_machine (new_context c);
        world ← on_machine (new_world (newChildExternalState child));
        result ←
          (if tx_isCreate tx then runContractCreationTransaction ctx world tx result fork040
           else runNonContractCreationTransaction ctx world tx result fork040);
        grandChild ← on_machine (world_at world);
        c ← on_machine (context_at ctx);
        let child := if FastVmResultCode.isSuccess (R.code result) then commit grandChild child else child in
        let s := if FastVmResultCode.isRejected (R.code result) then s else commit child s in
        let effects := C.sideEffects c in
        mret (TransactionResultUtil.createFvmWrappedTransactionResult (R.code result) (SideEffects.internalTxs effects)
                (SideEffects.logs effects) (long_sub (energyLimit tx) (R.energyRemaining result)) (R.output result)
                (SideEffects.getAddressesToBeDeleted effects), s)
  end.
End Transaction.

(** ** What a transaction does to the world *)

Section Fees.
Context {S : Type} `{TransactionState S}.

(** What the code relies on of the methods used here: the fee is deducted, the
    balance test compares, an account without state has no balance, and nonces
    count. *)
Record transactions_ok : Prop := {
  tr_deduct a v s b : balance (deductEnergyCost a v s) b = balance s b - (if decide (a = b) then v else 0);
  tr_vm a s b : balance (setVmType a s) b = balance s b;
  tr_least s a v : accountBalanceIsAtLeast s a v = (v <=? balance s a);
  tr_none s a : hasAccountState s a = false -> balance s a = 0;
  tr_nonce a s b : getNonce (incrementNonce a s) b = getNonce s b + (if decide (a = b) then 1 else 0);
  tr_nonce_child s a : getNonce (newChildExternalState s) a = getNonce s a;
  tr_nonce_commit child s a : getNonce (commit child s) a = getNonce child a;
  tr_nonce_deduct a v s b : getNonce (deductEnergyCost a v s) b = getNonce s b
}.

Definition fee (tx : Transaction) : Z := energyLimit tx * energyPrice tx.

(** The world after the fee, and the one in which the code of a transaction runs. *)
Definition charged (tx : Transaction) (s : S) : S := incrementNonceAndDeductEnergyCost tx (newChildExternalState s).

(** A transaction that passes the checks. *)
Definition acceptable (tx : Transaction) (s : S) : Prop :=
  (if tx_isCreate tx then isValidEnergyLimitForCreate s (energyLimit tx) (tx_data tx) = true /\ isForkSignatureSwapEnabled s = false
   else isValidEnergyLimitForNonCreate s (energyLimit tx) (tx_data tx) = true) /\
  accountNonceEquals s (senderAddress tx) (tx_nonce tx) = true /\ fee tx + tx_value tx <= balance s (senderAddress tx).

Context (HB : balances_ok (S := S)) (HT : transactions_ok).

Lemma charged_balance tx s a :
  balance (charged tx s) a = balance s a - (if decide (senderAddress tx = a) then fee tx else 0).
Proof.
  unfold charged, incrementNonceAndDeductEnergyCost. by rewrite (bal_commit HB), (tr_deduct HT), (bal_nonce HB), !(bal_child HB).
Qed.

Lemma charged_nonce tx s a :
  getNonce (charged tx s) a = getNonce s a + (if decide (senderAddress tx = a) then 1 else 0).
Proof.
  unfold charged, incrementNonceAndDeductEnergyCost.
  by rewrite (tr_nonce_commit HT), (tr_nonce_deduct HT), (tr_nonce HT), !(tr_nonce_child HT).
Qed.

Lemma transfer_balance tx to s a :
  balance (transfer tx to s) a = balance s a - (if decide (senderAddress tx = a) then tx_value tx else 0) + (if decide (to = a) then tx_value tx else 0).
Proof. unfold transfer. rewrite !(bal_add HB). destruct (decide (senderAddress tx = a)), (decide (to = a)); lia. Qed.

(** The checks decide [acceptable]; a result that fails them has a rejection code and all of its energy. *)
Lemma checks_spec s tx result : R.code result = FastVmResultCode.SUCCESS ->
  (acceptable tx s /\ performRejectionChecks s tx result = result) \/
  (~ acceptable tx s /\ FastVmResultCode.category (R.code (performRejectionChecks s tx result)) = FastVmResultCode.CRejected /\
   R.energyRemaining (performRejectionChecks s tx result) = energyLimit tx).
Proof.
  intros Hc. unfold performRejectionChecks, acceptable. rewrite (tr_least HT). unfold fee. rewrite (Z.mul_comm (energyPrice tx)).
  destruct (tx_isCreate tx); [destruct (isValidEnergyLimitForCreate _ _ _), (isForkSignatureSwapEnabled s) | destruct (isValidEnergyLimitForNonCreate _ _ _)];
    cbn [negb]; destruct (accountNonceEquals _ _ _); cbn [negb];
    destruct (Z.leb_spec (energyLimit tx * energyPrice tx + tx_value tx) (balance s (senderAddress tx))); cbn [negb];
    first [by left | by right; split; [intros (Hv & Hn & Hb); first [done | lia | by destruct Hv] | split; reflexivity]].
Qed.
End Fees.

Section Runs.
Context {N S : Type} `{TransactionState S}.
Context (computeNewContractAddress : list Z -> Z -> list Z).
Context (native_run : bool -> list Z -> list Z -> method N S (list Z)).
Context (HB : balances_ok (S := S)) (HT : transactions_ok (S := S)).

Abbreviation run := (run computeNewContractAddress native_run).
Abbreviation recipient := (recipient computeNewContractAddress).

Lemma bind_program {A B} (m : program N S A) (f : A -> program N S B) j b j' :
  (m ≫= f) j = (Some b, j') -> exists a j1, m j = (Some a, j1) /\ f a j1 = (Some b, j').
Proof. unfold mbind, program_bind. destruct (m j) as [[a |] j1]; [eauto | done]. Qed.
Lemma bind_machine {A B} (m : method N S A) (f : A -> program N S B) j a st :
  m (machine j) = (Some a, st) -> (on_machine m ≫= f) j = f a (mkStatics st (installed j)).
Proof. intros E. unfold on_machine, mbind, program_bind. by rewrite E. Qed.

(** What a failed execution leaves: the fee is taken and the nonce counted. *)
Definition only_fee (tx : Transaction) (s s' : S) : Prop :=
  forall a, balance s' a = balance s a - (if decide (senderAddress tx = a) then fee tx else 0) /\
            getNonce s' a = getNonce s a + (if decide (senderAddress tx = a) then 1 else 0).

(** What happens to the world when the execution has ended with a code and a world of its own. *)
Definition settled (tx : Transaction) (c : FastVmResultCode) (grandChild s : S) : S :=
  let child := if FastVmResultCode.isSuccess c then commit grandChild (charged tx s) else charged tx s in
  if FastVmResultCode.isRejected c then s else commit child s.

(** A run that passes the checks. *)
Lemma run_accepted tx fork040 s j res s' j' :
  acceptable tx (newChildExternalState s) -> run s tx fork040 j = (Some (res, s'), j') ->
  exists c grandChild j1 result ctx world,
    (if tx_isCreate tx
     then runContractCreationTransaction computeNewContractAddress native_run ctx world tx
            (R.make FastVmResultCode.SUCCESS (long_sub (energyLimit tx) (TransactionUtil.computeTransactionCost tx)) []) fork040
     else runNonContractCreationTransaction native_run ctx world tx
            (R.make FastVmResultCode.SUCCESS (long_sub (energyLimit tx) (TransactionUtil.computeTransactionCost tx)) []) fork040)
      (mkStatics (mkJvm (contexts (machine j) ++ [c]) (worlds (machine j) ++ [newChildExternalState (charged tx s)])
                    (stack (machine j)) (library (machine j))) (installed j)) = (Some result, j1) /\
    ctx = length (contexts (machine j)) /\ world = length (worlds (machine j)) /\
    worlds (machine j1) !! world = Some grandChild /\ j' = j1 /\
    status res = TransactionResultUtil.transactionStatusFromFvmResultCode (R.code result) /\
    energyUsed res = long_sub (energyLimit tx) (R.energyRemaining result) /\ s' = settled tx (R.code result) grandChild s.
Proof.
  intros Hacc. unfold Transaction.run. destruct (transactionContext _ tx s) as [c |]; [| done].
  destruct (checks_spec HT (newChildExternalState s) tx (R.make FastVmResultCode.SUCCESS
    (long_sub (energyLimit tx) (TransactionUtil.computeTransactionCost tx)) []) eq_refl) as [[_ ->] | [Hno _]]; [| done].
  cbn [R.code R.make FastVmResultCode.category negb]. intros Hr.
  erewrite bind_machine in Hr by reflexivity. erewrite bind_machine in Hr by reflexivity.
  apply bind_program in Hr as (result & j1 & Hr & Hfin). apply bind_program in Hfin as (g & j2 & Hg & Hfin).
  apply bind_program in Hfin as (c' & j3 & Hc' & Hfin). injection Hfin as <- <- <-.
  unfold on_machine, world_at in Hg. destruct (worlds (machine j1) !! _) as [g' |] eqn:Eg; [| done]. injection Hg as -> <-.
  unfold on_machine, context_at in Hc'. destruct (contexts _ !! _); [| done]. injection Hc' as -> <-.
  exists c, g, j1, result, (length (contexts (machine j))), (length (worlds (machine j))).
  split_and!; try done. by destruct j1 as [[] ].
Qed.

(** A run that returns either rejected the transaction or settled its execution. *)
Lemma transaction_cases tx fork040 s j res s' j' :
  run s tx fork040 j = (Some (res, s'), j') ->
  (status res = Rejection /\ s' = s) \/
  (fee tx + tx_value tx <= balance s (senderAddress tx) /\ exists c grandChild j1 result,
    (if tx_isCreate tx
     then runContractCreationTransaction computeNewContractAddress native_run (length (contexts (machine j))) (length (worlds (machine j))) tx
            (R.make FastVmResultCode.SUCCESS (long_sub (energyLimit tx) (TransactionUtil.computeTransactionCost tx)) []) fork040
     else runNonContractCreationTransaction native_run (length (contexts (machine j))) (length (worlds (machine j))) tx
            (R.make FastVmResultCode.SUCCESS (long_sub (energyLimit tx) (TransactionUtil.computeTransactionCost tx)) []) fork040)
      (mkStatics (mkJvm (contexts (machine j) ++ [c]) (worlds (machine j) ++ [newChildExternalState (charged tx s)])
                    (stack (machine j)) (library (machine j))) (installed j)) = (Some result, j1) /\
    worlds (machine j1) !! length (worlds (machine j)) = Some grandChild /\ j' = j1 /\ s' = settled tx (R.code result) grandChild s /\
    status res = TransactionResultUtil.transactionStatusFromFvmResultCode (R.code result)).
Proof.
  intros Hr. pose proof Hr as Hr'. unfold Transaction.run in Hr'. destruct (transactionContext _ tx s) as [c |] eqn:Hctx; [| done].
  destruct (checks_spec HT (newChildExternalState s) tx (R.make FastVmResultCode.SUCCESS
    (long_sub (energyLimit tx) (TransactionUtil.computeTransactionCost tx)) []) eq_refl) as [[Hacc _] | (_ & Hcat & _)].
  - right. destruct (run_accepted tx fork040 s j res s' j' Hacc Hr) as (c' & g & j1 & r & ctx & w & H1 & -> & -> & H2 & H3 & H4 & _ & H5).
    split; [destruct Hacc as (_ & _ & Hf); by rewrite (bal_child HB) in Hf |]. by exists c', g, j1, r.
  - left. rewrite Hcat in Hr'. cbn [negb] in Hr'. injection Hr' as <- <- _. split; [| done].
    cbn [status TransactionResultUtil.createWithCodeAndEnergyRemaining]. unfold TransactionResultUtil.transactionStatusFromFvmResultCode. by rewrite Hcat.
Qed.

(** A transaction without code to run. *)
Definition no_code (tx : Transaction) (fork040 : bool) (s : S) : Prop :=
  let g := newChildExternalState (charged tx s) in
  if tx_isCreate tx then tx_data tx = [] /\ (hasAccountState g (recipient tx) = true -> addressUsable fork040 (recipient tx) g = true)
  else default [] (getCode g (destinationAddress tx)) = [].

Lemma cost_nonneg tx : 0 <= TransactionUtil.computeTransactionCost tx.
Proof.
  unfold TransactionUtil.computeTransactionCost, TransactionUtil.nonZeroBytesInData, TransactionUtil.zeroBytesInData.
  pose proof (length_filter (fun b => b = 0) (tx_data tx)). destruct (tx_isCreate tx); lia.
Qed.
Lemma used_cost tx : TransactionUtil.computeTransactionCost tx <= energyLimit tx < 2 ^ 63 ->
  long_sub (energyLimit tx) (R.energyRemaining (R.make FastVmResultCode.SUCCESS
    (long_sub (energyLimit tx) (TransactionUtil.computeTransactionCost tx)) [])) = TransactionUtil.computeTransactionCost tx.
Proof.
  intros Hl. pose proof (cost_nonneg tx) as Hc. set (cost := TransactionUtil.computeTransactionCost tx) in *. clearbody cost.
  assert (Hs : forall x y, 0 <= x - y < 2 ^ 63 -> long_sub x y = x - y) by (intros x y Hxy; apply sgn_wrap_small; simpl; lia).
  unfold R.make. cbn [R.energyRemaining]. rewrite (Hs (energyLimit tx) cost), Z.max_l, Hs by lia. lia.
Qed.

Lemma alter_last {A} (f : A -> A) (l : list A) x : alter f (length l) (l ++ [x]) = l ++ [f x].
Proof. induction l as [| y l IH]; [done |]. cbn. f_equal. exact IH. Qed.

Lemma world_at_last cs (l : list S) g st (n : N) : world_at (length l) (mkJvm cs (l ++ [g]) st n) = (Some g, mkJvm cs (l ++ [g]) st n).
Proof. unfold world_at. cbn [worlds]. by rewrite list_lookup_middle. Qed.
Lemma context_at_last cs c (l : list S) st (n : N) : context_at (length cs) (mkJvm (cs ++ [c]) l st n) = (Some c, mkJvm (cs ++ [c]) l st n).
Proof. unfold context_at. cbn [contexts]. by rewrite list_lookup_middle. Qed.

Lemma run_no_code tx fork040 s j c :
  transactionContext computeNewContractAddress tx s = Some c -> acceptable tx (newChildExternalState s) -> no_code tx fork040 s ->
  exists res s' j', run s tx fork040 j = (Some (res, s'), j') /\ status res = Successful /\
    (TransactionUtil.computeTransactionCost tx <= energyLimit tx < 2 ^ 63 -> energyUsed res = TransactionUtil.computeTransactionCost tx) /\
    installed j' = installed j /\ stack (machine j') = stack (machine j) /\
    forall a, balance s' a = balance s a - (if decide (senderAddress tx = a) then fee tx + tx_value tx else 0)
                             + (if decide (recipient tx = a) then tx_value tx else 0).
Proof.
  intros Hctx Hacc Hno. unfold Transaction.run. rewrite Hctx.
  destruct (checks_spec HT (newChildExternalState s) tx (R.make FastVmResultCode.SUCCESS
    (long_sub (energyLimit tx) (TransactionUtil.computeTransactionCost tx)) []) eq_refl) as [[_ ->] | [Hn _]]; [| done].
  cbn [R.code R.make FastVmResultCode.category negb]. fold (charged tx s).
  set (g := newChildExternalState (charged tx s)) in *.
  do 2 erewrite bind_machine by reflexivity. cbn [installed machine contexts worlds stack library new_world].
  set (w := length (worlds (machine j))). set (i := length (contexts (machine j))).
  set (j0 := mkStatics (mkJvm (contexts (machine j) ++ [c]) (worlds (machine j) ++ [g]) (stack (machine j)) (library (machine j))) (installed j)).
  assert (Hw : world_at w (machine j0) = (Some g, machine j0)) by apply world_at_last.
  assert (exists g', (if tx_isCreate tx
      then runContractCreationTransaction computeNewContractAddress native_run i w tx
             (R.make FastVmResultCode.SUCCESS (long_sub (energyLimit tx) (TransactionUtil.computeTransactionCost tx)) []) fork040
      else runNonContractCreationTransaction native_run i w tx
             (R.make FastVmResultCode.SUCCESS (long_sub (energyLimit tx) (TransactionUtil.computeTransactionCost tx)) []) fork040) j0 =
    (Some (R.make FastVmResultCode.SUCCESS (long_sub (energyLimit tx) (TransactionUtil.computeTransactionCost tx)) []),
     mkStatics (mkJvm (contexts (machine j) ++ [c]) (worlds (machine j) ++ [g']) (stack (machine j)) (library (machine j))) (installed j)) /\
    forall a, balance g' a = balance (transfer tx (recipient tx) g) a) as (g' & Hr & Hg').
  { unfold no_code, Transaction.recipient in Hno. fold g in Hno. unfold Transaction.recipient.
    destruct (tx_isCreate tx).
    - destruct Hno as [Hd Hu]. unfold runContractCreationTransaction. rewrite (bind_machine _ _ j0 g (machine j0) Hw).
      set (a := computeNewContractAddress _ _) in *.
      assert (hasAccountState g a && negb (addressUsable fork040 a g) = false) as ->
        by (destruct (hasAccountState g a); [by rewrite Hu | done]).
      exists (transfer tx a (setVmType a (if hasAccountState g a then g else createAccount a g))). split.
      + rewrite Hd. destruct (hasAccountState g a); do 2 erewrite bind_machine by reflexivity; unfold j0, w;
          cbn [installed machine contexts worlds stack library length Nat.eqb change_world]; unfold mbind, program_bind, mret, program_ret;
          cbn [on_machine change_world installed machine contexts worlds stack library]; unfold on_machine, change_world;
          cbn [installed machine contexts worlds stack library]; by rewrite !alter_last.
      + intros b. rewrite !transfer_balance by done. rewrite (tr_vm HT). destruct (hasAccountState g a) eqn:Eh; [done |].
        rewrite (bal_create HB). destruct (decide (a = b)) as [<- |]; [| done]. by rewrite (tr_none HT g a Eh).
    - exists (transfer tx (destinationAddress tx) g). split; [| done]. unfold runNonContractCreationTransaction.
      rewrite (bind_machine _ _ j0 g (machine j0) Hw), Hno. cbn [length Nat.eqb]. unfold mbind, program_bind, mret, program_ret, on_machine, change_world, j0, w.
      cbn [installed machine contexts worlds stack library]. by rewrite alter_last. }
  unfold mbind at 1, program_bind at 1. fold i w. fold j0. rewrite Hr.
  erewrite bind_machine by apply world_at_last. erewrite bind_machine by apply context_at_last.
  eexists _, _, _. split; [reflexivity |]. split; [reflexivity |]. split; [by apply used_cost |]. split; [reflexivity |]. split; [reflexivity |].
  intros a. cbn [R.code R.make FastVmResultCode.category]. rewrite !(bal_commit HB), Hg', (transfer_balance HB). unfold g.
  rewrite (bal_child HB), charged_balance by done. destruct (decide (senderAddress tx = a)); lia.
Qed.

End Runs.

(** C40: An exception in the virtual machine leaves the capabilities installed,
    and from then on every run of contract code throws: what is installed is
    not removed on that path. *)
Theorem exception_blocks {N S} `{TransactionState S} (native_run : bool -> list Z -> list Z -> method N S (list Z)) fork040 code ctx world j j' :
  locked_run native_run fork040 code ctx world j = (None, j') ->
  installed j' = true /\
  forall native_run' fork040' code' ctx' world', locked_run native_run' fork040' code' ctx' world' j' = (None, j').
Proof.
  intros Hr. assert (installed j' = true) as Hi.
  { revert Hr. unfold locked_run, mbind, program_bind, installExternalCapabilities, on_machine, removeExternalCapabilities.
    destruct j as [st i]. cbn [installed machine]. destruct i; [by intros [= <-] |].
    destruct (runFork _ _ _ _ _ _) as [[r |] st']; [done | by intros [= <-]]. }
  split; [done |]. intros. unfold locked_run, mbind, program_bind, installExternalCapabilities. by rewrite Hi.
Qed.

(** ** In the world of maps *)

#[global] Instance world_transactions : TransactionState world := {
  isValidEnergyLimitForCreate _ _ _ := true;
  isValidEnergyLimitForNonCreate _ limit _ := 21000 <=? limit;
  accountNonceEquals s a n := getNonce s a =? n;
  accountBalanceIsAtLeast s a v := v <=? balance s a;
  deductEnergyCost a v s := addBalance a (- v) s;
  hasStorage _ _ := false;
  setVmType _ s := s;
  getMinerAddress _ := replicate 32 0;
  getBlockNumber _ := 1;
  getBlockTimestamp _ := 2;
  getBlockEnergyLimit _ := 3;
  getBlockDifficulty _ := replicate 16 0
}.

Lemma world_transactions_ok : transactions_ok (S := world).
Proof.
  pose proof world_balances_ok as HB. split; intros; try done.
  - unfold deductEnergyCost, world_transactions. rewrite (bal_add HB). destruct (decide (a = b)); lia.
  - unfold balance. cbn in *. destruct (w_balance s !! a); [done | reflexivity].
  - cbn. destruct (decide (a = b)) as [-> |]; [by rewrite lookup_insert_eq | rewrite lookup_insert_ne by done; lia].
Qed.

(** Sending 5 with an energy limit of 30000, at a price of 2, to an account without code. *)
Definition payment : Transaction :=
  mkTransaction false (replicate 32 2) (replicate 32 1) (replicate 32 7) 0 5 [1; 0] 30000 2.
Definition rich : world := mkWorld {[replicate 32 2 := 100000]} ∅ ∅ ∅.
Definition at_rest : statics () world := mkStatics (mkJvm [] [] [] tt) false.


Lemma exception_blocks_witness :
  exists j', locked_run (S := world) (fun _ _ _ => throw) true [0] 0 0 (mkStatics (one_frame (null_context 0) rich) false) = (None, j') /\
    forall native_run' fork040' code' ctx' world', locked_run (S := world) native_run' fork040' code' ctx' world' j' = (None, j').
Proof.
  eexists. split; [vm_compute; reflexivity |].
  edestruct (exception_blocks (S := world) (fun _ _ _ => throw) true [0] 0 0 (mkStatics (one_frame (null_context 0) rich) false)) as [_ Hb];
    [vm_compute; reflexivity | exact Hb].
Defined.
