(* ===== verification/Text.v ===== *)
(** * Characters, strings and machine integers of Java

    What the Java sources use of [java.lang.String], [Integer], [BigInteger]
    and [Arrays]: a string is the list of its UTF-16 code units, an exception
    is [None].  [js] writes a literal. *)
From stdpp Require Import strings.
From S2P Require Import Prelude Bytes JavaData.
Open Scope list_scope.
Open Scope Z_scope.

Abbreviation jstring := (list Z).

(** The characters of a string literal. *)
Fixpoint js (s : string) : jstring :=
  match s with EmptyString => [] | String c s => Z.of_nat (Ascii.nat_of_ascii c) :: js s end.

Abbreviation zlen l := (Z.of_nat (length l)).

(** ** Machine integers *)

(** The [int] a number is reduced to. *)
Definition to_int (z : Z) : Z := sgn 32 (wrap 32 z).
Definition iadd (a b : Z) : Z := to_int (a + b).
Definition imul (a b : Z) : Z := to_int (a * b).

Lemma to_int_small z : - 2 ^ 31 <= z < 2 ^ 31 -> to_int z = z.
Proof. intros Hz. apply sgn_wrap_small; lia. Qed.

(** ** Searching *)

(** [s.indexOf(c, from)], without a match [None] instead of -1. *)
Fixpoint indexOf (c : Z) (s : jstring) : option nat :=
  match s with
  | [] => None
  | x :: s => if x =? c then Some 0%nat else S <$> indexOf c s
  end.
Definition indexOf_from (c : Z) (from : nat) (s : jstring) : option nat :=
  (fun n => (from + n)%nat) <$> indexOf c (drop from s).
Definition contains (c : Z) (s : jstring) : bool := match indexOf c s with Some _ => true | None => false end.
Fixpoint startsWith (p s : jstring) : bool :=
  match p, s with
  | [], _ => true
  | x :: p, y :: s => (x =? y) && startsWith p s
  | _, _ => false
  end.
Definition equals (a b : jstring) : bool := bool_decide (a = b).

Lemma indexOf_app c a b : ~ In c a -> indexOf c (a ++ c :: b) = Some (length a).
Proof.
  induction a as [| x a IH]; cbn; intros Hn; [by rewrite Z.eqb_refl |].
  destruct (Z.eqb_spec x c) as [-> |]; [tauto |]. by rewrite IH by tauto.
Qed.
Lemma indexOf_none c a : ~ In c a -> indexOf c a = None.
Proof.
  induction a as [| x a IH]; cbn; intros Hn; [done |]. destruct (Z.eqb_spec x c) as [-> |]; [tauto |]. by rewrite IH by tauto.
Qed.
Lemma indexOf_some c s i : indexOf c s = Some i -> exists a b, s = a ++ c :: b /\ length a = i /\ ~ In c a.
Proof.
  revert i. induction s as [| x s IH]; cbn; intros i; [done |]. destruct (Z.eqb_spec x c) as [-> | Hx].
  - intros [= <-]. exists [], s. split; [done |]. split; [done |]. cbn. tauto.
  - destruct (indexOf c s) as [k |]; [| done]. intros [= <-]. destruct (IH k eq_refl) as (a & b & -> & <- & Hn).
    exists (x :: a), b. split; [done |]. split; [done |]. cbn. tauto.
Qed.

(** ** Numbers *)

(** [Character.digit] on the characters of ASCII; others are not digits. *)
Definition digit (radix c : Z) : option Z :=
  let d := if (48 <=? c) && (c <=? 57) then c - 48
           else if (97 <=? c) && (c <=? 122) then c - 87
           else if (65 <=? c) && (c <=? 90) then c - 55 else radix in
  if d <? radix then Some d else None.

Fixpoint digits (radix acc : Z) (s : jstring) : option Z :=
  match s with
  | [] => Some acc
  | c :: s => d ← digit radix c; digits radix (acc * radix + d) s
  end.

(** [new BigInteger(s, radix)]: a sign, then at least one digit. *)
Definition parseBigInteger (s : jstring) (radix : Z) : option Z :=
  match s with
  | [] => None
  | 45 :: (_ :: _) as s => Z.opp <$> digits radix 0 (tail s)
  | 43 :: (_ :: _) as s => digits radix 0 (tail s)
  | _ => digits radix 0 s
  end.

(** [Integer.parseInt(s)]. *)
Definition parseInt (s : jstring) : option Z :=
  n ← parseBigInteger s 10; if (- 2 ^ 31 <=? n) && (n <? 2 ^ 31) then Some n else None.

(** The decimal digits of a number, as string concatenation writes them. *)
Fixpoint decimal_digits (fuel : nat) (n : Z) (acc : jstring) : jstring :=
  match fuel with
  | O => acc
  | S fuel => let acc := (48 + n mod 10) :: acc in if n <? 10 then acc else decimal_digits fuel (n / 10) acc
  end.
Definition decimal (n : Z) : jstring :=
  if n <? 0 then 45 :: decimal_digits (S (Z.to_nat (Z.log2 (- n)))) (- n) [] else decimal_digits (S (Z.to_nat (Z.log2 n))) n [].

(** [s.toLowerCase()] and [s.trim()]. *)
Definition toLowerCase (s : jstring) : jstring := (fun c => if (65 <=? c) && (c <=? 90) then c + 32 else c) <$> s.
Fixpoint trim_front (s : jstring) : jstring :=
  match s with c :: t => if c <=? 32 then trim_front t else s | [] => [] end.
Definition trim (s : jstring) : jstring := reverse (trim_front (reverse (trim_front s))).

(** ** Arrays *)

(** [Arrays.copyOfRange(l, from, to)], with zeros past the end. *)
Definition copyOfRange (l : list Z) (from to : Z) : option (list Z) :=
  if (from <? 0) || (zlen l <? from) || (to <? from) then None
  else let s := take (Z.to_nat (to - from)) (drop (Z.to_nat from) l) in
       Some (s ++ replicate (Z.to_nat (to - from) - length s) 0).

(** [new byte\[n\]] with [l] copied to its start. *)
Definition copied (n : Z) (l : list Z) : option (list Z) :=
  if (n <? 0) || (n <? zlen l) then None else Some (l ++ replicate (Z.to_nat n - length l) 0).

(** [ArrayUtils.subarray(l, from, to)]: bounds are cut to the array. *)
Definition subarray {A} (l : list A) (from to : Z) : list A :=
  take (Z.to_nat to - Z.to_nat from) (drop (Z.to_nat from) l).
