(* ===== verification/Utf8.v ===== *)
(** * UTF-8 in Java

    [String.getBytes(UTF_8)] and [new String(bytes, UTF_8)], which the ABI
    encoding of strings uses: a surrogate that is not in a pair is encoded as a
    question mark, and ill-formed bytes decode to U+FFFD, one for each longest
    ill-formed part. *)
From S2P Require Import Prelude Bytes JavaData Text.

Definition isHigh (c : Z) : bool := (0xd800 <=? c) && (c <? 0xdc00).
Definition isLow (c : Z) : bool := (0xdc00 <=? c) && (c <? 0xe000).
Definition isSurrogate (c : Z) : bool := (0xd800 <=? c) && (c <? 0xe000).

(** The code point of a surrogate pair. *)
Definition pair_point (h l : Z) : Z := 0x10000 + (h - 0xd800) * 0x400 + (l - 0xdc00).

(** The continuation byte with the bits from [2 ^ k]. *)
Definition cont (p k : Z) : Z := 0x80 + p / k mod 64.

Fixpoint getBytes (s : jstring) : list Z :=
  match s with
  | [] => []
  | c :: t =>
      if c <? 0x80 then c :: getBytes t
      else if c <? 0x800 then 0xc0 + c / 64 :: cont c 1 :: getBytes t
      else if isHigh c then
        match t with
        | d :: t' => if isLow d
            then let p := pair_point c d in 0xf0 + p / 0x40000 :: cont p 0x1000 :: cont p 64 :: cont p 1 :: getBytes t'
            else 63 :: getBytes t
        | [] => [63]
        end
      else if isLow c then 63 :: getBytes t
      else 0xe0 + c / 0x1000 :: cont c 64 :: cont c 1 :: getBytes t
  end.

Definition REPL : Z := 0xfffd.
Definition isCont (b : Z) : bool := (0x80 <=? b) && (b <? 0xc0).

(** The second byte of a sequence of three or four is in range. *)
Definition second3 (b1 b2 : Z) : bool := isCont b2 && negb ((b1 =? 0xe0) && (b2 <? 0xa0)).
Definition second4 (b1 b2 : Z) : bool :=
  isCont b2 && (b1 <=? 0xf4) && negb ((b1 =? 0xf0) && (b2 <? 0x90)) && negb ((b1 =? 0xf4) && (0x90 <=? b2)).

Fixpoint decodeUTF8 (l : list Z) : jstring :=
  match l with
  | [] => []
  | b1 :: t1 =>
      if b1 <? 0x80 then b1 :: decodeUTF8 t1
      else if (0xc2 <=? b1) && (b1 <? 0xe0) then
        match t1 with
        | b2 :: t2 => if isCont b2 then ((b1 - 0xc0) * 64 + (b2 - 0x80)) :: decodeUTF8 t2 else REPL :: decodeUTF8 t1
        | [] => [REPL]
        end
      else if (0xe0 <=? b1) && (b1 <? 0xf0) then
        match t1 with
        | b2 :: t2 =>
            if second3 b1 b2 then
              match t2 with
              | b3 :: t3 =>
                  if isCont b3 then
                    let c := (b1 - 0xe0) * 0x1000 + (b2 - 0x80) * 64 + (b3 - 0x80) in
                    (if isSurrogate c then REPL else c) :: decodeUTF8 t3
                  else REPL :: decodeUTF8 t2
              | [] => [REPL]
              end
            else REPL :: decodeUTF8 t1
        | [] => [REPL]
        end
      else if (0xf0 <=? b1) && (b1 <? 0xf8) then
        match t1 with
        | b2 :: t2 =>
            if second4 b1 b2 then
              match t2 with
              | b3 :: t3 =>
                  if isCont b3 then
                    match t3 with
                    | b4 :: t4 =>
                        if isCont b4 then
                          let p := (b1 - 0xf0) * 0x40000 + (b2 - 0x80) * 0x1000 + (b3 - 0x80) * 64 + (b4 - 0x80) in
                          (0xd800 + (p - 0x10000) / 0x400) :: (0xdc00 + p mod 0x400) :: decodeUTF8 t4
                        else REPL :: decodeUTF8 t3
                    | [] => [REPL]
                    end
                  else REPL :: decodeUTF8 t2
              | [] => [REPL]
              end
            else REPL :: decodeUTF8 t1
        | [] => [REPL]
        end
      else REPL :: decodeUTF8 t1
  end.

(** Every surrogate is in a pair. *)
Fixpoint utf16_ok (s : jstring) : bool :=
  match s with
  | [] => true
  | c :: t =>
      (0 <=? c) && (c <? 0x10000) &&
      (if isHigh c then match t with d :: t' => isLow d && utf16_ok t' | [] => false end
       else negb (isLow c) && utf16_ok t)
  end.

Ltac bools := repeat match goal with
  | H : _ && _ = true |- _ => apply andb_prop in H as [? ?]
  | H : negb _ = true |- _ => apply negb_true_iff in H
  | H : (_ <=? _) = true |- _ => apply Z.leb_le in H
  | H : (_ <? _) = true |- _ => apply Z.ltb_lt in H
  | H : (_ <? _) = false |- _ => apply Z.ltb_ge in H
  end.

Lemma isCont_cont p k : isCont (cont p k) = true.
Proof. unfold isCont, cont. pose proof (Z.mod_pos_bound (p / k) 64). apply andb_true_intro. split; [apply Z.leb_le | apply Z.ltb_lt]; lia. Qed.

(** A number is put together again from its groups of six bits. *)
Lemma join2 p : 0 <= p -> p / 64 * 64 + (cont p 1 - 0x80) = p.
Proof. intros Hp. unfold cont. rewrite Z.div_1_r. pose proof (Z.div_mod p 64). lia. Qed.
Lemma join3 p : 0 <= p -> p / 0x1000 * 0x1000 + (cont p 64 - 0x80) * 64 + (cont p 1 - 0x80) = p.
Proof.
  intros Hp. rewrite <- (join2 p) at 4 by done. unfold cont at 1. pose proof (Z.div_mod (p / 64) 64).
  rewrite Z.div_div in H by lia. replace (64 * 64) with 0x1000 in H by done. lia.
Qed.
Lemma join4 p : 0 <= p -> p / 0x40000 * 0x40000 + (cont p 0x1000 - 0x80) * 0x1000 + (cont p 64 - 0x80) * 64 + (cont p 1 - 0x80) = p.
Proof.
  intros Hp. rewrite <- (join3 p) at 5 by done. unfold cont at 1. pose proof (Z.div_mod (p / 0x1000) 64).
  rewrite Z.div_div in H by lia. replace (0x1000 * 64) with 0x40000 in H by done. lia.
Qed.

Lemma second3_cont p : 0x800 <= p < 0x10000 -> second3 (0xe0 + p / 0x1000) (cont p 64) = true.
Proof.
  intros Hp. unfold second3. rewrite isCont_cont. cbn [andb]. apply negb_true_iff, andb_false_iff.
  destruct (Z.eqb_spec (0xe0 + p / 0x1000) 0xe0) as [E |]; [right | by left]. apply Z.ltb_ge.
  pose proof (join3 p ltac:(lia)). pose proof (isCont_cont p 1) as Hc. unfold isCont in Hc. bools. lia.
Qed.

Lemma second4_cont p : 0x10000 <= p < 0x110000 -> second4 (0xf0 + p / 0x40000) (cont p 0x1000) = true.
Proof.
  intros Hp. pose proof (join4 p ltac:(lia)) as E. pose proof (isCont_cont p 1) as Hc. pose proof (isCont_cont p 64) as Hd.
  unfold second4. rewrite isCont_cont. cbn [andb]. unfold isCont in Hc, Hd. bools.
  assert (p / 0x40000 <= 4) by (apply Z.lt_succ_r, Z.div_lt_upper_bound; lia).
  rewrite (proj2 (Z.leb_le _ _)) by lia. cbn [andb].
  apply andb_true_intro. split; apply negb_true_iff, andb_false_iff.
  - destruct (Z.eqb_spec (0xf0 + p / 0x40000) 0xf0); [right; apply Z.ltb_ge; lia | by left].
  - destruct (Z.eqb_spec (0xf0 + p / 0x40000) 0xf4); [right; apply Z.leb_gt; lia | by left].
Qed.

(** A surrogate pair is recovered from its code point. *)
Lemma pair_split h l : isHigh h = true -> isLow l = true ->
  let p := pair_point h l in 0x10000 <= p < 0x110000 /\ 0xd800 + (p - 0x10000) / 0x400 = h /\ 0xdc00 + p mod 0x400 = l.
Proof.
  unfold isHigh, isLow, pair_point. intros Hh Hl. bools. split; [lia |]. split.
  - replace (0x10000 + (h - 0xd800) * 0x400 + (l - 0xdc00) - 0x10000) with ((l - 0xdc00) + (h - 0xd800) * 0x400) by lia.
    rewrite Z.div_add, Z.div_small by lia. lia.
  - replace (0x10000 + (h - 0xd800) * 0x400 + (l - 0xdc00)) with ((l - 0xdc00) + (64 + (h - 0xd800)) * 0x400) by lia.
    rewrite Z.mod_add, Z.mod_small by lia. lia.
Qed.

(** One encoded character is decoded, whatever follows. *)
Lemma decode_1 c t : 0 <= c < 0x80 -> decodeUTF8 (c :: t) = c :: decodeUTF8 t.
Proof. intros Hc. cbn [decodeUTF8]. by rewrite (proj2 (Z.ltb_lt _ _)) by lia. Qed.
Lemma decode_2 c t : 0x80 <= c < 0x800 -> decodeUTF8 (0xc0 + c / 64 :: cont c 1 :: t) = c :: decodeUTF8 t.
Proof.
  intros Hc. assert (2 <= c / 64 < 32) by (split; [apply Z.div_le_lower_bound | apply Z.div_lt_upper_bound]; lia).
  cbn [decodeUTF8]. rewrite (proj2 (Z.ltb_ge _ 0x80)), (proj2 (Z.leb_le 0xc2 _)), (proj2 (Z.ltb_lt _ 0xe0)) by lia.
  cbn [andb]. rewrite isCont_cont. f_equal. rewrite <- (join2 c) at 3 by lia. lia.
Qed.
Lemma decode_3 c t : 0x800 <= c < 0x10000 -> isSurrogate c = false ->
  decodeUTF8 (0xe0 + c / 0x1000 :: cont c 64 :: cont c 1 :: t) = c :: decodeUTF8 t.
Proof.
  intros Hc Hs. assert (0 <= c / 0x1000 < 16) by (split; [apply Z.div_pos | apply Z.div_lt_upper_bound]; lia).
  set (b1 := 0xe0 + c / 0x1000). cbn [decodeUTF8].
  rewrite (proj2 (Z.ltb_ge b1 0x80)), (proj2 (Z.ltb_ge b1 0xe0)), (proj2 (Z.leb_le 0xe0 b1)), (proj2 (Z.ltb_lt b1 0xf0)) by (unfold b1; lia).
  rewrite andb_false_r. cbn [andb]. unfold b1. rewrite second3_cont, isCont_cont by done.
  replace ((0xe0 + c / 0x1000 - 0xe0) * 0x1000 + (cont c 64 - 0x80) * 64 + (cont c 1 - 0x80)) with c
    by (rewrite <- (join3 c) at 1 by lia; lia). by rewrite Hs.
Qed.
Lemma decode_4 p t : 0x10000 <= p < 0x110000 ->
  decodeUTF8 (0xf0 + p / 0x40000 :: cont p 0x1000 :: cont p 64 :: cont p 1 :: t) =
  (0xd800 + (p - 0x10000) / 0x400) :: (0xdc00 + p mod 0x400) :: decodeUTF8 t.
Proof.
  intros Hp. assert (0 <= p / 0x40000 < 5) by (split; [apply Z.div_pos | apply Z.div_lt_upper_bound]; lia).
  set (b1 := 0xf0 + p / 0x40000). cbn [decodeUTF8]. rewrite (proj2 (Z.ltb_ge b1 0x80)), (proj2 (Z.ltb_ge b1 0xe0)),
    (proj2 (Z.ltb_ge b1 0xf0)), (proj2 (Z.leb_le 0xf0 b1)), (proj2 (Z.ltb_lt b1 0xf8)) by (unfold b1; lia).
  rewrite !andb_false_r. cbn [andb]. unfold b1. rewrite second4_cont, !isCont_cont by done.
  replace ((0xf0 + p / 0x40000 - 0xf0) * 0x40000 + (cont p 0x1000 - 0x80) * 0x1000 + (cont p 64 - 0x80) * 64 + (cont p 1 - 0x80))
    with p by (rewrite <- (join4 p) at 1 by lia; lia). done.
Qed.

(** Well-formed strings survive encoding. *)
Lemma decode_getBytes s : utf16_ok s = true -> decodeUTF8 (getBytes s) = s.
Proof.
  assert (forall n s, (length s <= n)%nat -> utf16_ok s = true -> decodeUTF8 (getBytes s) = s) as H; [| by eapply H].
  clear s. induction n as [| n IH]; intros [| c t] Hn Hs; try done; [cbn in Hn; lia |]. cbn in Hn.
  cbn [utf16_ok] in Hs. apply andb_prop in Hs as [Hc Ht]. apply andb_prop in Hc as [Hc0 Hc1]. bools.
  cbn [getBytes]. destruct (Z.ltb_spec c 0x80).
  { rewrite decode_1, IH; [done | lia | | lia]. by destruct (isHigh c) eqn:E; [unfold isHigh in E; bools; lia | bools]. }
  destruct (Z.ltb_spec c 0x800).
  { rewrite decode_2, IH; [done | lia | | lia]. by destruct (isHigh c) eqn:E; [unfold isHigh in E; bools; lia | bools]. }
  destruct (isHigh c) eqn:Eh.
  - destruct t as [| d t]; [done |]. apply andb_prop in Ht as [Hd Ht]. rewrite Hd. destruct (pair_split c d Eh Hd) as (Hp & E1 & E2).
    cbv zeta in *. rewrite decode_4, E1, E2, IH by (done || cbn in Hn; lia). done.
  - apply andb_prop in Ht as [Hd Ht]. apply negb_true_iff in Hd. rewrite Hd.
    assert (isSurrogate c = false) as Hsur.
    { unfold isHigh, isLow in *. unfold isSurrogate. apply not_true_iff_false. intros Hsu. bools.
      destruct (Z.ltb_spec c 0xdc00); rewrite (proj2 (Z.leb_le _ _)) in * by lia; cbn [andb] in *; bools; lia. }
    rewrite decode_3, IH by (done || lia). done.
Qed.
