(* ===== verification/Hex.v ===== *)
(** * Hexadecimal text in Java

    fastvm/util/HexEncoder.java and HexUtil.java: tables, encoding and
    decoding.  The decoding table is the array that the static initialiser
    fills; its bytes are signed, -1 for a character that is not a digit.  An
    exception, an index out of bounds included, is [None]. *)
From stdpp Require Import strings.
From S2P Require Import Prelude Bytes JavaData Text.
Open Scope list_scope.
Open Scope Z_scope.

Module HexEncoder.
Definition ENCODING_TABLE : list Z := js "0123456789abcdef".

(** [initializeDecodingTable]. *)
Definition DECODING_TABLE : list Z :=
  let table := replicate 128 (-1) in
  let table := fold_left (fun t i => <[Z.to_nat (nth i ENCODING_TABLE 0) := Z.of_nat i]> t) (seq 0 16) table in
  fold_left (fun t c => <[Z.to_nat c := nth (Z.to_nat (c + 32)) t 0]> t) (js "ABCDEF") table.

Abbreviation ignore c := ((c =? 10) || (c =? 13) || (c =? 9) || (c =? 32)).

Definition encode_byte (v : Z) : list Z :=
  [nth (Z.to_nat (v / 16)) ENCODING_TABLE 0; nth (Z.to_nat (v mod 16)) ENCODING_TABLE 0].
Definition encode (data : list Z) : list Z := data ≫= encode_byte.

(** The characters up to [end], the last that is not white space. *)
Fixpoint drop_ignored (s : jstring) : jstring :=
  match s with c :: t => if ignore c then drop_ignored t else s | [] => [] end.
Definition up_to_end (s : jstring) : jstring := reverse (drop_ignored (reverse s)).

(** [DECODING_TABLE\[c\]]. *)
Abbreviation table_entry c := (if c <? 0 then None else DECODING_TABLE !! Z.to_nat c).

(** The loop: [s] the characters up to [end], [rest] those behind, of which
    the second digit of a byte may be read. *)
Fixpoint decode_loop (fuel : nat) (s rest : jstring) : option (list Z) :=
  match fuel with
  | O => None
  | S fuel =>
      match s with
      | [] => Some []
      | _ =>
          match drop_ignored s with
          | [] => None
          | c1 :: s1 =>
              b1 ← table_entry c1;
              c2 ← head (drop_ignored s1 ++ rest);
              b2 ← table_entry c2;
              if (b1 <? 0) || (b2 <? 0) then None
              else bytes ← decode_loop fuel (tail (drop_ignored s1)) rest; Some (16 * b1 + b2 :: bytes)
          end
      end
  end.
Definition decode (data : jstring) : option (list Z) :=
  let s := up_to_end data in decode_loop (S (length s)) s (drop (length s) data).

Lemma table_digit i : (i < 16)%nat -> table_entry (nth i ENCODING_TABLE 0) = Some (Z.of_nat i) /\ ignore (nth i ENCODING_TABLE 0) = false.
Proof. intros Hi. do 16 (destruct i as [| i]; [by vm_compute |]). lia. Qed.

Lemma encode_byte_digits v : inw 8 v ->
  exists a b, encode_byte v = [a; b] /\ ignore a = false /\ ignore b = false /\
    table_entry a = Some (v / 16) /\ table_entry b = Some (v mod 16).
Proof.
  intros Hv. unfold inw in Hv. assert (0 <= v / 16 < 16) by (split; [apply Z.div_pos | apply Z.div_lt_upper_bound]; lia).
  pose proof (Z.mod_pos_bound v 16). destruct (table_digit (Z.to_nat (v / 16))) as [Ha Ia]; [lia |].
  destruct (table_digit (Z.to_nat (v mod 16))) as [Hb Ib]; [lia |]. rewrite Z2Nat.id in Ha, Hb by lia.
  by exists (nth (Z.to_nat (v / 16)) ENCODING_TABLE 0), (nth (Z.to_nat (v mod 16)) ENCODING_TABLE 0).
Qed.

Lemma encode_cons v data : encode (v :: data) = encode_byte v ++ encode data.
Proof. done. Qed.

Lemma length_encode data : length (encode data) = (2 * length data)%nat.
Proof. induction data as [| v data IH]; [done |]. rewrite encode_cons, length_app, IH. cbn [length encode_byte]. lia. Qed.

Lemma encode_not_ignored data : bytes_ok data -> Forall (fun c => ignore c = false) (encode data).
Proof.
  induction 1 as [| v data Hv _ IH]; [constructor |]. destruct (encode_byte_digits v Hv) as (a & b & E & Ha & Hb & _).
  rewrite encode_cons, E. by repeat constructor.
Qed.

Lemma drop_ignored_id s : Forall (fun c => ignore c = false) s -> drop_ignored s = s.
Proof. destruct 1 as [| c s Hc _]; [done |]. cbn. by rewrite Hc. Qed.

Lemma up_to_end_id s : Forall (fun c => ignore c = false) s -> up_to_end s = s.
Proof. intros Hs. unfold up_to_end. rewrite drop_ignored_id by by apply Forall_reverse. apply reverse_involutive. Qed.

Lemma decode_loop_encode data fuel :
  bytes_ok data -> (length (encode data) < fuel)%nat -> decode_loop fuel (encode data) [] = Some data.
Proof.
  intros Hd. revert fuel. induction Hd as [| v data Hv Hd IH]; intros [| fuel] Hf; [cbn in Hf; lia | done | cbn in Hf; lia |].
  destruct (encode_byte_digits v Hv) as (a & b & E & Ha & Hb & Ta & Tb).
  rewrite encode_cons, E in *. cbn [app length] in Hf. pose proof (Z.mod_pos_bound v 16).
  assert (0 <= v / 16) by (unfold inw in Hv; apply Z.div_pos; lia).
  cbn [app decode_loop drop_ignored]. rewrite Ha. cbn [app drop_ignored]. rewrite Hb, Ta. cbn [app head tail mbind option_bind].
  rewrite Tb. cbn [mbind option_bind]. rewrite (proj2 (Z.ltb_ge (v / 16) 0)), (proj2 (Z.ltb_ge (v mod 16) 0)) by lia. cbn [orb].
  rewrite IH by lia. cbn [mbind option_bind]. do 2 f_equal. pose proof (Z.div_mod v 16). lia.
Qed.

(** What is encoded is decoded. *)
Lemma decode_encode data : bytes_ok data -> decode (encode data) = Some data.
Proof.
  intros Hd. unfold decode. rewrite up_to_end_id by by apply encode_not_ignored. rewrite drop_all. apply decode_loop_encode; [done | lia].
Qed.
End HexEncoder.

Module HexUtil.
Definition toHexString (data : list Z) : jstring := HexEncoder.encode data.
Definition decode (data : jstring) : option (list Z) := HexEncoder.decode data.
Definition hexStringToBytes (data : option jstring) : option (list Z) :=
  match data with
  | None => Some []
  | Some data =>
      let data := if startsWith (js "0x") data then drop 2 data else data in
      let data := if Z.land (zlen data) 1 =? 1 then 48 :: data else data in
      decode data
  end.
End HexUtil.

(** Bytes survive being written in hexadecimal, with or without a prefix. *)
Theorem hex_roundtrip data :
  bytes_ok data ->
  HexUtil.decode (HexUtil.toHexString data) = Some data /\
  HexUtil.hexStringToBytes (Some (js "0x" ++ HexUtil.toHexString data)) = Some data.
Proof.
  intros Hd. split; [by apply HexEncoder.decode_encode |]. unfold HexUtil.hexStringToBytes, HexUtil.toHexString.
  pose proof (HexEncoder.length_encode data) as Hl.
  set (h := HexEncoder.encode data) in *. assert (startsWith (js "0x") (js "0x" ++ h) = true) as -> by done.
  change (drop 2 (js "0x" ++ h)) with h. rewrite Hl.
  replace (Z.land (Z.of_nat (2 * length data)) 1) with 0; [by apply HexEncoder.decode_encode |].
  change 1 with (Z.ones 1). rewrite Z.land_ones by lia. replace (Z.of_nat (2 * length data)) with (zlen data * 2 ^ 1) by lia.
  by rewrite Z.mod_mul.
Qed.

Lemma hex_roundtrip_witness :
  HexUtil.hexStringToBytes (Some (js "0x00fFa5")) = Some [0; 255; 165] /\
  HexUtil.hexStringToBytes (Some (js "0x" ++ HexUtil.toHexString [0; 255; 165])) = Some [0; 255; 165].
Proof. split; [vm_compute; reflexivity | apply hex_roundtrip]. apply (bool_decide_unpack _). vm_compute. exact I. Defined.
