(* ===== verification/SolidityType.v ===== *)
(** * Solidity types of the Java ABI library

    modFastVM/src/org/aion/solidity/SolidityType.java and
    fastvm/util/ByteUtil.java: the types, how a type name is parsed, and the
    encoding of values in words of 16 bytes.  A Java object is an [Object], an
    exception is [None]; [int] arithmetic wraps around. *)
From stdpp Require Import strings.
From S2P Require Import Prelude Bytes JavaData Text Utf8 Hex.
Open Scope list_scope.
Open Scope Z_scope.

(** ** ByteUtil *)
Module ByteUtil.
(** [merge]: an array has fewer than [2 ^ 31] elements. *)
Definition merge (arrays : list (list Z)) : option (list Z) :=
  let merged := concat arrays in if zlen merged <? 2 ^ 31 then Some merged else None.

Definition bigIntegerToBytesSigned (n : Z) (numBytes : nat) : list Z :=
  let biBytes := toByteArray n in
  let start := (if (length biBytes =? numBytes + 1)%nat then 1 else 0)%nat in
  let len := Nat.min (length biBytes) numBytes in
  replicate (numBytes - len) (if n <? 0 then 0xff else 0) ++ take len (drop start biBytes).

Definition bytesToBigInteger (bb : list Z) : Z := if (length bb =? 0)%nat then 0 else fromMagnitude bb.
End ByteUtil.

(** ** Types and values *)

#[warnings="-register-all"]
Inductive SolidityType :=
| StaticArrayType (name : jstring) (elementType : SolidityType) (size : Z)
| DynamicArrayType (name : jstring) (elementType : SolidityType)
| BytesType
| StringType
| Bytes32Type (name : jstring)
| AddressType
| IntType (name : jstring)
| BoolType.

(** Values: numbers are integral; a [List] and an array of objects are lists;
    [OOther] is [null] or an object of another class. *)
#[warnings="-register-all"]
Inductive Object :=
| OInteger (n : Z)
| OBoolean (b : bool)
| OString (s : jstring)
| OBytes (b : list Z)
| OList (l : list Object)
| OOther.

Definition getName (t : SolidityType) : jstring :=
  match t with
  | StaticArrayType name _ _ | DynamicArrayType name _ | Bytes32Type name | IntType name => name
  | BytesType => js "bytes" | StringType => js "string" | AddressType => js "address" | BoolType => js "bool"
  end.

Fixpoint getCanonicalName (t : SolidityType) : jstring :=
  match t with
  | StaticArrayType _ e size => getCanonicalName e ++ js "[" ++ decimal size ++ js "]"
  | DynamicArrayType _ e => getCanonicalName e ++ js "[]"
  | IntType name =>
      if equals name (js "int") then js "int128"
      else if equals name (js "uint") then js "uint128"
      else name
  | _ => getName t
  end.

Definition LBRACKET : Z := 91.
Definition RBRACKET : Z := 93.

(** [ArrayType(name)]: the name of the element type. *)
Definition elementName (name : jstring) (idx : nat) : jstring :=
  let st := take idx name in
  let subDim := match indexOf_from RBRACKET idx name with
                | Some idx2 => if (idx2 + 1 =? length name)%nat then [] else drop (idx2 + 1) name
                | None => name
                end in
  st ++ subDim.

(** [getType].  A name whose bracket is not closed never ends the recursion:
    it overflows the stack, like an exception [None]. *)
Fixpoint getType_fuel (fuel : nat) (typeName : jstring) : option SolidityType :=
  match fuel with
  | O => None
  | S fuel =>
      match indexOf LBRACKET typeName with
      | Some idx1 =>
          elementType ← getType_fuel fuel (elementName typeName idx1);
          idx2 ← indexOf_from RBRACKET idx1 typeName;
          if (idx1 + 1 =? idx2)%nat then Some (DynamicArrayType typeName elementType)
          else
            size ← parseInt (take (idx2 - (idx1 + 1)) (drop (idx1 + 1) typeName));
            Some (StaticArrayType typeName elementType size)
      | None =>
          if equals (js "bool") typeName then Some BoolType
          else if startsWith (js "int") typeName || startsWith (js "uint") typeName then Some (IntType typeName)
          else if equals (js "address") typeName then Some AddressType
          else if equals (js "string") typeName then Some StringType
          else if equals (js "bytes") typeName then Some BytesType
          else if startsWith (js "bytes") typeName then Some (Bytes32Type typeName)
          else None
      end
  end.
Definition getType (typeName : jstring) : option SolidityType := getType_fuel (S (length typeName)) typeName.

(** [Bytes32Type.bytes()]. *)
Definition bytes_of_name (name : jstring) : option Z := parseInt (drop 5 name).

Definition isDynamicType (t : SolidityType) : bool :=
  match t with DynamicArrayType _ _ | BytesType | StringType => true | _ => false end.

Fixpoint getFixedSize (t : SolidityType) : option Z :=
  match t with
  | StaticArrayType _ e size => n ← getFixedSize e; Some (imul n size)
  | Bytes32Type name => n ← bytes_of_name name; Some (if 16 <? n then 32 else 16)
  | AddressType => Some 32
  | _ => Some 16
  end.

(** ** Encoding *)

Abbreviation encodeInt n := (ByteUtil.bigIntegerToBytesSigned n 16).

(** [(n - 1) / 16 + 1] words. *)
Definition words (n : Z) : Z := Z.quot (n - 1) 16 + 1.

Definition encode_bytes (bb : list Z) : option (list Z) :=
  ret ← copied (imul (words (zlen bb)) 16) bb;
  ByteUtil.merge [encodeInt (zlen bb); ret].

(** [IntType.encode]: the number of an object. *)
Definition int_of_string (s : jstring) : option Z :=
  let s := trim (toLowerCase s) in
  if startsWith (js "0x") s then parseBigInteger (drop 2 s) 16
  else if existsb (fun c => contains c s) (js "abcdef") then parseBigInteger s 16
  else parseBigInteger s 10.

Definition encode_int (v : Object) : option (list Z) :=
  n ← (match v with
       | OString s => int_of_string s
       | OInteger n => Some n
       | OBytes b => Some (ByteUtil.bytesToBigInteger b)
       | _ => None
       end);
  Some (encodeInt n).

Definition encode_bytes32 (name : jstring) (v : Object) : option (list Z) :=
  match v with
  | OInteger n => Some (encodeInt n)
  | OString s => let bytes := getBytes s in copied (if 16 <? zlen bytes then 32 else 16) bytes
  | OBytes bytes => n ← bytes_of_name name; if n <? zlen bytes then None else copied (imul (words (zlen bytes)) 16) bytes
  | _ => Some []
  end.

Definition encode_address (v : Object) : option (list Z) :=
  match v with
  | OString s => if startsWith (js "0x") s then None else if zlen s =? 64 then HexUtil.decode s else None
  | OBytes bytes => if zlen bytes =? 32 then Some bytes else None
  | _ => None
  end.

(** The elements of [ArrayType.encode]; a [byte\[\]] is an array of numbers. *)
Definition elements (v : Object) : option (list Object) :=
  match v with
  | OBytes b => Some ((fun x => OInteger (sgn 8 x)) <$> b)
  | OList l => Some l
  | _ => None
  end.

(** The offsets of dynamic elements. *)
Fixpoint offsets (offset : Z) (encoded : list (list Z)) : list (list Z) :=
  match encoded with
  | [] => []
  | e :: encoded => encodeInt offset :: offsets (iadd offset (imul 16 (words (zlen e)))) encoded
  end.

Fixpoint encode (t : SolidityType) (v : Object) : option (list Z) :=
  match t with
  | StaticArrayType _ e size =>
      l ← elements v;
      if zlen l =? size then elems ← mapM (encode e) l; ByteUtil.merge elems else None
  | DynamicArrayType _ e =>
      l ← elements v;
      elems ← mapM (encode e) l;
      if isDynamicType e
      then ByteUtil.merge ([encodeInt (zlen l)] ++ offsets (imul (zlen l) 16) elems ++ elems)
      else ByteUtil.merge (encodeInt (zlen l) :: elems)
  | BytesType => match v with OBytes bb => encode_bytes bb | _ => None end
  | StringType => match v with OString s => encode_bytes (getBytes s) | _ => None end
  | Bytes32Type name => encode_bytes32 name v
  | AddressType => encode_address v
  | IntType _ => encode_int v
  | BoolType => match v with OBoolean b => encode_int (OInteger (if b then 1 else 0)) | _ => None end
  end.

(** ** Decoding *)

(** [new BigInteger(bytes)] of 16 bytes. *)
Definition decodeInt (encoded : list Z) (offset : Z) : option Z :=
  b ← copyOfRange encoded offset (iadd offset 16); Some (sgn 128 (be_val b)).

Definition decode_bytes (encoded : list Z) (offset : Z) : option (list Z) :=
  n ← decodeInt encoded offset;
  let len := to_int n in
  if len =? 0 then Some [] else let offset := iadd offset 16 in copyOfRange encoded offset (iadd offset len).

(** The loop over an array: [n] elements from [offset], [step] bytes apart. *)
Fixpoint decode_loop (n : nat) (offset : Z) (step : option Z) (f : Z -> option Object) : option (list Object) :=
  match n with
  | O => Some []
  | S n => x ← f offset; k ← step; xs ← decode_loop n (iadd offset k) step f; Some (x :: xs)
  end.

Fixpoint decode (t : SolidityType) (encoded : list Z) (offset : Z) : option Object :=
  match t with
  | StaticArrayType _ e size =>
      if size <? 0 then None else OList <$> decode_loop (Z.to_nat size) offset (getFixedSize e) (decode e encoded)
  | DynamicArrayType _ e =>
      n ← decodeInt encoded offset;
      let len := to_int n in
      let origOffset := iadd offset 16 in
      if len <? 0 then None
      else OList <$> decode_loop (Z.to_nat len) origOffset (getFixedSize e)
        (fun offset => if isDynamicType e
                       then p ← decodeInt encoded offset; decode e encoded (iadd origOffset (to_int p))
                       else decode e encoded offset)
  | BytesType => OBytes <$> decode_bytes encoded offset
  | StringType => (fun b => OString (decodeUTF8 b)) <$> decode_bytes encoded offset
  | Bytes32Type name => n ← bytes_of_name name; OBytes <$> copyOfRange encoded offset (iadd offset n)
  | AddressType => OBytes <$> copyOfRange encoded offset (iadd offset 32)
  | IntType _ => OInteger <$> decodeInt encoded offset
  | BoolType => n ← decodeInt encoded offset; Some (OBoolean (negb (to_int n =? 0)))
  end.
