(* ===== verification/AbiCodec.v ===== *)
(** * The encoding of Solidity values is inverted by decoding

    For the types whose layout the library gets right ([wf_type]: the elements
    of a fixed-size array are of fixed size, a bytesN has at most 32 bytes) and
    the values that it carries ([fits]), encoding succeeds as long as the encoding is
    a Java array, and decoding it from any place in a larger array gives the
    value back. *)
From stdpp Require Import strings.
From S2P Require Import Prelude Bytes JavaData Text Utf8 Hex SolidityType.
Open Scope list_scope.
Open Scope Z_scope.

(** ** Substrings at an offset *)

(** [s] is what [B] holds from [off]. *)
Definition at_offset (B : list Z) (off : Z) (s : list Z) : Prop :=
  0 <= off /\ exists a b, B = a ++ s ++ b /\ zlen a = off.

Lemma at_offset_app B off s1 s2 : at_offset B off (s1 ++ s2) <-> at_offset B off s1 /\ at_offset B (off + zlen s1) s2.
Proof.
  split.
  - intros (H0 & a & b & -> & <-). split.
    + split; [done |]. exists a, (s2 ++ b). by rewrite <- app_assoc.
    + split; [lia |]. exists (a ++ s1), b. rewrite length_app. split; [by rewrite <- !app_assoc | lia].
  - intros [(H0 & a & b & -> & <-) (_ & a' & b' & E & El)].
    assert (a ++ s1 = a' /\ b = s2 ++ b') as [<- ->].
    { apply app_inj_1; [rewrite length_app; lia |]. by rewrite <- app_assoc. }
    split; [done |]. exists a, b'. by rewrite <- !app_assoc.
Qed.

Lemma at_offset_bound B off s : at_offset B off s -> 0 <= off /\ off + zlen s <= zlen B.
Proof. intros (H0 & a & b & -> & <-). rewrite !length_app. lia. Qed.

Lemma copyOfRange_at B off s n : at_offset B off s -> zlen s = n -> copyOfRange B off (off + n) = Some s.
Proof.
  intros Hat <-. pose proof (at_offset_bound _ _ _ Hat) as [H0 Hb]. destruct Hat as (_ & a & b & -> & <-).
  unfold copyOfRange. rewrite (proj2 (Z.ltb_ge (zlen a) 0)), (proj2 (Z.ltb_ge _ (zlen a))), (proj2 (Z.ltb_ge _ (zlen a))) by lia.
  cbn [orb]. replace (Z.to_nat (zlen a + zlen s - zlen a)) with (length s) by lia. rewrite Nat2Z.id, drop_app_length, take_app_length.
  by rewrite Nat.sub_diag, app_nil_r.
Qed.

(** ** Numbers *)

Lemma bitLength_range n k : 0 <= k -> - 2 ^ k <= n < 2 ^ k -> 0 <= bitLength n <= k.
Proof.
  intros Hk Hn. unfold bitLength. set (m := if n <? 0 then - n - 1 else n).
  assert (0 <= m < 2 ^ k) by (unfold m; destruct (Z.ltb_spec n 0); lia).
  destruct (Z.eqb_spec m 0); [lia |]. pose proof (Z.log2_nonneg m). split; [lia |].
  assert (Z.log2 m < k) by (apply Z.log2_lt_pow2; lia). lia.
Qed.

Lemma bitLength_bound n : - 2 ^ bitLength n <= n < 2 ^ bitLength n.
Proof.
  unfold bitLength. set (m := if n <? 0 then - n - 1 else n).
  assert (0 <= m) by (unfold m; destruct (Z.ltb_spec n 0); lia).
  assert (forall k, m < 2 ^ k -> - 2 ^ k <= n < 2 ^ k) as Hm by (intros k; unfold m; destruct (Z.ltb_spec n 0); lia).
  apply Hm. destruct (Z.eqb_spec m 0); [lia |]. replace (Z.log2 m + 1) with (Z.succ (Z.log2 m)) by lia. apply Z.log2_spec. lia.
Qed.

(** A number written in more bytes than it takes has its sign in front. *)
Lemma le_bytes_split j k n : le_bytes (j + k) n = le_bytes j n ++ le_bytes k (n / 2 ^ (8 * Z.of_nat j)).
Proof.
  revert n. induction j as [| j IH]; intros n; cbn [Nat.add le_bytes app]; [by rewrite Z.div_1_r |]. f_equal.
  rewrite IH. replace (8 * Z.of_nat (S j)) with (8 + 8 * Z.of_nat j) by lia. by rewrite Z.pow_add_r, <- Z.div_div by lia.
Qed.
Lemma le_bytes_sign k s : (s = 0 \/ s = -1) -> le_bytes k s = replicate k (if s <? 0 then 0xff else 0).
Proof. intros [-> | ->]; induction k as [| k IH]; cbn [le_bytes replicate Z.ltb Z.compare] in *; try done; f_equal; exact IH. Qed.

Lemma be_bytes_sign j k n : - 2 ^ (8 * Z.of_nat j) <= n < 2 ^ (8 * Z.of_nat j) ->
  be_bytes (k + j) n = replicate k (if n <? 0 then 0xff else 0) ++ be_bytes j n.
Proof.
  intros Hn. unfold be_bytes. rewrite Nat.add_comm, le_bytes_split, reverse_app. f_equal.
  pose proof (pow2_pos (8 * Z.of_nat j)). assert (n / 2 ^ (8 * Z.of_nat j) = if n <? 0 then -1 else 0) as ->.
  { destruct (Z.ltb_spec n 0); [| apply Z.div_small; lia].
    symmetry. apply (Z.div_unique _ _ _ (n + 2 ^ (8 * Z.of_nat j))); [left |]; lia. }
  rewrite le_bytes_sign by (destruct (n <? 0); lia). destruct (n <? 0); apply reverse_replicate.
Qed.

Lemma encodeInt_spec n : - 2 ^ 127 <= n < 2 ^ 127 -> encodeInt n = be_bytes 16 n.
Proof.
  intros Hn. unfold encodeInt, ByteUtil.bigIntegerToBytesSigned, toByteArray.
  pose proof (bitLength_range n 127 ltac:(lia) Hn) as Hb. set (k := Z.to_nat (bitLength n / 8 + 1)).
  pose proof (Z.div_mod (bitLength n) 8). pose proof (Z.mod_pos_bound (bitLength n) 8).
  assert (0 <= bitLength n / 8 <= 15) by lia. assert (1 <= k <= 16)%nat by (unfold k; lia).
  rewrite length_be_bytes, (proj2 (Nat.eqb_neq k _)), Nat.min_l by lia. rewrite drop_0, firstn_all2 by (rewrite length_be_bytes; lia).
  rewrite <- be_bytes_sign; [f_equal; lia |].
  pose proof (bitLength_bound n) as Hbnd. assert (2 ^ bitLength n <= 2 ^ (8 * Z.of_nat k)) by (apply Z.pow_le_mono_r; unfold k; lia). lia.
Qed.

Lemma length_encodeInt n : length (encodeInt n) = 16%nat.
Proof.
  unfold encodeInt, ByteUtil.bigIntegerToBytesSigned. rewrite length_app, length_replicate, length_take, length_drop.
  destruct (Nat.eqb_spec (length (toByteArray n)) (16 + 1)); lia.
Qed.

Lemma decodeInt_at B off n : - 2 ^ 127 <= n < 2 ^ 127 -> at_offset B off (encodeInt n) -> zlen B < 2 ^ 31 -> decodeInt B off = Some n.
Proof.
  intros Hn Hat HB. pose proof (at_offset_bound _ _ _ Hat) as [H0 Hb]. rewrite length_encodeInt in Hb.
  unfold decodeInt, iadd. rewrite to_int_small by lia. rewrite (copyOfRange_at _ _ _ 16 Hat) by (by rewrite length_encodeInt).
  cbn. rewrite encodeInt_spec, be_val_be_bytes by done. f_equal. apply (sgn_wrap_small 128); lia.
Qed.

(** ** Types, values and sizes *)

Fixpoint wf_type (t : SolidityType) : bool :=
  match t with
  | StaticArrayType _ e size => wf_type e && negb (isDynamicType e) && (0 <=? size)
  | DynamicArrayType _ e => wf_type e
  | Bytes32Type name => match bytes_of_name name with Some n => (1 <=? n) && (n <=? 32) | None => false end
  | _ => true
  end.

(** The values that are carried for a type: integers are those of 128 bits and
    a sign for every integer type, since that is how they are decoded; a bytesN
    has exactly [N] bytes. *)
Fixpoint fits (t : SolidityType) (v : Object) : bool :=
  match t, v with
  | StaticArrayType _ e size, OList l => (zlen l =? size) && forallb (fits e) l
  | DynamicArrayType _ e, OList l => (zlen l <? 2 ^ 31) && forallb (fits e) l
  | BytesType, OBytes _ => true
  | StringType, OString s => utf16_ok s
  | Bytes32Type name, OBytes b => bool_decide (bytes_of_name name = Some (zlen b))
  | AddressType, OBytes b => zlen b =? 32
  | IntType _, OInteger n => (- 2 ^ 127 <=? n) && (n <? 2 ^ 127)
  | BoolType, OBoolean _ => true
  | _, _ => false
  end.

Definition total (f : Object -> Z) (l : list Object) : Z := foldr (fun x a => f x + a) 0 l.

(** The number of bytes of an encoded value. *)
Fixpoint enc_size (t : SolidityType) (v : Object) : Z :=
  match t, v with
  | StaticArrayType _ e _, OList l => total (enc_size e) l
  | DynamicArrayType _ e, OList l => 16 + total (fun x => enc_size e x + (if isDynamicType e then 16 else 0)) l
  | BytesType, OBytes b => 16 + 16 * words (zlen b)
  | StringType, OString s => 16 + 16 * words (zlen (getBytes s))
  | Bytes32Type _, OBytes b => 16 * words (zlen b)
  | AddressType, _ => 32
  | _, _ => 16
  end.

(** The bytes a value of the type takes in a fixed layout. *)
Fixpoint width (t : SolidityType) : Z :=
  match t with
  | StaticArrayType _ e size => width e * size
  | Bytes32Type name => match bytes_of_name name with Some n => if 16 <? n then 32 else 16 | None => 16 end
  | AddressType => 32
  | _ => 16
  end.

Lemma to_int_mul a b : to_int (to_int a * b) = to_int (a * b).
Proof.
  unfold to_int. f_equal. rewrite <- (wrap_mul_l 32 (sgn 32 (wrap 32 a))), wrap_sgn by (lia || (apply wrap_inw; lia)).
  apply wrap_mul_l. lia.
Qed.

Lemma getFixedSize_width t : wf_type t = true -> getFixedSize t = Some (to_int (width t)).
Proof.
  induction t as [name e IH size | | | | name | | |]; cbn; intros Hw; try done.
  - bools. rewrite IH by done. cbn. unfold imul. by rewrite to_int_mul.
  - destruct (bytes_of_name name); [| done]. cbn. by destruct (16 <? z).
Qed.

Lemma words_spec n : 0 <= n -> n <= 16 * words n < n + 16 + (if n =? 0 then 1 else 0) /\ 16 <= 16 * words n.
Proof.
  intros Hn. unfold words. destruct (Z.eqb_spec n 0) as [-> |]; [done |].
  rewrite Z.quot_div_nonneg by lia. pose proof (Z.div_mod (n - 1) 16). pose proof (Z.mod_pos_bound (n - 1) 16). lia.
Qed.

Lemma words_multiple n : 16 <= n -> n mod 16 = 0 -> 16 * words n = n.
Proof.
  intros Hn Hm. pose proof (words_spec n ltac:(lia)) as [Hw _]. rewrite (proj2 (Z.eqb_neq n 0)) in Hw by lia.
  pose proof (Z.div_mod n 16). lia.
Qed.

(** What encoding and decoding promise of a value and its encoding. *)
Record encoded_as (t : SolidityType) (v : Object) (b : list Z) : Prop := {
  ea_encode : encode t v = Some b;
  ea_size : zlen b = enc_size t v;
  ea_words : zlen b mod 16 = 0;
  ea_dynamic : isDynamicType t = true -> 16 <= zlen b;
  ea_static : isDynamicType t = false -> zlen b = width t;
  ea_decode B off : at_offset B off b -> zlen B < 2 ^ 31 -> decode t B off = Some v
}.

Definition codec (t : SolidityType) : Prop :=
  forall v, fits t v = true -> enc_size t v < 2 ^ 31 -> exists b, encoded_as t v b.

(** ** Simple types *)

Lemma copied_padded b : zlen b + 16 < 2 ^ 31 \/ 16 * words (zlen b) < 2 ^ 31 ->
  exists z, copied (imul (words (zlen b)) 16) b = Some (b ++ z) /\ zlen (b ++ z) = 16 * words (zlen b).
Proof.
  intros Hb. pose proof (words_spec (zlen b) ltac:(lia)) as [Hw Hw'].
  assert (imul (words (zlen b)) 16 = 16 * words (zlen b)) as -> by (unfold imul; rewrite to_int_small; destruct (zlen b =? 0); lia).
  unfold copied. rewrite (proj2 (Z.ltb_ge _ 0)), (proj2 (Z.ltb_ge _ (zlen b))) by lia. cbn [orb].
  eexists. split; [done |]. rewrite length_app, length_replicate. lia.
Qed.

Lemma encode_bytes_spec b : 16 + 16 * words (zlen b) < 2 ^ 31 ->
  exists e, encode_bytes b = Some e /\ zlen e = 16 + 16 * words (zlen b) /\
    forall B off, at_offset B off e -> zlen B < 2 ^ 31 -> decode_bytes B off = Some b.
Proof.
  intros Hb. pose proof (words_spec (zlen b) ltac:(lia)) as [Hw Hw']. destruct (copied_padded b) as (z & Ez & Hz); [right; lia |].
  unfold encode_bytes. rewrite Ez. cbn [mbind option_bind]. unfold ByteUtil.merge. cbn [concat]. rewrite app_nil_r.
  rewrite length_app, length_encodeInt, (proj2 (Z.ltb_lt _ (2 ^ 31))) by lia. eexists. split; [done |].
  split; [rewrite length_app, length_encodeInt; lia |]. intros B off Hat HB.
  apply at_offset_app in Hat as [Hn Hz']. rewrite length_encodeInt in Hz'. pose proof (at_offset_bound _ _ _ Hz') as [H0 Hbnd].
  unfold decode_bytes. rewrite (decodeInt_at B off (zlen b)) by (done || lia). cbn [mbind option_bind].
  rewrite (to_int_small (zlen b)) by lia. destruct (Z.eqb_spec (zlen b) 0) as [E |]; [by destruct b |].
  apply at_offset_app in Hz' as [Hz' _]. unfold iadd. rewrite (to_int_small (off + 16)), to_int_small by lia.
  by apply copyOfRange_at.
Qed.

Lemma mod16_words n : (16 + 16 * n) mod 16 = 0.
Proof. replace (16 + 16 * n) with ((1 + n) * 16) by lia. apply Z.mod_mul. lia. Qed.

Lemma bytes_codec : codec BytesType.
Proof.
  intros [] Hf Hs; try done. cbn in Hs. destruct (encode_bytes_spec b Hs) as (e & Ee & El & Hd). exists e.
  pose proof (words_spec (zlen b) ltac:(lia)). split; cbn; try (done || lia).
  - rewrite El. apply mod16_words.
  - intros B off Hat HB. by rewrite (Hd B off).
Qed.

Lemma string_codec : codec StringType.
Proof.
  intros [] Hf Hs; try done. cbn in Hf, Hs. destruct (encode_bytes_spec (getBytes s) Hs) as (e & Ee & El & Hd). exists e.
  pose proof (words_spec (zlen (getBytes s)) ltac:(lia)). split; cbn; try (done || lia).
  - rewrite El. apply mod16_words.
  - intros B off Hat HB. rewrite (Hd B off) by done. cbn. by rewrite decode_getBytes.
Qed.

Lemma bytes32_codec name : wf_type (Bytes32Type name) = true -> codec (Bytes32Type name).
Proof.
  cbn. intros Hw [] Hf Hs; try done. cbn in Hf, Hs. apply bool_decide_eq_true in Hf. rewrite Hf in Hw. bools.
  pose proof (words_spec (zlen b) ltac:(lia)) as [Hwd Hwd']. destruct (copied_padded b) as (z & Ez & Hz); [left; lia |].
  rewrite (proj2 (Z.eqb_neq (zlen b) 0)) in Hwd by lia. exists (b ++ z). split; cbn; rewrite ?Hf; cbn [mbind option_bind]; try done.
  - by rewrite Z.ltb_irrefl.
  - rewrite Hz, Z.mul_comm. apply Z.mod_mul. lia.
  - intros _. rewrite Hz. destruct (Z.ltb_spec 16 (zlen b)); lia.
  - intros B off Hat HB. apply at_offset_app in Hat as [Hat _]. pose proof (at_offset_bound _ _ _ Hat). unfold iadd.
    rewrite to_int_small by lia. by rewrite (copyOfRange_at _ _ _ _ Hat).
Qed.

Lemma address_codec : codec AddressType.
Proof.
  intros [] Hf Hs; try done. cbn in Hf. exists b. split; cbn; rewrite ?Hf; apply Z.eqb_eq in Hf; try done.
  - by rewrite Hf.
  - intros B off Hat HB. pose proof (at_offset_bound _ _ _ Hat). unfold iadd. rewrite to_int_small by lia.
    by rewrite (copyOfRange_at _ _ _ 32 Hat).
Qed.

Lemma int_codec name : codec (IntType name).
Proof.
  intros [] Hf Hs; try done. cbn in Hf. apply andb_prop in Hf as [H1 H2]. apply Z.leb_le in H1. apply Z.ltb_lt in H2.
  exists (encodeInt n). split; cbn; rewrite ?length_encodeInt; try done. intros B off Hat HB. by rewrite (decodeInt_at B off n).
Qed.

Lemma bool_codec : codec BoolType.
Proof.
  intros [] Hf Hs; try done. exists (encodeInt (if b then 1 else 0)). split; cbn; rewrite ?length_encodeInt; try done.
  intros B off Hat HB. rewrite (decodeInt_at B off (if b then 1 else 0)) by (done || destruct b; lia). by destruct b.
Qed.

(** ** Arrays *)

Lemma enc_size_nonneg t v : 0 <= enc_size t v.
Proof.
  revert v. induction t as [name e IH size | name e IH | | | name | | name |]; intros []; cbn; try lia.
  - induction l as [| x l IHl]; cbn; [lia |]. pose proof (IH x). unfold total in IHl. lia.
  - set (k := if isDynamicType e then 16 else 0). assert (0 <= k) by (unfold k; destruct (isDynamicType e); lia).
    assert (0 <= total (fun x => enc_size e x + k) l); [| lia].
    induction l as [| x l IHl]; cbn; [lia |]. pose proof (IH x). unfold total in IHl. lia.
  - pose proof (words_spec (zlen b)). lia.
  - pose proof (words_spec (zlen (getBytes s))). lia.
  - pose proof (words_spec (zlen b)). lia.
Qed.

Lemma total_nonneg t l : 0 <= total (enc_size t) l.
Proof. induction l as [| x l IH]; cbn; [lia |]. pose proof (enc_size_nonneg t x). unfold total in IH. lia. Qed.

Lemma total_plus t k l : total (fun x => enc_size t x + k) l = total (enc_size t) l + k * zlen l.
Proof. induction l as [| x l IH]; cbn -[Z.of_nat]; [lia |]. unfold total in IH. rewrite IH. lia. Qed.

(** The elements of an array have encodings. *)
Lemma elements_codec e l : codec e -> forallb (fits e) l = true -> total (enc_size e) l < 2 ^ 31 ->
  exists bs, mapM (encode e) l = Some bs /\ Forall2 (encoded_as e) l bs /\ zlen (concat bs) = total (enc_size e) l.
Proof.
  intros He. induction l as [| x l IH]; cbn; intros Hf Hs; [by exists [] |]. apply andb_prop in Hf as [Hx Hf].
  pose proof (enc_size_nonneg e x). pose proof (total_nonneg e l) as Ht. unfold total in Ht.
  destruct (He x Hx) as (b & Hb); [lia |]. destruct IH as (bs & Em & HF & Hl); [done | unfold total; lia |].
  exists (b :: bs). rewrite (ea_encode _ _ _ Hb), Em. split; [done |]. split; [by constructor |].
  cbn. rewrite length_app. pose proof (ea_size _ _ _ Hb). unfold total in Hl. lia.
Qed.

Lemma words_concat e l bs : Forall2 (encoded_as e) l bs -> zlen (concat bs) mod 16 = 0.
Proof.
  induction 1 as [| x b l bs Hb _ IH]; [done |]. cbn. rewrite length_app, Nat2Z.inj_add, Z.add_mod, IH, (ea_words _ _ _ Hb) by lia. done.
Qed.

Lemma static_concat e l bs : isDynamicType e = false -> Forall2 (encoded_as e) l bs -> zlen (concat bs) = width e * zlen l.
Proof.
  intros He. induction 1 as [| x b l bs Hb _ IH]; cbn -[Z.of_nat]; [lia |]. rewrite length_app. pose proof (ea_static _ _ _ Hb He). lia.
Qed.

(** Elements of fixed size lie side by side. *)
Lemma decode_loop_static e l bs B off :
  isDynamicType e = false -> Forall2 (encoded_as e) l bs -> at_offset B off (concat bs) -> zlen B < 2 ^ 31 ->
  decode_loop (length l) off (Some (to_int (width e))) (decode e B) = Some l.
Proof.
  intros He HF. revert off. induction HF as [| x b l bs Hb _ IH]; intros off Hat HB; [done |]. cbn [concat] in Hat.
  apply at_offset_app in Hat as [Hx Hl]. pose proof (at_offset_bound _ _ _ Hl). pose proof (at_offset_bound _ _ _ Hx).
  cbn [length decode_loop]. rewrite (ea_decode _ _ _ Hb B off Hx HB). cbn [mbind option_bind].
  rewrite <- (ea_static _ _ _ Hb He) at 1. unfold iadd at 1. rewrite (to_int_small (zlen b)), to_int_small by lia. by rewrite IH.
Qed.

Lemma static_codec name e size : wf_type (StaticArrayType name e size) = true -> codec e -> codec (StaticArrayType name e size).
Proof.
  cbn. intros Hw He [] Hf Hs; try done. bools. cbn in Hf, Hs. apply andb_prop in Hf as [Hn Hf]. apply Z.eqb_eq in Hn.
  destruct (elements_codec e l He Hf Hs) as (bs & Em & HF & Hl). exists (concat bs).
  pose proof (static_concat e l bs ltac:(done) HF). split; cbn.
  - rewrite (proj2 (Z.eqb_eq _ _) Hn), Em. cbn. unfold ByteUtil.merge. by rewrite (proj2 (Z.ltb_lt _ (2 ^ 31))) by lia.
  - done.
  - by apply (words_concat e l).
  - done.
  - intros _. lia.
  - intros B off Hat HB. rewrite (proj2 (Z.ltb_ge size 0)), getFixedSize_width by (done || lia). rewrite <- Hn, Nat2Z.id.
    by rewrite (decode_loop_static e l bs).
Qed.

Lemma length_offsets p bs : length (concat (offsets p bs)) = (16 * length bs)%nat.
Proof. revert p. induction bs as [| b bs IH]; intros p; [done |]. cbn [offsets concat]. rewrite length_app, IH, length_encodeInt. cbn [length]. lia. Qed.

(** Elements of dynamic size are reached through their offsets. *)
Lemma decode_loop_dynamic e l bs B off base p :
  isDynamicType e = true -> Forall2 (encoded_as e) l bs -> 0 <= p -> 0 <= base -> at_offset B off (concat (offsets p bs)) ->
  at_offset B (base + p) (concat bs) -> zlen B < 2 ^ 31 ->
  decode_loop (length l) off (Some 16) (fun off => q ← decodeInt B off; decode e B (iadd base (to_int q))) = Some l.
Proof.
  intros He HF. revert off p. induction HF as [| x b l bs Hb _ IH]; intros off p Hp Hbase Hoff Hat HB; [done |].
  cbn [offsets concat] in Hoff, Hat. apply at_offset_app in Hat as [Hx Hl]. apply at_offset_app in Hoff as [Hq Hoff].
  rewrite length_encodeInt in Hoff. pose proof (at_offset_bound _ _ _ Hx). pose proof (at_offset_bound _ _ _ Hoff).
  cbn [length decode_loop]. rewrite (decodeInt_at B off p) by (done || lia). cbn [mbind option_bind].
  assert (iadd base (to_int p) = base + p) as -> by (unfold iadd; rewrite (to_int_small p), to_int_small; lia). rewrite (ea_decode _ _ _ Hb B (base + p) Hx HB).
  pose proof (ea_dynamic _ _ _ Hb He) as Hb16. pose proof (words_multiple _ Hb16 (ea_words _ _ _ Hb)) as Hw.
  unfold imul in Hoff. rewrite Hw in Hoff. unfold iadd in Hoff. rewrite (to_int_small (zlen b)), to_int_small in Hoff by lia.
  assert (iadd off 16 = off + 16) as -> by (apply to_int_small; lia). rewrite (IH _ (p + zlen b)); [done | lia | done | exact Hoff | | done]. by rewrite Z.add_assoc.
Qed.

Lemma dynamic_codec name e : wf_type e = true -> codec e -> codec (DynamicArrayType name e).
Proof.
  cbn. intros Hw He [] Hf Hs; try done. cbn in Hf, Hs. rewrite total_plus in Hs. apply andb_prop in Hf as [Hln Hf].
  apply Z.ltb_lt in Hln.
  pose proof (total_nonneg e l). destruct (elements_codec e l He Hf) as (bs & Em & HF & Hl); [destruct (isDynamicType e); lia |].
  pose proof (Forall2_length HF) as Hlen. pose proof (words_concat e l bs HF) as Hm. destruct (isDynamicType e) eqn:Ed.
  - exists (encodeInt (zlen l) ++ concat (offsets (16 * zlen l) bs) ++ concat bs).
    assert (zlen (encodeInt (zlen l) ++ concat (offsets (16 * zlen l) bs) ++ concat bs) = 16 + 16 * zlen l + zlen (concat bs)) as Hz.
    { rewrite !length_app, length_offsets, length_encodeInt. lia. }
    split; cbn -[concat app]; rewrite ?Ed; try done.
    + rewrite Em. cbn -[concat app]. unfold imul. rewrite to_int_small, Z.mul_comm by lia. unfold ByteUtil.merge.
      cbn [concat]. rewrite !concat_app. cbn [concat]. rewrite app_nil_r.
      rewrite (proj2 (Z.ltb_lt _ (2 ^ 31))) by lia. done.
    + rewrite total_plus. lia.
    + rewrite Hz, Z.add_mod, Hm by lia. rewrite (mod16_words (zlen l)). done.
    + lia.
    + intros B off Hat HB. apply at_offset_app in Hat as [Hn Hat]. apply at_offset_app in Hat as [Hp Hat].
      pose proof (at_offset_bound _ _ _ Hat). pose proof (at_offset_bound _ _ _ Hn). rewrite length_offsets, length_encodeInt in *.
      rewrite (decodeInt_at B off (zlen l)) by (done || lia). cbn [mbind option_bind]. rewrite (to_int_small (zlen l)) by lia.
      rewrite (proj2 (Z.ltb_ge (zlen l) 0)), Nat2Z.id by lia.
      assert (iadd off 16 = off + 16) as -> by (apply to_int_small; lia).
      assert (getFixedSize e = Some 16) as -> by (destruct e; done).
      rewrite (decode_loop_dynamic e l bs B (off + 16) (off + 16) (16 * zlen l)); [done | done | done | lia | lia | exact Hp | | done].
      replace (off + 16 + 16 * zlen l) with (off + Z.of_nat 16 + Z.of_nat (16 * length bs)) by lia. done.
  - exists (encodeInt (zlen l) ++ concat bs).
    assert (zlen (encodeInt (zlen l) ++ concat bs) = 16 + zlen (concat bs)) as Hz by (rewrite length_app, length_encodeInt; lia).
    split; cbn -[concat app]; rewrite ?Ed; try done.
    + rewrite Em. cbn -[concat app]. unfold ByteUtil.merge. cbn [concat]. by rewrite (proj2 (Z.ltb_lt _ (2 ^ 31))) by lia.
    + rewrite total_plus. lia.
    + rewrite Hz, Z.add_mod, Hm by lia. done.
    + lia.
    + intros B off Hat HB. apply at_offset_app in Hat as [Hn Hat]. pose proof (at_offset_bound _ _ _ Hat). rewrite length_encodeInt in *.
      rewrite (decodeInt_at B off (zlen l)) by (done || lia). cbn [mbind option_bind]. rewrite (to_int_small (zlen l)) by lia.
      rewrite (proj2 (Z.ltb_ge (zlen l) 0)), Nat2Z.id, getFixedSize_width by (done || lia). unfold iadd. rewrite to_int_small by lia.
      by rewrite (decode_loop_static e l bs).
Qed.

Lemma type_codec t : wf_type t = true -> codec t.
Proof.
  induction t as [name e IH size | name e IH | | | name | | name |]; intros Hw.
  - apply static_codec; [done |]. apply IH. cbn in Hw. by bools.
  - apply dynamic_codec; [done |]. by apply IH.
  - apply bytes_codec.
  - apply string_codec.
  - by apply bytes32_codec.
  - apply address_codec.
  - apply int_codec.
  - apply bool_codec.
Qed.
