(* ===== verification/Abi.v ===== *)
(** * Entries of a contract's interface

    modFastVM/src/org/aion/solidity/Param.java, Entry.java and its subclasses,
    and Abi.java: signatures, the encoding of a function's arguments, and the
    decoding of arguments and events.  The hash function is a parameter, as it
    is in the code; reading and writing JSON is left out. *)
From stdpp Require Import strings.
From S2P Require Import Prelude Bytes JavaData Text Utf8 SolidityType AbiCodec.
Open Scope list_scope.
Open Scope Z_scope.

(** [null] is [None]. *)
Record Param := mkParam { indexed : option bool; p_name : option jstring; p_type : SolidityType }.

(** [Param.decodeList]. *)
Fixpoint decode_params (offset : Z) (params : list Param) (encoded : list Z) : option (list Object) :=
  match params with
  | [] => Some []
  | param :: params =>
      let t := p_type param in
      decoded ← (if isDynamicType t
                 then p ← decodeInt encoded offset; SolidityType.decode t encoded (to_int p)
                 else SolidityType.decode t encoded offset);
      size ← getFixedSize t;
      rest ← decode_params (iadd offset size) params encoded;
      Some (decoded :: rest)
  end.
Definition decodeList (params : list Param) (encoded : list Z) : option (list Object) := decode_params 0 params encoded.

(** ** Entries *)

Inductive EntryType := constructor_ | fallback | function | event.
#[global] Instance EntryType_eq_dec : EqDecision EntryType.
Proof. solve_decision. Defined.

Record Entry := mkEntry {
  anonymous : option bool;
  constant : option bool;
  payable : option bool;
  e_name : option jstring;
  inputs : list Param;
  outputs : list Param;
  type : EntryType
}.

(** [Entry.create], with the constructors of the subclasses. *)
Definition create (anon const pay : bool) (name : option jstring) (ins outs : list Param) (ty : EntryType) : Entry :=
  match ty with
  | constructor_ => mkEntry None None (Some pay) (Some []) ins outs constructor_
  | fallback => mkEntry None None (Some pay) (Some []) ins outs fallback
  | function => mkEntry None (Some const) (Some pay) name ins outs function
  | event => mkEntry (Some anon) None None name ins outs event
  end.

(** [StringUtils.stripEnd(s, c)]. *)
Fixpoint strip_front (c : Z) (s : jstring) : jstring :=
  match s with x :: t => if x =? c then strip_front c t else s | [] => [] end.
Definition stripEnd (c : Z) (s : jstring) : jstring := reverse (strip_front c (reverse s)).

Definition formatSignature (e : Entry) : jstring :=
  let paramsTypes := inputs e ≫= (fun p => getCanonicalName (p_type p) ++ js ",") in
  default (js "null") (e_name e) ++ js "(" ++ stripEnd 44 paramsTypes ++ js ")".

Section Entries.
Context (hash256 : list Z -> list Z).

Definition fingerprintSignature (e : Entry) : list Z := hash256 (getBytes (formatSignature e)).

Abbreviation ENCODED_SIGN_LENGTH := (4).
Definition extractSignature (data : list Z) : list Z := subarray data 0 ENCODED_SIGN_LENGTH.
Definition encodeSignature (e : Entry) : list Z :=
  match type e with function => extractSignature (fingerprintSignature e) | _ => fingerprintSignature e end.

(** The bytes of the arguments' fixed part. *)
Fixpoint static_size (size : Z) (params : list Param) (args : list Object) : option Z :=
  match args, params with
  | [], _ => Some size
  | _ :: args, p :: params => n ← getFixedSize (p_type p); static_size (iadd size n) params args
  | _ :: _, [] => None
  end.

(** The loop over the arguments: the fixed parts, in which a dynamic argument
    has the position of its encoding, and the dynamic encodings. *)
Fixpoint encode_loop (ptr : Z) (params : list Param) (args : list Object) : option (list (list Z) * list (list Z)) :=
  match args, params with
  | [], _ => Some ([], [])
  | arg :: args, p :: params =>
      let t := p_type p in
      b ← SolidityType.encode t arg;
      if isDynamicType t then
        '(heads, tails) ← encode_loop (iadd ptr (zlen b)) params args; Some (encodeInt ptr :: heads, b :: tails)
      else '(heads, tails) ← encode_loop ptr params args; Some (b :: heads, tails)
  | _ :: _, [] => None
  end.

Definition encodeArguments (params : list Param) (args : list Object) : option (list Z) :=
  if (length params <? length args)%nat then None
  else
    staticSize ← static_size 0 params args;
    '(heads, tails) ← encode_loop staticSize params args;
    ByteUtil.merge (heads ++ tails).

(** [Function.encode] and [Function.decode]. *)
Definition encode (e : Entry) (args : list Object) : option (list Z) :=
  arguments ← encodeArguments (inputs e) args; ByteUtil.merge [encodeSignature e; arguments].
Definition decode (e : Entry) (encoded : list Z) : option (list Object) :=
  decodeList (inputs e) (subarray encoded ENCODED_SIGN_LENGTH (zlen encoded)).

(** [Event.filteredInputs]. *)
Fixpoint filteredInputs (idx : bool) (params : list Param) : option (list Param) :=
  match params with
  | [] => Some []
  | p :: params =>
      i ← indexed p;
      rest ← filteredInputs idx params;
      Some (if Bool.eqb i idx then p :: rest else rest)
  end.

(** The values of the inputs in their order. *)
Fixpoint interleave (params : list Param) (idx notIdx : list Object) : option (list Object) :=
  match params with
  | [] => Some []
  | p :: params =>
      i ← indexed p;
      if i : bool then
        match idx with x :: idx => xs ← interleave params idx notIdx; Some (x :: xs) | [] => None end
      else
        match notIdx with x :: notIdx => xs ← interleave params idx notIdx; Some (x :: xs) | [] => None end
  end.

(** [Event.decode]. *)
Definition event_decode (e : Entry) (data : list Z) (topics : list (list Z)) : option (list Object) :=
  anon ← anonymous e;
  let argTopics := if anon : bool then topics else subarray topics 1 (zlen topics) in
  idxInputs ← filteredInputs true (inputs e);
  merged ← ByteUtil.merge argTopics;
  idx ← decodeList idxInputs merged;
  notIdxInputs ← filteredInputs false (inputs e);
  notIdx ← decodeList notIdxInputs data;
  interleave (inputs e) idx notIdx.

(** [Abi.findFunction]. *)
Definition findFunction (p : Entry -> bool) (entries : list Entry) : option Entry :=
  List.find (fun e => bool_decide (type e = function) && p e) entries.

(** ** Arguments survive encoding *)

Definition args_size (params : list Param) (args : list Object) : Z :=
  foldr (fun '(p, a) n => enc_size (p_type p) a + (if isDynamicType (p_type p) then 16 else 0) + n) 0 (zip params args).

(** The bytes of the fixed parts and of the dynamic parts. *)
Definition heads_size (params : list Param) (args : list Object) : Z :=
  foldr (fun '(p, a) n => (if isDynamicType (p_type p) then 16 else enc_size (p_type p) a) + n) 0 (zip params args).
Definition tails_size (params : list Param) (args : list Object) : Z :=
  foldr (fun '(p, a) n => (if isDynamicType (p_type p) then enc_size (p_type p) a else 0) + n) 0 (zip params args).

Lemma args_size_split params args :
  args_size params args = heads_size params args + tails_size params args /\ 0 <= heads_size params args /\ 0 <= tails_size params args.
Proof.
  revert args. induction params as [| p params IH]; intros [| a args]; cbn; try lia. specialize (IH args).
  unfold args_size, heads_size, tails_size in IH. pose proof (enc_size_nonneg (p_type p) a). destruct (isDynamicType (p_type p)); lia.
Qed.

(** A parameter with a value that the library carries for its type. *)
Definition arg_ok (p : Param) (a : Object) : Prop := wf_type (p_type p) = true /\ fits (p_type p) a = true.

Lemma fixed_size_arg p a b : wf_type (p_type p) = true -> encoded_as (p_type p) a b -> zlen b < 2 ^ 31 ->
  getFixedSize (p_type p) = Some (if isDynamicType (p_type p) then 16 else zlen b).
Proof.
  intros Hw Hb Hl. rewrite getFixedSize_width by done. destruct (isDynamicType (p_type p)) eqn:Ed.
  - by destruct (p_type p).
  - rewrite <- (ea_static _ _ _ Hb Ed), to_int_small by lia. done.
Qed.

Lemma static_size_spec params args size :
  Forall2 arg_ok params args -> 0 <= size -> size + args_size params args < 2 ^ 31 ->
  static_size size params args = Some (size + heads_size params args).
Proof.
  intros HF. revert size. induction HF as [| p a params args [Hw Hf] HF IH]; intros size H0 Hs; cbn; [f_equal; lia |].
  destruct (args_size_split params args) as (E & Hh & Ht). cbn in Hs. fold (args_size params args) in Hs.
  pose proof (enc_size_nonneg (p_type p) a) as He. destruct (type_codec _ Hw a Hf) as (b & Hb); [destruct (isDynamicType _); lia |].
  pose proof (ea_size _ _ _ Hb) as Hl. rewrite (fixed_size_arg p a b) by (done || destruct (isDynamicType _); lia). cbn [mbind option_bind].
  fold (heads_size params args). unfold iadd. rewrite to_int_small by (destruct (isDynamicType _); lia).
  rewrite IH by (destruct (isDynamicType _); lia). f_equal. destruct (isDynamicType _); lia.
Qed.

(** What the loop produces is what the decoder follows. *)
Lemma encode_loop_spec params args ptr :
  Forall2 arg_ok params args -> 0 <= ptr -> args_size params args < 2 ^ 31 -> ptr + tails_size params args < 2 ^ 31 ->
  exists heads tails, encode_loop ptr params args = Some (heads, tails) /\
    zlen (concat heads) = heads_size params args /\ zlen (concat tails) = tails_size params args /\
    forall B off, at_offset B off (concat heads) -> at_offset B ptr (concat tails) -> zlen B < 2 ^ 31 ->
      decode_params off params B = Some args.
Proof.
  intros HF. revert ptr. induction HF as [| p a params args [Hw Hf] HF IH]; intros ptr H0 Hs Hp; [by exists [], [] |].
  cbn in Hs, Hp. fold (args_size params args) in Hs. fold (tails_size params args) in Hp. destruct (args_size_split params args) as (E & Hh & Ht).
  pose proof (enc_size_nonneg (p_type p) a) as He. destruct (type_codec _ Hw a Hf) as (b & Hb); [destruct (isDynamicType _); lia |].
  pose proof (ea_size _ _ _ Hb) as Hl.
  pose proof (fixed_size_arg p a b Hw Hb ltac:(destruct (isDynamicType _); lia)) as Hfix.
  cbn [encode_loop]. rewrite (ea_encode _ _ _ Hb). cbn [mbind option_bind].
  destruct (isDynamicType (p_type p)) eqn:Ed.
  - assert (iadd ptr (zlen b) = ptr + zlen b) as -> by (apply to_int_small; lia).
    destruct (IH (ptr + zlen b)) as (heads & tails & -> & Eh & Et & Hd); [lia.. |]. cbn [mbind option_bind].
    exists (encodeInt ptr :: heads), (b :: tails). cbn [concat]. rewrite !length_app, length_encodeInt. cbn. rewrite Ed.
    fold (heads_size params args) (tails_size params args). split; [done |]. split; [lia |]. split; [lia |].
    intros B off Hhd Htl HB. apply at_offset_app in Hhd as [Hq Hhd]. apply at_offset_app in Htl as [Hx Htl].
    pose proof (at_offset_bound _ _ _ Hhd). rewrite length_encodeInt in *. rewrite (decodeInt_at B off ptr) by (done || lia).
    cbn [mbind option_bind]. rewrite (to_int_small ptr), (ea_decode _ _ _ Hb B ptr Hx HB) by lia. cbn [mbind option_bind].
    rewrite Hfix. cbn [mbind option_bind]. unfold iadd. rewrite to_int_small by lia. by rewrite (Hd B (off + 16)).
  - destruct (IH ptr) as (heads & tails & -> & Eh & Et & Hd); [lia.. |]. cbn [mbind option_bind].
    exists (b :: heads), tails. cbn [concat]. rewrite !length_app. cbn. rewrite Ed.
    fold (heads_size params args) (tails_size params args). split; [done |]. split; [lia |]. split; [lia |].
    intros B off Hhd Htl HB. apply at_offset_app in Hhd as [Hx Hhd]. pose proof (at_offset_bound _ _ _ Hhd).
    pose proof (at_offset_bound _ _ _ Hx). rewrite (ea_decode _ _ _ Hb B off Hx HB). cbn [mbind option_bind].
    rewrite Hfix. cbn [mbind option_bind]. unfold iadd. rewrite to_int_small by lia. by rewrite (Hd B (off + zlen b)).
Qed.

Lemma arguments_roundtrip params args :
  Forall2 arg_ok params args -> args_size params args < 2 ^ 31 ->
  exists b, encodeArguments params args = Some b /\ zlen b = args_size params args /\ decodeList params b = Some args.
Proof.
  intros HF Hs. destruct (args_size_split params args) as (E & Hh & Ht). unfold encodeArguments.
  rewrite (Forall2_length HF), Nat.ltb_irrefl, static_size_spec by (done || lia). cbn [mbind option_bind]. rewrite Z.add_0_l.
  destruct (encode_loop_spec params args (heads_size params args)) as (heads & tails & -> & Eh & Et & Hd); [done | lia.. |].
  cbn [mbind option_bind]. unfold ByteUtil.merge. rewrite concat_app, (proj2 (Z.ltb_lt _ (2 ^ 31))) by (rewrite length_app; lia).
  eexists. split; [done |]. rewrite length_app. split; [lia |]. apply Hd.
  - split; [lia |]. by exists [], (concat tails).
  - split; [lia |]. exists (concat heads), []. by rewrite app_nil_r.
  - rewrite length_app. lia.
Qed.

Context (Hhash : forall m, length (hash256 m) = 32%nat).

(** C34: A function's arguments survive encoding: a call is encoded whenever the
    encoding fits an array, it starts with the first four bytes of the hash of
    the signature, and decoding it gives the arguments back.  The arguments are
    those the library carries ([fits]): integers from -2^127 to 2^127 - 1,
    whatever the width and the sign of the declared type, bytesN of exactly N
    bytes, addresses of 32, strings and arrays, where the elements of a
    fixed-size array are not of dynamic size.  It does not carry unsigned
    integers from 2^127 on ([unsigned_decodes_negative]) nor fixed-size arrays
    of strings ([static_strings_lost]). *)
Theorem function_roundtrip e args :
  type e = function -> Forall2 arg_ok (inputs e) args -> 4 + args_size (inputs e) args < 2 ^ 31 ->
  exists b, encode e args = Some b /\ take 4 b = take 4 (hash256 (getBytes (formatSignature e))) /\
    zlen b = 4 + args_size (inputs e) args /\ decode e b = Some args.
Proof.
  intros Ht HF Hs. destruct (arguments_roundtrip (inputs e) args HF) as (b & Eb & Hl & Hd); [lia |].
  unfold encode, encodeSignature, extractSignature, fingerprintSignature. rewrite Ht, Eb. cbn [mbind option_bind].
  set (sig := subarray _ 0 _). assert (sig = take 4 (hash256 (getBytes (formatSignature e)))) as Esig by done.
  assert (length sig = 4%nat) as Hsig by (rewrite Esig, length_take, Hhash; done).
  unfold ByteUtil.merge. cbn [concat]. rewrite app_nil_r, (proj2 (Z.ltb_lt _ (2 ^ 31))) by (rewrite length_app; lia).
  eexists. split; [done |]. rewrite <- Esig, take_app_length' by done. split; [done |]. rewrite length_app. split; [lia |].
  unfold decode, subarray. change (Z.to_nat ENCODED_SIGN_LENGTH) with 4%nat. rewrite drop_app_length' by done.
  by rewrite firstn_all2 by (rewrite length_app; lia).
Qed.

(** The arguments of the indexed or of the other inputs. *)
Fixpoint filtered (idx : bool) (params : list Param) (args : list Object) : list Object :=
  match params, args with
  | p :: params, a :: args =>
      if decide (indexed p = Some idx) then a :: filtered idx params args else filtered idx params args
  | _, _ => []
  end.

Lemma filteredInputs_ok idx params args :
  Forall (fun p => is_Some (indexed p)) params -> Forall2 arg_ok params args ->
  exists ps, filteredInputs idx params = Some ps /\ Forall2 arg_ok ps (filtered idx params args).
Proof.
  intros Hi HF. revert Hi. induction HF as [| p a params args Hp HF IH]; intros Hi; [by exists [] |].
  apply Forall_cons_1 in Hi as [[i Hi] Hr]. destruct (IH Hr) as (ps & E & Hps). cbn. rewrite Hi, E. cbn.
  destruct i, idx; cbn; eexists; (split; [done |]); repeat (destruct (decide _); try congruence); by try constructor.
Qed.

Lemma interleave_filtered params args :
  Forall (fun p => is_Some (indexed p)) params -> length params = length args ->
  interleave params (filtered true params args) (filtered false params args) = Some args.
Proof.
  intros Hi. revert args. induction Hi as [| p params [i Hp] Hi IH]; intros [| a args] Hl; try done.
  cbn. rewrite Hp. cbn. destruct i; repeat (destruct (decide _); try congruence); cbn; rewrite IH by (cbn in Hl; lia); done.
Qed.

(** Decoding a log entry gives the values of an event's inputs in order, from
    the topics of the indexed ones and the data of the others. *)
Theorem event_roundtrip e args anon topics ps qs idxData data :
  anonymous e = Some anon -> Forall (fun p => is_Some (indexed p)) (inputs e) -> Forall2 arg_ok (inputs e) args ->
  filteredInputs true (inputs e) = Some ps -> filteredInputs false (inputs e) = Some qs ->
  args_size ps (filtered true (inputs e) args) < 2 ^ 31 -> args_size qs (filtered false (inputs e) args) < 2 ^ 31 ->
  encodeArguments ps (filtered true (inputs e) args) = Some idxData ->
  encodeArguments qs (filtered false (inputs e) args) = Some data ->
  concat (if anon : bool then topics else tail topics) = idxData ->
  event_decode e data topics = Some args.
Proof.
  intros Ha Hi HF Hps Hqs Hsp Hsq Eps Eqs Ht.
  destruct (filteredInputs_ok true _ _ Hi HF) as (ps' & E & Hp). rewrite Hps in E. injection E as <-.
  destruct (filteredInputs_ok false _ _ Hi HF) as (qs' & E & Hq). rewrite Hqs in E. injection E as <-.
  destruct (arguments_roundtrip _ _ Hp Hsp) as (b1 & E1 & L1 & D1). rewrite Eps in E1. injection E1 as <-.
  destruct (arguments_roundtrip _ _ Hq Hsq) as (b2 & E2 & L2 & D2). rewrite Eqs in E2. injection E2 as <-.
  unfold event_decode. rewrite Ha, Hps, Hqs. cbn [mbind option_bind].
  assert ((if anon then topics else subarray topics 1 (zlen topics)) = (if anon then topics else tail topics)) as ->.
  { destruct anon; [done |]. unfold subarray. destruct topics as [| t topics]; [done |].
    rewrite Nat2Z.id. change (Z.to_nat 1) with 1%nat. cbn [length drop tail]. apply firstn_all2. cbn. lia. }
  unfold ByteUtil.merge. rewrite Ht, (proj2 (Z.ltb_lt _ (2 ^ 31))) by lia. cbn [mbind option_bind].
  rewrite D1. cbn [mbind option_bind]. rewrite D2. cbn [mbind option_bind].
  apply interleave_filtered; [done |]. apply (Forall2_length HF).
Qed.
End Entries.

(** [note(address,uint128[2],string[])], parsed from its type names. *)
Definition param_of (name ty : string) : Param := mkParam None (Some (js name)) (default BoolType (getType (js ty))).
Definition note : Entry :=
  create false false true (Some (js "note")) [param_of "to" "address"; param_of "pair" "uint[2]"; param_of "texts" "string[]"] [] function.
Definition note_args : list Object :=
  [OBytes (replicate 32 5); OList [OInteger 1; OInteger (-2)]; OList [OString (js "fast"); OString [0xd83d; 0xde00]]].

Lemma function_roundtrip_witness :
  formatSignature note = js "note(address,uint128[2],string[])" /\
  exists b, encode (fun _ => replicate 32 7) note note_args = Some b /\ take 4 b = [7; 7; 7; 7] /\
    decode note b = Some note_args.
Proof.
  split; [vm_compute; reflexivity |].
  destruct (function_roundtrip (fun _ => replicate 32 7) (fun _ => eq_refl) note note_args) as (b & E & Ht & _ & Hd).
  - reflexivity.
  - unfold note, note_args. cbn [inputs create]. constructor; [split; vm_compute; reflexivity |].
    constructor; [split; vm_compute; reflexivity |]. constructor; [split; vm_compute; reflexivity | constructor].
  - vm_compute. reflexivity.
  - exists b. split; [exact E |]. split; [rewrite Ht; reflexivity | exact Hd].
Defined.

(** ** Where the library goes wrong *)

(** Unsigned numbers are decoded as signed ones: of the numbers of 128 bits,
    those with the highest bit set come back negative. *)
Theorem unsigned_decodes_negative n :
  2 ^ 127 <= n < 2 ^ 128 ->
  getType (js "uint128") = Some (IntType (js "uint128")) /\
  exists b, SolidityType.encode (IntType (js "uint128")) (OInteger n) = Some b /\
    SolidityType.decode (IntType (js "uint128")) b 0 = Some (OInteger (n - 2 ^ 128)).
Proof.
  intros Hn. split; [vm_compute; reflexivity |]. exists (be_bytes 16 n).
  assert (encodeInt n = be_bytes 16 n) as Ee.
  { unfold encodeInt, ByteUtil.bigIntegerToBytesSigned, toByteArray. assert (bitLength n = 128) as ->.
    { unfold bitLength. rewrite (proj2 (Z.ltb_ge n 0)), (proj2 (Z.eqb_neq n 0)) by lia. rewrite (Z.log2_unique n 127) by lia. done. }
    change (Z.to_nat (128 / 8 + 1)) with (1 + 16)%nat. rewrite be_bytes_sign by (cbn; lia). rewrite (proj2 (Z.ltb_ge n 0)) by lia.
    set (l := be_bytes 16 n). assert (length l = 16%nat) as Hl by apply length_be_bytes. cbn [replicate app length]. rewrite Hl.
    cbn [Nat.add Nat.eqb Nat.min Nat.sub replicate app drop skipn]. apply firstn_all2. by rewrite Hl. }
  split; [cbn; by rewrite Ee |]. cbn. unfold decodeInt. change (iadd 0 16) with (0 + 16).
  rewrite (copyOfRange_at _ _ (be_bytes 16 n)); [| by split; [lia |]; exists [], []; rewrite app_nil_r | by rewrite length_be_bytes].
  cbn [mbind option_bind fmap option_fmap option_map]. rewrite be_val_be_bytes, Z.mod_small by (cbn; lia). unfold sgn.
  by rewrite (proj2 (Z.ltb_ge n _)) by (cbn; lia).
Qed.

Lemma unsigned_decodes_negative_witness :
  exists b, SolidityType.encode (IntType (js "uint128")) (OInteger (2 ^ 128 - 1)) = Some b /\
    SolidityType.decode (IntType (js "uint128")) b 0 = Some (OInteger (-1)).
Proof. apply (unsigned_decodes_negative (2 ^ 128 - 1)). split; vm_compute; congruence. Defined.

(** The dimensions of a nested array are taken from the left: [uint\[2\]\[\]],
    a list of pairs, becomes an array of two lists, whose canonical name, and
    with it the function's signature, has the dimensions exchanged. *)
Theorem dimensions_exchanged :
  getCanonicalName <$> getType (js "uint[2][]") = Some (js "uint128[][2]") /\
  (t ← getType (js "uint[2][]"); SolidityType.encode t (OList [OList [OInteger 1; OInteger 2]])) = None.
Proof. vm_compute. split; reflexivity. Qed.

(** A fixed-size array of strings is laid out as if its elements had a fixed
    size, and cannot be decoded. *)
Theorem static_strings_lost :
  exists t b, getType (js "string[2]") = Some t /\
    SolidityType.encode t (OList [OString (js "a"); OString (js "b")]) = Some b /\
    SolidityType.decode t b 0 <> Some (OList [OString (js "a"); OString (js "b")]).
Proof. eexists _, _. split; [vm_compute; reflexivity |]. split; [vm_compute; reflexivity |]. vm_compute. discriminate. Qed.

(** A type read from a name has that name. *)
Lemma getType_name name t : getType name = Some t -> getName t = name.
Proof.
  unfold getType. cbn [getType_fuel]. unfold equals. destruct (indexOf LBRACKET name) as [i |].
  - destruct (getType_fuel _ _) as [e |]; [| done]. cbn [mbind option_bind].
    destruct (indexOf_from RBRACKET i name) as [j |]; [| done]. cbn [mbind option_bind].
    destruct (_ =? _)%nat; [by intros [= <-] |]. destruct (parseInt _); [| done]. by intros [= <-].
  - repeat case_bool_decide; subst; repeat match goal with |- context [if ?b then _ else _] => destruct b end;
      try (intros [= <-]); try done.
Qed.
