(* ===== verification/JavaInst.v ===== *)
(** * The Java instruction table and the decompiler

    modFastVM/src/org/aion/fastvm/Instruction.java and Decompiler.java: the
    enumeration with its opcodes, stack items and tiers, and the listing of byte
    code given in hexadecimal.  A listing is its lines and whether an exception
    ended it. *)
From stdpp Require Import strings.
From S2P Require Import Prelude Bytes Instruction BasicBlocks Machine Interp JavaData AsmItem AsmTable Text Hex.
Open Scope list_scope.
Open Scope Z_scope.

Module JavaInstruction.
Inductive Tier := ZERO | BASE | VERY_LOW | LOW | MID | HIGH | EXT_CODE | SPECIAL.
Definition cost (t : Tier) : Z :=
  match t with
  | ZERO => 0 | BASE => 2 | VERY_LOW => 3 | LOW => 5 | MID => 8 | HIGH => 10 | EXT_CODE => 20 | SPECIAL => 1
  end.

Record JInstruction := mkJInst { j_name : string; code : Z; req : nat; ret : nat; tier : Tier }.

(** The constants of the enumeration, in order. *)
Definition values : list JInstruction :=
  [mkJInst "STOP" 0x00 0 0 ZERO; mkJInst "ADD" 0x01 2 1 VERY_LOW; mkJInst "MUL" 0x02 2 1 LOW;
   mkJInst "SUB" 0x03 2 1 VERY_LOW; mkJInst "DIV" 0x04 2 1 LOW; mkJInst "SDIV" 0x05 2 1 LOW;
   mkJInst "MOD" 0x06 2 1 LOW; mkJInst "SMOD" 0x07 2 1 LOW; mkJInst "ADDMOD" 0x08 3 1 MID;
   mkJInst "MULMOD" 0x09 3 1 MID; mkJInst "EXP" 0x0a 2 1 SPECIAL; mkJInst "SIGNEXTEND" 0x0b 2 1 LOW;
   mkJInst "LT" 0x10 2 1 VERY_LOW; mkJInst "GT" 0x11 2 1 VERY_LOW; mkJInst "SLT" 0x12 2 1 VERY_LOW;
   mkJInst "SGT" 0x13 2 1 VERY_LOW; mkJInst "EQ" 0x14 2 1 VERY_LOW; mkJInst "ISZERO" 0x15 1 1 VERY_LOW;
   mkJInst "AND" 0x16 2 1 VERY_LOW; mkJInst "OR" 0x17 2 1 VERY_LOW; mkJInst "XOR" 0x18 2 1 VERY_LOW;
   mkJInst "NOT" 0x19 1 1 VERY_LOW; mkJInst "BYTE" 0x1a 2 1 VERY_LOW; mkJInst "SHA3" 0x20 2 2 SPECIAL;
   mkJInst "ADDRESS" 0x30 0 2 BASE; mkJInst "BALANCE" 0x31 2 1 EXT_CODE; mkJInst "ORIGIN" 0x32 0 2 BASE;
   mkJInst "CALLER" 0x33 0 2 BASE; mkJInst "CALLVALUE" 0x34 0 1 BASE; mkJInst "CALLDATALOAD" 0x35 1 1 VERY_LOW;
   mkJInst "CALLDATASIZE" 0x36 0 1 BASE; mkJInst "CALLDATACOPY" 0x37 3 0 VERY_LOW; mkJInst "CODESIZE" 0x38 0 1 BASE;
   mkJInst "CODECOPY" 0x39 3 0 VERY_LOW; mkJInst "RETURNDATASIZE" 0x3d 0 1 BASE;
   mkJInst "RETURNDATACOPY" 0x3e 3 0 VERY_LOW; mkJInst "GASPRICE" 0x3a 0 1 BASE;
   mkJInst "EXTCODESIZE" 0x3b 1 1 EXT_CODE; mkJInst "EXTCODECOPY" 0x3c 4 0 EXT_CODE;
   mkJInst "BLOCKHASH" 0x40 1 2 EXT_CODE; mkJInst "COINBASE" 0x41 0 2 BASE; mkJInst "TIMESTAMP" 0x42 0 1 BASE;
   mkJInst "NUMBER" 0x43 0 1 BASE; mkJInst "DIFFICULTY" 0x44 0 1 BASE; mkJInst "GASLIMIT" 0x45 0 1 BASE;
   mkJInst "POP" 0x50 1 0 BASE; mkJInst "MLOAD" 0x51 1 1 VERY_LOW; mkJInst "MSTORE" 0x52 2 0 VERY_LOW;
   mkJInst "MSTORE8" 0x53 2 0 VERY_LOW; mkJInst "SLOAD" 0x54 1 1 SPECIAL; mkJInst "SSTORE" 0x55 2 0 SPECIAL;
   mkJInst "JUMP" 0x56 1 0 MID; mkJInst "JUMPI" 0x57 2 0 HIGH; mkJInst "PC" 0x58 0 1 BASE;
   mkJInst "MSIZE" 0x59 0 1 BASE; mkJInst "GAS" 0x5a 0 1 BASE; mkJInst "JUMPDEST" 0x5b 0 0 SPECIAL;
   mkJInst "PUSH1" 0x60 0 1 VERY_LOW; mkJInst "PUSH2" 0x61 0 1 VERY_LOW; mkJInst "PUSH3" 0x62 0 1 VERY_LOW;
   mkJInst "PUSH4" 0x63 0 1 VERY_LOW; mkJInst "PUSH5" 0x64 0 1 VERY_LOW; mkJInst "PUSH6" 0x65 0 1 VERY_LOW;
   mkJInst "PUSH7" 0x66 0 1 VERY_LOW; mkJInst "PUSH8" 0x67 0 1 VERY_LOW; mkJInst "PUSH9" 0x68 0 1 VERY_LOW;
   mkJInst "PUSH10" 0x69 0 1 VERY_LOW; mkJInst "PUSH11" 0x6a 0 1 VERY_LOW; mkJInst "PUSH12" 0x6b 0 1 VERY_LOW;
   mkJInst "PUSH13" 0x6c 0 1 VERY_LOW; mkJInst "PUSH14" 0x6d 0 1 VERY_LOW; mkJInst "PUSH15" 0x6e 0 1 VERY_LOW;
   mkJInst "PUSH16" 0x6f 0 1 VERY_LOW; mkJInst "PUSH17" 0x70 0 2 VERY_LOW; mkJInst "PUSH18" 0x71 0 2 VERY_LOW;
   mkJInst "PUSH19" 0x72 0 2 VERY_LOW; mkJInst "PUSH20" 0x73 0 2 VERY_LOW; mkJInst "PUSH21" 0x74 0 2 VERY_LOW;
   mkJInst "PUSH22" 0x75 0 2 VERY_LOW; mkJInst "PUSH23" 0x76 0 2 VERY_LOW; mkJInst "PUSH24" 0x77 0 2 VERY_LOW;
   mkJInst "PUSH25" 0x78 0 2 VERY_LOW; mkJInst "PUSH26" 0x79 0 2 VERY_LOW; mkJInst "PUSH27" 0x7a 0 2 VERY_LOW;
   mkJInst "PUSH28" 0x7b 0 2 VERY_LOW; mkJInst "PUSH29" 0x7c 0 2 VERY_LOW; mkJInst "PUSH30" 0x7d 0 2 VERY_LOW;
   mkJInst "PUSH31" 0x7e 0 2 VERY_LOW; mkJInst "PUSH32" 0x7f 0 2 VERY_LOW; mkJInst "DUP1" 0x80 1 2 VERY_LOW;
   mkJInst "DUP2" 0x81 2 3 VERY_LOW; mkJInst "DUP3" 0x82 3 4 VERY_LOW; mkJInst "DUP4" 0x83 4 5 VERY_LOW;
   mkJInst "DUP5" 0x84 5 6 VERY_LOW; mkJInst "DUP6" 0x85 6 7 VERY_LOW; mkJInst "DUP7" 0x86 7 8 VERY_LOW;
   mkJInst "DUP8" 0x87 8 9 VERY_LOW; mkJInst "DUP9" 0x88 9 10 VERY_LOW; mkJInst "DUP10" 0x89 10 11 VERY_LOW;
   mkJInst "DUP11" 0x8a 11 12 VERY_LOW; mkJInst "DUP12" 0x8b 12 13 VERY_LOW; mkJInst "DUP13" 0x8c 13 14 VERY_LOW;
   mkJInst "DUP14" 0x8d 14 15 VERY_LOW; mkJInst "DUP15" 0x8e 15 16 VERY_LOW; mkJInst "DUP16" 0x8f 16 17 VERY_LOW;
   mkJInst "SWAP1" 0x90 2 2 VERY_LOW; mkJInst "SWAP2" 0x91 3 3 VERY_LOW; mkJInst "SWAP3" 0x92 4 4 VERY_LOW;
   mkJInst "SWAP4" 0x93 5 5 VERY_LOW; mkJInst "SWAP5" 0x94 6 6 VERY_LOW; mkJInst "SWAP6" 0x95 7 7 VERY_LOW;
   mkJInst "SWAP7" 0x96 8 8 VERY_LOW; mkJInst "SWAP8" 0x97 9 9 VERY_LOW; mkJInst "SWAP9" 0x98 10 10 VERY_LOW;
   mkJInst "SWAP10" 0x99 11 11 VERY_LOW; mkJInst "SWAP11" 0x9a 12 12 VERY_LOW; mkJInst "SWAP12" 0x9b 13 13 VERY_LOW;
   mkJInst "SWAP13" 0x9c 14 14 VERY_LOW; mkJInst "SWAP14" 0x9d 15 15 VERY_LOW; mkJInst "SWAP15" 0x9e 16 16 VERY_LOW;
   mkJInst "SWAP16" 0x9f 17 17 VERY_LOW; mkJInst "LOG0" 0xa0 2 0 SPECIAL; mkJInst "LOG1" 0xa1 4 0 SPECIAL;
   mkJInst "LOG2" 0xa2 6 0 SPECIAL; mkJInst "LOG3" 0xa3 8 0 SPECIAL; mkJInst "LOG4" 0xa4 10 0 SPECIAL;
   mkJInst "CREATE" 0xf0 3 1 SPECIAL; mkJInst "CALL" 0xf1 7 1 SPECIAL; mkJInst "CALLCODE" 0xf2 7 1 SPECIAL;
   mkJInst "RETURN" 0xf3 2 0 ZERO; mkJInst "DELEGATECALL" 0xf4 6 1 SPECIAL; mkJInst "STATICCALL" 0xfa 6 1 SPECIAL;
   mkJInst "REVERT" 0xfd 2 0 ZERO; mkJInst "SELFDESTRUCT" 0xff 1 0 ZERO].

(** [Instruction.of]: the last constant with the code. *)
Definition of_ (c : Z) : option JInstruction := List.find (fun i => code i =? Z.land c 0xff) (reverse values).
End JavaInstruction.
Import JavaInstruction(JInstruction).
Module JI := JavaInstruction.

Module Decompiler.
(** [Character.digit(c, 16)]. *)
Definition digit16 (c : Z) : Z := default (-1) (digit 16 c).

(** A character left over is an index out of bounds. *)
Fixpoint hexStringToByteArray (s : jstring) : option (list Z) :=
  match s with
  | [] => Some []
  | [_] => None
  | a :: b :: s => rest ← hexStringToByteArray s; Some (wrap 8 (digit16 a * 16 + digit16 b) :: rest)
  end.

(** [hex.substring(from, to)]. *)
Definition substring (hex : jstring) (from to : nat) : option jstring :=
  if (to <=? length hex)%nat then Some (take (to - from) (drop from hex)) else None.

Abbreviation line := (option JInstruction * option jstring)%type.

(** The loop of [main] from [i]. *)
Fixpoint list_loop (fuel : nat) (hex : jstring) (bytes : list Z) (i : nat) : list line * bool :=
  match fuel with
  | O => ([], false)
  | S fuel =>
      match bytes !! i with
      | None => ([], false)
      | Some b =>
          let inst := JI.of_ b in
          if (0x60 <=? b) && (b <=? 0x7f) then
            let n := Z.to_nat (b - 0x60 + 1) in
            match substring hex ((i + 1) * 2) ((i + 1) * 2 + n * 2) with
            | None => ([(inst, None)], true)
            | Some operand =>
                let '(lines, threw) := list_loop fuel hex bytes (i + n + 1) in ((inst, Some operand) :: lines, threw)
            end
          else let '(lines, threw) := list_loop fuel hex bytes (i + 1) in ((inst, None) :: lines, threw)
      end
  end.

Definition main (arg : jstring) : list line * bool :=
  let hex := if startsWith (js "0x") arg then drop 2 arg else arg in
  match hexStringToByteArray hex with
  | None => ([], true)
  | Some bytes => list_loop (length bytes) hex bytes 0
  end.
End Decompiler.

(** ** Listing code as the machine reads it *)

Lemma hex_digit i : (i < 16)%nat -> Decompiler.digit16 (nth i HexEncoder.ENCODING_TABLE 0) = Z.of_nat i.
Proof. intros Hi. do 16 (destruct i as [| i]; [by vm_compute |]). lia. Qed.

Lemma hex_bytes data : bytes_ok data -> Decompiler.hexStringToByteArray (HexEncoder.encode data) = Some data.
Proof.
  induction 1 as [| v data Hv _ IH]; [done |]. rewrite HexEncoder.encode_cons. unfold HexEncoder.encode_byte.
  cbn [app Decompiler.hexStringToByteArray]. rewrite IH. cbn [mbind option_bind]. unfold inw in Hv.
  assert (0 <= v / 16 < 16) by (split; [apply Z.div_pos | apply Z.div_lt_upper_bound]; lia). pose proof (Z.mod_pos_bound v 16).
  rewrite !hex_digit by lia. rewrite !Z2Nat.id by lia. do 2 f_equal. pose proof (Z.div_mod v 16).
  replace (v / 16 * 16 + v mod 16) with v by lia. apply wrap_small. done.
Qed.

Lemma encode_app a b : HexEncoder.encode (a ++ b) = HexEncoder.encode a ++ HexEncoder.encode b.
Proof. induction a as [| v a IH]; [done |]. cbn [app]. rewrite !HexEncoder.encode_cons, IH. by rewrite app_assoc. Qed.

Lemma encode_substring data i n : (i + n <= length data)%nat ->
  Decompiler.substring (HexEncoder.encode data) (i * 2) (i * 2 + n * 2) = Some (HexEncoder.encode (take n (drop i data))).
Proof.
  intros Hn. unfold Decompiler.substring. rewrite HexEncoder.length_encode, (proj2 (Nat.leb_le _ _)) by lia. f_equal.
  rewrite <- (take_drop i data) at 1. rewrite <- (take_drop n (drop i data)) at 1. rewrite !encode_app.
  rewrite drop_app_length' by (rewrite HexEncoder.length_encode, length_take; lia).
  rewrite take_app_length' by (rewrite HexEncoder.length_encode, length_take, length_drop; lia). done.
Qed.

(** The line of the instruction at a position. *)
Definition line_at (code : list Z) (i : nat) : Decompiler.line :=
  let n := numPushBytes (code_at code i) in
  (JI.of_ (code_at code i), if (n =? 0)%nat then None else Some (HexUtil.toHexString (take n (drop (S i) code)))).

Lemma push_range b : inw 8 b ->
  if (0x60 <=? b) && (b <=? 0x7f) then numPushBytes b = Z.to_nat (b - 0x60 + 1) /\ numPushBytes b <> 0%nat else numPushBytes b = 0%nat.
Proof.
  intros Hb. assert ((if (0x60 <=? b) && (b <=? 0x7f) then (numPushBytes b =? Z.to_nat (b - 0x60 + 1))%nat && negb (numPushBytes b =? 0)%nat
    else (numPushBytes b =? 0)%nat) = true) as H by (revert b Hb; apply forall_byte; vm_compute; reflexivity).
  destruct (_ && _); [| by apply Nat.eqb_eq]. apply andb_prop in H as [H1 H2].
  apply Nat.eqb_eq in H1. apply negb_true_iff, Nat.eqb_neq in H2. done.
Qed.

(** Every immediate operand is there in full. *)
Definition complete (code : list Z) : Prop :=
  Forall (fun i => (S i + numPushBytes (code_at code i) <= length code)%nat) (walk (length code) code 0).

Lemma list_loop_walk fuel code i :
  bytes_ok code -> Forall (fun i => (S i + numPushBytes (code_at code i) <= length code)%nat) (walk fuel code i) ->
  Decompiler.list_loop fuel (HexUtil.toHexString code) code i = (line_at code <$> walk fuel code i, false).
Proof.
  intros Hc. revert i. induction fuel as [| fuel IH]; intros i Hw; [done |]. cbn [walk Decompiler.list_loop] in *.
  destruct (Nat.ltb_spec i (length code)) as [Hi | Hi]; [| by rewrite (lookup_ge_None_2 code i) by done].
  destruct (lookup_lt_is_Some_2 code i Hi) as [b Hb]. rewrite Hb. apply Forall_cons_1 in Hw as [Hop Hw].
  assert (code_at code i = b) as Hat by (unfold code_at; by rewrite Hb).
  assert (inw 8 b) as Hbyte by (rewrite <- Hat; by apply code_at_byte).
  rewrite (nxt_eq code i Hi), Nat.min_l in * by lia. rewrite fmap_cons. unfold line_at at 1. rewrite Hat in *.
  pose proof (push_range b Hbyte) as Hp. destruct (_ && _).
  - destruct Hp as [Hn Hz]. rewrite <- Hn. unfold HexUtil.toHexString at 1. rewrite encode_substring by lia.
    replace (i + numPushBytes b + 1)%nat with (S i + numPushBytes b)%nat by lia. rewrite IH by done.
    rewrite (proj2 (Nat.eqb_neq _ 0)) by done. replace (i + 1)%nat with (S i) by lia. done.
  - rewrite Hp in *. replace (i + 1)%nat with (S i + 0)%nat by lia. by rewrite IH.
Qed.

(** The decompiler lists the instructions that the machine finds, with their
    immediate operands in hexadecimal, when no operand is cut off. *)
Theorem decompiler_lists code :
  bytes_ok code -> complete code ->
  Decompiler.main (js "0x" ++ HexUtil.toHexString code) = (line_at code <$> walk (length code) code 0, false).
Proof.
  intros Hc Hw. unfold Decompiler.main. set (h := HexUtil.toHexString code).
  assert (startsWith (js "0x") (js "0x" ++ h) = true) as -> by done. change (drop 2 (js "0x" ++ h)) with h.
  unfold h at 1, HexUtil.toHexString. rewrite hex_bytes by done. by apply list_loop_walk.
Qed.

(** ** The table *)

(** The constants whose stack items are not those of the machine: an address
    counts for one item, as before addresses took two words. *)
Definition outdated : list Z := [0x3b; 0x3c; 0xf0; 0xf1; 0xf2; 0xf4; 0xfa; 0xff].

Definition row_items (b : Z) : bool :=
  let inst := Instruction_of_byte b in
  match JI.of_ b with
  | Some i => (JI.code i =? b) &&
      Bool.eqb (negb (bool_decide (b ∈ outdated))) ((inst_args inst =? JI.req i)%nat && (inst_ret inst =? JI.ret i)%nat)
  | None => true
  end.

(** Apart from eight instructions that take or return an address, the
    enumeration has the stack items of the machine's instructions; for these
    eight it does not. *)
Theorem java_table_items b i :
  inw 8 b -> JI.of_ b = Some i ->
  JI.code i = b /\
  (inst_args (Instruction_of_byte b) = JI.req i /\ inst_ret (Instruction_of_byte b) = JI.ret i <-> b ∉ outdated).
Proof.
  intros Hb Hi. assert (row_items b = true) as Hr by (revert b Hb Hi; intros b Hb _; revert b Hb; apply forall_byte; vm_compute; reflexivity).
  unfold row_items in Hr. rewrite Hi in Hr. apply andb_prop in Hr as [Hc Hr]. apply Z.eqb_eq in Hc. split; [done |].
  apply Bool.eqb_prop in Hr. rewrite <- !Nat.eqb_eq, <- andb_true_iff, <- Hr, negb_true_iff. by rewrite bool_decide_eq_false.
Qed.

Lemma java_table_items_witness :
  exists i, JI.of_ 0xf1 = Some i /\ JI.j_name i = "CALL" /\
    ~ (inst_args (Instruction_of_byte 0xf1) = JI.req i /\ inst_ret (Instruction_of_byte 0xf1) = JI.ret i).
Proof.
  eexists. split; [vm_compute; reflexivity |]. split; [reflexivity |].
  intros Hi. eapply java_table_items in Hi; [| split; vm_compute; congruence | vm_compute; reflexivity].
  apply Hi. apply (bool_decide_unpack _). vm_compute. exact I.
Defined.
