(* ===== verification/System.v ===== *)
(** * The whole system

    A transaction from FastVirtualMachine.java down to compiled code and back:
    [Transaction.run] runs contract code through FastVM.java, the JNI library
    ([JniHost.run]) and the just-in-time compiler ([JIT.execute]); the compiled
    code calls the table of the JNI library, whose entries are the methods of
    Callback.java, and these run nested calls the same way, on the same instance
    of the compiler and the same objects.  The theorems are about money: whatever
    the contracts do, the sum of all balances never grows.

    The answer of a method that throws inside native code, where the library
    goes on with a null reference, is arbitrary, and so is whether the exception
    is thrown again when the native code returns; a run that is undefined or cut
    short counts as an exception. *)
From stdpp Require Import gmap.
From S2P Require Import Prelude Bytes EvmAbi Keccak Runtime IR Builder NullHost Program Cache HostInv JIT.
From S2P Require Import JavaData SideEffects ExecutionContext Jni JniHost Callback Transaction.
Import FastVmResultCode(FastVmResultCode) TransactionKind(TransactionKind) SideEffects(SideEffects).
Import C(ExecutionContext) R(FastVmTransactionResult, mkTxResult) CacheMode(CacheMode).

(** ** Triples for methods *)

Section Triples.
Context {N S : Type}.
Abbreviation J := (method N S).
Abbreviation assertion := (jvm N S -> Prop).

(** From a state with [P] the method returns with [Q] or throws with [E]. *)
Definition triple {A} (P : assertion) (m : J A) (Q : A -> assertion) (E : assertion) : Prop :=
  forall st, P st -> match m st with (Some a, st') => Q a st' | (None, st') => E st' end.

Lemma triple_bind {A B} P (m : J A) Q E (f : A -> J B) R :
  triple P m Q E -> (forall a, triple (Q a) (f a) R E) -> triple P (m ≫= f) R E.
Proof.
  intros Hm Hf st Hst. pose proof (Hm st Hst) as H1. unfold mbind, method_bind. destruct (m st) as [[a |] st1]; [by apply Hf | done].
Qed.
Lemma triple_step {A B} P (m : J A) (Q Q' : A -> assertion) E (f : A -> J B) R :
  triple P m Q E -> (forall a st, Q a st -> Q' a st) -> (forall a, triple (Q' a) (f a) R E) -> triple P (m ≫= f) R E.
Proof. intros Hm HQ Hf. eapply triple_bind; [exact Hm |]. intros a st Hst. by apply Hf, HQ. Qed.
Lemma triple_ret {A} (P : assertion) (a : A) (Q : A -> assertion) E : (forall st, P st -> Q a st) -> triple P (mret a) Q E.
Proof. intros HP st Hst. by apply HP. Qed.
Lemma triple_conseq {A} (P P' : assertion) (m : J A) (Q Q' : A -> assertion) (E E' : assertion) :
  triple P' m Q' E' -> (forall st, P st -> P' st) -> (forall a st, Q' a st -> Q a st) -> (forall st, E' st -> E st) -> triple P m Q E.
Proof. intros Hm HP HQ HE st Hst. pose proof (Hm st (HP st Hst)) as H1. destruct (m st) as [[a |] st1]; auto. Qed.
Lemma triple_pure {A} (φ : Prop) (P : assertion) (m : J A) Q E : (φ -> triple P m Q E) -> triple (fun st => φ /\ P st) m Q E.
Proof. intros Hm st [Hφ Hst]. by apply Hm. Qed.
Lemma triple_lift {A} (P E : assertion) (o : option A) : (forall st, P st -> E st) -> triple P (lift_option o) (fun a st => o = Some a /\ P st) E.
Proof. intros HE st Hst. destruct o; [by split | by apply HE]. Qed.
Lemma triple_context_at (P E : assertion) i : (forall st, P st -> E st) -> triple P (context_at i) (fun c st => contexts st !! i = Some c /\ P st) E.
Proof. intros HE st Hst. unfold context_at. destruct (contexts st !! i) eqn:E1; cbn; [by split | by apply HE]. Qed.
Lemma triple_world_at (P E : assertion) i : (forall st, P st -> E st) -> triple P (world_at i) (fun s st => worlds st !! i = Some s /\ P st) E.
Proof. intros HE st Hst. unfold world_at. destruct (worlds st !! i) eqn:E1; cbn; [by split | by apply HE]. Qed.
Lemma triple_peek (P E : assertion) : (forall st, P st -> E st) -> triple P peek (fun p st => head (stack st) = Some p /\ P st) E.
Proof. intros HE st Hst. unfold peek. destruct (head (stack st)) eqn:E1; cbn; [by split | by apply HE]. Qed.
Lemma triple_context (P E : assertion) : (forall st, P st -> E st) -> triple P context (fun _ => P) E.
Proof.
  intros HE. eapply triple_bind; [by apply triple_peek |]. intros p.
  eapply triple_conseq; [by apply (triple_context_at P E) | by intros st [_ ?] | by intros c st [_ ?] | done].
Qed.
(** The world state on top of the stack. *)
Definition top_world (s : S) (st : jvm N S) : Prop := exists p, head (stack st) = Some p /\ worlds st !! p.2 = Some s.
Lemma triple_state (P E : assertion) : (forall st, P st -> E st) -> triple P externalState (fun s st => top_world s st /\ P st) E.
Proof.
  intros HE. eapply triple_bind; [by apply triple_peek |]. intros p.
  eapply triple_conseq; [apply (triple_world_at (fun st => head (stack st) = Some p /\ P st) E); intros st [_ ?]; by apply HE | done | | done].
  intros s st (Hs & Hp & HP). split; [by exists p | done].
Qed.
(** Assertions that say nothing of the contexts but that they are there. *)
Definition context_free (P : assertion) : Prop := forall st cs, (length (contexts st) <= length cs)%nat -> P st ->
  P (mkJvm cs (worlds st) (stack st) (library st)).
Lemma triple_change_context (P E : assertion) i f : context_free P -> triple P (change_context i f) (fun _ => P) E.
Proof. intros HP st Hst. apply (HP st); [by rewrite length_alter | done]. Qed.
Lemma triple_effect (P E : assertion) f : context_free P -> (forall st, P st -> E st) -> triple P (effect f) (fun _ => P) E.
Proof.
  intros HP HE. eapply triple_bind; [by apply triple_peek |]. intros p.
  eapply triple_conseq; [by apply (triple_change_context P E) | by intros st [_ ?] | done | done].
Qed.
End Triples.

(** ** The native library with the methods of Callback.java *)

Section System.
Context {S F O : Type} {HS : ExternalState S} {HTS : TransactionState S} {HFold : LLVMFolder}.
Context {HEngine : Engine F O (evm_tx_context * jvm () S)}.
Context (equals : InternalTransaction -> InternalTransaction -> bool).
Context (computeNewContractAddress : list Z -> Z -> list Z) (g_optimize : bool).
Context (uninit : Z) (uninit_hash undef_addr : list Z) (uninit_msg : evm_message) (fuel : nat).

(** The state of the library: the global [ctx] and the instance of the compiler. *)
Abbreviation lib := (evm_tx_context * JITImpl F O)%type.
Abbreviation process := (JITImpl F O * (evm_tx_context * jvm () S))%type.
Abbreviation state := (jvm lib S).

Definition enter (h : process) : state := let '(j, (tx, k)) := h in mkJvm (contexts k) (worlds k) (stack k) (tx, j).
Definition leave (st : state) : process := (snd (library st), (fst (library st), mkJvm (contexts st) (worlds st) (stack st) tt)).

(** What native code finds where a method threw, of the length it reads, and whether an exception is
    pending when the native code returns, which is thrown then. *)
Context (undefined_bytes : nat -> process -> list Z) (undefined_flag pending : process -> bool).

Definition answer {A} (u : process -> A) (m : method lib S A) (h : process) : A := default (u h) (m (enter h)).1.
Definition after {A} (m : method lib S A) (h : process) : process := leave (m (enter h)).2.

(** An array of Java holds bytes. *)
Definition jbytes (l : list Z) : list Z := wrap 8 <$> l.

Definition java_callback (native_run : bool -> list Z -> list Z -> method lib S (list Z)) : JavaCallback process :=
  mkCallback
    (fun h n => answer (undefined_bytes 32) (getBlockHash n) h)
    (fun h a => answer (undefined_bytes 0) (cbGetCode a) h)
    (fun h a => answer (undefined_bytes 16) (cbGetBalance a) h)
    (fun h a => answer undefined_flag (exists_ a) h)
    (fun h a k => answer (undefined_bytes 16) (getStorage a k) h)
    (fun h a k v => after (putStorage a k v) h)
    (fun h a b => after (selfDestruct a b) h)
    (fun h a topics data => after (log a topics data) h)
    (fun h m => let m := call equals computeNewContractAddress native_run (jbytes m) in (answer (undefined_bytes 0) m h, after m h)).

(** *** The answers of the methods

    The methods answer native code as [callback_ok] says: arrays of the right
    lengths, and encoded results with no more energy than was given.  It takes
    the world state, the precompiled contracts and the nested runs to do so. *)
Section Answers.
Context (native_run : bool -> list Z -> list Z -> method lib S (list Z)).

(** A result of an execution with the energy [g]. *)
Definition result_fits (g : Z) (r : FastVmTransactionResult) : Prop :=
  0 <= R.energyRemaining r <= Z.max 0 g /\ bytes_ok (R.output r) /\ Z.of_nat (length (R.output r)) < 2 ^ 31 - 16.

Record answers_ok : Prop := {
  ans_undefined n h : bytes_of_len n (undefined_bytes n h);
  ans_hash s n l : getBlockHashByNumber s n = Some l -> bytes_of_len 32 l;
  ans_code s a l : getCode s a = Some l -> bytes_ok l /\ Z.of_nat (length l) < 2 ^ 31;
  ans_balance s a v : getBalance s a = Some v -> 0 <= v;
  ans_storage s a k l : getStorageValue s a k = Some l -> bytes_of_len 16 l;
  ans_address a n : bytes_of_len 32 (computeNewContractAddress a n);
  ans_precompiled c s : result_fits (C.nrg c) (runInternalPrecompiledContractCall c s).1.1;
  ans_run post code c bytes c' st out st' r : C.toBytes c = Some (bytes, c') ->
    native_run post code bytes st = (Some out, st') -> R.fromBytes out = Some r -> result_fits (C.nrg c) r
}.
Context (HA : answers_ok).

Lemma fits_make code g : result_fits g (R.make code g []).
Proof. split; cbn; [lia |]. split; [constructor | lia]. Qed.
Lemma fits_zero code g : result_fits g (R.make code 0 []).
Proof. split; cbn; [lia |]. split; [constructor | lia]. Qed.

(** The context of the execution has the energy [g] all the way. *)
Section Energy.
Context (ctx : nat) (g : Z).
Definition energy_is (st : state) : Prop := exists c, contexts st !! ctx = Some c /\ C.nrg c = g.
Definition same_energy (f : ExecutionContext -> ExecutionContext) : Prop := forall c, C.nrg (f c) = C.nrg c.
Abbreviation any := (fun _ : state => True).

Lemma energy_change i f : same_energy f -> triple energy_is (change_context i f) (fun _ => energy_is) any.
Proof.
  intros Hf st (c & Hc & Hg). unfold energy_is. cbn [change_context contexts]. rewrite list_lookup_alter.
  destruct (decide (i = ctx)) as [-> |]; [| by exists c]. exists (f c). rewrite Hc. split; [done |]. by rewrite Hf.
Qed.
Lemma energy_effect f : triple energy_is (effect f) (fun _ => energy_is) any.
Proof. eapply triple_step; [by apply (triple_peek energy_is any) | by intros p st [_ H1]; exact H1 |]. intros p. by apply energy_change. Qed.
Lemma energy_context : triple energy_is (context_at ctx) (fun c st => C.nrg c = g /\ energy_is st) any.
Proof.
  eapply triple_conseq; [by apply (triple_context_at energy_is any) | done | | done].
  intros c st [Hc He]. split; [| done]. destruct He as (c' & Hc' & Hg). congruence.
Qed.
Lemma energy_state {A} (f : S -> method lib S A) Q :
  (forall s, triple energy_is (f s) Q any) -> triple energy_is (externalState ≫= f) Q any.
Proof. intros Hf. eapply triple_step; [by apply (triple_state energy_is any) | by intros s st [_ H1]; exact H1 | done]. Qed.
Lemma energy_world {A} i (f : S -> method lib S A) Q :
  (forall s, triple energy_is (f s) Q any) -> triple energy_is (world_at i ≫= f) Q any.
Proof. intros Hf. eapply triple_step; [by apply (triple_world_at energy_is any) | by intros s st [_ H1]; exact H1 | done]. Qed.
Lemma energy_peek {A} (f : nat * nat -> method lib S A) Q :
  (forall p, triple energy_is (f p) Q any) -> triple energy_is (peek ≫= f) Q any.
Proof. intros Hf. eapply triple_step; [by apply (triple_peek energy_is any) | by intros s st [_ H1]; exact H1 | done]. Qed.
Lemma energy_lift {A B} (o : option A) (f : A -> method lib S B) Q :
  (forall a, o = Some a -> triple energy_is (f a) Q any) -> triple energy_is (lift_option o ≫= f) Q any.
Proof. intros Hf. eapply triple_bind; [by apply (triple_lift energy_is any) |]. intros a. apply triple_pure, Hf. Qed.
Lemma energy_new s : triple energy_is (new_world s) (fun _ => energy_is) any.
Proof. intros st Hst. exact Hst. Qed.
Lemma energy_change_world i f : triple energy_is (change_world i f) (fun _ => energy_is) any.
Proof. intros st Hst. exact Hst. Qed.

Abbreviation fits := (fun (r : FastVmTransactionResult) (_ : state) => result_fits g r).

Lemma runFork_fits post code world : triple energy_is (runFork native_run post code ctx world) fits any.
Proof.
  eapply (triple_bind _ _ (fun _ => energy_is)); [intros st Hst; exact Hst |]. intros [].
  eapply (triple_bind _ _ (fun bytes _ => exists c c', C.toBytes c = Some (bytes, c') /\ C.nrg c = g)).
  { eapply triple_bind; [apply energy_change; intros c; unfold C.forget_data; by destruct (C.isCreate c) |]. intros [].
    eapply triple_bind; [apply energy_context |]. intros c. apply triple_pure. intros Hg st _.
    destruct (C.toBytes c) as [[bytes c'] |] eqn:E; [by exists c, c' | done]. }
  intros bytes st (c & c' & Hb & <-). unfold mbind, method_bind. destruct (native_run post code bytes st) as [[out |] st'] eqn:E; [| done].
  destruct (pop st') as [[[] |] st'']; [| done]. destruct (R.fromBytes out) as [r |] eqn:Er; [| done]. by eapply (ans_run HA).
Qed.
Lemma callCode_fits a child : triple energy_is (callCode native_run a ctx child) fits any.
Proof.
  eapply triple_bind; [apply energy_context |]. intros c. apply triple_pure. intros Hg. apply energy_world. intros s.
  destruct (isPrecompiledContract s (C.address c)).
  - pose proof (ans_precompiled HA c s) as Hr. destruct (runInternalPrecompiledContractCall c s) as [[r c'] s']. rewrite Hg in Hr. intros st _. exact Hr.
  - cbv zeta. destruct (_ =? 0)%nat; [rewrite Hg; apply triple_ret; intros st _; apply fits_make | apply runFork_fits].
Qed.
Lemma createCode_fits taken child : triple energy_is (createCode native_run taken ctx child) fits any.
Proof.
  eapply triple_bind; [apply energy_context |]. intros c. apply triple_pure. intros Hg. apply energy_world. intros s.
  cbv zeta. destruct taken; [apply triple_ret; intros st _; apply fits_zero |].
  destruct (_ =? 0)%nat; [rewrite Hg; apply triple_ret; intros st _; apply fits_make | apply runFork_fits].
Qed.

(** The results of calls, and of creations, which answer the new address. *)
Lemma doCall_fits : triple energy_is (doCall equals native_run ctx) fits any.
Proof.
  eapply triple_bind; [apply energy_context |]. intros c. apply triple_pure. intros _. cbv zeta. set (own := is_own _).
  eapply (triple_bind _ _ (fun _ => energy_is)).
  { destruct own; [| by apply triple_ret]. eapply triple_bind; [by apply (triple_context energy_is any) |]. intros prev. by apply energy_change. }
  intros []. apply energy_state. intros s. destruct (negb _); [apply triple_ret; intros st _; apply fits_zero |].
  apply energy_peek. intros parent. eapply triple_bind; [apply energy_new |]. intros child.
  eapply triple_bind; [apply energy_context |]. intros c2. apply triple_pure. intros _. apply energy_world. intros w.
  eapply triple_bind; [apply energy_effect |]. intros []. eapply (triple_bind _ _ (fun _ => energy_is)).
  { destruct own; [by apply triple_ret | intros st Hst; exact Hst]. }
  intros []. eapply triple_bind; [apply callCode_fits |]. intros r st Hr. unfold finish, mbind, method_bind.
  destruct (bool_decide (R.code r = _)); [destruct (commit_to _ _ _) as [[u |] st1] | destruct (reject _ _ _) as [[u |] st1]]; done.
Qed.
Lemma doCreate_fits : triple energy_is (doCreate equals computeNewContractAddress native_run ctx)
  (fun r _ => result_fits g r /\ (R.code r = FastVmResultCode.SUCCESS -> length (R.output r) = 32%nat)) any.
Proof.
  apply energy_peek. intros parent. apply energy_state. intros s. eapply triple_bind; [apply energy_new |]. intros child.
  eapply triple_bind; [apply energy_context |]. intros c2. apply triple_pure. intros _. apply energy_world. intros w. cbv zeta.
  set (a := computeNewContractAddress _ _).
  eapply triple_bind; [by apply energy_change |]. intros []. eapply triple_bind; [apply energy_effect |]. intros [].
  apply energy_lift. intros bal _. eapply triple_bind; [apply energy_change_world |]. intros []. apply energy_world. intros w2.
  eapply triple_bind; [by apply energy_change |]. intros []. eapply triple_bind; [apply createCode_fits |].
  intros r st Hr. unfold finishCreate, mbind, method_bind. destruct (ans_address HA (C.sender c2) (getNonce w (C.sender c2))) as [Hal Hab]. fold a in Hal, Hab.
  destruct (bool_decide _) eqn:E; [destruct (_ <? _) |].
  - destruct (reject _ _ _) as [[u |] st1]; [| done]. split; [| done]. destruct Hr as (_ & Ho & Hl). split; cbn; [lia | done].
  - destruct (change_world _ _ _) as [[u |] st1]; [| done]. destruct (commit_to _ _ _) as [[u2 |] st2]; [| done].
    split; [| done]. destruct Hr as (He & _ & _). split; [done |]. cbn. rewrite Hal. split; [done | lia].
  - destruct (reject _ _ _) as [[u |] st1]; [| done]. split; [done |]. apply bool_decide_eq_false in E. done.
Qed.
End Energy.

(** A message of native code arrives with its energy and its kind. *)
Lemma parse_sent prev m c : struct_ok m -> Z.of_nat (length (input m)) < 2 ^ 32 - 104 ->
  parseMessage prev (jbytes (message_bytes m)) = Some c ->
  C.nrg c = sgn 64 (wrap 64 (msg_gas m)) /\ C.kind c = kind_to (kind m).
Proof.
  intros (Ha & Hc & Hv) Hi. unfold message_bytes, jbytes. rewrite !fmap_app. set (w := fmap (wrap 8)).
  assert (forall n z, w (be_bytes n z) = be_bytes n z) as Hbe.
  { intros n z. rewrite <- (list_fmap_id (be_bytes n z)) at 2. apply Forall_fmap_ext_1.
    apply list.Forall_forall. intros x Hx. pose proof (be_bytes_ok n z) as Hok. rewrite list.Forall_forall in Hok.
    by apply wrap_small, Hok. }
  assert (forall l, length (w l) = length l) as Hw by (intros l; apply length_fmap). rewrite !Hbe. unfold parseMessage.
  rewrite bind_get by (rewrite Hw; lia). cbv beta match. rewrite bind_get by (rewrite Hw; lia). cbv beta match.
  rewrite bind_getLong. cbv beta match. rewrite bind_get by (rewrite Hw; lia). cbv beta match zeta. rewrite bind_getInt. cbv beta match.
  destruct (Z.lt_ge_cases (Z.of_nat (length (input m))) (2 ^ 31)) as [Hs | Hb].
  - rewrite (sgn_wrap_small 32) by lia. rewrite bind_get by (by rewrite Hw). cbv beta match. rewrite bind_getInt. cbv beta match.
    rewrite bind_getInt. cbv beta match. replace (TransactionKind.fromInt _) with (Some (kind_to (kind m))) by by destruct (kind m).
    rewrite bind_some. rewrite <- (app_nil_r (be_bytes 4 (flags m))), bind_getInt. cbv beta match.
    intros (price & _ & Hr)%bind_Some. apply bind_Some in Hr as (v & _ & [= <-]). done.
  - replace (sgn 32 _) with (Z.of_nat (length (input m)) - 2 ^ 32); [| rewrite wrap_small by (unfold inw; lia); unfold sgn; case_match; lia].
    unfold get at 1. destruct (Z.leb_spec 0 (Z.of_nat (length (input m)) - 2 ^ 32)); [lia | done].
Qed.

Lemma performResult_fits message g k st : (forall prev c, parseMessage prev message = Some c -> C.nrg c = g /\ C.kind c = k) ->
  match performResult equals computeNewContractAddress native_run message st with
  | (Some r, _) => result_fits g r /\ (k = TransactionKind.CREATE -> R.code r = FastVmResultCode.SUCCESS -> length (R.output r) = 32%nat)
  | (None, _) => True
  end.
Proof.
  intros Hm. assert (Hfail : result_fits g failure /\ (k = TransactionKind.CREATE -> R.code failure = FastVmResultCode.SUCCESS -> length (R.output failure) = 32%nat))
    by (split; [apply fits_zero | done]).
  unfold performResult, mbind, method_bind. destruct (context st) as [[prev |] st1]; [| done].
  destruct (parseMessage prev message) as [c |] eqn:Ep; [| done]. destruct (Hm prev c Ep) as [Hg Hk]. cbn [lift_option mret method_ret new_context].
  set (st2 := mkJvm _ _ _ _). assert (energy_is (length (contexts st1)) g st2) as He by (exists c; split; [by apply list_lookup_middle | done]).
  unfold nested. destruct (_ <=? _); [exact Hfail |].
  assert (triple (energy_is (length (contexts st1)) g) (if bool_decide (C.kind c = TransactionKind.CREATE)
    then doCreate equals computeNewContractAddress native_run (length (contexts st1)) else doCall equals native_run (length (contexts st1)))
    (fun r _ => result_fits g r /\ (k = TransactionKind.CREATE -> R.code r = FastVmResultCode.SUCCESS -> length (R.output r) = 32%nat)) (fun _ => True)) as Hd.
  { rewrite Hk. destruct (bool_decide_reflect (k = TransactionKind.CREATE)) as [E | E].
    - eapply triple_conseq; [apply doCreate_fits | done | | done]. intros r st' [H1 H2]. split; [done |]. intros _. exact H2.
    - eapply triple_conseq; [apply doCall_fits | done | | done]. intros r st' H1. by split. }
  refine (_ st2 He : match _ with (Some r, _) => _ | (None, _) => True end).
  apply (energy_state (length (contexts st1)) g). intros s. apply energy_lift. intros b _. destruct (_ <? _); [apply triple_ret; by intros st' _ |].
  eapply triple_bind; [exact Hd |]. intros r st' Hr. unfold mbind, method_bind. by destruct (mergeEffects _ _ _) as [[u |] st3].
Qed.

(** The table of the native library meets what compiled code relies on when its
    entries are the methods of Callback.java. *)
Theorem java_callback_ok : callback_ok (java_callback native_run).
Proof.
  split; cbn [java_callback cb_get_storage cb_get_balance cb_get_code cb_get_block_hash cb_call]; unfold answer.
  - intros h a k. unfold getStorage, mbind, method_bind. destruct (externalState (enter h)) as [[s |] st]; [| apply (ans_undefined HA)].
    destruct (FvmDataWord.fromBytes k) as [key |]; [| apply (ans_undefined HA)]. cbn. destruct (getStorageValue s a key) as [v |] eqn:E; [| apply (ans_undefined HA)].
    by eapply (ans_storage HA).
  - intros h a. unfold cbGetBalance, mbind, method_bind. destruct (externalState (enter h)) as [[s |] st]; [| apply (ans_undefined HA)].
    destruct (getBalance s a) as [v |] eqn:E; [| exact (zeros_of_len 16)]. cbn. apply (ans_balance HA) in E.
    rewrite FvmDataWord.fromBigInteger_spec by done. destruct (_ <? _); [| apply (ans_undefined HA)]. split; [apply length_be_bytes | apply be_bytes_ok].
  - intros h a. unfold cbGetCode, mbind, method_bind. destruct (externalState (enter h)) as [[s |] st]; cbn.
    + destruct (getCode s a) as [l |] eqn:E; cbn; [by eapply (ans_code HA) | by split; [constructor |]].
    + destruct (ans_undefined HA 0 h) as [-> %nil_length_inv _]. by split; [constructor |].
  - intros h n. unfold getBlockHash, mbind, method_bind. destruct (externalState (enter h)) as [[s |] st]; [| apply (ans_undefined HA)]. cbn.
    destruct (getBlockHashByNumber s n) as [l |] eqn:E; [by eapply (ans_hash HA) | exact (zeros_of_len 32)].
  - intros h m b Hb. apply encode_message_inv in Hb as (Hs & Hi & ->). cbv zeta. cbn [fst]. unfold call, performCall, mbind, method_bind.
    set (g := sgn 64 (wrap 64 (msg_gas m))).
    assert (-2 ^ 63 <= g < 2 ^ 63) as Hg by (pose proof (sgn_range 64 (wrap 64 (msg_gas m)) ltac:(lia) (wrap_inw 64 (msg_gas m) ltac:(lia))); unfold g; lia).
    assert (0 <= msg_gas m -> Z.max 0 g <= msg_gas m) as Hle.
    { intros Hm. unfold g, sgn. pose proof (Z.mod_le (msg_gas m) (2 ^ 64) Hm ltac:(lia)) as Hmod. fold (wrap 64 (msg_gas m)) in Hmod.
      pose proof (wrap_inw 64 (msg_gas m) ltac:(lia)). unfold inw in *. case_match; lia. }
    pose proof (performResult_fits (jbytes (message_bytes m)) g (kind_to (kind m)) (enter h) (fun prev c => parse_sent prev m c Hs Hi)) as Hr.
    assert (forall r, result_fits g r -> (kind_to (kind m) = TransactionKind.CREATE -> R.code r = FastVmResultCode.SUCCESS -> length (R.output r) = 32%nat) ->
      (0 <= msg_gas m -> 0 <= R.energyRemaining r <= msg_gas m) /\ - 2 ^ 63 <= R.energyRemaining r < 2 ^ 63 /\ bytes_ok (R.output r) /\
      Z.of_nat (length (R.output r)) < 2 ^ 31 - 16 /\ (kind m = EVM_CREATE -> R.code r = FastVmResultCode.SUCCESS -> (32 <= length (R.output r))%nat)) as Hfits.
    { intros r (He & Ho & Hl) Hcr. split_and!; try done; try lia. intros Hk Hc. rewrite Hcr; [lia | by rewrite Hk | done]. }
    destruct (performResult _ _ _ _ (enter h)) as [[r |] st].
    + destruct Hr as [Hr Hcr]. exists r. split; [| by apply Hfits]. destruct Hr as (_ & _ & Hl). rewrite toBytes_result by done. done.
    + exists (R.make FastVmResultCode.VM_INTERNAL_ERROR 0 []). split; [reflexivity |]. apply Hfits; [apply fits_zero | done].
Qed.
End Answers.

(** The native [run] with up to [n] runs inside each other; Callback.java
    refuses calls at a depth of 128. *)
Fixpoint native (n : nat) : bool -> list Z -> list Z -> method lib S (list Z) := fun post040 code bytes st =>
  match n with
  | 0%nat => (None, st)
  | Datatypes.S n =>
      match JniHost.run g_optimize (java_callback (native n)) uninit uninit_hash undef_addr uninit_msg fuel code bytes
              (if post040 then EVM_AION_V1 else EVM_AION) (leave st) with
      | Val (ret, h) => (if pending h then None else Some ret, enter h)
      | _ => (None, st)
      end
  end.

Definition system_run (n : nat) : S -> Transaction -> bool -> program lib S (FvmWrappedTransactionResult * S) :=
  Transaction.run computeNewContractAddress (native n).

(** ** Money *)

Context (total : S -> Z).

(** What the code relies on of the world state: [total] is the sum of the
    balances. *)
Record ledger_ok : Prop := {
  led_balances : balances_ok (S := S);
  led_fees : transactions_ok (S := S);
  led_add a v s : total (addBalance a v s) = total s + v;
  led_child s : total (newChildExternalState s) = total s;
  led_commit child s : total (commit child s) = total child;
  led_create a s : total (createAccount a s) = total s - balance s a;
  led_nonce a s : total (incrementNonce a s) = total s;
  led_code a code s : total (putCode a code s) = total s;
  led_deduct a v s : total (deductEnergyCost a v s) = total s - v;
  led_vm a s : total (setVmType a s) = total s;
  led_store a k v s : total (addStorageValue a k v s) = total s;
  led_store_balance a k v s b : balance (addStorageValue a k v s) b = balance s b;
  led_remove a k s : total (removeStorage a k s) = total s;
  led_remove_balance a k s b : balance (removeStorage a k s) b = balance s b
}.

(** At most [M] in all, and no account overdrawn. *)
Definition sound (M : Z) (s : S) : Prop := total s <= M /\ forall a, 0 <= balance s a.

(** The precompiled contracts, if there are any, make no money. *)
Definition precompiled_sound : Prop := forall M ctx s, isPrecompiledContract s (C.address ctx) = true ->
  sound M s -> sound M (runInternalPrecompiledContractCall ctx s).2.

Context (HL : ledger_ok) (Hprec : precompiled_sound).
Let HB : balances_ok (S := S) := led_balances HL.

(** What a function of the engine runs is a program, which reaches the host
    through its table. *)
Context (Hengine : forall n f E g h c s, callFunc n f E g h = Some (Returned c s) ->
  exists P, runMain E P n g h = Some (Returned c s)).

Section Frames.
Context (M : Z).

Lemma sound_same s s' : total s' = total s -> (forall a, balance s' a = balance s a) -> sound M s -> sound M s'.
Proof. intros Ht Hb [H1 H2]. split; [lia |]. intros a. by rewrite Hb. Qed.

Lemma sound_child s : sound M s -> sound M (newChildExternalState s).
Proof. apply sound_same; [apply (led_child HL) | apply (bal_child HB)]. Qed.
Lemma sound_commit child s : sound M child -> sound M (commit child s).
Proof. apply sound_same; [apply (led_commit HL) | apply (bal_commit HB)]. Qed.
Lemma sound_nonce a s : sound M s -> sound M (incrementNonce a s).
Proof. apply sound_same; [apply (led_nonce HL) | intros; apply (bal_nonce HB)]. Qed.
Lemma sound_code a code s : sound M s -> sound M (putCode a code s).
Proof. apply sound_same; [apply (led_code HL) | intros; apply (bal_code HB)]. Qed.
Lemma sound_store a k v s : sound M s -> sound M (addStorageValue a k v s).
Proof. apply sound_same; [apply (led_store HL) | intros; apply (led_store_balance HL)]. Qed.
Lemma sound_remove a k s : sound M s -> sound M (removeStorage a k s).
Proof. apply sound_same; [apply (led_remove HL) | intros; apply (led_remove_balance HL)]. Qed.

(** Moving an amount that is there, and taking it away. *)
Lemma sound_transfer from to v s : 0 <= v <= balance s from -> sound M s -> sound M (addBalance to v (addBalance from (- v) s)).
Proof.
  intros Hv [Ht Hb]. split; [rewrite !(led_add HL); lia |]. intros a. rewrite !(bal_add HB). pose proof (Hb a).
  destruct (decide (from = a)) as [-> |], (decide (to = a)); lia.
Qed.
Lemma sound_take from v s : 0 <= v <= balance s from -> sound M s -> sound M (addBalance from (- v) s).
Proof.
  intros Hv [Ht Hb]. split; [rewrite (led_add HL); lia |]. intros a. rewrite (bal_add HB). pose proof (Hb a).
  destruct (decide (from = a)) as [-> |]; lia.
Qed.

Lemma sound_prepareCreate ctx a s : 0 <= C.getTransferValue ctx <= balance s (C.sender ctx) -> sound M s ->
  sound M (prepareCreate ctx a (balance s a) s).
Proof.
  intros Hv Hs. unfold prepareCreate. set (s1 := addBalance a _ (incrementNonce _ _)).
  assert (forall b, balance s1 b = balance s b) as Hb.
  { intros b. unfold s1. rewrite (bal_add HB), (bal_nonce HB), (bal_create HB). destruct (decide (a = b)) as [<- |]; lia. }
  apply sound_nonce, sound_transfer; [by rewrite Hb |]. apply (sound_same s); [| done | done].
  unfold s1. rewrite (led_add HL), (led_nonce HL), (led_create HL). lia.
Qed.

(** ** Frames *)

(** The world states from [base] on belong to the execution, and its frames are
    the ones above [rest]: at least [k], all with world states of the execution,
    which are all sound; the older world states stay as they are, and no context
    goes away. *)
Context (nc : nat) (base : list S) (rest : list (nat * nat)).
Abbreviation b := (length base).

Definition frames (k : nat) (st : state) : Prop :=
  (exists l, stack st = l ++ rest /\ (k <= length l)%nat /\ Forall (fun p => b <= p.2)%nat l) /\
  ((nc <= length (contexts st))%nat /\ take b (worlds st) = base) /\ (forall i s, (b <= i)%nat -> worlds st !! i = Some s -> sound M s).

Lemma frames_free k : context_free (frames k).
Proof. intros st cs Hcs (H1 & [H2 H3] & H4). split; [done |]. split; [| done]. split; [cbn; lia | done]. Qed.
Lemma frames_length k st : frames k st -> (b <= length (worlds st))%nat.
Proof. intros (_ & [_ H1] & _). apply (f_equal length) in H1. rewrite length_take in H1. lia. Qed.
Lemma frames_le k k' st : (k' <= k)%nat -> frames k st -> frames k' st.
Proof. intros Hk [(l & H1 & H2 & H3) H4]. split; [| done]. exists l. split_and!; [done | lia | done]. Qed.
Lemma frames_top k st p : frames (Datatypes.S k) st -> head (stack st) = Some p -> (b <= p.2)%nat.
Proof.
  intros [(l & -> & Hl & HF) _]. destruct l as [| q l]; [cbn in Hl; lia |]. intros [= <-]. by apply Forall_cons_1 in HF as [? _].
Qed.
Lemma frames_top_world k st s : frames (Datatypes.S k) st -> top_world s st -> sound M s.
Proof. intros Hf (p & Hp & Hs). eapply (proj2 (proj2 Hf)); [by eapply frames_top | exact Hs]. Qed.
Lemma frames_new k s st : sound M s -> frames k st -> frames k (mkJvm (contexts st) (worlds st ++ [s]) (stack st) (library st)).
Proof.
  intros Hs Hf. pose proof (frames_length k st Hf) as Hlen. destruct Hf as (H1 & [H2 H2'] & H3). split; [done |]. cbn [worlds]. split.
  - split; [done |]. by rewrite take_app_le by lia.
  - intros i s' Hi [[_ He] | [_ <-]]%lookup_snoc_Some; [by eapply H3 | done].
Qed.
Lemma frames_alter k i f st : (b <= i)%nat -> (forall s, worlds st !! i = Some s -> sound M (f s)) -> frames k st ->
  frames k (mkJvm (contexts st) (alter f i (worlds st)) (stack st) (library st)).
Proof.
  intros Hi Hf (H1 & [H2 H2'] & H3). split; [done |]. cbn [worlds]. split; [split; [done | by rewrite take_alter_ge] |].
  intros i' s' Hi'. rewrite list_lookup_alter. destruct (decide (i = i')) as [<- |]; [| by apply H3].
  destruct (worlds st !! i) as [s |] eqn:E; [| done]. intros [= <-]. by apply Hf.
Qed.

Abbreviation keeps k m := (triple (frames k) m (fun _ => frames k) (frames k)).

Lemma keeps_change_world k i f : (b <= i)%nat -> (forall s, sound M s -> sound M (f s)) -> keeps k (change_world i f).
Proof.
  intros Hi Hf st Hst. apply frames_alter; [done | | done]. intros s Hs. apply Hf. by eapply (proj2 (proj2 Hst)).
Qed.
Lemma keeps_change_context k i f : keeps k (change_context i f).
Proof. apply triple_change_context, frames_free. Qed.
Lemma keeps_effect k f : keeps k (effect f).
Proof. by apply triple_effect; [apply frames_free |]. Qed.
Lemma keeps_update k f : (forall s, sound M s -> sound M (f s)) -> keeps (Datatypes.S k) (update f).
Proof.
  intros Hf. eapply triple_step; [by apply triple_peek | |].
  { intros p st [Hp H1]. exact (conj (frames_top k st p H1 Hp) H1). }
  intros p. apply triple_pure. intros Hp. by apply keeps_change_world.
Qed.
(** Reading an object of the transaction. *)
Lemma triple_sound_at k i : (b <= i)%nat -> triple (frames k) (world_at i) (fun s st => sound M s /\ frames k st) (frames k).
Proof.
  intros Hi. eapply triple_conseq; [by apply (triple_world_at (frames k) (frames k)) | done | | done].
  intros s st [Hs Hf]. split; [by eapply (proj2 (proj2 Hf)) | done].
Qed.

(** ** Nested executions *)

Definition native_sound (native_run : bool -> list Z -> list Z -> method lib S (list Z)) : Prop :=
  forall post code bytes k, keeps (Datatypes.S k) (native_run post code bytes).

Section Nested.
Context (k0 : nat).
Abbreviation k1 := (Datatypes.S k0).
Context (native_run : bool -> list Z -> list Z -> method lib S (list Z)) (Hn : native_sound native_run).

Lemma runFork_keeps k post code ctx world : (b <= world)%nat -> keeps k (runFork native_run post code ctx world).
Proof.
  intros Hw. assert (forall st, frames (Datatypes.S k) st -> frames k st) as Hle by (intros st; apply frames_le; lia).
  eapply (triple_bind _ _ (fun _ => frames (Datatypes.S k))).
  { intros st [(l & H1 & H2 & H3) H4]. split; [| done]. exists ((ctx, world) :: l). cbn. rewrite H1. split_and!; [done | lia | by constructor]. }
  intros []. eapply (triple_bind _ _ (fun _ => frames (Datatypes.S k))).
  { eapply triple_bind; [apply (triple_change_context (frames (Datatypes.S k)) (frames k)), frames_free |]. intros [].
    eapply triple_bind; [by apply triple_context_at |]. intros c. eapply triple_conseq; [apply (triple_lift (frames (Datatypes.S k)) (frames k)); done | | |].
    - by intros st [_ ?].
    - by intros x st [_ ?].
    - done. }
  intros bytes. eapply (triple_bind _ _ (fun _ => frames (Datatypes.S k))).
  { eapply triple_conseq; [apply Hn | done | done | done]. }
  intros r. eapply (triple_bind _ _ (fun _ => frames k)).
  { intros st [(l & H1 & H2 & H3) H4]. unfold pop. destruct l as [| q l]; [cbn in H2; lia |]. rewrite H1. cbn [app].
    split; [| done]. exists l. apply Forall_cons_1 in H3 as [_ H3]. cbn in H2. split_and!; [done | lia | done]. }
  intros []. eapply triple_conseq; [by apply (triple_lift (frames k) (frames k)) | done | by intros x st [_ ?] | done].
Qed.

Lemma reject_keeps k ctx : keeps k (reject equals ctx).
Proof. eapply triple_bind; [apply keeps_effect |]. intros []. apply keeps_change_context. Qed.
Lemma commit_keeps parent child : (b <= parent)%nat -> (b <= child)%nat -> keeps k1 (commit_to parent child).
Proof.
  intros Hp Hc. eapply triple_bind; [by apply triple_sound_at |]. intros s. apply triple_pure. intros Hs.
  apply keeps_change_world; [done |]. intros s' _. by apply sound_commit.
Qed.
Lemma ret_keeps {A} k (a : A) : keeps k (mret a).
Proof. by apply triple_ret. Qed.

Lemma finish_keeps ctx parent child r : (b <= parent)%nat -> (b <= child)%nat -> keeps k1 (finish equals ctx parent child r).
Proof.
  intros Hp Hc. eapply triple_bind; [destruct (bool_decide _); [by apply commit_keeps | apply reject_keeps] |]. intros []. apply ret_keeps.
Qed.
Lemma finishCreate_keeps a ctx parent child r : (b <= parent)%nat -> (b <= child)%nat -> keeps k1 (finishCreate equals a ctx parent child r).
Proof.
  intros Hp Hc. unfold finishCreate.
  assert (Hrej : forall r' : FastVmTransactionResult, keeps k1 (_ ← reject equals ctx; mret r' : method lib S FastVmTransactionResult)) by (intros r'; eapply triple_bind; [apply reject_keeps | intros []; apply ret_keeps]).
  destruct (bool_decide _); [| apply Hrej]. destruct (_ <? _); [apply Hrej |].
  eapply triple_bind; [apply keeps_change_world; [done |]; intros s; apply sound_code |]. intros [].
  eapply triple_bind; [by apply commit_keeps |]. intros []. apply ret_keeps.
Qed.

Lemma callCode_keeps k a ctx child : (b <= child)%nat -> keeps k (callCode native_run a ctx child).
Proof.
  intros Hc. eapply triple_step; [by apply triple_context_at | by intros c st [_ H1]; exact H1 |]. intros c.
  eapply triple_bind; [by apply triple_sound_at |]. intros s. apply triple_pure. intros Hs.
  destruct (isPrecompiledContract s (C.address c)) eqn:Ep.
  - pose proof (Hprec M c s Ep Hs) as Hs'. destruct (runInternalPrecompiledContractCall c s) as [[r c'] s'].
    eapply triple_bind; [apply keeps_change_context |]. intros []. eapply triple_bind; [by apply keeps_change_world |]. intros []. apply ret_keeps.
  - cbv zeta. destruct (_ =? 0)%nat; [apply ret_keeps | by apply runFork_keeps].
Qed.
Lemma createCode_keeps k taken ctx child : (b <= child)%nat -> keeps k (createCode native_run taken ctx child).
Proof.
  intros Hc. eapply triple_step; [by apply triple_context_at | by intros c st [_ H1]; exact H1 |]. intros c.
  eapply triple_step; [by apply triple_world_at | by intros s st [_ H1]; exact H1 |]. intros s.
  cbv zeta. destruct taken; [apply ret_keeps |]. destruct (_ =? 0)%nat; [apply ret_keeps | by apply runFork_keeps].
Qed.

(** ** Calls and creations, from a caller that can pay *)

Section Payer.
Context (k : nat) (p : nat * nat) (ctx : nat) (c : ExecutionContext) (s : S) (Hs : sound M s).

(** The ends of executions with the world state of the caller as parent; [Q]
    is what holds then. *)
Context (Q : FastVmTransactionResult -> state -> Prop).
Context (Hfail : forall r st, R.code r <> FastVmResultCode.SUCCESS -> frames k st -> Q r st).
Context (Hfinish : forall child r, (b <= child)%nat -> triple (frames k) (finish equals ctx p.2 child r) Q (frames k)).
Context (HfinishCreate : forall a child r, (b <= child)%nat -> triple (frames k) (finishCreate equals a ctx p.2 child r) Q (frames k)).

(** The context of the call is the one given, up to its destination and side effects. *)
Definition like (st : state) : Prop :=
  exists c', contexts st !! ctx = Some c' /\ C.sender c' = C.sender c /\ C.callValue c' = C.callValue c.
Definition same_payer (f : ExecutionContext -> ExecutionContext) : Prop := forall c, C.sender (f c) = C.sender c /\ C.callValue (f c) = C.callValue c.

Lemma like_alter i f st : same_payer f -> like st -> like (mkJvm (alter f i (contexts st)) (worlds st) (stack st) (library st)).
Proof.
  intros Hf (c' & Hc & Hs' & Hval). unfold like. cbn [contexts]. rewrite list_lookup_alter. destruct (decide (i = ctx)) as [-> |]; [| by exists c'].
  exists (f c'). rewrite Hc. destruct (Hf c') as [-> ->]. done.
Qed.

(** With a world state that is known. *)
Definition about (i : nat) (w : S) (st : state) : Prop := worlds st !! i = Some w /\ like st /\ frames k st.

Lemma about_context i w j f : same_payer f -> triple (about i w) (change_context j f) (fun _ => about i w) (frames k).
Proof. intros Hf st (Hw & Hl & Hfr). split; [done |]. split; [by apply like_alter | by apply frames_free; [rewrite length_alter |]]. Qed.
Lemma about_effect i w f : triple (about i w) (effect f) (fun _ => about i w) (frames k).
Proof.
  eapply triple_step; [apply triple_peek; by intros st (_ & _ & ?) | by intros q st [_ H1]; exact H1 |]. intros q. by apply about_context.
Qed.
Lemma about_world i w f : (b <= i)%nat -> sound M (f w) -> triple (about i w) (change_world i f) (fun _ => about i (f w)) (frames k).
Proof.
  intros Hi Hf st (Hw & Hl & Hfr). split; [cbn; by rewrite list_lookup_alter_eq, Hw |]. split; [done |].
  apply frames_alter; [done | | done]. intros w' Hw'. by assert (w' = w) as -> by congruence.
Qed.
Lemma about_context_at i w : triple (about i w) (context_at ctx)
  (fun c' st => (C.sender c' = C.sender c /\ C.callValue c' = C.callValue c) /\ about i w st) (frames k).
Proof.
  eapply triple_conseq; [apply (triple_context_at (about i w) (frames k)); by intros st (_ & _ & ?) | done | | done].
  intros c' st (Hc & Ha). pose proof Ha as (_ & (c2 & Hc2 & H1 & H2) & _). split; [| done]. by assert (c' = c2) as -> by congruence.
Qed.
Lemma about_world_at i w : triple (about i w) (world_at i) (fun w' st => w' = w /\ about i w st) (frames k).
Proof.
  eapply triple_conseq; [apply (triple_world_at (about i w) (frames k)); by intros st (_ & _ & ?) | done | | done].
  intros w' st (Hw & Ha). split; [| done]. destruct Ha as [Hw' _]. congruence.
Qed.
Lemma about_new w : sound M w -> triple (fun st => like st /\ frames k st) (new_world w) (fun i st => (b <= i)%nat /\ about i w st) (frames k).
Proof.
  intros Hw st [Hl Hf]. cbn. split; [by eapply frames_length |]. split; [cbn; by rewrite list_lookup_middle |]. split; [done | by apply frames_new].
Qed.

(** On the caller's world state. *)
Definition called (st : state) : Prop := (head (stack st) = Some p /\ worlds st !! p.2 = Some s) /\ like st /\ frames k st.

Lemma called_frames st : called st -> frames k st.
Proof. by intros (_ & _ & ?). Qed.
Lemma called_state : triple called externalState (fun s' st => s' = s /\ called st) (frames k).
Proof.
  eapply triple_conseq; [apply (triple_state called (frames k)), called_frames | done | | done].
  intros s' st [(p' & Hp & Hs') Ha]. pose proof Ha as ([Hp' Hs''] & _). split; [| done].
  assert (p' = p) as -> by congruence. congruence.
Qed.
Lemma called_peek : triple called peek (fun p' st => p' = p /\ called st) (frames k).
Proof.
  eapply triple_conseq; [apply (triple_peek called (frames k)), called_frames | done | | done].
  intros p' st [Hp Ha]. split; [| done]. pose proof Ha as ([Hp' _] & _). congruence.
Qed.
Lemma called_context j f : same_payer f -> triple called (change_context j f) (fun _ => called) (frames k).
Proof. intros Hf st (Hw & Hl & Hfr). split; [done |]. split; [by apply like_alter | by apply frames_free; [rewrite length_alter |]]. Qed.
Lemma called_new : triple called (new_world (newChildExternalState s)) (fun i st => (b <= i)%nat /\ about i (newChildExternalState s) st) (frames k).
Proof.
  eapply triple_conseq; [apply (about_new (newChildExternalState s)); by apply sound_child | by intros st (_ & ?) | done | done].
Qed.

Context (Hv : 0 <= C.getTransferValue c <= balance s (C.sender c)).

Lemma child_pays c' : C.sender c' = C.sender c -> C.callValue c' = C.callValue c ->
  0 <= C.getTransferValue c' <= balance (newChildExternalState s) (C.sender c').
Proof. intros Hs' Hv'. unfold C.getTransferValue. rewrite (bal_child HB), Hs', Hv'. exact Hv. Qed.

Lemma doCall_ends : triple called (doCall equals native_run ctx) Q (frames k).
Proof.
  eapply triple_step; [apply (triple_context_at called (frames k)), called_frames | by intros c' st [_ Ha]; exact Ha |].
  intros c1. cbv zeta. set (own := is_own _).
  eapply (triple_bind _ _ (fun _ => called)).
  { destruct own; [| by apply triple_ret]. eapply triple_bind; [apply (triple_context called (frames k)), called_frames |].
    intros prev. by apply called_context. }
  intros []. eapply triple_bind; [apply called_state |]. intros s'. apply triple_pure. intros ->.
  destruct (negb _); [apply triple_ret; intros st H1%called_frames; by apply Hfail |].
  eapply triple_bind; [apply called_peek |]. intros parent. apply triple_pure. intros ->.
  eapply triple_bind; [apply called_new |]. intros child. apply triple_pure. intros Hc.
  eapply triple_bind; [apply about_context_at |]. intros c2. apply triple_pure. intros [Hs2 Hv2].
  eapply triple_bind; [apply about_world_at |]. intros w. apply triple_pure. intros ->.
  eapply triple_bind; [apply about_effect |]. intros [].
  eapply (triple_bind _ _ (fun _ => frames k)).
  { destruct own; [apply triple_ret; by intros st (_ & _ & ?) |]. pose proof (child_pays c2 Hs2 Hv2) as Hpay.
    eapply triple_bind; [apply about_world; [done |]; apply sound_take; [exact Hpay | by apply sound_child] |]. intros [].
    eapply triple_conseq; [apply about_world; [done |]; apply sound_transfer; [exact Hpay | by apply sound_child] | done | by intros [] st (_ & _ & ?) | done]. }
  intros []. eapply triple_bind; [by apply callCode_keeps |]. intros r. by apply Hfinish.
Qed.

Lemma doCreate_ends : triple called (doCreate equals computeNewContractAddress native_run ctx) Q (frames k).
Proof.
  eapply triple_bind; [apply called_peek |]. intros parent. apply triple_pure. intros ->.
  eapply triple_bind; [apply called_state |]. intros s'. apply triple_pure. intros ->.
  eapply triple_bind; [apply called_new |]. intros child. apply triple_pure. intros Hc.
  eapply triple_bind; [apply about_context_at |]. intros c2. apply triple_pure. intros [Hs2 Hv2].
  eapply triple_bind; [apply about_world_at |]. intros w. apply triple_pure. intros ->. cbv zeta.
  set (new := computeNewContractAddress _ _).
  eapply triple_bind; [by apply about_context |]. intros []. eapply triple_bind; [apply about_effect |]. intros [].
  rewrite (getBalance_some HB). eapply triple_step; [apply (triple_lift (about child _) (frames k)); by intros st (_ & _ & ?) | by intros x st Hx; exact Hx |].
  intros x. apply triple_pure. intros [= <-].
  eapply triple_bind. { apply about_world; [done |]. apply sound_prepareCreate; [by apply child_pays | by apply sound_child]. }
  intros []. eapply triple_bind; [apply about_world_at |]. intros w. apply triple_pure. intros _.
  eapply triple_bind; [by apply about_context |]. intros [].
  eapply (triple_bind _ _ (fun _ => frames k)).
  { eapply triple_conseq; [by apply createCode_keeps | by intros st (_ & _ & ?) | done | done]. }
  intros r. by apply HfinishCreate.
Qed.
End Payer.

(** A nested execution in a context of its own. *)
Lemma nested_ends k p ctx c s Q :
  sound M s -> 0 <= C.getTransferValue c ->
  (forall r st, R.code r <> FastVmResultCode.SUCCESS -> frames k st -> Q r st) ->
  (forall child r, (b <= child)%nat -> triple (frames k) (finish equals ctx p.2 child r) Q (frames k)) ->
  (forall a child r, (b <= child)%nat -> triple (frames k) (finishCreate equals a ctx p.2 child r) Q (frames k)) ->
  (forall r, triple (Q r) (mergeEffects r ctx) (fun _ => Q r) (frames k)) ->
  triple (called k p ctx c s) (nested equals computeNewContractAddress native_run ctx c) Q (frames k).
Proof.
  intros Hs Hv HQ Hf1 Hf2 Hm. unfold nested.
  destruct (_ <=? _); [apply triple_ret; intros st H1%called_frames; by apply HQ |].
  eapply triple_bind; [apply called_state |]. intros s'. apply triple_pure. intros ->.
  eapply triple_step; [apply triple_lift; by intros st H1%called_frames | by intros x st Hx; exact Hx |]. intros bal. apply triple_pure.
  rewrite (getBalance_some HB). intros [= <-].
  destruct (Z.ltb_spec (balance s (C.sender c)) (C.getTransferValue c)) as [| Hpay]; [apply triple_ret; intros st H1%called_frames; by apply HQ |].
  eapply (triple_bind _ _ Q); [destruct (bool_decide _); [apply doCreate_ends | apply doCall_ends]; done |].
  intros r. eapply triple_bind; [apply Hm |]. intros []. by apply triple_ret.
Qed.

Lemma jbytes_ok l : bytes_ok (jbytes l).
Proof. apply Forall_fmap, Forall_true. intros x. by apply wrap_inw. Qed.

Lemma performResult_keeps message : keeps k1 (performResult equals computeNewContractAddress native_run (jbytes message)).
Proof.
  eapply triple_bind; [by apply (triple_context (frames k1) (frames k1)) |]. intros prev.
  eapply triple_bind; [by apply (triple_lift (frames k1) (frames k1)) |]. intros c. apply triple_pure. intros Hc.
  pose proof (parseMessage_value _ _ _ (jbytes_ok message) Hc) as Hv. intros st Hst. erewrite bind_eq by reflexivity.
  set (st1 := mkJvm (contexts st ++ [c]) (worlds st) (stack st) (library st)). assert (frames k1 st1) as Hst1 by (apply frames_free; [rewrite length_app; lia | done]).
  destruct (head (stack st)) as [p |] eqn:Hp; [| by destruct Hst as ((l & E & Hl & _) & _); rewrite E in Hp; destruct l; [cbn in Hl; lia |]].
  pose proof (frames_top k0 st p Hst Hp) as Hb.
  destruct (worlds st !! p.2) as [s |] eqn:Hs.
  - refine (nested_ends k1 p _ c s (fun _ => frames k1) _ Hv _ _ _ _ st1 _); try done.
    + by eapply (proj2 (proj2 Hst)).
    + intros child r Hchild. by apply finish_keeps.
    + intros a child r Hchild. by apply finishCreate_keeps.
    + intros r. eapply triple_step; [by apply (triple_context_at (frames k1) (frames k1)) | by intros x st' [_ H1]; exact H1 |]. intros c'. apply keeps_effect.
    + split; [done |]. split; [exists c; split; [by apply list_lookup_middle | done] | done].
  - unfold nested. destruct (_ <=? _); [exact Hst1 |]. unfold externalState, peek, world_at, mbind, method_bind. cbn [stack st1]. rewrite Hp. cbn. by rewrite Hs.
Qed.

(** [call], however it ends. *)
Lemma call_keeps message : keeps k1 (call equals computeNewContractAddress native_run (jbytes message)).
Proof.
  intros st Hst. unfold call. assert (keeps k1 (performCall equals computeNewContractAddress native_run (jbytes message))) as Hp.
  { eapply triple_bind; [apply performResult_keeps |]. intros r.
    eapply triple_conseq; [by apply (triple_lift (frames k1) (frames k1)) | done | by intros x st' [_ ?] | done]. }
  specialize (Hp st Hst). destruct (performCall _ _ _ _ st) as [[r |] st']; [done |]. by destruct (R.toBytes _).
Qed.

(** ** The function table *)

Lemma putStorage_keeps a k v : keeps k1 (putStorage a k v).
Proof.
  eapply triple_step; [by apply (triple_lift (frames k1) (frames k1)) | by intros x st [_ H1]; exact H1 |]. intros key.
  destruct (_ || _); [apply keeps_update; intros s; apply sound_remove |].
  eapply triple_step; [by apply (triple_lift (frames k1) (frames k1)) | by intros x st [_ H1]; exact H1 |]. intros w.
  apply keeps_update. intros s. apply sound_store.
Qed.

(** A known world state on top. *)
Lemma triple_update_top s f : sound M (f s) ->
  triple (fun st => top_world s st /\ frames k1 st) (update f) (fun _ st => top_world (f s) st /\ frames k1 st) (frames k1).
Proof.
  intros Hf st [(p & Hp & Hs) Hfr]. unfold update. rewrite (bind_peek _ _ _ Hp). cbn. split.
  - exists p. cbn. by rewrite list_lookup_alter_eq, Hs.
  - apply frames_alter; [by eapply frames_top | | done]. intros s' Hs'. by assert (s' = s) as -> by congruence.
Qed.

Lemma selfDestruct_keeps a d : keeps k1 (selfDestruct a d).
Proof.
  eapply triple_bind; [by apply (triple_state (frames k1) (frames k1)) |]. intros s.
  eapply triple_step; [apply (triple_lift (fun st => top_world s st /\ frames k1 st)); by intros st [_ ?] | |].
  { intros x st (Hx & Ht & Hf). exact (conj (conj Hx (frames_top_world k0 st s Hf Ht)) (conj Ht Hf)). }
  intros bal. apply triple_pure. rewrite (getBalance_some HB). intros [[= <-] Hs]. cbv zeta.
  pose proof (proj2 Hs a) as Ha.
  eapply triple_bind; [apply (triple_effect (fun st => top_world s st /\ frames k1 st)); [| by intros st [_ ?]]; intros st cs Hcs [? ?]; split; [done | by apply frames_free] |]. intros [].
  eapply triple_bind; [apply (triple_update_top s), (sound_take a (balance s a) s); [lia | exact Hs] |]. intros [].
  eapply (triple_bind _ _ (fun _ => frames k1)); [| intros []; apply keeps_effect].
  destruct (bool_decide _); [apply triple_ret; by intros st [_ ?] |].
  eapply triple_conseq; [apply (triple_update_top (addBalance a (- balance s a) s)), (sound_transfer a d (balance s a) s); [lia | exact Hs] | done | by intros [] st [_ ?] | done].
Qed.

Lemma enter_leave st : enter (leave st) = st.
Proof. by destruct st as [cs ws l [tx j]]. Qed.

Lemma after_keeps {A} (m : method lib S A) h : keeps k1 m -> frames k1 (enter h) -> frames k1 (enter (after m h)).
Proof. intros Hm Hh. unfold after. rewrite enter_leave. specialize (Hm _ Hh). by destruct (m (enter h)) as [[a |] st]. Qed.

Lemma table_keeps tx : keeps_host (ctx_fn_table (java_callback native_run) tx) (fun h => frames k1 (enter h)).
Proof.
  split; cbn; intros.
  - apply after_keeps; [apply putStorage_keeps | done].
  - apply after_keeps; [apply selfDestruct_keeps | done].
  - unfold jni_call. destruct (encode_message m); [| done]. cbn. apply after_keeps; [apply call_keeps | done].
  - apply after_keeps; [apply keeps_effect | done].
Qed.

Lemma frames_instance k j j' x : frames k (enter (j, x)) -> frames k (enter (j', x)).
Proof. by destruct x. Qed.

Lemma execute_keeps T rev msg code j x res j' x' :
  keeps_host T (fun h => frames k1 (enter h)) -> frames k1 (enter (j, x)) ->
  execute g_optimize CacheMode.off T uninit uninit_hash undef_addr fuel rev msg code (j, x) = Val (res, (j', x')) -> frames k1 (enter (j', x')).
Proof.
  intros HT Hk. unfold execute.
  destruct (if depth msg =? 0 then _ else _) as [j1 | | |]; try done. cbn [mbind outcome_bind].
  destruct (getExecFunc _ _) as [e j2].
  assert (forall f j3, match callFunc fuel f (exec_env T uninit uninit_hash undef_addr rev msg code) (msg_gas msg) (j3, x) with
    | Some (Returned c s) => let '(j4, k4) := s_host s in
        if (m_engine j4 =? m_engine j3)%nat then Val (make_result c s, (set_msg (currentMsg j1) j4, k4)) else UB
    | Some Undefined => UB
    | None => NoFuel
    end = Val (res, (j', x')) -> frames k1 (enter (j', x'))) as Hrun.
  { intros f j3. destruct (callFunc _ _ _ _ _) as [[c s |] |] eqn:E; try done. destruct (s_host s) as [j4 k4] eqn:Eh.
    destruct (_ =? _)%nat; [| done]. intros [= _ _ <-]. destruct (Hengine _ _ _ _ _ _ _ E) as (P & HP).
    apply (runBlocks_host _ (fun h => frames k1 (enter h))) in HP; [| done | by apply (frames_instance _ j)].
    rewrite Eh in HP. by apply (frames_instance _ j4). }
  destruct (func e) as [f |]; [apply Hrun |]. destruct (_ <=? _); [intros [= _ _ <-]; by apply (frames_instance _ j) |].
  destruct (compile_code _ _ _ _ _ _ _) as [[[f |] j5] | | |]; try done; [apply Hrun | intros [= _ _ <-]; by apply (frames_instance _ j)].
Qed.
End Nested.

(** The native library keeps the money, however deep the calls. *)
Lemma native_is_sound n : native_sound (native n).
Proof.
  induction n as [| n IH]; intros post code bytes k st Hst; [done |]. cbn [native]. unfold JniHost.run.
  destruct (leave st) as [j [tx x]] eqn:El. assert (Hl : frames (Datatypes.S k) (enter (j, (tx, x)))) by (rewrite <- El; by rewrite enter_leave).
  destruct (parse_context bytes uninit_msg tx) as [[msg tx'] |]; [| done].
  destruct (execute _ _ _ _ _ _ _ _ _ _ _) as [[res [j' x']] | | |] eqn:E; cbn [mbind outcome_bind]; try done.
  apply (execute_keeps k) in E; [| by apply table_keeps | exact Hl].
  destruct (encode_result res); [| done]. by destruct (pending _).
Qed.

(** ** A nested execution seen by its caller, whose world state is older *)

Section Outer.
Context (wi ctx : nat) (Hwi : (wi < b)%nat) (Hctx : (ctx < nc)%nat) (Hrest : rest <> []).

Definition committed (st : state) : Prop :=
  (exists l, stack st = l ++ rest) /\ (nc <= length (contexts st))%nat /\
  exists g, sound M g /\ take b (worlds st) = alter (commit g) wi base.
Definition ended (r : FastVmTransactionResult) (st : state) : Prop :=
  if bool_decide (R.code r = FastVmResultCode.SUCCESS) then committed st else frames 0 st.

Lemma ended_failure r st : R.code r <> FastVmResultCode.SUCCESS -> frames 0 st -> ended r st.
Proof. intros Hr Hf. unfold ended. by rewrite bool_decide_eq_false_2. Qed.
Lemma ended_free r : context_free (ended r).
Proof.
  intros st cs Hcs. unfold ended. destruct (bool_decide _); [| by apply frames_free].
  intros (H1 & H2 & H3). split; [done |]. split; [cbn; lia | done].
Qed.
Lemma ended_shape r st : ended r st -> (exists l, stack st = l ++ rest) /\ (nc <= length (contexts st))%nat.
Proof.
  unfold ended. destruct (bool_decide _); [by intros (H1 & H2 & _) |]. intros ((l & H1 & _) & [H2 _] & _). split; [by exists l | done].
Qed.

Lemma commit_ends child : (b <= child)%nat -> triple (frames 0) (commit_to wi child) (fun _ => committed) (frames 0).
Proof.
  intros Hc. eapply triple_bind; [by apply triple_sound_at |]. intros g. apply triple_pure. intros Hg st ((l & H1 & _) & [H2 H3] & _).
  split; [by exists l |]. split; [done |]. exists g. split; [done |]. cbn [worlds]. by rewrite take_alter_lt, H3.
Qed.
Lemma finish_ends child r : (b <= child)%nat -> triple (frames 0) (finish equals ctx wi child r) ended (frames 0).
Proof.
  intros Hc. eapply (triple_bind _ _ (fun _ => ended r)); [| intros []; by apply triple_ret].
  unfold ended. destruct (bool_decide _); [by apply commit_ends | apply reject_keeps].
Qed.
Lemma finishCreate_ends a child r : (b <= child)%nat -> triple (frames 0) (finishCreate equals a ctx wi child r) ended (frames 0).
Proof.
  intros Hc. unfold finishCreate. destruct (bool_decide (R.code r = _)) eqn:Er.
  - destruct (_ <? _).
    + eapply triple_bind; [apply reject_keeps |]. intros []. apply triple_ret. intros st. by apply ended_failure.
    + eapply triple_bind; [apply keeps_change_world; [done |]; intros s; apply sound_code |]. intros [].
      eapply triple_bind; [by apply commit_ends |]. intros []. apply triple_ret. intros st Hst. unfold ended. cbn. by rewrite Er.
  - eapply triple_bind; [apply reject_keeps |]. intros []. apply triple_ret. intros st. apply ended_failure. by apply bool_decide_eq_false in Er.
Qed.
Lemma merge_ends r : triple (ended r) (mergeEffects r ctx) (fun _ => ended r) (frames 0).
Proof.
  intros st He. destruct (ended_shape r st He) as [(l & Hl) Hnc].
  destruct (lookup_lt_is_Some_2 (contexts st) ctx ltac:(lia)) as [c Hc]. unfold mergeEffects. rewrite (bind_context_at _ _ _ _ Hc).
  destruct (head (stack st)) as [q |] eqn:Hq; [| rewrite Hl in Hq; destruct l; [by destruct rest | done]].
  unfold effect. rewrite (bind_peek _ _ _ Hq). cbn. apply ended_free; [by rewrite length_alter | done].
Qed.
End Outer.

(** ** Transactions *)

Lemma on_machine_inv {A} (m : method lib S A) j a j' : on_machine m j = (Some a, j') -> m (machine j) = (Some a, machine j').
Proof. unfold on_machine. destruct (m (machine j)) as [o st]. by intros [= -> <-]. Qed.
Lemma on_machine_keeps {A} (m : method lib S A) j a j' : keeps 0 m -> frames 0 (machine j) -> on_machine m j = (Some a, j') -> frames 0 (machine j').
Proof. intros Hm Hj Hr%on_machine_inv. specialize (Hm _ Hj). by rewrite Hr in Hm. Qed.

Lemma locked_run_keeps n fork040 code ctx world j r j' :
  (b <= world)%nat -> frames 0 (machine j) -> locked_run (native n) fork040 code ctx world j = (Some r, j') -> frames 0 (machine j').
Proof.
  intros Hw Hj. unfold locked_run. intros Hr. apply bind_program in Hr as ([] & j1 & Hi & Hr).
  assert (frames 0 (machine j1)) as H1 by (unfold installExternalCapabilities in Hi; destruct (installed j); [done | by injection Hi as <-]).
  apply bind_program in Hr as (r1 & j2 & Hf & Hr). apply bind_program in Hr as ([] & j3 & [= <-] & [= <- <-]). cbn [machine].
  eapply on_machine_keeps; [| exact H1 | exact Hf]. apply runFork_keeps; [apply native_is_sound | done].
Qed.

Lemma transfer_total tx a s : total (transfer tx a s) = total s.
Proof. unfold transfer. rewrite !(led_add HL). lia. Qed.

(** The value is moved last. *)
Lemma moved_total tx a world j (u : ()) j' g :
  (b <= world)%nat -> frames 0 (machine j) -> on_machine (change_world world (transfer tx a)) j = (Some u, j') ->
  worlds (machine j') !! world = Some g -> total g <= M.
Proof.
  intros Hw Hj Hr%on_machine_inv. injection Hr as _ <-. cbn [worlds]. rewrite list_lookup_alter_eq.
  destruct (worlds (machine j) !! world) as [g0 |] eqn:E; [| done]. intros [= <-]. rewrite transfer_total. by apply (proj2 (proj2 Hj) world g0).
Qed.

Lemma creation_total n ctx world tx result fork040 j r j' g :
  (b <= world)%nat -> frames 0 (machine j) ->
  runContractCreationTransaction computeNewContractAddress (native n) ctx world tx result fork040 j = (Some r, j') ->
  worlds (machine j') !! world = Some g -> total g <= M.
Proof.
  intros Hw Hj. unfold runContractCreationTransaction. set (a := computeNewContractAddress _ _). intros Hr Hg.
  apply bind_program in Hr as (s & j1 & Hs%on_machine_inv & Hr). unfold world_at in Hs.
  destruct (worlds (machine j) !! world) as [s' |] eqn:Es; [| done]. injection Hs as -> Hj1. rewrite Hj1 in *.
  pose proof (proj2 (proj2 Hj) world s Hw Es) as Hsound.
  destruct (_ && _); [injection Hr as <- <-; rewrite Es in Hg; injection Hg as <-; apply Hsound |].
  apply bind_program in Hr as ([] & j2 & H2%on_machine_inv & Hr). assert (frames 0 (machine j2)) as Hj2.
  { destruct (hasAccountState s a) eqn:Eh; [injection H2 as <-; exact Hj |]. injection H2 as <-. apply frames_alter; [done | | exact Hj].
    intros s' Hs'. assert (s' = s) as -> by congruence. refine (sound_same s _ _ _ Hsound).
    - rewrite (led_create HL), (tr_none (led_fees HL)); [lia | done].
    - intros d. rewrite (bal_create HB). destruct (decide (a = d)) as [<- |]; [symmetry; by apply (tr_none (led_fees HL)) | done]. }
  apply bind_program in Hr as ([] & j3 & H3 & Hr). assert (frames 0 (machine j3)) as Hj3.
  { eapply on_machine_keeps; [| exact Hj2 | exact H3]. apply keeps_change_world; [done |]. intros s'.
    apply sound_same; [apply (led_vm HL) | intros; apply (tr_vm (led_fees HL))]. }
  apply bind_program in Hr as (r1 & j4 & H4 & Hr). apply bind_program in Hr as ([] & j5 & H5 & [= <- <-]).
  eapply moved_total; [exact Hw | | exact H5 | exact Hg].
  destruct (length (tx_data tx) =? 0)%nat; [by injection H4 as <- <- |].
  apply bind_program in H4 as (r2 & j6 & H6 & H4). apply bind_program in H4 as ([] & j7 & H7 & [= <- <-]).
  apply locked_run_keeps in H6; [| done | exact Hj3]. eapply on_machine_keeps; [| exact H6 | exact H7].
  destruct (_ =? _); [apply keeps_change_world; [done |]; intros s'; apply sound_code | by apply triple_ret].
Qed.

Lemma call_total n ctx world tx result fork040 j r j' g :
  (b <= world)%nat -> frames 0 (machine j) ->
  runNonContractCreationTransaction (native n) ctx world tx result fork040 j = (Some r, j') ->
  worlds (machine j') !! world = Some g -> total g <= M.
Proof.
  intros Hw Hj. unfold runNonContractCreationTransaction. intros Hr Hg.
  apply bind_program in Hr as (s & j1 & Hs%on_machine_inv & Hr). unfold world_at in Hs.
  destruct (worlds (machine j) !! world) as [s' |] eqn:Es; [| done]. injection Hs as -> Hj1. rewrite Hj1 in Hj.
  apply bind_program in Hr as (r1 & j4 & H4 & Hr). apply bind_program in Hr as ([] & j5 & H5 & [= <- <-]).
  eapply moved_total; [exact Hw | | exact H5 | exact Hg].
  destruct (_ =? 0)%nat; [by injection H4 as <- <- | by eapply locked_run_keeps].
Qed.
End Frames.

(** ** Nested calls *)

(** The state after a nested call, with the answer [o]: the frames of the
    callers are where they were, and their world states are untouched, except
    that a successful call has been committed to the one of its caller. *)
Definition isolated (wi : nat) (s : S) (st : state) (o : option FastVmTransactionResult) (st' : state) : Prop :=
  (exists l, stack st' = l ++ stack st) /\
  match o with
  | Some r =>
      if bool_decide (R.code r = FastVmResultCode.SUCCESS)
      then exists g, sound (total s) g /\ take (length (worlds st)) (worlds st') = alter (commit g) wi (worlds st)
      else take (length (worlds st)) (worlds st') = worlds st
  | None => take (length (worlds st)) (worlds st') = worlds st
  end.

Lemma performResult_isolated n message ci wi c s st :
  on_top ci wi c s st -> (forall a, 0 <= balance s a) ->
  let '(o, st') := performResult equals computeNewContractAddress (native n) (jbytes message) st in isolated wi s st o st'.
Proof.
  intros Ht Hb. assert (isolated wi s st None st) as Hid by (split; [by exists [] | by rewrite take_ge]).
  unfold performResult. rewrite (bind_context _ _ _ _ _ _ Ht). destruct (parseMessage c (jbytes message)) as [c' |] eqn:Hp; [| exact Hid].
  rewrite bind_lift. erewrite bind_eq by reflexivity. set (st1 := mkJvm (contexts st ++ [c']) (worlds st) (stack st) (library st)).
  destruct Ht as (Hh & Hc & Hs). pose proof (lookup_lt_Some _ _ _ Hs) as Hwi.
  assert (frames (total s) (Datatypes.S (length (contexts st))) (worlds st) (stack st) 0 st1) as Hf.
  { split; [exists []; split_and!; [done | cbn; lia | constructor] |]. cbn [worlds contexts st1]. rewrite length_app, take_ge by done. split; [split; [cbn; lia | done] |].
    intros i w Hi E%lookup_lt_Some. lia. }
  pose proof (nested_ends (total s) (Datatypes.S (length (contexts st))) (worlds st) (stack st) (native n) (native_is_sound (total s) (Datatypes.S (length (contexts st))) (worlds st) (stack st) n) 0 (ci, wi) (length (contexts st)) c' s
    (ended (total s) (Datatypes.S (length (contexts st))) (worlds st) (stack st) wi)) as Hn.
  unshelve epose proof (Hn _ _ _ _ _ _ st1 _) as H1; clear Hn.
  - split; [done | exact Hb].
  - by eapply parseMessage_value; [apply jbytes_ok | exact Hp].
  - intros r st'. apply ended_failure.
  - intros child r. by apply finish_ends.
  - intros a child r. by apply finishCreate_ends.
  - intros r. apply merge_ends; [done | lia |]. intros E. by rewrite E in Hh.
  - split; [done |]. split; [exists c'; split; [by apply list_lookup_middle | done] | done].
  - destruct (nested _ _ _ _ _ st1) as [[r |] st']; unfold isolated.
    + split; [by apply ended_shape in H1 as [? _] |]. unfold ended in H1. destruct (bool_decide _); [by destruct H1 as (_ & _ & ?) | by destruct H1 as (_ & [_ ?] & _)].
    + destruct H1 as ((l & Hl & _) & [_ ?] & _). split; [by exists l | done].
Qed.

(** C31: A nested call is atomic.  When a contract calls or creates another one,
    whatever the code below it does and however deep it calls, then afterwards
    either every world state that existed before the call is as it was, or the
    call succeeded and its own world state, in which no account is overdrawn
    and whose balances sum up to no more than the caller's, has been committed
    to the caller's; the answer is then the encoded result, if there is room
    for it in an array.  The frames of the callers are where they were; what a
    thrown exception leaves on the stack lies above them. *)
Theorem nested_call_atomic n message ci wi c s st o st' :
  on_top ci wi c s st -> (forall a, 0 <= balance s a) ->
  call equals computeNewContractAddress (native n) (jbytes message) st = (o, st') ->
  (exists l, stack st' = l ++ stack st) /\
  (take (length (worlds st)) (worlds st') = worlds st \/
   exists g r, sound (total s) g /\ take (length (worlds st)) (worlds st') = alter (commit g) wi (worlds st) /\
     R.code r = FastVmResultCode.SUCCESS /\
     o = match R.toBytes r with Some bytes => Some bytes | None => R.toBytes (R.make FastVmResultCode.VM_INTERNAL_ERROR 0 []) end).
Proof.
  intros Ht Hb Hr. pose proof (performResult_isolated n message ci wi c s st Ht Hb) as Hi. unfold call, performCall in Hr.
  unfold mbind, method_bind in Hr. destruct (performResult _ _ _ _ st) as [[r |] st1]; destruct Hi as [Hl Hi].
  - assert (o = match R.toBytes r with Some bytes => Some bytes | None => R.toBytes (R.make FastVmResultCode.VM_INTERNAL_ERROR 0 []) end /\ st' = st1) as [-> ->].
    { destruct (R.toBytes r); [by injection Hr as <- <- |]. cbn [lift_option throw] in Hr. by destruct (R.toBytes _); injection Hr as <- <-. }
    split; [done |]. destruct (bool_decide _) eqn:E; [| by left]. right. destruct Hi as (g & Hg & Hw). exists g, r. by apply bool_decide_eq_true in E.
  - assert (st' = st1) as -> by (by destruct (R.toBytes _); injection Hr as _ <-). split; [done | by left].
Qed.

(** The world in which the code of a transaction runs. *)
Lemma charged_sound tx s :
  (forall a, 0 <= balance s a) -> 0 <= tx_value tx -> fee tx + tx_value tx <= balance s (senderAddress tx) ->
  sound (total s - fee tx) (newChildExternalState (charged tx s)).
Proof.
  intros Hb Hv Hf. apply sound_child. split.
  - unfold charged, incrementNonceAndDeductEnergyCost. rewrite (led_commit HL), (led_deduct HL), (led_nonce HL), !(led_child HL). unfold fee. lia.
  - intros a. rewrite (charged_balance HB (led_fees HL)). pose proof (Hb a). destruct (decide (senderAddress tx = a)) as [<- |]; lia.
Qed.

(** C4: No contract makes money.  After a transaction through the whole system,
    whatever code it runs and however deep the calls are nested, a rejected one
    has changed nothing; one that failed has taken the fee and counted the nonce,
    and that is all; and after a successful one the sum of all balances is at
    most what it was less the fee.  It is a matter of defined runs, of a world
    state that keeps its books ([ledger_ok]) and whose precompiled contracts
    make no money either. *)
Theorem system_keeps_money n tx fork040 s j res s' j' :
  (forall a, 0 <= balance s a) -> 0 <= tx_value tx ->
  system_run n s tx fork040 j = (Some (res, s'), j') ->
  match status res with
  | Rejection => s' = s
  | Successful => total s' <= total s - fee tx
  | _ => only_fee tx s s' /\ total s' = total s - fee tx
  end.
Proof.
  intros Hb Hv Hr. unfold system_run in Hr. destruct (transactionContext computeNewContractAddress tx s) as [c |] eqn:Hctx;
    [| unfold Transaction.run in Hr; by rewrite Hctx in Hr].
  destruct (transaction_cases computeNewContractAddress (native n) HB (led_fees HL) tx fork040 s j res s' j' Hr)
    as [[-> ->] | (Hfunds & c' & g & j1 & r & Hrun & Hg & -> & -> & Hs')]; [done |].
  pose proof (charged_sound tx s Hb Hv Hfunds) as Hs.
  assert (total g <= total s - fee tx) as Hg1.
  { assert (frames (total s - fee tx) 0 (worlds (machine j)) (stack (machine j)) 0
              (mkJvm (contexts (machine j) ++ [c']) (worlds (machine j) ++ [newChildExternalState (charged tx s)])
              (stack (machine j)) (library (machine j)))) as Hf.
    { split; [exists []; split_and!; [done | cbn; lia | constructor] |]. cbn [worlds contexts]. rewrite take_app_length. split; [split; [lia | done] |].
      intros i w Hi [[Hlt _] | [_ <-]]%lookup_snoc_Some; [lia | done]. }
    destruct (tx_isCreate tx); [eapply creation_total | eapply call_total]; try exact Hrun; try exact Hg; try exact Hf; done. }
  rewrite Hs'. unfold settled. destruct (FastVmResultCode.category (R.code r)) eqn:Ec;
    unfold TransactionResultUtil.transactionStatusFromFvmResultCode; rewrite Ec; try done.
  1: by rewrite !(led_commit HL).
  all: split; [intros a; by rewrite (bal_commit HB), (tr_nonce_commit (led_fees HL)), (charged_balance HB (led_fees HL)), (charged_nonce (led_fees HL)) |].
  all: rewrite (led_commit HL); unfold charged, incrementNonceAndDeductEnergyCost; rewrite (led_commit HL), (led_deduct HL), (led_nonce HL), !(led_child HL); done.
Qed.
End System.

(** ** In the world of maps, with interpreted programs *)

Definition w_total (s : world) : Z := map_fold (fun _ v n => v + n) 0 (w_balance s).

Lemma w_total_insert (m : gmap (list Z) Z) a v :
  map_fold (fun _ v n => v + n) 0 (<[a := v]> m) = map_fold (fun _ v n => v + n) 0 m - default 0 (m !! a) + v.
Proof.
  assert (forall (m : gmap (list Z) Z) a v, m !! a = None ->
    map_fold (fun _ v n => v + n) 0 (<[a := v]> m) = v + map_fold (fun _ v n => v + n) 0 m) as Hnew.
  { intros m' a' v' Hn. rewrite map_fold_insert_L by (try done; intros; lia). done. }
  destruct (m !! a) as [x |] eqn:E; cbn.
  - rewrite <- (insert_delete_id m a x E) at 2. rewrite <- insert_delete_eq, !Hnew by apply lookup_delete_eq. lia.
  - rewrite Hnew by done. lia.
Qed.

Lemma world_ledger_ok : ledger_ok w_total.
Proof.
  split; try (intros; done).
  - apply world_balances_ok.
  - apply world_transactions_ok.
  - intros a v s. unfold w_total. cbn. rewrite w_total_insert. lia.
  - intros a s. unfold w_total. cbn. rewrite w_total_insert. unfold balance. cbn. lia.
  - intros a v s. unfold w_total. cbn. rewrite w_total_insert. lia.
Qed.

Lemma world_precompiled_sound : precompiled_sound w_total.
Proof. intros M ctx s _ Hs. exact Hs. Qed.

Lemma direct_engine_runs {K} n (f : Program.program) E g h c (s : rt (JITImpl Program.program () * K)) :
  callFunc n f E g h = Some (Returned c s) -> exists P, runMain E P n g h = Some (Returned c s).
Proof. intros Hr. exists f. exact Hr. Qed.

Lemma world_solvent w : map_Forall (fun _ v => 0 <= v) (w_balance w) -> forall a, 0 <= balance w a.
Proof.
  intros HF a. change (0 <= default 0 (w_balance w !! a)). destruct (w_balance w !! a) as [v |] eqn:E; [exact (HF a v E) | done].
Qed.

(** A contract that sends 2 to another one, which does nothing. *)
Definition payer_code : list Z :=
  [0x60; 0; 0x60; 0; 0x60; 0; 0x60; 0; 0x60; 2; 0x7f] ++ replicate 32 3 ++ [0x61; 0x27; 0x10; 0xf1; 0].
Definition town : world :=
  mkWorld {[replicate 32 1 := 10; replicate 32 2 := 300000; replicate 32 3 := 0]} ∅
    {[replicate 32 1 := payer_code; replicate 32 3 := [0x5b; 0]]} ∅.
Definition order : Transaction := mkTransaction false (replicate 32 2) (replicate 32 1) (replicate 32 7) 0 5 [] 200000 1.

Definition new_library : evm_tx_context * JITImpl Program.program () := (null_tx_context, new_jit).
Definition town_native := native (HFold := const_fold) (fun _ _ => false) (fun _ _ => replicate 32 9) true
  0 (replicate 32 0) (replicate 32 0) (null_message 0) 1000 (fun _ _ => []) (fun _ => false) (fun _ => false) (S := world).
Definition town_run := Transaction.run (fun _ _ => replicate 32 9) (town_native 3) town order true
  (mkStatics (mkJvm [] [] [] new_library) false).

Lemma system_keeps_money_witness :
  match town_run with
  | (Some (res, s'), _) => status res = Successful /\ balance s' (replicate 32 1) = 13 /\ balance s' (replicate 32 3) = 2 /\
      w_total s' <= w_total town - fee order
  | _ => False
  end.
Proof.
  assert (match town_run with
    | (Some (res, s'), j') => status res = Successful /\ balance s' (replicate 32 1) = 13 /\ balance s' (replicate 32 3) = 2
    | _ => False
    end) as Hc by (vm_compute; repeat split).
  destruct town_run as [[[res s'] |] j'] eqn:E; [| destruct Hc]. destruct Hc as (Hr & H1 & H3).
  split; [exact Hr |]. split; [exact H1 |]. split; [exact H3 |].
  pose proof (system_keeps_money (HFold := const_fold) (fun _ _ => false) (fun _ _ => replicate 32 9) true
    0 (replicate 32 0) (replicate 32 0) (null_message 0) 1000 (fun _ _ => []) (fun _ => false) (fun _ => false) w_total world_ledger_ok
    world_precompiled_sound direct_engine_runs 3%nat order true town (mkStatics (mkJvm [] [] [] new_library) false) res s' j') as Hm.
  rewrite Hr in Hm. apply Hm.
  - apply world_solvent. apply (bool_decide_unpack _). vm_compute. exact I.
  - vm_compute. discriminate.
  - exact E.
Defined.

(** A call from the contract at 1 to the one at 3, with 2 to send. *)
Definition pay_message : list Z :=
  replicate 32 3 ++ replicate 32 1 ++ be_bytes 8 10000 ++ be_bytes 16 2 ++ be_bytes 4 0 ++ be_bytes 4 1 ++ be_bytes 4 0 ++ be_bytes 4 0.
Definition town_state : jvm (evm_tx_context * JITImpl Program.program ()) world :=
  mkJvm [null_context 0] [town] [(0%nat, 0%nat)] new_library.
Definition town_call := call (fun _ _ => false) (fun _ _ => replicate 32 9) (town_native 2) (jbytes pay_message) town_state.

Lemma nested_call_atomic_witness :
  (town_call.1 ≫= R.fromBytes) = Some (mkTxResult FastVmResultCode.SUCCESS 9999 []) /\
  (exists l, stack town_call.2 = l ++ [(0%nat, 0%nat)]) /\
  exists g, sound w_total (w_total town) g /\ take 1 (worlds town_call.2) = [g] /\ balance g (replicate 32 3) = 2.
Proof.
  assert ((town_call.1 ≫= R.fromBytes) = Some (mkTxResult FastVmResultCode.SUCCESS 9999 []) /\
    (((fun s => balance s (replicate 32 3)) <$> (worlds town_call.2 !! 0%nat)) = Some 2)) as [Hc Hb] by (vm_compute; split; reflexivity).
  split; [exact Hc |].
  destruct (nested_call_atomic (HFold := const_fold) (fun _ _ => false) (fun _ _ => replicate 32 9) true
    0 (replicate 32 0) (replicate 32 0) (null_message 0) 1000 (fun _ _ => []) (fun _ => false) (fun _ => false) w_total world_ledger_ok
    world_precompiled_sound direct_engine_runs 2%nat pay_message 0 0 (null_context 0) town town_state town_call.1 town_call.2)
    as [Hl [Hw | (g & r & Hg & Hw & _)]].
  - split_and!; reflexivity.
  - apply world_solvent. apply (bool_decide_unpack _). vm_compute. exact I.
  - apply surjective_pairing.
  - exfalso. change (take 1 (worlds town_call.2) = [town]) in Hw. destruct (worlds town_call.2) as [| w ws]; [discriminate Hw |].
    assert (w = town) as -> by (by injection Hw). discriminate Hb.
  - split; [exact Hl |]. exists g. split; [exact Hg |]. change (take 1 (worlds town_call.2) = [g]) in Hw. split; [exact Hw |].
    destruct (worlds town_call.2) as [| w ws]; [discriminate Hw |]. assert (w = g) as -> by (by injection Hw). by injection Hb.
Defined.
