(* ===== verification/DevUtf8.v ===== *)
(** * Validation of UTF-8 in the Solidity compiler

    libdevcore/UTF8.cpp against the encoding of Unicode code points. *)
From S2P Require Import Prelude Text Utf8.

(** [isWellFormed]: the second byte of a sequence. *)
Definition isWellFormed (byte1 byte2 : Z) : bool :=
  if (byte1 =? 0xc0) || (byte1 =? 0xc1) then false
  else if (0xc2 <=? byte1) && (byte1 <=? 0xdf) then true
  else if byte1 =? 0xe0 then (if byte2 <? 0xa0 then false else true)
  else if (0xe1 <=? byte1) && (byte1 <=? 0xec) then true
  else if byte1 =? 0xed then (if 0x9f <? byte2 then false else true)
  else if (byte1 =? 0xee) || (byte1 =? 0xef) then true
  else if byte1 =? 0xf0 then (if byte2 <? 0x90 then false else true)
  else if (0xf1 <=? byte1) && (byte1 <=? 0xf3) then true
  else if byte1 =? 0xf4 then (if 0x8f <? byte2 then false else true)
  else false.

(** The loop over the continuation bytes, from the byte before them: what it
    leaves in [valid] and in [i].  Its breaks leave only this loop. *)
Fixpoint continuation_loop (input : nat -> Z) (count : nat) (first : bool) (valid : bool) (i : nat) : bool * nat :=
  match count with
  | 0%nat => (valid, i)
  | S count =>
      let i := S i in
      if negb (Z.land (input i) 0xc0 =? 0x80) then (false, i)
      else if first && negb (isWellFormed (input (i - 1)%nat) (input i)) then (false, i)
      else continuation_loop input count false valid i
  end.

(** The loop over the input; [fuel] is at least the bytes left. *)
Fixpoint validate_loop (fuel : nat) (input : nat -> Z) (length : nat) (valid : bool) (i : nat) : bool * nat :=
  match fuel with
  | 0%nat => (valid, i)
  | S fuel =>
      if (i <? length)%nat then
        if input i <? 0x80 then validate_loop fuel input length valid (S i)
        else
          let count :=
            if (0xc0 <=? input i) && (input i <=? 0xdf) then 1%nat
            else if (0xe0 <=? input i) && (input i <=? 0xef) then 2%nat
            else if (0xf0 <=? input i) && (input i <=? 0xf7) then 3%nat
            else 0%nat in
          if (count =? 0)%nat then (false, i)
          else if (length <=? i + count)%nat then (false, i)
          else
            let '(valid, i) := continuation_loop input count true valid i in
            validate_loop fuel input length valid (S i)
      else (valid, i)
  end.

(** [validateUTF8]: the verdict, and the position it reports. *)
Definition validateUTF8 (s : list Z) : bool * option nat :=
  let '(valid, i) := validate_loop (length s) (fun i => default 0 (s !! i)) (length s) true 0 in
  (valid, if valid then None else Some i).

(** ** The encoding *)

(** Unicode scalar values: code points that are not surrogates. *)
Definition scalar (p : Z) : Prop := 0 <= p < 0x110000 /\ isSurrogate p = false.

Definition encode_point (p : Z) : list Z :=
  if p <? 0x80 then [p]
  else if p <? 0x800 then [0xc0 + p / 64; cont p 1]
  else if p <? 0x10000 then [0xe0 + p / 0x1000; cont p 64; cont p 1]
  else [0xf0 + p / 0x40000; cont p 0x1000; cont p 64; cont p 1].

Inductive utf8 : list Z -> Prop :=
| utf8_nil : utf8 []
| utf8_cons p l : scalar p -> utf8 l -> utf8 (encode_point p ++ l).

Lemma byte_cont c : inw 8 c -> (Z.land c 0xc0 =? 0x80) = isCont c.
Proof.
  intros Hc. assert (forallb (fun n => Bool.eqb (Z.land (Z.of_nat n) 0xc0 =? 0x80) (isCont (Z.of_nat n))) (seq 0 256) = true) as H
    by (vm_compute; reflexivity).
  rewrite forallb_forall in H. specialize (H (Z.to_nat c)). rewrite Z2Nat.id in H by (unfold inw in Hc; lia).
  apply Bool.eqb_prop, H, in_seq. unfold inw in Hc. lia.
Qed.

Lemma cont_range c : isCont c = true <-> 0x80 <= c < 0xc0.
Proof. unfold isCont. rewrite andb_true_iff, Z.leb_le, Z.ltb_lt. done. Qed.

(** The three shapes of a sequence, by its first byte. *)
Lemma two_bytes b c : 0xc0 <= b <= 0xdf ->
  (isCont c = true /\ isWellFormed b c = true) <-> exists p, scalar p /\ encode_point p = [b; c].
Proof.
  intros Hb. rewrite cont_range. split.
  - intros [Hc Hw]. assert (0xc2 <= b). { unfold isWellFormed in Hw. destruct (Z.eqb_spec b 0xc0), (Z.eqb_spec b 0xc1); try discriminate. lia. }
    exists ((b - 0xc0) * 64 + (c - 0x80)). split; [split; [lia |]; unfold isSurrogate; apply andb_false_iff; left; apply Z.leb_gt; lia |].
    unfold encode_point. rewrite (proj2 (Z.ltb_ge _ 0x80)), (proj2 (Z.ltb_lt _ 0x800)) by lia. unfold cont. rewrite Z.div_1_r.
    rewrite Z.div_add_l, Z.div_small, (Z.add_comm (_ * 64)), Z.mod_add, Z.mod_small by lia. f_equal; [lia |]. f_equal. lia.
  - intros (p & [Hp _] & E). unfold encode_point in E.
    destruct (Z.ltb_spec p 0x80); [done |]. destruct (Z.ltb_spec p 0x800); [| destruct (p <? 0x10000); discriminate].
    injection E as <- <-. split; [apply cont_range, isCont_cont |].
    assert (2 <= p / 64) by (apply Z.div_le_lower_bound; lia). assert (p / 64 < 32) by (apply Z.div_lt_upper_bound; lia).
    unfold isWellFormed. repeat (match goal with |- (if ?b then _ else _) = true => destruct b eqn:? end; try done; bools; try lia).
Qed.

Lemma three_bytes b c d : 0xe0 <= b <= 0xef ->
  (isCont c = true /\ isWellFormed b c = true /\ isCont d = true) <-> exists p, scalar p /\ encode_point p = [b; c; d].
Proof.
  intros Hb. rewrite !cont_range. split.
  - intros (Hc & Hw & Hd). set (p := (b - 0xe0) * 0x1000 + (c - 0x80) * 64 + (d - 0x80)).
    assert (0x800 <= p < 0x10000 /\ isSurrogate p = false) as [Hp Hs].
    { assert ((b = 0xe0 -> 0xa0 <= c) /\ (b = 0xed -> c <= 0x9f)) as [H1 H2] by (split; intros ->; change (isWellFormed _ _) with (negb (c <? 0xa0)) in Hw || change (isWellFormed _ _) with (negb (0x9f <? c)) in Hw; bools; lia).
      unfold isSurrogate. rewrite andb_false_iff, Z.leb_gt, Z.ltb_ge.
      subst p. destruct (decide (b = 0xe0)), (decide (b = 0xed)); lia. }
    exists p. split; [split; [lia | done] |]. unfold encode_point.
    rewrite (proj2 (Z.ltb_ge p 0x80)), (proj2 (Z.ltb_ge p 0x800)), (proj2 (Z.ltb_lt p 0x10000)) by lia.
    pose proof (join3 p ltac:(lia)) as Ej. pose proof (isCont_cont p 64) as H64. pose proof (isCont_cont p 1) as H1.
    apply cont_range in H64, H1. f_equal; [| f_equal; [| f_equal]]; subst p; lia.
  - intros (p & [Hp Hs] & E). unfold encode_point in E. destruct (Z.ltb_spec p 0x80); [done |].
    destruct (Z.ltb_spec p 0x800); [done |]. destruct (Z.ltb_spec p 0x10000); [| done]. injection E as <- <- <-.
    split; [apply cont_range, isCont_cont |]. split; [| apply cont_range, isCont_cont].
    pose proof (join3 p ltac:(lia)) as Ej. pose proof (isCont_cont p 64) as H64. pose proof (isCont_cont p 1) as H1'.
    apply cont_range in H64, H1'. unfold isSurrogate in Hs. apply andb_false_iff in Hs. rewrite Z.leb_gt, Z.ltb_ge in Hs.
    unfold isWellFormed. repeat (match goal with |- (if ?b then _ else _) = true => destruct b eqn:? end; try done; bools; try lia).
Qed.

Lemma four_bytes b c d e : 0xf0 <= b <= 0xf7 ->
  (isCont c = true /\ isWellFormed b c = true /\ isCont d = true /\ isCont e = true) <->
  exists p, scalar p /\ encode_point p = [b; c; d; e].
Proof.
  intros Hb. rewrite !cont_range. split.
  - intros (Hc & Hw & Hd & He).
    set (p := (b - 0xf0) * 0x40000 + (c - 0x80) * 0x1000 + (d - 0x80) * 64 + (e - 0x80)).
    assert (0x10000 <= p < 0x110000) as Hp.
    { assert (b <= 0xf4 /\ (b = 0xf0 -> 0x90 <= c) /\ (b = 0xf4 -> c <= 0x8f)) as (H0 & H1 & H2).
      { split_and!; [| intros -> .. ]; [| change (isWellFormed _ _) with (negb (c <? 0x90)) in Hw; bools; lia
                                       | change (isWellFormed _ _) with (negb (0x8f <? c)) in Hw; bools; lia].
        apply Z.nlt_ge. intros Hlt. unfold isWellFormed in Hw.
        repeat (match goal with H : (if ?b then _ else _) = true |- _ => destruct b eqn:? end; try discriminate; bools; try lia). }
      subst p. destruct (decide (b = 0xf0)), (decide (b = 0xf4)); lia. }
    exists p. split; [split; [lia | unfold isSurrogate; apply andb_false_iff; right; apply Z.ltb_ge; lia] |].
    unfold encode_point.
    rewrite (proj2 (Z.ltb_ge p 0x80)), (proj2 (Z.ltb_ge p 0x800)), (proj2 (Z.ltb_ge p 0x10000)) by lia.
    pose proof (join4 p ltac:(lia)) as Ej. pose proof (isCont_cont p 0x1000) as Hm. pose proof (isCont_cont p 64) as H64.
    pose proof (isCont_cont p 1) as Hone. apply cont_range in Hm, H64, Hone.
    f_equal; [| f_equal; [| f_equal; [| f_equal]]]; subst p; lia.
  - intros (p & [Hp Hs] & E). unfold encode_point in E. destruct (Z.ltb_spec p 0x80); [done |].
    destruct (Z.ltb_spec p 0x800); [done |]. destruct (Z.ltb_spec p 0x10000); [done |]. injection E as <- <- <- <-.
    split; [apply cont_range, isCont_cont |]. split; [| split; apply cont_range, isCont_cont].
    pose proof (join4 p ltac:(lia)) as Ej. pose proof (isCont_cont p 0x1000) as Hm. pose proof (isCont_cont p 64) as H64.
    pose proof (isCont_cont p 1) as Hone. apply cont_range in Hm, H64, Hone.
    unfold isWellFormed. repeat (match goal with |- (if ?b then _ else _) = true => destruct b eqn:? end; try done; bools; try lia).
Qed.

(** The bytes that follow a first byte. *)
Definition follow (b : Z) : option nat :=
  if b <? 0x80 then Some 0%nat
  else if (0xc0 <=? b) && (b <=? 0xdf) then Some 1%nat
  else if (0xe0 <=? b) && (b <=? 0xef) then Some 2%nat
  else if (0xf0 <=? b) && (b <=? 0xf7) then Some 3%nat
  else None.

Lemma follow_eq b n : (b < 0x80 /\ n = 0%nat) \/ (0xc0 <= b <= 0xdf /\ n = 1%nat) \/ (0xe0 <= b <= 0xef /\ n = 2%nat)
  \/ (0xf0 <= b <= 0xf7 /\ n = 3%nat) -> follow b = Some n.
Proof.
  unfold follow. intros H. destruct (Z.ltb_spec b 0x80); [f_equal; lia |].
  repeat match goal with |- context [(?x <=? ?y)] => destruct (Z.leb_spec x y) end; cbn [andb]; first [f_equal; lia | lia].
Qed.

Lemma encode_first p : scalar p -> exists b t, encode_point p = b :: t /\ follow b = Some (length t).
Proof.
  intros [Hp _]. unfold encode_point. destruct (Z.ltb_spec p 0x80); [| destruct (Z.ltb_spec p 0x800); [| destruct (Z.ltb_spec p 0x10000)]].
  - do 2 eexists. split; [done |]. apply follow_eq. cbn. lia.
  - do 2 eexists. split; [done |]. apply follow_eq. cbn [length].
    pose proof (Z.div_pos p 64). assert (p / 64 < 32) by (apply Z.div_lt_upper_bound; lia). lia.
  - do 2 eexists. split; [done |]. apply follow_eq. cbn [length].
    pose proof (Z.div_pos p 0x1000). assert (p / 0x1000 < 16) by (apply Z.div_lt_upper_bound; lia). lia.
  - do 2 eexists. split; [done |]. apply follow_eq. cbn [length].
    pose proof (Z.div_pos p 0x40000). assert (p / 0x40000 < 5) by (apply Z.div_lt_upper_bound; lia). lia.
Qed.

Lemma utf8_step b l : utf8 (b :: l) <->
  exists n p, follow b = Some n /\ (n <= length l)%nat /\ scalar p /\ encode_point p = b :: take n l /\ utf8 (drop n l).
Proof.
  split.
  - intros Hu. inversion Hu as [| p l' Hp Hl E]. destruct (encode_first p Hp) as (b' & t & Et & Hf). rewrite Et in E.
    cbn in E. injection E as -> <-. exists (length t), p. rewrite take_app_length, drop_app_length, length_app. split_and!; try done. lia.
  - intros (n & p & Hf & Hn & Hp & Hb & Hd). rewrite <- (take_drop n l). change (utf8 ((b :: take n l) ++ drop n l)).
    rewrite <- Hb. by constructor.
Qed.

(** ** The loop *)

Section Loop.
Context (s : list Z) (Hbytes : Forall (inw 8) s).
Abbreviation input := (fun i => default 0 (s !! i)).

Lemma continuation_invalid n first i : (continuation_loop input n first false i).1 = false.
Proof. revert first i. induction n as [| n IH]; intros first i; cbn [continuation_loop]; [done |]. repeat case_match; done || apply IH. Qed.

Lemma validate_invalid fuel i : (validate_loop fuel input (length s) false i).1 = false.
Proof.
  revert i. induction fuel as [| fuel IH]; intros i; cbn [validate_loop]; [done |].
  destruct (_ <? _)%nat; [| done]. destruct (_ <? _); [apply IH |]. cbv zeta.
  match goal with |- context [continuation_loop _ ?n _ _ _] => generalize n; intros n' end.
  destruct (_ =? _)%nat; [done |]. destruct (_ <=? _)%nat; [done |].
  destruct (continuation_loop _ _ _ _ _) as [v i'] eqn:E. pose proof (continuation_invalid n' true i) as Hc. rewrite E in Hc. cbn in Hc. subst v.
  apply IH.
Qed.

(** The continuation bytes behind position [i]. *)
Lemma continuation_tail n i : (i + n < length s)%nat ->
  (continuation_loop input n false true i).1 = forallb isCont (take n (drop (S i) s)) /\
  (forallb isCont (take n (drop (S i) s)) = true -> (continuation_loop input n false true i).2 = (i + n)%nat).
Proof.
  revert i. induction n as [| n IH]; intros i Hi; cbn [continuation_loop]; [cbn; split; [done | lia] |].
  destruct (lookup_lt_is_Some_2 s (S i) ltac:(lia)) as [c Hc]. cbv beta. rewrite Hc. cbn [default from_option id].
  rewrite (drop_S s c (S i) Hc). cbn [take forallb]. rewrite byte_cont by (eapply Forall_lookup_1; [exact Hbytes | done]).
  destruct (isCont c); cbn [negb andb]; [| by split]. destruct (IH (S i) ltac:(lia)) as [H1 H2]. split; [done |].
  intros Hf. rewrite H2 by done. lia.
Qed.

Lemma continuation_head n i b c : s !! i = Some b -> s !! S i = Some c -> (i + S n < length s)%nat ->
  (continuation_loop input (S n) true true i).1 = isCont c && isWellFormed b c && forallb isCont (take n (drop (S (S i)) s)) /\
  ((continuation_loop input (S n) true true i).1 = true -> (continuation_loop input (S n) true true i).2 = (i + S n)%nat).
Proof.
  intros Hb Hc Hi. cbn [continuation_loop]. cbv beta zeta. replace (S i - 1)%nat with i by lia. rewrite Hb, Hc. cbn [default from_option id].
  rewrite byte_cont by (eapply Forall_lookup_1; [exact Hbytes | done]).
  destruct (isCont c); cbn [negb andb]; [| by split]. destruct (isWellFormed b c); cbn [negb andb]; [| by split].
  destruct (continuation_tail n (S i) ltac:(lia)) as [H1 H2]. rewrite H1. split; [done |]. intros Hf. rewrite H2 by done. lia.
Qed.

Lemma sequence_exact b l n : follow b = Some (S n) -> (S n <= length l)%nat ->
  (exists p, scalar p /\ encode_point p = b :: take (S n) l) <->
  exists c l', l = c :: l' /\ isCont c && isWellFormed b c && forallb isCont (take n l') = true.
Proof.
  intros Hf Hn. destruct l as [| c l']; [cbn in Hn; lia |].
  assert ((exists p, scalar p /\ encode_point p = b :: take (S n) (c :: l')) <-> isCont c && isWellFormed b c && forallb isCont (take n l') = true) as ->.
  2:{ split; [intros Hc; by exists c, l' | by intros (? & ? & [= <- <-] & Hc)]. }
  unfold follow in Hf. destruct (Z.ltb_spec b 0x80); [done |].
  destruct ((0xc0 <=? b) && (b <=? 0xdf)) eqn:E1; [| destruct ((0xe0 <=? b) && (b <=? 0xef)) eqn:E2;
    [| destruct ((0xf0 <=? b) && (b <=? 0xf7)) eqn:E3; [| done]]]; injection Hf as <-; bools; cbn [length] in Hn.
  - cbn [take forallb]. rewrite andb_true_r, andb_true_iff. symmetry. by apply two_bytes.
  - destruct l' as [| d l']; [cbn in Hn; lia |]. cbn [take forallb]. rewrite andb_true_r, !andb_true_iff, <- (three_bytes b c d) by done. tauto.
  - destruct l' as [| d [| e l']]; [cbn in Hn; lia .. |]. cbn [take forallb].
    rewrite andb_true_r, !andb_true_iff, <- (four_bytes b c d e) by done. tauto.
Qed.

Lemma validate_step fuel i b n : s !! i = Some b -> follow b = Some (S n) -> (i + S n < length s)%nat ->
  validate_loop (S fuel) input (length s) true i =
  let '(valid, i) := continuation_loop input (S n) true true i in validate_loop fuel input (length s) valid (S i).
Proof.
  intros Hb Hf Hi. cbn [validate_loop]. rewrite (proj2 (Nat.ltb_lt i (length s))) by lia. cbv beta. rewrite Hb. cbn [default from_option id].
  unfold follow in Hf. destruct (b <? 0x80); [done |]. cbv zeta.
  destruct (_ && _); [injection Hf as <- | destruct (_ && _); [injection Hf as <- | destruct (_ && _); [injection Hf as <- | done]]];
    cbn [Nat.eqb]; rewrite (proj2 (Nat.leb_gt (length s) _)) by lia; done.
Qed.

Lemma validate_bad fuel i b : s !! i = Some b -> (follow b = None \/ exists n, follow b = Some (S n) /\ (length s <= i + S n)%nat) ->
  (validate_loop (S fuel) input (length s) true i).1 = false.
Proof.
  intros Hb Hf. cbn [validate_loop]. rewrite (proj2 (Nat.ltb_lt i (length s))) by (by apply lookup_lt_Some in Hb).
  cbv beta. rewrite Hb. cbn [default from_option id]. unfold follow in Hf.
  destruct (b <? 0x80); [destruct Hf as [? | (? & ? & ?)]; done |]. cbv zeta.
  destruct (_ && _); [| destruct (_ && _); [| destruct (_ && _); [| done]]]; destruct Hf as [? | (n & [= <-] & Hn)]; try done;
    cbn [Nat.eqb]; rewrite (proj2 (Nat.leb_le (length s) _)) by lia; done.
Qed.

Lemma validate_utf8 fuel i : (length s <= i + fuel)%nat ->
  (validate_loop fuel input (length s) true i).1 = true <-> utf8 (drop i s).
Proof.
  revert i. induction fuel as [| fuel IH]; intros i Hi.
  { rewrite drop_ge by lia. split; [constructor | done]. }
  destruct (s !! i) as [b |] eqn:Eb.
  2:{ apply lookup_ge_None in Eb. rewrite drop_ge by lia. cbn [validate_loop].
      rewrite (proj2 (Nat.ltb_ge i (length s))) by lia. split; [constructor | done]. }
  pose proof (lookup_lt_Some _ _ _ Eb) as Hlt. rewrite (drop_S s b i Eb), utf8_step.
  destruct (follow b) as [[| n] |] eqn:Ef.
  - assert (b < 0x80). { unfold follow in Ef. destruct (Z.ltb_spec b 0x80); [done |]. repeat (destruct (_ && _); [done |]). done. }
    cbn [validate_loop]. rewrite (proj2 (Nat.ltb_lt i (length s))) by lia. cbv beta. rewrite Eb. cbn [default from_option id].
    rewrite (proj2 (Z.ltb_lt b 0x80)), IH by lia. split; [| by intros (? & ? & [= <-] & _ & _ & _ & Hd)].
    intros Hu. exists 0%nat, b. pose proof (Forall_lookup_1 _ _ _ _ Hbytes Eb) as Hb8.
    split_and!; try done; [lia | | unfold encode_point; by rewrite (proj2 (Z.ltb_lt b 0x80))].
    split; [unfold inw in Hb8; lia |]. unfold isSurrogate. apply andb_false_iff. left. apply Z.leb_gt. lia.
  - destruct (Nat.le_gt_cases (length s) (i + S n)) as [Hshort | Hlong].
    { rewrite (validate_bad fuel i b Eb) by eauto. split; [done |]. intros (n' & p & [= <-] & Hn & _). rewrite length_drop in Hn. lia. }
    rewrite (validate_step fuel i b n Eb Ef Hlong). destruct (lookup_lt_is_Some_2 s (S i) ltac:(lia)) as [c Ec].
    destruct (continuation_head n i b c Eb Ec Hlong) as [H1 H2].
    pose proof (sequence_exact b (drop (S i) s) n Ef ltac:(rewrite length_drop; lia)) as Hseq.
    rewrite (drop_S s c (S i) Ec) in *.
    destruct (continuation_loop input (S n) true true i) as [[|] i'] eqn:El; cbn [fst snd] in H1, H2.
    + rewrite H2, IH by (done || lia). split.
      * intros Hu. destruct (proj2 Hseq) as (p & Hp & He); [exists c, (drop (S (S i)) s); by rewrite <- H1 |].
        exists (S n), p. cbn [drop length]. rewrite drop_drop, length_drop. split_and!; try done; [lia |]. by replace (S (S i) + n)%nat with (S (i + S n)) by lia.
      * intros (n' & p & [= <-] & _ & _ & _ & Hd). cbn [drop] in Hd. rewrite drop_drop in Hd. by replace (S (i + S n)) with (S (S i) + n)%nat by lia.
    + rewrite validate_invalid. split; [done |]. intros (n' & p & [= <-] & _ & Hp & He & _).
      destruct (proj1 Hseq) as (? & ? & [= <- <-] & Hc); [by exists p |]. congruence.
  - rewrite (validate_bad fuel i b Eb) by auto. split; [done |]. by intros (? & ? & ? & _).
Qed.
End Loop.

(** C24: The validation accepts exactly the strings that encode a sequence of
    Unicode scalar values: no overlong forms, surrogates, cut sequences or
    values above U+10FFFF. *)
Theorem validateUTF8_exact s : Forall (inw 8) s -> (validateUTF8 s).1 = true <-> utf8 s.
Proof.
  intros Hs. unfold validateUTF8. pose proof (validate_utf8 s Hs (length s) 0 ltac:(lia)) as H. rewrite drop_0 in H.
  destruct (validate_loop _ _ _ _ _) as [valid i]. exact H.
Qed.

Lemma validateUTF8_exact_witness : utf8 [0xe2; 0x82; 0xac] /\ ~ utf8 [0xed; 0xa0; 0x80].
Proof.
  split.
  - apply (validateUTF8_exact [0xe2; 0x82; 0xac]); [apply (bool_decide_unpack _); vm_compute; exact I | reflexivity].
  - intros Hu. apply (validateUTF8_exact [0xed; 0xa0; 0x80]) in Hu; [discriminate | apply (bool_decide_unpack _); vm_compute; exact I].
Defined.

(** The position that is reported is not the first invalid one: the search goes
    on behind a sequence whose continuation bytes are wrong. *)
Lemma invalid_position_late : validateUTF8 [0xc3; 0x28; 0x61; 0x62] = (false, Some 4%nat).
Proof. reflexivity. Qed.
