(* ===== verification/SolTypes.v ===== *)
(** * The types of the Solidity compiler

    libsolidity/ast/Types.h and Types.cpp: the types that variables and
    literals can have, their sizes, the implicit conversions between them and
    the common type of two operands.  [operator==] of two types is [type_eqb];
    contracts, structs and enums are compared by the identity of their
    definition.  A number literal has its value as its type, a [rational] in
    lowest terms.  [None] is a failed assertion, an exception or a null
    pointer, as the source has it. *)
From Stdlib Require Import QArith Qabs.
From stdpp Require Import strings.
From S2P Require Import Prelude Bytes AsmItem AsmRun DevUtf8.
Open Scope string_scope.
Open Scope Z_scope.

(** [enum class DataLocation]. *)
Inductive DataLocation := Storage | CallData | Memory.

(** [IntegerType::Modifier]. *)
Inductive Modifier := Unsigned | Signed | Address.

(** [ArrayType::ArrayKind]. *)
Inductive ArrayKind := Ordinary | ABytes | AString.

(** [FunctionType::Kind]. *)
Inductive Kind :=
  Internal | External | CallCode | DelegateCall | BareCall | BareCallCode | BareDelegateCall | Creation | Send | Transfer
| SHA3 | Selfdestruct | Revert | ECRecover | EDVerify | SHA256 | RIPEMD160 | BLAKE2b256 | TXHash
| Log0 | Log1 | Log2 | Log3 | Log4 | Event | SetGas | SetValue | BlockHash | AddMod | MulMod
| ArrayPush | ByteArrayPush | ObjectCreation | Assert | Require.

#[global] Instance DataLocation_dec : EqDecision DataLocation.
Proof. solve_decision. Defined.
#[global] Instance Modifier_dec : EqDecision Modifier.
Proof. solve_decision. Defined.
#[global] Instance ArrayKind_dec : EqDecision ArrayKind.
Proof. solve_decision. Defined.
#[global] Instance Kind_dec : EqDecision Kind.
Proof. solve_decision. Defined.

(** What a contract type asks of its definition: its identity, the linearised
    base contracts, itself first, and whether it is a library. *)
Record ContractDefinition := mkContract { c_id : Z; linearizedBaseContracts : list Z; isLibrary : bool }.

(** The types.  A function type has its kind, parameters, return parameters
    and the flags constant, gas set, value set and bound; a struct type has the
    declared members of its definition. *)
Local Set Warnings "-register-all".
Inductive Type_ :=
| IntegerType (m_bits : Z) (m_modifier : Modifier)
| FixedPointType (m_totalBits m_fractionalDigits : Z) (isSigned : bool)
| RationalNumberType (m_value : Q)
| StringLiteralType (m_value : list Z)
| BoolType
| FixedBytesType (m_bytes : Z)
| ArrayType (m_location : DataLocation) (m_isPointer : bool) (m_arrayKind : ArrayKind) (m_baseType : Type_) (m_length : option Z)
| ContractType (m_contract : ContractDefinition) (m_super : bool)
| StructType (m_location : DataLocation) (m_isPointer : bool) (m_struct : Z) (members : list (string * Type_))
| EnumType (m_enum : Z) (numberOfMembers : Z)
| FunctionType (m_kind : Kind) (params rets : list Type_) (isConstant gasSet valueSet bound : bool)
| MappingType (keyType valueType : Type_).

Definition type_list_eqb (eqb : Type_ -> Type_ -> bool) : list Type_ -> list Type_ -> bool :=
  fix go l l' := match l, l' with
    | [], [] => true
    | t :: l, t' :: l' => eqb t t' && go l l'
    | _, _ => false
    end.

Fixpoint type_eqb (t u : Type_) {struct t} : bool :=
  match t, u with
  | IntegerType b m, IntegerType b' m' => (b =? b') && bool_decide (m = m')
  | FixedPointType b d s, FixedPointType b' d' s' => (b =? b') && (d =? d') && Bool.eqb s s'
  | RationalNumberType q, RationalNumberType q' => (Qnum q =? Qnum q') && (Qden q =? Qden q')%positive
  | StringLiteralType s, StringLiteralType s' => bool_decide (s = s')
  | BoolType, BoolType => true
  | FixedBytesType n, FixedBytesType n' => n =? n'
  | ArrayType l p k b n, ArrayType l' p' k' b' n' =>
      bool_decide (l = l') && Bool.eqb p p' && bool_decide (k = k') && bool_decide (n = n') && type_eqb b b'
  | ContractType c s, ContractType c' s' => (c_id c =? c_id c') && Bool.eqb s s'
  | StructType l p d _, StructType l' p' d' _ => bool_decide (l = l') && Bool.eqb p p' && (d =? d')
  | EnumType d _, EnumType d' _ => d =? d'
  | FunctionType k ps rs c g v b, FunctionType k' ps' rs' c' g' v' b' =>
      bool_decide (k = k') && Bool.eqb c c' && type_list_eqb type_eqb ps ps' && type_list_eqb type_eqb rs rs'
      && Bool.eqb g g' && Bool.eqb v v' && Bool.eqb b b'
  | MappingType k v, MappingType k' v' => type_eqb k k' && type_eqb v v'
  | _, _ => false
  end.

(** ** Numbers *)

Definition isAddress (m : Modifier) : bool := bool_decide (m = Address).
Definition isSigned (m : Modifier) : bool := bool_decide (m = Signed).

(** The constructor of [IntegerType]. *)
Definition make_IntegerType (bits : Z) (m : Modifier) : option Type_ :=
  let bits := if isAddress m then 256 else bits in
  if (0 <? bits) && (bits <=? 256) && (bits mod 8 =? 0) then Some (IntegerType bits m) else None.

Definition minValue (bits : Z) (m : Modifier) : Z := if isSigned m then - Z.shiftl 1 (bits - 1) else 0.
Definition maxValue (bits : Z) (m : Modifier) : Z :=
  if isSigned m then Z.shiftl 1 (bits - 1) - 1 else Z.shiftl 1 bits - 1.

(** [FixedPointType]: the constructor and the largest and smallest integer;
    the division of a [bigint] truncates. *)
Definition make_FixedPointType (bits digits : Z) (signed : bool) : option Type_ :=
  if (8 <=? bits) && (bits <=? 256) && (bits mod 8 =? 0) && (0 <=? digits) && (digits <=? 80)
  then Some (FixedPointType bits digits signed) else None.

Definition maxIntegerValue (bits digits : Z) (signed : bool) : Z :=
  Z.quot (Z.shiftl 1 (bits - (if signed then 1 else 0)) - 1) (10 ^ digits).
Definition minIntegerValue (bits digits : Z) (signed : bool) : Z :=
  if signed then Z.quot (- Z.shiftl 1 (bits - 1)) (10 ^ digits) else 0.

(** ** Number literals *)

Abbreviation isFractional q := (negb (Qden q =? 1)%positive).

(** [RationalNumberType::integerType]. *)
Definition integerType (q : Q) : option Type_ :=
  if isFractional q then None
  else
    let value := Qnum q in
    let negative := value <? 0 in
    let value := if negative then Z.shiftl (0 - value - 1) 1 else value in
    if 2 ^ 256 - 1 <? value then None
    else make_IntegerType (Z.max (dev_bytesRequired value) 1 * 8) (if negative then Signed else Unsigned).

(** [RationalNumberType::fixedPointType], with its loop; for a negative number
    that is cut to zero [bytesRequired] shifts a negative number for ever. *)
Fixpoint fixed_loop (fuel : nat) (maxValue value : Q) (digits : Z) : Q * Z :=
  match fuel with
  | 0%nat => (value, digits)
  | S fuel =>
      if Qle_bool (value * 10) maxValue && isFractional value && (digits <? 80)
      then fixed_loop fuel maxValue (Qred (value * 10)) (digits + 1) else (value, digits)
  end.

Definition fixedPointType (q : Q) : option Type_ :=
  let negative := Qnum q <? 0 in
  let maxValue := if negative then inject_Z (2 ^ 255) else inject_Z (2 ^ 256 - 1) in
  let '(value, digits) := fixed_loop 80 maxValue (Qabs q) 0 in
  if negb (Qle_bool value maxValue) then None
  else
    let v := Z.quot (Qnum value) (Zpos (Qden value)) in
    let v := if negative then Z.shiftl (v - 1) 1 else v in
    if (v <? 0) || (2 ^ 256 - 1 <? v) then None
    else make_FixedPointType (Z.max (dev_bytesRequired v) 1 * 8) digits negative.

(** [RationalNumberType::literalValue]: the fraction is cut before the scaling,
    a negative number is a word of 128 bits. *)
Definition literalValue (q : Q) : option Z :=
  shiftedValue ← (if negb (isFractional q) then Some (Qnum q)
    else match fixedPointType q with
         | Some (FixedPointType _ digits _) => Some (Z.quot (Qnum q) (Zpos (Qden q)) * 10 ^ digits)
         | _ => None
         end);
  if (shiftedValue <=? 2 ^ 256 - 1) && (- 2 ^ 255 <=? shiftedValue) then
    if 0 <=? Qnum q then Some shiftedValue
    else if - 2 ^ 128 <=? shiftedValue then Some (wrap 128 shiftedValue) else None
  else None.

(** ** Conversions *)

(** [canLiveOutsideStorage]. *)
Fixpoint canLiveOutsideStorage (t : Type_) : bool :=
  match t with
  | RationalNumberType _ | StringLiteralType _ | MappingType _ _ => false
  | ArrayType _ _ _ b _ => canLiveOutsideStorage b
  | FunctionType k _ _ _ _ _ _ => bool_decide (k = Internal) || bool_decide (k = External)
  | _ => true
  end.

(** [copyForLocation] and [copyForLocationIfReference]: the parts of the copy
    are not pointers. *)
Fixpoint copyForLocation (loc : DataLocation) (isPointer : bool) (t : Type_) : Type_ :=
  match t with
  | ArrayType _ _ k b n => ArrayType loc isPointer k (copyForLocation loc false b) n
  | StructType _ _ d ms => StructType loc isPointer d ms
  | _ => t
  end.

Abbreviation copyForLocationIfReference loc t := (copyForLocation loc false t).

(** [mobileType]. *)
Definition mobileType (t : Type_) : option Type_ :=
  match t with
  | RationalNumberType q => if isFractional q then fixedPointType q else integerType q
  | StringLiteralType _ => Some (ArrayType Memory true AString (FixedBytesType 1) None)
  | ArrayType loc _ _ _ _ | StructType loc _ _ _ => Some (copyForLocation loc true t)
  | _ => Some t
  end.

(** [isImplicitlyConvertibleTo] of each class. *)
Definition IntegerType_convertible (bits : Z) (m : Modifier) (to : Type_) : bool :=
  match to with
  | IntegerType bits' m' =>
      if bits' <? bits then false
      else if isAddress m then isAddress m'
      else if isSigned m then isSigned m'
      else negb (isSigned m') || (bits <? bits')
  | FixedPointType bits' digits' signed' =>
      if isAddress m then false
      else (maxValue bits m <=? maxIntegerValue bits' digits' signed')
           && (minIntegerValue bits' digits' signed' <=? minValue bits m)
  | _ => false
  end.

Definition FixedPointType_convertible (bits digits : Z) (signed : bool) (to : Type_) : bool :=
  match to with
  | FixedPointType bits' digits' signed' =>
      if (bits' <? bits) || (digits' <? digits) then false
      else (maxIntegerValue bits digits signed <=? maxIntegerValue bits' digits' signed')
           && (minIntegerValue bits' digits' signed' <=? minIntegerValue bits digits signed)
  | _ => false
  end.

Definition RationalNumberType_convertible (q : Q) (to : Type_) : bool :=
  match to with
  | IntegerType bits m =>
      let forSignBit := if isSigned m then 1 else 0 in
      if Qnum q =? 0 then true
      else if isFractional q then false
      else if 0 <? Qnum q then Qnum q <=? Z.shiftr (2 ^ 256 - 1) (256 - bits + forSignBit)
      else isSigned m && (- Qnum q <=? wrap 256 (Z.shiftl 1 (bits - forSignBit)))
  | FixedPointType _ _ _ =>
      match fixedPointType q with
      | Some (FixedPointType bits digits signed) => FixedPointType_convertible bits digits signed to
      | _ => false
      end
  | FixedBytesType n =>
      negb (isFractional q) && match integerType q with Some (IntegerType bits _) => bits <=? n * 8 | _ => false end
  | _ => false
  end.

Definition StringLiteralType_convertible (s : list Z) (to : Type_) : bool :=
  match to with
  | FixedBytesType n => Z.of_nat (length s) <=? n
  | ArrayType loc ptr kind _ _ =>
      negb (bool_decide (kind = Ordinary)) && negb (bool_decide (loc = Storage) && ptr)
      && negb (bool_decide (kind = AString) && negb (validateUTF8 s).1)
  | _ => false
  end.

Definition ContractType_convertible (c : ContractDefinition) (super : bool) (to : Type_) : bool :=
  if type_eqb (ContractType c super) to then true
  else match to with
       | IntegerType _ m => isAddress m
       | ContractType c' _ =>
           let bases := linearizedBaseContracts c in
           if super && (length bases <=? 1)%nat then false
           else existsb (Z.eqb (c_id c')) (if super then tail bases else bases)
       | _ => false
       end.

(** Arrays and structs: a value outside the storage converts to a direct
    storage reference only, nothing converts to call data. *)
Abbreviation reference_convertible loc loc' ptr' := (negb (bool_decide (loc' = Storage) && negb (bool_decide (loc = Storage)) && ptr')
  && negb (bool_decide (loc' = CallData) && negb (bool_decide (loc = loc')))).

Definition StructType_convertible (loc : DataLocation) (d : Z) (to : Type_) : bool :=
  match to with
  | StructType loc' ptr' d' _ => reference_convertible loc loc' ptr' && (d =? d')
  | _ => false
  end.

(** Enums, booleans, functions and mappings convert to themselves. *)
Fixpoint isImplicitlyConvertibleTo (t to : Type_) {struct t} : bool :=
  match t with
  | IntegerType bits m => IntegerType_convertible bits m to
  | FixedPointType bits digits signed => FixedPointType_convertible bits digits signed to
  | RationalNumberType q => RationalNumberType_convertible q to
  | StringLiteralType s => StringLiteralType_convertible s to
  | FixedBytesType n => match to with FixedBytesType n' => n <=? n' | _ => false end
  | ContractType c super => ContractType_convertible c super to
  | StructType loc _ d _ => StructType_convertible loc d to
  | ArrayType loc ptr kind base len =>
      match to with
      | ArrayType loc' ptr' kind' base' len' =>
          if negb (bool_decide (kind' = kind)) then false
          else if negb (reference_convertible loc loc' ptr') then false
          else if bool_decide (loc' = Storage) && negb ptr' then
            isImplicitlyConvertibleTo base base' &&
            match len', len with
            | None, _ => true
            | Some n', Some n => n <=? n'
            | Some _, None => false
            end
          else
            type_eqb (copyForLocationIfReference loc base) (copyForLocationIfReference loc base') && bool_decide (len = len')
      | _ => false
      end
  | _ => type_eqb t to
  end.

(** [Type::commonType] of two types that are not null. *)
Definition commonType (a b : Type_) : option Type_ :=
  match mobileType a with
  | Some m => if isImplicitlyConvertibleTo b m then Some m
              else match mobileType b with Some m => if isImplicitlyConvertibleTo a m then Some m else None | None => None end
  | None => match mobileType b with Some m => if isImplicitlyConvertibleTo a m then Some m else None | None => None end
  end.

(** ** What types mean *)

(** The values of a number type: integers of a range, decimal fractions of a
    range, the one value of a literal. *)
Definition has_value (t : Type_) (q : Q) : Prop :=
  match t with
  | IntegerType bits m => exists v, minValue bits m <= v <= maxValue bits m /\ (q == inject_Z v)%Q
  | FixedPointType bits digits signed =>
      exists v, (if signed then - 2 ^ (bits - 1) <= v < 2 ^ (bits - 1) else 0 <= v < 2 ^ bits) /\
        (q * inject_Z (10 ^ digits) == inject_Z v)%Q
  | RationalNumberType q' => (q == q')%Q
  | _ => False
  end.

(** Number types as the constructors make them. *)
Definition number_ok (t : Type_) : Prop :=
  match t with
  | IntegerType bits m => make_IntegerType bits m = Some t
  | FixedPointType bits digits signed => make_FixedPointType bits digits signed = Some t
  | RationalNumberType q => Qred q = q
  | _ => False
  end.

Lemma integer_ok bits m : number_ok (IntegerType bits m) -> 8 <= bits <= 256 /\ (8 | bits) /\ (m = Address -> bits = 256).
Proof.
  cbn. unfold make_IntegerType, isAddress. destruct (bool_decide (m = Address)) eqn:E.
  - cbn. intros [= <-]. split; [lia |]. split; [by exists 32 | done].
  - destruct (_ && _) eqn:Eb; [| done]. intros _. rewrite !andb_true_iff in Eb. destruct Eb as [[H1 H2] H3].
    apply Z.ltb_lt in H1. apply Z.leb_le in H2. apply Z.eqb_eq, Z.mod_divide in H3; [| lia].
    destruct H3 as [k ->]. split; [lia |]. split; [by exists k |]. intros ->. by rewrite bool_decide_eq_true_2 in E.
Qed.

Lemma fixed_ok bits digits signed : number_ok (FixedPointType bits digits signed) -> 8 <= bits <= 256 /\ 0 <= digits <= 80.
Proof.
  cbn. unfold make_FixedPointType. destruct (_ && _) eqn:Eb; [| done]. intros _.
  rewrite !andb_true_iff in Eb. repeat match goal with H : _ /\ _ |- _ => destruct H end.
  repeat match goal with H : (_ <=? _) = true |- _ => apply Z.leb_le in H end. done.
Qed.

(** The range of an integer type in powers of two. *)
Lemma range_signed bits : minValue bits Signed = - 2 ^ (bits - 1) /\ maxValue bits Signed = 2 ^ (bits - 1) - 1.
Proof. unfold minValue, maxValue. cbn [isSigned bool_decide]. by rewrite Z.shiftl_1_l. Qed.
Lemma range_unsigned bits m : m <> Signed -> minValue bits m = 0 /\ maxValue bits m = 2 ^ bits - 1.
Proof. unfold minValue, maxValue, isSigned. intros Hm. rewrite bool_decide_eq_false_2 by done. by rewrite Z.shiftl_1_l. Qed.

Lemma range_order bits m : 8 <= bits -> minValue bits m <= 0 <= maxValue bits m.
Proof.
  intros Hb. pose proof (pow2_pos bits ltac:(lia)). pose proof (pow2_pos (bits - 1) ltac:(lia)).
  destruct (decide (m = Signed)) as [-> | Hm]; [destruct (range_signed bits) | destruct (range_unsigned bits m Hm)]; lia.
Qed.

Lemma inject_Z_inj a b : (inject_Z a == inject_Z b)%Q -> a = b.
Proof. unfold Qeq. cbn. lia. Qed.

(** Inclusion of the values is inclusion of the range. *)
Lemma integer_values bits m bits' m' : 8 <= bits ->
  (forall q, has_value (IntegerType bits m) q -> has_value (IntegerType bits' m') q) <->
  minValue bits' m' <= minValue bits m /\ maxValue bits m <= maxValue bits' m'.
Proof.
  intros Hb. pose proof (range_order bits m Hb). split.
  - intros Hq. destruct (Hq (inject_Z (minValue bits m))) as (v & Hv & E); [exists (minValue bits m); split; [lia | done] |].
    destruct (Hq (inject_Z (maxValue bits m))) as (v' & Hv' & E'); [exists (maxValue bits m); split; [lia | done] |].
    apply inject_Z_inj in E', E. subst v v'. lia.
  - intros [H1 H2] q (v & Hv & E). exists v. split; [lia | done].
Qed.

Lemma pow2_le a b : 0 <= a -> 0 <= b -> 2 ^ a <= 2 ^ b <-> a <= b.
Proof. intros Ha Hb. symmetry. apply Z.pow_le_mono_r_iff; lia. Qed.

Lemma integer_to_integer bits m bits' m' :
  8 <= bits <= 256 -> 8 <= bits' <= 256 -> m <> Address -> (m' = Address -> bits' = 256) ->
  IntegerType_convertible bits m (IntegerType bits' m') = true <->
  minValue bits' m' <= minValue bits m /\ maxValue bits m <= maxValue bits' m'.
Proof.
  intros Hb Hb' Hm Ha. unfold IntegerType_convertible, isAddress.
  rewrite (bool_decide_eq_false_2 (m = Address)) by done.
  pose proof (pow2_pos (bits - 1) ltac:(lia)). pose proof (pow2_pos (bits' - 1) ltac:(lia)).
  pose proof (pow2_le bits bits'). pose proof (pow2_le (bits - 1) (bits' - 1)). pose proof (pow2_le bits (bits' - 1)).
  pose proof (pow2_le bits' bits).
  destruct (range_signed bits) as [Es1 Es2]. destruct (range_signed bits') as [Es3 Es4].
  destruct (range_unsigned bits Unsigned ltac:(done)) as [Eu1 Eu2].
  destruct (range_unsigned bits' Unsigned ltac:(done)) as [Eu3 Eu4].
  destruct (range_unsigned bits' Address ltac:(done)) as [Ea3 Ea4].
  destruct (Z.ltb_spec bits' bits) as [Hlt | Hge]; destruct m; try done; destruct m'; cbn [isSigned bool_decide];
    rewrite ?Es1, ?Es2, ?Es3, ?Es4, ?Eu1, ?Eu2, ?Eu3, ?Eu4, ?Ea3, ?Ea4; unfold isSigned;
    repeat first [rewrite bool_decide_eq_true_2 by done | rewrite bool_decide_eq_false_2 by done];
    cbn [negb orb]; rewrite ?Z.ltb_lt; split; try done; try (intros; lia).
Qed.

Lemma quot_bound a d v : 0 < d -> 0 <= a -> 0 <= v -> v <= Z.quot a d <-> v * d <= a.
Proof.
  intros Hd Ha Hv. rewrite Z.quot_div_nonneg by lia. split; intros Hle.
  - pose proof (Z.mul_div_le a d Hd). nia.
  - apply Z.div_le_lower_bound; lia.
Qed.

(** The integers between the largest and the smallest of a fixed point type. *)
Lemma fixed_integers bits digits signed v : 8 <= bits -> 0 <= digits ->
  minIntegerValue bits digits signed <= v <= maxIntegerValue bits digits signed <->
  has_value (FixedPointType bits digits signed) (inject_Z v).
Proof.
  intros Hb Hd. pose proof (Z.pow_pos_nonneg 10 digits ltac:(lia) Hd) as Ht.
  pose proof (pow2_pos (bits - 1) ltac:(lia)). pose proof (pow2_pos bits ltac:(lia)).
  assert (has_value (FixedPointType bits digits signed) (inject_Z v) <->
    (if signed then - 2 ^ (bits - 1) <= v * 10 ^ digits < 2 ^ (bits - 1) else 0 <= v * 10 ^ digits < 2 ^ bits)) as ->.
  { cbn [has_value]. split; [| intros Hv; exists (v * 10 ^ digits); split; [done | by rewrite inject_Z_mult]].
    intros (k & Hk & E). rewrite <- inject_Z_mult in E. by apply inject_Z_inj in E as ->. }
  unfold minIntegerValue, maxIntegerValue. rewrite !Z.shiftl_1_l. destruct signed.
  - rewrite Z.quot_opp_l by lia. pose proof (quot_bound (2 ^ (bits - 1)) (10 ^ digits)).
    pose proof (quot_bound (2 ^ (bits - 1) - 1) (10 ^ digits)).
    pose proof (Z.quot_pos (2 ^ (bits - 1)) (10 ^ digits) ltac:(lia) Ht).
    pose proof (Z.quot_pos (2 ^ (bits - 1) - 1) (10 ^ digits) ltac:(lia) Ht).
    destruct (Z.le_gt_cases 0 v); [specialize (H2 v Ht ltac:(lia) ltac:(lia)); nia |].
    specialize (H1 (- v) Ht ltac:(lia) ltac:(lia)). nia.
  - rewrite Z.sub_0_r. pose proof (quot_bound (2 ^ bits - 1) (10 ^ digits) v Ht ltac:(lia)). split; [intros [? ?]; nia |].
    intros [? ?]. assert (0 <= v) by nia. split; [done |]. apply H1; lia.
Qed.

Lemma integer_to_fixed bits m bits' digits' signed' :
  8 <= bits -> 8 <= bits' -> 0 <= digits' -> m <> Address ->
  IntegerType_convertible bits m (FixedPointType bits' digits' signed') = true <->
  forall q, has_value (IntegerType bits m) q -> has_value (FixedPointType bits' digits' signed') q.
Proof.
  intros Hb Hb' Hd Hm. unfold IntegerType_convertible, isAddress. rewrite (bool_decide_eq_false_2 (m = Address)) by done.
  rewrite andb_true_iff, !Z.leb_le. pose proof (range_order bits m Hb). split.
  - intros [H1 H2] q (v & Hv & E). assert (has_value (FixedPointType bits' digits' signed') (inject_Z v)) as Hf.
    { apply fixed_integers; lia. }
    destruct Hf as (k & Hk & Ek). exists k. split; [done |]. by rewrite E.
  - intros Hq. assert (forall v, minValue bits m <= v <= maxValue bits m ->
      minIntegerValue bits' digits' signed' <= v <= maxIntegerValue bits' digits' signed') as Hall.
    { intros v Hv. apply fixed_integers; [done | done |]. apply Hq. by exists v. }
    pose proof (Hall (minValue bits m) ltac:(lia)). pose proof (Hall (maxValue bits m) ltac:(lia)). lia.
Qed.

(** A fraction in lowest terms that equals an integer has no denominator. *)
Lemma reduced_integer q v : Qred q = q -> (q == inject_Z v)%Q -> Qden q = 1%positive /\ Qnum q = v.
Proof.
  intros Hr E. apply Qred_complete in E. rewrite Hr in E. subst q.
  change (Qred (inject_Z v)) with (Qred (v # 1)). unfold Qred. destruct (Z.ggcd v 1) as [g [a b]] eqn:Eg.
  pose proof (Z.ggcd_gcd v 1) as Hg. pose proof (Z.ggcd_correct_divisors v 1) as Hd. rewrite Eg in Hg, Hd. cbn in Hg, Hd.
  rewrite Z.gcd_1_r in Hg. subst g. destruct Hd as [-> Hb]. rewrite Z.mul_1_l in Hb. subst b. cbn. split; [done | lia].
Qed.

Lemma literal_values q bits m : Qred q = q ->
  (forall p, has_value (RationalNumberType q) p -> has_value (IntegerType bits m) p) <->
  isFractional q = false /\ minValue bits m <= Qnum q <= maxValue bits m.
Proof.
  intros Hr. split.
  - intros Hp. destruct (Hp q) as (v & Hv & E); [done |]. destruct (reduced_integer q v Hr E) as [Hd Hn].
    unfold isFractional. rewrite Hd, Hn. done.
  - intros [Hf Hv] p Hp. cbn in Hp. exists (Qnum q). split; [done |]. rewrite Hp. unfold isFractional in Hf.
    apply negb_false_iff, Pos.eqb_eq in Hf. unfold Qeq. rewrite Hf. cbn. lia.
Qed.

Lemma ones_shiftr bits k : 0 <= bits <= 256 -> 0 <= k <= bits -> Z.shiftr (2 ^ 256 - 1) (256 - bits + k) = 2 ^ (bits - k) - 1.
Proof.
  intros Hb Hk. rewrite Z.shiftr_div_pow2 by lia. replace (2 ^ 256) with (2 ^ (256 - bits + k) * 2 ^ (bits - k)).
  - pose proof (pow2_pos (256 - bits + k) ltac:(lia)). pose proof (pow2_pos (bits - k) ltac:(lia)).
    symmetry. apply Z.div_unique with (2 ^ (256 - bits + k) - 1); lia.
  - rewrite <- Z.pow_add_r by lia. f_equal. lia.
Qed.

Lemma literal_to_integer q bits m : Qred q = q -> 8 <= bits <= 256 ->
  RationalNumberType_convertible q (IntegerType bits m) = true <->
  isFractional q = false /\ minValue bits m <= Qnum q <= maxValue bits m.
Proof.
  intros Hr Hb. unfold RationalNumberType_convertible. pose proof (range_order bits m ltac:(lia)).
  destruct (Z.eqb_spec (Qnum q) 0) as [Hz | Hz].
  { assert (isFractional q = false); [| by split; [rewrite Hz |]].
    assert (q == inject_Z 0)%Q as E by (unfold Qeq; rewrite Hz; done).
    unfold isFractional. by rewrite (proj1 (reduced_integer q 0 Hr E)). }
  destruct (isFractional q); [split; [done | by intros [? _]] |].
  destruct (decide (m = Signed)) as [-> | Hm].
  - destruct (range_signed bits) as [-> ->]. cbn [isSigned bool_decide Modifier_dec]. change (isSigned Signed) with true.
    destruct (Z.ltb_spec 0 (Qnum q)).
    + rewrite Z.leb_le, ones_shiftr by lia. pose proof (pow2_pos (bits - 1) ltac:(lia)). lia.
    + cbn [andb]. rewrite Z.leb_le, Z.shiftl_1_l, wrap_small by (split; [lia | apply Z.pow_lt_mono_r; lia]).
      pose proof (pow2_pos (bits - 1) ltac:(lia)). lia.
  - destruct (range_unsigned bits m Hm) as [-> ->]. unfold isSigned. rewrite bool_decide_eq_false_2 by done.
    destruct (Z.ltb_spec 0 (Qnum q)); [| cbn [andb]; split; [done | lia]].
    rewrite Z.leb_le, ones_shiftr by lia. rewrite Z.sub_0_r. lia.
Qed.

(** Integers and literals into integers, and integers into fixed point numbers. *)
Definition exact_conversion (a b : Type_) : Prop :=
  match a, b with
  | IntegerType _ m, (IntegerType _ _ | FixedPointType _ _ _) => m <> Address
  | RationalNumberType _, IntegerType _ _ => True
  | _, _ => False
  end.

(** C10: A number type converts implicitly to another exactly where every value
    of the one is a value of the other, for integers and literals into integer
    types and integers into fixed point types. *)
Theorem implicit_conversion_exact a b :
  number_ok a -> number_ok b -> exact_conversion a b ->
  isImplicitlyConvertibleTo a b = true <-> (forall q, has_value a q -> has_value b q).
Proof.
  intros Ha Hb He. destruct a as [bits m | | q | | | | | | | | |]; try done; destruct b as [bits' m' | bits' digits' s' | | | | | | | | | |]; try done.
  - apply integer_ok in Ha as (Ha & _ & _), Hb as (Hb & _ & Hb'). rewrite integer_values by lia. by apply integer_to_integer.
  - apply integer_ok in Ha as (Ha & _ & _). apply fixed_ok in Hb. apply integer_to_fixed; lia || done.
  - apply integer_ok in Hb as (Hb & _ & _). rewrite literal_values by done. by apply literal_to_integer.
Qed.

Lemma implicit_conversion_exact_witness :
  (forall q, has_value (IntegerType 8 Unsigned) q -> has_value (IntegerType 16 Signed) q) /\
  ~ (forall q, has_value (RationalNumberType (300 # 1)) q -> has_value (IntegerType 8 Unsigned) q).
Proof.
  split.
  - apply (implicit_conversion_exact (IntegerType 8 Unsigned) (IntegerType 16 Signed)); [reflexivity | reflexivity | discriminate | reflexivity].
  - intros Hq. apply (implicit_conversion_exact (RationalNumberType (300 # 1)) (IntegerType 8 Unsigned)) in Hq;
      [discriminate | reflexivity | reflexivity | exact I].
Defined.

(** ** The type of a literal *)

Lemma make_integer n m : 1 <= n <= 32 -> m <> Address -> make_IntegerType (n * 8) m = Some (IntegerType (n * 8) m).
Proof.
  intros Hn Hm. unfold make_IntegerType, isAddress. rewrite bool_decide_eq_false_2 by done.
  destruct (_ && _) eqn:E; [done |]. rewrite !andb_false_iff, Z.ltb_ge, Z.leb_gt, Z.eqb_neq, Z.mod_mul in E by lia. lia.
Qed.

(** The bytes of the number whose size [integerType] takes. *)
Lemma bytes_least w k : 0 <= w < 2 ^ 256 -> 1 <= k -> w < 2 ^ (k * 8) ->
  w < 2 ^ (Z.max (dev_bytesRequired w) 1 * 8) /\ Z.max (dev_bytesRequired w) 1 <= k.
Proof.
  intros Hw Hk Hwk. pose proof (dev_bytesRequired_bound w Hw). pose proof (dev_bytesRequired_fits w Hw) as [_ Hf].
  pose proof (dev_bytesRequired_le k w ltac:(lia)) as Hl. replace (8 * k) with (k * 8) in Hl by lia. split.
  - eapply Z.lt_le_trans; [exact Hf |]. apply Z.pow_le_mono_r; lia.
  - assert (dev_bytesRequired w <= k) by (apply Hl; split; [lia | done]). lia.
Qed.

(** The type of an integer literal is the smallest integer type that holds
    its value, and there is one as long as any integer type does. *)
Theorem integerType_smallest q bits' m' :
  Qred q = q -> number_ok (IntegerType bits' m') -> has_value (IntegerType bits' m') q ->
  exists bits m, integerType q = Some (IntegerType bits m) /\ number_ok (IntegerType bits m) /\
    has_value (IntegerType bits m) q /\ bits <= bits'.
Proof.
  intros Hr Hok (v & Hv & E). apply integer_ok in Hok as (Hb & [k Hk] & Ha).
  destruct (reduced_integer q v Hr E) as [Hd Hn]. unfold integerType, isFractional. rewrite Hd, Hn. cbn [negb Pos.eqb].
  pose proof (pow2_half bits' ltac:(lia)) as Hh. pose proof (pow2_pos (bits' - 1) ltac:(lia)).
  pose proof (Z.pow_le_mono_r 2 bits' 256 ltac:(lia) ltac:(lia)).
  assert (- 2 ^ (bits' - 1) <= v < 2 ^ bits' /\ (v < 0 -> m' = Signed)) as [Hrange Hsigned].
  { destruct (decide (m' = Signed)) as [-> | Hm]; [destruct (range_signed bits') as [E1 E2] | destruct (range_unsigned bits' m' Hm) as [E1 E2]];
      rewrite E1, E2 in Hv; split; try done; lia. }
  destruct (Z.ltb_spec v 0) as [Hneg | Hpos].
  - rewrite Z.shiftl_mul_pow2 by lia. set (w := (0 - v - 1) * 2 ^ 1). assert (0 <= w < 2 ^ bits') by (subst w; lia).
    destruct (Z.ltb_spec (2 ^ 256 - 1) w) as [| Hw]; [lia |].
    destruct (bytes_least w k) as [Hf Hl]; [lia | lia | rewrite <- Hk; lia |].
    assert (1 <= Z.max (dev_bytesRequired w) 1 <= 32) by lia. set (n := Z.max (dev_bytesRequired w) 1) in *. exists (n * 8), Signed. rewrite make_integer by (done || lia).
    split; [done |]. split; [apply make_integer; [lia | done] |]. split; [| lia].
    exists v. split; [| done]. destruct (range_signed (n * 8)) as [-> ->]. rewrite (pow2_half (n * 8)) in Hf by lia. subst w. lia.
  - destruct (Z.ltb_spec (2 ^ 256 - 1) v) as [| Hw]; [lia |].
    destruct (bytes_least v k) as [Hf Hl]; [lia | lia | rewrite <- Hk; lia |].
    assert (1 <= Z.max (dev_bytesRequired v) 1 <= 32) by lia. set (n := Z.max (dev_bytesRequired v) 1) in *. exists (n * 8), Unsigned. rewrite make_integer by (done || lia).
    split; [done |]. split; [apply make_integer; [lia | done] |]. split; [| lia].
    exists v. split; [| done]. destruct (range_unsigned (n * 8) Unsigned ltac:(done)) as [-> ->]. lia.
Qed.

Lemma integerType_smallest_witness :
  exists bits m, integerType (-200 # 1) = Some (IntegerType bits m) /\ has_value (IntegerType bits m) (-200 # 1) /\ bits <= 24.
Proof.
  destruct (integerType_smallest (-200 # 1) 24 Signed) as (bits & m & H1 & _ & H2 & H3).
  - reflexivity.
  - reflexivity.
  - exists (-200). split; [split; vm_compute; discriminate | reflexivity].
  - exists bits, m. split; [exact H1 |]. split; [exact H2 | exact H3].
Defined.

(** Fixed point types convert implicitly where their integer parts fit, and
    lose values: 0.255 is a value of ufixed8x3 and not of ufixed16x6. *)
Theorem fixed_conversion_loses :
  isImplicitlyConvertibleTo (FixedPointType 8 3 false) (FixedPointType 16 6 false) = true /\
  has_value (FixedPointType 8 3 false) (255 # 1000) /\ ~ has_value (FixedPointType 16 6 false) (255 # 1000).
Proof.
  split; [reflexivity |]. split; [exists 255; split; [lia | reflexivity] |].
  intros (v & Hv & E). unfold Qeq in E. cbn in E. lia.
Qed.
