(* ===== verification/SolStorage.v ===== *)
(** * The storage layout of the Solidity compiler

    libsolidity/ast/Types.cpp: how many bytes and slots of storage a type takes
    and where [StorageOffsets::computeOffsets] puts the variables of a contract
    or the members of a struct.  A slot has 16 bytes; small values share one.
    [None] is an exception or a failed assertion. *)
From stdpp Require Import strings.
From S2P Require Import Prelude Bytes AsmItem AsmRun SolTypes.
Open Scope Z_scope.

(** ** Sizes *)

Definition isValueType (t : Type_) : bool :=
  match t with
  | IntegerType _ _ | FixedPointType _ _ _ | BoolType | FixedBytesType _ | ContractType _ _ | EnumType _ _
  | FunctionType _ _ _ _ _ _ _ => true
  | _ => false
  end.

Definition canBeStored (t : Type_) : bool :=
  match t with
  | RationalNumberType _ | StringLiteralType _ => false
  | FunctionType k _ _ _ _ _ _ => bool_decide (k = Internal) || bool_decide (k = External)
  | _ => true
  end.

(** [EnumType::storageBytes]. *)
Definition EnumType_storageBytes (elements : Z) : Z :=
  if elements <=? 1 then 1 else dev_bytesRequired (elements - 1).

(** [FunctionType::storageBytes] and [storageSize]. *)
Definition FunctionType_storage (k : Kind) : option (Z * Z) :=
  match k with External => Some (32 + 4, 3) | Internal => Some (8, 1) | _ => None end.

(** [storageBytes], 16 unless a class says otherwise. *)
Definition storageBytes (t : Type_) : option Z :=
  match t with
  | IntegerType bits _ | FixedPointType bits _ _ => Some (bits / 8)
  | FixedBytesType n => Some n
  | BoolType => Some 1
  | ContractType _ _ => Some 20
  | EnumType _ n => Some (EnumType_storageBytes n)
  | FunctionType k _ _ _ _ _ _ => fst <$> FunctionType_storage k
  | _ => Some 16
  end.

(** [ArrayType::storageSize], from the bytes and the slots of an element. *)
Definition ArrayType_storageSize (length : option Z) (baseBytes : Z) (baseSize : option Z) : option Z :=
  match length with
  | None => Some 1
  | Some n =>
      size ← (if baseBytes =? 0 then Some 1
              else if baseBytes <? 16 then
                let itemsPerSlot := 16 / baseBytes in Some ((n + (itemsPerSlot - 1)) / itemsPerSlot)
              else (fun s => n * s) <$> baseSize);
      if 2 ^ 128 <=? size then None else Some (Z.max 1 size)
  end.

(** [StorageOffsets]: the position of each variable, [None] for one that is not
    stored, and the number of slots. *)
Record StorageOffsets := mkOffsets { m_offsets : list (option (Z * Z)); m_storageSize : Z }.

(** The loop of [computeOffsets], over the bytes and slots of the variables. *)
Fixpoint offsets_loop (types : list (option (option (Z * Z)))) (slotOffset byteOffset : Z) : option StorageOffsets :=
  match types with
  | [] =>
      let slotOffset := if 0 <? byteOffset then slotOffset + 1 else slotOffset in
      if 2 ^ 128 <=? slotOffset then None else Some (mkOffsets [] slotOffset)
  | None :: _ => None
  | Some None :: types =>
      r ← offsets_loop types slotOffset byteOffset; Some (mkOffsets (None :: m_offsets r) (m_storageSize r))
  | Some (Some (storageBytes, storageSize)) :: types =>
      let '(slotOffset, byteOffset) :=
        if (16 <? byteOffset + storageBytes) && (0 <? byteOffset) then (slotOffset + 1, 0) else (slotOffset, byteOffset) in
      if 2 ^ 128 <=? slotOffset then None
      else if storageSize <? 1 then None
      else
        r ← (if (storageSize =? 1) && (byteOffset + storageBytes <=? 16)
             then offsets_loop types slotOffset (byteOffset + storageBytes)
             else offsets_loop types (slotOffset + storageSize) 0);
        Some (mkOffsets (Some (slotOffset, byteOffset) :: m_offsets r) (m_storageSize r))
  end.

(** [storageSize], 1 unless a class says otherwise; [loc] is the location of a
    struct, which leaves out what cannot live there. *)
Fixpoint storageSize_in (loc : DataLocation) (t : Type_) {struct t} : option Z :=
  match t with
  | IntegerType bits _ => Some (if 128 <? bits then 2 else 1)
  | FixedBytesType n => Some (if 16 <? n then 2 else 1)
  | ContractType _ _ => Some 2
  | ArrayType _ _ _ b n => bytes ← storageBytes b; ArrayType_storageSize n bytes (storageSize_in loc b)
  | StructType _ _ _ ms =>
      let layouts := omap (fun '(_, m) =>
        if negb (bool_decide (loc = Storage)) && negb (canLiveOutsideStorage m) then None
        else Some (if canBeStored m then bytes ← storageBytes m; size ← storageSize_in loc m; Some (Some (bytes, size)) else Some None)) ms in
      r ← offsets_loop layouts 0 0; Some (Z.max 1 (m_storageSize r))
  | FunctionType k _ _ _ _ _ _ => snd <$> FunctionType_storage k
  | _ => Some 1
  end.

Abbreviation location t := (match t with ArrayType l _ _ _ _ | StructType l _ _ _ => l | _ => Storage end).

Definition storageSize (t : Type_) : option Z := storageSize_in (location t) t.

(** What [computeOffsets] asks of a type. *)
Definition type_layout (t : Type_) : option (option (Z * Z)) :=
  if canBeStored t then bytes ← storageBytes t; size ← storageSize t; Some (Some (bytes, size)) else Some None.

(** [StorageOffsets::computeOffsets] and [offset]. *)
Definition computeOffsets (types : list Type_) : option StorageOffsets := offsets_loop (type_layout <$> types) 0 0.

Definition offset (o : StorageOffsets) (index : nat) : option (Z * Z) := mjoin (m_offsets o !! index).

(** [MemberList::memberStorageOffset]: the first member of that name. *)
Definition memberStorageOffset (members : list (string * Type_)) (name : string) : option (option (Z * Z)) :=
  r ← computeOffsets (snd <$> members);
  Some (match list_find (fun m => fst m = name) members with Some (i, _) => offset r i | None => None end).

(** [ContractType::stateVariables]: those of the base contracts first, without
    the constants; a variable is its name, its type and whether it is constant. *)
Definition stateVariables (bases : list (list (string * Type_ * bool))) : option (list (string * Type_ * (Z * Z))) :=
  let variables := omap (fun v : string * Type_ * bool => if snd v then None else Some (fst v)) (concat (reverse bases)) in
  offsets ← computeOffsets (snd <$> variables);
  Some (omap (fun '(v, o) => match o with Some p => Some (fst v, snd v, p) | None => None end)
    (zip variables (m_offsets offsets))).

(** ** No overlap *)

(** The bytes a variable takes: those of its value if it shares a slot, and
    whole slots otherwise. *)
Definition extent (l : Z * Z) : Z := if (snd l =? 1) && (fst l <=? 16) then fst l else 16 * snd l.

(** The first byte of a position. *)
Definition start (p : Z * Z) : Z := 16 * fst p + snd p.

(** Sizes that the types have: what is to be stored fits into the slots, and
    what takes more than one slot fills the first. *)
Definition layout_ok (l : Z * Z) : Prop := 0 <= fst l <= 16 * snd l /\ (snd l = 1 \/ 16 <= fst l).

(** A position of a variable between two bytes of the storage. *)
Definition placed (lo hi : Z) (l p : Z * Z) : Prop :=
  lo <= start p /\ start p + extent l <= hi /\ 0 <= fst p < 2 ^ 128 /\ 0 <= snd p /\
  (if (snd l =? 1) && (fst l <=? 16) then snd p + fst l <= 16 else snd p = 0).

Abbreviation entry_ok := (fun e : option (option (Z * Z)) => match e with Some (Some l) => layout_ok l | _ => True end).

(** Where the loop goes on behind a variable. *)
Lemma placed_next l slot byte :
  layout_ok l -> 0 <= slot -> 0 <= byte <= 16 ->
  let '(slot', byte') := if (16 <? byte + fst l) && (0 <? byte) then (slot + 1, 0) else (slot, byte) in
  slot <= slot' /\ 0 <= byte' <= 16 /\ 16 * slot + byte <= start (slot', byte') /\
  (if (snd l =? 1) && (byte' + fst l <=? 16)
   then start (slot', byte') + extent l = 16 * slot' + (byte' + fst l) /\ byte' + fst l <= 16 /\ fst l <= 16 /\ snd l = 1
   else start (slot', byte') + extent l = 16 * (slot' + snd l) /\ byte' = 0 /\ (snd l =? 1) && (fst l <=? 16) = false).
Proof.
  intros [Hb Hs] Hslot Hbyte. unfold start, extent. cbn [fst snd].
  destruct (Z.ltb_spec 16 (byte + fst l)), (Z.ltb_spec 0 byte); cbn [andb];
    split_and!; try lia; destruct (Z.eqb_spec (snd l) 1) as [E | E]; cbn [andb]; rewrite ?E in *;
    repeat match goal with |- context [?x <=? ?y] => destruct (Z.leb_spec x y) end; cbn [andb]; split_and!; done || lia.
Qed.

(** Every variable has its place between the start and the end, in order. *)
Lemma offsets_placed types slot byte r :
  Forall entry_ok types -> 0 <= slot -> 0 <= byte <= 16 -> offsets_loop types slot byte = Some r ->
  16 * slot + byte <= 16 * m_storageSize r /\ m_storageSize r < 2 ^ 128 /\ length (m_offsets r) = length types /\
  (forall i l p, types !! i = Some (Some (Some l)) -> m_offsets r !! i = Some (Some p) ->
     placed (16 * slot + byte) (16 * m_storageSize r) l p) /\
  (forall i j l p l' p', (i < j)%nat -> types !! i = Some (Some (Some l)) -> m_offsets r !! i = Some (Some p) ->
     types !! j = Some (Some (Some l')) -> m_offsets r !! j = Some (Some p') -> start p + extent l <= start p').
Proof.
  intros Hok. revert slot byte r. induction Hok as [| e types He Hok IH]; intros slot byte r Hslot Hbyte Hr.
  - cbn [offsets_loop] in Hr. destruct (Z.leb_spec (2 ^ 128) (if 0 <? byte then slot + 1 else slot)); [done |].
    injection Hr as <-. cbn [m_storageSize m_offsets]. destruct (Z.ltb_spec 0 byte); split_and!; try done; try lia.
  - destruct e as [[[bytes size] |] |]; cbn [offsets_loop] in Hr; [| | done].
    + cbn [fst snd] in He. pose proof (placed_next (bytes, size) slot byte He Hslot Hbyte) as Hn. cbn [fst snd] in Hn.
      destruct (if _ && _ then (slot + 1, 0) else (slot, byte)) as [slot' byte'] eqn:Ep.
      destruct Hn as (H1 & H2 & H3 & H4). destruct (Z.leb_spec (2 ^ 128) slot'); [done |]. destruct (size <? 1); [done |].
      pose proof He as [[Hb1 Hb2] _]. cbn [fst snd] in Hb1, Hb2.
      assert (exists slot2 byte2 r', 0 <= slot2 /\ 0 <= byte2 <= 16 /\ offsets_loop types slot2 byte2 = Some r' /\
        start (slot', byte') + extent (bytes, size) = 16 * slot2 + byte2 /\ r = mkOffsets (Some (slot', byte') :: m_offsets r') (m_storageSize r') /\
        (if (size =? 1) && (bytes <=? 16) then byte' + bytes <= 16 else byte' = 0)) as (slot2 & byte2 & r' & Hs2 & Hb & Hr' & Hstart & -> & Hin).
      { destruct (_ && _) eqn:E in H4; rewrite E in Hr; cbn [mbind option_bind] in Hr.
        - destruct (offsets_loop types slot' (byte' + bytes)) as [r' |] eqn:Er; [| done]. injection Hr as <-.
          exists slot', (byte' + bytes), r'. split_and!; try done; try lia. destruct (Z.eqb_spec size 1), (Z.leb_spec bytes 16); cbn [andb]; lia.
        - destruct (offsets_loop types (slot' + size) 0) as [r' |] eqn:Er; [| done]. injection Hr as <-.
          exists (slot' + size), 0, r'. destruct H4 as (H4 & -> & H5). split_and!; try done; try lia. by rewrite H5. }
      clear H4 Hr Ep. destruct (IH slot2 byte2 r' Hs2 Hb Hr') as (I1 & I2 & I3 & I4 & I5). cbn [m_storageSize m_offsets].
      assert (0 <= extent (bytes, size)). { clear -Hb1 Hb2. unfold extent. cbn [fst snd]. destruct (_ && _); lia. }
      split_and!; [lia | done | cbn; by rewrite I3 | |].
      * intros [| i] l p Hl Hp; cbn in Hl, Hp.
        { injection Hl as <-. injection Hp as <-. unfold placed. cbn [fst snd]. split_and!; try done; lia. }
        destruct (I4 i l p Hl Hp) as (P1 & P2 & P3). split; [lia | by split].
      * intros [| i] [| j] l p l' p' Hij Hl Hp Hl' Hp'; try lia; cbn in Hl, Hp, Hl', Hp'; [| by eapply (I5 i j); eauto; lia].
        injection Hl as <-. injection Hp as <-. destruct (I4 j l' p' Hl' Hp') as (P1 & _). lia.
    + destruct (offsets_loop types slot byte) as [r' |] eqn:Er; [| done]. injection Hr as <-.
      destruct (IH slot byte r' Hslot Hbyte Er) as (I1 & I2 & I3 & I4 & I5). cbn [m_storageSize m_offsets].
      split_and!; [done | done | cbn; by rewrite I3 | |].
      * intros [| i] l p Hl Hp; [done |]. by apply I4 with (i := i).
      * intros [| i] [| j] l p l' p' Hij Hl Hp Hl' Hp'; try done; [lia .. |]. eapply (I5 i j); eauto. lia.
Qed.

(** ** Types *)

(** Types with sizes as their constructors allow, but for fixed point types of
    more than 128 bits, which do not fit into the slot that they get. *)
Definition storable_ok (t : Type_) : Prop :=
  match t with
  | IntegerType bits _ => 8 <= bits <= 256
  | FixedPointType bits _ _ => 8 <= bits <= 128
  | FixedBytesType n => 0 <= n <= 32
  | EnumType _ n => n < 2 ^ 64
  | _ => True
  end.

Lemma enum_bytes n : n < 2 ^ 64 -> 0 <= EnumType_storageBytes n <= 8.
Proof.
  intros Hn. unfold EnumType_storageBytes. destruct (Z.leb_spec n 1); [lia |].
  assert (inw 64 (n - 1)) as Hi by (unfold inw; lia).
  pose proof (dev_bytesRequired_le 8 (n - 1) ltac:(lia) Hi). pose proof (dev_bytesRequired_bound (n - 1) (inw_mono 64 256 _ ltac:(lia) Hi)). lia.
Qed.

Lemma array_size_pos n bytes base s : ArrayType_storageSize n bytes base = Some s -> 1 <= s.
Proof.
  unfold ArrayType_storageSize. destruct n as [n |]; [| intros [= <-]; lia].
  destruct (if bytes =? 0 then _ else _) as [z |]; cbn [mbind option_bind]; [| done].
  destruct (2 ^ 128 <=? z); [done |]. intros [= <-]. lia.
Qed.

Lemma type_layout_ok t : storable_ok t -> entry_ok (type_layout t).
Proof.
  intros Ht. unfold type_layout. destruct (canBeStored t) eqn:Ec; [| done].
  destruct t as [bits m | bits d s | q | s | | n | loc ptr k b n | c s | loc ptr d ms | d n | k ps rs c g v bd | k v];
    cbn [storageBytes storageSize storageSize_in storable_ok mbind option_bind] in *.
  - split; cbn [fst snd]; pose proof (Z.div_mod bits 8 ltac:(lia)); pose proof (Z.mod_pos_bound bits 8); destruct (Z.ltb_spec 128 bits); lia.
  - split; cbn [fst snd]; pose proof (Z.div_mod bits 8 ltac:(lia)); pose proof (Z.mod_pos_bound bits 8); lia.
  - done.
  - done.
  - split; cbn; lia.
  - split; cbn [fst snd]; destruct (Z.ltb_spec 16 n); lia.
  - destruct (storageBytes b) as [bytes |]; cbn [mbind option_bind]; [| done].
    destruct (ArrayType_storageSize _ _ _) as [s |] eqn:E; [| done]. apply array_size_pos in E. split; cbn [fst snd]; lia.
  - split; cbn; lia.
  - destruct (offsets_loop _ 0 0) as [r |]; [| done]. cbn [mbind option_bind]. split; cbn [fst snd]; lia.
  - pose proof (enum_bytes n Ht). split; cbn [fst snd]; lia.
  - destruct k; cbn; try done; split; cbn; lia.
  - split; cbn; lia.
Qed.

(** The bytes of storage that a variable at a position takes. *)
Definition occupies (t : Type_) (p : Z * Z) (b : Z) : Prop :=
  match type_layout t with
  | Some (Some l) => start p <= b < start p + extent l
  | _ => False
  end.

Lemma offset_stored types slot byte r i : offsets_loop types slot byte = Some r ->
  match types !! i with
  | Some (Some (Some _)) => exists p, offset r i = Some p
  | Some (Some None) => offset r i = None
  | Some None => False
  | None => offset r i = None
  end.
Proof.
  revert slot byte r i. induction types as [| e types IH]; intros slot byte r i Hr.
  - cbn [offsets_loop] in Hr. destruct (_ <=? _); [done |]. by injection Hr as <-.
  - destruct e as [[[bytes size] |] |]; cbn [offsets_loop] in Hr; [| | done].
    + destruct (if _ && _ then (slot + 1, 0) else (slot, byte)) as [slot' byte']. destruct (_ <=? _); [done |].
      destruct (_ <? _); [done |].
      assert (exists slot2 byte2 r', offsets_loop types slot2 byte2 = Some r' /\ r = mkOffsets (Some (slot', byte') :: m_offsets r') (m_storageSize r'))
        as (slot2 & byte2 & r' & Hr' & ->).
      { destruct (_ && _); [destruct (offsets_loop types slot' (byte' + bytes)) eqn:E | destruct (offsets_loop types (slot' + size) 0) eqn:E];
          try done; injection Hr as <-; eauto. }
      destruct i as [| i]; [by eexists |]. exact (IH slot2 byte2 r' i Hr').
    + destruct (offsets_loop types slot byte) as [r' |] eqn:E; [| done]. injection Hr as <-.
      destruct i as [| i]; [done |]. exact (IH slot byte r' i E).
Qed.

(** The place of a stored variable, and that of another. *)
Lemma offset_placed types r i t l p :
  Forall storable_ok types -> computeOffsets types = Some r -> types !! i = Some t -> type_layout t = Some (Some l) -> offset r i = Some p ->
  placed 0 (16 * m_storageSize r) l p /\ m_storageSize r < 2 ^ 128 /\
  (forall j u l' q, (i < j)%nat -> types !! j = Some u -> type_layout u = Some (Some l') -> offset r j = Some q -> start p + extent l <= start q).
Proof.
  intros Ht Hr Hi El Hp. unfold computeOffsets in Hr.
  assert (Forall entry_ok (type_layout <$> types)) as Hok by (apply Forall_fmap; eapply List.Forall_impl; [apply type_layout_ok | exact Ht]).
  destruct (offsets_placed _ 0 0 r Hok ltac:(lia) ltac:(lia) Hr) as (H1 & H2 & H3 & H4 & H5).
  assert (forall i p, offset r i = Some p -> m_offsets r !! i = Some (Some p)) as Hoff.
  { intros j q. unfold offset. by destruct (m_offsets r !! j) as [[? |] |]; cbn; intros [= ->]. }
  assert (forall i t l, types !! i = Some t -> type_layout t = Some (Some l) -> (type_layout <$> types) !! i = Some (Some (Some l))) as Hlook.
  { intros j u l' Hj Hl. by rewrite list_lookup_fmap, Hj, <- Hl. }
  split_and!; [by apply H4 with (i := i); eauto | done |]. intros j u l' q Hij Hj El' Hq. eapply (H5 i j); eauto.
Qed.

(** No byte belongs to two variables. *)
Lemma offset_disjoint types r i j t u p q b :
  Forall storable_ok types -> computeOffsets types = Some r -> types !! i = Some t -> types !! j = Some u ->
  offset r i = Some p -> offset r j = Some q -> occupies t p b -> occupies u q b -> i = j.
Proof.
  intros Ht Hr Hi Hj Hp Hq. unfold occupies. destruct (type_layout t) as [[l |] |] eqn:El; try done.
  destruct (type_layout u) as [[l' |] |] eqn:El'; try done. intros Hb Hb'.
  destruct (lt_eq_lt_dec i j) as [[Hij | ->] | Hij]; [| done |]; exfalso.
  - destruct (offset_placed types r i t l p Ht Hr Hi El Hp) as (_ & _ & Hd). specialize (Hd j u l' q Hij Hj El' Hq). lia.
  - destruct (offset_placed types r j u l' q Ht Hr Hj El' Hq) as (_ & _ & Hd). specialize (Hd i t l p Hij Hi El Hp). lia.
Qed.

(** What is stored has a size. *)
Lemma offset_layout types r i t : computeOffsets types = Some r -> types !! i = Some t ->
  if canBeStored t then exists p l, offset r i = Some p /\ type_layout t = Some (Some l) else offset r i = None.
Proof.
  intros Hr Hi. pose proof (offset_stored _ 0 0 r i Hr) as Hs. rewrite list_lookup_fmap, Hi in Hs. cbn in Hs. revert Hs. unfold type_layout.
  destruct (canBeStored t); [| done]. destruct (storageBytes t); cbn [mbind option_bind]; [| done].
  destruct (storageSize t); cbn [mbind option_bind]; [| done]. intros [p Hp]. eauto.
Qed.

(** C9: Variables have their own bytes in storage: those that can be stored get
    a place inside the slots that the whole takes, no byte belongs to two of
    them, and a value that shares a slot does not cross its end.  The sizes are
    those of integers up to 256 bits, of bytes up to 32 and of enumerations with
    less than 2^64 members; fixed point numbers have at most 128 bits, since the
    wider ones get a single slot for their more than 16 bytes, as the last part
    says. *)
Theorem storage_disjoint types r :
  Forall storable_ok types -> computeOffsets types = Some r ->
  (forall i t, types !! i = Some t -> (canBeStored t = true <-> exists p, offset r i = Some p)) /\
  (forall i t p b, types !! i = Some t -> offset r i = Some p -> occupies t p b -> 0 <= b < 16 * m_storageSize r) /\
  (forall i j t u p q b, types !! i = Some t -> types !! j = Some u -> offset r i = Some p -> offset r j = Some q ->
     occupies t p b -> occupies u q b -> i = j) /\
  (forall i t s o n, types !! i = Some t -> offset r i = Some (s, o) -> storageBytes t = Some n -> n <= 16 -> storageSize t = Some 1 -> 0 <= o <= 16 - n) /\
  (forall bits d s, 136 <= bits -> exists n, storageBytes (FixedPointType bits d s) = Some n /\ storageSize (FixedPointType bits d s) = Some 1 /\ 16 < n).
Proof.
  intros Ht Hr. split_and!.
  - intros i t Hi. pose proof (offset_layout types r i t Hr Hi) as Hl. destruct (canBeStored t).
    + destruct Hl as (p & l & Hp & _). split; eauto.
    + split; [done | intros [p Hp]; congruence].
  - intros i t p b Hi Hp. unfold occupies. destruct (type_layout t) as [[l |] |] eqn:El; try done. intros Hb.
    destruct (offset_placed types r i t l p Ht Hr Hi El Hp) as ((P1 & P2 & _) & _). lia.
  - intros i j t u p q b Hi Hj Hp Hq. by eapply offset_disjoint.
  - intros i t s o n Hi Hp Hn Hn16 Hs. pose proof (offset_layout types r i t Hr Hi) as Hl.
    destruct (canBeStored t) eqn:Hc; [| congruence].
    assert (type_layout t = Some (Some (n, 1))) as El by (unfold type_layout; by rewrite Hc, Hn, Hs).
    destruct (offset_placed types r i t (n, 1) (s, o) Ht Hr Hi El Hp) as ((_ & _ & _ & P4 & P5) & _). cbn [fst snd] in P4, P5.
    rewrite (proj2 (Z.leb_le n 16) Hn16) in P5. cbn in P5. lia.
  - intros bits d s Hb. exists (bits / 8). split; [done |]. split; [done |]. pose proof (Z.div_le_lower_bound bits 8 17). lia.
Qed.

Definition demo_types : list Type_ :=
  [IntegerType 64 Unsigned; BoolType; IntegerType 256 Signed; FixedBytesType 4; MappingType BoolType BoolType;
   ArrayType Storage false Ordinary (IntegerType 32 Unsigned) (Some 6);
   StructType Storage false 0 [("a"%string, IntegerType 128 Unsigned); ("b"%string, BoolType)]; EnumType 0 3].

Lemma storage_disjoint_witness : exists r, computeOffsets demo_types = Some r /\
  offset r 1 = Some (0, 8) /\ offset r 2 = Some (1, 0) /\ offset r 5 = Some (5, 0) /\ offset r 7 = Some (9, 0) /\ m_storageSize r = 10 /\
  forall b, occupies (IntegerType 256 Signed) (1, 0) b -> occupies (FixedBytesType 4) (3, 0) b -> 2%nat = 3%nat.
Proof.
  eexists. split; [reflexivity |]. do 5 (split; [reflexivity |]). intros b H1 H2.
  refine (proj1 (proj2 (proj2 (storage_disjoint demo_types _ _ eq_refl))) 2%nat 3%nat _ _ _ _ b eq_refl eq_refl eq_refl eq_refl H1 H2).
  repeat constructor; cbn; lia.
Defined.

(** A fixed point number of more than 16 bytes gets one slot for its bytes. *)
Lemma wide_fixed_overlap : storageBytes (FixedPointType 256 1 false) = Some 32 /\
  match computeOffsets [FixedPointType 256 1 false; IntegerType 128 Unsigned] with
  | Some r => offset r 0 = Some (0, 0) /\ offset r 1 = Some (1, 0)
  | None => False
  end.
Proof. repeat split. Qed.
