(* ===== verification/SolCode.v ===== *)
(** * Generating code for values

    libsolidity/codegen/CompilerUtils.cpp: rearranging the stack, shifting
    numbers of one and two words, cleaning and converting values of value types
    and number literals.  A generator appends assembly items; it takes the next
    free tag and fails where an assertion does.  Two-word values have the high
    word on top.  The second half is an evaluator of straight code on the top
    of the stack, sound for the reference machine. *)
From stdpp Require Import strings.
From Stdlib Require Import QArith.
From S2P Require Import Prelude Bytes Instruction LLVMInt EvmAbi GasSchedule Runtime IR Machine.
From S2P Require Import AsmItem AsmRun Peephole NullHost SolTypes SolStorage.
Open Scope list_scope.
Open Scope Z_scope.

(** ** Generators *)

Definition gen : Type := Z -> option (list AssemblyItem * Z).

Definition emit (l : list AssemblyItem) : gen := fun n => Some (l, n).
Definition seq (g g' : gen) : gen := fun n =>
  '(l, n) ← g n; '(l', n) ← g' n; Some (l ++ l', n).
Definition fail : gen := fun _ => None.
Definition need_ (b : bool) (g : gen) : gen := if b then g else fail.
Definition with_ {A} (o : option A) (f : A -> gen) : gen := match o with Some a => f a | None => fail end.

Declare Scope gen_scope.
Delimit Scope gen_scope with gen.
Bind Scope gen_scope with gen.
Infix "<<" := seq (at level 45, left associativity) : gen_scope.
Open Scope gen_scope.

(** [m_context << Instruction::X] and [m_context << u128(v)]. *)
Abbreviation op b := (emit [Operation b]).
Abbreviation num v := (emit [Push v]).
Definition dup (n : Z) : gen := with_ (dupInstruction n) (fun b => op b).
Definition swap (n : Z) : gen := with_ (swapInstruction n) (fun b => op b).

Module I.
Abbreviation ADD := (op 0x01).
Abbreviation MUL := (op 0x02).
Abbreviation SUB := (op 0x03).
Abbreviation DIV := (op 0x04).
Abbreviation SDIV := (op 0x05).
Abbreviation MOD := (op 0x06).
Abbreviation EXP := (op 0x0a).
Abbreviation SIGNEXTEND := (op 0x0b).
Abbreviation LT := (op 0x10).
Abbreviation GT := (op 0x11).
Abbreviation ISZERO := (op 0x15).
Abbreviation AND := (op 0x16).
Abbreviation OR := (op 0x17).
Abbreviation NOT := (op 0x19).
Abbreviation BYTE := (op 0x1a).
Abbreviation POP := (op 0x50).
Abbreviation SLOAD := (op 0x54).
Abbreviation SSTORE := (op 0x55).
Abbreviation DUP1 := (op 0x80).
Abbreviation DUP2 := (op 0x81).
Abbreviation DUP3 := (op 0x82).
Abbreviation DUP4 := (op 0x83).
Abbreviation DUP5 := (op 0x84).
Abbreviation SWAP1 := (op 0x90).
Abbreviation SWAP2 := (op 0x91).
Abbreviation INVALID := (op 0xfe).
Abbreviation REVERT := (op 0xfd).
End I.

Fixpoint times (n : nat) (g : gen) : gen := match n with 0%nat => emit [] | S n => g << times n g end.

(** [appendConditionalJump]: a new tag, and the jump to it. *)
Abbreviation conditional_skip body := (fun n =>
  '(l, n') ← body (n + 1); Some ([PushTag n; Operation 0x57] ++ l ++ [Tag n], n')).

(** [CompilerContext::appendConditionalInvalid] and [appendConditionalRevert]. *)
Definition appendConditionalInvalid : gen := I.ISZERO << conditional_skip I.INVALID.
Definition appendConditionalRevert : gen := I.ISZERO << conditional_skip (num 0 << num 0 << I.REVERT).

(** ** The stack *)

Definition copyToStackTop (stackDepth itemSize : Z) : gen :=
  need_ (stackDepth <=? 32) (times (Z.to_nat itemSize) (dup stackDepth)).

Definition rotateStackUp (items : Z) : gen :=
  need_ (wrap 32 (items - 1) <=? 32)
    (foldl (fun g i => g << swap (items - Z.of_nat i)) (emit []) (List.seq 1 (Z.to_nat (items - 1)))).

Definition rotateStackDown (items : Z) : gen :=
  need_ (wrap 32 (items - 1) <=? 32)
    (foldl (fun g i => g << swap (Z.of_nat i)) (emit []) (List.seq 1 (Z.to_nat (items - 1)))).

Definition moveIntoStack (stackDepth itemSize : Z) : gen :=
  if stackDepth <=? itemSize then times (Z.to_nat stackDepth) (rotateStackDown (stackDepth + itemSize))
  else times (Z.to_nat itemSize) (rotateStackUp (stackDepth + itemSize)).

Definition popStackSlots (amount : Z) : gen := times (Z.to_nat amount) I.POP.

(** ** Shifts *)

Definition leftShiftNumberOnStack (bits : Z) : gen :=
  if bits =? 0 then emit [] else need_ (bits <? 128) (num (2 ^ bits) << I.MUL).

Definition rightShiftNumberOnStack (bits : Z) (isSigned : bool) : gen :=
  if bits =? 0 then emit []
  else need_ (bits <? 128) (num (2 ^ bits) << I.SWAP1 << (if isSigned then I.SDIV else I.DIV)).

Definition leftShiftNumberOnStack2 (bits : Z) : gen :=
  if bits =? 0 then emit []
  else if 128 <=? bits then
    I.POP << leftShiftNumberOnStack (bits - 128) << num 0 << I.SWAP1
  else
    leftShiftNumberOnStack bits
    << I.DUP2 << rightShiftNumberOnStack (128 - bits) false << I.OR
    << I.SWAP1 << leftShiftNumberOnStack bits << I.SWAP1.

Definition rightShiftNumberOnStack2 (bits : Z) (isSigned : bool) : gen :=
  if bits =? 0 then emit []
  else need_ (negb isSigned)
    (if 128 <=? bits then
       I.SWAP1 << I.POP << rightShiftNumberOnStack (bits - 128) isSigned << num 0
     else
       I.SWAP1 << rightShiftNumberOnStack bits isSigned
       << I.DUP2 << leftShiftNumberOnStack (128 - bits) << I.OR
       << I.SWAP1 << rightShiftNumberOnStack bits isSigned).

(** ** Conversions *)

(** [u128(1) << n) - 1]. *)
Definition low_mask (n : Z) : Z := wrap 128 (wrap 128 (Z.shiftl 1 n) - 1).

Definition cleanHigherOrderBits (bits : Z) (m : Modifier) : gen :=
  let numBits := if 128 <? bits then bits - 128 else bits in
  if numBits =? 128 then emit []
  else if isSigned m then num (numBits / 8 - 1) << I.SIGNEXTEND
  else num (low_mask numBits) << I.AND.

(** [FunctionType::sizeOnStack]; the kind of a type that sets gas or value is
    that of the function it returns, a bound one has its first argument below. *)
Definition stack_kind (k : Kind) (rets : list Type_) : option Kind :=
  match k with
  | SetGas | SetValue => match rets with [FunctionType k' _ _ _ _ _ _] => Some k' | _ => None end
  | _ => Some k
  end.

Fixpoint sizeOnStack (t : Type_) : option Z :=
  match t with
  | IntegerType bits _ => Some (if 128 <? bits then 2 else 1)
  | FixedBytesType n => Some (if 16 <? n then 2 else 1)
  | RationalNumberType q => v ← literalValue q; Some (if 2 ^ 128 <=? v then 2 else 1)
  | StringLiteralType _ => Some 0
  | ContractType _ super => Some (if super then 0 else 2)
  | ArrayType loc _ _ _ n => Some (if bool_decide (loc = CallData) then 1 + (if n is Some _ then 0 else 1) else 1)
  | FunctionType k ps rs _ g v b =>
      kind ← stack_kind k rs;
      let size := match kind with
        | External | CallCode | DelegateCall => 3
        | BareCall | BareCallCode | BareDelegateCall => 2
        | Internal | ArrayPush | ByteArrayPush => 1
        | _ => 0
        end in
      let size := size + (if g then 1 else 0) + (if v then 1 else 0) in
      if b then match ps with p :: _ => s ← sizeOnStack p; Some (size + s) | [] => None end else Some size
  | _ => Some 1
  end.

(** The numbers that the Integer, Contract and RationalNumber case compares:
    a contract counts as an address. *)
Abbreviation as_integer t := (match t with IntegerType bits m => Some (bits, m) | ContractType _ _ => Some (256, Address) | _ => None end).

Abbreviation words bits := (if 128 <? bits then 2 else 1).

(** From an integer, a contract or a literal to an integer or a contract. *)
Definition convert_to_integer (t : Type_) (bits' : Z) (m' : Modifier) (cleanupNeeded chopSignBits : bool) : gen :=
  match t with
  | RationalNumberType q =>
      need_ (negb chopSignBits && negb (isFractional q))
        (with_ (sizeOnStack t) (fun size =>
         with_ (integerType q) (fun it =>
           (if size <? words bits' then num 0 else emit [])
           << match it with
              | IntegerType bits _ => if (bits' <? bits) && cleanupNeeded then cleanHigherOrderBits bits' m' else emit []
              | _ => fail
              end)))
  | _ =>
      with_ (as_integer t) (fun '(bits, m) =>
        (if words bits <? words bits' then num 0 else emit [])
        << (if bits <? bits' then cleanHigherOrderBits bits m
            else if cleanupNeeded then cleanHigherOrderBits bits' m' else emit [])
        << (if chopSignBits then
              if bits <? 128 then num (low_mask bits) << I.AND
              else if (128 <? bits) && (bits <? 256) then num (low_mask (bits - 128)) << I.AND
              else emit []
            else emit []))
  end.

(** From bytes of fixed size, to an integer or to bytes. *)
Definition convert_from_bytes (n : Z) (to : Type_) (cleanupNeeded : bool) : gen :=
  let size := if 16 <? n then 2 else 1 in
  match to with
  | IntegerType bits' m' =>
      if size =? words bits' then
        (if size =? 1 then rightShiftNumberOnStack (128 - n * 8) false else rightShiftNumberOnStack2 (256 - n * 8) false)
        << (if bits' <? n * 8
            then with_ (make_IntegerType (n * 8) Unsigned) (fun t => convert_to_integer t bits' m' cleanupNeeded false) else emit [])
      else if words bits' <? size then
        rightShiftNumberOnStack2 (256 - n * 8) false << I.POP
        << (if bits' <? 128 then convert_to_integer (IntegerType 128 Unsigned) bits' m' cleanupNeeded false else emit [])
      else
        rightShiftNumberOnStack (128 - n * 8) false << num 0
  | FixedBytesType targetBytes =>
      let size' := if 16 <? targetBytes then 2 else 1 in
      let '(sourceBytes, g) :=
        if size <? size' then (n + 16, num 0 << I.SWAP1)
        else if size' <? size then (n - 16, I.SWAP1 << I.POP)
        else (n, emit []) in
      g << (if (sourceBytes <? targetBytes) || cleanupNeeded then
              if targetBytes <=? 16 then num (low_mask (128 - sourceBytes * 8)) << I.NOT << I.AND
              else I.SWAP1 << num (low_mask (128 - (sourceBytes - 16) * 8)) << I.NOT << I.AND << I.SWAP1
            else emit [])
  | _ => fail
  end.

(** The check that a number is a member of an enum. *)
Definition check_enum (members : Z) (decoding : bool) : gen :=
  need_ (0 <? members)
    (num (wrap 128 (members - 1)) << I.DUP2 << I.GT
     << (if decoding then appendConditionalRevert else appendConditionalInvalid)).

(** From an integer, a contract or a literal. *)
Definition convert_from_number (t to : Type_) (cleanupNeeded chopSignBits : bool) : gen :=
  match to with
  | FixedBytesType n' =>
      let size' := if 16 <? n' then 2 else 1 in
      with_ (sizeOnStack t) (fun size =>
        need_ (match t with ContractType _ _ => false | _ => size <=? size' end)
          (match t with
           | IntegerType bits m => if bits <? n' * 8 then cleanHigherOrderBits bits m else emit []
           | _ => emit []
           end
           << (if size <? size' then num 0 << leftShiftNumberOnStack2 (256 - n' * 8)
               else if size' =? 1 then leftShiftNumberOnStack (128 - n' * 8)
               else leftShiftNumberOnStack2 (256 - n' * 8))))
  | EnumType _ members =>
      with_ (mobileType t) (fun mobile =>
        with_ (as_integer mobile) (fun '(bits, m) =>
          convert_to_integer t bits m true false << check_enum members false))
  | IntegerType bits' m' => convert_to_integer t bits' m' cleanupNeeded chopSignBits
  | ContractType _ _ => convert_to_integer t 256 Address cleanupNeeded false
  | _ => fail
  end.

(** [CompilerUtils::convertType] for values and number literals; conversions of
    strings, arrays, structs and tuples are outside this definition. *)
Definition convertType (t to : Type_) (cleanupNeeded chopSignBits decoding : bool) : gen :=
  if type_eqb t to && negb cleanupNeeded then emit []
  else
    let pending := chopSignBits && match to with IntegerType _ m => isSigned m | _ => false end in
    match t with
    | FixedBytesType n => need_ (negb pending) (convert_from_bytes n to cleanupNeeded)
    | EnumType _ members =>
        need_ (negb pending && (type_eqb to t || match to with IntegerType _ _ => true | _ => false end)) (check_enum members decoding)
    | IntegerType _ _ | ContractType _ _ | RationalNumberType _ => convert_from_number t to cleanupNeeded pending
    | BoolType => need_ (type_eqb to t) (if cleanupNeeded then I.ISZERO << I.ISZERO else emit [])
    | FunctionType k _ _ _ _ _ _ =>
        match to with
        | IntegerType _ m => need_ (isAddress m && bool_decide (k = External) && negb pending) I.POP
        | _ => need_ (type_eqb t to)
            (if cleanupNeeded && canBeStored to then
               with_ (storageBytes to) (fun n => if n mod 16 =? 0 then emit [] else num (low_mask (8 * (n mod 16))) << I.AND)
             else emit [])
        end
    | _ => fail
    end.

(** [splitExternalFunctionType] and [combineExternalFunctionType], which do the
    same: the function identifier keeps 32 bits. *)
Definition splitExternalFunctionType : gen := num 0xffffffff << I.AND.
Definition combineExternalFunctionType : gen := num 0xffffffff << I.AND.

(** ** Evaluating straight code *)

(** Operations on two words. *)
Definition word_op (inst : Instruction) : option (Z -> Z -> Z) :=
  match inst with
  | ADD => Some (fun x y => wrap 128 (x + y))
  | MUL => Some (fun x y => wrap 128 (x * y))
  | SUB => Some (fun x y => wrap 128 (x - y))
  | DIV => Some (fun x y => if y =? 0 then 0 else x / y)
  | MOD => Some (fun x y => if y =? 0 then 0 else x mod y)
  | SIGNEXTEND => Some op_signextend
  | LT => Some (fun x y => b2z (x <? y))
  | GT => Some (fun x y => b2z (y <? x))
  | AND => Some Z.land
  | OR => Some Z.lor
  | BYTE => Some op_byte
  | _ => None
  end.

Section Eval.
Context {H : Type} (X : Ctx H).

(** A word of the storage of the executing contract, and writing it. *)
Definition sload (h : H) (k : Z) : Z := be_val (get_storage (x_host X) h (address (x_msg X)) (be_bytes 16 k)).
Definition sstore (h : H) (k v : Z) : H := set_storage (x_host X) h (address (x_msg X)) (be_bytes 16 k) (be_bytes 16 v).

(** An item on the top [st] of the stack, which may grow to [cap] words. *)
Definition eval_item (cap : nat) (i : AssemblyItem) (st : list Z) (h : H) : option (list Z * H) :=
  match i with
  | Push v => if (length st <? cap)%nat then Some (v :: st, h) else None
  | Tag _ => Some (st, h)
  | Operation b =>
      match Instruction_of_byte b, st with
      | POP, _ :: st => Some (st, h)
      | NOT, x :: st => Some (2 ^ 128 - 1 - x :: st, h)
      | ISZERO, x :: st => Some (b2z (x =? 0) :: st, h)
      | SLOAD, k :: st => Some (sload h k :: st, h)
      | SSTORE, k :: v :: st => Some (st, sstore h k v)
      | EXP, x :: y :: st => if (0 <=? y) && (y <? 2 ^ 128) then Some (wrap 128 (x ^ y) :: st, h) else None
      | DUP (S n), _ =>
          if (n <? 16)%nat && (length st <? cap)%nat then match st !! n with Some x => Some (x :: st, h) | None => None end else None
      | SWAP n, _ =>
          if (n <=? 16)%nat then
            match st !! n, st !! 0%nat with
            | Some x, Some t => Some (<[0%nat := x]> (<[n := t]> st), h)
            | _, _ => None
            end
          else None
      | inst, x :: y :: st => match word_op inst with Some f => Some (f x y :: st, h) | None => None end
      | _, _ => None
      end
  | _ => None
  end.

Fixpoint eval (cap : nat) (l : list AssemblyItem) (st : list Z) (h : H) : option (list Z * H) :=
  match l with
  | [] => Some (st, h)
  | i :: l => match eval_item cap i st h with Some (st, h) => eval cap l st h | None => None end
  end.

(** Constants of one word. *)
Definition small_push (i : AssemblyItem) : Prop := match i with Push v => inw 128 v | _ => True end.

Context (V : AssemblyItem -> Z).
Hypothesis HV : forall v, V (Push v) = v.
Hypothesis Hstatic : x_static X = false.

(** A state with another stack and host. *)
Definition becomes (r r' : rstate H) (st : list Z) (h : H) : Prop :=
  r_stack r' = st /\ r_host r' = h /\ r_mem r' = r_mem r /\ r_retbuf r' = r_retbuf r.

Lemma sigBytes_bound y : inw 128 y -> 0 <= sigBytes y <= 16.
Proof.
  intros Hy. unfold sigBytes. destruct (Z.eqb_spec y 0); [lia |]. pose proof (Z.log2_nonneg y).
  assert (Z.log2 y < 128) by (apply Z.log2_lt_pow2; unfold inw in Hy; lia).
  assert (Z.log2 y / 8 < 16) by (apply Z.div_lt_upper_bound; lia). pose proof (Z.div_pos (Z.log2 y) 8). lia.
Qed.

Lemma exp_cost_bound : 0 <= exp_byte_cost X <= 50.
Proof. unfold exp_byte_cost. repeat case_match; lia. Qed.

Lemma push_words (st : list Z) cap rest z : (length st <? cap)%nat = true -> (length rest + cap <= 1024)%nat ->
  (length (st ++ rest) <? 1024)%nat = true /\ z :: st ++ rest = (z :: st) ++ rest.
Proof. rewrite !Nat.ltb_lt, length_app. intros. split; [lia | done]. Qed.

Abbreviation exec := (exec_item X V).
Abbreviation cost := (getStepCost (x_rev X)).

(** What the instructions that are evaluated cost. *)
Lemma light_cost inst :
  match inst with
  | ADD | MUL | SUB | DIV | MOD | SIGNEXTEND | LT | GT | AND | OR | BYTE | EXP | ISZERO | NOT | POP | SLOAD
  | DUP _ | SWAP _ | PUSH _ | JUMPDEST | JUMPI => 0 <= cost inst <= 1000
  | SSTORE => cost inst = 0
  | _ => True
  end.
Proof. destruct inst; try done; unfold getStepCost; repeat case_match; cbn; lia. Qed.
#[local] Opaque getStepCost.

Lemma step_word G inst f (st rest : list Z) h r x y data :
  word_op inst = Some f -> (length rest + S (S (length st)) <= 1024)%nat ->
  r_stack r = (x :: y :: st) ++ rest -> r_host r = h ->
  allowed X inst = true /\ step_body X 0 data inst (mkR (r_stack r) G (r_mem r) (r_retbuf r) (r_host r)) =
    Ok (Next, mkR ((f x y :: st) ++ rest) G (r_mem r) (r_retbuf r) h).
Proof.
  intros Hf Hl Hst Hh. rewrite Hst, Hh. assert ((length (st ++ rest) <? 1024)%nat = true) as Hlt by (rewrite Nat.ltb_lt, length_app; lia).
  destruct inst; try discriminate; injection Hf as <-; split; try done; cbn [step_body];
    unfold binary, rpop, rpush, gets, set_rstack, mbind, M_bind, mret, M_ret; cbn [r_stack r_gas r_mem r_retbuf r_host app];
    by rewrite Hlt.
Qed.

Ltac run_machine := unfold step_body, rpop, rpush, charge, gets, set_rstack, set_rgas, set_rhost, mbind, M_bind, mret, M_ret;
  cbn [r_stack r_gas r_mem r_retbuf r_host].

Ltac finishes := eexists; split; [reflexivity |]; cbn [r_gas]; split; [done | repeat case_match; nia].

(** An item does on the machine what the evaluator says, for 20000 of gas. *)
Lemma eval_item_sound cap i st h st' h' rest r :
  small_push i -> eval_item cap i st h = Some (st', h') -> (length st <= cap)%nat -> (length rest + cap <= 1024)%nat ->
  r_stack r = st ++ rest -> r_host r = h -> 20000 <= r_gas r ->
  (exists r', exec i r = Ok (Next, r') /\ becomes r r' (st' ++ rest) h' /\ r_gas r - 20000 <= r_gas r') /\ (length st' <= cap)%nat.
Proof.
  intros Hi He Hst Hcap Hr Hh Hgas. destruct i as [d | b | v | | | | | | | |]; try discriminate.
  2:{ cbn [eval_item] in He. destruct (_ <? _)%nat eqn:El; [| done]. injection He as <- <-.
      pose proof (light_cost (PUSH 0)) as Hc. cbv iota in Hc.
      rewrite exec_push, Hr, Hh by done. destruct (push_words st cap rest v El Hcap) as [-> _]. rewrite HV, (proj2 (Z.leb_le _ _)) by lia.
      apply Nat.ltb_lt in El. split; [| cbn; lia]. eexists. split; [reflexivity |]. cbn [r_gas]. split; [done | lia]. }
  2:{ injection He as <- <-. pose proof (light_cost JUMPDEST) as Hc. cbv iota in Hc. unfold exec_item. cbn [sym_inst].
      rewrite step_charged, (proj2 (Z.leb_le _ _)) by lia. cbn [allowed step_body].
      split; [| done]. eexists. split; [reflexivity |]. cbn [r_gas]. rewrite Hr, Hh. split; [done | lia]. }
  cbn [eval_item] in He. unfold exec_item. cbn [sym_inst]. pose proof (light_cost (Instruction_of_byte b)) as Hc.
  assert (forall inst d, 0 <= cost inst <= 1000 -> step X 0 d inst r =
    if allowed X inst then step_body X 0 d inst (mkR (r_stack r) (r_gas r - cost inst) (r_mem r) (r_retbuf r) (r_host r)) else Abort) as Hstep.
  { intros inst d Hd. by rewrite step_charged, (proj2 (Z.leb_le _ _)) by lia. }
  destruct (Instruction_of_byte b) as [] eqn:Eb; cbn [word_op] in He; cbv iota in Hc;
    try (destruct st as [| x [| y st]]; try discriminate; injection He as <- <-;
      match goal with |- context [step X 0 ?d ?inst] =>
        rewrite (Hstep inst d Hc);
        destruct (step_word (r_gas r - cost inst) inst _ st rest (r_host r) r x y d eq_refl ltac:(cbn [length] in *; lia) Hr eq_refl) as [-> Hs] end;
      cbv iota beta; rewrite Hs, Hh; split; [eexists; split; [reflexivity |]; cbn [r_gas]; split; [done | lia] | cbn [length] in *; lia]);
    try (destruct st as [| x [| y st]]; discriminate).
  all: rewrite Hstep by (rewrite ?Hc; lia); clear Hstep; cbn [allowed]; rewrite ?Hstatic; cbn [negb].
  all: rewrite ?Hr, ?Hh.
  - (* EXP *) destruct st as [| x [| y st]]; try discriminate. destruct (_ && _) eqn:Ey; [| done].
    injection He as <- <-. apply andb_prop in Ey as [E1 E2]. apply Z.leb_le in E1. apply Z.ltb_lt in E2.
    pose proof (sigBytes_bound y (conj E1 E2)). pose proof exp_cost_bound. cbn [length app] in *.
    run_machine. rewrite (proj2 (andb_true_iff _ _)) by (rewrite !Z.leb_le; nia). run_machine.
    rewrite (proj2 (Nat.ltb_lt _ _)) by (rewrite length_app; lia). split; [finishes | lia].
  - (* ISZERO *) destruct st as [| x st]; [done |]. injection He as <- <-. cbn [length app] in *. run_machine.
    rewrite (proj2 (Nat.ltb_lt _ _)) by (rewrite length_app; lia). split; [finishes | lia].
  - (* NOT *) destruct st as [| x st]; [done |]. injection He as <- <-. cbn [length app] in *. run_machine.
    rewrite (proj2 (Nat.ltb_lt _ _)) by (rewrite length_app; lia). split; [finishes | lia].
  - (* POP *) destruct st as [| x st]; [done |]. injection He as <- <-. cbn [length app] in *. run_machine. split; [finishes | lia].
  - (* SLOAD *) destruct st as [| x st]; [done |]. injection He as <- <-. cbn [length app] in *. run_machine.
    rewrite (proj2 (Nat.ltb_lt _ _)) by (rewrite length_app; lia). split; [finishes | lia].
  - (* SSTORE *) destruct st as [| x [| y st]]; try discriminate. injection He as <- <-. cbn [length app] in *. run_machine.
    rewrite (proj2 (andb_true_iff _ _)) by (rewrite !Z.leb_le; repeat case_match; lia). split; [finishes | lia].
  - (* DUP *) destruct n as [| n]; [by destruct st as [| ? [| ? ?]] |]. destruct ((n <? 16)%nat && (length st <? cap)%nat) eqn:En; [| done].
    destruct (st !! n) as [z |] eqn:Ez; [| done]. injection He as <- <-. apply andb_prop in En as [E1 E2]. apply Nat.ltb_lt in E1, E2.
    rewrite (proj2 (Nat.leb_le (S n) 16)) by lia. cbn [orb]. unfold step_body, rdup. run_machine.
    replace (S n - 1)%nat with n by lia. rewrite lookup_app_l, Ez by (by apply lookup_lt_Some in Ez). run_machine.
    rewrite (proj2 (Nat.ltb_lt _ _)) by (rewrite length_app; lia). split; [finishes | cbn; lia].
  - (* SWAP *) destruct (n <=? 16)%nat eqn:En; [| done]. destruct (st !! n) as [z |] eqn:Ez; [| done].
    destruct st as [| t st]; [done |]. injection He as <- <-. cbn [orb]. unfold step_body, rswap. run_machine.
    rewrite lookup_app_l, Ez by (by apply lookup_lt_Some in Ez). cbn [lookup list_lookup app]. run_machine.
    split; [| rewrite !length_insert; done]. eexists. split; [reflexivity |]. cbn [r_gas]. split; [| lia]. split; [| done]. cbn [r_stack].
    rewrite <- !insert_app_l by (rewrite ?length_insert; try (by apply lookup_lt_Some in Ez); cbn; lia). done.
Qed.

(** Straight code does on the machine what the evaluator says. *)
Lemma eval_sound cap l st h st' h' rest r :
  Forall small_push l -> eval cap l st h = Some (st', h') -> (length st <= cap)%nat -> (length rest + cap <= 1024)%nat ->
  r_stack r = st ++ rest -> r_host r = h -> 20000 * Z.of_nat (length l) <= r_gas r ->
  exists r', straight X V l r r' /\ becomes r r' (st' ++ rest) h' /\ r_gas r - 20000 * Z.of_nat (length l) <= r_gas r'.
Proof.
  intros Hl. revert st h r. induction Hl as [| i l Hi Hl IH]; intros st h r He Hst Hcap Hr Hh Hg; cbn [eval straight length] in *.
  - injection He as <- <-. exists r. split; [done |]. split; [by split_and! | lia].
  - destruct (eval_item cap i st h) as [[st1 h1] |] eqn:Ei; [| done].
    destruct (eval_item_sound cap i st h st1 h1 rest r Hi Ei Hst Hcap Hr Hh ltac:(lia)) as [(r1 & Hx & (B1 & B2 & B3 & B4) & Hg1) Hst1].
    destruct (IH st1 h1 r1 He Hst1 Hcap B1 B2 ltac:(lia)) as (r' & Hs & (C1 & C2 & C3 & C4) & Hg'). exists r'. split; [by exists r1 |].
    split; [split_and!; congruence | lia].
Qed.
End Eval.

(** ** Reasoning about generators *)

Section Does.
Context {H : Type} (X : Ctx H).

Lemma eval_app cap l l' st h :
  eval X cap (l ++ l') st h = match eval X cap l st h with Some (st, h) => eval X cap l' st h | None => None end.
Proof.
  revert st h. induction l as [| i l IH]; intros st h; cbn [app eval]; [done |].
  destruct (eval_item X cap i st h) as [[st1 h1] |]; [apply IH | done].
Qed.

(** What lies below does not matter. *)
Lemma eval_item_frame cap i st h st' h' rest :
  eval_item X cap i st h = Some (st', h') -> eval_item X (cap + length rest) i (st ++ rest) h = Some (st' ++ rest, h').
Proof.
  destruct i as [d | b | v | | | | | | | |]; try discriminate; cbn [eval_item].
  - destruct (Instruction_of_byte b);
      try (solve [destruct st as [| x [| y st]]; cbn [app word_op]; try discriminate;
           first [intros [= <- <-]; reflexivity | destruct (_ && _); [intros [= <- <-]; reflexivity | done]]]).
    + destruct n as [| n]; [destruct st as [| ? [| ? ?]]; discriminate |].
      destruct ((n <? 16)%nat && (length st <? cap)%nat) eqn:E; [| done].
      destruct (st !! n) as [z |] eqn:Ez; [| done]. intros [= <- <-]. apply andb_prop in E as [-> E2]. apply Nat.ltb_lt in E2.
      rewrite (proj2 (Nat.ltb_lt _ _)) by (rewrite length_app; lia). cbn [andb].
      by rewrite lookup_app_l, Ez by (by apply lookup_lt_Some in Ez).
    + destruct (n <=? 16)%nat; [| done]. destruct (st !! n) as [z |] eqn:Ez; [| done]. destruct st as [| t st]; [done |].
      intros [= <- <-]. rewrite lookup_app_l, Ez by (by apply lookup_lt_Some in Ez). cbn [lookup list_lookup app].
      rewrite <- !insert_app_l by (rewrite ?length_insert; try (by apply lookup_lt_Some in Ez); cbn; lia). done.
  - destruct (length st <? cap)%nat eqn:E; [| done]. intros [= <- <-]. apply Nat.ltb_lt in E.
    by rewrite (proj2 (Nat.ltb_lt _ _)) by (rewrite length_app; lia).
  - by intros [= <- <-].
Qed.

Lemma eval_frame cap l st h st' h' rest :
  eval X cap l st h = Some (st', h') -> eval X (cap + length rest) l (st ++ rest) h = Some (st' ++ rest, h').
Proof.
  revert st h. induction l as [| i l IH]; intros st h; cbn [eval]; [by intros [= <- <-] |].
  destruct (eval_item X cap i st h) as [[st1 h1] |] eqn:E; [| done]. intros Hl.
  rewrite (eval_item_frame cap i st h st1 h1 rest E). by apply IH.
Qed.

Lemma eval_mono cap cap' l st h e : (cap <= cap')%nat -> eval X cap l st h = Some e -> eval X cap' l st h = Some e.
Proof.
  intros Hc. revert st h. induction l as [| i l IH]; intros st h; cbn [eval]; [done |].
  destruct (eval_item X cap i st h) as [[st1 h1] |] eqn:E; [| done]. intros Hl.
  assert (eval_item X cap' i st h = Some (st1, h1)) as ->; [| by apply IH].
  destruct i as [d | b | v | | | | | | | |]; try done; cbn [eval_item] in *.
  - destruct (Instruction_of_byte b); try done. destruct n as [| n]; [done |].
    destruct ((n <? 16)%nat && (length st <? cap)%nat) eqn:En; [| done]. apply andb_prop in En as [-> En]. apply Nat.ltb_lt in En.
    by rewrite (proj2 (Nat.ltb_lt _ _)) by lia.
  - destruct (length st <? cap)%nat eqn:En; [| done]. apply Nat.ltb_lt in En. by rewrite (proj2 (Nat.ltb_lt _ _)) by lia.
Qed.

(** The code of [g] takes the stack [st] and the host [h] to [st'] and [h'],
    within [cap] words. *)
Definition does (cap : nat) (g : gen) (st : list Z) (h : H) (st' : list Z) (h' : H) : Prop :=
  forall n, exists l n', g n = Some (l, n') /\ Forall small_push l /\ eval X cap l st h = Some (st', h').

Lemma does_seq cap g g' st h st1 h1 st' h' :
  does cap g st h st1 h1 -> does cap g' st1 h1 st' h' -> does cap (g << g') st h st' h'.
Proof.
  intros H1 H2 n. destruct (H1 n) as (l & n1 & Hg & Hl & He). destruct (H2 n1) as (l' & n2 & Hg' & Hl' & He').
  exists (l ++ l'), n2. unfold seq. rewrite Hg. cbn [mbind option_bind]. rewrite Hg'. cbn [mbind option_bind].
  split; [done |]. split; [by apply Forall_app |]. by rewrite eval_app, He.
Qed.

Lemma does_emit cap l st h st' h' : Forall small_push l -> eval X cap l st h = Some (st', h') -> does cap (emit l) st h st' h'.
Proof. intros Hl He n. by exists l, n. Qed.

Lemma does_exp cap x y st h : inw 128 y -> does cap I.EXP (x :: y :: st) h (wrap 128 (x ^ y) :: st) h.
Proof.
  intros [Hy1 Hy2]. apply does_emit; [by repeat constructor |]. cbn [eval eval_item].
  change (Instruction_of_byte 10) with EXP. cbv iota. by rewrite (proj2 (Z.leb_le _ _) Hy1), (proj2 (Z.ltb_lt _ _) Hy2).
Qed.

Lemma does_frame cap g st h st' h' rest : does cap g st h st' h' -> does (cap + length rest) g (st ++ rest) h (st' ++ rest) h'.
Proof. intros Hd n. destruct (Hd n) as (l & n' & Hg & Hl & He). exists l, n'. split_and!; try done. by apply eval_frame. Qed.

Lemma does_mono cap cap' g st h st' h' : (cap <= cap')%nat -> does cap g st h st' h' -> does cap' g st h st' h'.
Proof. intros Hc Hd n. destruct (Hd n) as (l & n' & Hg & Hl & He). exists l, n'. split_and!; try done. by eapply eval_mono. Qed.

(** A lemma on the top words, used with others below. *)
Lemma does_top cap cap' g st h st' h' rest :
  does cap g st h st' h' -> (cap + length rest <= cap')%nat -> does cap' g (st ++ rest) h (st' ++ rest) h'.
Proof. intros Hd Hc. eapply does_mono; [exact Hc |]. by apply does_frame. Qed.

Lemma does_nothing cap st h : does cap (emit []) st h st h.
Proof. by apply does_emit. Qed.

Lemma does_eq cap g st h st' st'' h' h'' : does cap g st h st' h' -> st' = st'' -> h' = h'' -> does cap g st h st'' h''.
Proof. by intros Hd <- <-. Qed.
End Does.

Create HintDb code.
#[export] Hint Extern 1 (inw _ _) => unfold inw; lia : code.
#[global] Arguments wrap : simpl never.
#[global] Arguments sload : simpl never.
#[global] Arguments sstore : simpl never.
#[global] Arguments op_signextend : simpl never.
#[global] Arguments op_byte : simpl never.
#[global] Arguments b2z : simpl never.

(** Running code item by item; [tac] is for the generators with a lemma. *)
Ltac small := repeat first [apply Forall_nil_2 | apply Forall_cons_2; [first [exact I | cbn [small_push]; eauto with code] |]].
Ltac evaluates := repeat (
  cbn -[Z.pow Z.add Z.sub Z.mul Z.div Z.modulo Z.ltb Z.leb Z.eqb Z.land Z.lor Z.shiftl Z.shiftr Instruction_of_byte];
  match goal with |- context [Instruction_of_byte ?b] =>
    let i := eval vm_compute in (Instruction_of_byte b) in change (Instruction_of_byte b) with i end);
  cbn -[Z.pow Z.add Z.sub Z.mul Z.div Z.modulo Z.ltb Z.leb Z.eqb Z.land Z.lor Z.shiftl Z.shiftr].
Ltac emits := apply does_emit; [small | evaluates; try reflexivity].
Ltac code tac :=
  lazymatch goal with
  | |- does _ _ (seq _ _) _ _ _ _ => eapply does_seq; [code tac | code tac]
  | |- does _ _ (emit []) _ _ _ _ => apply does_nothing
  | |- does _ _ I.EXP _ _ _ _ => apply does_exp; eauto with code
  | |- does _ _ (emit _) _ _ _ _ => emits
  | _ => tac
  end.
Ltac runs tac := eapply does_eq; [code tac | |].

(** ** Shifts *)

(** The words of a two-word number, the top of the stack first. *)
Definition two_words (v : Z) : list Z := [Z.shiftr v 128; wrap 128 v].

Lemma low_word v : inw 128 (wrap 128 v).
Proof. apply wrap_inw. lia. Qed.
Lemma high_word v : inw 256 v -> inw 128 (Z.shiftr v 128).
Proof.
  unfold inw. intros Hv. rewrite Z.shiftr_div_pow2 by lia. split; [apply Z.div_pos; lia | apply Z.div_lt_upper_bound; lia].
Qed.

Lemma wrap_bit w z i : 0 <= w -> Z.testbit (wrap w z) i = (i <? w) && Z.testbit z i.
Proof.
  intros Hw. destruct (Z.lt_ge_cases i 0); [| by apply wrap_testbit]. by rewrite !Z.testbit_neg_r, andb_false_r by lia.
Qed.

(** Equality bit by bit. *)
Ltac bits_step := first
  [ rewrite Z.testbit_0_l | rewrite Z.lor_spec | rewrite Z.land_spec | rewrite wrap_bit by lia
  | rewrite Z.shiftl_spec by lia | rewrite Z.shiftr_spec by lia
  | match goal with |- context [Z.testbit ?a ?k] =>
      lazymatch a with Z.shiftl _ _ => idtac | Z.shiftr _ _ => idtac end;
      destruct (Z.lt_ge_cases k 0); [rewrite (Z.testbit_neg_r a k) by lia |] end ].
Ltac bits_eq := lazymatch goal with
  | |- Z.testbit _ _ = Z.testbit _ _ => f_equal; lia
  | |- _ && _ = _ && _ => f_equal; bits_eq
  | |- _ || _ = _ || _ => f_equal; bits_eq
  | |- _ => done
  end.
Ltac bits_cases := repeat match goal with |- context [?x <? ?y] => destruct (Z.ltb_spec x y); try lia end;
  cbn [andb orb];
  repeat match goal with
  | Hv : inw ?w ?v |- context [Z.testbit ?v ?k] => rewrite (inw_testbit w v k) by (exact Hv || lia)
  | |- context [Z.testbit ?v ?k] => rewrite (Z.testbit_neg_r v k) by lia
  end;
  cbn [andb orb]; rewrite ?andb_false_r, ?orb_false_r, ?orb_false_l, ?andb_true_r; try solve [done | bits_eq].
Ltac bitwise := apply Z.bits_inj'; let i := fresh "i" in let Hi := fresh "Hi" in intros i Hi; repeat bits_step; bits_cases.

Section Shifts.
Context {H : Type} (X : Ctx H).
Abbreviation does := (does X).

Lemma leftShift_does bits x h : 0 <= bits < 128 -> inw 128 x ->
  does 2 (leftShiftNumberOnStack bits) [x] h [wrap 128 (Z.shiftl x bits)] h.
Proof.
  intros Hb Hx. unfold leftShiftNumberOnStack. destruct (Z.eqb_spec bits 0) as [-> | Hn].
  - eapply does_eq; [apply does_nothing | by rewrite Z.shiftl_0_r, wrap_small | done].
  - rewrite (proj2 (Z.ltb_lt bits 128)) by lia. unfold need_. pose proof (pow2_pos bits ltac:(lia)).
    pose proof (Z.pow_lt_mono_r 2 bits 128 ltac:(lia) ltac:(lia) ltac:(lia)).
    runs idtac; [| done]. by rewrite Z.shiftl_mul_pow2, Z.mul_comm by lia.
Qed.

Lemma rightShift_does bits x h : 0 <= bits < 128 -> does 2 (rightShiftNumberOnStack bits false) [x] h [Z.shiftr x bits] h.
Proof.
  intros Hb. unfold rightShiftNumberOnStack. destruct (Z.eqb_spec bits 0) as [-> | Hn]; [apply does_nothing |].
  rewrite (proj2 (Z.ltb_lt bits 128)) by lia. unfold need_. pose proof (pow2_pos bits ltac:(lia)).
  pose proof (Z.pow_lt_mono_r 2 bits 128 ltac:(lia) ltac:(lia) ltac:(lia)).
  runs idtac; [| done]. cbn. by rewrite (proj2 (Z.eqb_neq _ _)), Z.shiftr_div_pow2 by lia.
Qed.

Lemma leftShift_top cap bits x rest h : 0 <= bits < 128 -> inw 128 x -> (2 + length rest <= cap)%nat ->
  does cap (leftShiftNumberOnStack bits) (x :: rest) h (wrap 128 (Z.shiftl x bits) :: rest) h.
Proof. intros Hb Hx Hc. apply (does_top X 2 cap _ [x] h [_] h rest); [by apply leftShift_does | done]. Qed.

Lemma rightShift_top cap bits x rest h : 0 <= bits < 128 -> (2 + length rest <= cap)%nat ->
  does cap (rightShiftNumberOnStack bits false) (x :: rest) h (Z.shiftr x bits :: rest) h.
Proof. intros Hb Hc. apply (does_top X 2 cap _ [x] h [_] h rest); [by apply rightShift_does | done]. Qed.

Lemma leftShift2_does bits v h : 0 <= bits < 256 -> inw 256 v ->
  does 4 (leftShiftNumberOnStack2 bits) (two_words v) h (two_words (wrap 256 (Z.shiftl v bits))) h.
Proof.
  intros Hb Hv. pose proof (low_word v) as Hlo. pose proof (high_word v Hv) as Hhi.
  unfold leftShiftNumberOnStack2. destruct (Z.eqb_spec bits 0) as [-> | Hn].
  { eapply does_eq; [apply does_nothing | by rewrite Z.shiftl_0_r, wrap_small | done]. }
  destruct (Z.leb_spec 128 bits) as [Hl | Hs].
  - runs ltac:(apply leftShift_top; [lia | done | cbn; lia]); [| done]. unfold two_words. f_equal; [bitwise | f_equal; bitwise].
  - runs ltac:(first [apply leftShift_top; [lia | done | cbn; lia] | apply rightShift_top; [lia | cbn; lia]]); [| done].
    unfold two_words. f_equal; [bitwise | f_equal; bitwise].
Qed.

Lemma rightShift2_does bits v h : 0 <= bits < 256 -> inw 256 v ->
  does 4 (rightShiftNumberOnStack2 bits false) (two_words v) h (two_words (Z.shiftr v bits)) h.
Proof.
  intros Hb Hv. pose proof (low_word v) as Hlo. pose proof (high_word v Hv) as Hhi.
  unfold rightShiftNumberOnStack2. destruct (Z.eqb_spec bits 0) as [-> | Hn]; [apply does_nothing |]. cbn [negb need_].
  destruct (Z.leb_spec 128 bits) as [Hl | Hs].
  - runs ltac:(apply rightShift_top; [lia | cbn; lia]); [| done]. unfold two_words. f_equal; [bitwise | f_equal; bitwise].
  - runs ltac:(first [apply leftShift_top; [lia | done | cbn; lia] | apply rightShift_top; [lia | cbn; lia]]); [| done].
    unfold two_words. f_equal; [bitwise | f_equal; bitwise].
Qed.
End Shifts.

(** ** On the machine *)

(** Constants are themselves, in a call that may write. *)
Definition machine_ok {H} (X : Ctx H) (V : AssemblyItem -> Z) : Prop := (forall v, V (Push v) = v) /\ x_static X = false.

(** The tags of a program are unique, and so are their addresses. *)
Definition tags_ok (V : AssemblyItem -> Z) (prog : list AssemblyItem) : Prop :=
  NoDup (tags_of prog) /\ forall v w, v ∈ tags_of prog -> w ∈ tags_of prog -> V (PushTag v) = V (PushTag w) -> v = w.

(** The items of a program from [cur] on run from [r] to [cur'] and [r']. *)
Inductive reaches {H} (X : Ctx H) (V : AssemblyItem -> Z) (prog : list AssemblyItem) : list AssemblyItem -> rstate H -> list AssemblyItem -> rstate H -> Prop :=
| reach_here cur r : reaches X V prog cur r cur r
| reach_next i cur r r1 cur' r' : exec_item X V i r = Ok (Next, r1) -> reaches X V prog cur r1 cur' r' -> reaches X V prog (i :: cur) r cur' r'
| reach_jump i cur r w r1 l cur' r' : exec_item X V i r = Ok (JumpTo w, r1) -> find_tag V w prog = Some l ->
    reaches X V prog l r1 cur' r' -> reaches X V prog (i :: cur) r cur' r'.

(** Enough gas for some items. *)
Abbreviation enough l := (20000 * Z.of_nat (length l)).

(** The generator succeeds and its code, wherever it stands in a program, takes
    the top [st] of any stack with 64 free places, and the host [h], to [st'] and
    [h'], when there is gas enough; memory is untouched. *)
Definition executes {H} (X : Ctx H) (V : AssemblyItem -> Z) (g : gen) (st : list Z) (h : H) (st' : list Z) (h' : H) : Prop :=
  forall n, exists l n', g n = Some (l, n') /\
    forall rest r, (length rest + 64 <= 1024)%nat -> r_stack r = st ++ rest -> r_host r = h -> enough l <= r_gas r ->
    exists r', becomes r r' (st' ++ rest) h' /\ r_gas r - enough l <= r_gas r' /\
      forall pre post, tags_ok V (pre ++ l ++ post) -> reaches X V (pre ++ l ++ post) (l ++ post) r post r'.

(** The generator succeeds, and its code comes to an instruction that aborts. *)
Definition fails {H} (X : Ctx H) (V : AssemblyItem -> Z) (g : gen) (st : list Z) (h : H) : Prop :=
  forall n, exists l n', g n = Some (l, n') /\
    forall rest r, (length rest + 64 <= 1024)%nat -> r_stack r = st ++ rest -> r_host r = h -> enough l <= r_gas r ->
    forall pre post, tags_ok V (pre ++ l ++ post) ->
      exists i cur r', reaches X V (pre ++ l ++ post) (l ++ post) r (i :: cur) r' /\ exec_item X V i r' = Abort.

Section Executes.
Context {H : Type} (X : Ctx H) (V : AssemblyItem -> Z) (HM : machine_ok X V).

Lemma reaches_trans prog c r c1 r1 c2 r2 : reaches X V prog c r c1 r1 -> reaches X V prog c1 r1 c2 r2 -> reaches X V prog c r c2 r2.
Proof. induction 1; intros; [done | eapply reach_next | eapply reach_jump]; eauto. Qed.
Lemma straight_reaches prog l post r r' : straight X V l r r' -> reaches X V prog (l ++ post) r post r'.
Proof.
  revert r. induction l as [| i l IH]; intros r; cbn [straight app]; [intros ->; constructor |].
  intros (r1 & Hi & Hs). eapply reach_next; [exact Hi | by apply IH].
Qed.

Lemma does_executes cap g st h st' h' : does X cap g st h st' h' -> (length st <= cap <= 64)%nat -> executes X V g st h st' h'.
Proof.
  destruct HM as [HV HX]. intros Hd Hc n. destruct (Hd n) as (l & n' & Hg & Hsmall & He). exists l, n'. split; [done |].
  intros rest r Hl Hst Hh Hgas.
  destruct (eval_sound X V HV HX cap l st h st' h' rest r) as (r' & Hs & Hb & Hr'); [done | done | lia | lia | done | done | done |].
  exists r'. split_and!; [done | done |]. intros pre post _. by apply straight_reaches.
Qed.

Lemma executes_seq g1 g2 st h st1 h1 st2 h2 :
  executes X V g1 st h st1 h1 -> executes X V g2 st1 h1 st2 h2 -> executes X V (g1 << g2) st h st2 h2.
Proof.
  intros H1 H2 n. destruct (H1 n) as (l1 & n1 & Hg1 & Hx1). destruct (H2 n1) as (l2 & n2 & Hg2 & Hx2).
  exists (l1 ++ l2), n2. unfold seq. rewrite Hg1. cbn [mbind option_bind]. rewrite Hg2. cbn [mbind option_bind]. split; [done |].
  intros rest r Hl Hst Hh Hg. rewrite length_app in *.
  destruct (Hx1 rest r Hl Hst Hh ltac:(lia)) as (r1 & (B1 & B2 & B3 & B4) & G1 & R1).
  destruct (Hx2 rest r1 Hl B1 B2 ltac:(lia)) as (r2 & (C1 & C2 & C3 & C4) & G2 & R2).
  exists r2. split; [split_and!; congruence |]. split; [lia |]. intros pre post Ht. rewrite <- !app_assoc in *.
  eapply reaches_trans; [by apply R1 |]. specialize (R2 (pre ++ l1) post). rewrite <- !app_assoc in R2. by apply R2.
Qed.

Lemma fails_seq g1 g2 st h : fails X V g1 st h -> (forall n, is_Some (g2 n)) -> fails X V (g1 << g2) st h.
Proof.
  intros H1 H2 n. destruct (H1 n) as (l1 & n1 & Hg1 & Hx1). destruct (H2 n1) as [[l2 n2] Hg2].
  exists (l1 ++ l2), n2. unfold seq. rewrite Hg1. cbn [mbind option_bind]. rewrite Hg2. cbn [mbind option_bind]. split; [done |].
  intros rest r Hl Hst Hh Hg pre post Ht. rewrite length_app in *. rewrite <- !app_assoc in *. apply (Hx1 rest r Hl Hst Hh ltac:(lia)). exact Ht.
Qed.
Lemma executes_fails g1 g2 st h st1 h1 : executes X V g1 st h st1 h1 -> fails X V g2 st1 h1 -> fails X V (g1 << g2) st h.
Proof.
  intros H1 H2 n. destruct (H1 n) as (l1 & n1 & Hg1 & Hx1). destruct (H2 n1) as (l2 & n2 & Hg2 & Hx2).
  exists (l1 ++ l2), n2. unfold seq. rewrite Hg1. cbn [mbind option_bind]. rewrite Hg2. cbn [mbind option_bind]. split; [done |].
  intros rest r Hl Hst Hh Hg pre post Ht. rewrite length_app in *.
  destruct (Hx1 rest r Hl Hst Hh ltac:(lia)) as (r1 & (B1 & B2 & B3 & B4) & G1 & R1). rewrite <- !app_assoc in *.
  specialize (Hx2 rest r1 Hl B1 B2 ltac:(lia) (pre ++ l1) post). rewrite <- !app_assoc in Hx2. destruct (Hx2 Ht) as (i & cur & r' & R2 & Hi).
  exists i, cur, r'. split; [| done]. eapply reaches_trans; [by apply R1 | exact R2].
Qed.

(** *** A check *)

Lemma find_own pre v l : tags_ok V (pre ++ Tag v :: l) -> find_tag V (V (PushTag v)) (pre ++ Tag v :: l) = Some (Tag v :: l).
Proof.
  intros [Hnd Hinj]. assert (v ∈ tags_of (pre ++ Tag v :: l)) as Hv by (rewrite tags_app; apply elem_of_app; right; by left).
  revert Hnd Hinj Hv. induction pre as [| i pre IH]; cbn [app find_tag]; intros Hnd Hinj Hv; [by rewrite Z.eqb_refl |].
  destruct i; try (by apply IH). change (tags_of (Tag data :: pre ++ Tag v :: l)) with (data :: tags_of (pre ++ Tag v :: l)) in *.
  assert (v ∈ tags_of (pre ++ Tag v :: l)) as Hv' by (rewrite tags_app; apply elem_of_app; right; by left).
  destruct (Z.eqb_spec (V (PushTag data)) (V (PushTag v))) as [E |].
  - apply Hinj in E as ->; [| by left | done]. by apply NoDup_cons_1_1 in Hnd.
  - apply IH; [by apply NoDup_cons_1_2 in Hnd | | done]. intros a b Ha Hb. apply Hinj; by right.
Qed.

(** [appendConditionalInvalid] up to its jump: the word on top is tested. *)
Lemma check_tests prog n post st h rest gas mem buf x (c := getStepCost (x_rev X)) :
  (length (x :: st ++ rest) <= 1022)%nat -> 4000 <= gas ->
  reaches X V prog (Operation 0x15 :: PushTag n :: post) (mkR (x :: st ++ rest) gas mem buf h)
    post (mkR (V (PushTag n) :: b2z (x =? 0) :: st ++ rest) (gas - c ISZERO - c (PUSH 0)) mem buf h).
Proof.
  intros Hl Hg. destruct HM as [HV HX]. pose proof (light_cost X ISZERO) as C1. pose proof (light_cost X (PUSH 0)) as C2. cbv iota in C1, C2. fold c in C1, C2.
  assert ((length (st ++ rest) <? 1024)%nat = true /\ (length (b2z (x =? 0)%Z :: st ++ rest) <? 1024)%nat = true) as [L1 L2]
    by (rewrite !Nat.ltb_lt; cbn [length] in *; lia).
  eapply (reach_next X V _ _ _ _ (mkR (b2z (x =? 0) :: st ++ rest) (gas - c ISZERO) mem buf h)).
  { unfold exec_item. change (sym_inst (Operation 21)) with ISZERO. rewrite step_charged, (proj2 (Z.leb_le _ _)) by (cbn [r_gas]; fold c; lia).
    cbn [allowed step_body r_stack r_gas r_mem r_retbuf r_host]. unfold rpop, rpush, gets, set_rstack, mbind, M_bind, mret, M_ret.
    cbn [r_stack r_gas r_mem r_retbuf r_host]. by rewrite L1. }
  eapply reach_next; [| apply reach_here].
  rewrite exec_push, (proj2 (Z.leb_le _ _)) by (done || (cbn [r_gas]; fold c; lia)). cbn [r_stack r_gas r_mem r_retbuf r_host]. by rewrite L2.
Qed.

(** It goes on if the word is zero, and aborts otherwise. *)
Lemma check_passes st h : (length st <= 32)%nat -> executes X V appendConditionalInvalid (0 :: st) h st h.
Proof.
  intros Hl n. exists [Operation 0x15; PushTag n; Operation 0x57; Operation 0xfe; Tag n], (n + 1). split; [done |].
  intros rest r Hrest Hst Hh Hg. pose proof (light_cost X ISZERO) as C1. pose proof (light_cost X (PUSH 0)) as C2. pose proof (light_cost X JUMPI) as C3.
  pose proof (light_cost X JUMPDEST) as C4. cbv iota in C1, C2, C3, C4. cbn [length] in Hg.
  destruct r as [stk gas mem buf host]. cbn [r_stack r_host r_gas] in Hst, Hh, Hg. subst stk host. cbn [app] in *.
  set (c := getStepCost (x_rev X)) in *.
  exists (mkR (st ++ rest) (gas - c ISZERO - c (PUSH 0) - c JUMPI - c JUMPDEST) mem buf h). split; [done |]. split; [cbn [length r_gas]; lia |].
  intros pre post Ht. cbn [app] in *. eapply reaches_trans; [apply check_tests; [cbn [length]; rewrite length_app; lia | lia] |]. fold c.
  eapply (reach_jump X V _ _ _ _ (V (PushTag n)) (mkR (st ++ rest) (gas - c ISZERO - c (PUSH 0) - c JUMPI) mem buf h)).
  { rewrite exec_jumpi, (proj2 (Z.leb_le _ _)) by (cbn [r_gas]; fold c; lia). done. }
  { pose proof (find_own (pre ++ [Operation 21; PushTag n; Operation 87; Operation 254]) n post) as Hf. rewrite <- app_assoc in Hf. exact (Hf Ht). }
  eapply reach_next; [| apply reach_here]. unfold exec_item. cbn [sym_inst]. rewrite step_charged, (proj2 (Z.leb_le _ _)) by (cbn [r_gas]; fold c; lia). done.
Qed.
Lemma check_fails st h x : (length st <= 32)%nat -> x <> 0 -> fails X V appendConditionalInvalid (x :: st) h.
Proof.
  intros Hl Hx n. exists [Operation 0x15; PushTag n; Operation 0x57; Operation 0xfe; Tag n], (n + 1). split; [done |].
  intros rest r Hrest Hst Hh Hg pre post Ht. pose proof (light_cost X ISZERO) as C1. pose proof (light_cost X (PUSH 0)) as C2. pose proof (light_cost X JUMPI) as C3.
  cbv iota in C1, C2, C3. cbn [length] in Hg.
  destruct r as [stk gas mem buf host]. cbn [r_stack r_host r_gas] in Hst, Hh, Hg. subst stk host. cbn [app] in *. set (c := getStepCost (x_rev X)) in *.
  exists (Operation 0xfe), (Tag n :: post), (mkR (st ++ rest) (gas - c ISZERO - c (PUSH 0) - c JUMPI) mem buf h). split.
  - eapply reaches_trans; [apply check_tests; [cbn [length]; rewrite length_app; lia | lia] |]. fold c. eapply reach_next; [| apply reach_here].
    rewrite exec_jumpi, (proj2 (Z.leb_le _ _)) by (cbn [r_gas]; fold c; lia). cbn [r_stack]. by rewrite (proj2 (Z.eqb_neq x 0) Hx).
  - unfold exec_item. change (sym_inst (Operation 254)) with (INVALID 254). rewrite step_charged by done. by destruct (_ <=? _).
Qed.
End Executes.

(** The code for shifting numbers of two words is right: whatever lies below
    on the stack, on the machine it replaces the two words of a number by those
    of the number shifted, to the left modulo 2^256 and to the right. *)
Theorem shift2_correct {H} (X : Ctx H) V bits v h :
  machine_ok X V -> 0 <= bits < 256 -> inw 256 v ->
  executes X V (leftShiftNumberOnStack2 bits) (two_words v) h (two_words (wrap 256 (Z.shiftl v bits))) h /\
  executes X V (rightShiftNumberOnStack2 bits false) (two_words v) h (two_words (Z.shiftr v bits)) h.
Proof.
  intros HM Hb Hv. split; eapply (does_executes X V HM 4); [by apply leftShift2_does | cbn; lia | by apply rightShift2_does | cbn; lia].
Qed.

Lemma null_machine gas : machine_ok (null_ctx gas []) (fun i => match i with Push v => v | _ => 0 end).
Proof. by split. Qed.

Lemma shift2_correct_witness :
  executes (null_ctx 0 []) (fun i => match i with Push v => v | _ => 0 end)
    (leftShiftNumberOnStack2 100) (two_words (2 ^ 200 + 2 ^ 60)) tt (two_words (2 ^ 160)) tt.
Proof. apply (shift2_correct (null_ctx 0 []) _ 100 (2 ^ 200 + 2 ^ 60) tt (null_machine 0)); [lia | done]. Defined.

(** ** Integers *)

(** A number cut to a width, as an integer type reads it. *)
Definition norm (bits : Z) (m : Modifier) (x : Z) : Z :=
  if isSigned m then sgn bits (wrap bits x) else wrap bits x.

(** The words of an integer on the stack. *)
Definition int_words (bits x : Z) : list Z := if 128 <? bits then two_words (wrap 256 x) else [wrap 128 x].

Lemma testbit_negative k y i : 0 <= k <= i -> - 2 ^ k <= y < 0 -> Z.testbit y i = true.
Proof.
  intros Hk Hy. replace y with (Z.lnot (Z.lnot y)) by apply Z.lnot_involutive. rewrite Z.lnot_spec by lia.
  rewrite (inw_testbit k (Z.lnot y) i); [done | | lia]. unfold inw, Z.lnot. lia.
Qed.

Lemma sgn_bit w z i : 1 <= w -> inw w z -> 0 <= i -> Z.testbit (sgn w z) i = Z.testbit z (if i <? w then i else w - 1).
Proof.
  intros Hw Hz Hi. assert (2 ^ w = 2 * 2 ^ (w - 1)) as E by (rewrite <- Z.pow_succ_r by lia; f_equal; lia).
  unfold sgn. unfold inw in Hz. destruct (Z.ltb_spec z (2 ^ (w - 1))) as [Hs | Hs], (Z.ltb_spec i w); try done.
  - rewrite !(inw_testbit (w - 1)); unfold inw; try done; lia.
  - transitivity (Z.testbit (wrap w (z - 2 ^ w)) i); [rewrite wrap_bit by lia; by rewrite (proj2 (Z.ltb_lt _ _)) by lia |].
    f_equal. unfold wrap. rewrite <- (Z.mod_add _ 1 (2 ^ w)) by lia. rewrite Z.mod_small; lia.
  - rewrite (testbit_negative (w - 1)) by lia. symmetry. apply Z.testbit_true; [lia |].
    by rewrite <- (Z.div_unique z (2 ^ (w - 1)) 1 (z - 2 ^ (w - 1))) by lia.
Qed.

Lemma norm_bit bits m x i : 1 <= bits -> 0 <= i ->
  Z.testbit (norm bits m x) i = if i <? bits then Z.testbit x i else isSigned m && Z.testbit x (bits - 1).
Proof.
  intros Hb Hi. unfold norm. destruct (isSigned m); [rewrite sgn_bit by (lia || apply wrap_inw; lia) |]; rewrite wrap_bit by lia;
    destruct (Z.ltb_spec i bits); rewrite ?(proj2 (Z.ltb_lt _ _)) by lia; try done.
Qed.

Lemma norm_id bits m x : 1 <= bits -> minValue bits m <= x <= maxValue bits m -> norm bits m x = x.
Proof.
  intros Hb. assert (2 ^ bits = 2 * 2 ^ (bits - 1)) as E by (rewrite <- Z.pow_succ_r by lia; f_equal; lia).
  unfold norm, minValue, maxValue. rewrite !Z.shiftl_mul_pow2, !Z.mul_1_l by lia. pose proof (pow2_pos (bits - 1) ltac:(lia)).
  destruct (isSigned m); intros Hx; [| apply wrap_small; unfold inw; lia]. unfold sgn, wrap.
  destruct (Z.lt_ge_cases x 0).
  - replace (x mod 2 ^ bits) with (x + 2 ^ bits); [rewrite (proj2 (Z.ltb_ge _ _)); lia |].
    apply (Z.mod_unique_pos x (2 ^ bits) (-1)); lia.
  - rewrite Z.mod_small, (proj2 (Z.ltb_lt _ _)) by lia. done.
Qed.

Lemma low_mask_land n y : 0 <= n <= 128 -> Z.land (low_mask n) y = wrap n y.
Proof.
  intros Hn. rewrite Z.land_comm. unfold wrap. rewrite <- Z.land_ones by lia. f_equal. unfold low_mask, wrap.
  rewrite Z.shiftl_mul_pow2, Z.mul_1_l, Z.ones_equiv, <- Z.sub_1_r by lia. rewrite Zminus_mod_idemp_l.
  pose proof (pow2_pos n ltac:(lia)). pose proof (Z.pow_le_mono_r 2 n 128 ltac:(lia) ltac:(lia)). apply Z.mod_small. lia.
Qed.

Ltac bits_norm := apply Z.bits_inj'; let i := fresh "i" in let Hi := fresh "Hi" in intros i Hi; repeat first [rewrite norm_bit by lia | bits_step]; bits_cases.

Lemma low_mask_inw n : inw 128 (low_mask n).
Proof. apply wrap_inw. lia. Qed.
#[export] Hint Resolve low_mask_inw : code.

Section Integers.
Context {H : Type} (X : Ctx H).

(** Cleaning cuts the top word to the bits of the type in it. *)
Lemma clean_does bits nb m y h : (if 128 <? bits then bits - 128 else bits) = nb ->
  8 <= nb <= 128 -> nb mod 8 = 0 -> inw 128 y -> does X 2 (cleanHigherOrderBits bits m) [y] h [wrap 128 (norm nb m y)] h.
Proof.
  intros Hnb Hn Hm Hy. unfold cleanHigherOrderBits. rewrite Hnb. destruct (Z.eqb_spec nb 128) as [E | E].
  - eapply does_eq; [apply does_nothing | | done]. rewrite E. f_equal. bits_norm.
  - pose proof (Z.div_mod nb 8 ltac:(lia)). destruct (isSigned m) eqn:Em; (runs idtac; [| done]); f_equal.
    + unfold op_signextend, norm. rewrite Em.
      replace (8 * (nb / 8 - 1) + 8) with nb by lia. by rewrite (proj2 (Z.leb_le _ _)) by (pose proof (Z.div_lt_upper_bound nb 8 16); lia).
    + unfold norm. rewrite Em, low_mask_land by lia. symmetry. apply wrap_small.
      eapply inw_mono; [| apply wrap_inw]; lia.
Qed.

Lemma two_words_wrap x : two_words (wrap 256 x) = [wrap 128 (Z.shiftr x 128); wrap 128 x].
Proof. unfold two_words. f_equal; [bitwise | f_equal; bitwise]. Qed.

Lemma clean_words bits m x h : 8 <= bits <= 256 -> bits mod 8 = 0 ->
  does X 3 (cleanHigherOrderBits bits m) (int_words bits x) h (int_words bits (norm bits m x)) h.
Proof.
  intros Hb Hm. unfold int_words. destruct (Z.ltb_spec 128 bits) as [Hl | Hs].
  - rewrite !two_words_wrap. eapply does_eq.
    { eapply (does_top X 2 3 _ [_] h _ h [_]); [apply (clean_does bits (bits - 128)); [| | | apply low_word] | cbn; lia].
      - by rewrite (proj2 (Z.ltb_lt _ _)).
      - pose proof (Z.div_mod bits 8 ltac:(lia)). lia.
      - replace (bits - 128) with (bits + (-16) * 8) by lia. by rewrite Z.mod_add. }
    { cbn [app]. f_equal; [| f_equal]; bits_norm. }
    done.
  - eapply does_mono; [| eapply does_eq; [apply (clean_does bits bits); [| lia | done | apply low_word] | | done]]; [lia | |].
    + by rewrite (proj2 (Z.ltb_ge _ _)).
    + f_equal. bits_norm.
Qed.

Lemma convert_same cleanup bits m bits' m' x h :
  8 <= bits <= 256 -> bits mod 8 = 0 -> 8 <= bits' <= 256 -> bits' mod 8 = 0 -> words bits = words bits' ->
  minValue bits m <= x <= maxValue bits m ->
  does X 3 (convert_to_integer (IntegerType bits m) bits' m' cleanup false) (int_words bits x) h
    (int_words bits' (if (bits' <=? bits) && cleanup then norm bits' m' x else x)) h.
Proof.
  intros Hb Hm Hb' Hm' Hw Hx. cbn [convert_to_integer with_]. rewrite Hw, Z.ltb_irrefl.
  assert (int_words bits = int_words bits') as E.
  { unfold int_words. by destruct (128 <? bits), (128 <? bits'). }
  destruct (Z.ltb_spec bits bits') as [Hl | Hl]; [rewrite (proj2 (Z.leb_gt _ _)) by lia | rewrite (proj2 (Z.leb_le _ _)) by lia]; cbn [andb].
  - runs ltac:(apply clean_words; done); [| done]. rewrite norm_id, E by lia || done. done.
  - destruct cleanup.
    + runs ltac:(rewrite ?E; apply clean_words; done); done.
    + runs idtac; by rewrite ?E.
Qed.

(** Widening to a second word. *)
Lemma convert_wider cleanup bits m bits' m' x h :
  8 <= bits <= 128 -> bits mod 8 = 0 -> 128 < bits' <= 256 ->
  does X 3 (convert_to_integer (IntegerType bits m) bits' m' cleanup false) (int_words bits x) h (two_words (wrap 128 x)) h.
Proof.
  intros Hb Hm Hb'. cbn [convert_to_integer with_]. unfold int_words.
  rewrite (proj2 (Z.ltb_ge 128 bits)), (proj2 (Z.ltb_lt 128 bits')), (proj2 (Z.ltb_lt bits bits')) by lia. cbn [Z.ltb Z.compare].
  change (1 <? 2) with true. cbv iota.
  runs ltac:(eapply (does_top X 2 3 _ [0] h _ h [_]); [apply (clean_does bits bits); [by rewrite (proj2 (Z.ltb_ge _ _)) by lia | lia | done | unfold inw; lia] | cbn; lia]); [| done].
  cbn [app]. unfold two_words. f_equal; [| f_equal]; bits_norm.
Qed.
End Integers.

Lemma integer_type_ok bits m : number_ok (IntegerType bits m) -> 8 <= bits <= 256 /\ bits mod 8 = 0.
Proof.
  cbn [number_ok]. unfold make_IntegerType. destruct (_ && _) eqn:E; [| done]. intros [= Eb]. rewrite Eb in E.
  rewrite !andb_true_iff, Z.ltb_lt, Z.leb_le, Z.eqb_eq in E. pose proof (Z.div_mod bits 8 ltac:(lia)). lia.
Qed.

(** [convertType] between integer types, when it has something to do. *)
Lemma convert_integers bits m bits' m' cleanup :
  convertType (IntegerType bits m) (IntegerType bits' m') cleanup false false =
  if (bits =? bits') && bool_decide (m = m') && negb cleanup then emit [] else convert_to_integer (IntegerType bits m) bits' m' cleanup false.
Proof. done. Qed.

Lemma int_words_length bits x : (length (int_words bits x) <= 3 <= 64)%nat.
Proof. unfold int_words. destruct (_ <? _); cbn; lia. Qed.

Lemma maxValue_bound bits m : 1 <= bits -> maxValue bits m < 2 ^ bits.
Proof.
  intros Hb. unfold maxValue. rewrite !Z.shiftl_mul_pow2, !Z.mul_1_l by lia.
  pose proof (Z.pow_le_mono_r 2 (bits - 1) bits ltac:(lia) ltac:(lia)). destruct (isSigned m); lia.
Qed.

(** C17: Conversions between integer types of as many words, and of numbers that
    are not negative to types of more words, are right on the machine: they
    keep the numbers that both types have, and one to a type that is no wider,
    with cleanup, takes every number to the one with the same low bits. *)
Theorem integer_conversion_correct {H} (X : Ctx H) V cleanup bits m bits' m' x h :
  machine_ok X V -> number_ok (IntegerType bits m) -> number_ok (IntegerType bits' m') ->
  minValue bits m <= x <= maxValue bits m ->
  (minValue bits' m' <= x <= maxValue bits' m' -> words bits = words bits' \/ words bits < words bits' /\ 0 <= x ->
   executes X V (convertType (IntegerType bits m) (IntegerType bits' m') cleanup false false) (int_words bits x) h (int_words bits' x) h) /\
  (words bits = words bits' -> bits' <= bits ->
   executes X V (convertType (IntegerType bits m) (IntegerType bits' m') true false false) (int_words bits x) h
     (int_words bits' (norm bits' m' x)) h).
Proof.
  intros HM Ht Ht' Hx. apply integer_type_ok in Ht as [Hb Hm]. apply integer_type_ok in Ht' as [Hb' Hm']. rewrite !convert_integers. split.
  - intros Hx' Hw. destruct ((bits =? bits') && _ && _) eqn:E.
    { rewrite !andb_true_iff, Z.eqb_eq in E. destruct E as [[-> _] _].
      eapply (does_executes X V HM 3); [ apply does_nothing | by apply int_words_length]. }
    eapply (does_executes X V HM 3); [ | by apply int_words_length]. destruct Hw as [Hw | [Hw H0]].
    + eapply does_eq; [by apply convert_same | | done]. destruct (_ && cleanup); [by rewrite norm_id by lia | done].
    + assert (bits <= 128 < bits') as [? ?] by (repeat case_match; lia).
      eapply does_eq; [apply convert_wider; done || lia | | done]. unfold int_words. rewrite (proj2 (Z.ltb_lt _ _)) by lia.
      rewrite !wrap_small; [done | |]; pose proof (maxValue_bound bits m ltac:(lia)); pose proof (Z.pow_le_mono_r 2 bits 128); unfold inw; lia.
  - intros Hw Hle. rewrite andb_false_r. eapply (does_executes X V HM 3); [ | by apply int_words_length].
    eapply does_eq; [by apply convert_same | | done]. by rewrite (proj2 (Z.leb_le _ _)) by lia.
Qed.

Lemma integer_conversion_correct_witness :
  executes (null_ctx 0 []) (fun i => match i with Push v => v | _ => 0 end)
    (convertType (IntegerType 64 Signed) (IntegerType 8 Signed) true false false) (int_words 64 (-300)) tt (int_words 8 (-44)) tt.
Proof.
  apply (integer_conversion_correct (null_ctx 0 []) _ true 64 Signed 8 Signed (-300) tt (null_machine 0)); done || lia.
Defined.

Lemma minValue_bound bits : 1 <= bits <= 128 -> - 2 ^ 127 <= minValue bits Signed.
Proof.
  intros Hb. unfold minValue. change (isSigned Signed) with true. cbv iota. rewrite Z.shiftl_mul_pow2, Z.mul_1_l by lia.
  pose proof (Z.pow_le_mono_r 2 (bits - 1) 127 ltac:(lia) ltac:(lia)). lia.
Qed.

(** Conversions between integers of one and of two words are wrong: a negative
    number gets a high word of 0 instead of its sign, and a number of two words
    keeps both where the type has one. *)
Theorem integer_conversion_wrong {H} (X : Ctx H) V bits bits' x h :
  machine_ok X V -> number_ok (IntegerType bits Signed) -> number_ok (IntegerType bits' Signed) ->
  bits <= 128 < bits' -> minValue bits Signed <= x < 0 ->
  executes X V (convertType (IntegerType bits Signed) (IntegerType bits' Signed) false false false) (int_words bits x) h
    (two_words (2 ^ 128 + x)) h /\
  two_words (2 ^ 128 + x) <> int_words bits' x /\
  executes X V (convertType (IntegerType bits' Signed) (IntegerType bits Signed) false false false) (int_words bits' x) h
    (int_words bits' x) h /\
  sizeOnStack (IntegerType bits Signed) = Some 1 /\ length (int_words bits' x) = 2%nat.
Proof.
  intros HM Ht Ht' Hbb Hx. apply integer_type_ok in Ht as [Hb Hm]. apply integer_type_ok in Ht' as [Hb' Hm']. rewrite !convert_integers.
  rewrite (proj2 (Z.eqb_neq bits bits')), (proj2 (Z.eqb_neq bits' bits)) by lia. cbn [andb].
  assert (wrap 128 x = 2 ^ 128 + x) as E.
  { pose proof (minValue_bound bits ltac:(lia)). unfold wrap. symmetry. apply (Z.mod_unique_pos x (2 ^ 128) (-1)); lia. }
  assert (int_words bits' x = two_words (wrap 256 x)) as Ew by (unfold int_words; by rewrite (proj2 (Z.ltb_lt _ _)) by lia).
  split_and!.
  - eapply (does_executes X V HM 3); [ | by apply int_words_length]. rewrite <- E. apply convert_wider; done || lia.
  - rewrite Ew, two_words_wrap, <- E. unfold two_words. intros [= E1 _].
    assert (Z.testbit (Z.shiftr (wrap 128 x) 128) 0 = Z.testbit (wrap 128 (Z.shiftr x 128)) 0) as Hbit by (by rewrite E1).
    rewrite wrap_bit, !Z.shiftr_spec, wrap_bit in Hbit by lia. cbn in Hbit.
    rewrite (testbit_negative 127) in Hbit; [done | lia |]. pose proof (minValue_bound bits ltac:(lia)). lia.
  - eapply (does_executes X V HM 3); [ | by apply int_words_length]. cbn [convert_to_integer with_].
    rewrite (proj2 (Z.ltb_lt 128 bits')), (proj2 (Z.ltb_ge 128 bits)), (proj2 (Z.ltb_ge bits' bits)) by lia.
    change (2 <? 1) with false. runs idtac; done.
  - unfold sizeOnStack. by rewrite (proj2 (Z.ltb_ge _ _)) by lia.
  - by rewrite Ew.
Qed.

Lemma integer_conversion_wrong_witness :
  executes (null_ctx 0 []) (fun i => match i with Push v => v | _ => 0 end)
    (convertType (IntegerType 8 Signed) (IntegerType 256 Signed) false false false) (int_words 8 (-1)) tt (two_words (2 ^ 128 - 1)) tt.
Proof. apply (integer_conversion_wrong (null_ctx 0 []) _ 8 256 (-1) tt (null_machine 0)); done || lia. Defined.
