(* ===== verification/SolLValue.v ===== *)
(** * Reading and writing variables in storage

    libsolidity/codegen/LValue.cpp: the code that reads, writes and clears a
    variable at a position of the storage ([StorageItem]) and a byte of a byte
    array ([StorageByteArrayElement]); of ArrayUtils.cpp the position of an
    array element.  A position is a slot and a byte offset, the offset on top of
    the stack.  Assignments and deletions of whole arrays and copies of structs
    are outside these definitions, which fail there.  The theorems run the code
    on the reference machine. *)
From stdpp Require Import strings.
From S2P Require Import Prelude Bytes Instruction LLVMInt EvmAbi GasSchedule Runtime IR Machine NullHost.
From S2P Require Import AsmItem AsmRun Peephole SolTypes SolStorage SolCode.
Open Scope list_scope.
Open Scope Z_scope.
Open Scope gen_scope.

(** ** Items *)

(** The constructor of [StorageItem]: the slots of a value are its stack items. *)
Definition item_sizes_ok (t : Type_) : bool :=
  if isValueType t then
    match t, storageSize t, sizeOnStack t with
    | FunctionType _ _ _ _ _ _ _, _, _ => true
    | _, Some slots, Some words => (slots =? words) && (slots <=? 2)
    | _, _, _ => false
    end
  else true.

Definition is_external (t : Type_) : bool :=
  match t with FunctionType k _ _ _ _ _ _ => bool_decide (k = External) | _ => false end.

(** Two words from the slot on the top and the next one. *)
Definition load_two : gen := I.POP << I.DUP1 << num 1 << I.ADD << I.SLOAD << I.SWAP1 << I.SLOAD.

Definition StorageItem_retrieveValue (t : Type_) (remove : bool) : gen :=
  let keep := if remove then emit [] else copyToStackTop 2 2 in
  if is_external t then
    keep << I.POP
    << I.DUP1 << num 2 << I.ADD << I.SLOAD << I.SWAP1
    << I.DUP1 << num 1 << I.ADD << I.SLOAD << I.SWAP1
    << I.SLOAD << splitExternalFunctionType
  else if negb (isValueType t) then
    with_ (sizeOnStack t) (fun s => need_ (s =? 1) (if remove then I.POP else I.DUP2))
  else
    keep << with_ (storageBytes t) (fun n =>
      if n =? 16 then I.POP << I.SLOAD
      else if n =? 32 then load_two
      else if n <? 16 then
        I.SWAP1 << I.SLOAD << I.SWAP1 << num 0x100 << I.EXP << I.SWAP1 << I.DIV
        << match t with
           | FixedPointType _ _ _ => fail
           | FixedBytesType _ => leftShiftNumberOnStack (128 - 8 * n)
           | IntegerType _ Signed => num (n - 1) << I.SIGNEXTEND
           | _ => with_ (sizeOnStack t) (fun s => need_ (s =? 1) (num (low_mask (8 * n)) << I.AND))
           end
      else
        with_ (storageSize t) (fun s => need_ (s =? 2)
          (load_two << match t with FixedBytesType n => leftShiftNumberOnStack2 (256 - 8 * n) | _ => emit [] end))).

(** Storing a value that shares its slot: the other bytes are kept. *)
Definition store_packed (t source : Type_) (n : Z) (words : Z) (move : bool) : gen :=
  num 0x100 << I.EXP
  << I.DUP2 << I.SLOAD
  << I.DUP2 << num (low_mask (8 * n)) << I.MUL
  << I.NOT << I.AND << I.SWAP1
  << copyToStackTop (3 + words) words
  << match t with
     | FunctionType _ _ _ _ _ _ _ => need_ (type_eqb source t) (num (low_mask (8 * n)) << I.AND)
     | FixedBytesType n =>
         need_ (match source with FixedBytesType _ => true | _ => false end) (rightShiftNumberOnStack (128 - 8 * n) false)
     | _ => need_ (words =? 1) (convertType source t true true false)
     end
  << I.MUL << I.OR
  << I.SWAP1 << I.SSTORE
  << (if move then popStackSlots words else emit []).

(** Storing a value of two slots that does not fill them. *)
Definition store_two (t source : Type_) (n : Z) (words : Z) (move : bool) : gen :=
  I.POP
  << (if move then rotateStackUp 3 else I.DUP3 << I.DUP3)
  << match t with
     | FunctionType _ _ _ _ _ _ _ => num (low_mask (8 * (n - 16))) << I.AND
     | FixedBytesType n =>
         need_ (match source with FixedBytesType _ => true | _ => false end) (rightShiftNumberOnStack2 (256 - 8 * n) false)
     | _ => need_ (words =? 2) (convertType source t true true false)
     end
  << I.DUP3 << I.SSTORE
  << I.SWAP1 << num 1 << I.ADD << I.SSTORE.

Definition StorageItem_storeValue (t source : Type_) (move : bool) : gen :=
  need_ (match t with FunctionType _ _ _ _ _ _ _ => type_eqb source t | _ => true end)
  (if is_external t then
    with_ (sizeOnStack t) (fun s => need_ (s =? 3)
      (I.POP
       << (if move then emit [] else I.DUP4 << I.DUP4 << I.DUP4 << rotateStackDown 4)
       << combineExternalFunctionType
       << I.DUP1 << I.SWAP2 << I.SWAP1 << I.SSTORE
       << I.DUP1 << I.SWAP2 << I.SWAP1 << num 1 << I.ADD << I.SSTORE
       << num 2 << I.ADD << I.SSTORE))
  else if isValueType t then
    with_ (storageBytes t) (fun n => with_ (sizeOnStack t) (fun words =>
      need_ ((n <=? 32) && (0 <? n))
      (if n =? 16 then
         need_ (words =? 1)
           (I.POP << (if move then emit [] else I.DUP2 << I.SWAP1)
            << I.SWAP1 << convertType source t true false false << I.SWAP1 << I.SSTORE)
       else if n =? 32 then
         need_ (words =? 2)
           (I.POP
            << (if move then rotateStackUp 3 << convertType source t true false false << rotateStackDown 3
                else I.DUP3 << I.DUP3 << convertType source t true false false << rotateStackDown 3)
            << I.DUP1 << num 1 << I.ADD << I.DUP4 << I.SWAP1 << I.SSTORE << I.SSTORE << I.POP)
       else if n <? 16 then store_packed t source n words move
       else store_two t source n words move)))
  else fail).

(** [StorageItem::setToZero]: of a struct, all members that are not mappings. *)
Fixpoint StorageItem_setToZero (t : Type_) (remove : bool) {struct t} : gen :=
  match t with
  | ArrayType _ _ _ _ _ => fail
  | StructType _ _ _ ms =>
      (fix members (l : list (string * Type_)) : gen :=
         match l with
         | [] => emit []
         | (name, m) :: l =>
             match m with
             | MappingType _ _ => emit []
             | _ => with_ (mjoin (memberStorageOffset ms name)) (fun '(slot, byte) =>
                 num slot << I.DUP3 << I.ADD << num byte << need_ (item_sizes_ok m) (StorageItem_setToZero m true))
             end << members l
         end) ms
      << (if remove then I.POP << I.POP else emit [])
  | _ =>
      need_ (isValueType t)
        ((if remove then emit [] else copyToStackTop 2 2)
         << with_ (storageBytes t) (fun n =>
              if 16 <? n then
                I.POP << I.DUP1 << num 0 << I.SWAP1 << I.SSTORE
                << num 1 << I.ADD << num 0 << I.SWAP1 << I.SSTORE
              else if n =? 16 then I.POP << num 0 << I.SWAP1 << I.SSTORE
              else
                num 0x100 << I.EXP << I.DUP2 << I.SLOAD
                << I.SWAP1 << num (low_mask (8 * n)) << I.MUL << I.NOT << I.AND
                << I.SWAP1 << I.SSTORE))
  end.

(** ** What an item holds *)

(** The types of the theorems: of signed integers those of one word or of all
    of two, functions without bound arguments and options. *)
Definition simple (t : Type_) : Prop :=
  match t with
  | IntegerType bits m => 8 <= bits <= 256 /\ bits mod 8 = 0 /\ (isSigned m = true -> bits <= 128 \/ bits = 256)
  | FixedBytesType n => 1 <= n <= 32
  | BoolType => True
  | ContractType _ super => super = false
  | FunctionType k _ _ _ g v b => (k = Internal \/ k = External) /\ g = false /\ v = false /\ b = false
  | _ => False
  end.

(** The number in the bytes of an item: a part of a slot, or whole slots with
    the first the highest. *)
Definition field (t : Type_) (p : Z * Z) (s : Z -> Z) : Z :=
  let '(slot, o) := p in
  match type_layout t with
  | Some (Some (n, size)) =>
      if size =? 1 then wrap (8 * n) (Z.shiftr (s slot) (8 * o))
      else if size =? 2 then Z.lor (Z.shiftl (s slot) 128) (s (slot + 1))
      else Z.lor (Z.shiftl (s slot) 256) (Z.lor (Z.shiftl (s (slot + 1)) 128) (s (slot + 2)))
  | _ => 0
  end.

(** The numbers that stand for values, and the words of those on the stack:
    integers with their sign, bytes aligned to the left, a function after its
    address. *)
Definition raw_ok (t : Type_) (x : Z) : Prop :=
  match t with
  | IntegerType bits _ => inw bits x
  | FixedBytesType n => inw (8 * n) x
  | BoolType => inw 1 x
  | ContractType _ _ => inw 256 x
  | FunctionType External _ _ _ _ _ _ => inw 288 x
  | FunctionType _ _ _ _ _ _ _ => inw 64 x
  | _ => False
  end.

Definition stack_words (t : Type_) (x : Z) : list Z :=
  match t with
  | IntegerType bits m => int_words bits (norm bits m x)
  | FixedBytesType n => if 16 <? n then two_words (wrap 256 (Z.shiftl x (256 - 8 * n))) else [wrap 128 (Z.shiftl x (128 - 8 * n))]
  | ContractType _ _ => two_words (wrap 256 x)
  | FunctionType External _ _ _ _ _ _ => wrap 32 (Z.shiftr x 256) :: two_words (wrap 256 x)
  | _ => [x]
  end.

(** A place for the item that its bytes fit into. *)
Definition position_ok (t : Type_) (p : Z * Z) : Prop :=
  match type_layout t with
  | Some (Some (n, size)) =>
      0 <= fst p /\ fst p + size <= 2 ^ 128 /\ 0 <= snd p /\ (if size =? 1 then snd p + n <= 16 else snd p = 0)
  | _ => False
  end.

(** The words of storage are words, and a written word is read back. *)
Record storage_ok {H} (X : Ctx H) : Prop := {
  st_word : forall h k, inw 128 (sload X h k);
  st_same : forall h k v, inw 128 k -> inw 128 v -> sload X (sstore X h k v) k = v;
  st_other : forall h k k' v, inw 128 k -> inw 128 k' -> k <> k' -> sload X (sstore X h k v) k' = sload X h k'
}.

(** The layouts of the simple types. *)
Lemma simple_layout t : simple t -> exists n size, type_layout t = Some (Some (n, size)) /\ storageBytes t = Some n /\
  match t with
  | IntegerType bits _ => bits = 8 * n /\ size = (if 128 <? bits then 2 else 1)
  | FixedBytesType n' => n = n' /\ size = (if 16 <? n then 2 else 1)
  | BoolType => n = 1 /\ size = 1
  | ContractType _ _ => n = 20 /\ size = 2
  | FunctionType External _ _ _ _ _ _ => n = 36 /\ size = 3
  | FunctionType _ _ _ _ _ _ _ => n = 8 /\ size = 1
  | _ => False
  end /\ 1 <= n <= 16 * size.
Proof.
  intros Ht. destruct t as [bits m | | | | | n | | c su | | | k ps rs c g v bd |]; cbn [simple] in Ht; try done.
  - pose proof (Z.div_mod bits 8 ltac:(lia)). exists (bits / 8), (if 128 <? bits then 2 else 1).
    split_and!; try done; destruct (Z.ltb_spec 128 bits); lia.
  - exists 1, 1. split_and!; done || lia.
  - exists n, (if 16 <? n then 2 else 1). split_and!; try done; destruct (Z.ltb_spec 16 n); lia.
  - exists 20, 2. split_and!; done || lia.
  - destruct Ht as ([-> | ->] & -> & -> & ->); [exists 8, 1 | exists 36, 3]; split_and!; done || lia.
Qed.

(** [operator==] is reflexive. *)
Lemma type_eqb_refl : forall t, type_eqb t t = true.
Proof.
  fix IH 1. assert (forall l, type_list_eqb type_eqb l l = true) as IHs by (fix IHl 1; intros [| t l]; cbn; [done |]; by rewrite IH, IHl).
  intros [| | | | | | loc ptr k b n | | | | k ps rs c g v bd |]; cbn [type_eqb];
    rewrite ?Z.eqb_refl, ?Pos.eqb_refl, ?eqb_reflx, ?bool_decide_true, ?IH, ?IHs by done; done.
Qed.

(** ** Reading *)

Ltac inw_bits := lazymatch goal with |- inw ?w ?z =>
  let E := fresh in assert (wrap w z = z) as E by bitwise; rewrite <- E; apply wrap_inw; lia end.

Section Items.
Context {H : Type} (X : Ctx H).
Hypothesis HS : storage_ok X.

Lemma pow_256 o : 0 <= o -> 0x100 ^ o = 2 ^ (8 * o).
Proof. intros Ho. change 0x100 with (2 ^ 8). by rewrite <- Z.pow_mul_r by lia. Qed.

Lemma wrap_256 o : 0 <= o < 16 -> wrap 128 (0x100 ^ o) = 2 ^ (8 * o).
Proof.
  intros Ho. rewrite pow_256 by lia. apply wrap_small. pose proof (Z.pow_lt_mono_r 2 (8 * o) 128). pose proof (pow2_pos (8 * o)). unfold inw. lia.
Qed.

Lemma slot_word slot k : 0 <= slot -> 0 <= k -> slot + k < 2 ^ 128 -> wrap 128 (k + slot) = slot + k.
Proof. intros. rewrite wrap_small; [lia | unfold inw; lia]. Qed.

Lemma shift_out_does o slot h : 0 <= o < 16 ->
  does X 4 (I.SWAP1 << I.SLOAD << I.SWAP1 << num 0x100 << I.EXP << I.SWAP1 << I.DIV) [o; slot] h [Z.shiftr (sload X h slot) (8 * o)] h.
Proof.
  intros Ho. runs idtac; [| done]. rewrite wrap_256, Z.shiftr_div_pow2 by lia. by rewrite (proj2 (Z.eqb_neq _ _)) by (pose proof (pow2_pos (8 * o)); lia).
Qed.

Lemma load_two_does o slot h : 0 <= slot -> slot + 1 < 2 ^ 128 ->
  does X 4 load_two [o; slot] h [sload X h slot; sload X h (slot + 1)] h.
Proof. intros Hs1 Hs2. unfold load_two. runs idtac; [| done]. by rewrite slot_word by lia. Qed.

Lemma lor_two a b : inw 128 a -> inw 128 b -> two_words (wrap 256 (Z.lor (Z.shiftl a 128) b)) = [a; b].
Proof. intros Ha Hb. rewrite two_words_wrap. f_equal; [| f_equal]; bitwise. Qed.

Lemma mask_does cap n y h : (2 <= cap)%nat -> 0 <= n <= 16 -> does X cap (num (low_mask (8 * n)) << I.AND) [y] h [wrap (8 * n) y] h.
Proof. intros Hc Hn. apply (does_mono X 2); [done |]. runs idtac; [| done]. by rewrite low_mask_land by lia. Qed.

(** The sign of the value read from a part of a slot. *)
Lemma sign_does n y h : 1 <= n <= 15 ->
  does X 8 (num (n - 1) << I.SIGNEXTEND) [y] h [wrap 128 (norm (8 * n) Signed (wrap (8 * n) y))] h.
Proof.
  intros Hn. runs idtac; [| done]. unfold op_signextend. rewrite (proj2 (Z.leb_le _ _)) by lia.
  replace (8 * (n - 1) + 8) with (8 * n) by lia. f_equal. f_equal. unfold norm. change (isSigned Signed) with true. cbv iota.
  by rewrite (wrap_small _ (wrap _ y)) by (apply wrap_inw; lia).
Qed.

Lemma whole_slot slot o h : o = 0 -> wrap 128 (Z.shiftr (sload X h slot) (8 * o)) = sload X h slot.
Proof. intros ->. rewrite Z.shiftr_0_r. apply wrap_small, (st_word X HS). Qed.

(** The words of an integer that fills two slots. *)
Lemma two_slots_norm bits m x : 128 < bits <= 256 -> inw bits x -> (isSigned m = true -> bits = 256) -> wrap 256 (norm bits m x) = wrap 256 x.
Proof.
  intros Hb Hx Hm. destruct (isSigned m) eqn:E.
  - rewrite Hm by done. bits_norm.
  - unfold norm. by rewrite E, (wrap_small bits).
Qed.

Lemma retrieve_integer bits m slot o h : simple (IntegerType bits m) -> position_ok (IntegerType bits m) (slot, o) ->
  raw_ok (IntegerType bits m) (field (IntegerType bits m) (slot, o) (sload X h)) ->
  does X 8 (StorageItem_retrieveValue (IntegerType bits m) true) [o; slot] h
    (stack_words (IntegerType bits m) (field (IntegerType bits m) (slot, o) (sload X h))) h.
Proof.
  intros Ht Hp. destruct (simple_layout _ Ht) as (n & size & El & En & [-> Hsize] & Hb). cbn [simple] in Ht.
  unfold position_ok in Hp. unfold field. rewrite El in Hp |- *. cbn [fst snd] in *.
  unfold StorageItem_retrieveValue, stack_words, int_words, raw_ok. rewrite En. cbn [with_ is_external isValueType negb].
  destruct (Z.ltb_spec 128 (8 * n)) as [Hl | Hl]; subst size.
  - change (2 =? 1) with false in *. change (2 =? 2) with true. cbv iota in *. intros Hx.
    rewrite two_slots_norm, lor_two by (try apply (st_word X HS); try done; try lia; intros Em; destruct (proj2 (proj2 Ht) Em); lia).
    destruct (Z.eqb_spec n 16); [lia |]. destruct (Z.eqb_spec n 32).
    + runs ltac:(eapply does_mono; [| apply load_two_does; lia]; lia); done.
    + rewrite (proj2 (Z.ltb_ge n 16)) by lia. cbn [with_ storageSize storageSize_in]. rewrite (proj2 (Z.ltb_lt 128 _)) by lia.
      change (2 =? 2) with true. cbn [need_].
      runs ltac:(eapply does_mono; [| apply load_two_does; lia]; lia); done.
  - change (1 =? 1) with true in *. cbv iota in *. intros _. destruct (Z.eqb_spec n 16) as [-> | Hn].
    + change (8 * 16) with 128. rewrite whole_slot by lia. runs idtac; [| done]. f_equal.
      pose proof (st_word X HS h slot). bits_norm.
    + rewrite (proj2 (Z.eqb_neq n 32)), (proj2 (Z.ltb_lt n 16)) by lia.
      eapply does_seq; [apply does_nothing |]. eapply does_seq; [eapply does_mono; [| apply shift_out_does; lia]; lia |].
      destruct m; [| apply sign_does; lia |].
      all: cbn [with_ sizeOnStack]; rewrite (proj2 (Z.ltb_ge 128 _)) by lia; change (1 =? 1) with true; cbn [need_].
      all: eapply does_eq; [apply mask_does; lia | | done]; f_equal; bits_norm.
Qed.

Lemma retrieve_bytes n slot o h : simple (FixedBytesType n) -> position_ok (FixedBytesType n) (slot, o) ->
  does X 8 (StorageItem_retrieveValue (FixedBytesType n) true) [o; slot] h
    (stack_words (FixedBytesType n) (field (FixedBytesType n) (slot, o) (sload X h))) h.
Proof.
  intros Ht Hp. destruct (simple_layout _ Ht) as (n' & size & El & En & [-> Hsize] & Hb).
  unfold position_ok in Hp. unfold field. rewrite El in Hp |- *. cbn [fst snd] in *.
  unfold StorageItem_retrieveValue, stack_words. rewrite En. cbn [with_ is_external isValueType negb].
  pose proof (st_word X HS h slot) as W0. pose proof (st_word X HS h (slot + 1)) as W1.
  destruct (Z.ltb_spec 16 n) as [Hl | Hl]; subst size.
  - change (2 =? 1) with false in *. change (2 =? 2) with true. cbv iota in *. rewrite (proj2 (Z.eqb_neq n 16)) by lia.
    destruct (Z.eqb_spec n 32) as [-> |].
    + rewrite Z.shiftl_0_r, lor_two by done. runs ltac:(eapply does_mono; [| apply load_two_does; lia]; lia); done.
    + rewrite (proj2 (Z.ltb_ge n 16)) by lia. cbn [with_ storageSize storageSize_in]. rewrite (proj2 (Z.ltb_lt 16 n)) by lia.
      change (2 =? 2) with true. cbn [need_]. eapply does_seq; [apply does_nothing |].
      eapply does_seq; [eapply does_mono; [| apply load_two_does; lia]; lia |]. rewrite <- (lor_two _ _ W0 W1).
      rewrite (wrap_small 256 (Z.lor _ _)); [eapply does_mono; [| apply leftShift2_does; [lia |]]; [lia |] |];
        inw_bits.
  - change (1 =? 1) with true in *. cbv iota in *. destruct (Z.eqb_spec n 16) as [-> | Hn].
    + change (8 * 16) with 128. rewrite whole_slot, Z.shiftl_0_r by lia. runs idtac; [| done]. by rewrite wrap_small.
    + rewrite (proj2 (Z.eqb_neq n 32)), (proj2 (Z.ltb_lt n 16)) by lia.
      eapply does_seq; [apply does_nothing |]. eapply does_seq; [eapply does_mono; [| apply shift_out_does; lia]; lia |].
      eapply does_eq; [apply leftShift_top; [lia | | cbn; lia] | | done]; [| f_equal; bitwise].
      inw_bits.
Qed.

(** Reading gives the words of the value that the item holds. *)
Lemma retrieve_does t p h : simple t -> position_ok t p -> raw_ok t (field t p (sload X h)) ->
  does X 8 (StorageItem_retrieveValue t true) [snd p; fst p] h (stack_words t (field t p (sload X h))) h.
Proof.
  destruct p as [slot o]. cbn [fst snd]. intros Ht Hp.
  destruct t as [bits m | | | | | n | | c su | | | k ps rs c g v bd |]; try done; intros Hx;
    [by apply retrieve_integer | | by apply retrieve_bytes | |]; clear Hx.
  - cbn in Hp. eapply does_seq; [apply does_nothing |]. cbn [with_ storageBytes]. change (1 =? 16) with false. change (1 =? 32) with false.
    change (1 <? 16) with true. cbv iota. eapply does_seq; [eapply does_mono; [| apply shift_out_does; lia]; lia |].
    apply (mask_does 8 1); lia.
  - cbn in Hp. unfold stack_words, field. change (type_layout (ContractType c su)) with (Some (Some (20, 2))).
    cbv iota beta. change (2 =? 1) with false. change (2 =? 2) with true. cbv iota. rewrite lor_two by apply (st_word X HS).
    runs ltac:(eapply does_mono; [| apply load_two_does; lia]; lia); done.
  - destruct Ht as ([-> | ->] & -> & -> & ->).
    + change (0 <= slot /\ slot + 1 <= 2 ^ 128 /\ 0 <= o /\ o + 8 <= 16) in Hp. eapply does_seq; [apply does_nothing |]. cbn [with_ storageBytes]. change (8 =? 16) with false. change (8 =? 32) with false.
      change (8 <? 16) with true. cbv iota. eapply does_seq; [eapply does_mono; [| apply shift_out_does; lia]; lia |].
      apply (mask_does 8 8); lia.
    + change (0 <= slot /\ slot + 3 <= 2 ^ 128 /\ 0 <= o /\ o = 0) in Hp.
      unfold field. change (type_layout (FunctionType External ps rs c false false false)) with (Some (Some (36, 3))).
      cbv iota beta. change (3 =? 1) with false. change (3 =? 2) with false. cbv iota. unfold StorageItem_retrieveValue, splitExternalFunctionType.
      change (is_external (FunctionType External ps rs c false false false)) with true. cbv iota.
      pose proof (st_word X HS h slot) as W0. pose proof (st_word X HS h (slot + 1)) as W1. pose proof (st_word X HS h (slot + 2)) as W2.
      runs idtac; [| done]. unfold stack_words. rewrite !slot_word by lia. change 0xffffffff with (low_mask 32). rewrite low_mask_land by lia.
      rewrite two_words_wrap. f_equal; [bitwise |]. f_equal; [bitwise |]. f_equal. bitwise.
Qed.

(** ** Writing *)

(** After the host became [h'] the item holds [x], and no bit outside of its
    bytes has changed. *)
Definition stored (t : Type_) (p : Z * Z) (x : Z) (h h' : H) : Prop :=
  field t p (sload X h') = x /\
  forall k i, inw 128 k -> 0 <= i < 128 -> ~ occupies t p (16 * k + i / 8) -> Z.testbit (sload X h' k) i = Z.testbit (sload X h k) i.

Lemma not_bit y i : inw 128 y -> 0 <= i < 128 -> Z.testbit (2 ^ 128 - 1 - y) i = negb (Z.testbit y i).
Proof.
  intros Hy Hi. rewrite <- Z.lnot_spec by lia. replace (2 ^ 128 - 1 - y) with (wrap 128 (Z.lnot y)).
  - rewrite wrap_bit by lia. by rewrite (proj2 (Z.ltb_lt _ _)) by lia.
  - unfold wrap, Z.lnot. unfold inw in Hy. symmetry. apply (Z.mod_unique_pos _ _ (-1)); lia.
Qed.

(** The word with a part replaced. *)
Definition merge (w o n x : Z) : Z :=
  Z.lor (wrap 128 (x * 2 ^ (8 * o))) (Z.land (2 ^ 128 - 1 - wrap 128 (low_mask (8 * n) * 2 ^ (8 * o))) w).

Lemma low_mask_bit n i : 0 <= n <= 128 -> 0 <= i -> Z.testbit (low_mask n) i = (i <? n).
Proof.
  intros Hn Hi. replace (low_mask n) with (Z.land (low_mask n) (-1)) by apply Z.land_m1_r. rewrite low_mask_land, wrap_bit, Z.bits_m1 by lia.
  apply andb_true_r.
Qed.

Lemma merge_bit w o n x i : inw 128 w -> inw (8 * n) x -> 1 <= n -> 0 <= o -> o + n <= 16 -> 0 <= i < 128 ->
  Z.testbit (merge w o n x) i = if (8 * o <=? i) && (i <? 8 * o + 8 * n) then Z.testbit x (i - 8 * o) else Z.testbit w i.
Proof.
  intros Hw Hx Hn Ho Hon Hi. unfold merge. rewrite <- !Z.shiftl_mul_pow2, Z.lor_spec, Z.land_spec by lia.
  rewrite not_bit by (try apply wrap_inw; lia). rewrite !wrap_bit, !Z.shiftl_spec, (proj2 (Z.ltb_lt i 128)) by lia. cbn [andb].
  destruct (Z.leb_spec (8 * o) i) as [Hl | Hl]; cbn [andb].
  - rewrite low_mask_bit by lia. destruct (Z.ltb_spec (i - 8 * o) (8 * n)), (Z.ltb_spec i (8 * o + 8 * n)); try lia; cbn [negb andb].
    + apply orb_false_r.
    + by rewrite (inw_testbit (8 * n) x) by (done || lia).
  - by rewrite !Z.testbit_neg_r by lia.
Qed.

Lemma merge_inw w o n x : inw 128 w -> inw 128 (merge w o n x).
Proof.
  intros Hw. unfold merge. apply lor_inw; [lia | apply wrap_inw; lia |].
  assert (wrap 128 (Z.land (2 ^ 128 - 1 - wrap 128 (low_mask (8 * n) * 2 ^ (8 * o))) w) =
    Z.land (2 ^ 128 - 1 - wrap 128 (low_mask (8 * n) * 2 ^ (8 * o))) w) as <-; [| apply wrap_inw; lia].
  apply Z.bits_inj'. intros i Hi. rewrite wrap_bit, Z.land_spec by lia. destruct (Z.ltb_spec i 128); [done |].
  by rewrite (inw_testbit 128 w i), andb_false_r by (done || lia).
Qed.

(** Writing the part of a slot. *)
Lemma stored_word t p n x h W : type_layout t = Some (Some (n, 1)) -> position_ok t p -> 1 <= n -> inw (8 * n) x -> inw 128 W ->
  (forall i, 0 <= i < 128 -> Z.testbit W i =
     if (8 * snd p <=? i) && (i <? 8 * snd p + 8 * n) then Z.testbit x (i - 8 * snd p) else Z.testbit (sload X h (fst p)) i) ->
  stored t p x h (sstore X h (fst p) W).
Proof.
  intros El Hp Hn Hx HW Hbits. unfold position_ok in Hp. rewrite El in Hp. change (1 =? 1) with true in Hp. cbv iota in Hp.
  destruct p as [slot o]. cbn [fst snd] in *. assert (inw 128 slot) as Hs by (unfold inw; lia). split.
  - unfold field. rewrite El. change (1 =? 1) with true. cbv iota. rewrite (st_same X HS) by done.
    apply Z.bits_inj'. intros i Hi. rewrite wrap_bit by lia. destruct (Z.ltb_spec i (8 * n)).
    + rewrite Z.shiftr_spec, Hbits by lia. rewrite (proj2 (Z.leb_le _ _)), (proj2 (Z.ltb_lt _ _)) by lia. cbn [andb]. f_equal. lia.
    + by rewrite (inw_testbit (8 * n) x) by (done || lia).
  - intros k i Hk Hi Ho. destruct (Z.eq_dec k slot) as [-> | Hne]; [| by rewrite (st_other X HS)].
    rewrite (st_same X HS), Hbits by done || lia. destruct (_ && _) eqn:E; [| done]. exfalso. apply Ho.
    unfold occupies. rewrite El. rewrite andb_true_iff, Z.leb_le, Z.ltb_lt in E. unfold start, extent. cbn [fst snd].
    rewrite (proj2 (Z.leb_le n 16)) by lia. cbn [Z.eqb Pos.eqb andb]. pose proof (Z.div_mod i 8 ltac:(lia)). pose proof (Z.mod_pos_bound i 8 ltac:(lia)). lia.
Qed.

Lemma stored_merge t slot o n x h : type_layout t = Some (Some (n, 1)) -> position_ok t (slot, o) -> 1 <= n -> inw (8 * n) x ->
  stored t (slot, o) x h (sstore X h slot (merge (sload X h slot) o n x)).
Proof.
  intros El Hp Hn Hx. eapply (stored_word _ (slot, o)); try done; [apply merge_inw, (st_word X HS) |].
  unfold position_ok in Hp. rewrite El in Hp. cbn [fst snd Z.eqb Pos.eqb] in *. intros i Hi. apply merge_bit; try done; try lia. apply (st_word X HS).
Qed.

Lemma stored_slot t slot o x h : type_layout t = Some (Some (16, 1)) -> position_ok t (slot, o) -> inw 128 x ->
  stored t (slot, o) x h (sstore X h slot x).
Proof.
  intros El Hp Hx. eapply (stored_word _ (slot, o)); try done. unfold position_ok in Hp. rewrite El in Hp. cbn [fst snd Z.eqb Pos.eqb] in *.
  intros i Hi. replace o with 0 by lia. rewrite (proj2 (Z.leb_le _ _)), (proj2 (Z.ltb_lt _ _)) by lia. cbn [andb]. f_equal. lia.
Qed.

(** Writing whole slots. *)
Lemma stored_two t p n x h h' : type_layout t = Some (Some (n, 2)) -> position_ok t p -> inw 256 x ->
  [sload X h' (fst p); sload X h' (fst p + 1)] = two_words x ->
  (forall k, inw 128 k -> k <> fst p -> k <> fst p + 1 -> sload X h' k = sload X h k) -> stored t p x h h'.
Proof.
  intros El Hp Hx [= E1 E2] Hother. unfold position_ok in Hp. rewrite El in Hp. change (2 =? 1) with false in Hp. cbv iota in Hp.
  destruct p as [slot o]. cbn [fst snd] in *. split.
  - unfold field. rewrite El. change (2 =? 1) with false. change (2 =? 2) with true. cbv iota. rewrite E1, E2. bitwise.
  - intros k i Hk Hi Ho. rewrite Hother; [done | done | |]; intros ->; apply Ho; unfold occupies; rewrite El;
      unfold start, extent; cbn [fst snd Z.eqb Pos.eqb andb]; pose proof (Z.div_pos i 8); pose proof (Z.div_lt_upper_bound i 8 16); lia.
Qed.

Lemma stored_three t p n x h h' : type_layout t = Some (Some (n, 3)) -> position_ok t p -> inw 384 x ->
  sload X h' (fst p) = Z.shiftr x 256 -> [sload X h' (fst p + 1); sload X h' (fst p + 2)] = two_words (wrap 256 x) ->
  (forall k, inw 128 k -> k <> fst p -> k <> fst p + 1 -> k <> fst p + 2 -> sload X h' k = sload X h k) -> stored t p x h h'.
Proof.
  intros El Hp Hx E0 [= E1 E2] Hother. unfold position_ok in Hp. rewrite El in Hp. change (3 =? 1) with false in Hp. cbv iota in Hp.
  destruct p as [slot o]. cbn [fst snd] in *. split.
  - unfold field. rewrite El. change (3 =? 1) with false. change (3 =? 2) with false. cbv iota. rewrite E0, E1, E2. bitwise.
  - intros k i Hk Hi Ho. rewrite Hother; [done | done | | |]; intros ->; apply Ho; unfold occupies; rewrite El;
      unfold start, extent; cbn [fst snd Z.eqb Pos.eqb andb]; pose proof (Z.div_pos i 8); pose proof (Z.div_lt_upper_bound i 8 16); lia.
Qed.

(** The code for a part of a slot, around the code [conv] that makes the number
    from the value. *)
Lemma packed_does n conv v x slot o h : 0 <= o < 16 -> does X 4 conv [v] h [x] h ->
  does X 16
    (num 0x100 << I.EXP << I.DUP2 << I.SLOAD << I.DUP2 << num (low_mask (8 * n)) << I.MUL << I.NOT << I.AND << I.SWAP1
     << copyToStackTop (3 + 1) 1 << conv << I.MUL << I.OR << I.SWAP1 << I.SSTORE << popStackSlots 1)
    [o; slot; v] h [] (sstore X h slot (merge (sload X h slot) o n x)).
Proof.
  intros Ho Hc. change (copyToStackTop (3 + 1) 1) with (I.DUP4 << emit []). change (popStackSlots 1) with (I.POP << emit []).
  runs ltac:(eapply (does_top X 4 16 conv [v] h [x] h _ Hc); cbn; lia); [done |].
  unfold merge. by rewrite wrap_256 by done.
Qed.

(** The code for a whole slot. *)
Lemma store_slot_does conv v slot o h : does X 4 conv [v] h [v] h ->
  does X 16 (I.POP << emit [] << I.SWAP1 << conv << I.SWAP1 << I.SSTORE) [o; slot; v] h [] (sstore X h slot v).
Proof. intros Hc. runs ltac:(eapply (does_top X 4 16 conv [v] h [v] h _ Hc); cbn; lia); done. Qed.

(** The code for two slots that a value does not fill. *)
Lemma store_two_does conv v0 v1 y0 y1 slot o h : 0 <= slot -> slot + 1 < 2 ^ 128 -> does X 4 conv [v0; v1] h [y0; y1] h ->
  does X 16
    (I.POP << rotateStackUp 3 << conv << I.DUP3 << I.SSTORE << I.SWAP1 << num 1 << I.ADD << I.SSTORE)
    [o; slot; v0; v1] h [] (sstore X (sstore X h slot y0) (slot + 1) y1).
Proof.
  intros Hs1 Hs2 Hc. change (rotateStackUp 3) with (emit [] << I.SWAP2 << I.SWAP1).
  runs ltac:(eapply (does_top X 4 16 conv [v0; v1] h [y0; y1] h _ Hc); cbn; lia); [done |].
  by rewrite slot_word by done.
Qed.

(** The code for two slots that a value fills. *)
Lemma store_full_does conv v0 v1 slot o h : 0 <= slot -> slot + 1 < 2 ^ 128 -> does X 4 conv [v0; v1] h [v0; v1] h ->
  does X 16
    (I.POP << (rotateStackUp 3 << conv << rotateStackDown 3)
     << I.DUP1 << num 1 << I.ADD << I.DUP4 << I.SWAP1 << I.SSTORE << I.SSTORE << I.POP)
    [o; slot; v0; v1] h [] (sstore X (sstore X h (slot + 1) v1) slot v0).
Proof.
  intros Hs1 Hs2 Hc. change (rotateStackUp 3) with (emit [] << I.SWAP2 << I.SWAP1). change (rotateStackDown 3) with (emit [] << I.SWAP1 << I.SWAP2).
  runs ltac:(eapply (does_top X 4 16 conv [v0; v1] h [v0; v1] h _ Hc); cbn; lia); [done |].
  by rewrite slot_word by done.
Qed.

Lemma stored_pair t p n x h y0 y1 : type_layout t = Some (Some (n, 2)) -> position_ok t p -> inw 256 x -> two_words x = [y0; y1] ->
  stored t p x h (sstore X (sstore X h (fst p) y0) (fst p + 1) y1) /\ stored t p x h (sstore X (sstore X h (fst p + 1) y1) (fst p) y0).
Proof.
  intros El Hp Hx Hy. pose proof Hp as Hp'. unfold position_ok in Hp'. rewrite El in Hp'.
  assert (inw 128 y0 /\ inw 128 y1) as [Hy0 Hy1].
  { injection Hy as <- <-. split; [by apply high_word | apply low_word]. }
  assert (inw 128 (fst p) /\ inw 128 (fst p + 1)) as [Hs0 Hs1] by (unfold inw; lia).
  split; (eapply stored_two; [done | done | done | rewrite Hy; f_equal; [| f_equal] | intros k Hk Hk0 Hk1]);
    rewrite ?(st_same X HS), ?(st_other X HS), ?(st_same X HS), ?(st_other X HS) by (done || lia); done.
Qed.

(** Cleaning an integer for its place. *)
Lemma convert_self_does bits m x chop h : simple (IntegerType bits m) -> inw bits x -> (chop = true -> isSigned m = true -> bits < 128) ->
  does X 4 (convertType (IntegerType bits m) (IntegerType bits m) true chop false) (int_words bits (norm bits m x)) h
    (if chop && isSigned m then [x] else int_words bits (norm bits m x)) h.
Proof.
  intros Ht Hx Hchop. cbn [simple] in Ht. unfold convertType. rewrite andb_false_r. cbn [convert_from_number convert_to_integer with_].
  rewrite Z.ltb_irrefl, Z.ltb_irrefl. cbv iota.
  assert (does X 4 (cleanHigherOrderBits bits m) (int_words bits (norm bits m x)) h (int_words bits (norm bits m x)) h) as Hclean.
  { eapply does_mono; [| eapply does_eq; [apply clean_words; [lia | easy] | | done]]; [lia |]. f_equal. bits_norm. }
  destruct (chop && isSigned m) eqn:E.
  - apply andb_prop in E as [-> Em]. specialize (Hchop eq_refl Em). rewrite (proj2 (Z.ltb_lt _ _)) by lia.
    unfold int_words in *. rewrite (proj2 (Z.ltb_ge 128 bits)) in * by lia.
    runs ltac:(exact Hclean); [| done]. f_equal. rewrite low_mask_land by lia. bits_norm.
  - runs ltac:(exact Hclean); done.
Qed.

Lemma store_integer bits m x slot o h : simple (IntegerType bits m) -> position_ok (IntegerType bits m) (slot, o) -> inw bits x ->
  exists h', does X 16 (StorageItem_storeValue (IntegerType bits m) (IntegerType bits m) true)
    (o :: slot :: stack_words (IntegerType bits m) x) h [] h' /\ stored (IntegerType bits m) (slot, o) x h h'.
Proof.
  intros Ht Hp Hx. destruct (simple_layout _ Ht) as (n & size & El & En & [-> Hsize] & Hb).
  pose proof Hp as Hp'. unfold position_ok in Hp'. rewrite El in Hp'. cbn [fst snd] in Hp'.
  pose proof (fun chop => convert_self_does (8 * n) m x chop h Ht Hx) as Hc. cbn [simple] in Ht.
  unfold StorageItem_storeValue. cbn [need_ is_external isValueType]. rewrite En. cbn [with_ sizeOnStack]. unfold stack_words, int_words in *.
  rewrite (proj2 (Z.leb_le n 32)), (proj2 (Z.ltb_lt 0 n)) by lia. cbn [andb need_].
  destruct (Z.ltb_spec 128 (8 * n)) as [Hl | Hl]; subst size.
  - rewrite two_slots_norm, wrap_small in * by (try done; try lia; try (eapply inw_mono; [| exact Hx]; lia); intros Em; destruct (proj2 (proj2 Ht) Em); lia).
    change (2 =? 1) with false in Hp'. cbv iota in Hp'. rewrite (proj2 (Z.eqb_neq n 16)) by lia.
    destruct (stored_pair _ _ n x h _ _ El Hp ltac:(eapply inw_mono; [| exact Hx]; lia) eq_refl) as [Hs1 Hs2].
    destruct (Z.eqb_spec n 32) as [-> | Hn].
    + eexists. split; [apply store_full_does; [lia | lia |] | exact Hs2]. apply (Hc false). done.
    + rewrite (proj2 (Z.ltb_ge n 16)) by lia. eexists. split; [apply store_two_does; [lia | lia |] | exact Hs1].
      assert (isSigned m = false) as Em by (destruct (isSigned m); [destruct (proj2 (proj2 Ht) eq_refl); lia | done]).
      change (2 =? 2) with true. cbn [need_]. eapply does_eq; [apply (Hc true) | | done]; rewrite Em; done.
  - change (1 =? 1) with true in *. cbv iota in Hp'. destruct (Z.eqb_spec n 16) as [-> | Hn].
    + assert (wrap 128 (norm (8 * 16) m x) = x) as E by (change (8 * 16) with 128 in *; bits_norm). rewrite E in Hc |- *.
      eexists. split; [apply store_slot_does |].
      * eapply does_eq; [apply (Hc false); done | done | done].
      * by apply stored_slot.
    + rewrite (proj2 (Z.eqb_neq n 32)), (proj2 (Z.ltb_lt n 16)) by lia. eexists. split; [apply packed_does; [lia |] |].
      * cbn [need_ Z.eqb Pos.eqb]. eapply does_eq; [apply (Hc true); lia | | done].
        cbn [andb]. destruct (isSigned m) eqn:Em; [done |]. f_equal. unfold norm. rewrite Em, (wrap_small (8 * n)) by done.
        apply wrap_small. eapply inw_mono; [| exact Hx]; lia.
      * apply stored_merge; done || lia.
Qed.

(** Cleaning bytes that fill their words changes nothing. *)
Lemma convert_bytes_does v0 v1 h : inw 128 v1 ->
  does X 4 (convertType (FixedBytesType 16) (FixedBytesType 16) true false false) [v1] h [v1] h /\
  does X 4 (convertType (FixedBytesType 32) (FixedBytesType 32) true false false) [v0; v1] h [v0; v1] h.
Proof.
  intros Hv. assert (Z.land (2 ^ 128 - 1 - 0) v1 = v1) as E.
  { rewrite Z.land_comm. change (2 ^ 128 - 1 - 0) with (Z.ones 128). rewrite Z.land_ones by lia. by apply wrap_small. }
  split.
  - change (convertType (FixedBytesType 16) (FixedBytesType 16) true false false) with (emit [] << (num 0 << I.NOT << I.AND)).
    runs idtac; [by rewrite E | done].
  - change (convertType (FixedBytesType 32) (FixedBytesType 32) true false false) with (emit [] << (I.SWAP1 << num 0 << I.NOT << I.AND << I.SWAP1)).
    runs idtac; [by rewrite E | done].
Qed.

Lemma store_bytes n x slot o h : simple (FixedBytesType n) -> position_ok (FixedBytesType n) (slot, o) -> inw (8 * n) x ->
  exists h', does X 16 (StorageItem_storeValue (FixedBytesType n) (FixedBytesType n) true)
    (o :: slot :: stack_words (FixedBytesType n) x) h [] h' /\ stored (FixedBytesType n) (slot, o) x h h'.
Proof.
  intros Ht Hp Hx. destruct (simple_layout _ Ht) as (n' & size & El & En & [-> Hsize] & Hb).
  pose proof Hp as Hp'. unfold position_ok in Hp'. rewrite El in Hp'. cbn [fst snd] in Hp'. cbn [simple] in Ht.
  unfold StorageItem_storeValue. cbn [need_ is_external isValueType]. rewrite En. cbn [with_ sizeOnStack]. unfold stack_words.
  rewrite (proj2 (Z.leb_le n 32)), (proj2 (Z.ltb_lt 0 n)) by lia. cbn [andb need_].
  destruct (Z.ltb_spec 16 n) as [Hl | Hl]; subst size.
  - change (2 =? 1) with false in Hp'. cbv iota in Hp'. rewrite (proj2 (Z.eqb_neq n 16)) by lia.
    assert (inw 256 x) as Hx' by (eapply inw_mono; [| exact Hx]; lia).
    destruct (stored_pair _ _ n x h _ _ El Hp Hx' eq_refl) as [Hs1 Hs2].
    destruct (Z.eqb_spec n 32) as [-> | Hn].
    + rewrite Z.shiftl_0_r, wrap_small by done. change (2 =? 2) with true. cbn [need_].
      eexists. split; [apply store_full_does; [lia | lia |] | exact Hs2]. apply (proj2 (convert_bytes_does _ (wrap 128 x) h (low_word x))).
    + rewrite (proj2 (Z.ltb_ge n 16)) by lia. eexists. split; [apply store_two_does; [lia | lia |] | exact Hs1].
      cbn [need_]. eapply does_eq; [apply rightShift2_does; [lia | apply wrap_inw; lia] | | done]. fold (two_words x). f_equal. bitwise.
  - change (1 =? 1) with true in *. cbv iota in Hp'. destruct (Z.eqb_spec n 16) as [-> | Hn].
    + rewrite Z.shiftl_0_r, wrap_small by done. cbn [need_].
      eexists. split; [apply store_slot_does | by apply stored_slot]. by apply convert_bytes_does.
    + rewrite (proj2 (Z.eqb_neq n 32)), (proj2 (Z.ltb_lt n 16)) by lia. eexists. split; [apply (packed_does n _ _ x); [lia |] |].
      * cbn [need_]. eapply does_mono; [| eapply does_eq; [apply rightShift_does; lia | | done]]; [lia |]. f_equal. bitwise.
      * apply stored_merge; done || lia.
Qed.

(** External functions take the slot they are stored at modulo 2^32. *)
Lemma store_external_does ps rs c slot o f v0 v1 h (k := wrap 32 slot) :
  does X 16 (StorageItem_storeValue (FunctionType External ps rs c false false false) (FunctionType External ps rs c false false false) true)
    [o; slot; f; v0; v1] h [] (sstore X (sstore X (sstore X h k f) (k + 1) v0) (k + 2) v1).
Proof.
  assert (inw 32 k) as Hk by (apply wrap_inw; lia). unfold inw in Hk. unfold StorageItem_storeValue. rewrite type_eqb_refl.
  change (is_external (FunctionType External ps rs c false false false)) with true. cbn [need_].
  change (sizeOnStack (FunctionType External ps rs c false false false)) with (Some 3). cbn [with_]. change (3 =? 3) with true. cbn [need_].
  unfold combineExternalFunctionType. runs idtac; [done |]. change 0xffffffff with (low_mask 32). rewrite !low_mask_land by lia.
  fold k. by rewrite !slot_word by lia.
Qed.

Lemma store_external ps rs c x slot o h (t := FunctionType External ps rs c false false false) :
  position_ok t (slot, o) -> slot < 2 ^ 32 -> inw 288 x ->
  exists h', does X 16 (StorageItem_storeValue t t true) (o :: slot :: stack_words t x) h [] h' /\ stored t (slot, o) x h h'.
Proof.
  intros Hp Hs Hx. change (0 <= slot /\ slot + 3 <= 2 ^ 128 /\ 0 <= o /\ o = 0) in Hp. eexists. split; [apply store_external_does |]. rewrite (wrap_small 32 slot) by (unfold inw; lia).
  assert (inw 32 (Z.shiftr x 256)) as Hf by inw_bits. rewrite (wrap_small 32) by done.
  assert (inw 128 slot /\ inw 128 (slot + 1) /\ inw 128 (slot + 2)) as (H0 & H1 & H2) by (unfold inw; lia).
  assert (inw 128 (Z.shiftr x 256)) by (eapply inw_mono; [| exact Hf]; lia).
  assert (inw 128 (Z.shiftr (wrap 256 x) 128)) by (apply high_word, wrap_inw; lia).
  pose proof (low_word (wrap 256 x)).
  eapply (stored_three t (slot, o) 36); try done; [by eapply inw_mono; [| exact Hx]; lia | | |]; cbn [fst snd].
  - by rewrite !(st_other X HS), (st_same X HS) by (done || lia).
  - unfold two_words. f_equal; [| f_equal]; [by rewrite (st_other X HS), (st_same X HS) by (done || lia) | by rewrite (st_same X HS)].
  - intros k Hk Hk0 Hk1 Hk2. by rewrite !(st_other X HS) by (done || lia).
Qed.

(** Writing a value takes it and its position from the stack and changes the
    bytes of the item only. *)
Lemma store_does t p x h : simple t -> position_ok t p -> raw_ok t x -> (is_external t = true -> fst p < 2 ^ 32) ->
  exists h', does X 16 (StorageItem_storeValue t t true) (snd p :: fst p :: stack_words t x) h [] h' /\ stored t p x h h'.
Proof.
  destruct p as [slot o]. cbn [fst snd]. intros Ht Hp Hx He.
  destruct t as [bits m | | | | | n | | c su | | | k ps rs c g v bd |]; try done; [by apply store_integer | | by apply store_bytes | |].
  - change (0 <= slot /\ slot + 1 <= 2 ^ 128 /\ 0 <= o /\ o + 1 <= 16) in Hp.
    eexists. split; [apply (packed_does 1 _ _ x); [lia |] | apply stored_merge; [done | done | lia |]].
    + change (need_ (1 =? 1) (convertType BoolType BoolType true true false)) with (I.ISZERO << I.ISZERO).
      unfold raw_ok, inw in Hx. runs idtac; [| done]. assert (x = 0 \/ x = 1) as [-> | ->] by lia; done.
    + eapply inw_mono; [| exact Hx]. lia.
  - cbn in Hp. unfold raw_ok in Hx. cbn [stack_words]. rewrite wrap_small by done.
    destruct (stored_pair (ContractType c su) (slot, o) 20 x h _ _ eq_refl Hp Hx eq_refl) as [Hs1 _].
    cbn [fst] in Hs1. eexists. split; [| exact Hs1]. cbn in Ht. subst su.
    apply (store_two_does (need_ (2 =? 2) (convertType (ContractType c false) (ContractType c false) true true false))); [lia | lia |].
    change (2 =? 2) with true. cbn [need_]. unfold convertType. rewrite andb_false_r.
    change (convert_from_number (ContractType c false) (ContractType c false) true (true && false)) with (emit [] << emit [] << emit []).
    runs idtac; done.
  - destruct Ht as ([-> | ->] & -> & -> & ->); [| by apply store_external; [| apply He |]].
    change (0 <= slot /\ slot + 1 <= 2 ^ 128 /\ 0 <= o /\ o + 8 <= 16) in Hp.
    eexists. split; [| apply (stored_merge _ slot o 8); [done | done | lia | done]].
    unfold StorageItem_storeValue. rewrite type_eqb_refl. cbn [need_].
    apply (packed_does 8 (need_ (type_eqb (FunctionType Internal ps rs c false false false) (FunctionType Internal ps rs c false false false)) (num (low_mask (8 * 8)) << I.AND)) _ x); [lia |].
    rewrite type_eqb_refl. cbn [need_]. eapply does_eq; [apply mask_does; lia | | done]. by rewrite wrap_small.
Qed.

Lemma merge_zero w o n : merge w o n 0 = Z.land (2 ^ 128 - 1 - wrap 128 (low_mask (8 * n) * 2 ^ (8 * o))) w.
Proof. unfold merge. by rewrite Z.mul_0_l, wrap_small by done. Qed.

(** Clearing an item of one or two slots stores 0. *)
Lemma clear_does t p h : simple t -> position_ok t p -> is_external t = false ->
  exists h', does X 16 (StorageItem_setToZero t true) [snd p; fst p] h [] h' /\ stored t p 0 h h'.
Proof.
  intros Ht Hp He. destruct (simple_layout t Ht) as (n & size & El & En & Hn & Hb). destruct p as [slot o]. cbn [fst snd].
  pose proof Hp as Hp'. unfold position_ok in Hp'. rewrite El in Hp'. cbn [fst snd] in Hp'.
  assert (size = 1 /\ n <= 16 \/ size = 2 /\ 16 < n) as Hsize.
  { destruct t as [bits m | | | | | n' | | | | | [] ps rs c g v bd |]; try done; destruct Hn as [Hn1 Hn2]; try lia;
      subst; repeat case_match; lia. }
  assert (StorageItem_setToZero t true = need_ true (emit [] << with_ (Some n) (fun n =>
     if 16 <? n then I.POP << I.DUP1 << num 0 << I.SWAP1 << I.SSTORE << num 1 << I.ADD << num 0 << I.SWAP1 << I.SSTORE
     else if n =? 16 then I.POP << num 0 << I.SWAP1 << I.SSTORE
     else num 0x100 << I.EXP << I.DUP2 << I.SLOAD << I.SWAP1 << num (low_mask (8 * n)) << I.MUL << I.NOT << I.AND << I.SWAP1 << I.SSTORE))) as ->.
  { rewrite <- En. by destruct t. }
  cbn [need_ with_]. destruct Hsize as [[-> Hn16] | [-> Hn16]].
  - rewrite (proj2 (Z.ltb_ge 16 n)) by lia. change (1 =? 1) with true in Hp'. cbv iota in Hp'. destruct (Z.eqb_spec n 16) as [-> | Hne].
    + eexists. split; [runs idtac; reflexivity | by apply stored_slot].
    + eexists. split; [| apply (stored_merge t slot o n 0 h El Hp); [lia |]; pose proof (pow2_pos (8 * n)); unfold inw; lia].
      runs idtac; [done |]. by rewrite merge_zero, wrap_256 by lia.
  - rewrite (proj2 (Z.ltb_lt 16 n)) by lia. destruct (stored_pair t (slot, o) n 0 h 0 0 El Hp ltac:(done) eq_refl) as [Hs _].
    cbn [fst] in Hs. eexists. split; [| exact Hs]. runs idtac; [done |]. by rewrite slot_word by lia.
Qed.

(** The number of an item depends on its own bytes. *)
Lemma field_local t p s s' : simple t -> position_ok t p -> (forall k, inw 128 (s k) /\ inw 128 (s' k)) ->
  (forall k i, inw 128 k -> 0 <= i < 128 -> occupies t p (16 * k + i / 8) -> Z.testbit (s k) i = Z.testbit (s' k) i) ->
  field t p s = field t p s'.
Proof.
  intros Ht Hp Hs Hb. destruct (simple_layout t Ht) as (n & size & El & _ & _ & Hn). destruct p as [slot o].
  unfold position_ok in Hp. unfold occupies in Hb. unfold field. rewrite El in Hp, Hb |- *. unfold start, extent in Hb. cbn [fst snd] in Hp, Hb.
  assert (forall k, 2 <= size -> 0 <= k < size -> s (slot + k) = s' (slot + k)) as Hword.
  { intros k Hsz Hk. destruct (Hs (slot + k)) as [W W']. apply Z.bits_inj'. intros i Hi. destruct (Z.lt_ge_cases i 128).
    - rewrite (proj2 (Z.eqb_neq size 1)) in Hp, Hb by lia. cbn [andb] in Hb. pose proof (Z.div_pos i 8). pose proof (Z.div_lt_upper_bound i 8 16).
      apply Hb; unfold inw; lia.
    - by rewrite !(inw_testbit 128) by (done || lia). }
  destruct (Z.eqb_spec size 1) as [E | Hne].
  - clear Hword. subst size. apply Z.bits_inj'. intros i Hi. rewrite !wrap_bit by lia. destruct (Z.ltb_spec i (8 * n)); [cbn [andb] | done]. rewrite !Z.shiftr_spec by lia.
    rewrite (proj2 (Z.leb_le n 16)) in Hb by lia. cbn [andb] in Hb.
    pose proof (Z.div_mod (i + 8 * o) 8 ltac:(lia)). pose proof (Z.mod_pos_bound (i + 8 * o) 8 ltac:(lia)). apply Hb; unfold inw; lia.
  - assert (s slot = s' slot) as -> by (rewrite <- (Z.add_0_r slot); apply Hword; lia). rewrite (Hword 1) by lia.
    destruct (Z.eqb_spec size 2); [done |]. by rewrite (Hword 2) by lia.
Qed.
End Items.

(** ** State variables *)

(** The compiler's places are right for the items. *)
Lemma offset_position types r i t p :
  Forall storable_ok types -> computeOffsets types = Some r -> types !! i = Some t -> offset r i = Some p -> simple t -> position_ok t p.
Proof.
  intros Hok Hr Hi Hp Ht. destruct (simple_layout t Ht) as (n & size & El & _ & Hs & Hn).
  destruct (offset_placed types r i t _ p Hok Hr Hi El Hp) as ((P1 & P2 & P3 & P4 & P5) & HM & _).
  unfold position_ok. rewrite El. unfold start, extent in P2. cbn [fst snd] in P2, P5.
  destruct (Z.eqb_spec size 1) as [-> | Hne]; [rewrite (proj2 (Z.leb_le n 16)) in P2, P5 by lia |]; cbn [andb] in P2, P5; split_and!; lia.
Qed.

(** A change of one variable is none of the others. *)
Lemma stored_others {H} (X : Ctx H) types r i j t u p q x h h' :
  storage_ok X -> Forall storable_ok types -> computeOffsets types = Some r -> types !! i = Some t -> offset r i = Some p ->
  types !! j = Some u -> offset r j = Some q -> i <> j -> simple u -> stored X t p x h h' -> field u q (sload X h') = field u q (sload X h).
Proof.
  intros HS Hok Hr Hi Hp Hj Hq Hij Hu [_ Hst]. apply field_local; [done | by eapply offset_position | intros k; split; apply (st_word X HS) |].
  intros k b Hk Hb Ho. apply Hst; [done | done |]. intros Ho'. apply Hij. by eapply offset_disjoint.
Qed.

Lemma stack_words_length t x : (length (stack_words t x) <= 3)%nat.
Proof. destruct t as [| | | | | | | | | | [] |]; cbn; unfold int_words; repeat case_match; cbn; lia. Qed.

Lemma raw_ok_zero t : simple t -> raw_ok t 0.
Proof.
  destruct t as [bits m | | | | | n | | | | | k ps rs c g v bd |]; cbn [simple raw_ok]; try done; intros Ht.
  - pose proof (pow2_pos bits ltac:(lia)). unfold inw. lia.
  - pose proof (pow2_pos (8 * n) ltac:(lia)). unfold inw. lia.
  - by destruct Ht as ([-> | ->] & _).
Qed.

(** C8: Assignments to state variables are right: at the places that the
    compiler gives them, the code for storing a value of a simple type runs on
    the machine and takes value and position from the stack; reading the
    variable then gives the value, and every other simple variable still reads
    as before.  (External functions are limited to the first 2^32 slots.) *)
Theorem assignment_correct {H} (X : Ctx H) V types r i t p x h :
  machine_ok X V -> storage_ok X -> Forall storable_ok types -> computeOffsets types = Some r ->
  types !! i = Some t -> offset r i = Some p -> simple t -> raw_ok t x -> (is_external t = true -> fst p < 2 ^ 32) ->
  exists h', executes X V (StorageItem_storeValue t t true) (snd p :: fst p :: stack_words t x) h [] h' /\
    executes X V (StorageItem_retrieveValue t true) [snd p; fst p] h' (stack_words t x) h' /\
    forall j u q, types !! j = Some u -> offset r j = Some q -> i <> j -> simple u -> raw_ok u (field u q (sload X h)) ->
      executes X V (StorageItem_retrieveValue u true) [snd q; fst q] h' (stack_words u (field u q (sload X h))) h'.
Proof.
  intros HM HS Hok Hr Hi Hp Ht Hx He. assert (position_ok t p) as Hpos by (by eapply offset_position).
  destruct (store_does X HS t p x h Ht Hpos Hx He) as (h' & Hd & Hst). exists h'. split_and!.
  - eapply (does_executes X V HM 16); [ exact Hd |]. pose proof (stack_words_length t x). cbn. lia.
  - eapply (does_executes X V HM 8); [ | cbn; lia]. pose proof Hst as [<- _]. by apply retrieve_does.
  - intros j u q Hj Hq Hij Hu Hy. eapply (does_executes X V HM 8); [ | cbn; lia].
    rewrite <- (stored_others X types r i j t u p q x h h') in Hy |- * by done. apply retrieve_does; try done. by eapply offset_position.
Qed.

(** C18: Deletions of state variables are right: the code that clears a variable of
    a simple type, other than an external function, makes it read as the value
    of all zeros, and every other simple variable still reads as before. *)
Theorem deletion_correct {H} (X : Ctx H) V types r i t p h :
  machine_ok X V -> storage_ok X -> Forall storable_ok types -> computeOffsets types = Some r ->
  types !! i = Some t -> offset r i = Some p -> simple t -> is_external t = false ->
  exists h', executes X V (StorageItem_setToZero t true) [snd p; fst p] h [] h' /\
    executes X V (StorageItem_retrieveValue t true) [snd p; fst p] h' (stack_words t 0) h' /\
    forall j u q, types !! j = Some u -> offset r j = Some q -> i <> j -> simple u -> raw_ok u (field u q (sload X h)) ->
      executes X V (StorageItem_retrieveValue u true) [snd q; fst q] h' (stack_words u (field u q (sload X h))) h'.
Proof.
  intros HM HS Hok Hr Hi Hp Ht He. assert (position_ok t p) as Hpos by (by eapply offset_position).
  destruct (clear_does X HS t p h Ht Hpos He) as (h' & Hd & Hst). exists h'. split_and!.
  - eapply (does_executes X V HM 16); [ exact Hd |]. cbn. lia.
  - eapply (does_executes X V HM 8); [ | cbn; lia]. assert (stack_words t 0 = stack_words t (field t p (sload X h'))) as -> by (by rewrite (proj1 Hst)).
    apply retrieve_does; try done. rewrite (proj1 Hst). by apply raw_ok_zero.
  - intros j u q Hj Hq Hij Hu Hy. eapply (does_executes X V HM 8); [ | cbn; lia].
    rewrite <- (stored_others X types r i j t u p q 0 h h') in Hy |- * by done. apply retrieve_does; try done. by eapply offset_position.
Qed.

(** A host that is a storage, for a contract of any address. *)
Definition store_host : evm_context_fn_table (Z -> Z) :=
  mkHost (Z -> Z) (fun _ _ => 0) (fun h _ k => be_bytes 16 (h (be_val k))) (fun h _ k v x => if x =? be_val k then be_val v else h x)
    (fun _ _ => replicate 16 0) (fun _ _ => []) (fun h _ _ => h) (fun h _ => (mkResult EVM_FAILURE 0 [], h))
    (fun _ => mkTxContext (replicate 16 0) (replicate 32 0) (replicate 32 0) 0 0 0 (replicate 16 0))
    (fun _ _ => replicate 32 0) (fun h _ _ _ => h).
Definition store_ctx : Ctx (Z -> Z) := mkCtx store_host (null_message 0) (fun _ => null_message 0) [] EVM_AION_V1 false (replicate 32 0) (replicate 32 0).
Definition constants (i : AssemblyItem) : Z := match i with Push v => v | _ => 0 end.

Lemma store_machine : machine_ok store_ctx constants.
Proof. by repeat split. Qed.

Lemma store_sload h k : sload store_ctx h k = wrap 128 (h (wrap 128 k)).
Proof. unfold sload. cbn [x_host store_ctx get_storage store_host]. by rewrite !be_val_be_bytes. Qed.

Lemma store_storage : storage_ok store_ctx.
Proof.
  split; intros h k; [rewrite store_sload; apply wrap_inw; lia | |].
  - intros v Hk Hv. rewrite store_sload. unfold sstore. cbn [x_host store_ctx set_storage store_host]. rewrite !be_val_be_bytes.
    change (2 ^ (8 * Z.of_nat 16)) with (2 ^ 128). fold (wrap 128 k) (wrap 128 v). rewrite Z.eqb_refl. by rewrite !wrap_small by (rewrite ?wrap_small; done).
  - intros k' v Hk Hk' Hne. rewrite !store_sload. unfold sstore. cbn [x_host store_ctx set_storage store_host]. rewrite !be_val_be_bytes.
    change (2 ^ (8 * Z.of_nat 16)) with (2 ^ 128). fold (wrap 128 k) (wrap 128 v). rewrite (wrap_small 128 k), (wrap_small 128 k') by done.
    by rewrite (proj2 (Z.eqb_neq _ _)) by done.
Qed.

Definition demo_variables : list Type_ := [IntegerType 64 Unsigned; IntegerType 32 Signed; FixedBytesType 20; BoolType].

Lemma demo_storable : Forall storable_ok demo_variables.
Proof. repeat constructor; cbn; lia. Qed.

Lemma assignment_correct_witness : exists h',
  executes store_ctx constants (StorageItem_storeValue (IntegerType 32 Signed) (IntegerType 32 Signed) true) [8; 0; 2 ^ 128 - 5] (fun _ => 7) [] h' /\
  executes store_ctx constants (StorageItem_retrieveValue (IntegerType 32 Signed) true) [8; 0] h' [2 ^ 128 - 5] h'.
Proof.
  destruct (assignment_correct store_ctx constants demo_variables _ 1 (IntegerType 32 Signed) (0, 8) (2 ^ 32 - 5) (fun _ => 7)
    store_machine store_storage demo_storable eq_refl eq_refl eq_refl) as (h' & H1 & H2 & _); [| done | done |].
  - cbn. split_and!; done || lia.
  - exists h'. split; [exact H1 | exact H2].
Defined.

Lemma deletion_correct_witness : exists h',
  executes store_ctx constants (StorageItem_setToZero (FixedBytesType 20) true) [0; 1] (fun _ => 7) [] h' /\
  executes store_ctx constants (StorageItem_retrieveValue (FixedBytesType 20) true) [0; 1] h' [0; 0] h'.
Proof.
  destruct (deletion_correct store_ctx constants demo_variables _ 2 (FixedBytesType 20) (1, 0) (fun _ => 7)
    store_machine store_storage demo_storable eq_refl eq_refl eq_refl) as (h' & H1 & H2 & _); [cbn; lia | done |].
  exists h'. split; [exact H1 | exact H2].
Defined.

(** ** Items that are not kept *)

(** C38: An external function is stored at its slot modulo 2^32, so one whose slot
    comes from a hash, as in a mapping, is not stored: none of its three words
    changes, while a word among the first 2^32 does. *)
Theorem external_function_misplaced {H} (X : Ctx H) V ps rs c slot f v0 v1 h (t := FunctionType External ps rs c false false false) :
  machine_ok X V -> storage_ok X -> 2 ^ 32 + 2 <= slot -> slot + 3 <= 2 ^ 128 -> inw 32 f ->
  exists h', executes X V (StorageItem_storeValue t t true) [0; slot; f; v0; v1] h [] h' /\
    sload X h' (wrap 32 slot) = f /\ forall k, 0 <= k < 3 -> sload X h' (slot + k) = sload X h (slot + k).
Proof.
  intros HM HS Hs1 Hs2 Hf. exists (sstore X (sstore X (sstore X h (wrap 32 slot) f) (wrap 32 slot + 1) v0) (wrap 32 slot + 2) v1).
  assert (inw 32 (wrap 32 slot)) as Hw by (apply wrap_inw; lia).
  assert (inw 128 f) by (eapply inw_mono; [| exact Hf]; lia). unfold inw in Hw. split_and!.
  - eapply (does_executes X V HM 16); [ apply store_external_does | cbn; lia].
  - by rewrite !(st_other X HS), (st_same X HS) by (unfold inw; done || lia).
  - intros k Hk. by rewrite !(st_other X HS) by (unfold inw; lia).
Qed.

Lemma external_function_misplaced_witness : exists h',
  executes store_ctx constants
    (StorageItem_storeValue (FunctionType External [] [] false false false false) (FunctionType External [] [] false false false false) true)
    [0; 2 ^ 100 + 6; 9; 1; 2] (fun _ => 7) [] h' /\
  sload store_ctx h' 6 = 9 /\ sload store_ctx h' (2 ^ 100 + 6) = 7.
Proof.
  destruct (external_function_misplaced store_ctx constants [] [] false (2 ^ 100 + 6) 9 1 2 (fun _ => 7) store_machine store_storage)
    as (h' & H1 & H2 & H3); [lia | lia | unfold inw; lia |].
  exists h'. split; [exact H1 |]. split; [exact H2 | exact (H3 0 ltac:(lia))].
Defined.

(** The code for a signed integer that does not fill two slots: the sign is cut. *)
Lemma convert_wide_signed {H} (X : Ctx H) bits x h : 128 < bits < 256 -> bits mod 8 = 0 -> minValue bits Signed <= x <= maxValue bits Signed ->
  does X 4 (convertType (IntegerType bits Signed) (IntegerType bits Signed) true true false) (int_words bits x) h (two_words (wrap bits x)) h.
Proof.
  intros Hb Hm Hx. unfold convertType. rewrite andb_false_r. cbn [convert_from_number convert_to_integer with_].
  rewrite Z.ltb_irrefl, Z.ltb_irrefl. change (true && isSigned Signed) with true. cbv iota.
  rewrite (proj2 (Z.ltb_ge bits 128)), (proj2 (Z.ltb_lt 128 bits)), (proj2 (Z.ltb_lt bits 256)) by lia. cbn [andb].
  pose proof (clean_words X bits Signed x h ltac:(lia) Hm) as Hc. rewrite norm_id in Hc by (done || lia).
  unfold int_words in *. rewrite (proj2 (Z.ltb_lt 128 bits)) in * by lia. rewrite two_words_wrap in *.
  runs ltac:(eapply does_mono; [| exact Hc]; lia); [| done]. rewrite low_mask_land by lia. unfold two_words. f_equal; [| f_equal]; bitwise.
Qed.

(** Signed integers of 136 to 248 bits lose their sign in storage: a negative
    number is stored without the bits above its width and read back as it is
    stored, so the words on the stack are those of another number. *)
Theorem wide_signed_wrong {H} (X : Ctx H) V bits x slot h (t := IntegerType bits Signed) :
  machine_ok X V -> storage_ok X -> 128 < bits < 256 -> bits mod 8 = 0 -> minValue bits Signed <= x < 0 -> 0 <= slot -> slot + 2 <= 2 ^ 128 ->
  exists h', executes X V (StorageItem_storeValue t t true) (0 :: slot :: int_words bits x) h [] h' /\
    executes X V (StorageItem_retrieveValue t true) [0; slot] h' (two_words (wrap bits x)) h' /\
    two_words (wrap bits x) <> int_words bits x.
Proof.
  subst t. intros HM HS Hb Hm Hx Hs1 Hs2. pose proof (Z.div_mod bits 8 ltac:(lia)) as Hd.
  assert (minValue bits Signed <= x <= maxValue bits Signed) as Hx'.
  { split; [lia |]. unfold maxValue. change (isSigned Signed) with true. cbv iota. rewrite Z.shiftl_mul_pow2 by lia. pose proof (pow2_pos (bits - 1)). lia. }
  assert (inw 256 (wrap bits x)) as Hw by (eapply inw_mono; [| apply wrap_inw]; lia).
  exists (sstore X (sstore X h slot (Z.shiftr (wrap bits x) 128)) (slot + 1) (wrap 128 (wrap bits x))). split_and!.
  - eapply (does_executes X V HM 16); [ | pose proof (int_words_length bits x); cbn; lia].
    unfold StorageItem_storeValue. cbn [need_ is_external isValueType with_ storageBytes sizeOnStack]. rewrite (proj2 (Z.ltb_lt 128 bits)) by lia.
    rewrite (proj2 (Z.leb_le (bits / 8) 32)), (proj2 (Z.ltb_lt 0 (bits / 8))) by lia. cbn [andb need_].
    rewrite (proj2 (Z.eqb_neq (bits / 8) 16)), (proj2 (Z.eqb_neq (bits / 8) 32)), (proj2 (Z.ltb_ge (bits / 8) 16)) by lia.
    pose proof (convert_wide_signed X bits x h ltac:(lia) Hm Hx') as Hc. revert Hc. unfold int_words. rewrite (proj2 (Z.ltb_lt 128 bits)) by lia.
    intros Hc. apply (store_two_does X (need_ (2 =? 2) (convertType (IntegerType bits Signed) (IntegerType bits Signed) true true false))); [lia | lia | exact Hc].
  - eapply (does_executes X V HM 8); [ | cbn; lia]. unfold StorageItem_retrieveValue. cbn [is_external isValueType negb with_ storageBytes].
    rewrite (proj2 (Z.eqb_neq (bits / 8) 16)), (proj2 (Z.eqb_neq (bits / 8) 32)), (proj2 (Z.ltb_ge (bits / 8) 16)) by lia.
    cbn [with_ storageSize storageSize_in]. rewrite (proj2 (Z.ltb_lt 128 bits)) by lia. change (2 =? 2) with true. cbn [need_].
    runs ltac:(eapply does_mono; [| apply load_two_does; lia]; lia); [| done]. unfold two_words.
    pose proof (high_word _ Hw). pose proof (low_word (wrap bits x)).
    by rewrite (st_other X HS), !(st_same X HS) by (unfold inw in *; lia).
  - unfold int_words. rewrite (proj2 (Z.ltb_lt 128 bits)), two_words_wrap by lia. unfold two_words. intros [= E _].
    assert (Z.testbit (Z.shiftr (wrap bits x) 128) 127 = Z.testbit (wrap 128 (Z.shiftr x 128)) 127) as Hbit by (by rewrite E).
    rewrite wrap_bit, !Z.shiftr_spec, wrap_bit in Hbit by lia. rewrite (proj2 (Z.ltb_ge _ bits)) in Hbit by lia.
    rewrite (testbit_negative (bits - 1)) in Hbit; [done | lia |].
    unfold minValue in Hx. change (isSigned Signed) with true in Hx. cbv iota in Hx. rewrite Z.shiftl_mul_pow2 in Hx by lia. lia.
Qed.

Lemma wide_signed_wrong_witness : exists h',
  executes store_ctx constants (StorageItem_storeValue (IntegerType 136 Signed) (IntegerType 136 Signed) true)
    [0; 3; 2 ^ 128 - 1; 2 ^ 128 - 1] (fun _ => 0) [] h' /\
  executes store_ctx constants (StorageItem_retrieveValue (IntegerType 136 Signed) true) [0; 3] h' [255; 2 ^ 128 - 1] h'.
Proof.
  destruct (wide_signed_wrong store_ctx constants 136 (-1) 3 (fun _ => 0) store_machine store_storage) as (h' & H1 & H2 & _); [lia | done | | lia | lia |].
  - split; [vm_compute; discriminate | lia].
  - exists h'. split; [exact H1 | exact H2].
Defined.
