(* ===== verification/SolArray.v ===== *)
(** * Elements of arrays in storage

    libsolidity/codegen/LValue.cpp: reading, writing and clearing a byte of a
    byte array ([StorageByteArrayElement]).  ArrayUtils.cpp: the length of an
    array, the position of an element and the step from an element to the next.
    [calldataEncodedSize] and [memoryHeadSize] are those of Types.h and
    Types.cpp. *)
From stdpp Require Import strings.
From S2P Require Import Prelude Bytes Instruction LLVMInt EvmAbi GasSchedule Runtime IR Machine NullHost.
From S2P Require Import AsmItem AsmRun Peephole SolTypes SolStorage SolCode SolLValue.
Open Scope list_scope.
Open Scope Z_scope.
Open Scope gen_scope.

(** ** Bytes of byte arrays *)

Definition StorageByteArrayElement_retrieveValue (remove : bool) : gen :=
  (if remove then I.SWAP1 << I.SLOAD << I.SWAP1 << I.BYTE else I.DUP2 << I.SLOAD << I.DUP2 << I.BYTE)
  << num (Z.shiftl 1 (128 - 8)) << I.MUL.

Definition StorageByteArrayElement_storeValue (move : bool) : gen :=
  num 15 << I.SUB << num 0x100 << I.EXP
  << I.DUP2 << I.SLOAD
  << I.DUP2 << num 0xff << I.MUL << I.NOT << I.AND
  << I.SWAP1
  << num (Z.shiftl 1 (128 - 8)) << I.DUP5 << I.DIV
  << I.MUL << I.OR
  << I.SWAP1 << I.SSTORE
  << (if move then I.POP else emit []).

Definition StorageByteArrayElement_setToZero (remove : bool) : gen :=
  (if remove then emit [] else I.DUP2 << I.DUP2)
  << num 15 << I.SUB << num 0x100 << I.EXP
  << I.DUP2 << I.SLOAD
  << I.SWAP1 << num 0xff << I.MUL << I.NOT << I.AND
  << I.SWAP1 << I.SSTORE.

(** ** Positions of elements *)

(** [CompilerUtils::computeHashStatic]; storing a word of 128 bits in memory
    cleans it first. *)
Definition computeHashStatic : gen :=
  convertType (IntegerType 128 Unsigned) (IntegerType 128 Unsigned) true false false << num 0 << op 0x52
  << num 16 << num 0 << op 0x20
  << I.SWAP1 << I.POP.

(** An array type; [length] is [None] for arrays of dynamic size. *)
Definition retrieveLength (loc : DataLocation) (isByteArray : bool) (length : option Z) (stackDepth : Z) : gen :=
  match length with
  | Some n => num n
  | None =>
      dup (1 + stackDepth)
      << match loc with
         | CallData => emit []
         | Memory => op 0x51
         | Storage =>
             I.SLOAD
             << (if isByteArray then
                   num 1 << I.DUP2 << num 1 << I.AND
                   << I.ISZERO << num 0x100 << I.MUL
                   << I.SUB << I.AND
                   << num 2 << I.SWAP1 << I.DIV
                 else emit [])
         end
  end.

(** The part of [accessIndex] behind the hash: from an index and the slot of
    the first element to the position of the element. *)
Definition element_position (base : Type_) : gen :=
  with_ (storageBytes base) (fun byteSize =>
    if byteSize <=? 16 then
      need_ (negb (byteSize =? 0))
        (num (16 / byteSize) << I.SWAP2
         << I.DUP3 << I.DUP3 << I.DIV << I.ADD
         << I.SWAP2 << I.SWAP1 << I.MOD
         << (if byteSize =? 1 then emit [] else num byteSize << I.MUL))
    else
      with_ (storageSize base) (fun size =>
        (if size =? 1 then emit [] else num size << I.MUL) << I.ADD << num 0)).

(** [calldataEncodedSize] of the types, [loc] as in [storageSize_in]: a struct
    skips the members it leaves out, and has no size if a member has none. *)
Fixpoint calldataEncodedSize_in (loc : DataLocation) (padded : bool) (t : Type_) {struct t} : option Z :=
  match t with
  | IntegerType bits _ | FixedPointType bits _ _ => Some (if padded then if 128 <? bits then 32 else 16 else bits / 8)
  | FixedBytesType n => Some (if padded && (0 <? n) then if 16 <? n then 32 else 16 else n)
  | BoolType => Some (if padded then 16 else 1)
  | ContractType _ _ => Some (if padded then 32 else 20)
  | EnumType _ n => let bits := 8 * EnumType_storageBytes n in Some (if padded then if 128 <? bits then 32 else 16 else bits / 8)
  | ArrayType _ _ _ _ None => Some 16
  | ArrayType _ _ kind base (Some n) =>
      s ← (if bool_decide (kind = Ordinary) then calldataEncodedSize_in loc padded base else Some 1);
      let size := (n * s + 15) / 16 * 16 in if 2 ^ 32 <=? size then None else Some size
  | StructType _ _ _ ms =>
      (fix go (ms : list (string * Type_)) (size : Z) :=
         match ms with
         | [] => Some size
         | (_, m) :: ms =>
             if canLiveOutsideStorage m then
               s ← calldataEncodedSize_in loc padded m; if s =? 0 then Some 0 else go ms (wrap 32 (size + s))
             else if bool_decide (loc = Storage) then Some 0 else go ms size
         end) ms 0
  | FunctionType _ _ _ _ _ _ _ => s ← storageBytes t; Some (if padded then (s + 15) / 16 * 16 else s)
  | _ => Some 0
  end.
Definition calldataEncodedSize (padded : bool) (t : Type_) : option Z := calldataEncodedSize_in (location t) padded t.

(** [memoryHeadSize]: that of a pointer for reference types. *)
Definition memoryHeadSize (t : Type_) : option Z :=
  match t with ArrayType _ _ _ _ _ | StructType _ _ _ _ => Some 16 | _ => calldataEncodedSize true t end.

Definition accessIndex (loc : DataLocation) (isByteArray : bool) (base : Type_) (length : option Z) (doBoundsCheck : bool) : gen :=
  (if doBoundsCheck then
     retrieveLength loc isByteArray length 1 << I.DUP2 << I.LT << I.ISZERO << appendConditionalInvalid
   else emit [])
  << match loc, length with CallData, None => I.SWAP1 << I.POP | _, _ => emit [] end
  << I.SWAP1
  << match loc with
     | Memory =>
         (if length is None then num 16 << I.ADD else emit [])
         << (if isByteArray then emit [] else I.SWAP1 << with_ (memoryHeadSize base) (fun size => num size << I.MUL))
         << I.ADD
     | CallData =>
         (if isByteArray then emit [] else I.SWAP1 << with_ (calldataEncodedSize true base) (fun size => num size << I.MUL)) << I.ADD
     | Storage => fun n =>
         let endTag := n in
         ((if isByteArray then
             I.SWAP1 << I.DUP2 << I.SLOAD << num 1 << I.AND << I.ISZERO
             << emit [PushTag endTag] << op 0x57 << I.SWAP1
           else emit [])
          << (if length is None then computeHashStatic else emit [])
          << I.SWAP1
          << element_position base
          << emit [Tag endTag]) (n + 1)
     end.

Definition incrementByteOffset (byteSize byteOffsetPosition storageOffsetPosition : Z) : gen :=
  need_ ((byteSize <? 16) && negb (byteSize =? 0))
    ((if 1 <? byteOffsetPosition then swap (byteOffsetPosition - 1) else emit [])
     << num byteSize << I.ADD
     << (if 1 <? byteOffsetPosition then swap (byteOffsetPosition - 1) else emit [])
     << num 16 << dup (1 + byteOffsetPosition) << num (byteSize - 1) << I.ADD << I.DIV
     << swap storageOffsetPosition << dup (storageOffsetPosition + 1) << I.ADD << swap storageOffsetPosition
     << num 1 << I.SUB
     << (if byteOffsetPosition =? 1 then I.MUL
         else dup (byteOffsetPosition + 1) << I.MUL << swap byteOffsetPosition << I.POP)).

(** ** Byte arrays *)

Lemma op_byte_shift i w : 0 <= i < 16 -> op_byte i w = wrap 8 (Z.shiftr w (8 * (15 - i))).
Proof.
  intros Hi. unfold op_byte. rewrite (proj2 (Z.ltb_lt i 16)) by lia. rewrite be_bytes_lookup by lia. cbn [default from_option id].
  rewrite Z.shiftr_div_pow2 by lia. unfold wrap. do 3 f_equal. f_equal. lia.
Qed.

Section Bytes_.
Context {H : Type} (X : Ctx H).
Hypothesis HS : storage_ok X.

(** Byte [i] from the left is the item of one byte at offset [15 - i]. *)
Lemma byte_position i slot : 0 <= i < 16 -> inw 128 slot -> position_ok (FixedBytesType 1) (slot, 15 - i).
Proof. intros Hi Hs. unfold inw in Hs. cbn. lia. Qed.

Lemma byte_retrieve_does i slot h : 0 <= i < 16 ->
  does X 8 (StorageByteArrayElement_retrieveValue true) [i; slot] h
    (stack_words (FixedBytesType 1) (field (FixedBytesType 1) (slot, 15 - i) (sload X h))) h.
Proof.
  intros Hi. unfold StorageByteArrayElement_retrieveValue. cbv iota.
  change (Z.shiftl 1 (128 - 8)) with (2 ^ 120). runs idtac; [| done]. rewrite op_byte_shift by done.
  change (stack_words (FixedBytesType 1) (field (FixedBytesType 1) (slot, 15 - i) (sload X h)))
    with [wrap 128 (Z.shiftl (wrap 8 (Z.shiftr (sload X h slot) (8 * (15 - i)))) 120)].
  by rewrite Z.shiftl_mul_pow2, Z.mul_comm by lia.
Qed.

Lemma byte_offset i : 0 <= i < 16 -> wrap 128 (15 - i) = 15 - i /\ inw 128 (wrap 128 (15 - i)).
Proof. intros Hi. rewrite wrap_small by (unfold inw; lia). split; [done | unfold inw; lia]. Qed.

Lemma byte_store_does i slot b h : 0 <= i < 16 -> inw 8 b ->
  does X 16 (StorageByteArrayElement_storeValue true) [i; slot; Z.shiftl b 120] h [] (sstore X h slot (merge (sload X h slot) (15 - i) 1 b)).
Proof.
  intros Hi Hb. destruct (byte_offset i Hi) as [E Hin]. unfold StorageByteArrayElement_storeValue. cbv iota.
  change (Z.shiftl 1 (128 - 8)) with (2 ^ 120). runs idtac; [done |].
  rewrite E, wrap_256 by lia. change (2 ^ 120 =? 0) with false. cbv iota.
  rewrite <- Z.shiftr_div_pow2, Z.shiftr_shiftl_l, Z.shiftl_0_r by lia. done.
Qed.

Lemma byte_clear_does i slot h : 0 <= i < 16 ->
  does X 16 (StorageByteArrayElement_setToZero true) [i; slot] h [] (sstore X h slot (merge (sload X h slot) (15 - i) 1 0)).
Proof.
  intros Hi. destruct (byte_offset i Hi) as [E Hin]. unfold StorageByteArrayElement_setToZero. cbv iota. runs idtac; [done |].
  by rewrite merge_zero, E, wrap_256 by lia.
Qed.
End Bytes_.

(** A byte of a byte array in storage is assigned and cleared without a change
    to any other bit of the storage, and reads as the byte assigned, or as 0. *)
Theorem byte_element_correct {H} (X : Ctx H) V i slot b h (t := FixedBytesType 1) :
  machine_ok X V -> storage_ok X -> 0 <= i < 16 -> inw 128 slot -> inw 8 b ->
  exists h1 h2,
    executes X V (StorageByteArrayElement_storeValue true) [i; slot; Z.shiftl b 120] h [] h1 /\ stored X t (slot, 15 - i) b h h1 /\
    executes X V (StorageByteArrayElement_retrieveValue true) [i; slot] h1 [Z.shiftl b 120] h1 /\
    executes X V (StorageByteArrayElement_setToZero true) [i; slot] h [] h2 /\ stored X t (slot, 15 - i) 0 h h2 /\
    executes X V (StorageByteArrayElement_retrieveValue true) [i; slot] h2 [0] h2.
Proof.
  intros HM HS Hi Hs Hb. pose proof (byte_position i slot Hi Hs) as Hp.
  assert (forall x, inw 8 x -> stored X t (slot, 15 - i) x h (sstore X h slot (merge (sload X h slot) (15 - i) 1 x))) as Hst
    by (intros x Hx; apply stored_merge; done).
  assert (forall x h', inw 8 x -> stored X t (slot, 15 - i) x h h' ->
    executes X V (StorageByteArrayElement_retrieveValue true) [i; slot] h' [Z.shiftl x 120] h') as Hr.
  { intros x h' Hx [<- _]. eapply (does_executes X V HM 8); [ | cbn; lia]. eapply does_eq; [by apply byte_retrieve_does | | done].
    change (stack_words (FixedBytesType 1) ?y) with [wrap 128 (Z.shiftl y 120)]. f_equal. apply wrap_small. inw_bits. }
  do 2 eexists. split_and!.
  - eapply (does_executes X V HM 16); [ by apply byte_store_does | cbn; lia].
  - by apply Hst.
  - apply Hr; [done | by apply Hst].
  - eapply (does_executes X V HM 16); [ by apply byte_clear_does | cbn; lia].
  - by apply Hst.
  - by apply (Hr 0); [| apply Hst].
Qed.

Lemma byte_element_correct_witness : exists h1,
  executes store_ctx constants (StorageByteArrayElement_storeValue true) [2; 5; Z.shiftl 65 120] (fun _ => 7) [] h1 /\
  executes store_ctx constants (StorageByteArrayElement_retrieveValue true) [2; 5] h1 [Z.shiftl 65 120] h1.
Proof.
  destruct (byte_element_correct store_ctx constants 2 5 65 (fun _ => 7) store_machine store_storage) as (h1 & _ & H1 & _ & H2 & _);
    [lia | unfold inw; lia | unfold inw; lia |].
  by exists h1.
Defined.

(** ** Elements *)

(** Where an element should be: packed into slots, or in slots of its own. *)
Definition element (base : Type_) (ref i : Z) : Z * Z :=
  match type_layout base with
  | Some (Some (n, size)) => if n <=? 16 then (ref + i / (16 / n), i mod (16 / n) * n) else (ref + i * size, 0)
  | _ => (ref, 0)
  end.

Lemma does_tag {H} (X : Ctx H) cap (g : Z -> gen) st h st' h' :
  (forall m, does X cap (g m) st h st' h') -> does X cap (fun n => g n (n + 1)) st h st' h'.
Proof. intros Hg n. exact (Hg n (n + 1)). Qed.

(** Elements of at most a slot, of [n] bytes. *)
Lemma packed_position_does {H} (X : Ctx H) base n ref i h :
  storageBytes base = Some n -> 1 <= n <= 16 -> 0 <= i -> 0 <= ref -> ref + i / (16 / n) < 2 ^ 128 ->
  does X 8 (element_position base) [i; ref] h [i mod (16 / n) * n; ref + i / (16 / n)] h.
Proof.
  intros En Hn Hi Hr Hs. unfold element_position. rewrite En. cbn [with_].
  assert (1 <= 16 / n <= 16) as Hper by (split; [apply Z.div_le_lower_bound | apply Z.div_le_upper_bound]; lia).
  assert (inw 128 (16 / n)) by (unfold inw; lia). pose proof (Z.mod_pos_bound i (16 / n) ltac:(lia)).
  assert (i mod (16 / n) * n <= 16) by (pose proof (Z.mul_div_le 16 n ltac:(lia)); nia).
  rewrite (proj2 (Z.leb_le n 16)), (proj2 (Z.eqb_neq n 0)) by lia. cbn [negb need_].
  assert (wrap 128 (i / (16 / n) + ref) = ref + i / (16 / n)) as E.
  { rewrite wrap_small; [lia |]. pose proof (Z.div_pos i (16 / n) Hi ltac:(lia)). unfold inw. lia. }
  destruct (Z.eqb_spec n 1) as [-> | Hne]; (runs idtac; [| done]); rewrite (proj2 (Z.eqb_neq (16 / _) 0)) by lia; rewrite E; [by rewrite Z.mul_1_r |].
  rewrite wrap_small; [by rewrite Z.mul_comm |]. unfold inw. lia.
Qed.

Lemma wide_position_does {H} (X : Ctx H) base n size ref i h :
  storageBytes base = Some n -> storageSize base = Some size -> 16 < n -> 2 <= size -> 0 <= i -> 0 <= ref -> ref + i * size < 2 ^ 128 -> size < 2 ^ 128 ->
  does X 8 (element_position base) [i; ref] h [0; ref + i * size] h.
Proof.
  intros En Es Hn Hsz Hi Hr Hs Hsz'. unfold element_position. rewrite En. cbn [with_]. rewrite (proj2 (Z.leb_gt n 16)), Es by lia. cbn [with_].
  rewrite (proj2 (Z.eqb_neq size 1)) by lia. assert (inw 128 size) by (unfold inw; lia).
  runs idtac; [| done]. rewrite (wrap_small 128 (size * i)) by (unfold inw; nia). rewrite wrap_small by (unfold inw; nia). do 2 f_equal. lia.
Qed.

Lemma access_static_does {H} (X : Ctx H) base len st h st' h' :
  does X 8 (element_position base) st h st' h' -> forall i ref, st = [i; ref] ->
  does X 8 (accessIndex Storage false base (Some len) false) st h st' h'.
Proof.
  intros Hd i ref ->. eapply (does_seq X 8 _ _ _ _ [ref; i] h); [cbv iota; runs idtac; done |]. cbv iota zeta.
  apply (does_tag X 8 (fun endTag => emit [] << emit [] << I.SWAP1 << element_position base << emit [Tag endTag])).
  intros m. runs ltac:(exact Hd); done.
Qed.

(** In memory an element lies at its index times its size behind the length. *)
Lemma access_memory_does {H} (X : Ctx H) base size len i ref h (start := if len is None then ref + 16 else ref) :
  memoryHeadSize base = Some size -> inw 128 size -> 0 <= i -> 0 <= ref -> start + i * size < 2 ^ 128 ->
  does X 8 (accessIndex Memory false base len false) [i; ref] h [start + i * size] h.
Proof.
  intros Es [Hs1 Hs2] Hi Hr Hb. assert (inw 128 size) by done. unfold accessIndex. rewrite Es. subst start.
  destruct len; cbn [with_] in *; (runs idtac; [| done]); f_equal.
  - rewrite (wrap_small 128 (size * i)) by (unfold inw; nia). rewrite wrap_small by (unfold inw; nia). lia.
  - rewrite (wrap_small 128 (size * i)), (wrap_small 128 (16 + ref)) by (unfold inw; nia). rewrite wrap_small by (unfold inw; nia). lia.
Qed.

(** Layouts of arrays of simple values. *)
Lemma simple_sizes t : simple t -> exists n size, type_layout t = Some (Some (n, size)) /\ storageBytes t = Some n /\ storageSize t = Some size /\
  location t = Storage /\ 1 <= n /\ (size = 1 /\ n <= 16 \/ 2 <= size <= 3 /\ 16 < n).
Proof.
  intros Ht. destruct (simple_layout t Ht) as (n & size & El & En & Hn & Hb). exists n, size. split_and!; try done; try lia.
  - unfold type_layout in El. destruct (canBeStored t); [| done]. rewrite En in El. cbn [mbind option_bind] in El.
    destruct (storageSize t); [| done]. by injection El as <-.
  - by destruct t.
  - destruct t as [bits m | | | | | n' | | | | | [] ps rs c g v bd |]; try done; destruct Hn as [Hn1 Hn2]; try lia; subst; repeat case_match; lia.
Qed.

(** The elements of at most a slot lie in order. *)
Lemma packed_order n i j : 1 <= n <= 16 -> 0 <= i < j ->
  16 * (i / (16 / n)) + i mod (16 / n) * n + n <= 16 * (j / (16 / n)) + j mod (16 / n) * n /\ i mod (16 / n) * n + n <= 16.
Proof.
  intros Hn Hij. set (per := 16 / n). assert (1 <= per <= 16) as Hper by (split; [apply Z.div_le_lower_bound | apply Z.div_le_upper_bound]; lia).
  pose proof (Z.mul_div_le 16 n ltac:(lia)) as Hm. fold per in Hm.
  pose proof (Z.mod_pos_bound i per ltac:(lia)). pose proof (Z.mod_pos_bound j per ltac:(lia)).
  pose proof (Z.div_mod i per ltac:(lia)). pose proof (Z.div_mod j per ltac:(lia)).
  pose proof (Z.div_le_mono i j per ltac:(lia) ltac:(lia)).
  assert (i mod per * n + n <= 16) by nia. split; [| done].
  destruct (Z.eq_dec (i / per) (j / per)) as [E | E]; [rewrite E in *; nia | nia].
Qed.

(** The slots of an array hold its elements. *)
Lemma packed_inside n len i size : 1 <= n <= 16 -> 0 <= i < len -> ArrayType_storageSize (Some len) n (Some 1) = Some size ->
  i / (16 / n) < size.
Proof.
  intros Hn Hi. assert (1 <= 16 / n <= 16) as Hper by (split; [apply Z.div_le_lower_bound | apply Z.div_le_upper_bound]; lia).
  unfold ArrayType_storageSize. rewrite (proj2 (Z.eqb_neq n 0)) by lia. destruct (Z.ltb_spec n 16); cbn [mbind option_bind fmap option_fmap option_map].
  - destruct (_ <=? _); [done |]. intros [= <-]. replace (len + (16 / n - 1)) with (len - 1 + 1 * (16 / n)) by lia. rewrite Z.div_add by lia.
    pose proof (Z.div_le_mono i (len - 1) (16 / n) ltac:(lia) ltac:(lia)). lia.
  - destruct (_ <=? _); [done |]. intros [= <-]. replace n with 16 by lia. change (16 / 16) with 1. rewrite Z.div_1_r. lia.
Qed.

Lemma wide_inside n len i s size : 16 < n -> 0 <= i < len -> 2 <= s -> ArrayType_storageSize (Some len) n (Some s) = Some size ->
  i * s + s <= size /\ s < 2 ^ 128.
Proof.
  intros Hn Hi Hs. unfold ArrayType_storageSize. rewrite (proj2 (Z.eqb_neq n 0)), (proj2 (Z.ltb_ge n 16)) by lia.
  cbn [mbind option_bind fmap option_fmap option_map]. destruct (Z.leb_spec (2 ^ 128) (len * s)); [done |]. intros [= <-]. nia.
Qed.

Lemma array_size base len size : simple base -> storageSize (ArrayType Storage false Ordinary base (Some len)) = Some size ->
  exists n s, storageBytes base = Some n /\ storageSize base = Some s /\ ArrayType_storageSize (Some len) n (Some s) = Some size.
Proof.
  intros Ht. destruct (simple_sizes base Ht) as (n & s & El & En & Es & Hloc & Hn). unfold storageSize in *. rewrite Hloc in Es.
  cbn [storageSize_in]. rewrite En, Es, Hloc. cbn [mbind option_bind]. eauto.
Qed.

(** The code for the position of an element of a static array in storage is
    right for elements of simple types: it turns the index and the first slot
    into a position that the element fits into, inside of the slots of the
    array, and no byte belongs to two elements. *)
Lemma array_element_does {H} (X : Ctx H) base len size ref :
  simple base -> storageSize (ArrayType Storage false Ordinary base (Some len)) = Some size ->
  0 <= ref -> ref + size <= 2 ^ 128 ->
  (forall i h, 0 <= i < len ->
     does X 8 (accessIndex Storage false base (Some len) false) [i; ref] h [snd (element base ref i); fst (element base ref i)] h /\
     position_ok base (element base ref i) /\ fst (element base ref i) < ref + size /\
     forall b, occupies base (element base ref i) b -> 16 * ref <= b < 16 * (ref + size)) /\
  (forall i j b, 0 <= i < len -> 0 <= j < len -> occupies base (element base ref i) b -> occupies base (element base ref j) b -> i = j).
Proof.
  intros Ht Hsize Hr Hrs. destruct (array_size base len size Ht Hsize) as (n' & s' & En' & Es' & Ha).
  destruct (simple_sizes base Ht) as (n & s & El & En & Es & _ & Hn & Hc).
  rewrite En in En'. injection En' as <-. rewrite Es in Es'. injection Es' as <-.
  unfold position_ok, occupies, element, start, extent. rewrite El. cbn [fst snd]. destruct Hc as [[-> Hn16] | [Hs Hn16]].
  - rewrite (proj2 (Z.leb_le n 16)) by lia. change (1 =? 1) with true. cbn [andb fst snd]. split.
    + intros i h Hi. pose proof (packed_inside n len i size ltac:(lia) Hi Ha). pose proof (packed_order n i (i + 1) ltac:(lia) ltac:(lia)) as [_ Ho].
      assert (1 <= 16 / n <= 16) as Hper by (split; [apply Z.div_le_lower_bound | apply Z.div_le_upper_bound]; lia).
      pose proof (Z.div_pos i (16 / n) ltac:(lia) ltac:(lia)). pose proof (Z.mod_pos_bound i (16 / n) ltac:(lia)).
      split_and!; try nia. eapply access_static_does; [apply packed_position_does; done || lia | done].
    + intros i j b Hi Hj Hbi Hbj. destruct (Z.lt_trichotomy i j) as [Hij | [? | Hij]]; [| done |]; exfalso.
      * pose proof (packed_order n i j ltac:(lia) ltac:(lia)). lia.
      * pose proof (packed_order n j i ltac:(lia) ltac:(lia)). lia.
  - rewrite (proj2 (Z.leb_gt n 16)), (proj2 (Z.eqb_neq s 1)) by lia. cbn [andb fst snd]. split.
    + intros i h Hi. pose proof (wide_inside n len i s size ltac:(lia) Hi ltac:(lia) Ha) as [Hin Hs128].
      split_and!; try nia. eapply access_static_does; [eapply wide_position_does; try done; try lia; nia | done].
    + intros i j b Hi Hj Hbi Hbj. destruct (Z.lt_trichotomy i j) as [Hij | [? | Hij]]; [| done |]; nia.
Qed.

(** *** The check of the index *)

Definition index_check (len : Z) : gen := num len << I.DUP2 << I.LT << I.ISZERO << appendConditionalInvalid.

Lemma seq_assoc g1 g2 g3 n : (g1 << g2 << g3) n = (g1 << (g2 << g3)) n.
Proof.
  unfold seq. destruct (g1 n) as [[l1 n1] |]; [| done]. cbn [mbind option_bind]. destruct (g2 n1) as [[l2 n2] |]; [| done].
  cbn [mbind option_bind]. destruct (g3 n2) as [[l3 n3] |]; [| done]. cbn [mbind option_bind]. by rewrite app_assoc.
Qed.
Lemma seq_cong g1 g1' g2 n : (forall n, g1 n = g1' n) -> (g1 << g2) n = (g1' << g2) n.
Proof. intros E. unfold seq. by rewrite E. Qed.

(** The access with the check is the check and the access without it. *)
Lemma access_checked base len g n :
  (accessIndex Storage false base (Some len) true << g) n = (index_check len << (accessIndex Storage false base (Some len) false << g)) n.
Proof.
  rewrite <- seq_assoc. apply seq_cong. clear n. intros n. unfold accessIndex. cbv iota.
  set (body := fun n : Z => _).
  change (retrieveLength Storage false (Some len) 1 << I.DUP2 << I.LT << I.ISZERO << appendConditionalInvalid) with (index_check len).
  generalize (index_check len) as check. intros check. clearbody body. unfold seq, emit. destruct (check n) as [[l m] |]; [| done].
  cbn [mbind option_bind]. destruct (body m) as [[l' k] |]; [| done]. cbn [mbind option_bind app]. by rewrite app_nil_r, <- app_assoc.
Qed.

Section Checked.
Context {H : Type} (X : Ctx H) (V : AssemblyItem -> Z) (HM : machine_ok X V).

Lemma test_index len i st h : inw 128 len -> (length st <= 8)%nat ->
  executes X V (num len << I.DUP2 << I.LT << I.ISZERO) (i :: st) h (b2z (b2z (i <? len) =? 0) :: i :: st) h.
Proof.
  intros Hlen Hst. apply (does_executes X V HM 16); [| cbn; lia].
  apply (does_top X 8 16 _ [i] h [_; _] h st); [runs idtac; done | cbn; lia].
Qed.
Lemma index_passes len i st h : inw 128 len -> (length st <= 8)%nat -> i < len -> executes X V (index_check len) (i :: st) h (i :: st) h.
Proof.
  intros Hlen Hst Hi. eapply executes_seq; [by apply test_index |]. rewrite (proj2 (Z.ltb_lt i len) Hi). apply check_passes; [done | cbn; lia].
Qed.
Lemma index_fails len i st h g : inw 128 len -> (length st <= 8)%nat -> len <= i -> (forall n, is_Some (g n)) -> fails X V (index_check len << g) (i :: st) h.
Proof.
  intros Hlen Hst Hi Hg. apply fails_seq; [| done]. eapply executes_fails; [by apply test_index |].
  rewrite (proj2 (Z.ltb_ge i len) Hi). apply check_fails; [done | cbn; lia | done].
Qed.
Lemma executes_same g g' st h st' h' : (forall n, g n = g' n) -> executes X V g' st h st' h' -> executes X V g st h st' h'.
Proof. intros E Hx n. rewrite E. apply Hx. Qed.
Lemma fails_same g g' st h : (forall n, g n = g' n) -> fails X V g' st h -> fails X V g st h.
Proof. intros E Hx n. rewrite E. apply Hx. Qed.
Lemma executes_generates g st h st' h' : executes X V g st h st' h' -> forall n, is_Some (g n).
Proof. intros Hx n. destruct (Hx n) as (l & n' & -> & _). by eexists. Qed.
End Checked.

(** C16: Arrays in storage work as arrays: for static arrays of simple values,
    with a length that is a word, the code for assigning an element, which
    checks the index, runs on the machine and takes value, array and index from
    the stack; afterwards the code for reading element [j] gives the value
    assigned if [j] is that index and what it gave before otherwise; and with an
    index that is not below the length both come to an INVALID instruction and
    abort.  Arrays of external functions lie in the first 2^32 slots. *)
Theorem array_assignment_correct {H} (X : Ctx H) V base len size ref i x h (access := accessIndex Storage false base (Some len) true) :
  machine_ok X V -> storage_ok X -> simple base -> storageSize (ArrayType Storage false Ordinary base (Some len)) = Some size -> len < 2 ^ 128 ->
  0 <= ref -> ref + size <= 2 ^ 128 -> (is_external base = true -> ref + size <= 2 ^ 32) -> 0 <= i < len -> raw_ok base x ->
  (exists h', executes X V (access << StorageItem_storeValue base base true) (i :: ref :: stack_words base x) h [] h' /\
    forall j, 0 <= j < len -> (j <> i -> raw_ok base (field base (element base ref j) (sload X h))) ->
      executes X V (access << StorageItem_retrieveValue base true) [j; ref] h'
        (stack_words base (if j =? i then x else field base (element base ref j) (sload X h))) h') /\
  (forall j, len <= j < 2 ^ 128 ->
    fails X V (access << StorageItem_storeValue base base true) (j :: ref :: stack_words base x) h /\
    fails X V (access << StorageItem_retrieveValue base true) [j; ref] h).
Proof.
  intros HM HS Ht Hsize Hlen Hr Hrs He Hi Hx. destruct (array_element_does X base len size ref Ht Hsize Hr Hrs) as [Hel Hdis].
  assert (inw 128 len) as Hw by (unfold inw; lia). pose proof (stack_words_length base x) as Hwords.
  destruct (Hel i h Hi) as (Ha & Hpos & Hlt & _).
  destruct (store_does X HS base _ x h Ht Hpos Hx) as (h' & Hd & Hst); [intros E; specialize (He E); lia |].
  assert (executes X V (accessIndex Storage false base (Some len) false << StorageItem_storeValue base base true) (i :: ref :: stack_words base x) h [] h') as Hstore.
  { eapply (does_executes X V HM 16); [| cbn; lia].
    eapply does_seq; [apply (does_top X 8 16 _ [i; ref] h [_; _] h _ Ha); lia | exact Hd]. }
  assert (forall j, 0 <= j < len -> (j <> i -> raw_ok base (field base (element base ref j) (sload X h))) ->
    executes X V (accessIndex Storage false base (Some len) false << StorageItem_retrieveValue base true) [j; ref] h'
      (stack_words base (if j =? i then x else field base (element base ref j) (sload X h))) h') as Hread.
  { intros j Hj Hy. destruct (Hel j h' Hj) as (Haj & Hposj & _ & _).
    assert (field base (element base ref j) (sload X h') = if j =? i then x else field base (element base ref j) (sload X h)) as E.
    { destruct (Z.eqb_spec j i) as [-> | Hne]; [apply Hst |]. apply field_local; [done | done | intros k; split; apply (st_word X HS) |].
      intros k b Hk Hb Ho. apply (proj2 Hst); [done | done |]. intros Ho'. apply Hne. by eapply Hdis. }
    eapply (does_executes X V HM 8); [| cbn; lia]. eapply does_seq; [exact Haj |]. rewrite <- E. apply retrieve_does; try done.
    rewrite E. destruct (Z.eqb_spec j i); [done | by apply Hy]. }
  split.
  - exists h'. split.
    + eapply executes_same; [intros n; apply access_checked |]. eapply executes_seq; [apply index_passes; try done; [cbn; lia | lia] | exact Hstore].
    + intros j Hj Hy. eapply executes_same; [intros n; apply access_checked |].
      eapply executes_seq; [apply index_passes; try done; [cbn; lia | lia] | by apply Hread].
  - intros j Hj. split; (eapply fails_same; [intros n; apply access_checked |]); apply index_fails; try done; try (cbn; lia); try lia.
    + exact (executes_generates X V _ _ _ _ _ Hstore).
    + exact (executes_generates X V _ _ _ _ _ (Hread i Hi ltac:(done))).
Qed.

Lemma array_assignment_correct_witness : exists h',
  executes store_ctx constants
    (accessIndex Storage false (IntegerType 32 Unsigned) (Some 10) true << StorageItem_storeValue (IntegerType 32 Unsigned) (IntegerType 32 Unsigned) true)
    [6; 100; 77] (fun _ => 5) [] h' /\
  executes store_ctx constants
    (accessIndex Storage false (IntegerType 32 Unsigned) (Some 10) true << StorageItem_retrieveValue (IntegerType 32 Unsigned) true)
    [6; 100] h' [77] h' /\
  fails store_ctx constants
    (accessIndex Storage false (IntegerType 32 Unsigned) (Some 10) true << StorageItem_retrieveValue (IntegerType 32 Unsigned) true)
    [10; 100] (fun _ => 5).
Proof.
  destruct (array_assignment_correct store_ctx constants (IntegerType 32 Unsigned) 10 3 100 6 77 (fun _ => 5) store_machine store_storage)
    as [(h' & H1 & H2) H3]; [cbn; split_and!; done || lia | done | lia | lia | lia | done | lia | unfold raw_ok, inw; lia |].
  exists h'. split; [exact H1 |]. split; [exact (H2 6 ltac:(lia) ltac:(done)) | exact (proj2 (H3 10 ltac:(lia)))].
Defined.

(** C37: The elements of an array of arrays, or of structs, that take several slots
    overlap: whatever their size, [accessIndex] puts each one slot behind the one
    before, and the second slot of an element is the first of the next. *)
Theorem nested_elements_overlap {H} (X : Ctx H) V base len size ref i h :
  machine_ok X V -> canBeStored base = true -> storageBytes base = Some 16 -> storageSize base = Some size -> 2 <= size ->
  0 <= i -> 0 <= ref -> ref + i + 1 < 2 ^ 128 ->
  executes X V (accessIndex Storage false base (Some len) false) [i; ref] h [0; ref + i] h /\
  executes X V (accessIndex Storage false base (Some len) false) [i + 1; ref] h [0; ref + i + 1] h /\
  occupies base (ref + i, 0) (16 * (ref + i + 1)) /\ occupies base (ref + i + 1, 0) (16 * (ref + i + 1)).
Proof.
  intros HM Hc En Es Hs Hi Hr Hmax.
  assert (forall k, 0 <= k -> ref + k < 2 ^ 128 ->
    executes X V (accessIndex Storage false base (Some len) false) [k; ref] h [0; ref + k] h) as Hpos.
  { intros k Hk Hrk. eapply (does_executes X V HM 8); [ | cbn; lia]. eapply access_static_does; [| done].
    eapply does_eq; [apply (packed_position_does X base 16); try done; try lia | | done]; change (16 / 16) with 1; rewrite Z.div_1_r; [done |].
    by rewrite Z.mod_1_r. }
  assert (type_layout base = Some (Some (16, size))) as El by (unfold type_layout; by rewrite Hc, En, Es).
  split_and!; [apply Hpos; lia | rewrite <- Z.add_assoc; apply Hpos; lia | |]; unfold occupies; rewrite El; unfold start, extent; cbn [fst snd];
    rewrite (proj2 (Z.eqb_neq size 1)) by lia; cbn [andb]; lia.
Qed.

Lemma nested_elements_overlap_witness :
  executes store_ctx constants
    (accessIndex Storage false (ArrayType Storage false Ordinary (IntegerType 128 Unsigned) (Some 3)) (Some 2) false) [1; 100] (fun _ => 0)
    [0; 101] (fun _ => 0).
Proof.
  apply (nested_elements_overlap store_ctx constants (ArrayType Storage false Ordinary (IntegerType 128 Unsigned) (Some 3)) 2 3 100 1
    (fun _ => 0) store_machine); done || lia.
Defined.

(** The step from an element to the next. *)
Lemma packed_step n i : 1 <= n < 16 -> 0 <= i -> exists carry, 0 <= carry <= 1 /\ 0 <= i mod (16 / n) * n <= 16 - n /\
  i / (16 / n) + carry = (i + 1) / (16 / n) /\ (1 - carry) * (n + i mod (16 / n) * n) = (i + 1) mod (16 / n) * n /\
  (n - 1 + (n + i mod (16 / n) * n)) / 16 = carry.
Proof.
  intros Hn Hi. set (per := 16 / n). assert (1 <= per <= 16) as Hper by (split; [apply Z.div_le_lower_bound | apply Z.div_le_upper_bound]; lia).
  pose proof (Z.div_mod 16 n ltac:(lia)) as Hd. pose proof (Z.mod_pos_bound 16 n ltac:(lia)). fold per in Hd.
  pose proof (Z.mod_pos_bound i per ltac:(lia)). pose proof (Z.div_mod i per ltac:(lia)).
  assert (0 <= i mod per * n <= 16 - n) by nia.
  destruct (Z.eq_dec (i mod per + 1) per) as [E | E].
  - exists 1. assert (i + 1 = (i / per + 1) * per) as -> by nia. rewrite Z.div_mul, Z.mod_mul by lia. split_and!; try lia.
    symmetry. apply (Z.div_unique_pos _ 16 1 (n - 1 + (n + i mod per * n) - 16)); nia.
  - exists 0. rewrite <- (Z.div_unique_pos (i + 1) per (i / per) (i mod per + 1)), <- (Z.mod_unique_pos (i + 1) per (i / per) (i mod per + 1)) by lia.
    split_and!; try lia. apply Z.div_small. nia.
Qed.

(** The step from an element to the next, with the stack layouts the compiler
    uses, keeps to the places of the elements: from the position of element [i]
    it makes that of element [i + 1]. *)
Theorem incrementByteOffset_correct {H} (X : Ctx H) V base n ref i a b c h (p := element base ref i) (q := element base ref (i + 1)) :
  machine_ok X V -> type_layout base = Some (Some (n, 1)) -> 1 <= n < 16 -> 0 <= i -> 0 <= ref -> ref + (i + 1) / (16 / n) < 2 ^ 128 ->
  executes X V (incrementByteOffset n 1 4) [snd p; a; b; fst p] h [snd q; a; b; fst q] h /\
  executes X V (incrementByteOffset n 1 5) [snd p; a; b; c; fst p] h [snd q; a; b; c; fst q] h /\
  executes X V (incrementByteOffset n 2 3) [a; snd p; fst p] h [a; snd q; fst q] h.
Proof.
  intros HM El Hn Hi Hr Hs. subst p q. unfold element. rewrite El. rewrite (proj2 (Z.leb_le n 16)) by lia. cbn [fst snd].
  destruct (packed_step n i Hn Hi) as (carry & Hc & Ho & E1 & E2 & Hdiv). set (o := i mod (16 / n) * n) in *.
  assert (1 <= 16 / n <= 16) as Hper by (split; [apply Z.div_le_lower_bound | apply Z.div_le_upper_bound]; lia).
  pose proof (Z.div_pos i (16 / n) Hi ltac:(lia)).
  assert (wrap 128 (n + o) = n + o) as W1 by (apply wrap_small; unfold inw; lia).
  assert (wrap 128 (n - 1 + (n + o)) = n - 1 + (n + o)) as W2 by (apply wrap_small; unfold inw; lia).
  assert (wrap 128 (carry + (ref + i / (16 / n))) = ref + (i + 1) / (16 / n)) as W3 by (rewrite <- E1, wrap_small by (unfold inw; lia); lia).
  assert (wrap 128 ((1 - carry) * (n + o)) = (i + 1) mod (16 / n) * n) as W4 by (rewrite <- E2; apply wrap_small; unfold inw; nia).
  assert (wrap 128 (1 - carry) = 1 - carry) as W5 by (apply wrap_small; unfold inw; lia).
  unfold incrementByteOffset. rewrite (proj2 (Z.ltb_lt n 16)), (proj2 (Z.eqb_neq n 0)) by lia. cbn [andb negb need_].
  split_and!; (eapply (does_executes X V HM 16); [ | cbn; lia]).
  - change (1 <? 1) with false. change (1 =? 1) with true. cbv iota.
    change (dup (1 + 1)) with I.DUP2. change (swap 4) with (op 0x93). change (dup (4 + 1)) with I.DUP5.
    runs idtac; [| done]. rewrite W1, W2. change (16 =? 0) with false. cbv iota. by rewrite Hdiv, W5, W4, W3.
  - change (1 <? 1) with false. change (1 =? 1) with true. cbv iota.
    change (dup (1 + 1)) with I.DUP2. change (swap 5) with (op 0x94). change (dup (5 + 1)) with (op 0x85).
    runs idtac; [| done]. rewrite W1, W2. change (16 =? 0) with false. cbv iota. by rewrite Hdiv, W5, W4, W3.
  - change (1 <? 2) with true. change (2 =? 1) with false. cbv iota.
    change (dup (1 + 2)) with I.DUP3. change (swap (2 - 1)) with I.SWAP1. change (swap 3) with (op 0x92). change (dup (3 + 1)) with I.DUP4.
    change (dup (2 + 1)) with I.DUP3. change (swap 2) with I.SWAP2.
    runs idtac; [| done]. rewrite W1, W2. change (16 =? 0) with false. cbv iota. by rewrite Hdiv, W5, Z.mul_comm, W4, W3.
Qed.

Lemma incrementByteOffset_correct_witness :
  executes store_ctx constants (incrementByteOffset 4 2 3) [77; 12; 100] (fun _ => 0) [77; 0; 101] (fun _ => 0).
Proof.
  apply (incrementByteOffset_correct store_ctx constants (IntegerType 32 Unsigned) 4 100 3 77 0 0 (fun _ => 0) store_machine eq_refl); first [lia | done].
Defined.
