(* ===== verification/SimplRules.v ===== *)
(** * The simplification rules of the optimiser

    libevmasm/SimplificationRules.cpp and .h: patterns, their match groups,
    the list of rules and the search for the first rule that applies, over the
    expressions and classes of ExpressionClasses.h.  An exception is [None].
    Every expression has an item.  A rule's action reads the constants bound
    to its match groups through the function it is given.

    The rules compute on words of 256 bits.  [word_op] says what the
    instructions mean there, and [rules_sound] that both sides of every rule
    have the same value. *)
From S2P Require Import Prelude Bytes AsmItem.

(** ** Expressions *)

(** [enum AssemblyItemType]. *)
Module Ty.
Inductive t := UndefinedItem | Operation | Push | PushString | PushTag | PushSub | PushSubSize | PushProgramSize
  | Tag | PushData | PushLibraryAddress.
#[global] Instance t_eq_dec : EqDecision t.
Proof. solve_decision. Defined.
End Ty.

(** [AssemblyItem::type], [data] and [instruction] with their assertions. *)
Definition type (item : AssemblyItem) : Ty.t :=
  match item with
  | UndefinedItem _ => Ty.UndefinedItem
  | Operation _ => Ty.Operation
  | Push _ => Ty.Push
  | PushString _ => Ty.PushString
  | PushTag _ => Ty.PushTag
  | PushSub _ => Ty.PushSub
  | PushSubSize _ => Ty.PushSubSize
  | PushProgramSize _ => Ty.PushProgramSize
  | Tag _ => Ty.Tag
  | PushData _ => Ty.PushData
  | PushLibraryAddress _ => Ty.PushLibraryAddress
  end.

Definition data (item : AssemblyItem) : option Z :=
  match item with
  | Operation _ => None
  | UndefinedItem d | Push d | PushString d | PushTag d | PushSub d | PushSubSize d | PushProgramSize d
  | Tag d | PushData d | PushLibraryAddress d => Some d
  end.

Definition item_instruction (item : AssemblyItem) : option Z :=
  match item with Operation i => Some i | _ => None end.

(** The constructor [AssemblyItem(type, data)]. *)
Definition make_item (t : Ty.t) (d : Z) : AssemblyItem :=
  match t with
  | Ty.UndefinedItem => UndefinedItem d
  | Ty.Operation => Operation (wrap 8 d)
  | Ty.Push => Push d
  | Ty.PushString => PushString d
  | Ty.PushTag => PushTag d
  | Ty.PushSub => PushSub d
  | Ty.PushSubSize => PushSubSize d
  | Ty.PushProgramSize => PushProgramSize d
  | Ty.Tag => Tag d
  | Ty.PushData => PushData d
  | Ty.PushLibraryAddress => PushLibraryAddress d
  end.

(** [ExpressionClasses::Expression]: an item applied to classes. *)
Record Expression := mkExpr { e_id : nat; e_item : AssemblyItem; e_args : list nat; e_seq : nat }.

(** [class ExpressionClasses]: one expression per class and every expression seen. *)
Record ExpressionClasses := mkClasses { m_representatives : list Expression; m_expressions : list Expression }.

Definition representative (c : ExpressionClasses) (id : nat) : option Expression := m_representatives c !! id.

(** ** Patterns *)

(** [class Pattern]. *)
Inductive Pattern := mkPattern {
  m_type : Ty.t;
  m_requireDataMatch : bool;
  m_instruction : Z;
  m_data : option Z;
  m_arguments : list Pattern;
  m_matchGroup : nat
}.

(** Its constructors: a constant, a type of items, an instruction with arguments. *)
Definition constant (v : Z) : Pattern := mkPattern Ty.Push true 0 (Some v) [] 0.
Definition of_type (t : Ty.t) : Pattern := mkPattern t false 0 None [] 0.
Definition operation (i : Z) (ps : list Pattern) : Pattern := mkPattern Ty.Operation false i None ps 0.

Definition setMatchGroup (g : nat) (p : Pattern) : Pattern :=
  mkPattern (m_type p) (m_requireDataMatch p) (m_instruction p) (m_data p) (m_arguments p) g.

Definition instruction (p : Pattern) : option Z :=
  match m_type p with Ty.Operation => Some (m_instruction p) | _ => None end.

(** The expressions bound to match groups, the last one first. *)
Definition groups : Type := list (nat * Expression).
Definition group (gs : groups) (g : nat) : option Expression := snd <$> List.find (fun b => (b.1 =? g)%nat) gs.

(** [matchesBaseItem]. *)
Definition matchesBaseItem (p : Pattern) (item : AssemblyItem) : option bool :=
  if decide (m_type p = Ty.UndefinedItem) then Some true
  else if decide (m_type p ≠ type item) then Some false
  else if decide (m_type p = Ty.Operation) then i ← item_instruction item; Some (m_instruction p =? i)
  else if m_requireDataMatch p then v ← m_data p; d ← data item; Some (v =? d)
  else Some true.

(** The part of [matches] on the match group; [None] if the group is bound to another class. *)
Definition bind_group (g : nat) (e : Expression) (gs : groups) : option groups :=
  if (g =? 0)%nat then Some gs
  else match group gs g with
       | None => Some ((g, e) :: gs)
       | Some e' => if (e_id e' =? e_id e)%nat then Some gs else None
       end.

(** [matches]: [Some None] if the expression does not match. *)
Fixpoint matches (p : Pattern) (c : ExpressionClasses) (e : Expression) (gs : groups) {struct p} : option (option groups) :=
  match matchesBaseItem p (e_item e) with
  | None => None
  | Some false => Some None
  | Some true =>
      match bind_group (m_matchGroup p) e gs with
      | None => Some None
      | Some gs =>
          if (length (m_arguments p) =? 0)%nat || (length (e_args e) =? length (m_arguments p))%nat
          then (fix go (ps : list Pattern) (ids : list nat) (gs : groups) : option (option groups) :=
                  match ps, ids with
                  | [], _ => Some (Some gs)
                  | _, [] => None
                  | p :: ps, id :: ids =>
                      match representative c id with
                      | None => None
                      | Some e =>
                          match matches p c e gs with
                          | Some (Some gs) => go ps ids gs
                          | r => r
                          end
                      end
                  end) (m_arguments p) (e_args e) gs
          else None
      end
  end.

(** [matchGroupValue], [id] and [d] for a match group. *)
Definition group_id (gs : groups) (g : nat) : option nat := e_id <$> group gs g.
Definition group_data (gs : groups) (g : nat) : option Z := e ← group gs g; data (e_item e).

(** [toAssemblyItem]. *)
Definition toAssemblyItem (p : Pattern) : option AssemblyItem :=
  if decide (m_type p = Ty.Operation) then Some (Operation (m_instruction p))
  else make_item (m_type p) <$> m_data p.

(** [struct ExpressionTemplate]: a class if there is one, or else an item with arguments. *)
Inductive ExpressionTemplate := mkTemplate (id : option nat) (item : AssemblyItem) (arguments : list ExpressionTemplate).

Fixpoint template (gs : groups) (p : Pattern) : option ExpressionTemplate :=
  ts ← (fix go (ps : list Pattern) : option (list ExpressionTemplate) :=
          match ps with
          | [] => Some []
          | p :: ps => t ← template gs p; ts ← go ps; Some (t :: ts)
          end) (m_arguments p);
  if (m_matchGroup p =? 0)%nat then item ← toAssemblyItem p; Some (mkTemplate None item ts)
  else id ← group_id gs (m_matchGroup p); Some (mkTemplate (Some id) (UndefinedItem 0) ts).

(** ** Words of 256 bits *)

(** [u2s] and [s2u] of libdevcore. *)
Definition u2s (u : Z) : Z := if Z.testbit u 255 then - (2 ^ 256 - u) else u.
Definition s2u (s : Z) : Z := if 0 <=? s then wrap 256 s else wrap 256 (2 ^ 256 + s).

(** [divWorkaround] and [modWorkaround]: the division of [bigint] truncates. *)
Definition divWorkaround (a b : Z) : Z := Z.quot a b.
Definition modWorkaround (a b : Z) : Z := Z.rem a b.

(** [~] of a [u256], and [boost::multiprecision::powm] by squaring. *)
Definition complement (a : Z) : Z := 2 ^ 256 - 1 - a.
Fixpoint powm_pos (a : Z) (b : positive) (m : Z) : Z :=
  match b with
  | xH => a mod m
  | xO b => let h := powm_pos a b m in (h * h) mod m
  | xI b => let h := powm_pos a b m in (a * ((h * h) mod m)) mod m
  end.
Definition powm (a b m : Z) : Z := match b with Zpos b => powm_pos a b m | _ => 1 mod m end.

Definition of_bool (b : bool) : Z := if b then 1 else 0.

(** ** The rules *)

Definition rule : Type := (Pattern * ((nat -> option Z) -> option Pattern))%type.

(** The match groups of the rules: constants and anything. *)
Module Groups.
Definition A : Pattern := setMatchGroup 1 (of_type Ty.Push).
Definition B : Pattern := setMatchGroup 2 (of_type Ty.Push).
Definition C : Pattern := setMatchGroup 3 (of_type Ty.Push).
Definition X : Pattern := setMatchGroup 4 (of_type Ty.UndefinedItem).
Definition Y : Pattern := setMatchGroup 5 (of_type Ty.UndefinedItem).
End Groups.
Import Groups.

(** Actions that compute a constant from [A.d()], [B.d()] and [C.d()], and actions that return a pattern. *)
Definition fold1 (f : Z -> Z) : (nat -> option Z) -> option Pattern := fun d => a ← d 1%nat; Some (constant (f a)).
Definition fold2 (f : Z -> Z -> Z) : (nat -> option Z) -> option Pattern :=
  fun d => a ← d 1%nat; b ← d 2%nat; Some (constant (f a b)).
Definition fold3 (f : Z -> Z -> Z -> Z) : (nat -> option Z) -> option Pattern :=
  fun d => a ← d 1%nat; b ← d 2%nat; c ← d 3%nat; Some (constant (f a b c)).
Definition gives (p : Pattern) : (nat -> option Z) -> option Pattern := fun _ => Some p.

Definition fold_byte (a b : Z) : Z := if 32 <=? a then 0 else Z.land (Z.shiftr b (8 * (31 - a))) 0xff.
Definition fold_signextend (a b : Z) : Z :=
  if 31 <=? a then b
  else
    let testBit := a * 8 + 7 in
    let mask := Z.shiftl 1 testBit - 1 in
    if Z.testbit b testBit then Z.lor b (complement mask) else Z.land b mask.

(** Arithmetics on constants. *)
Definition constant_rules : list rule :=
  [(operation Op.ADD [A; B], fold2 (fun a b => wrap 256 (a + b)));
   (operation Op.MUL [A; B], fold2 (fun a b => wrap 256 (a * b)));
   (operation Op.SUB [A; B], fold2 (fun a b => wrap 256 (a - b)));
   (operation Op.DIV [A; B], fold2 (fun a b => if b =? 0 then 0 else divWorkaround a b));
   (operation Op.SDIV [A; B], fold2 (fun a b => if b =? 0 then 0 else s2u (divWorkaround (u2s a) (u2s b))));
   (operation Op.MOD [A; B], fold2 (fun a b => if b =? 0 then 0 else modWorkaround a b));
   (operation Op.SMOD [A; B], fold2 (fun a b => if b =? 0 then 0 else s2u (modWorkaround (u2s a) (u2s b))));
   (operation Op.EXP [A; B], fold2 (fun a b => powm a b (Z.shiftl 1 256)));
   (operation Op.NOT [A], fold1 complement);
   (operation Op.LT [A; B], fold2 (fun a b => of_bool (a <? b)));
   (operation Op.GT [A; B], fold2 (fun a b => of_bool (b <? a)));
   (operation Op.SLT [A; B], fold2 (fun a b => of_bool (u2s a <? u2s b)));
   (operation Op.SGT [A; B], fold2 (fun a b => of_bool (u2s b <? u2s a)));
   (operation Op.EQ [A; B], fold2 (fun a b => of_bool (a =? b)));
   (operation Op.ISZERO [A], fold1 (fun a => of_bool (a =? 0)));
   (operation Op.AND [A; B], fold2 Z.land);
   (operation Op.OR [A; B], fold2 Z.lor);
   (operation Op.XOR [A; B], fold2 Z.lxor);
   (operation Op.BYTE [A; B], fold2 fold_byte);
   (operation Op.ADDMOD [A; B; C], fold3 (fun a b c => if c =? 0 then 0 else (a + b) mod c));
   (operation Op.MULMOD [A; B; C], fold3 (fun a b c => if c =? 0 then 0 else (a * b) mod c));
   (operation Op.MULMOD [A; B; C], fold2 (fun a b => wrap 256 (a * b)));
   (operation Op.SIGNEXTEND [A; B], fold2 fold_signextend)].

(** Invariants involving known constants, and operations involving an expression and itself. *)
Definition invariant_rules : list rule :=
  [(operation Op.ADD [X; constant 0], gives X);
   (operation Op.SUB [X; constant 0], gives X);
   (operation Op.MUL [X; constant 0], gives (constant 0));
   (operation Op.MUL [X; constant 1], gives X);
   (operation Op.DIV [X; constant 0], gives (constant 0));
   (operation Op.DIV [constant 0; X], gives (constant 0));
   (operation Op.DIV [X; constant 1], gives X);
   (operation Op.SDIV [X; constant 0], gives (constant 0));
   (operation Op.SDIV [constant 0; X], gives (constant 0));
   (operation Op.SDIV [X; constant 1], gives X);
   (operation Op.AND [X; constant (complement 0)], gives X);
   (operation Op.AND [X; constant 0], gives (constant 0));
   (operation Op.OR [X; constant 0], gives X);
   (operation Op.OR [X; constant (complement 0)], gives (constant (complement 0)));
   (operation Op.XOR [X; constant 0], gives X);
   (operation Op.MOD [X; constant 0], gives (constant 0));
   (operation Op.MOD [constant 0; X], gives (constant 0));
   (operation Op.EQ [X; constant 0], gives (operation Op.ISZERO [X]));
   (operation Op.AND [X; X], gives X);
   (operation Op.OR [X; X], gives X);
   (operation Op.XOR [X; X], gives (constant 0));
   (operation Op.SUB [X; X], gives (constant 0));
   (operation Op.EQ [X; X], gives (constant 1));
   (operation Op.LT [X; X], gives (constant 0));
   (operation Op.SLT [X; X], gives (constant 0));
   (operation Op.GT [X; X], gives (constant 0));
   (operation Op.SGT [X; X], gives (constant 0));
   (operation Op.MOD [X; X], gives (constant 0))].

(** Logical instruction combinations and double negations of opcodes with binary result. *)
Definition logical_rules : list rule :=
  [(operation Op.NOT [operation Op.NOT [X]], gives X);
   (operation Op.XOR [X; operation Op.XOR [X; Y]], gives Y);
   (operation Op.OR [X; operation Op.AND [X; Y]], gives X);
   (operation Op.AND [X; operation Op.OR [X; Y]], gives X);
   (operation Op.AND [X; operation Op.NOT [X]], gives (constant 0));
   (operation Op.OR [X; operation Op.NOT [X]], gives (constant (complement 0)))] ++
  map (fun op => (operation Op.ISZERO [operation Op.ISZERO [operation op [X; Y]]], gives (operation op [X; Y])))
    [Op.EQ; Op.LT; Op.SLT; Op.GT; Op.SGT] ++
  [(operation Op.ISZERO [operation Op.ISZERO [operation Op.ISZERO [X]]], gives (operation Op.ISZERO [X]));
   (operation Op.ISZERO [operation Op.XOR [X; Y]], gives (operation Op.EQ [X; Y]))].

(** The action [{op, {X, fun(A.d(), B.d())}}]. *)
Definition outer (op : Z) (f : Z -> Z -> Z) : (nat -> option Z) -> option Pattern :=
  fun d => a ← d 1%nat; b ← d 2%nat; Some (operation op [X; constant (f a b)]).

(** Moving constants of an associative operation to the outside. *)
Definition associative (opFun : Z * (Z -> Z -> Z)) : list rule :=
  let '(op, f) := opFun in
  [(operation op [operation op [X; A]; B], outer op f);
   (operation op [operation op [X; A]; Y], gives (operation op [operation op [X; Y]; A]));
   (operation op [operation op [A; X]; B], outer op f);
   (operation op [operation op [A; X]; Y], gives (operation op [operation op [X; Y]; A]))].

Definition associative_rules : list rule :=
  concat (map associative
    [(Op.ADD, fun a b => wrap 256 (a + b)); (Op.MUL, fun a b => wrap 256 (a * b));
     (Op.AND, Z.land); (Op.OR, Z.lor); (Op.XOR, Z.lxor)]).

(** The action [{ADD, {p, 0 - A.d()}}]. *)
Definition add_negated (p : Pattern) : (nat -> option Z) -> option Pattern :=
  fun d => a ← d 1%nat; Some (operation Op.ADD [p; constant (wrap 256 (0 - a))]).

(** Moving constants across subtractions. *)
Definition subtraction_rules : list rule :=
  [(operation Op.SUB [X; A], add_negated X);
   (operation Op.SUB [operation Op.ADD [X; A]; Y], gives (operation Op.ADD [operation Op.SUB [X; Y]; A]));
   (operation Op.SUB [operation Op.ADD [A; X]; Y], gives (operation Op.ADD [operation Op.SUB [X; Y]; A]));
   (operation Op.SUB [X; operation Op.ADD [Y; A]], add_negated (operation Op.SUB [X; Y]));
   (operation Op.SUB [X; operation Op.ADD [A; Y]], add_negated (operation Op.SUB [X; Y]))].

Definition all_rules : list rule :=
  constant_rules ++ invariant_rules ++ logical_rules ++ associative_rules ++ subtraction_rules.

(** [addRule] and [addRules]: the rules are kept by the first byte of what they match. *)
Definition addRule (m : list (list rule)) (r : rule) : option (list (list rule)) :=
  i ← instruction r.1; Some (alter (fun l => l ++ [r]) (Z.to_nat (wrap 8 i)) m).
Fixpoint addRules (m : list (list rule)) (rs : list rule) : option (list (list rule)) :=
  match rs with [] => Some m | r :: rs => m ← addRule m r; addRules m rs end.

(** [Rules::Rules]. *)
Definition Rules : option (list (list rule)) := addRules (replicate 256 []) all_rules.

(** [findFirstMatch]: the match groups are reset before every rule. *)
Fixpoint first_match (c : ExpressionClasses) (e : Expression) (rs : list rule) : option (option (rule * groups)) :=
  match rs with
  | [] => Some None
  | r :: rs =>
      match matches r.1 c e [] with
      | None => None
      | Some (Some gs) => Some (Some (r, gs))
      | Some None => first_match c e rs
      end
  end.
Definition findFirstMatch (c : ExpressionClasses) (e : Expression) : option (option (rule * groups)) :=
  m ← Rules; i ← item_instruction (e_item e); rs ← m !! Z.to_nat (wrap 8 i); first_match c e rs.

(** ** What instructions mean *)

(** The value of an instruction on 256-bit words, for those the rules know. *)
Definition word_op (i : Z) (vs : list Z) : option Z :=
  match vs with
  | [a] =>
      if i =? Op.NOT then Some (wrap 256 (Z.lnot a))
      else if i =? Op.ISZERO then Some (of_bool (a =? 0))
      else None
  | [a; b] =>
      if i =? Op.ADD then Some (wrap 256 (a + b))
      else if i =? Op.MUL then Some (wrap 256 (a * b))
      else if i =? Op.SUB then Some (wrap 256 (a - b))
      else if i =? Op.DIV then Some (if b =? 0 then 0 else a / b)
      else if i =? Op.SDIV then Some (if b =? 0 then 0 else wrap 256 (Z.quot (sgn 256 a) (sgn 256 b)))
      else if i =? Op.MOD then Some (if b =? 0 then 0 else a mod b)
      else if i =? Op.SMOD then Some (if b =? 0 then 0 else wrap 256 (Z.rem (sgn 256 a) (sgn 256 b)))
      else if i =? Op.EXP then Some (wrap 256 (a ^ b))
      else if i =? Op.SIGNEXTEND then Some (if a <=? 30 then wrap 256 (sgn (8 * a + 8) (wrap (8 * a + 8) b)) else b)
      else if i =? Op.LT then Some (of_bool (a <? b))
      else if i =? Op.GT then Some (of_bool (b <? a))
      else if i =? Op.SLT then Some (of_bool (sgn 256 a <? sgn 256 b))
      else if i =? Op.SGT then Some (of_bool (sgn 256 b <? sgn 256 a))
      else if i =? Op.EQ then Some (of_bool (a =? b))
      else if i =? Op.AND then Some (Z.land a b)
      else if i =? Op.OR then Some (Z.lor a b)
      else if i =? Op.XOR then Some (Z.lxor a b)
      else if i =? Op.BYTE then Some (if a <? 32 then default 0 (be_bytes 32 b !! Z.to_nat a) else 0)
      else None
  | [a; b; m] =>
      if i =? Op.ADDMOD then Some (if m =? 0 then 0 else (a + b) mod m)
      else if i =? Op.MULMOD then Some (if m =? 0 then 0 else (a * b) mod m)
      else None
  | _ => None
  end.

(** The value of a pattern whose match groups have the values [v], with the constants [con] and the operations [opf]. *)
Fixpoint gval (con : Z -> Z) (opf : Z -> list Z -> option Z) (v : nat -> Z) (p : Pattern) : option Z :=
  if (m_matchGroup p =? 0)%nat then
    match m_type p with
    | Ty.Push => d ← m_data p; Some (con d)
    | Ty.Operation =>
        vs ← (fix go (ps : list Pattern) : option (list Z) :=
                match ps with
                | [] => Some []
                | p :: ps => x ← gval con opf v p; xs ← go ps; Some (x :: xs)
                end) (m_arguments p);
        opf (m_instruction p) vs
    | _ => None
    end
  else Some (v (m_matchGroup p)).

(** Its value as a word. *)
Abbreviation pval := (gval id word_op).

(** The match groups of a pattern, and those that match constants only. *)
Fixpoint pattern_groups (p : Pattern) : list nat :=
  (if (m_matchGroup p =? 0)%nat then [] else [m_matchGroup p]) ++
  (fix go (ps : list Pattern) : list nat :=
     match ps with [] => [] | p :: ps => pattern_groups p ++ go ps end) (m_arguments p).
Fixpoint constant_groups (p : Pattern) : list nat :=
  (if decide (m_type p = Ty.Push) then if (m_matchGroup p =? 0)%nat then [] else [m_matchGroup p] else []) ++
  (fix go (ps : list Pattern) : list nat :=
     match ps with [] => [] | p :: ps => constant_groups p ++ go ps end) (m_arguments p).

(** ** The rules are sound *)

(** Whether [word_op] defines an instruction. *)
Definition knows (i : Z) : bool := bool_decide (is_Some (word_op i (replicate (arguments (Operation i)) 0))).

Lemma knows_word_op i vs : knows i = true -> length vs = arguments (Operation i) -> is_Some (word_op i vs).
Proof.
  intros H%bool_decide_eq_true Hl. rewrite <- Hl in H. clear Hl. destruct vs as [| a [| b [| m [|]]]];
  cbn [length replicate] in H; unfold word_op in *; cbv iota in *; [exact H | | | | destruct H as [? [=]]];
  repeat match goal with |- is_Some (if i =? ?o then _ else _) => destruct (i =? o); [eexists; reflexivity |] end;
  exact H.
Qed.

(** A template that can be built: its match groups are bound, its items well formed. *)
Definition op_ok (i : Z) : bool := (0 <=? i) && (i <? 256) && (isDeterministic (Operation i) && knows i).

Fixpoint buildable (gs : list nat) (p : Pattern) : bool :=
  if (m_matchGroup p =? 0)%nat then
    match m_type p with
    | Ty.Push =>
        (length (m_arguments p) =? 0)%nat && match m_data p with Some d => bool_decide (inw 256 d) | None => false end
    | Ty.Operation =>
        op_ok (m_instruction p) && (length (m_arguments p) =? arguments (Operation (m_instruction p)))%nat &&
        (fix go (ps : list Pattern) : bool :=
           match ps with [] => true | p :: ps => buildable gs p && go ps end) (m_arguments p)
    | _ => false
    end
  else (length (m_arguments p) =? 0)%nat && existsb (Nat.eqb (m_matchGroup p)) gs.

Definition rule_ok (r : rule) : Prop :=
  forall (d : nat -> option Z) (v : nat -> Z), (forall g, inw 256 (v g)) ->
  Forall (fun g => d g = Some (v g)) (constant_groups r.1) ->
  exists p x, r.2 d = Some p /\ pval v p = Some x /\ pval v r.1 = Some x /\ buildable (pattern_groups r.1) p = true.

Lemma of_bool_inw b : inw 256 (of_bool b).
Proof. destruct b; vm_compute; split; congruence. Qed.

Lemma zero_inw : inw 256 0.
Proof. split; [lia | reflexivity]. Qed.

(** Take the definition of [word_op] apart, one instruction per goal. *)
Ltac op_cases H :=
  lazymatch type of H with
  | (if ?i =? ?o then _ else _) = _ => destruct (i =? o); [injection H as <- | op_cases H]
  | _ => discriminate H
  end.

Lemma word_op_range i vs z : Forall (inw 256) vs -> word_op i vs = Some z -> inw 256 z.
Proof.
  unfold word_op. intros Hvs Hz. destruct vs as [| a [| b [| m [|]]]]; try done; rewrite ?list.Forall_cons in Hvs.
  - destruct Hvs as [Ha _]. op_cases Hz; [apply wrap_inw; lia | apply of_bool_inw].
  - destruct Hvs as (Ha & Hb & _). op_cases Hz; try apply of_bool_inw; try (apply wrap_inw; lia); auto with fastvm.
    + destruct (Z.eqb_spec b 0); [apply zero_inw |]. unfold inw in *. pose proof (Z.div_le_upper_bound a b a). 
      split; [apply Z.div_pos | apply Z.le_lt_trans with a]; nia.
    + case_match; [apply zero_inw | apply wrap_inw; lia].
    + destruct (Z.eqb_spec b 0); [apply zero_inw |]. unfold inw in *. pose proof (Z.mod_pos_bound a b). lia.
    + case_match; [apply zero_inw | apply wrap_inw; lia].
    + case_match; [apply wrap_inw; lia | done].
    + apply land_inw; auto; lia.
    + apply lor_inw; auto; lia.
    + apply lxor_inw; auto; lia.
    + destruct (Z.ltb_spec a 32); [| apply zero_inw]. unfold inw in Ha. rewrite be_bytes_lookup by lia. cbn [default].
      apply (inw_mono 8); [lia |]. apply Z.mod_pos_bound. lia.
  - destruct Hvs as (Ha & Hb & Hm & _).
    op_cases Hz; (destruct (Z.eqb_spec m 0); [apply zero_inw |]); unfold inw in *;
    [pose proof (Z.mod_pos_bound (a + b) m) | pose proof (Z.mod_pos_bound (a * b) m)]; lia.
Qed.

(** *** Arithmetic of the actions *)

Lemma u2s_sgn a : inw 256 a -> u2s a = sgn 256 a.
Proof.
  intros Ha. unfold u2s, sgn. replace (256 - 1) with 255 by lia. destruct (Z.ltb_spec a (2 ^ 255)).
  - rewrite (inw_testbit 255); [done | split; [apply Ha | done] | lia].
  - replace (Z.testbit a 255) with true; [lia |]. symmetry. apply Z.testbit_true; [lia |].
    replace (a / 2 ^ 255) with 1; [done |]. apply (Z.div_unique_pos a (2 ^ 255) 1 (a - 2 ^ 255)); [| lia].
    destruct Ha as [_ Ha]. change (2 ^ 256) with (2 * 2 ^ 255) in Ha. lia.
Qed.

Lemma s2u_wrap s : s2u s = wrap 256 s.
Proof.
  unfold s2u. destruct (0 <=? s); [done |]. unfold wrap. rewrite <- (Z.mod_add s 1 (2 ^ 256)) by done. f_equal. lia.
Qed.

Lemma powm_pos_spec a b m : 0 < m -> powm_pos a b m = a ^ Zpos b mod m.
Proof.
  intros Hm. induction b as [b IH | b IH |]; cbn [powm_pos]; rewrite ?IH.
  - rewrite <- Z.mul_mod by lia. rewrite Z.mul_mod_idemp_r by lia. f_equal.
    rewrite <- Z.pow_add_r by lia. rewrite <- Z.pow_succ_r by lia. f_equal. lia.
  - rewrite <- Z.mul_mod by lia. rewrite <- Z.pow_add_r by lia. f_equal. f_equal. lia.
  - f_equal. symmetry. apply Z.pow_1_r.
Qed.

Lemma powm_spec a b m : 0 <= b -> 0 < m -> powm a b m = a ^ b mod m.
Proof. intros Hb Hm. destruct b; [done | by apply powm_pos_spec | lia]. Qed.

Lemma complement_lnot a : inw 256 a -> complement a = wrap 256 (Z.lnot a).
Proof.
  intros [H1 H2]. unfold complement, wrap, Z.lnot. rewrite <- (Z.mod_add _ 1 (2 ^ 256)) by done.
  rewrite Z.mod_small; lia.
Qed.

Lemma complement_inw a : inw 256 a -> inw 256 (complement a).
Proof. unfold inw, complement. lia. Qed.

Lemma complement_testbit a i : inw 256 a -> 0 <= i -> Z.testbit (complement a) i = (i <? 256) && negb (Z.testbit a i).
Proof. intros Ha Hi. rewrite complement_lnot by done. rewrite wrap_testbit by lia. by rewrite Z.lnot_spec. Qed.

Lemma fold_byte_spec a b : inw 256 a -> fold_byte a b = if a <? 32 then default 0 (be_bytes 32 b !! Z.to_nat a) else 0.
Proof.
  intros [Ha _]. unfold fold_byte. destruct (Z.leb_spec 32 a), (Z.ltb_spec a 32); try done; try lia.
  rewrite be_bytes_lookup by lia. cbn [default]. change 0xff with (Z.ones 8). rewrite Z.land_ones by lia.
  rewrite Z.shiftr_div_pow2 by lia. by replace (8 * Z.of_nat (32 - 1 - Z.to_nat a)) with (8 * (31 - a)) by lia.
Qed.

(** Sign extension by masking, bit by bit. *)
Lemma signextend_bits n b : 0 < n < 256 -> inw 256 b ->
  wrap 256 (sgn n (wrap n b)) =
  if Z.testbit b (n - 1) then Z.lor b (complement (Z.ones (n - 1))) else Z.land b (Z.ones (n - 1)).
Proof.
  intros Hn Hb. pose proof (wrap_inw n b ltac:(lia)) as Hw. pose proof (pow2_half n ltac:(lia)) as Hp.
  assert (Hbit : Z.testbit b (n - 1) = negb (wrap n b <? 2 ^ (n - 1))).
  { replace (Z.testbit b (n - 1)) with (Z.testbit (wrap n b) (n - 1))
      by (rewrite wrap_testbit by lia; destruct (Z.ltb_spec (n - 1) n); [done | lia]).
    destruct (Z.ltb_spec (wrap n b) (2 ^ (n - 1))) as [Hl | Hl].
    - apply (inw_testbit (n - 1)); [split; [apply Hw | done] | lia].
    - apply Z.testbit_true; [lia |]. replace (wrap n b / 2 ^ (n - 1)) with 1; [done |].
      apply (Z.div_unique_pos _ _ 1 (wrap n b - 2 ^ (n - 1))); [| lia]. destruct Hw. lia. }
  assert (Hones : inw 256 (Z.ones (n - 1))).
  { rewrite Z.ones_equiv. split; [pose proof (pow2_pos (n - 1)); lia |].
    pose proof (Z.pow_lt_mono_r 2 (n - 1) 256). lia. }
  unfold sgn. rewrite Hbit. destruct (Z.ltb_spec (wrap n b) (2 ^ (n - 1))) as [Hl | Hl]; cbn [negb].
  - rewrite Z.land_ones by lia. rewrite wrap_small by (apply (inw_mono n); [lia | done]).
    rewrite <- (Z.mod_small (wrap n b) (2 ^ (n - 1))) by (split; [apply Hw | done]).
    unfold wrap. rewrite Z.mod_mod_divide; [done |]. exists 2. rewrite Hp. lia.
  - apply Z.bits_inj'. intros i Hi. rewrite Z.lor_spec, complement_testbit, wrap_testbit by (done || lia).
    rewrite Z.testbit_ones_nonneg by lia.
    destruct (Z.ltb_spec i 256); cbn [andb]; [| rewrite (inw_testbit 256 b) by (done || lia); done].
    assert (Hm : wrap n b - 2 ^ n = Z.lor (wrap n b) (Z.lnot (Z.ones n))).
    { rewrite <- Z.lxor_lor, <- Z.add_nocarry_lxor; unfold Z.lnot; rewrite ?Z.ones_equiv; try lia;
      apply Z.bits_inj'; intros k Hk; rewrite Z.land_spec, Z.testbit_0_l; fold (Z.lnot (Z.pred (2 ^ n)));
      rewrite Z.lnot_spec, <- Z.ones_equiv, Z.testbit_ones_nonneg, wrap_testbit by lia; destruct (k <? n); [by rewrite andb_false_r | done |by rewrite andb_false_r | done]. }
    rewrite Hm, Z.lor_spec, Z.lnot_spec, Z.testbit_ones_nonneg, wrap_testbit by lia.
    destruct (Z.ltb_spec i n), (Z.ltb_spec i (n - 1)); cbn; try lia; rewrite ?orb_false_r, ?orb_true_r; try done.
    replace i with (n - 1) by lia. by rewrite Hbit.
Qed.

Lemma fold_signextend_spec a b : inw 256 a -> inw 256 b ->
  fold_signextend a b = if a <=? 30 then wrap 256 (sgn (8 * a + 8) (wrap (8 * a + 8) b)) else b.
Proof.
  intros [Ha _] Hb. unfold fold_signextend. destruct (Z.leb_spec 31 a), (Z.leb_spec a 30); try done; try lia.
  rewrite signextend_bits by (done || lia). replace (8 * a + 8 - 1) with (a * 8 + 7) by lia.
  by rewrite Z.ones_equiv, Z.shiftl_1_l.
Qed.

(** Evaluate [word_op] at given instructions. *)
Ltac eval_op :=
  unfold word_op; repeat match goal with
  | |- context [if ?o =? ?o' then _ else _] =>
      let b := eval vm_compute in (o =? o') in
      lazymatch b with
      | true => change (o =? o') with true
      | false => change (o =? o') with false
      end; cbv iota
  end.

(** *** One lemma per form of rule *)

(** Bring the constants of a rule to [d g = Some (v g)]. *)
Ltac rule_intro :=
  let Hd := fresh "Hd" in intros d v Hv Hd; cbn in Hd;
  repeat (let E := fresh "E" in apply list.Forall_cons in Hd as [E Hd]); clear Hd.

Lemma word_op_constant gs op vs x : Forall (inw 256) vs -> word_op op vs = Some x -> buildable gs (constant x) = true.
Proof. intros Hvs Hx. apply bool_decide_eq_true. by apply (word_op_range op vs). Qed.

Lemma fold1_ok op f : (forall a, inw 256 a -> word_op op [a] = Some (f a)) -> rule_ok (operation op [A], fold1 f).
Proof.
  intros Hf. rule_intro. exists (constant (f (v 1%nat))), (f (v 1%nat)). cbn [snd]. unfold fold1. rewrite E.
  specialize (Hf (v 1%nat) (Hv _)).
  split_and!; [done | done | exact Hf |]. by apply (word_op_constant _ op [v 1%nat]); auto.
Qed.

Lemma fold2_ok op f : (forall a b, inw 256 a -> inw 256 b -> word_op op [a; b] = Some (f a b)) ->
  rule_ok (operation op [A; B], fold2 f).
Proof.
  intros Hf. rule_intro. specialize (Hf (v 1%nat) (v 2%nat) (Hv _) (Hv _)).
  exists (constant (f (v 1%nat) (v 2%nat))), (f (v 1%nat) (v 2%nat)). cbn [snd]. unfold fold2. rewrite E, E0.
  split_and!; [done | done | exact Hf |]. by apply (word_op_constant _ op [v 1%nat; v 2%nat]); auto.
Qed.

Lemma fold3_ok op f :
  (forall a b c, inw 256 a -> inw 256 b -> inw 256 c -> word_op op [a; b; c] = Some (f a b c)) ->
  rule_ok (operation op [A; B; C], fold3 f).
Proof.
  intros Hf. rule_intro. specialize (Hf (v 1%nat) (v 2%nat) (v 3%nat) (Hv _) (Hv _) (Hv _)).
  exists (constant (f (v 1%nat) (v 2%nat) (v 3%nat))), (f (v 1%nat) (v 2%nat) (v 3%nat)).
  cbn [snd]. unfold fold3. rewrite E, E0, E1.
  split_and!; [done | done | exact Hf |]. by apply (word_op_constant _ op [v 1%nat; v 2%nat; v 3%nat]); auto.
Qed.

Lemma gives_ok lhs p : buildable (pattern_groups lhs) p = true ->
  (forall v, (forall g, inw 256 (v g)) -> pval v lhs = pval v p /\ is_Some (pval v p)) -> rule_ok (lhs, gives p).
Proof. intros Hp Hv d v Hr _. destruct (Hv v Hr) as [He [x Hx]]. exists p, x. cbn [fst snd]. by rewrite He. Qed.

(** The rules that are reached: the second one on [MULMOD] never is. *)
Lemma constant_rules_ok : Forall rule_ok (take 21 constant_rules ++ drop 22 constant_rules).
Proof.
  cbn [take drop constant_rules app].
  repeat (apply list.Forall_cons; split); try apply Forall_nil_2;
  first [apply fold1_ok; intros a Ha | apply fold2_ok; intros a b Ha Hb | apply fold3_ok; intros a b c Ha Hb Hc];
  eval_op; try reflexivity; f_equal.
  - destruct (Z.eqb_spec b 0); [done |]. unfold inw in *. symmetry. apply Z.quot_div_nonneg; lia.
  - destruct (Z.eqb_spec b 0); [done |]. by rewrite s2u_wrap, !u2s_sgn.
  - destruct (Z.eqb_spec b 0); [done |]. unfold inw in *. symmetry. apply Z.rem_mod_nonneg; lia.
  - destruct (Z.eqb_spec b 0); [done |]. by rewrite s2u_wrap, !u2s_sgn.
  - unfold inw in *. symmetry. apply powm_spec; [lia | done].
  - by rewrite complement_lnot.
  - by rewrite !u2s_sgn.
  - by rewrite !u2s_sgn.
  - by rewrite fold_byte_spec.
  - by rewrite fold_signextend_spec.
Qed.

(** Identities of words, bit by bit. *)
Ltac word_bits :=
  let i := fresh "i" in let Hi := fresh "Hi" in
  apply Z.bits_inj'; intros i Hi;
  repeat first [rewrite Z.lor_spec | rewrite Z.land_spec | rewrite Z.lxor_spec | rewrite wrap_testbit by lia
    | rewrite Z.lnot_spec by lia | rewrite complement_testbit by (apply zero_inw || lia) | rewrite Z.testbit_0_l];
  destruct (Z.ltb_spec i 256); repeat match goal with
  | H : inw 256 ?x |- context [Z.testbit ?x i] =>
      first [rewrite (inw_testbit 256 x i H) by lia | destruct (Z.testbit x i)]
  end; reflexivity.

(** A rule between patterns: an equation between the values of its groups. *)
Ltac pattern_rule :=
  apply gives_ok; [reflexivity |]; let v := fresh "v" in let Hv := fresh "Hv" in intros v Hv;
  pose proof (Hv 1%nat); pose proof (Hv 4%nat); pose proof (Hv 5%nat); clear Hv;
  cbv [gval id m_matchGroup m_type m_data m_arguments m_instruction operation constant of_type setMatchGroup
    A B X Y Nat.eqb mbind option_bind];
  generalize dependent (v 1%nat); generalize dependent (v 4%nat); generalize dependent (v 5%nat);
  clear v; intros y Hy x Hx a Ha; eval_op; split; [f_equal | eauto].

Lemma invariant_rules_ok : Forall rule_ok invariant_rules.
Proof.
  unfold invariant_rules. repeat (apply list.Forall_cons; split); try apply Forall_nil_2; pattern_rule.
  all: rewrite ?Z.eqb_refl, ?Z.ltb_irrefl, ?Z.add_0_r, ?Z.sub_0_r, ?Z.mul_0_r, ?Z.mul_1_r, ?Z.sub_diag, ?Z.lxor_nilpotent;
    try done; try (by apply wrap_small); try word_bits.
  - by destruct (x =? 0).
  - apply Z.div_1_r.
  - by destruct (x =? 0).
  - change (sgn 256 1) with 1. rewrite Z.quot_1_r. by apply wrap_sgn.
  - by destruct (x =? 0).
  - destruct (Z.eqb_spec x 0); [done |]. by apply Z.mod_same.
Qed.

Lemma of_bool_of_bool b : of_bool (of_bool (of_bool b =? 0) =? 0) = of_bool b.
Proof. by destruct b. Qed.

Lemma lxor_zero_eq x y : (Z.lxor x y =? 0) = (x =? y).
Proof.
  destruct (Z.eqb_spec x y) as [-> | Hn]; [by rewrite Z.lxor_nilpotent |].
  destruct (Z.eqb_spec (Z.lxor x y) 0) as [H |]; [| done]. by apply Z.lxor_eq in H.
Qed.

Lemma logical_rules_ok : Forall rule_ok logical_rules.
Proof.
  unfold logical_rules. cbn [map app]. repeat (apply list.Forall_cons; split); try apply Forall_nil_2; pattern_rule.
  all: rewrite ?of_bool_of_bool, ?lxor_zero_eq; try done; word_bits.
Qed.

Lemma buildable_binary gs op p q :
  buildable gs (operation op [p; q]) =
  op_ok op && (2 =? arguments (Operation op))%nat && (buildable gs p && buildable gs q).
Proof. cbn -[arguments op_ok]. by rewrite andb_true_r. Qed.

Lemma associative_ok op f :
  (forall v p q, pval v (operation op [p; q]) = (x ← pval v p; y ← pval v q; Some (f x y))) ->
  (forall x y, inw 256 x -> inw 256 y -> inw 256 (f x y)) ->
  (forall x y, f x y = f y x) -> (forall x y z, inw 256 x -> inw 256 y -> inw 256 z -> f (f x y) z = f x (f y z)) ->
  op_ok op = true -> arguments (Operation op) = 2%nat -> Forall rule_ok (associative (op, f)).
Proof.
  intros Hop Hr Hc Ha Hok Harg.
  assert (Hb : forall gs p q, buildable gs (operation op [p; q]) = buildable gs p && buildable gs q).
  { intros. by rewrite buildable_binary, Hok, Harg. }
  assert (Hc3 : forall x y z, inw 256 x -> inw 256 y -> inw 256 z -> f (f x y) z = f (f x z) y).
  { intros. by rewrite Ha, (Hc y z), <- Ha. }
  unfold associative. repeat (apply list.Forall_cons; split); try apply Forall_nil_2.
  all: rule_intro; eexists _, _; cbn [fst snd]; unfold outer, gives; rewrite ?E, ?E0; cbn [mbind option_bind].
  all: split_and!; [reflexivity | rewrite ?Hop; reflexivity | rewrite ?Hop | rewrite ?Hb].
  all: try reflexivity; try (apply bool_decide_eq_true; auto); cbn [gval id m_matchGroup X A B Y setMatchGroup Nat.eqb mbind option_bind]; f_equal.
  - by rewrite Ha.
  - by rewrite Hc3.
  - by rewrite (Hc (v 1%nat)), Ha.
  - by rewrite (Hc (v 1%nat)), Hc3.
Qed.

Lemma pval_binary v op p q : pval v (operation op [p; q]) = (x ← pval v p; y ← pval v q; word_op op [x; y]).
Proof. cbn -[word_op]. destruct (pval v p), (pval v q); reflexivity. Qed.

Lemma associative_rules_ok : Forall rule_ok associative_rules.
Proof.
  unfold associative_rules. cbn [map concat]. rewrite !Forall_app. split_and!; try apply Forall_nil_2;
    apply associative_ok; try reflexivity; intros; rewrite ?pval_binary; try reflexivity; auto using wrap_inw with lia fastvm.
  - f_equal. lia.
  - rewrite wrap_add_l, wrap_add_r by lia. f_equal. lia.
  - f_equal. lia.
  - rewrite wrap_mul_l, wrap_mul_r by lia. f_equal. lia.
  - apply Z.land_comm.
  - symmetry. apply Z.land_assoc.
  - apply Z.lor_comm.
  - symmetry. apply Z.lor_assoc.
  - apply Z.lxor_comm.
  - apply Z.lxor_assoc.
Qed.

Lemma wrap_sub_l a b : wrap 256 (wrap 256 a - b) = wrap 256 (a - b).
Proof. rewrite <- !Z.add_opp_r. apply wrap_add_l. lia. Qed.
Lemma wrap_sub_r a b : wrap 256 (a - wrap 256 b) = wrap 256 (a - b).
Proof. apply Zminus_mod_idemp_r. Qed.

Lemma subtraction_rules_ok : Forall rule_ok subtraction_rules.
Proof.
  unfold subtraction_rules. repeat (apply list.Forall_cons; split); try apply Forall_nil_2.
  all: rule_intro; eexists _, _; cbn [fst snd]; unfold add_negated, gives; rewrite ?E; cbn [mbind option_bind].
  all: split_and!; [reflexivity | rewrite !pval_binary; reflexivity | rewrite !pval_binary | rewrite !buildable_binary].
  all: try (apply (bool_decide_pack _) || reflexivity).
  all: lazymatch goal with
  | |- _ && _ = true => rewrite ?andb_true_l; apply bool_decide_eq_true, wrap_inw; lia
  | _ => cbn [gval id m_matchGroup X A Y setMatchGroup Nat.eqb mbind option_bind]; eval_op; cbn [mbind option_bind];
      rewrite ?wrap_add_l, ?wrap_add_r, ?wrap_sub_l, ?wrap_sub_r, ?wrap_add_l, ?wrap_add_r by lia; do 2 f_equal; lia
  end.
Qed.

(** *** All of them *)

(** The rules that can be the first to match. *)
Definition reached_rules : list rule :=
  take 21 constant_rules ++ drop 22 constant_rules ++ invariant_rules ++ logical_rules ++ associative_rules ++ subtraction_rules.

Lemma reached_rules_ok : Forall rule_ok reached_rules.
Proof.
  unfold reached_rules. rewrite app_assoc, !Forall_app. rewrite <- Forall_app.
  auto using constant_rules_ok, invariant_rules_ok, logical_rules_ok, associative_rules_ok, subtraction_rules_ok.
Qed.

(** [m_rules[i]]. *)
Definition rules_at (i : Z) : list rule := List.filter (fun r : rule => m_instruction r.1 =? i) all_rules.

Lemma addRules_spec (rs : list rule) (m : list (list rule)) :
  Forall (fun r : rule => m_type r.1 = Ty.Operation) rs ->
  exists m', addRules m rs = Some m' /\ forall n l, m !! n = Some l ->
  m' !! n = Some (l ++ List.filter (fun r : rule => (Z.to_nat (wrap 8 (m_instruction r.1)) =? n)%nat) rs).
Proof.
  revert m. induction rs as [| r rs IH]; intros m Hrs.
  - exists m. split; [done |]. intros n l Hl. by rewrite app_nil_r.
  - apply list.Forall_cons in Hrs as [Hr Hrs]. cbn [addRules]. unfold addRule, instruction. rewrite Hr.
    cbn [mbind option_bind]. destruct (IH (alter (fun l => l ++ [r]) (Z.to_nat (wrap 8 (m_instruction r.1))) m) Hrs) as (m' & Hm' & Hm).
    exists m'. split; [done |]. intros n l Hl.
    cbn [List.filter]. destruct (Nat.eqb_spec (Z.to_nat (wrap 8 (m_instruction r.1))) n) as [<- | Hn].
    + rewrite (Hm _ (l ++ [r])); [by rewrite <- app_assoc |]. by rewrite list_lookup_alter_eq, Hl.
    + apply Hm. by rewrite list_lookup_alter_ne.
Qed.

Lemma all_rules_operations :
  Forall (fun r : rule => m_type r.1 = Ty.Operation /\ 0 <= m_instruction r.1 < 256) all_rules.
Proof.
  apply Forall_forall. intros r Hr.
  assert (H : forallb (fun r : rule => bool_decide (m_type r.1 = Ty.Operation) && (0 <=? m_instruction r.1) &&
    (m_instruction r.1 <? 256)) all_rules = true) by (vm_compute; reflexivity).
  rewrite forallb_forall in H. specialize (H r Hr). rewrite !andb_true_iff in H.
  destruct H as [[H1 H2] H3]. apply bool_decide_eq_true in H1. split; [done | lia].
Qed.

Lemma findFirstMatch_rules c e i : e_item e = Operation i -> 0 <= i < 256 -> findFirstMatch c e = first_match c e (rules_at i).
Proof.
  intros He Hi. unfold findFirstMatch. rewrite He.
  destruct (addRules_spec all_rules (replicate 256 [])) as (m & Hm & Hl).
  { eapply Forall_impl; [| apply all_rules_operations]. by intros ? []. }
  unfold Rules. rewrite Hm. cbn [mbind option_bind item_instruction]. rewrite (Hl _ []).
  - cbn [mbind option_bind app]. f_equal. unfold rules_at. apply List.filter_ext_in. intros r Hr.
    eapply (proj1 (Forall_forall _ _) all_rules_operations) in Hr as [_ Hr].
    rewrite !wrap_small by (unfold inw; lia).
    destruct (Z.eqb_spec (m_instruction r.1) i), (Nat.eqb_spec (Z.to_nat (m_instruction r.1)) (Z.to_nat i)); lia.
  - apply lookup_replicate. split; [done |]. rewrite wrap_small by (unfold inw; lia). lia.
Qed.

(** ** Matching *)

Lemma Pattern_nested_ind (P : Pattern -> Prop) :
  (forall t r i d ps g, Forall P ps -> P (mkPattern t r i d ps g)) -> forall p, P p.
Proof.
  intros H. fix IH 1. intros [t r i d ps g]. apply H. induction ps as [| p ps IHps]; constructor; [apply IH | exact IHps].
Qed.

(** The loop over the arguments. *)
Fixpoint matches_list (c : ExpressionClasses) (ps : list Pattern) (ids : list nat) (gs : groups) : option (option groups) :=
  match ps, ids with
  | [], _ => Some (Some gs)
  | _, [] => None
  | p :: ps, id :: ids =>
      match representative c id with
      | None => None
      | Some e => match matches p c e gs with Some (Some gs) => matches_list c ps ids gs | r => r end
      end
  end.

Lemma matches_eq p c e gs : matches p c e gs =
  match matchesBaseItem p (e_item e) with
  | None => None
  | Some false => Some None
  | Some true =>
      match bind_group (m_matchGroup p) e gs with
      | None => Some None
      | Some gs =>
          if (length (m_arguments p) =? 0)%nat || (length (e_args e) =? length (m_arguments p))%nat
          then matches_list c (m_arguments p) (e_args e) gs else None
      end
  end.
Proof.
  destruct p as [t r i d ps g]. cbn [matches m_arguments m_matchGroup].
  destruct (matchesBaseItem _ _) as [[|] |]; [| done ..]. destruct (bind_group g e gs) as [gs' |]; [| done].
  destruct (_ || _); [| done]. generalize (e_args e). revert gs'. clear.
  induction ps as [| p ps IH]; intros gs [| id ids]; cbn [matches_list]; [done .. |].
  destruct (representative c id) as [e |]; [| done]. destruct (matches p c e gs) as [[gs' |] |]; [apply IH | done ..].
Qed.

(** What the groups bound before keep. *)
Definition extends (gs gs' : groups) : Prop := forall g e, group gs g = Some e -> group gs' g = Some e.

Lemma extends_trans gs gs' gs'' : extends gs gs' -> extends gs' gs'' -> extends gs gs''.
Proof. unfold extends. auto. Qed.

Lemma bind_group_spec g e gs gs' : bind_group g e gs = Some gs' ->
  extends gs gs' /\ (g <> 0%nat -> exists e', group gs' g = Some e' /\ (e' = e \/ e_id e' = e_id e)).
Proof.
  unfold bind_group. destruct (Nat.eqb_spec g 0) as [-> |]; [intros [= <-]; split; [by intros ? | done] |].
  destruct (group gs g) as [e' |] eqn:Hg.
  - destruct (Nat.eqb_spec (e_id e') (e_id e)); intros [= <-]. split; [by intros ? | eauto].
  - intros [= <-]. unfold extends, group. cbn. split; [| rewrite Nat.eqb_refl; eauto].
    intros g' e' Hg'. destruct (Nat.eqb_spec g g') as [<- |]; [| done]. unfold group in Hg. congruence.
Qed.

(** The patterns that rules consist of. *)
Fixpoint pattern_ok (p : Pattern) : bool :=
  if (m_matchGroup p =? 0)%nat then
    match m_type p with
    | Ty.Push => m_requireDataMatch p && bool_decide (is_Some (m_data p)) && (length (m_arguments p) =? 0)%nat
    | Ty.Operation =>
        (length (m_arguments p) =? arguments (Operation (m_instruction p)))%nat &&
        (isDeterministic (Operation (m_instruction p)) && knows (m_instruction p)) &&
        (fix go (ps : list Pattern) : bool :=
           match ps with [] => true | p :: ps => pattern_ok p && go ps end) (m_arguments p)
    | _ => false
    end
  else (length (m_arguments p) =? 0)%nat &&
    match m_type p with Ty.UndefinedItem => true | Ty.Push => negb (m_requireDataMatch p) | _ => false end.

Lemma all_patterns_ok : forallb (fun r : rule => pattern_ok r.1 && (m_matchGroup r.1 =? 0)%nat) all_rules = true.
Proof. vm_compute. reflexivity. Qed.

Inductive pattern_view : Pattern -> Prop :=
| view_constant v i : pattern_view (mkPattern Ty.Push true i (Some v) [] 0)
| view_operation r i d ps : length ps = arguments (Operation i) ->
    isDeterministic (Operation i) = true -> knows i = true ->
    Forall (fun p => pattern_ok p = true) ps -> pattern_view (mkPattern Ty.Operation r i d ps 0)
| view_any r i d g : g <> 0%nat -> pattern_view (mkPattern Ty.UndefinedItem r i d [] g)
| view_push i d g : g <> 0%nat -> pattern_view (mkPattern Ty.Push false i d [] g).

Lemma pattern_ok_view p : pattern_ok p = true -> pattern_view p.
Proof.
  destruct p as [t r i d ps g]. cbn -[arguments isDeterministic knows]. destruct (Nat.eqb_spec g 0) as [-> | Hg]; intros H.
  - destruct t; try done; rewrite !andb_true_iff in H.
    + destruct H as [[H1 [H2 H4]] H3]. apply Nat.eqb_eq in H1. constructor; [done .. |].
      clear H1. induction ps as [| p ps IH]; [constructor |]. apply andb_true_iff in H3 as [H3 H5]. constructor; auto.
    + destruct H as [[H1 H2] H3]. apply Nat.eqb_eq, length_zero_iff_nil in H3 as ->. apply bool_decide_eq_true in H2 as [v ->].
      destruct r; [constructor | done].
  - apply andb_true_iff in H as [H1 H2]. apply Nat.eqb_eq, length_zero_iff_nil in H1 as ->.
    destruct t; try done; [by constructor |]. destruct r; [done | by constructor].
Qed.

(** *** Well-formed classes *)

(** The arguments of an expression are classes below [n], as many as its item takes. *)
Definition expr_wf (n : nat) (e : Expression) : Prop :=
  Forall (fun a => (a < n)%nat) (e_args e) /\ length (e_args e) = arguments (e_item e) /\
  match e_item e with Operation i => 0 <= i < 256 | Push d => inw 256 d | _ => True end.

Definition classes_wf (c : ExpressionClasses) : Prop :=
  forall id e, representative c id = Some e -> e_id e = id /\ expr_wf (length (m_representatives c)) e.

(** The base item of a pattern: it throws no exception, and what it says of the item. *)
Lemma matchesBaseItem_spec p item : pattern_view p -> exists b, matchesBaseItem p item = Some b /\
  (b = true -> match m_type p with
               | Ty.Operation => item = Operation (m_instruction p)
               | Ty.Push => exists d, item = Push d /\ (m_requireDataMatch p = true -> m_data p = Some d)
               | _ => True
               end).
Proof.
  unfold matchesBaseItem. destruct 1; cbn [m_type m_instruction m_data m_requireDataMatch].
  - destruct item; cbn; try (eexists; split; [reflexivity | done]). eexists. split; [reflexivity |].
    intros ->%Z.eqb_eq. eauto.
  - destruct item; cbn; try (eexists; split; [reflexivity | done]). eexists. split; [reflexivity |].
    intros Hi%Z.eqb_eq. by rewrite Hi.
  - eauto.
  - destruct item; cbn; try (eexists; split; [reflexivity | done]). eexists. split; [reflexivity |].
    intros _. eexists. by split.
Qed.

(** Matching a rule's pattern throws no exception. *)
Lemma matches_total p c e gs : classes_wf c -> pattern_ok p = true -> expr_wf (length (m_representatives c)) e ->
  is_Some (matches p c e gs).
Proof.
  intros Hc. revert e gs. induction p as [t r i d ps g IH] using Pattern_nested_ind. intros e gs Hp He.
  apply pattern_ok_view in Hp. rewrite matches_eq. destruct (matchesBaseItem_spec _ (e_item e) Hp) as ([|] & -> & Hb); [| eauto].
  destruct (bind_group _ _ _) as [gs' |]; [| eauto]. specialize (Hb eq_refl). cbn [m_arguments m_type m_instruction] in *.
  destruct He as (Ha & Hl & _). inversion Hp as [| ? ? ? ? Hps _ _ Hok | |]; subst; cbn [m_arguments]; [cbn; eauto | | cbn; eauto | cbn; eauto].
  rewrite Hl, Hb, <- Hps, Nat.eqb_refl, orb_true_r. rewrite Hb, <- Hps in Hl. clear Hp Hb Hps.
  revert gs' Ha Hl. generalize (e_args e). induction ps as [| p ps IHps]; intros ids gs' Ha Hl; [cbn; eauto |].
  destruct ids as [| id ids]; [done |]. apply list.Forall_cons in IH as [IHp IH], Hok as [Hp Hok], Ha as [Hid Ha].
  cbn [matches_list]. destruct (representative c id) as [e' |] eqn:He'; [| by apply lookup_ge_None in He'; lia].
  destruct (IHp e' gs' Hp (proj2 (Hc _ _ He'))) as [[gs'' |] ->]; [| eauto]. apply IHps; auto.
Qed.

(** ** The first rule that matches *)

Lemma first_match_spec c e rs r gs : first_match c e rs = Some (Some (r, gs)) ->
  exists l1 l2, rs = l1 ++ r :: l2 /\ matches r.1 c e [] = Some (Some gs) /\
  Forall (fun r' => matches r'.1 c e [] = Some None) l1.
Proof.
  induction rs as [| r' rs IH]; cbn; [done |]. destruct (matches r'.1 c e []) as [[gs' |] |] eqn:Hm; try done.
  - intros [= -> ->]. by exists [], rs.
  - intros (l1 & l2 & -> & H1 & H2)%IH. exists (r' :: l1), l2. split_and!; [done | done |]. by constructor.
Qed.

Lemma first_match_none c e rs : first_match c e rs = Some None <-> Forall (fun r => matches r.1 c e [] = Some None) rs.
Proof.
  induction rs as [| r rs IH]; cbn; [by split |]. rewrite list.Forall_cons, <- IH.
  destruct (matches r.1 c e []) as [[gs |] |]; split; try done; by intros [? ?].
Qed.

Lemma in_except {T} n (l rest : list T) x y : l !! n = Some y -> In x (l ++ rest) -> x = y \/ In x (take n l ++ drop (S n) l ++ rest).
Proof.
  intros Hy. rewrite <- (take_drop_middle _ _ _ Hy) at 1. rewrite !in_app_iff. cbn [In]. intuition auto.
Qed.

Lemma app_two {T} (l1 l2 : list T) x a b : [a; b] = l1 ++ x :: l2 -> x = a \/ (l1 = [a] /\ x = b).
Proof. destruct l1 as [| ? [| ? [|]]]; intros [=]; subst; auto. Qed.

Definition mulmod_rule : rule := (operation Op.MULMOD [A; B; C], fold3 (fun a b c => if c =? 0 then 0 else (a * b) mod c)).

Lemma rules_at_mulmod : rules_at Op.MULMOD = [mulmod_rule; (operation Op.MULMOD [A; B; C], fold2 (fun a b => wrap 256 (a * b)))].
Proof. reflexivity. Qed.

Lemma mulmod_rule_ok : rule_ok mulmod_rule.
Proof. apply fold3_ok. intros a b c _ _ _. reflexivity. Qed.

Lemma in_reached r : In r all_rules -> m_instruction r.1 <> Op.MULMOD -> In r reached_rules.
Proof.
  unfold all_rules, reached_rules. intros Hr Hi.
  apply (in_except 21 constant_rules _ _ (operation Op.MULMOD [A; B; C], fold2 (fun a b => wrap 256 (a * b))) eq_refl)
    in Hr as [Hr | Hr]; [| exact Hr]. destruct Hi. rewrite Hr. reflexivity.
Qed.

Lemma in_rules_at i r : In r (rules_at i) -> In r all_rules /\ m_instruction r.1 = i.
Proof. unfold rules_at. rewrite filter_In, Z.eqb_eq. done. Qed.

(** The second rule on [MULMOD] is never the first to match. *)
Lemma first_match_ok c e i r gs : first_match c e (rules_at i) = Some (Some (r, gs)) ->
  In r all_rules /\ rule_ok r /\ matches r.1 c e [] = Some (Some gs).
Proof.
  intros (l1 & l2 & Hrs & Hm & Hl)%first_match_spec.
  destruct (in_rules_at i r) as [Hr Hop]; [rewrite Hrs; apply in_elt |].
  split_and!; [exact Hr | | exact Hm]. destruct (decide (i = Op.MULMOD)) as [-> | Hi].
  - rewrite rules_at_mulmod in Hrs. apply app_two in Hrs as [-> | [-> ->]]; [exact mulmod_rule_ok |].
    apply list.Forall_cons in Hl as [Hl _]. change (matches mulmod_rule.1 c e [] = Some None) in Hl.
    change (matches mulmod_rule.1 c e [] = Some (Some gs)) in Hm. rewrite Hl in Hm. discriminate Hm.
  - apply (proj1 (Forall_forall _ _) reached_rules_ok), in_reached; [exact Hr |]. rewrite Hop. exact Hi.
Qed.

Lemma rule_pattern_ok r : In r all_rules -> pattern_ok r.1 = true /\ m_matchGroup r.1 = 0%nat.
Proof.
  intros Hr. pose proof all_patterns_ok as H. rewrite forallb_forall in H. specialize (H r Hr).
  apply andb_true_iff in H as [H1 H2]. by apply Nat.eqb_eq in H2.
Qed.

Lemma first_match_total c e i : classes_wf c -> expr_wf (length (m_representatives c)) e ->
  exists o, first_match c e (rules_at i) = Some o.
Proof.
  intros Hc He. assert (Hrs : Forall (fun r => pattern_ok r.1 = true) (rules_at i)).
  { apply Forall_forall. intros r [Hr _]%in_rules_at. by apply rule_pattern_ok. }
  induction Hrs as [| r rs Hr Hrs IH]; cbn [first_match]; [by eexists |].
  destruct (matches_total r.1 c e [] Hc Hr He) as [[gs |] ->]; [by eexists | exact IH].
Qed.

Lemma existsb_nat_in g l : existsb (Nat.eqb g) l = true -> g ∈ l.
Proof. intros (y & Hy & ->%Nat.eqb_eq)%existsb_exists. by apply list_elem_of_In. Qed.

(** ** The values of classes *)

Section Values.
(** An interpretation of items: of constants, of the operations that rules know, and of all items. *)
Context (con : Z -> Z) (opf : Z -> list Z -> option Z) (iv : AssemblyItem -> list Z -> nat -> Z).
Hypothesis iv_push : forall d vs s, iv (Push d) vs s = con d.
Hypothesis iv_operation : forall i vs s, knows i = true -> length vs = arguments (Operation i) ->
  opf i vs = Some (iv (Operation i) vs s).

(** The value of an expression when class [k] has the [k]-th value. *)
Definition expr_value (vals : list Z) (e : Expression) : option Z :=
  vs ← mapM (fun a => vals !! a) (e_args e); Some (iv (e_item e) vs (e_seq e)).

(** The values are those of the representatives, as far as these determine them. *)
Definition reps_sound (c : ExpressionClasses) (vals : list Z) : Prop :=
  length vals = length (m_representatives c) /\
  forall id e, representative c id = Some e -> isDeterministic (e_item e) = true -> expr_value vals e = vals !! id.

(** The match groups are representatives. *)
Definition groups_ok (c : ExpressionClasses) (gs : groups) : Prop :=
  forall g e, group gs g = Some e -> representative c (e_id e) = Some e.

(** What a match means: the pattern has the value of the expression. *)
Definition match_means (c : ExpressionClasses) (vals : list Z) (p : Pattern) (x : Z) (gs gs' : groups) : Prop :=
  groups_ok c gs' /\ extends gs gs' /\
  (forall g, g ∈ pattern_groups p -> is_Some (group gs' g)) /\
  (forall g, g ∈ constant_groups p -> exists e d, group gs' g = Some e /\ e_item e = Push d) /\
  (forall v, (forall g e, group gs' g = Some e -> vals !! e_id e = Some (v g)) -> gval con opf v p = Some x).

Lemma pval_operation v r i d ps : gval con opf v (mkPattern Ty.Operation r i d ps 0) = (vs ← mapM (gval con opf v) ps; opf i vs).
Proof. reflexivity. Qed.

Lemma groups_operation r i d ps :
  pattern_groups (mkPattern Ty.Operation r i d ps 0) = concat (map pattern_groups ps) /\
  constant_groups (mkPattern Ty.Operation r i d ps 0) = concat (map constant_groups ps).
Proof. split; (induction ps as [| p ps IH]; [reflexivity |]); cbn [map concat]; rewrite <- IH; reflexivity. Qed.

(** What matches of the arguments mean. *)
Definition list_means (c : ExpressionClasses) (vals : list Z) (ps : list Pattern) (xs : list Z) (gs gs' : groups) : Prop :=
  groups_ok c gs' /\ extends gs gs' /\
  (forall g, g ∈ concat (map pattern_groups ps) -> is_Some (group gs' g)) /\
  (forall g, g ∈ concat (map constant_groups ps) -> exists e d, group gs' g = Some e /\ e_item e = Push d) /\
  (forall v, (forall g e, group gs' g = Some e -> vals !! e_id e = Some (v g)) -> mapM (gval con opf v) ps = Some xs).

Lemma means_cons c vals p ps x xs gs gs1 gs2 :
  match_means c vals p x gs gs1 -> list_means c vals ps xs gs1 gs2 -> list_means c vals (p :: ps) (x :: xs) gs gs2.
Proof.
  intros (H1 & H2 & H3 & H4 & H5) (K1 & K2 & K3 & K4 & K5). split_and!.
  - done.
  - by apply extends_trans with gs1.
  - intros g. cbn. rewrite elem_of_app. intros [Hg | Hg]; [| by apply K3]. destruct (H3 g Hg) as [e He]. eauto.
  - intros g. cbn. rewrite elem_of_app. intros [Hg | Hg]; [| by apply K4]. destruct (H4 g Hg) as (e & d & He & Hd). eauto.
  - intros v Hv. cbn [mapM]. rewrite H5, K5; [done | done |]. intros g e He. apply Hv. by apply K2.
Qed.

Lemma bind_group_means c e g gs gs' : groups_ok c gs -> bind_group g e gs = Some gs' ->
  (g <> 0%nat -> representative c (e_id e) = Some e) ->
  groups_ok c gs' /\ extends gs gs' /\ (g <> 0%nat -> group gs' g = Some e).
Proof.
  intros Hgs Hb He. destruct (bind_group_spec _ _ _ _ Hb) as [Hx Hg]. split_and!; [| done |].
  - unfold bind_group in Hb. destruct (Nat.eqb_spec g 0); [by simplify_eq |]. destruct (group gs g) as [e' |] eqn:Hg'.
    + destruct (_ =? _)%nat; by simplify_eq.
    + injection Hb as <-. intros g' e'. unfold group. cbn. destruct (Nat.eqb_spec g g'); [| apply Hgs].
      cbn. intros [= <-]. by apply He.
  - intros Hn. destruct (Hg Hn) as (e' & Hg' & [-> | Hid]); [done |]. specialize (He Hn).
    unfold bind_group in Hb. destruct (Nat.eqb_spec g 0); [done |]. destruct (group gs g) as [e1 |] eqn:Hg1.
    + destruct (Nat.eqb_spec (e_id e1) (e_id e)) as [Hid' |]; [| done]. injection Hb as <-.
      rewrite Hg' in Hg1. injection Hg1 as <-. rewrite Hg'. f_equal. apply Hgs in Hg'. rewrite Hid in Hg'. congruence.
    + injection Hb as <-. unfold group in *. cbn in *. by rewrite Nat.eqb_refl in *.
Qed.
Lemma matches_list_sound c vals ps ids xs gs gs' : classes_wf c -> reps_sound c vals ->
  Forall (fun p => forall e gs gs' x, pattern_ok p = true -> groups_ok c gs ->
    length (e_args e) = arguments (e_item e) ->
    (m_matchGroup p <> 0%nat -> representative c (e_id e) = Some e /\ vals !! e_id e = Some x) ->
    (isDeterministic (e_item e) = true -> expr_value vals e = Some x) ->
    matches p c e gs = Some (Some gs') -> match_means c vals p x gs gs') ps ->
  Forall (fun p => pattern_ok p = true) ps -> length ids = length ps -> groups_ok c gs ->
  mapM (fun a => vals !! a) ids = Some xs -> matches_list c ps ids gs = Some (Some gs') ->
  list_means c vals ps xs gs gs'.
Proof.
  intros Hc Hs IH Hok. revert ids xs gs. induction ps as [| p ps IHps]; intros ids xs gs Hl Hgs Hxs Hm.
  - destruct ids; [| done]. injection Hxs as <-. injection Hm as <-. unfold list_means. cbn.
    split_and!; [done | by intros ? | | | done]; intros g Hg; by apply elem_of_nil in Hg.
  - destruct ids as [| id ids]; [done |]. cbn [matches_list] in Hm. destruct (representative c id) as [e |] eqn:He; [| done].
    destruct (matches p c e gs) as [[gs1 |] |] eqn:Hp; try done. cbn [mapM] in Hxs.
    destruct (vals !! id) as [x |] eqn:Hx; [| done]. cbn in Hxs.
    destruct (mapM _ ids) as [xs' |] eqn:Hxs'; [| done]. injection Hxs as <-.
    apply list.Forall_cons in IH as [IHp IH], Hok as [Hp' Hok]. destruct (Hc _ _ He) as [Hid (_ & Hlen & _)].
    assert (Hm1 : match_means c vals p x gs gs1).
    { apply (IHp e); [done | done | done | by rewrite Hid | | done]. intros Hd. rewrite <- Hx. by apply Hs. }
    apply means_cons with gs1; [done |]. apply (IHps IH Hok ids); [by injection Hl | apply Hm1 | done | done].
Qed.

Lemma matches_sound p c vals e gs gs' x : classes_wf c -> reps_sound c vals -> pattern_ok p = true ->
  groups_ok c gs -> length (e_args e) = arguments (e_item e) ->
  (m_matchGroup p <> 0%nat -> representative c (e_id e) = Some e /\ vals !! e_id e = Some x) ->
  (isDeterministic (e_item e) = true -> expr_value vals e = Some x) ->
  matches p c e gs = Some (Some gs') -> match_means c vals p x gs gs'.
Proof.
  intros Hc Hs. revert e gs gs' x. induction p as [t r i d ps g IH] using Pattern_nested_ind.
  intros e gs gs' x Hp Hgs Hl Hg Hx. apply pattern_ok_view in Hp. rewrite matches_eq.
  destruct (matchesBaseItem_spec _ (e_item e) Hp) as ([|] & -> & Hb); [| done]. specialize (Hb eq_refl).
  destruct (bind_group _ _ _) as [gs1 |] eqn:Hbind; [| done]. cbn [m_arguments m_type m_instruction m_matchGroup m_requireDataMatch m_data] in *.
  inversion Hp as [v i' | ? ? ? ? Hps Hdet Hk Hok | |]; subst; cbn [m_arguments length Nat.eqb orb matches_list].
  all: destruct (bind_group_means c e _ _ _ Hgs Hbind (fun Hn => proj1 (Hg Hn))) as (B1 & B2 & B3).
  - intros [= <-]. destruct Hb as (d & Hd & Hv). specialize (Hv eq_refl) as [= ->].
    split_and!; [done | done | by intros g Hn%elem_of_nil | by intros g Hn%elem_of_nil |]. intros w Hw. cbn. rewrite Hd in Hx. specialize (Hx eq_refl). unfold expr_value in Hx. rewrite Hd in Hx.
    destruct (mapM _ _); [| done]. injection Hx as <-. cbn. by rewrite iv_push.
  - rewrite Hb in Hx. specialize (Hx Hdet). unfold expr_value in Hx. rewrite Hb in Hx.
    destruct (mapM _ _) as [xs |] eqn:Hxs; [| done]. injection Hx as Hx.
    destruct (groups_operation r i d ps) as [G1 G2]. unfold match_means. rewrite G1, G2.
    destruct (_ || _); [| done]. intros Hm. rewrite Hb, <- Hps in Hl.
    apply (matches_list_sound _ vals _ _ xs) in Hm as (M1 & M2 & M3 & M4 & M5); [| done ..].
    split_and!; [done | by apply extends_trans with gs1 | done | done |]. intros v Hv.
    rewrite pval_operation, (M5 v Hv). cbn [mbind option_bind]. apply length_mapM in Hxs.
    rewrite <- Hx. apply iv_operation; [done | congruence].
  - intros [= <-]. destruct (Hg H) as [_ Hv]. specialize (B3 H).
    assert (Hn : (g =? 0)%nat = false) by (by apply Nat.eqb_neq). split_and!; [done | done | | | ].
    + cbn. rewrite Hn. intros g' [-> | Hn']%elem_of_cons; [eauto |]. by apply elem_of_nil in Hn'.
    + by intros g' Hn'%elem_of_nil.
    + intros w Hw. cbn. rewrite Hn. specialize (Hw g e B3). congruence.
  - intros [= <-]. destruct (Hg H) as [_ Hv]. specialize (B3 H). destruct Hb as (d' & Hd & _).
    assert (Hn : (g =? 0)%nat = false) by (by apply Nat.eqb_neq). split_and!; [done | done | | | ].
    + cbn. rewrite Hn. intros g' [-> | Hn']%elem_of_cons; [eauto |]. by apply elem_of_nil in Hn'.
    + cbn. rewrite Hn. intros g' [-> | Hn']%elem_of_cons; [eauto |]. by apply elem_of_nil in Hn'.
    + intros w Hw. cbn. rewrite Hn. specialize (Hw g e B3). congruence.
Qed.

(** *** Templates *)

Fixpoint template_value (vals : list Z) (t : ExpressionTemplate) : option Z :=
  match t with
  | mkTemplate (Some id) _ _ => vals !! id
  | mkTemplate None item ts => vs ← mapM (template_value vals) ts; Some (iv item vs 0)
  end.

(** A template over classes below [n]. *)
Fixpoint template_wf (n : nat) (t : ExpressionTemplate) : Prop :=
  match t with
  | mkTemplate (Some id) _ _ => (id < n)%nat
  | mkTemplate None item ts =>
      length ts = arguments item /\ isDeterministic item = true /\
      match item with Operation i => 0 <= i < 256 | Push d => inw 256 d | _ => False end /\
      (fix go (ts : list ExpressionTemplate) : Prop :=
         match ts with [] => True | t :: ts => template_wf n t /\ go ts end) ts
  end.

Lemma template_wf_build n item ts : template_wf n (mkTemplate None item ts) <->
  length ts = arguments item /\ isDeterministic item = true /\
  match item with Operation i => 0 <= i < 256 | Push d => inw 256 d | _ => False end /\ Forall (template_wf n) ts.
Proof.
  cbn -[arguments isDeterministic]. do 3 f_equiv. induction ts as [| t ts IH]; [by split |]. by rewrite list.Forall_cons, IH.
Qed.

Lemma template_sound c vals gs l v p x : groups_ok c gs -> length vals = length (m_representatives c) ->
  (forall g, existsb (Nat.eqb g) l = true -> is_Some (group gs g)) ->
  (forall g e, group gs g = Some e -> vals !! e_id e = Some (v g)) ->
  buildable l p = true -> gval con opf v p = Some x ->
  exists t, template gs p = Some t /\ template_value vals t = Some x /\ template_wf (length (m_representatives c)) t.
Proof.
  intros Hgs Hlen Hl Hv. revert x. induction p as [t r i d ps g IH] using Pattern_nested_ind. intros x Hb Hx.
  cbn -[arguments op_ok] in Hb. destruct (Nat.eqb_spec g 0) as [-> | Hg].
  - destruct t; try done.
    + rewrite !andb_true_iff in Hb. destruct Hb as [[Hop Hn] Hb]. apply Nat.eqb_eq in Hn.
      rewrite pval_operation in Hx. destruct (mapM (gval con opf v) ps) as [xs |] eqn:Hxs; [| done]. cbn [mbind option_bind] in Hx.
      assert (Hts : exists ts, mapM (template gs) ps = Some ts /\ mapM (template_value vals) ts = Some xs /\
        length ts = length ps /\ Forall (template_wf (length (m_representatives c))) ts).
      { clear Hn Hx Hop. revert xs Hxs. induction ps as [| p ps IHps]; intros xs Hxs.
        - injection Hxs as <-. by exists [].
        - apply list.Forall_cons in IH as [IHp IH]. apply andb_true_iff in Hb as [Hp Hb]. cbn [mapM] in Hxs.
          destruct (gval con opf v p) as [y |] eqn:Hy; [| done]. cbn in Hxs. destruct (mapM (gval con opf v) ps) as [ys |]; [| done].
          injection Hxs as <-. destruct (IHp y Hp eq_refl) as (t & T1 & T2 & T3).
          destruct (IHps IH Hb ys eq_refl) as (ts & S1 & S2 & S3 & S4). exists (t :: ts). cbn [mapM].
          rewrite T1, S1, T2, S2. split_and!; [done | done | by cbn; rewrite S3 | by constructor]. }
      destruct Hts as (ts & H1 & H2 & H3 & H4). exists (mkTemplate None (Operation i) ts). split_and!.
      * change (template gs _) with (ts ← mapM (template gs) ps; Some (mkTemplate None (Operation i) ts)). by rewrite H1.
      * change (template_value vals _) with (vs ← mapM (template_value vals) ts; Some (iv (Operation i) vs 0%nat)).
        rewrite H2. cbn [mbind option_bind]. rewrite <- Hx. symmetry. unfold op_ok in Hop.
        rewrite !andb_true_iff in Hop. destruct Hop as [_ [_ Hk]]. apply iv_operation; [done |].
        apply length_mapM in H2. congruence.
      * unfold op_ok in Hop. apply template_wf_build. rewrite !andb_true_iff in Hop. destruct Hop as [[? ?] [? ?]].
        split_and!; [congruence | done | lia | lia | done].
    + apply andb_true_iff in Hb as [Hps Hb]. apply Nat.eqb_eq, length_zero_iff_nil in Hps as ->.
      destruct d as [d |]; [| done]. apply bool_decide_eq_true in Hb. injection Hx as <-.
      exists (mkTemplate None (Push d) []). split_and!; [done | cbn; by rewrite iv_push | by split_and!].
  - apply andb_true_iff in Hb as [Hps Hb]. apply Nat.eqb_eq, length_zero_iff_nil in Hps as ->.
    destruct (Hl g Hb) as [e He]. exists (mkTemplate (Some (e_id e)) (UndefinedItem 0) []).
    cbn in Hx. apply Nat.eqb_neq in Hg. rewrite Hg in Hx. injection Hx as <-. cbn. rewrite Hg. unfold group_id. rewrite He.
    split_and!; [done | by apply Hv |]. rewrite <- Hlen. apply lookup_lt_is_Some_1. rewrite (Hv g e He). eauto.
Qed.

(** *** The values of the match groups *)

Definition group_value (vals : list Z) (gs : groups) (g : nat) : Z := default 1 (e ← group gs g; vals !! e_id e).

Lemma groups_values c vals gs : length vals = length (m_representatives c) -> groups_ok c gs ->
  forall g e, group gs g = Some e -> vals !! e_id e = Some (group_value vals gs g).
Proof.
  intros Hl Hgs g e He. unfold group_value. rewrite He. cbn. apply Hgs in He. apply lookup_lt_Some in He.
  rewrite <- Hl in He. by apply lookup_lt_is_Some_2 in He as [x ->].
Qed.

Lemma group_constant c vals gs g e d : classes_wf c -> reps_sound c vals -> groups_ok c gs ->
  group gs g = Some e -> e_item e = Push d -> group_data gs g = Some d /\ con d = group_value vals gs g.
Proof.
  intros Hc Hs Hgs He Hd. pose proof (groups_values _ _ _ (proj1 Hs) Hgs g e He) as Hv.
  pose proof (Hgs _ _ He) as Hr. destruct Hs as (_ & Hs). specialize (Hs _ _ Hr). rewrite Hd in Hs.
  specialize (Hs eq_refl). destruct (Hc _ _ Hr) as (_ & _ & Hl & _). rewrite Hd in Hl. cbn in Hl.
  apply length_zero_iff_nil in Hl. unfold expr_value in Hs. rewrite Hl, Hd in Hs. cbn in Hs. rewrite iv_push in Hs.
  unfold group_data. rewrite He. cbn. rewrite Hd. split; [done | congruence].
Qed.

Lemma rule_match c vals e r gs x : classes_wf c -> reps_sound c vals -> expr_wf (length (m_representatives c)) e ->
  In r all_rules -> matches r.1 c e [] = Some (Some gs) -> expr_value vals e = Some x ->
  groups_ok c gs /\ (forall g, existsb (Nat.eqb g) (pattern_groups r.1) = true -> is_Some (group gs g)) /\
  (forall g, g ∈ constant_groups r.1 -> exists e d, group gs g = Some e /\ e_item e = Push d) /\
  gval con opf (group_value vals gs) r.1 = Some x.
Proof.
  intros Hc Hs He Hr Hm Hx. destruct (rule_pattern_ok r Hr) as [Hp Hg].
  assert (He0 : groups_ok c []) by (by intros ? ?).
  destruct (matches_sound r.1 c vals e [] gs x Hc Hs Hp He0 (proj1 (proj2 He))) as (M1 & _ & M3 & M4 & M5);
    [by rewrite Hg | done | done |].
  split_and!; [done | | done | apply M5, (groups_values c); [apply Hs | done]].
  intros g Hg'. apply M3. by apply existsb_nat_in.
Qed.

End Values.

(** ** Soundness *)

Section Words.
(** The results of the instructions and items that [word_op] does not define. *)
Context (env : AssemblyItem -> list Z -> nat -> Z).

Definition item_value (item : AssemblyItem) (vs : list Z) (seq : nat) : Z :=
  match item with
  | Push d => d
  | Operation i => default (wrap 256 (env item vs seq)) (word_op i vs)
  | _ => wrap 256 (env item vs seq)
  end.

Lemma item_value_operation i vs s : knows i = true -> length vs = arguments (Operation i) ->
  word_op i vs = Some (item_value (Operation i) vs s).
Proof. intros Hk Hl. destruct (knows_word_op i vs Hk Hl) as [y Hy]. cbn. by rewrite Hy. Qed.

(** A rule that matches an expression gives a template of the expression's value. *)
Lemma match_sound c vals e i r gs x : classes_wf c -> reps_sound item_value c vals -> Forall (inw 256) vals ->
  expr_wf (length (m_representatives c)) e -> expr_value item_value vals e = Some x ->
  first_match c e (rules_at i) = Some (Some (r, gs)) ->
  exists p t, r.2 (group_data gs) = Some p /\ buildable (pattern_groups r.1) p = true /\ template gs p = Some t /\
  template_value item_value vals t = Some x /\ template_wf (length (m_representatives c)) t.
Proof.
  intros Hc Hs Hi He Hx Ho. destruct (first_match_ok _ _ _ _ _ Ho) as (Hr & Hok & Hm).
  destruct (rule_match id word_op item_value (fun _ _ _ => eq_refl) item_value_operation c vals e r gs x)
    as (M1 & M2 & M3 & M4); [done .. |].
  destruct (Hok (group_data gs) (group_value vals gs)) as (p & y & P1 & P2 & P3 & P4).
  { intros g. unfold group_value. destruct (group gs g) as [e' |]; [| done]. cbn.
    destruct (vals !! e_id e') as [z |] eqn:Hz; [| done]. by apply (Forall_lookup_1 _ _ _ _ Hi Hz). }
  { apply list.Forall_forall. intros g (e' & d & He' & Hd)%M3.
    by destruct (group_constant id item_value (fun _ _ _ => eq_refl) c vals gs g e' d) as [-> <-]. }
  rewrite M4 in P3. injection P3 as <-.
  destruct (template_sound id word_op item_value (fun _ _ _ => eq_refl) item_value_operation c vals gs
    (pattern_groups r.1) (group_value vals gs) p x) as (t & T1 & T2 & T3); [done | apply Hs | done | | done | done |].
  - apply (groups_values c); [apply Hs | done].
  - by exists p, t.
Qed.
End Words.
