(* ===== verification/ExprClasses.v ===== *)
(** * Classes of equivalent expressions

    libevmasm/ExpressionClasses.cpp and .h: [find] puts an expression into the
    class of its value, simplifying it by the rules of SimplRules first.  The
    set of expressions seen is a list searched with [operator<].  The classes
    number fewer than [Id(-1)], which is [None] here, as an exception and the
    end of the fuel are.  [find_total] shows that [find] returns: every rule
    makes an expression lighter, or turns a subtraction into a sum, or moves a
    constant out of a sum whose other part is none. *)
From stdpp Require Import sorting.
From S2P Require Import Prelude Bytes AsmItem SimplRules.

(** ** The order of expressions *)

(** The number of an item type. *)
Definition type_index (t : Ty.t) : nat :=
  match t with
  | Ty.UndefinedItem => 0 | Ty.Operation => 1 | Ty.Push => 2 | Ty.PushString => 3 | Ty.PushTag => 4 | Ty.PushSub => 5
  | Ty.PushSubSize => 6 | Ty.PushProgramSize => 7 | Ty.Tag => 8 | Ty.PushData => 9 | Ty.PushLibraryAddress => 10
  end.

(** [<] of [std::vector] and of a [std::tie] of three. *)
Fixpoint ids_less (a b : list nat) : bool :=
  match a, b with
  | _, [] => false
  | [], _ :: _ => true
  | x :: a, y :: b => (x <? y)%nat || ((x =? y)%nat && ids_less a b)
  end.
Definition tie_less (x : Z) (a : list nat) (s : nat) (y : Z) (b : list nat) (t : nat) : bool :=
  (x <? y) || ((x =? y) && (ids_less a b || (negb (ids_less b a) && (s <? t)%nat))).

(** [Expression::operator<]. *)
Definition less (e f : Expression) : bool :=
  if decide (type (e_item e) <> type (e_item f))
  then (type_index (type (e_item e)) <? type_index (type (e_item f)))%nat
  else
    match e_item e, e_item f with
    | Operation i, Operation j => tie_less i (e_args e) (e_seq e) j (e_args f) (e_seq f)
    | x, y => tie_less (default 0 (data x)) (e_args e) (e_seq e) (default 0 (data y)) (e_args f) (e_seq f)
    end.

(** [std::set]: the element that is neither less nor greater, and its insertion. *)
Definition same (e f : Expression) : bool := negb (less e f) && negb (less f e).
Definition set_find (e : Expression) (l : list Expression) : option Expression := List.find (same e) l.
Definition set_insert (e : Expression) (l : list Expression) : list Expression :=
  match set_find e l with Some _ => l | None => l ++ [e] end.

(** ** Operations *)

Definition set_expressions (l : list Expression) (c : ExpressionClasses) : ExpressionClasses :=
  mkClasses (m_representatives c) l.
Definition add_representative (e : Expression) (c : ExpressionClasses) : ExpressionClasses :=
  mkClasses (m_representatives c ++ [e]) (m_expressions c).
Definition with_id (id : nat) (e : Expression) : Expression := mkExpr id (e_item e) (e_args e) (e_seq e).
Definition with_args (a : list nat) (e : Expression) : Expression := mkExpr (e_id e) (e_item e) a (e_seq e).

(** [std::sort] of the arguments of a commutative operation. *)
Definition normal_args (item : AssemblyItem) (args : list nat) : list nat :=
  if isCommutativeOperation item then merge_sort le args else args.

Section Find.
(** [find] itself, on less fuel. *)
Context (find : AssemblyItem -> list nat -> nat -> ExpressionClasses -> option (nat * ExpressionClasses)).

(** [rebuildExpression]. *)
Fixpoint rebuildExpression (t : ExpressionTemplate) (c : ExpressionClasses) : option (nat * ExpressionClasses) :=
  match t with
  | mkTemplate (Some id) _ _ => Some (id, c)
  | mkTemplate None item ts =>
      '(ids, c) ← (fix go (ts : list ExpressionTemplate) (c : ExpressionClasses) : option (list nat * ExpressionClasses) :=
                     match ts with
                     | [] => Some ([], c)
                     | t :: ts => '(id, c) ← rebuildExpression t c; '(ids, c) ← go ts c; Some (id :: ids, c)
                     end) ts c;
      find item ids 0%nat c
  end.

(** The match of [tryToSimplify]: its class, or [None] for [-1]. *)
Definition try_match (e : Expression) (c : ExpressionClasses) : option (option nat * ExpressionClasses) :=
  m ← findFirstMatch c e;
  match m with
  | Some (r, gs) => p ← r.2 (group_data gs); t ← template gs p; '(id, c) ← rebuildExpression t c; Some (Some id, c)
  | None => Some (None, c)
  end.

(** [tryToSimplify], with its second run on swapped arguments. *)
Definition tryToSimplify (e : Expression) (c : ExpressionClasses) : option (option nat * ExpressionClasses) :=
  if negb (bool_decide (type (e_item e) = Ty.Operation)) || negb (isDeterministic (e_item e)) then Some (None, c)
  else
    '(r, c) ← try_match e c;
    match r, e_args e with
    | None, [a; b] => if isCommutativeOperation (e_item e) then try_match (with_args [b; a] e) c else Some (None, c)
    | _, _ => Some (r, c)
    end.
End Find.

(** [ExpressionClasses::find]. *)
Fixpoint find (fuel : nat) (item : AssemblyItem) (args : list nat) (seq : nat) (c : ExpressionClasses) :
  option (nat * ExpressionClasses) :=
  match fuel with
  | 0%nat => None
  | S fuel =>
      let e := mkExpr 0 item (normal_args item args) seq in
      match (if isDeterministic item then set_find e (m_expressions c) else None) with
      | Some x => Some (e_id x, c)
      | None =>
          '(r, c) ← tryToSimplify (find fuel) e c;
          match r with
          | Some id =>
              if (id <? length (m_representatives c))%nat
              then Some (id, set_expressions (set_insert (with_id id e) (m_expressions c)) c)
              else let id := length (m_representatives c) in
                   Some (id, set_expressions (set_insert (with_id id e) (m_expressions c)) (add_representative (with_id id e) c))
          | None =>
              let id := length (m_representatives c) in
              Some (id, set_expressions (set_insert (with_id id e) (m_expressions c)) (add_representative (with_id id e) c))
          end
      end
  end.

(** [newClass] and [forceEqual]. *)
Definition newClass (c : ExpressionClasses) : nat * ExpressionClasses :=
  let id := length (m_representatives c) in
  let e := mkExpr id (UndefinedItem (wrap 256 (Z.shiftl 1 255 + Z.of_nat id))) [] 0 in
  (id, set_expressions (set_insert e (m_expressions c)) (add_representative e c)).
Definition forceEqual (id : nat) (item : AssemblyItem) (args : list nat) (c : ExpressionClasses) : ExpressionClasses :=
  set_expressions (set_insert (mkExpr id item (normal_args item args) 0) (m_expressions c)) c.

(** [knownZero], [knownNonZero], [knownToBeDifferent], [knownConstant] and [knownToBeDifferentBy32]. *)
Definition is_constant_zero (id : nat) (c : ExpressionClasses) : option bool :=
  e ← representative c id; r ← matches (constant 0) c e []; Some (bool_decide (is_Some r)).
Definition knownZero (id : nat) (c : ExpressionClasses) : option (bool * ExpressionClasses) :=
  b ← is_constant_zero id c; Some (b, c).
Definition knownNonZero (fuel : nat) (id : nat) (c : ExpressionClasses) : option (bool * ExpressionClasses) :=
  '(z, c) ← find fuel (Operation Op.ISZERO) [id] 0 c; b ← is_constant_zero z c; Some (b, c).
Definition knownToBeDifferent (fuel : nat) (a b : nat) (c : ExpressionClasses) : option (bool * ExpressionClasses) :=
  '(d, c) ← find fuel (Operation Op.SUB) [a; b] 0 c; knownNonZero fuel d c.
Definition knownConstant (id : nat) (c : ExpressionClasses) : option (option Z) :=
  e ← representative c id;
  m ← matches (setMatchGroup 1 (of_type Ty.Push)) c e [];
  match m with Some gs => d ← group_data gs 1; Some (Some d) | None => Some None end.
Definition knownToBeDifferentBy32 (fuel : nat) (a b : nat) (c : ExpressionClasses) : option (bool * ExpressionClasses) :=
  '(d, c) ← find fuel (Operation Op.SUB) [a; b] 0 c;
  v ← knownConstant d c;
  Some (match v with Some v => 62 <? wrap 256 (v + 31) | None => false end, c).

(** ** The set of expressions *)

Lemma ids_less_total a b : ids_less a b = false -> ids_less b a = false -> a = b.
Proof.
  revert b. induction a as [| x a IH]; intros [| y b]; try done. cbn [ids_less]. intros H1 H2.
  destruct (Nat.ltb_spec x y), (Nat.ltb_spec y x), (Nat.eqb_spec x y), (Nat.eqb_spec y x); try done; try lia.
  subst. f_equal. by apply IH.
Qed.

Lemma tie_less_total x a s y b t :
  tie_less x a s y b t = false -> tie_less y b t x a s = false -> x = y /\ a = b /\ s = t.
Proof.
  unfold tie_less. intros H1 H2. rewrite !orb_false_iff in *. destruct H1 as [H1 H3], H2 as [H2 H4].
  assert (x = y) as -> by lia. rewrite Z.eqb_refl in *. cbn [andb] in *. rewrite !orb_false_iff in *.
  destruct H3 as [H3 H5], H4 as [H4 H6]. rewrite H3, H4 in *. cbn [negb andb] in *.
  apply Nat.ltb_ge in H5, H6.
  split_and!; [done | by apply ids_less_total | lia].
Qed.

Lemma same_spec e f : same e f = true -> e_item e = e_item f /\ e_args e = e_args f /\ e_seq e = e_seq f.
Proof.
  unfold same. rewrite andb_true_iff, !negb_true_iff. intros [H1 H2]. unfold less in *.
  destruct (decide (type (e_item e) = type (e_item f))) as [Ht | Ht].
  - destruct (decide _) as [? | _] in H1; [done |]. destruct (decide _) as [? | _] in H2; [congruence |].
    destruct (e_item e), (e_item f); try done; apply tie_less_total in H1; try done; cbn in H1; by destruct H1 as (-> & -> & ->).
  - destruct (decide _) as [_ | Hn] in H1; [| by destruct Hn]. destruct (decide _) as [_ | Hn] in H2; [| by destruct Hn].
    destruct (e_item e), (e_item f); cbn in *; done.
Qed.

Lemma set_find_spec e l x : set_find e l = Some x ->
  In x l /\ e_item e = e_item x /\ e_args e = e_args x /\ e_seq e = e_seq x.
Proof. intros [Hx Hs]%find_some. split; [done | by apply same_spec]. Qed.

Lemma set_insert_in e l x : In x (set_insert e l) -> In x l \/ x = e.
Proof. unfold set_insert. case_match; [by left |]. rewrite in_app_iff. cbn. intros [Hx | [Hx | []]]; auto. Qed.

Lemma normal_args_perm item args : normal_args item args ≡ₚ args.
Proof. unfold normal_args. case_match; [apply merge_sort_Permutation | done]. Qed.

(** ** Weights *)

(** The weight of an expression: the number of its nodes, shared ones counted every time. *)
Definition weight_op (i : Z) (vs : list Z) : option Z := Some (1 + fold_right Z.add 0 vs).
Definition weight_item (item : AssemblyItem) (vs : list Z) (seq : nat) : Z :=
  match item with Push _ => 1 | _ => 1 + fold_right Z.add 0 vs end.
Abbreviation pweight := (gval (fun _ => 1) weight_op).
Abbreviation eweight := (expr_value weight_item).

(** The rules that move a constant out of a sum. *)
Definition rotation (r : rule) (p : Pattern) : Prop :=
  exists op q, In op [Op.ADD; Op.MUL; Op.AND; Op.OR; Op.XOR] /\ (q = [Groups.X; Groups.A] \/ q = [Groups.A; Groups.X]) /\
  r.1 = operation op [operation op q; Groups.Y] /\
  p = operation op [operation op [Groups.X; Groups.Y]; Groups.A].

(** What a rule does to the weight. *)
Definition rule_weight (r : rule) : Prop :=
  forall d v p, (forall g, 1 <= v g) -> Forall (fun g => v g = 1) (constant_groups r.1) -> r.2 d = Some p ->
  exists w w', pweight v r.1 = Some w /\ pweight v p = Some w' /\
  (w' < w \/ (w' = w /\ ((m_instruction r.1 = Op.SUB /\ exists q1 q2, p = operation Op.ADD [q1; q2]) \/ rotation r p))).

Ltac weigh :=
  let d := fresh "d" in let v := fresh "v" in let p := fresh "p" in let Hv := fresh "Hv" in let Hc := fresh "Hc" in
  intros d v p Hv Hc;
  cbv [fst snd gives fold1 fold2 fold3 outer add_negated mbind option_bind];
  repeat match goal with |- context [d ?g] => destruct (d g); [| discriminate] end;
  intros [= <-]; cbn in Hc; repeat (apply list.Forall_cons in Hc as [? Hc]); clear Hc;
  pose proof (Hv 1%nat); pose proof (Hv 2%nat); pose proof (Hv 3%nat); pose proof (Hv 4%nat); pose proof (Hv 5%nat);
  eexists _, _; split; [reflexivity | split; [reflexivity |]]; cbn [fold_right].

Lemma all_rules_weight : Forall rule_weight all_rules.
Proof.
  unfold all_rules. rewrite !Forall_app. split_and!.
  - unfold constant_rules. repeat (apply list.Forall_cons; split); try apply Forall_nil_2; weigh; left; cbn; lia.
  - unfold invariant_rules. repeat (apply list.Forall_cons; split); try apply Forall_nil_2; weigh; left; cbn; lia.
  - unfold logical_rules. cbn [map app]. repeat (apply list.Forall_cons; split); try apply Forall_nil_2; weigh; left; cbn; lia.
  - unfold associative_rules. cbn [map concat associative app].
    repeat (apply list.Forall_cons; split); try apply Forall_nil_2; weigh.
    all: try (left; cbn; lia).
    all: right; split; [cbn; lia |]; right; eexists _, _; split_and!; [| | reflexivity | reflexivity];
      [cbn; tauto | first [left; reflexivity | right; reflexivity]].
  - unfold subtraction_rules. repeat (apply list.Forall_cons; split); try apply Forall_nil_2; weigh; right;
      (split; [cbn; lia |]); left; (split; [reflexivity |]); eexists _, _; reflexivity.
Qed.

(** *** The order of the rules on sums *)

Lemma rotation_order op q l1 l2 : In op [Op.ADD; Op.MUL; Op.AND; Op.OR; Op.XOR] ->
  q = [Groups.X; Groups.A] \/ q = [Groups.A; Groups.X] ->
  map fst (rules_at op) = l1 ++ operation op [operation op q; Groups.Y] :: l2 ->
  In (operation op [operation op q; Groups.B]) l1.
Proof.
  intros Hop Hq H. cbn [In] in Hop. destruct Hop as [<- | [<- | [<- | [<- | [<- | []]]]]], Hq as [-> | ->]; vm_compute in H.
  all: repeat (destruct l1 as [| ? l1]; [discriminate H |]; injection H as <- H;
    try (cbn [In]; repeat first [left; reflexivity | right]; fail)).
Qed.

(** A match binds the groups of the pattern only. *)
Lemma matches_binds p c e gs gs' g : pattern_ok p = true -> matches p c e gs = Some (Some gs') -> group gs g = None ->
  g ∉ pattern_groups p -> group gs' g = None.
Proof.
  revert e gs gs'. induction p as [t r i d ps g' IH] using Pattern_nested_ind. intros e gs gs' Hp. rewrite matches_eq.
  destruct (matchesBaseItem _ _) as [[|] |]; [| done ..]. cbn [m_matchGroup m_arguments].
  destruct (bind_group g' e gs) as [gs1 |] eqn:Hb; [| done]. destruct (_ || _); [| done]. intros Hm Hg Hn.
  apply pattern_ok_view in Hp. assert (Hg1 : g <> g' -> group gs1 g = None).
  { intros Hne. unfold bind_group in Hb. destruct (Nat.eqb_spec g' 0); [congruence |].
    destruct (group gs g') as [e' |]; [destruct (_ =? _)%nat; congruence |]. injection Hb as <-.
    unfold group in *. cbn. by destruct (Nat.eqb_spec g' g). }
  inversion Hp as [v i' | ? ? ? ? Hps _ _ Hok | ? ? ? ? Hg' | ? ? ? Hg']; subst.
  - cbn in Hm. injection Hm as <-. injection Hb as <-. done.
  - injection Hb as <-. rewrite (proj1 (groups_operation r i d ps)) in Hn. clear Hp Hps Hg1.
    revert gs Hg Hm. generalize (e_args e). induction ps as [| p ps IHps]; intros ids gs Hg Hm.
    + cbn in Hm. congruence.
    + apply list.Forall_cons in IH as [IHp IH], Hok as [Hp Hok]. cbn [map concat] in Hn. apply not_elem_of_app in Hn as [N1 N2].
      destruct ids as [| id ids]; [done |]. cbn [matches_list] in Hm. destruct (representative c id) as [e' |]; [| done].
      destruct (matches p c e' gs) as [[gs1 |] |] eqn:Hm1; try done. apply (IHps IH N2 Hok ids gs1); [| done].
      by apply (IHp e' gs).
  - cbn in Hm. injection Hm as <-. apply Hg1. intros ->. apply Hn. cbn. apply Nat.eqb_neq in Hg'. rewrite Hg'. by left.
  - cbn in Hm. injection Hm as <-. apply Hg1. intros ->. apply Hn. cbn. apply Nat.eqb_neq in Hg'. rewrite Hg'. by left.
Qed.

Lemma matches_binary op p q c e gs : matches (operation op [p; q]) c e gs =
  match e_item e with
  | Operation i =>
      if op =? i then
        match e_args e with
        | [a; b] =>
            ea ← representative c a;
            match matches p c ea gs with
            | Some (Some gs) => eb ← representative c b; matches q c eb gs
            | r => r
            end
        | _ => None
        end
      else Some None
  | _ => Some None
  end.
Proof.
  rewrite matches_eq. unfold matchesBaseItem. cbn [m_type operation].
  destruct (decide (Ty.Operation = Ty.UndefinedItem)); [done |].
  destruct (e_item e) as [| i | | | | | | | | |]; try (destruct (decide _); [done | by destruct (n0 : ~ _)]).
  destruct (decide _) as [[] | _]; [done |]. destruct (decide _) as [_ | []]; [| done]. cbn.
  destruct (op =? i); [| done]. destruct (e_args e) as [| a [| b [| ? ?]]]; cbn; try done.
  destruct (representative c a) as [ea |]; [| done]. cbn. destruct (matches p c ea gs) as [[gs1 |] |]; try done.
  destruct (representative c b) as [eb |]; [| done]. cbn. by destruct (matches q c eb gs1) as [[? |] |].
Qed.

(** A constant that some rotation would move is taken by the rule before it. *)
Lemma rotation_no_constant op q c e gs : In op [Op.ADD; Op.MUL; Op.AND; Op.OR; Op.XOR] ->
  q = [Groups.X; Groups.A] \/ q = [Groups.A; Groups.X] ->
  matches (operation op [operation op q; Groups.Y]) c e [] = Some (Some gs) ->
  matches (operation op [operation op q; Groups.B]) c e [] = Some None ->
  e_item e = Operation op /\ exists a b ea eb, e_args e = [a; b] /\ representative c a = Some ea /\
  representative c b = Some eb /\ type (e_item ea) <> Ty.Push /\ type (e_item eb) <> Ty.Push.
Proof.
  intros Hop Hq. assert (Hpok : pattern_ok (operation op q) = true).
  { cbn [In] in Hop. destruct Hop as [<- | [<- | [<- | [<- | [<- | []]]]]], Hq as [-> | ->]; reflexivity. }
  assert (Hn : 2%nat ∉ pattern_groups (operation op q)).
  { destruct Hq as [-> | ->]; cbn; intros [? | [? | []%elem_of_nil]%elem_of_cons]%elem_of_cons; done. }
  rewrite !matches_binary. destruct (e_item e) as [| i | | | | | | | | |]; try done.
  destruct (Z.eqb_spec op i) as [<- |]; [| done]. destruct (e_args e) as [| a [| b [| ? ?]]]; try done.
  destruct (representative c a) as [ea |] eqn:Ha; [| done]. cbn [mbind option_bind].
  destruct (matches (operation op q) c ea []) as [[gs1 |] |] eqn:Hm; try done.
  destruct (representative c b) as [eb |] eqn:Hb; [| done]. cbn [mbind option_bind]. intros _ HB.
  split; [done |]. exists a, b, ea, eb. split_and!; try done.
  - intros Ht. rewrite matches_eq in Hm. unfold matchesBaseItem in Hm. rewrite Ht in Hm. by cbn in Hm.
  - intros Ht. rewrite matches_eq in HB. unfold matchesBaseItem in HB. rewrite Ht in HB. cbn in HB.
    unfold bind_group in HB. rewrite (matches_binds _ _ _ _ _ 2 Hpok Hm eq_refl Hn) in HB. done.
Qed.

(** ** Invariants *)

(** Arguments and classes exist. *)
Definition classes_inv (c : ExpressionClasses) : Prop :=
  classes_wf c /\
  Forall (fun x => (e_id x < length (m_representatives c))%nat /\ expr_wf (length (m_representatives c)) x) (m_expressions c).

(** Class [k] has the weight [w !! k]; no expression is lighter than its class. *)
Definition weighted (c : ExpressionClasses) (w : list Z) : Prop :=
  reps_sound weight_item c w /\ Forall (fun z => 1 <= z) w /\
  Forall (fun x => isDeterministic (e_item x) = true -> exists y z, eweight w x = Some y /\ w !! e_id x = Some z /\ z <= y)
    (m_expressions c).

(** Class [k] has the value [vals !! k], which all its expressions have. *)
Definition valued (env : AssemblyItem -> list Z -> nat -> Z) (c : ExpressionClasses) (vals : list Z) : Prop :=
  reps_sound (item_value env) c vals /\ Forall (inw 256) vals /\
  Forall (fun x => isDeterministic (e_item x) = true -> expr_value (item_value env) vals x = vals !! e_id x) (m_expressions c).

(** What an operation that returns the class [id] of weight at most [W] does:
    it keeps what is known, and the class has every value that [V] allows. *)
Definition result (c : ExpressionClasses) (w : list Z) (W : Z)
  (V : (AssemblyItem -> list Z -> nat -> Z) -> list Z -> Z -> Prop) (id : nat) (c' : ExpressionClasses) (w' : list Z) : Prop :=
  classes_inv c' /\ weighted c' w' /\ m_representatives c `prefix_of` m_representatives c' /\ w `prefix_of` w' /\
  (exists z, w' !! id = Some z /\ z <= W) /\
  forall env vals x, valued env c vals -> inw 256 x -> V env vals x ->
  exists vals', vals `prefix_of` vals' /\ valued env c' vals' /\ vals' !! id = Some x.

(** What [find] promises of the value of an expression. *)
Definition has_value (e : Expression) (env : AssemblyItem -> list Z -> nat -> Z) (vals : list Z) (x : Z) : Prop :=
  isDeterministic (e_item e) = true -> expr_value (item_value env) vals e = Some x.

(** *** Monotonicity *)

Lemma lookup_prefix {T} (l l' : list T) i x : l !! i = Some x -> l `prefix_of` l' -> l' !! i = Some x.
Proof. intros H [k ->]. by apply lookup_app_l_Some. Qed.

Lemma mapM_prefix (l l' : list Z) ids xs :
  mapM (fun a => l !! a) ids = Some xs -> l `prefix_of` l' -> mapM (fun a => l' !! a) ids = Some xs.
Proof.
  intros H Hp. apply mapM_Some in H. apply mapM_Some. eapply Forall2_impl; [| exact H]. intros a x Hx. by apply lookup_prefix with l.
Qed.

Lemma expr_value_prefix iv (l l' : list Z) e x : expr_value iv l e = Some x -> l `prefix_of` l' -> expr_value iv l' e = Some x.
Proof.
  unfold expr_value. intros H Hp. destruct (mapM _ _) as [xs |] eqn:Hxs in H; [| done]. by rewrite (mapM_prefix _ _ _ _ Hxs Hp).
Qed.

Lemma expr_value_total iv (l : list Z) e : Forall (fun a => (a < length l)%nat) (e_args e) -> is_Some (expr_value iv l e).
Proof.
  unfold expr_value. intros H. assert (is_Some (mapM (fun a => l !! a) (e_args e))) as [xs ->]; [| eauto].
  apply mapM_is_Some. eapply Forall_impl; [| exact H]. intros a Ha. by apply lookup_lt_is_Some.
Qed.

Lemma expr_wf_le n m e : (n <= m)%nat -> expr_wf n e -> expr_wf m e.
Proof. intros Hn (H1 & H2 & H3). split_and!; [| done | done]. eapply Forall_impl; [| exact H1]. cbn. lia. Qed.

Lemma representative_prefix c c' id e : m_representatives c `prefix_of` m_representatives c' ->
  representative c id = Some e -> representative c' id = Some e.
Proof. unfold representative. intros Hp H. by apply lookup_prefix with (m_representatives c). Qed.

(** *** Adding a class and an expression *)

Lemma reps_sound_snoc iv c vals e x : classes_wf c -> reps_sound iv c vals -> 
  e_id e = length (m_representatives c) -> (isDeterministic (e_item e) = true -> expr_value iv vals e = Some x) ->
  reps_sound iv (add_representative e c) (vals ++ [x]).
Proof.
  intros Hc [Hl Hs] Hid Hx. split; [cbn; rewrite !length_app; cbn; lia |]. intros id e' Hr Hd. unfold representative in Hr.
  cbn in Hr. apply lookup_app_Some in Hr as [Hr | [Hge Hr]].
  - specialize (Hs _ _ Hr Hd). assert (is_Some (vals !! id)) as [y Hy].
    { apply lookup_lt_is_Some. rewrite Hl. by apply lookup_lt_Some in Hr. }
    rewrite Hy in Hs. rewrite (expr_value_prefix _ _ _ _ _ Hs) by (by eexists). symmetry. by apply lookup_app_l_Some.
  - apply list_lookup_singleton_Some in Hr as [Hr <-]. rewrite (expr_value_prefix _ _ _ _ _ (Hx Hd)) by (by eexists).
    symmetry. apply list_lookup_middle. lia.
Qed.

Lemma classes_inv_snoc c e : classes_inv c -> e_id e = length (m_representatives c) ->
  expr_wf (length (m_representatives c)) e -> classes_inv (add_representative e c).
Proof.
  intros [Hc He] Hid Hwf. unfold classes_inv, classes_wf. cbn. rewrite length_app. cbn. split.
  - intros id e' Hr. unfold representative in Hr. cbn in Hr. apply lookup_app_Some in Hr as [Hr | [Hge Hr]].
    + destruct (Hc _ _ Hr) as [H1 H2]. split; [done |]. eapply expr_wf_le; [| exact H2]. lia.
    + apply list_lookup_singleton_Some in Hr as [Hr <-]. split; [lia |]. eapply expr_wf_le; [| exact Hwf]. lia.
  - eapply Forall_impl; [| exact He]. cbn. intros x [H1 H2]. split; [lia |]. eapply expr_wf_le; [| exact H2]. lia.
Qed.

Lemma Forall_set_insert (P : Expression -> Prop) e l : P e -> Forall P l -> Forall P (set_insert e l).
Proof. intros He Hl. unfold set_insert. case_match; [done |]. apply Forall_app. split; [done |]. by constructor. Qed.

(** Entering an expression into a class of its value. *)
Lemma insert_result c w W V e id c' w' : result c w W V id c' w' ->
  expr_wf (length (m_representatives c)) e -> eweight w e = Some W -> (forall env vals x, V env vals x -> has_value e env vals x) ->
  result c w W V id (set_expressions (set_insert (with_id id e) (m_expressions c')) c') w'.
Proof.
  intros (I & Hw & Hp & Hpw & (z & Hz & Hle) & Hv) Hwf HW HV.
  assert (Hlen : (length (m_representatives c) <= length (m_representatives c'))%nat) by (by apply prefix_length).
  assert (Hid : (id < length (m_representatives c'))%nat).
  { destruct Hw as ((Hl & _) & _). rewrite <- Hl. by apply lookup_lt_Some in Hz. }
  split_and!; [| | done | done | by exists z |].
  - split; [apply I |]. cbn. apply Forall_set_insert; [| apply I]. split; [done |]. by apply (expr_wf_le _ _ e Hlen).
  - destruct Hw as (H1 & H2 & H3). split_and!; [done | done |]. cbn. apply Forall_set_insert; [| done].
    intros _. exists W, z. split_and!; [| done | done]. by apply (expr_value_prefix _ _ _ e W HW).
  - intros env vals x Hvals Hx HVx. destruct (Hv env vals x Hvals Hx HVx) as (vals' & H1 & H2 & H3).
    exists vals'. split_and!; [done | | done]. destruct H2 as (K1 & K2 & K3). split_and!; [done | done |].
    cbn. apply Forall_set_insert; [| done]. intros Hd. cbn. rewrite H3.
    apply (expr_value_prefix _ vals _ e x); [| done]. by apply HV.
Qed.

(** A new class. *)
Lemma snoc_result c w W e id : classes_inv c -> weighted c w -> expr_wf (length (m_representatives c)) e ->
  eweight w e = Some W -> id = length (m_representatives c) ->
  result c w W (has_value e) id (add_representative (with_id id e) c) (w ++ [W]).
Proof.
  intros I Hw Hwf HW ->. pose proof (proj1 (proj1 Hw)) as Hl.
  assert (H1 : 1 <= W).
  { destruct Hw as (_ & Hw & _). unfold expr_value in HW. destruct (mapM _ _) as [xs |] eqn:Hxs; [| done]. injection HW as <-.
    assert (0 <= fold_right Z.add 0 xs); [| unfold weight_item; case_match; lia].
    apply mapM_Some in Hxs. clear -Hw Hxs. induction Hxs as [| a x ids xs Hx _ IH]; cbn; [lia |].
    apply (Forall_lookup_1 _ _ _ _ Hw) in Hx. lia. }
  split_and!.
  - by apply classes_inv_snoc.
  - destruct Hw as (K1 & K2 & K3). split_and!.
    + apply reps_sound_snoc; [apply I | done | done | by intros].
    + apply Forall_app. split; [done |]. by constructor.
    + eapply Forall_impl; [| exact K3]. cbn. intros x Hx Hd. destruct (Hx Hd) as (y & z & X1 & X2 & X3).
      exists y, z. split_and!; [| | done]; [by apply expr_value_prefix with w; [| by eexists] | by apply lookup_app_l_Some].
  - by eexists.
  - by eexists.
  - exists W. split; [apply list_lookup_middle; lia | lia].
  - intros env vals x (K1 & K2 & K3) Hx HV. exists (vals ++ [x]). split_and!; [by eexists | | apply list_lookup_middle; destruct K1; lia].
    split_and!.
    + apply reps_sound_snoc; [apply I | done | done | done].
    + apply Forall_app. split; [done |]. by constructor.
    + pose proof (proj2 I) as Hwf'. cbn. rewrite Forall_forall in *. intros x' Hx' Hd. specialize (K3 x' Hx' Hd).
      destruct (Hwf' x' Hx') as [Hlt _]. rewrite <- (proj1 K1) in Hlt. apply lookup_lt_is_Some_2 in Hlt as [y Hy].
      rewrite Hy in K3. rewrite (lookup_app_l_Some _ _ _ _ Hy). apply expr_value_prefix with vals; [done | by eexists].
Qed.

(** *** The order of arguments *)

Lemma fold_right_perm (xs ys : list Z) : xs ≡ₚ ys -> fold_right Z.add 0 xs = fold_right Z.add 0 ys.
Proof. induction 1; cbn; lia. Qed.

Lemma mapM_perm (l : list Z) ids ids' xs : ids ≡ₚ ids' -> mapM (fun a => l !! a) ids = Some xs ->
  exists xs', mapM (fun a => l !! a) ids' = Some xs' /\ xs ≡ₚ xs'.
Proof.
  intros Hp. revert xs. induction Hp as [| a ids ids' Hp IH | a b ids | ids1 ids2 ids3 _ IH1 _ IH2]; intros xs Hxs.
  - by exists xs.
  - cbn in *. destruct (l !! a) as [x |]; [| done]. cbn in *. destruct (mapM _ ids) as [ys |] eqn:Hys; [| done].
    injection Hxs as <-. destruct (IH ys eq_refl) as (ys' & -> & Hy). exists (x :: ys'). split; [done |]. by constructor.
  - cbn in *. destruct (l !! a) as [x |], (l !! b) as [y |]; try done. cbn in *. destruct (mapM _ ids) as [ys |]; [| done].
    injection Hxs as <-. eexists. split; [done |]. constructor.
  - destruct (IH1 _ Hxs) as (ys & Hys & H1). destruct (IH2 _ Hys) as (zs & Hzs & H2). exists zs. split; [done |]. by rewrite H1.
Qed.

Lemma weight_perm w item args args' seq id W : args ≡ₚ args' -> eweight w (mkExpr id item args seq) = Some W ->
  eweight w (mkExpr id item args' seq) = Some W.
Proof.
  unfold expr_value. cbn [e_args e_item e_seq]. intros Hp H. destruct (mapM _ args) as [xs |] eqn:Hxs; [| done].
  destruct (mapM_perm _ _ _ _ Hp Hxs) as (ys & -> & Hys). cbn. injection H as <-. f_equal.
  unfold weight_item. case_match; try done; by rewrite (fold_right_perm _ _ Hys).
Qed.

Lemma commutative_cases item : isCommutativeOperation item = true ->
  exists i, item = Operation i /\ arguments item = 2%nat /\ forall a b, exists z, word_op i [a; b] = Some z /\ word_op i [b; a] = Some z.
Proof.
  destruct item as [| i | | | | | | | | |]; try done. cbn [isCommutativeOperation existsb]. intros H.
  exists i. split; [done |]. rewrite !orb_true_iff, !Z.eqb_eq in H.
  destruct H as [-> | [-> | [-> | [-> | [-> | [-> | [=]]]]]]]; (split; [reflexivity |]); intros a b; eval_op; eexists; (split; [reflexivity |]); f_equal.
  - f_equal. lia.
  - f_equal. lia.
  - by rewrite Z.eqb_sym.
  - apply Z.land_comm.
  - apply Z.lor_comm.
  - apply Z.lxor_comm.
Qed.

Lemma value_perm env vals item args args' seq id : isCommutativeOperation item = true -> length args = arguments item ->
  args ≡ₚ args' ->
  expr_value (item_value env) vals (mkExpr id item args seq) = expr_value (item_value env) vals (mkExpr id item args' seq).
Proof.
  intros (i & -> & Ha & Hc)%commutative_cases. rewrite Ha. intros Hl Hp.
  destruct args as [| a [| b [| ? ?]]]; try done. apply Permutation_length_2_inv in Hp as [-> | ->]; [done |].
  unfold expr_value. cbn [e_args e_item e_seq mapM]. destruct (vals !! a) as [x |], (vals !! b) as [y |]; try done.
  cbn [mbind option_bind mret option_ret item_value]. by destruct (Hc x y) as (z & -> & ->).
Qed.

Lemma item_value_inw env item vs seq : Forall (inw 256) vs -> match item with Push d => inw 256 d | _ => True end ->
  inw 256 (item_value env item vs seq).
Proof.
  intros Hvs Hd. destruct item; try (apply wrap_inw; lia); [| done]. unfold item_value.
  destruct (word_op i vs) as [x |] eqn:Hx; [by apply (word_op_range i vs) | apply wrap_inw; lia].
Qed.

(** ** The measure *)

Definition is_push (c : ExpressionClasses) (a : nat) : bool :=
  match representative c a with Some e => bool_decide (type (e_item e) = Ty.Push) | None => false end.
Definition flag (c : ExpressionClasses) (item : AssemblyItem) (args : list nat) : nat :=
  if bool_decide (item = Operation Op.SUB) then 2 else if existsb (is_push c) args then 0 else 1.

Lemma flag_le c item args : (flag c item args <= 2)%nat.
Proof. unfold flag. case_bool_decide; [done |]. case_match; lia. Qed.

Lemma flag_perm c item args args' : args ≡ₚ args' -> flag c item args = flag c item args'.
Proof.
  intros Hp. unfold flag. case_bool_decide; [done |]. enough (existsb (is_push c) args = existsb (is_push c) args') as -> by done.
  apply eq_bool_prop_intro. rewrite !Is_true_true, !existsb_exists. split; intros (a & Ha & Hb); exists a; (split; [| done]).
  - by apply (Permutation_in _ Hp).
  - by apply (Permutation_in _ (symmetry Hp)).
Qed.

(** [find] returns on the expressions of weight [W] that measure less than [B]. *)
Definition finds (B : Z) : Prop :=
  forall c w item args seq W, classes_inv c -> weighted c w ->
  expr_wf (length (m_representatives c)) (mkExpr 0 item args seq) -> eweight w (mkExpr 0 item args seq) = Some W ->
  3 * W + Z.of_nat (flag c item args) < B ->
  exists n id c' w', (forall m, (n <= m)%nat -> find m item args seq c = Some (id, c')) /\
  result c w W (has_value (mkExpr 0 item args seq)) id c' w'.

(** ** Rebuilding *)

Lemma Template_nested_ind (P : ExpressionTemplate -> Prop) :
  (forall id item ts, Forall P ts -> P (mkTemplate id item ts)) -> forall t, P t.
Proof.
  intros H. fix IH 1. intros [id item ts]. apply H. induction ts as [| t ts IHts]; constructor; [apply IH | exact IHts].
Qed.

(** The loop over the arguments. *)
Fixpoint rebuild_list (f : AssemblyItem -> list nat -> nat -> ExpressionClasses -> option (nat * ExpressionClasses))
  (ts : list ExpressionTemplate) (c : ExpressionClasses) : option (list nat * ExpressionClasses) :=
  match ts with
  | [] => Some ([], c)
  | t :: ts => '(id, c) ← rebuildExpression f t c; '(ids, c) ← rebuild_list f ts c; Some (id :: ids, c)
  end.

Lemma rebuild_eq f item ts c :
  rebuildExpression f (mkTemplate None item ts) c = ('(ids, c) ← rebuild_list f ts c; f item ids 0%nat c).
Proof.
  cbn [rebuildExpression]. f_equal. revert c. induction ts as [| t ts IH]; intros c; [done |]. cbn [rebuild_list].
  destruct (rebuildExpression f t c) as [[id c'] |]; [| done]. cbn. by rewrite IH.
Qed.

(** Results of templates. *)
Definition template_val (t : ExpressionTemplate) (env : AssemblyItem -> list Z -> nat -> Z) (vals : list Z) (x : Z) : Prop :=
  template_value (item_value env) vals t = Some x.

Definition rebuilds (B : Z) (t : ExpressionTemplate) : Prop :=
  forall c w W, classes_inv c -> weighted c w -> template_wf (length (m_representatives c)) t ->
  template_value weight_item w t = Some W -> 3 * W + 2 < B ->
  exists n id c' w', (forall m, (n <= m)%nat -> rebuildExpression (find m) t c = Some (id, c')) /\
  result c w W (template_val t) id c' w'.

(** The results of a list of templates. *)
Definition results (c : ExpressionClasses) (w Ws : list Z) (ts : list ExpressionTemplate) (ids : list nat)
  (c' : ExpressionClasses) (w' : list Z) : Prop :=
  classes_inv c' /\ weighted c' w' /\ m_representatives c `prefix_of` m_representatives c' /\ w `prefix_of` w' /\
  Forall2 (fun id W => exists z, w' !! id = Some z /\ z <= W) ids Ws /\
  forall env vals xs, valued env c vals -> mapM (template_value (item_value env) vals) ts = Some xs ->
  exists vals', vals `prefix_of` vals' /\ valued env c' vals' /\ mapM (fun a => vals' !! a) ids = Some xs.

Lemma template_value_prefix iv (l l' : list Z) t x : template_value iv l t = Some x -> l `prefix_of` l' -> template_value iv l' t = Some x.
Proof.
  intros H Hp. revert x H. induction t as [[id |] item ts IH] using Template_nested_ind; intros x H.
  - by apply lookup_prefix with l.
  - cbn [template_value] in *. destruct (mapM (template_value iv l) ts) as [xs |] eqn:Hxs; [| done].
    enough (mapM (template_value iv l') ts = Some xs) as -> by done. clear H. apply mapM_Some in Hxs. apply mapM_Some.
    induction Hxs as [| t y ts ys Hy _ IHxs]; [constructor |]. apply list.Forall_cons in IH as [IHt IH]. constructor; auto.
Qed.

Lemma template_wf_le n m t : (n <= m)%nat -> template_wf n t -> template_wf m t.
Proof.
  intros Hn. induction t as [[id |] item ts IH] using Template_nested_ind; [cbn; lia |].
  rewrite !template_wf_build. intros (H1 & H2 & H3 & H4). split_and!; [done .. |].
  clear H1. induction H4 as [| t ts Ht _ IHts]; [constructor |]. apply list.Forall_cons in IH as [IHt IH]. constructor; auto.
Qed.

Lemma template_value_inw env n vals t x : Forall (inw 256) vals -> template_wf n t ->
  template_value (item_value env) vals t = Some x -> inw 256 x.
Proof.
  intros Hi. revert x. induction t as [[id |] item ts IH] using Template_nested_ind; intros x.
  - intros _ Hx. by apply (Forall_lookup_1 _ _ _ _ Hi Hx).
  - rewrite template_wf_build. intros (_ & _ & H3 & H4) Hx. cbn [template_value] in Hx.
    destruct (mapM _ ts) as [xs |] eqn:Hxs; [| done]. injection Hx as <-. apply item_value_inw; [| by destruct item].
    apply mapM_Some in Hxs. clear H3. induction Hxs as [| t y ts ys Hy _ IHxs]; [constructor |].
    apply list.Forall_cons in IH as [IHt IH], H4 as [H4 H5]. constructor; auto.
Qed.

Lemma rebuild_list_total B ts : Forall (rebuilds B) ts -> forall c w Ws, classes_inv c -> weighted c w ->
  Forall (template_wf (length (m_representatives c))) ts -> mapM (template_value weight_item w) ts = Some Ws ->
  Forall (fun W => 3 * W + 2 < B) Ws ->
  exists n ids c' w', (forall m, (n <= m)%nat -> rebuild_list (find m) ts c = Some (ids, c')) /\ results c w Ws ts ids c' w'.
Proof.
  induction 1 as [| t ts Ht _ IH]; intros c w Ws I Hw Hwf HWs HB.
  - injection HWs as <-. exists 0%nat, [], c, w. split; [done |]. split_and!; try done. intros env vals xs Hv [= <-]. by exists vals.
  - apply list.Forall_cons in Hwf as [Hwf1 Hwf]. cbn [mapM] in HWs. destruct (template_value weight_item w t) as [W |] eqn:HW; [| done].
    cbn in HWs. destruct (mapM _ ts) as [Ws' |] eqn:HWs'; [| done]. injection HWs as <-. apply list.Forall_cons in HB as [HB1 HB].
    destruct (Ht c w W I Hw Hwf1 HW HB1) as (n1 & id & c1 & w1 & F1 & I1 & Hw1 & P1 & Pw1 & (z & Hz & Hle) & V1).
    assert (Hlen : (length (m_representatives c) <= length (m_representatives c1))%nat) by (by apply prefix_length).
    destruct (IH c1 w1 Ws' I1 Hw1) as (n2 & ids & c2 & w2 & F2 & I2 & Hw2 & P2 & Pw2 & Z2 & V2).
    { eapply Forall_impl; [| exact Hwf]. intros t'. by apply template_wf_le. }
    { apply mapM_Some. apply mapM_Some in HWs'. eapply Forall2_impl; [| exact HWs']. intros t' y Hy. by apply template_value_prefix with w. }
    { done. }
    exists (n1 + n2)%nat, (id :: ids), c2, w2. split.
    { intros m Hm. cbn [rebuild_list]. rewrite F1 by lia. cbn [mbind option_bind]. by rewrite F2 by lia. }
    split_and!; [done | done | by etrans | by etrans | |].
    { constructor; [| done]. exists z. split; [by apply lookup_prefix with w1 | done]. }
    intros env vals xs Hv Hxs. cbn [mapM] in Hxs. destruct (template_value _ vals t) as [x |] eqn:Hx; [| done]. cbn in Hxs.
    destruct (mapM (template_value (item_value env) vals) ts) as [xs' |] eqn:Hxs'; [| done]. injection Hxs as <-.
    destruct (V1 env vals x Hv) as (vals1 & Q1 & Hv1 & Hx1);
      [by apply (template_value_inw env (length (m_representatives c)) vals t); [apply Hv | |] | done |].
    destruct (V2 env vals1 xs' Hv1) as (vals2 & Q2 & Hv2 & Hxs2).
    { apply mapM_Some. apply mapM_Some in Hxs'. eapply Forall2_impl; [| exact Hxs']. intros t' y Hy. by apply template_value_prefix with vals. }
    exists vals2. split_and!; [by etrans | done |]. cbn [mapM]. rewrite (lookup_prefix _ _ _ _ Hx1 Q2). cbn. by rewrite Hxs2.
Qed.

Lemma weight_item_mono item (xs ys : list Z) s t : Forall2 Z.le xs ys -> weight_item item xs s <= weight_item item ys t.
Proof.
  intros H. assert (fold_right Z.add 0 xs <= fold_right Z.add 0 ys) by (induction H; cbn; lia).
  unfold weight_item. case_match; lia.
Qed.

Lemma results_lookup (w' : list Z) (ids : list nat) (Ws : list Z) : Forall2 (fun id W => exists z, w' !! id = Some z /\ z <= W) ids Ws ->
  exists zs, mapM (fun a => w' !! a) ids = Some zs /\ Forall2 Z.le zs Ws.
Proof.
  induction 1 as [| id W ids Ws (z & Hz & Hle) _ (zs & Hzs & IH)]; [by exists [] |].
  exists (z :: zs). cbn [mapM]. rewrite Hz. cbn. rewrite Hzs. split; [done |]. by constructor.
Qed.

(** The last step of rebuilding: [find] on the classes of the arguments. *)
Lemma rebuild_root B item ts c w Ws ids c1 w1 : finds B -> classes_inv c ->
  template_wf (length (m_representatives c)) (mkTemplate None item ts) ->
  results c w Ws ts ids c1 w1 -> length ids = length ts ->
  3 * weight_item item Ws 0 + Z.of_nat (flag c1 item ids) < B ->
  exists n id c' w', (forall m, (n <= m)%nat -> find m item ids 0 c1 = Some (id, c')) /\
  result c w (weight_item item Ws 0) (template_val (mkTemplate None item ts)) id c' w'.
Proof.
  intros HB I (Hl & Hd & Hi & Hts)%template_wf_build (I1 & Hw1 & P1 & Pw1 & Z1 & V1) Hids Hm.
  destruct (results_lookup _ _ _ Z1) as (zs & Hzs & Hle).
  pose proof (weight_item_mono item zs Ws 0 0 Hle) as Hmono.
  destruct (HB c1 w1 item ids 0%nat (weight_item item zs 0) I1 Hw1) as (n & id & c' & w' & F & I' & Hw' & P' & Pw' & (z & Hz & Hz') & V').
  - split_and!; cbn [e_args e_item]; [| congruence | by destruct item].
    rewrite <- (proj1 (proj1 Hw1)). apply mapM_Some in Hzs. clear -Hzs.
    induction Hzs as [| a y l l' Hy _ IH]; constructor; [by apply lookup_lt_Some in Hy | done].
  - unfold expr_value. cbn [e_args e_item e_seq]. by rewrite Hzs.
  - lia.
  - exists n, id, c', w'. split; [done |]. split_and!; [done | done | by etrans | by etrans | exists z; split; [done | lia] |].
    intros env vals x Hv Hx Ht. unfold template_val in Ht. cbn [template_value] in Ht.
    destruct (mapM _ ts) as [xs |] eqn:Hxs; [| done]. destruct (V1 env vals xs Hv Hxs) as (vals1 & Q1 & Hv1 & Hx1).
    destruct (V' env vals1 x Hv1 Hx) as (vals2 & Q2 & Hv2 & Hx2).
    { intros _. unfold expr_value. cbn [e_args e_item e_seq]. by rewrite Hx1. }
    exists vals2. split_and!; [by etrans | done | done].
Qed.

Lemma fold_right_bound (Ws : list Z) W : Forall (fun z => 1 <= z) Ws -> W ∈ Ws -> W <= fold_right Z.add 0 Ws.
Proof.
  induction 1 as [| x l Hx Hl IH]; [by intros ?%elem_of_nil |]. assert (0 <= fold_right Z.add 0 l) by (clear IH; induction Hl; cbn; lia).
  cbn. intros [-> | Hw%IH]%elem_of_cons; lia.
Qed.

Lemma template_weight_pos w t W : Forall (fun z => 1 <= z) w -> template_value weight_item w t = Some W -> 1 <= W.
Proof.
  intros Hw. revert W. induction t as [[id |] item ts IH] using Template_nested_ind; intros W HW.
  - by apply (Forall_lookup_1 _ _ _ _ Hw HW).
  - cbn [template_value] in HW. destruct (mapM _ ts) as [xs |] eqn:Hxs; [| done]. injection HW as <-.
    assert (0 <= fold_right Z.add 0 xs); [| unfold weight_item; case_match; lia].
    apply mapM_Some in Hxs. induction Hxs as [| t y ts ys Hy _ IHxs]; [done |]. apply list.Forall_cons in IH as [IHt IH].
    apply IHt in Hy. specialize (IHxs IH). cbn. lia.
Qed.

(** The arguments of a template are lighter than it. *)
Lemma template_arguments w item ts Ws : Forall (fun z => 1 <= z) w -> match item with Push _ => ts = [] | _ => True end ->
  mapM (template_value weight_item w) ts = Some Ws -> Forall (fun W => W + 1 <= weight_item item Ws 0) Ws.
Proof.
  intros Hw Hp HWs. apply mapM_Some in HWs. assert (Hpos : Forall (fun z => 1 <= z) Ws).
  { clear -Hw HWs. induction HWs as [| t y ts ys Hy _ IH]; constructor; [by apply (template_weight_pos w t) | done]. }
  apply list.Forall_forall. intros W HW. pose proof (fold_right_bound Ws W Hpos HW).
  unfold weight_item. case_match; try lia. subst. inversion HWs. subst. by apply elem_of_nil in HW.
Qed.

Lemma rebuild_total B t : finds B -> rebuilds B t.
Proof.
  intros HB. induction t as [[id |] item ts IH] using Template_nested_ind; intros c w W I Hw Hwf HW HM.
  - exists 0%nat, id, c, w. split; [done |]. split_and!; try done; [by exists W |]. intros env vals x Hv Hx Ht. by exists vals.
  - pose proof Hwf as (Hl & Hd & Hi & Hts)%template_wf_build. cbn [template_value] in HW.
    destruct (mapM _ ts) as [Ws |] eqn:HWs; [| done]. injection HW as <-.
    pose proof (template_arguments w item ts Ws (proj1 (proj2 Hw))) as Ha.
    destruct (rebuild_list_total B ts IH c w Ws I Hw Hts HWs) as (n1 & ids & c1 & w1 & F1 & R1).
    { eapply Forall_impl; [| apply Ha; [| done]]; [cbn; lia |]. destruct item; try done. by apply length_zero_iff_nil in Hl. }
    destruct (rebuild_root B item ts c w Ws ids c1 w1 HB I Hwf R1) as (n2 & id & c' & w' & F2 & R2).
    { destruct R1 as (_ & _ & _ & _ & Z1 & _). apply Forall2_length in Z1. apply length_mapM in HWs. congruence. }
    { pose proof (flag_le c1 item ids). lia. }
    exists (n1 + n2)%nat, id, c', w'. split; [| done]. intros m Hm. rewrite rebuild_eq, F1 by lia. cbn. apply F2. lia.
Qed.

(** ** Simplification *)

Lemma result_weaken c w W W' (V V' : (AssemblyItem -> list Z -> nat -> Z) -> list Z -> Z -> Prop) id c' w' :
  result c w W' V' id c' w' -> W' <= W ->
  (forall env vals x, valued env c vals -> V env vals x -> V' env vals x) -> result c w W V id c' w'.
Proof.
  intros (H1 & H2 & H3 & H4 & (z & Hz & Hle) & H6) HW HV. split_and!; [done .. | |].
  - exists z. split; [done | lia].
  - intros env vals x Hv Hx HVx. apply H6; auto.
Qed.

(** The constants bound to match groups. *)
Lemma rule_action c e i r gs : classes_wf c -> first_match c e (rules_at i) = Some (Some (r, gs)) -> groups_ok c gs ->
  (forall g, g ∈ constant_groups r.1 -> exists e d, group gs g = Some e /\ e_item e = Push d) ->
  exists p, r.2 (group_data gs) = Some p /\ buildable (pattern_groups r.1) p = true.
Proof.
  intros Hc (_ & Hok & _)%first_match_ok Hgs Hcon.
  assert (Hd : forall g e d, group gs g = Some e -> e_item e = Push d -> group_data gs g = Some d /\ inw 256 d).
  { intros g e' d He' Hd. unfold group_data. rewrite He'. cbn. rewrite Hd. split; [done |].
    destruct (Hc _ _ (Hgs _ _ He')) as (_ & _ & _ & H). by rewrite Hd in H. }
  destruct (Hok (group_data gs) (fun g => match group gs g with Some (mkExpr _ (Push d) _ _) => d | _ => 0 end))
    as (p & x & P1 & _ & _ & P4).
  - intros g. destruct (group gs g) as [[id item args seq] |] eqn:Hg; [| apply zero_inw].
    destruct item; try apply zero_inw. by apply (Hd g _ data Hg).
  - apply list.Forall_forall. intros g ([id item args seq] & d & He' & Hi)%Hcon. rewrite He'. cbn in Hi. subst.
    by apply (Hd g _ d He').
  - by exists p.
Qed.

(** The template of a match: its weight and its value. *)
Lemma match_template c w e i W r gs : classes_inv c -> weighted c w -> expr_wf (length (m_representatives c)) e ->
  e_item e = Operation i -> isDeterministic (e_item e) = true -> eweight w e = Some W ->
  first_match c e (rules_at i) = Some (Some (r, gs)) ->
  exists p t W', r.2 (group_data gs) = Some p /\ template gs p = Some t /\ template_wf (length (m_representatives c)) t /\
  template_value weight_item w t = Some W' /\ groups_ok c gs /\
  (forall g, g ∈ constant_groups r.1 -> exists e d, group gs g = Some e /\ e_item e = Push d) /\
  (W' < W \/ (W' = W /\ ((m_instruction r.1 = Op.SUB /\ exists q1 q2, p = operation Op.ADD [q1; q2]) \/ rotation r p))) /\
  forall env vals x, valued env c vals -> has_value e env vals x -> template_val t env vals x.
Proof.
  intros I Hw He Hi Hdet HW Ho. destruct (first_match_ok _ _ _ _ _ Ho) as (Hr & _ & Hm). pose proof Hw as (Hs & Hpos & _).
  assert (Hpush : forall d (vs : list Z) (s : nat), weight_item (Push d) vs s = 1) by done.
  assert (Hop : forall i vs s, knows i = true -> length vs = arguments (Operation i) ->
    weight_op i vs = Some (weight_item (Operation i) vs s)) by done.
  destruct (rule_match _ _ _ Hpush Hop c w e r gs W (proj1 I) Hs He Hr Hm HW) as (M1 & M2 & M3 & M4).
  destruct (rule_action c e i r gs (proj1 I) Ho M1 M3) as (p & P1 & P2).
  destruct (proj1 (Forall_forall _ _) all_rules_weight r Hr (group_data gs) (group_value w gs) p) as (W1 & W' & Q1 & Q2 & Q3).
  { intros g. unfold group_value. destruct (group gs g) as [e' |]; [| done]. cbn.
    destruct (w !! e_id e') as [z |] eqn:Hz; [| done]. by apply (Forall_lookup_1 _ _ _ _ Hpos Hz). }
  { apply list.Forall_forall. intros g (e' & d & He' & Hd)%M3.
    by destruct (group_constant _ _ Hpush c w gs g e' d (proj1 I) Hs M1 He' Hd) as [_ <-]. }
  { done. }
  rewrite M4 in Q1. injection Q1 as <-.
  destruct (template_sound _ _ _ Hpush Hop c w gs (pattern_groups r.1) (group_value w gs) p W') as (t & T1 & T2 & T3);
    [done | apply Hs | done | apply (groups_values c); [apply Hs | done] | done | done |].
  exists p, t, W'. split_and!; try done. intros env vals x Hv Hx.
  destruct (match_sound env c vals e i r gs x (proj1 I) (proj1 Hv) (proj1 (proj2 Hv)) He (Hx Hdet) Ho)
    as (p' & t' & E1 & _ & E2 & E3 & _).
  rewrite P1 in E1. injection E1 as <-. rewrite T1 in E2. injection E2 as <-. exact E3.
Qed.

(** A binary template: both arguments are rebuilt before its own class is found. *)
Lemma rebuild_binary B item t1 t2 c w W : finds B -> classes_inv c -> weighted c w ->
  template_wf (length (m_representatives c)) (mkTemplate None item [t1; t2]) ->
  match item with Push _ => False | _ => True end ->
  template_value weight_item w (mkTemplate None item [t1; t2]) = Some W -> 3 * W <= B ->
  (forall c1 id1 id2, m_representatives c `prefix_of` m_representatives c1 ->
    (forall id it ts, t2 = mkTemplate (Some id) it ts -> id2 = id) -> 3 * W + Z.of_nat (flag c1 item [id1; id2]) < B) ->
  exists n id c' w', (forall m, (n <= m)%nat -> rebuildExpression (find m) (mkTemplate None item [t1; t2]) c = Some (id, c')) /\
  result c w W (template_val (mkTemplate None item [t1; t2])) id c' w'.
Proof.
  intros HB I Hw Hwf Hitem HW HWB Hflag. pose proof Hwf as (Hl & Hd & Hi & Hts)%template_wf_build. cbn [template_value] in HW.
  destruct (mapM _ [t1; t2]) as [Ws |] eqn:HWs; [| done]. injection HW as <-.
  pose proof (template_arguments w item [t1; t2] Ws (proj1 (proj2 Hw))) as Ha.
  destruct (rebuild_list_total B [t1; t2]) with (c := c) (w := w) (Ws := Ws) as (n1 & ids & c1 & w1 & F1 & R1); try done.
  { repeat constructor; by apply rebuild_total. }
  { eapply Forall_impl; [| apply Ha; [by destruct item | done]]. cbn. lia. }
  assert (Hids : exists id1 id2, ids = [id1; id2] /\ forall id it ts, t2 = mkTemplate (Some id) it ts -> id2 = id).
  { specialize (F1 n1 (le_n _)). cbn [rebuild_list] in F1. destruct (rebuildExpression _ t1 c) as [[id1 c2] |]; [| done].
    cbn in F1. destruct (rebuildExpression (find n1) t2 c2) as [[id2 c3] |] eqn:F2; [| done]. cbn in F1. injection F1 as <- <-.
    exists id1, id2. split; [done |]. intros id it ts ->. cbn in F2. congruence. }
  destruct Hids as (id1 & id2 & -> & Hid2).
  destruct (rebuild_root B item [t1; t2] c w Ws [id1; id2] c1 w1 HB I Hwf R1 eq_refl) as (n2 & id & c' & w' & F2 & R2).
  { apply Hflag; [apply R1 | done]. }
  exists (n1 + n2)%nat, id, c', w'. split; [| done]. intros m Hm. rewrite rebuild_eq, F1 by lia. cbn. apply F2. lia.
Qed.

Lemma template_binary gs op p q t : template gs (operation op [p; q]) = Some t ->
  exists t1 t2, t = mkTemplate None (Operation op) [t1; t2] /\ template gs p = Some t1 /\ template gs q = Some t2.
Proof.
  cbn -[template]. cbn [template m_arguments operation]. destruct (template gs p) as [t1 |]; [| done].
  destruct (template gs q) as [t2 |]; [| done]. cbn. intros [= <-]. eauto.
Qed.

Lemma rotation_flag c e i r gs p : first_match c e (rules_at i) = Some (Some (r, gs)) -> e_item e = Operation i ->
  rotation r p -> flag c (e_item e) (e_args e) = 1%nat.
Proof.
  intros Ho Hi (op & q & Hop & Hq & Hr & _). destruct (first_match_spec _ _ _ _ _ Ho) as (l1 & l2 & Hrs & Hm & Hl).
  assert (Hri : i = op).
  { destruct (in_rules_at i r) as [_ <-]; [rewrite Hrs; apply in_elt | by rewrite Hr]. }
  subst i. assert (Hin : In (operation op [operation op q; Groups.B]) (map fst l1)).
  { apply (rotation_order op q _ (map fst l2) Hop Hq). rewrite Hrs, map_app. cbn [map]. by rewrite Hr. }
  apply in_map_iff in Hin as (r' & Hr' & Hin). rewrite Forall_forall in Hl. specialize (Hl r' Hin).
  rewrite Hr in Hm. rewrite Hr' in Hl.
  destruct (rotation_no_constant op q c e gs Hop Hq Hm Hl) as (He & a & b & ea & eb & Hargs & Ha & Hb & Ta & Tb).
  unfold flag. rewrite He, Hargs. unfold is_push. cbn [existsb]. rewrite Ha, Hb.
  rewrite !bool_decide_eq_false_2; [done | done | done |]. intros [= Hs]. rewrite Hs in Hop. cbn in Hop. intuition discriminate.
Qed.

Lemma rotation_flag_after c c' op id ea d : In op [Op.ADD; Op.MUL; Op.AND; Op.OR; Op.XOR] ->
  m_representatives c `prefix_of` m_representatives c' -> representative c (e_id ea) = Some ea -> e_item ea = Push d ->
  flag c' (Operation op) [id; e_id ea] = 0%nat.
Proof.
  intros Hop Hp Hr Hd. unfold flag. rewrite bool_decide_eq_false_2.
  - cbn [existsb]. unfold is_push at 2. rewrite (representative_prefix _ _ _ _ Hp Hr), Hd. cbn. by rewrite orb_true_r.
  - intros [= ->]. cbn in Hop. intuition discriminate.
Qed.

Lemma try_match_total B c w e i W : finds B -> classes_inv c -> weighted c w -> expr_wf (length (m_representatives c)) e ->
  e_item e = Operation i -> isDeterministic (e_item e) = true -> eweight w e = Some W ->
  3 * W + Z.of_nat (flag c (e_item e) (e_args e)) <= B ->
  exists n r c', (forall m, (n <= m)%nat -> try_match (find m) e c = Some (r, c')) /\
  match r with None => c' = c | Some id => exists w', result c w W (has_value e) id c' w' end.
Proof.
  intros HB I Hw He Hi Hdet HW HM. unfold try_match. pose proof He as (_ & _ & Hi'). rewrite Hi in Hi'.
  rewrite (findFirstMatch_rules _ _ i Hi Hi'). destruct (first_match_total c e i (proj1 I) He) as [o Ho]. rewrite Ho.
  destruct o as [[r gs] |]; cbn [mbind option_bind]; [| by exists 0%nat, None, c].
  destruct (match_template c w e i W r gs I Hw He Hi Hdet HW Ho) as (p & t & W' & P1 & T1 & T2 & T3 & Hgs & Hcon & HWW & HV).
  rewrite P1. cbn [mbind option_bind]. rewrite T1. cbn [mbind option_bind].
  assert (Hre : exists n id c' w', (forall m, (n <= m)%nat -> rebuildExpression (find m) t c = Some (id, c')) /\
    result c w W' (template_val t) id c' w').
  { destruct HWW as [Hlt | (-> & [(Hsub & q1 & q2 & ->) | Hrot])].
    - apply (rebuild_total B t HB c w W' I Hw T2 T3). lia.
    - apply template_binary in T1 as (t1 & t2 & -> & _ & _).
      assert (Hsub' : i = Op.SUB).
      { destruct (first_match_spec _ _ _ _ _ Ho) as (l1 & l2 & Hrs & _). 
        destruct (in_rules_at i r) as [_ <-]; [rewrite Hrs; apply in_elt | done]. }
      apply (rebuild_binary B); try done; [lia |]. intros c1 id1 id2 _ _. rewrite Hi, Hsub' in HM.
      unfold flag in HM. rewrite bool_decide_eq_true_2 in HM by done. unfold flag. rewrite bool_decide_eq_false_2 by done.
      case_match; lia.
    - pose proof (rotation_flag c e i r gs p Ho Hi Hrot) as Hf. rewrite Hf in HM.
      destruct Hrot as (op & q & Hop & Hq & Hr & ->). apply template_binary in T1 as (t1 & t2 & -> & _ & Ht2).
      apply (rebuild_binary B); try done; [lia |]. intros c1 id1 id2 Hp Hid2.
      assert (Hz : flag c1 (Operation op) [id1; id2] = 0%nat); [| lia].
      destruct (Hcon 1%nat) as (ea & d & Hea & Hd); [rewrite Hr; destruct Hq as [-> | ->]; by left |].
      cbn in Ht2. unfold group_id in Ht2. rewrite Hea in Ht2. cbn in Ht2. injection Ht2 as <-.
      rewrite (Hid2 (e_id ea) _ _ eq_refl). apply (rotation_flag_after c c1 op id1 ea d); [done | done | by apply (Hgs 1%nat) | done]. }
  destruct Hre as (n & id & c' & w' & F & R). exists n, (Some id), c'. split.
  - intros m Hm. by rewrite F.
  - exists w'. apply (result_weaken _ _ W W' _ _ _ _ _ R); [| done]. destruct HWW as [? | [-> _]]; lia.
Qed.

Lemma simplify_total B c w e W : finds B -> classes_inv c -> weighted c w -> expr_wf (length (m_representatives c)) e ->
  eweight w e = Some W -> 3 * W + Z.of_nat (flag c (e_item e) (e_args e)) <= B ->
  exists n r c', (forall m, (n <= m)%nat -> tryToSimplify (find m) e c = Some (r, c')) /\
  match r with None => c' = c | Some id => exists w', result c w W (has_value e) id c' w' end.
Proof.
  intros HB I Hw He HW HM. unfold tryToSimplify. destruct (_ || _) eqn:Hc; [by exists 0%nat, None, c |].
  rewrite orb_false_iff, !negb_false_iff, bool_decide_eq_true in Hc. destruct Hc as [Ht Hd].
  destruct e as [id item args seq]. cbn [e_item e_args] in *. destruct item as [| i | | | | | | | | |]; try done.
  destruct (try_match_total B c w _ i W HB I Hw He eq_refl Hd HW HM) as (n & r & c' & F & R).
  destruct r as [id' |].
  { exists n, (Some id'), c'. split; [| done]. intros m Hm. by rewrite F. }
  subst c'. destruct (isCommutativeOperation (Operation i)) eqn:Hcomm.
  2: { exists n, None, c. split; [| done]. intros m Hm. rewrite F by done. cbn [mbind option_bind].
       destruct args as [| a [| b [| ? ?]]]; done. }
  destruct args as [| a [| b [| a3 args]]]; try (exists n, None, c; split; [| done]; intros m Hm; by rewrite F).
  assert (Hp : [a; b] ≡ₚ [b; a]) by constructor. pose proof He as (Ha & Hl & Hi). cbn [e_args e_item] in Ha, Hl, Hi.
  destruct (try_match_total B c w (mkExpr id (Operation i) [b; a] seq) i W) as (n2 & r & c' & F2 & R2); try done.
  { split_and!; cbn [e_args e_item]; [by rewrite <- Hp | done | done]. }
  { by apply (weight_perm w _ [a; b]). }
  { cbn [e_item e_args]. by rewrite <- (flag_perm _ _ _ _ Hp). }
  exists (n + n2)%nat, r, c'. split.
  - intros m Hm. rewrite F by lia. cbn [mbind option_bind]. apply F2. lia.
  - destruct r as [id' |]; [| done]. destruct R2 as [w' R2]. exists w'.
    apply (result_weaken _ _ W W _ _ _ _ _ R2); [lia |]. intros env vals x _ Hv Hd'. cbn [e_item] in Hd'.
    rewrite <- (Hv Hd). symmetry. by apply value_perm.
Qed.

(** ** [find] returns *)

Lemma find_known c w W e x : classes_inv c -> weighted c w -> eweight w e = Some W -> isDeterministic (e_item e) = true ->
  set_find e (m_expressions c) = Some x -> result c w W (has_value e) (e_id x) c w.
Proof.
  intros I Hw HW Hd (Hx & H1 & H2 & H3)%set_find_spec. destruct x as [id item args seq], e as [id' item' args' seq'].
  cbn [e_item e_args e_seq e_id] in *. subst. split_and!; try done.
  - destruct Hw as (_ & _ & Hw). rewrite Forall_forall in Hw. destruct (Hw _ Hx Hd) as (y & z & Y & Z & Hle).
    exists z. split; [done |]. unfold expr_value in *. cbn [e_args e_item e_seq] in *. rewrite HW in Y. congruence.
  - intros env vals v Hv _ HV. exists vals. split_and!; [done | done |]. destruct Hv as (_ & _ & Hv). rewrite Forall_forall in Hv.
    specialize (Hv _ Hx Hd). cbn [e_id] in Hv. rewrite <- Hv. by apply HV.
Qed.

(** What [find] does with an expression that it has not seen. *)
Lemma find_unfold n item args seq c r c' (e := mkExpr 0 item (normal_args item args) seq) :
  (if isDeterministic item then set_find e (m_expressions c) else None) = None ->
  (forall m, (n <= m)%nat -> tryToSimplify (find m) e c = Some (r, c')) ->
  forall m, (S n <= m)%nat -> find m item args seq c =
    match r with
    | Some id => if (id <? length (m_representatives c'))%nat
        then Some (id, set_expressions (set_insert (with_id id e) (m_expressions c')) c')
        else let id := length (m_representatives c') in
             Some (id, set_expressions (set_insert (with_id id e) (m_expressions c')) (add_representative (with_id id e) c'))
    | None => let id := length (m_representatives c') in
             Some (id, set_expressions (set_insert (with_id id e) (m_expressions c')) (add_representative (with_id id e) c'))
    end.
Proof. intros Hfind F [| m] Hm; [lia |]. cbn [find]. fold e. rewrite Hfind, F by lia. by destruct r. Qed.

Lemma finds_step B : finds B -> finds (B + 1).
Proof.
  intros HB c w item args seq W I Hw He HW HM. pose proof (normal_args_perm item args) as Hp.
  set (e := mkExpr 0 item (normal_args item args) seq).
  assert (He' : expr_wf (length (m_representatives c)) e).
  { destruct He as (H1 & H2 & H3). split_and!; cbn [e_args e_item e]; [by rewrite Hp | by rewrite Hp | done]. }
  assert (HW' : eweight w e = Some W) by (apply (weight_perm w item args); [by symmetry | done]).
  assert (HV : forall env vals x, has_value (mkExpr 0 item args seq) env vals x -> has_value e env vals x).
  { intros env vals x Hv Hd. rewrite <- (Hv Hd). unfold e, normal_args. destruct (isCommutativeOperation item) eqn:Hc; [| done].
    symmetry. apply value_perm; [done | apply He | symmetry; apply merge_sort_Permutation]. }
  enough (Hfin : exists n id c' w', (forall m, (n <= m)%nat -> find m item args seq c = Some (id, c')) /\ result c w W (has_value e) id c' w').
  { destruct Hfin as (n & id & c' & w' & F & R). exists n, id, c', w'. split; [done |].
    apply (result_weaken _ _ W W _ _ _ _ _ R); [lia |]. intros. by apply HV. }
  destruct (if isDeterministic item then set_find e (m_expressions c) else None) as [x |] eqn:Hfind.
  { exists 1%nat, (e_id x), c, w. split.
    - intros [| m] Hm; [lia |]. cbn [find]. fold e. by rewrite Hfind.
    - destruct (isDeterministic item) eqn:Hd; [| done]. by apply find_known. }
  destruct (simplify_total B c w e W HB I Hw He' HW') as (n & r & c' & F & R).
  { cbn [e_item e_args e]. rewrite (flag_perm _ _ _ _ Hp). lia. }
  pose proof (find_unfold n item args seq c r c' Hfind F) as Hstep. fold e in Hstep.
  destruct r as [id |].
  - destruct R as [w' R]. assert (Hid : (id < length (m_representatives c'))%nat).
    { destruct R as (_ & ((Hl & _) & _) & _ & _ & (z & Hz & _) & _). rewrite <- Hl. by apply lookup_lt_Some in Hz. }
    apply Nat.ltb_lt in Hid. rewrite Hid in Hstep. eexists _, _, _, w'. split; [exact Hstep |]. by apply insert_result.
  - subst c'. eexists _, _, _, (w ++ [W]). split; [exact Hstep |].
    apply (insert_result c w W (has_value e) e (length (m_representatives c)) (add_representative (with_id (length (m_representatives c)) e) c)).
    + by apply snoc_result.
    + done.
    + done.
    + done.
Qed.

Lemma finds_all B : finds B.
Proof.
  assert (Hn : forall n, finds (Z.of_nat n)).
  { induction n as [| n IH].
    - intros c w item args seq W _ Hw _ HW HM. exfalso. destruct Hw as (_ & Hpos & _). unfold expr_value in HW.
      destruct (mapM _ _) as [xs |] eqn:Hxs; [| done]. injection HW as <-. cbn [e_args e_item e_seq] in *.
      apply mapM_Some in Hxs. assert (0 <= fold_right Z.add 0 xs).
      { clear -Hpos Hxs. induction Hxs as [| a x ids xs Hx _ IH]; cbn; [lia |]. apply (Forall_lookup_1 _ _ _ _ Hpos) in Hx. lia. }
      assert (1 <= weight_item item xs seq) by (unfold weight_item; case_match; lia). lia.
    - replace (Z.of_nat (S n)) with (Z.of_nat n + 1) by lia. by apply finds_step. }
  intros c w item args seq W I Hw He HW HM. apply (Hn (Z.to_nat B)); try done. lia.
Qed.

(** The invariant of the classes. *)
Definition classes_ok (c : ExpressionClasses) : Prop := classes_inv c /\ exists w, weighted c w.

(** [c'] knows what [c] does: the values of its classes extend to values of [c'], where class [id] has the value [x]. *)
Definition gains (c : ExpressionClasses) (V : (AssemblyItem -> list Z -> nat -> Z) -> list Z -> Z -> Prop) (id : nat)
  (c' : ExpressionClasses) : Prop :=
  classes_ok c' /\ m_representatives c `prefix_of` m_representatives c' /\ (id < length (m_representatives c'))%nat /\
  forall env vals x, valued env c vals -> inw 256 x -> V env vals x ->
  exists vals', vals `prefix_of` vals' /\ valued env c' vals' /\ vals' !! id = Some x.

Lemma empty_ok : classes_ok (mkClasses [] []).
Proof. split; [by split |]. exists []. by split_and!. Qed.

Lemma find_gains c item args seq : classes_ok c -> expr_wf (length (m_representatives c)) (mkExpr 0 item args seq) ->
  exists n id c', (forall m, (n <= m)%nat -> find m item args seq c = Some (id, c')) /\
  gains c (has_value (mkExpr 0 item args seq)) id c'.
Proof.
  intros [I [w Hw]] He. destruct (expr_value_total weight_item w (mkExpr 0 item args seq)) as [W HW].
  { destruct Hw as ((Hl & _) & _). rewrite Hl. apply He. }
  destruct (finds_all _ c w item args seq W I Hw He HW (Z.lt_succ_diag_r _)) as (n & id & c' & w' & F & R).
  exists n, id, c'. split; [done |]. destruct R as (R1 & R2 & R3 & R4 & (z & Hz & _) & R6).
  split_and!; [split; [done | by exists w'] | done | | done].
  destruct R2 as ((<- & _) & _). by apply lookup_lt_Some in Hz.
Qed.

(** *** Known constants *)

Lemma push_value env c vals id e d : classes_ok c -> valued env c vals -> representative c id = Some e -> e_item e = Push d ->
  vals !! id = Some d.
Proof.
  intros [[Hc _] _] ((_ & Hs) & _) Hr Hd. specialize (Hs _ _ Hr). rewrite Hd in Hs. rewrite <- Hs by done.
  destruct (Hc _ _ Hr) as (_ & _ & Hl & _). rewrite Hd in Hl. apply length_zero_iff_nil in Hl. unfold expr_value. by rewrite Hl, Hd.
Qed.

Lemma is_constant_zero_spec c id : classes_ok c -> (id < length (m_representatives c))%nat ->
  exists b, is_constant_zero id c = Some b /\ (b = true -> forall env vals, valued env c vals -> vals !! id = Some 0).
Proof.
  intros Hc [e He]%lookup_lt_is_Some. unfold is_constant_zero, representative. rewrite He. cbn [mbind option_bind].
  rewrite matches_eq. destruct (matchesBaseItem_spec (constant 0) (e_item e)) as (b & -> & Hb); [constructor |].
  destruct b; [| by eexists]. cbn. eexists. split; [done |]. intros _ env vals Hv.
  destruct (Hb eq_refl) as (d & Hd & H0). specialize (H0 eq_refl) as [= <-]. by apply (push_value env c vals id e).
Qed.

Lemma knownConstant_spec c id : classes_ok c -> (id < length (m_representatives c))%nat ->
  exists o, knownConstant id c = Some o /\ forall v, o = Some v -> inw 256 v /\ forall env vals, valued env c vals -> vals !! id = Some v.
Proof.
  intros Hc [e He]%lookup_lt_is_Some. unfold knownConstant, representative. rewrite He. cbn [mbind option_bind].
  rewrite matches_eq. destruct (matchesBaseItem_spec (setMatchGroup 1 (of_type Ty.Push)) (e_item e)) as (b & -> & Hb); [by constructor |].
  destruct b; [| by exists None]. destruct (Hb eq_refl) as (d & Hd & _). unfold bind_group. cbn. unfold group_data, group. cbn. rewrite Hd.
  cbn. exists (Some d). split; [done |]. intros v [= <-]. split.
  - destruct Hc as [[Hc _] _]. destruct (Hc _ _ He) as (_ & _ & _ & H). by rewrite Hd in H.
  - intros env vals Hv. by apply (push_value env c vals id e).
Qed.

(** C28: [find] returns on every well-formed expression, for all fuel beyond some bound; the classes stay well formed and
    keep the values that they had, and the class it returns has the value of the expression, whatever the instructions
    that the rules do not know compute. *)
Theorem find_correct c item args seq : classes_ok c -> expr_wf (length (m_representatives c)) (mkExpr 0 item args seq) ->
  exists n id c', (forall m, (n <= m)%nat -> find m item args seq c = Some (id, c')) /\ classes_ok c' /\
  m_representatives c `prefix_of` m_representatives c' /\
  forall env vals x, valued env c vals -> inw 256 x ->
  (isDeterministic item = true -> expr_value (item_value env) vals (mkExpr 0 item args seq) = Some x) ->
  exists vals', vals `prefix_of` vals' /\ valued env c' vals' /\ vals' !! id = Some x.
Proof.
  intros Hc He. destruct (find_gains c item args seq Hc He) as (n & id & c' & F & G1 & G2 & _ & G4).
  exists n, id, c'. by split_and!.
Qed.

Lemma known_difference c a b : classes_ok c -> (a < length (m_representatives c))%nat -> (b < length (m_representatives c))%nat ->
  exists n d c', (forall m, (n <= m)%nat -> find m (Operation Op.SUB) [a; b] 0 c = Some (d, c')) /\ classes_ok c' /\
  (d < length (m_representatives c'))%nat /\
  forall env vals x y, valued env c vals -> vals !! a = Some x -> vals !! b = Some y ->
  exists vals', vals `prefix_of` vals' /\ valued env c' vals' /\ vals' !! d = Some (wrap 256 (x - y)).
Proof.
  intros Hc Ha Hb. destruct (find_gains c (Operation Op.SUB) [a; b] 0 Hc) as (n & d & c' & F & G1 & _ & G3 & G4).
  { split_and!; cbn [e_args e_item]; [by repeat constructor | done | done]. }
  exists n, d, c'. split_and!; [done .. |]. intros env vals x y Hv Hx Hy. apply G4; [done | apply wrap_inw; lia |].
  intros _. unfold expr_value. cbn [e_args e_item e_seq mapM]. rewrite Hx. cbn. by rewrite Hy.
Qed.

(** [knownToBeDifferent] returns, and if it says that two classes differ, their values differ on every input. *)
Theorem knownToBeDifferent_correct c a b : classes_ok c -> (a < length (m_representatives c))%nat ->
  (b < length (m_representatives c))%nat ->
  exists n r c', (forall m, (n <= m)%nat -> knownToBeDifferent m a b c = Some (r, c')) /\ classes_ok c' /\
  (r = true -> forall env vals x y, valued env c vals -> vals !! a = Some x -> vals !! b = Some y -> x <> y).
Proof.
  intros Hc Ha Hb. destruct (known_difference c a b Hc Ha Hb) as (n1 & d & c1 & F1 & Hc1 & Hd & V1).
  destruct (find_gains c1 (Operation Op.ISZERO) [d] 0 Hc1) as (n2 & z & c2 & F2 & Hc2 & _ & Hz & V2).
  { split_and!; cbn [e_args e_item]; [by repeat constructor | done | done]. }
  destruct (is_constant_zero_spec c2 z Hc2 Hz) as (r & Hr & V3).
  exists (n1 + n2)%nat, r, c2. split_and!; [| done |].
  - intros m Hm. unfold knownToBeDifferent, knownNonZero. rewrite F1 by lia. cbn [mbind option_bind]. rewrite F2 by lia.
    cbn [mbind option_bind]. by rewrite Hr.
  - intros -> env vals x y Hv Hx Hy ->. destruct (V1 env vals y y Hv Hx Hy) as (vals1 & _ & Hv1 & Hd1).
    destruct (V2 env vals1 1 Hv1) as (vals2 & _ & Hv2 & Hz2); [done | |].
    { intros _. unfold expr_value. cbn [e_args e_item e_seq mapM]. rewrite Hd1. cbn. by rewrite Z.sub_diag. }
    specialize (V3 eq_refl env vals2 Hv2). congruence.
Qed.

(** [knownToBeDifferentBy32] returns, and if it says so, the values of the classes are at least 32 apart on the circle
    of 256-bit words. *)
Theorem knownToBeDifferentBy32_correct c a b : classes_ok c -> (a < length (m_representatives c))%nat ->
  (b < length (m_representatives c))%nat ->
  exists n r c', (forall m, (n <= m)%nat -> knownToBeDifferentBy32 m a b c = Some (r, c')) /\ classes_ok c' /\
  (r = true -> forall env vals x y, valued env c vals -> vals !! a = Some x -> vals !! b = Some y ->
   32 <= wrap 256 (x - y) <= 2 ^ 256 - 32).
Proof.
  intros Hc Ha Hb. destruct (known_difference c a b Hc Ha Hb) as (n & d & c1 & F1 & Hc1 & Hd & V1).
  destruct (knownConstant_spec c1 d Hc1 Hd) as (o & Ho & Hv).
  exists n, (match o with Some v => 62 <? wrap 256 (v + 31) | None => false end), c1. split_and!; [| done |].
  - intros m Hm. unfold knownToBeDifferentBy32. rewrite F1 by lia. cbn [mbind option_bind]. by rewrite Ho.
  - destruct o as [v |]; [| done]. intros Hr env vals x y Hvals Hx Hy. destruct (V1 env vals x y Hvals Hx Hy) as (vals1 & _ & Hv1 & Hd1).
    destruct (Hv v eq_refl) as [Hi Hval]. rewrite (Hval env vals1 Hv1) in Hd1. injection Hd1 as <-.
    apply Z.ltb_lt in Hr. unfold inw in Hi. unfold wrap in Hr. 
    destruct (Z_lt_ge_dec (v + 31) (2 ^ 256)); [rewrite Z.mod_small in Hr; lia |].
    rewrite <- (Z.mod_add _ (-1)) in Hr by done. rewrite Z.mod_small in Hr; lia.
Qed.

(** *** An instance *)

(** A constant, an unknown stack element and their sum. *)
Definition example : ExpressionClasses :=
  let e0 := mkExpr 0 (Push 32) [] 0 in let e1 := mkExpr 1 (UndefinedItem 0) [] 0 in
  let e2 := mkExpr 2 (Operation Op.ADD) [0%nat; 1%nat] 0 in mkClasses [e0; e1; e2] [e0; e1; e2].

Lemma example_ok : classes_ok example.
Proof.
  split; [split |].
  - intros id e He. destruct id as [| [| [| ?]]]; try done; injection He as <-; cbn; (split; [done |]); split_and!; try done;
      cbn; repeat constructor; lia.
  - repeat (apply list.Forall_cons; split); try apply Forall_nil_2; (split; [cbn; lia |]); unfold expr_wf; cbn; split_and!;
      try done; repeat constructor; lia.
  - exists [1; 1; 3]. split_and!; [split; [done |] | by repeat constructor |].
    + intros id e He _. by destruct id as [| [| [| ?]]]; try done; injection He as <-.
    + repeat constructor; intros _; eexists _, _; split_and!; try reflexivity; done.
Qed.

Lemma example_sub_wf : expr_wf (length (m_representatives example)) (mkExpr 0 (Operation Op.SUB) [2%nat; 1%nat] 0).
Proof. split_and!; try done; cbn; repeat constructor; lia. Qed.

Lemma find_correct_witness : exists n id c',
  (forall m, (n <= m)%nat -> find m (Operation Op.SUB) [2%nat; 1%nat] 0 example = Some (id, c')) /\ classes_ok c'.
Proof.
  destruct (find_correct example (Operation Op.SUB) [2%nat; 1%nat] 0 example_ok example_sub_wf) as (n & id & c' & H1 & H2 & _).
  exists n, id, c'. by split.
Defined.

(** The difference of the sum and the stack element simplifies to the constant. *)
Lemma example_difference :
  (p ← find 20 (Operation Op.SUB) [2%nat; 1%nat] 0 example; knownConstant p.1 p.2) = Some (Some 32).
Proof. vm_compute. reflexivity. Qed.

Lemma knownToBeDifferent_correct_witness : exists n r c',
  (forall m, (n <= m)%nat -> knownToBeDifferent m 2 1 example = Some (r, c')) /\ classes_ok c'.
Proof.
  destruct (knownToBeDifferent_correct example 2 1 example_ok) as (n & r & c' & H1 & H2 & _); [cbn; lia | cbn; lia |].
  exists n, r, c'. by split.
Defined.

Lemma knownToBeDifferentBy32_correct_witness : exists n r c',
  (forall m, (n <= m)%nat -> knownToBeDifferentBy32 m 2 1 example = Some (r, c')) /\ classes_ok c'.
Proof.
  destruct (knownToBeDifferentBy32_correct example 2 1 example_ok) as (n & r & c' & H1 & H2 & _); [cbn; lia | cbn; lia |].
  exists n, r, c'. by split.
Defined.

Lemma example_different : option_map fst (knownToBeDifferent 20 2 1 example) = Some true /\
  option_map fst (knownToBeDifferentBy32 20 2 1 example) = Some true.
Proof. vm_compute. done. Qed.
