(* ===== verification/GasMeter.v ===== *)
(** * Gas costs of the Solidity compiler

    libevmasm/GasMeter.h and GasMeter.cpp: the costs that the optimisers weigh
    code with and the price of an instruction by its tier.  A failed assertion
    is [None]. *)
From S2P Require Import Prelude AsmItem.

(** [namespace GasCosts], as far as it is used. *)
Module GasCosts.
Definition expGas : Z := 10.
Definition expByteGas : Z := 50.
Definition createDataGas : Z := 200.
Definition txDataZeroGas : Z := 4.
Definition txDataNonZeroGas : Z := 68.
Definition copyGas : Z := 3.
End GasCosts.

(** [GasMeter::runGas], with the costs of the tiers. *)
Definition runGas (i : Z) : option Z :=
  if i =? Op.JUMPDEST then Some 1
  else
    match gasPriceTier (instructionInfo i) with
    | TZero => Some 0
    | TBase => Some 2
    | TVeryLow => Some 3
    | TLow => Some 5
    | TMid => Some 8
    | THigh => Some 10
    | TExt => Some 20
    | TSpecial => Some 0
    | TExtCode => Some 700
    | TBalance => Some 400
    | TInvalid => None
    end.
