(* ===== verification/ConstOpt.v ===== *)
(** * Choosing how constants are pushed

    libevmasm/ConstantOptimiser.cpp and .h: a constant is pushed literally,
    copied from the data of the code, or computed.  A [bigint] is [Z]; an
    exception, and fuel that runs out, is [None].  [representation_total] shows
    that 257 levels of recursion are enough, since every level has a shorter
    value. *)
From S2P Require Import Prelude Bytes Instruction LLVMInt EvmAbi Runtime IR Machine AsmItem Assembly AsmRun Peephole.
From S2P Require Import NullHost GasSchedule GasMeter SolCode.

(** [ConstantOptimisationMethod::Params]. *)
Record Params := mkParams { isCreation : bool; runs : Z; multiplicity : Z }.

(** ** Gas estimates *)

(** [simpleRunGas]. *)
Fixpoint simpleRunGas (l : list AssemblyItem) : option Z :=
  match l with
  | [] => Some 0
  | Push _ :: l => g ← runGas Op.PUSH1; s ← simpleRunGas l; Some (g + s)
  | Operation i :: l => g ← runGas i; s ← simpleRunGas l; Some (g + s)
  | _ :: l => simpleRunGas l
  end.

(** [dataSize] and [dataGas]. *)
Definition dataSize (value : Z) : Z := Z.max 1 (dev_bytesRequired value).
Definition dataGas (p : Params) (value : Z) (data : list Z) : Z :=
  if isCreation p
  then fold_left (fun gas b => gas + (if b =? 0 then GasCosts.txDataZeroGas else GasCosts.txDataNonZeroGas)) data 0
  else GasCosts.createDataGas * dataSize value.

(** [combineGas]. *)
Definition combineGas (p : Params) (runGas repeatedDataGas uniqueDataGas : Z) : Z :=
  runs p * runGas + multiplicity p * repeatedDataGas + uniqueDataGas.

(** The cost of a byte of code. *)
Definition byteGas (p : Params) : Z := if isCreation p then GasCosts.txDataNonZeroGas else GasCosts.createDataGas.

(** [toCompactBigEndian(value, 1)]. *)
Definition compact (value : Z) : list Z := be_bytes (Z.to_nat (dataSize value)) value.

(** ** The three methods *)

(** [LiteralMethod::gasNeeded]. *)
Definition literalGas (p : Params) (value : Z) : option Z :=
  g ← simpleRunGas [Operation Op.PUSH1]; Some (combineGas p g (byteGas p + dataGas p value (compact value)) 0).

(** [CodeCopyMethod::copyRoutine], [gasNeeded] and [execute]. *)
Definition copyRoutine : list AssemblyItem :=
  [Push 0; Operation Op.DUP1; Operation Op.MLOAD; Push 32; PushData (Z.shiftl 1 16); Operation (Op.DUP1 + 3);
   Operation Op.CODECOPY; Operation (Op.DUP1 + 1); Operation Op.MLOAD; Operation (Op.SWAP1 + 1); Operation Op.MSTORE].
Definition copyGas (p : Params) (value : Z) : option Z :=
  g ← simpleRunGas copyRoutine; n ← items_bytesRequired copyRoutine 3;
  Some (combineGas p (g + GasCosts.copyGas) (n * byteGas p) (dataGas p value (be_bytes 32 value))).
Definition copy_execute (value : Z) (a : Assembly) : list AssemblyItem * Assembly :=
  let '(item, a) := newData (be_bytes 32 value) a in (<[4%nat := item]> copyRoutine, a).

(** [ComputeMethod::gasNeeded]. *)
Definition routineGas (p : Params) (l : list AssemblyItem) : option Z :=
  let numExps := Z.of_nat (length (filter (fun i => i = Operation Op.EXP) l)) in
  g ← simpleRunGas l; n ← items_bytesRequired l 3;
  Some (combineGas p (g + numExps * (GasCosts.expGas + GasCosts.expByteGas)) (n * byteGas p) 0).

Section Representation.
Context (p : Params) (rec : Z -> Z -> option (list AssemblyItem * Z)).

(** The decomposition of a value at a bit: the upper part and the signed lower part. *)
Definition decompose (value bits : Z) : option (Z * Z) :=
  let gapDetector := Z.land (Z.shiftr value (bits - 8)) 0x1ff in
  if negb (gapDetector =? 0xff) && negb (gapDetector =? 0x100) then None
  else
    let powerOfTwo := Z.shiftl 1 bits in
    let upperPart := Z.shiftr value bits in
    let lowerPart := Z.land value (powerOfTwo - 1) in
    let '(upperPart, lowerPart) :=
      if powerOfTwo - lowerPart <? lowerPart then (wrap 256 (upperPart + 1), lowerPart - powerOfTwo) else (upperPart, lowerPart) in
    if upperPart =? 0 then None
    else if Z.shiftr powerOfTwo 8 <=? Z.abs lowerPart then None
    else Some (upperPart, lowerPart).

(** The routine for a decomposition. *)
Definition composed (bits upperPart lowerPart steps : Z) : option (list AssemblyItem * Z) :=
  '(lower, steps) ← (if lowerPart =? 0 then Some ([], steps) else rec (Z.abs lowerPart) steps);
  '(upper, steps) ← (if upperPart =? 1 then Some ([], steps)
                     else '(l, steps) ← rec upperPart steps; Some (l ++ [Operation Op.MUL], steps));
  Some (lower ++ [Push bits; Push 2; Operation Op.EXP] ++ upper ++
        (if 0 <? lowerPart then [Operation Op.ADD] else if lowerPart <? 0 then [Operation Op.SUB] else []), steps).

(** The loop over the bits, from [n + 8] down to 9. *)
Fixpoint bits_loop (value : Z) (n : nat) (routine : list AssemblyItem) (bestGas steps : Z) : option (list AssemblyItem * Z) :=
  match n with
  | 0%nat => Some (routine, steps)
  | S n' =>
      if steps <=? 0 then Some (routine, steps)
      else
        let bits := Z.of_nat n + 8 in
        match decompose value bits with
        | None => bits_loop value n' routine bestGas steps
        | Some (upperPart, lowerPart) =>
            '(newRoutine, steps) ← composed bits upperPart lowerPart steps;
            let steps := if 0 <? steps then steps - 1 else steps in
            newGas ← routineGas p newRoutine;
            if newGas <? bestGas then bits_loop value n' newRoutine newGas steps
            else bits_loop value n' routine bestGas steps
        end
  end.
End Representation.

(** [ComputeMethod::findRepresentation], with [m_maxSteps]. *)
Fixpoint findRepresentation (fuel : nat) (p : Params) (value steps : Z) : option (list AssemblyItem * Z) :=
  match fuel with
  | 0%nat => None
  | S fuel =>
      if value <? 0x10000 then Some ([Push value], steps)
      else if dev_bytesRequired (2 ^ 256 - 1 - value) <? dev_bytesRequired value then
        '(l, steps) ← findRepresentation fuel p (2 ^ 256 - 1 - value) steps; Some (l ++ [Operation Op.NOT], steps)
      else
        bestGas ← routineGas p [Push value];
        bits_loop p (findRepresentation fuel p) value 247 [Push value] bestGas steps
  end.

(** [ComputeMethod::checkRepresentation]: a machine with few instructions, the top of its stack first. *)
Fixpoint check_run (l : list AssemblyItem) (st : list Z) : option (list Z) :=
  match l with
  | [] => Some st
  | Push d :: l => check_run l (d :: st)
  | Operation i :: l =>
      if (length st <? arguments (Operation i))%nat then None
      else
        match st with
        | a :: b :: st' =>
            if i =? Op.MUL then check_run l (wrap 256 (a * b) :: st')
            else if i =? Op.EXP then if 0xff <? b then None else check_run l (wrap 256 (a ^ b) :: st')
            else if i =? Op.ADD then check_run l (wrap 256 (a + b) :: st')
            else if i =? Op.SUB then check_run l (wrap 256 (a - b) :: st')
            else if i =? Op.NOT then check_run l (2 ^ 256 - 1 - a :: b :: st')
            else None
        | a :: st' => if i =? Op.NOT then check_run l (2 ^ 256 - 1 - a :: st') else None
        | [] => None
        end
  | _ => None
  end.
Definition checkRepresentation (value : Z) (l : list AssemblyItem) : bool :=
  match check_run l [] with Some [v] => v =? value | _ => false end.

(** The constructor of [ComputeMethod], with its assertion. *)
Definition ComputeMethod (p : Params) (value : Z) : option (list AssemblyItem) :=
  '(l, _) ← findRepresentation 257 p value 10000; if checkRepresentation value l then Some l else None.

(** ** The optimiser *)

(** [pushes[item]++] for every constant, in the order of the constants. *)
Definition count_pushes (l : list AssemblyItem) : smap Z :=
  fold_left (fun m i => match i with Push d => smap_set d (default 0 (smap_find d m) + 1) m | _ => m end) l [].

(** [replaceConstants]. *)
Definition replaceConstants (l : list AssemblyItem) (m : smap (list AssemblyItem)) : list AssemblyItem :=
  concat (map (fun i => match i with Push d => default [i] (smap_find d m) | _ => [i] end) l).

(** One round of the loop of [optimiseConstants]: a constant and how often it appears. *)
Definition optimise_constant (isCreation : bool) (runs : Z) (s : Z * Assembly * smap (list AssemblyItem)) (it : Z * Z) :
  option (Z * Assembly * smap (list AssemblyItem)) :=
  let '(optimisations, a, pending) := s in
  let '(d, n) := it in
  if d <? 0x100 then Some s
  else
    let p := mkParams isCreation runs n in
    literal ← literalGas p d; copy ← copyGas p d; routine ← ComputeMethod p d; compute ← routineGas p routine;
    let '(replacement, optimisations, a) :=
      if (copy <? literal) && (copy <? compute) then let '(l, a) := copy_execute d a in (l, optimisations + 1, a)
      else if (compute <? literal) && (compute <=? copy) then (routine, optimisations + 1, a)
      else ([], optimisations, a) in
    Some (optimisations, a, if is_empty replacement then pending else smap_set d replacement pending).

(** [optimiseConstants]. *)
Fixpoint optimise_all (isCreation : bool) (runs : Z) (s : Z * Assembly * smap (list AssemblyItem)) (l : list (Z * Z)) :
  option (Z * Assembly * smap (list AssemblyItem)) :=
  match l with
  | [] => Some s
  | it :: l => s ← optimise_constant isCreation runs s it; optimise_all isCreation runs s l
  end.
Definition optimiseConstants (isCreation : bool) (runs : Z) (a : Assembly) (l : list AssemblyItem) :
  option (Z * Assembly * list AssemblyItem) :=
  '(n, a, pending) ← optimise_all isCreation runs (0, a, []) (count_pushes l);
  Some (n, a, if is_empty pending then l else replaceConstants l pending).

(** ** Decompositions *)

Lemma decompose_spec value bits u lo : inw 256 value -> 0x10000 <= value -> 9 <= bits <= 255 -> decompose value bits = Some (u, lo) ->
  u * 2 ^ bits + lo = value /\ 1 <= u /\ 256 * u <= value /\ 64 * Z.abs lo <= value.
Proof.
  intros [Hv Hv2] Hmin Hb. unfold decompose. destruct (_ && _); [done |].
  rewrite Z.shiftl_1_l. replace (2 ^ bits - 1) with (Z.ones bits) by (rewrite Z.ones_equiv; lia).
  rewrite Z.land_ones, !Z.shiftr_div_pow2 by lia.
  pose proof (Z.pow_pos_nonneg 2 bits) as Hp. pose proof (Z.div_mod value (2 ^ bits)) as Hdm.
  pose proof (Z.mod_pos_bound value (2 ^ bits)) as Hm. pose proof (Z.div_pos value (2 ^ bits)) as Hd.
  assert (H9 : 512 <= 2 ^ bits) by (change 512 with (2 ^ 9); apply Z.pow_le_mono_r; lia).
  assert (H8 : 2 ^ bits = 256 * (2 ^ bits / 2 ^ 8)).
  { replace bits with ((bits - 8) + 8) by lia. rewrite Z.pow_add_r by lia. rewrite Z.div_mul by lia. change (2 ^ 8) with 256. lia. }
  assert (Hu : value / 2 ^ bits < 2 ^ 256 - 1).
  { apply Z.div_lt_upper_bound; lia. }
  set (P := 2 ^ bits) in *. set (q := value / P) in *. set (m := value mod P) in *. set (e := P / 2 ^ 8) in *. clearbody P q m e.
  destruct (Z.ltb_spec (P - m) m) as [Hlt | Hge].
  - rewrite wrap_small by (unfold inw; lia). destruct (Z.eqb_spec (q + 1) 0); [done |].
    destruct (Z.leb_spec e (Z.abs (m - P))); [done |]. intros [= <- <-]. split_and!; nia.
  - destruct (Z.eqb_spec q 0); [done |]. destruct (Z.leb_spec e (Z.abs m)); [done |]. intros [= <- <-]. split_and!; nia.
Qed.

(** ** Routines *)

(** What follows the power of two: a multiple of it, and the lower part. *)
Definition tail_of (lo : Z) : list AssemblyItem :=
  if 0 <? lo then [Operation Op.ADD] else if lo <? 0 then [Operation Op.SUB] else [].

(** The routines that the search can return for a value. *)
Inductive routine_for : Z -> list AssemblyItem -> Prop :=
| routine_push v : routine_for v [Push v]
| routine_not v l : dev_bytesRequired (2 ^ 256 - 1 - v) < dev_bytesRequired v -> routine_for (2 ^ 256 - 1 - v) l ->
    routine_for v (l ++ [Operation Op.NOT])
| routine_power v bits u lo lower upper : 0x10000 <= v -> 9 <= bits <= 255 -> decompose v bits = Some (u, lo) ->
    lower_for lo lower -> upper_for u upper ->
    routine_for v (lower ++ [Push bits; Push 2; Operation Op.EXP] ++ upper ++ tail_of lo)
with lower_for : Z -> list AssemblyItem -> Prop :=
| lower_none : lower_for 0 []
| lower_some lo l : lo <> 0 -> routine_for (Z.abs lo) l -> lower_for lo l
with upper_for : Z -> list AssemblyItem -> Prop :=
| upper_one : upper_for 1 []
| upper_some u l : u <> 1 -> routine_for u l -> upper_for u (l ++ [Operation Op.MUL]).

Scheme routine_mut := Minimality for routine_for Sort Prop
  with lower_mut := Minimality for lower_for Sort Prop
  with upper_mut := Minimality for upper_for Sort Prop.
Combined Scheme routines_ind from routine_mut, lower_mut, upper_mut.

(** The items of routines. *)
Definition routine_item (i : AssemblyItem) : Prop :=
  match i with Push _ => True | Operation b => In b [Op.NOT; Op.MUL; Op.EXP; Op.ADD; Op.SUB] | _ => False end.

Lemma tail_items lo : Forall routine_item (tail_of lo).
Proof. unfold tail_of. repeat case_match; repeat constructor; cbn; tauto. Qed.

Lemma routine_items : (forall v l, routine_for v l -> Forall routine_item l) /\
  (forall v l, lower_for v l -> Forall routine_item l) /\ (forall v l, upper_for v l -> Forall routine_item l).
Proof.
  apply routines_ind; intros; rewrite ?Forall_app; split_and?; auto using tail_items; repeat constructor; cbn; tauto.
Qed.

Lemma routineGas_total p l : Forall routine_item l -> is_Some (routineGas p l).
Proof.
  intros H. unfold routineGas. enough (is_Some (simpleRunGas l) /\ is_Some (items_bytesRequired l 3)) as [[g ->] [n ->]] by eauto.
  induction H as [| i l Hi _ [[g Hg] [n Hn]]]; [cbn; eauto |].
  destruct i as [| b | d | | | | | | | |]; try done; cbn [simpleRunGas items_bytesRequired]; rewrite Hg, Hn.
  - cbn in Hi. destruct Hi as [<- | [<- | [<- | [<- | [<- | []]]]]]; cbn; eauto.
  - cbn; eauto.
Qed.

(** *** The search *)

Lemma complement_shorter v : inw 256 v -> dev_bytesRequired (2 ^ 256 - 1 - v) < dev_bytesRequired v ->
  forall n, 0 <= n -> v < 2 ^ n -> 2 ^ 256 - 1 - v < 2 ^ (n - 1).
Proof.
  intros Hv Hb n Hn Hvn. set (b := dev_bytesRequired (2 ^ 256 - 1 - v)) in *.
  assert (Hc : inw 256 (2 ^ 256 - 1 - v)) by (unfold inw in *; lia).
  pose proof (dev_bytesRequired_fits _ Hc) as [_ Hf]. fold b in Hf. pose proof (dev_bytesRequired_bound _ Hc) as Hb0. fold b in Hb0.
  assert (2 ^ (8 * b) <= v).
  { destruct (decide (2 ^ (8 * b) <= v)); [done |]. pose proof (dev_bytesRequired_le b v ltac:(lia)) as Hle. unfold inw in *. lia. }
  assert (8 * b < n).
  { apply (Z.pow_lt_mono_r_iff 2); lia. }
  apply Z.lt_le_trans with (2 ^ (8 * b)); [done |]. apply Z.pow_le_mono_r; lia.
Qed.

Definition finds_routine (rec : Z -> Z -> option (list AssemblyItem * Z)) (n : Z) : Prop :=
  forall v s, inw 256 v -> v < 2 ^ n -> exists l s', rec v s = Some (l, s') /\ routine_for v l.

Lemma composed_total rec n v bits u lo s : finds_routine rec (n - 1) -> inw 256 v -> v < 2 ^ n -> 1 <= n -> 0x10000 <= v -> 9 <= bits <= 255 ->
  decompose v bits = Some (u, lo) -> exists l s', composed rec bits u lo s = Some (l, s') /\ routine_for v l.
Proof.
  intros Hrec Hv Hn Hn1 Hmin Hb Hd. destruct (decompose_spec v bits u lo Hv Hmin Hb Hd) as (_ & Hu1 & Hu & Hl).
  assert (Hpow : 2 ^ n = 2 * 2 ^ (n - 1)) by (rewrite <- Z.pow_succ_r by lia; f_equal; lia). unfold inw in Hv.
  assert (Hlow : exists lower s1, (if lo =? 0 then Some ([], s) else rec (Z.abs lo) s) = Some (lower, s1) /\ lower_for lo lower).
  { destruct (Z.eqb_spec lo 0) as [-> |]; [eexists _, _; split; [done |]; constructor |].
    destruct (Hrec (Z.abs lo) s) as (l & s1 & H1 & H2); [unfold inw; lia | lia |]. exists l, s1. split; [done |]. by constructor. }
  destruct Hlow as (lower & s1 & H1 & Hlower).
  assert (Hup : exists upper s2, (if u =? 1 then Some ([], s1) else '(l, s2) ← rec u s1; Some (l ++ [Operation Op.MUL], s2)) = Some (upper, s2)
    /\ upper_for u upper).
  { destruct (Z.eqb_spec u 1) as [-> |]; [eexists _, _; split; [done |]; constructor |].
    destruct (Hrec u s1) as (l & s2 & H2 & H3); [unfold inw; lia | lia |]. rewrite H2. eexists _, _. split; [done |]. by constructor. }
  destruct Hup as (upper & s2 & H2 & Hupper). unfold composed. rewrite H1. cbn [mbind option_bind]. rewrite H2. cbn [mbind option_bind].
  eexists _, _. split; [done |]. by apply (routine_power v bits u lo).
Qed.

Lemma bits_loop_total p rec n v k routine best s : finds_routine rec (n - 1) -> inw 256 v -> v < 2 ^ n -> 1 <= n -> 0x10000 <= v ->
  (k <= 247)%nat -> routine_for v routine -> exists l s', bits_loop p rec v k routine best s = Some (l, s') /\ routine_for v l.
Proof.
  intros Hrec Hv Hn Hn1 Hmin. revert routine best s. induction k as [| k IH]; intros routine best s Hk Hr; cbn [bits_loop]; [eauto |].
  destruct (s <=? 0); [eauto |]. destruct (decompose v _) as [[u lo] |] eqn:Hd; [| apply IH; [lia | done]].
  destruct (composed_total rec n v (Z.of_nat (S k) + 8) u lo s Hrec Hv Hn Hn1 Hmin ltac:(lia) Hd) as (l & s1 & -> & Hl). cbn [mbind option_bind].
  destruct (routineGas_total p l) as [g ->]; [by apply (proj1 routine_items v) |]. cbn [mbind option_bind].
  destruct (g <? best); apply IH; (lia || done).
Qed.

Lemma representation_total n p v s : inw 256 v -> v < 2 ^ Z.of_nat n ->
  exists l s', findRepresentation (S n) p v s = Some (l, s') /\ routine_for v l.
Proof.
  revert v s. induction n as [| n IH]; intros v s Hv Hn; cbn [findRepresentation].
  - destruct (Z.ltb_spec v 0x10000); [eexists _, _; split; [done |]; constructor | cbn in Hn; lia].
  - destruct (Z.ltb_spec v 0x10000); [eexists _, _; split; [done |]; constructor |].
    assert (Hrec : finds_routine (findRepresentation (S n) p) (Z.of_nat (S n) - 1)).
    { intros v' s' Hv' Hn'. apply IH; [done |]. by replace (Z.of_nat n) with (Z.of_nat (S n) - 1) by lia. }
    destruct (Z.ltb_spec (dev_bytesRequired (2 ^ 256 - 1 - v)) (dev_bytesRequired v)) as [Hb | _].
    + destruct (Hrec (2 ^ 256 - 1 - v) s) as (l & s' & Hl & Hr); [unfold inw in *; lia | |].
      { by apply (complement_shorter v); [| | lia |]. }
      cbn [findRepresentation] in Hl. rewrite Hl. cbn [mbind option_bind].
      eexists _, _. split; [done |]. by constructor.
    + destruct (routineGas_total p [Push v]) as [g ->]; [by repeat constructor |]. cbn [mbind option_bind].
      apply (bits_loop_total p _ (Z.of_nat (S n))); [exact Hrec | done | done | lia | done | lia | constructor].
Qed.

(** *** What the small machine computes *)

Lemma check_binary i l a b st : In i [Op.MUL; Op.ADD; Op.SUB] -> check_run (Operation i :: l) (a :: b :: st) =
  check_run l (wrap 256 (if i =? Op.MUL then a * b else if i =? Op.ADD then a + b else a - b) :: st).
Proof. intros [<- | [<- | [<- | []]]]; reflexivity. Qed.

Lemma check_not l a st : check_run ([Operation Op.NOT] ++ l) (a :: st) = check_run l (2 ^ 256 - 1 - a :: st).
Proof. by destruct st. Qed.

Lemma check_power l bits st : 0 <= bits <= 255 -> check_run (Push bits :: Push 2 :: Operation Op.EXP :: l) st = check_run l (2 ^ bits :: st).
Proof.
  intros Hb. cbn [check_run]. change (length (2%Z :: bits :: st) <? arguments (Operation Op.EXP))%nat with false. cbv iota.
  change (Op.EXP =? Op.MUL) with false. change (Op.EXP =? Op.EXP) with true. cbv iota.
  destruct (Z.ltb_spec 0xff bits); [lia |]. rewrite wrap_small; [done |].
  split; [lia |]. apply Z.pow_lt_mono_r; lia.
Qed.

Lemma upper_part v bits u lo : inw 256 v -> 0x10000 <= v -> 9 <= bits <= 255 -> decompose v bits = Some (u, lo) ->
  wrap 256 (wrap 256 (u * 2 ^ bits) + lo) = v.
Proof.
  intros Hv Hm Hb Hd. destruct (decompose_spec v bits u lo Hv Hm Hb Hd) as (He & _).
  rewrite wrap_add_l by lia. rewrite He. by apply wrap_small.
Qed.

Lemma routine_check : (forall v l, routine_for v l -> inw 256 v -> forall l' st, check_run (l ++ l') st = check_run l' (v :: st)) /\
  (forall lo l, lower_for lo l -> inw 256 (Z.abs lo) -> forall l' st,
    check_run (l ++ l') st = check_run l' (if lo =? 0 then st else Z.abs lo :: st)) /\
  (forall u l, upper_for u l -> inw 256 u -> forall l' x st, inw 256 x ->
    check_run (l ++ l') (x :: st) = check_run l' (wrap 256 (u * x) :: st)).
Proof.
  apply routines_ind.
  - done.
  - intros v l _ _ IH Hv l' st. rewrite <- app_assoc, IH by (unfold inw in *; lia).
    rewrite check_not. do 2 f_equal. lia.
  - intros v bits u lo lower upper Hm Hb Hd _ IHl _ IHu Hv l' st.
    destruct (decompose_spec v bits u lo Hv Hm Hb Hd) as (He & Hu1 & Hu & Hl).
    rewrite <- !app_assoc, IHl by (unfold inw in *; lia). cbn [app]. rewrite check_power by lia.
    rewrite IHu; [| unfold inw in *; lia | split; [lia | apply Z.pow_lt_mono_r; lia]].
    pose proof (upper_part v bits u lo Hv Hm Hb Hd) as Hup. unfold tail_of.
    destruct (Z.ltb_spec 0 lo); [| destruct (Z.ltb_spec lo 0)].
    + destruct (Z.eqb_spec lo 0); [lia |]. cbn [app]. rewrite check_binary by (cbn; tauto). cbv beta.
      change (Op.ADD =? Op.MUL) with false. change (Op.ADD =? Op.ADD) with true. cbv iota. by rewrite Z.abs_eq, Hup by lia.
    + destruct (Z.eqb_spec lo 0); [lia |]. cbn [app]. rewrite check_binary by (cbn; tauto).
      change (Op.SUB =? Op.MUL) with false. change (Op.SUB =? Op.ADD) with false. cbv iota.
      rewrite Z.abs_neq, Z.sub_opp_r, Hup by lia. done.
    + assert (lo = 0) as -> by lia. cbn [app Z.eqb]. rewrite Z.add_0_r, wrap_wrap in Hup by lia. by rewrite Hup.
  - done.
  - intros lo l Hn _ IH Hlo l' st. rewrite IH by done. by destruct (Z.eqb_spec lo 0).
  - intros _ l' x st Hx. cbn [app]. rewrite Z.mul_1_l. by rewrite wrap_small.
  - intros u l _ _ IH Hu l' x st Hx. rewrite <- app_assoc, IH by done. cbn [app]. by rewrite check_binary by (cbn; tauto).
Qed.

Lemma routine_checked v l : inw 256 v -> routine_for v l -> checkRepresentation v l = true.
Proof.
  intros Hv Hr. unfold checkRepresentation. rewrite <- (app_nil_r l), (proj1 routine_check v l Hr Hv). cbn. apply Z.eqb_refl.
Qed.

Lemma ComputeMethod_routine p v : inw 256 v -> exists l, ComputeMethod p v = Some l /\ routine_for v l.
Proof.
  intros Hv. destruct (representation_total 256 p v 10000 Hv) as (l & s & Hl & Hr); [apply Hv |].
  unfold ComputeMethod. rewrite Hl. cbn [mbind option_bind]. rewrite (routine_checked v l Hv Hr). eauto.
Qed.

(** *** What the reference machine computes *)

Section Machine128.
Context {H : Type} (X : Ctx H).

(** The stack that a routine needs. *)
Definition room (v : Z) : nat := 3 + Z.to_nat (Z.log2 v / 4).

Lemma room_upper u v : 1 <= u -> 256 * u <= v -> (2 + room u <= room v)%nat.
Proof.
  intros Hu Hv. unfold room. assert (Z.log2 u + 8 <= Z.log2 v).
  { rewrite <- Z.log2_shiftl by lia. apply Z.log2_le_mono. rewrite Z.shiftl_mul_pow2 by lia. change (2 ^ 8) with 256. lia. }
  assert (Z.log2 u / 4 + 2 <= Z.log2 v / 4).
  { apply Z.div_le_lower_bound; [lia |]. pose proof (Z.mul_div_le (Z.log2 u) 4). lia. }
  pose proof (Z.log2_nonneg u). pose proof (Z.div_pos (Z.log2 u) 4). lia.
Qed.

Lemma room_lower a v : 0 <= a <= v -> (room a <= room v)%nat.
Proof.
  intros Ha. unfold room. pose proof (Z.log2_le_mono a v). pose proof (Z.div_le_mono (Z.log2 a) (Z.log2 v) 4). lia.
Qed.

Lemma eval_binary cap i (a b : Z) st h : In i [Op.MUL; Op.ADD; Op.SUB] -> eval X cap [Operation i] (a :: b :: st) h =
  Some (wrap 128 (if i =? Op.MUL then a * b else if i =? Op.ADD then a + b else a - b) :: st, h).
Proof. intros [<- | [<- | [<- | []]]]; reflexivity. Qed.

Lemma eval_power cap bits st h : 0 <= bits <= 255 -> (length st + 2 <= cap)%nat ->
  eval X cap [Push bits; Push 2; Operation Op.EXP] st h = Some (wrap 128 (2 ^ bits) :: st, h).
Proof.
  intros Hb Hc. cbn [eval eval_item]. destruct (Nat.ltb_spec (length st) cap); [| lia]. cbn [eval eval_item length].
  destruct (Nat.ltb_spec (S (length st)) cap); [| lia]. cbn -[Z.pow wrap].
  destruct (Z.leb_spec 0 bits); [| lia]. destruct (Z.ltb_spec bits (2 ^ 128)); [done |].
  assert (255 < 2 ^ 128) by done. lia.
Qed.

Lemma not_one_word v : inw 128 v -> dev_bytesRequired (2 ^ 256 - 1 - v) < dev_bytesRequired v -> False.
Proof.
  intros Hv Hb. pose proof (dev_bytesRequired_le 16 v ltac:(lia) Hv).
  assert (Hc : inw 256 (2 ^ 256 - 1 - v)).
  { unfold inw in *. change (2 ^ 256) with (2 ^ 128 * 2 ^ 128). lia. }
  pose proof (dev_bytesRequired_fits _ Hc) as [_ Hf]. pose proof (dev_bytesRequired_bound _ Hc).
  pose proof (Z.pow_le_mono_r 2 (8 * dev_bytesRequired (2 ^ 256 - 1 - v)) 128 ltac:(lia) ltac:(lia)).
  unfold inw in *. change (2 ^ 256) with (2 ^ 128 * 2 ^ 128) in *. assert (1 < 2 ^ 128) by done. nia.
Qed.

Lemma tail_small lo : Forall small_push (tail_of lo).
Proof. unfold tail_of. repeat case_match; repeat constructor. Qed.

Lemma routine_eval :
  (forall v l, routine_for v l -> inw 128 v -> Forall small_push l /\
    forall cap st h, (length st + room v <= cap)%nat -> eval X cap l st h = Some (v :: st, h)) /\
  (forall lo l, lower_for lo l -> inw 128 (Z.abs lo) -> Forall small_push l /\
    forall cap st h, (length st + room (Z.abs lo) <= cap)%nat ->
    eval X cap l st h = Some (if lo =? 0 then st else Z.abs lo :: st, h)) /\
  (forall u l, upper_for u l -> inw 128 u -> Forall small_push l /\
    forall cap x st h, inw 128 x -> (length st + 1 + room u <= cap)%nat ->
    eval X cap l (x :: st) h = Some (wrap 128 (u * x) :: st, h)).
Proof.
  apply routines_ind.
  - intros v Hv. split; [constructor; [exact Hv | constructor] |]. intros cap st h Hc. unfold room in Hc. cbn [eval eval_item].
    by destruct (Nat.ltb_spec (length st) cap); [| lia].
  - intros v l Hb _ _ Hv. by destruct (not_one_word v).
  - intros v bits u lo lower upper Hm Hb Hd _ IHl _ IHu Hv.
    assert (Hv' : inw 256 v) by (by apply (inw_mono 128); [lia |]).
    destruct (decompose_spec v bits u lo Hv' Hm Hb Hd) as (He & Hu1 & Hu & Hl).
    destruct IHl as [Sl IHl]; [unfold inw in *; lia |]. destruct IHu as [Su IHu]; [unfold inw in *; lia |].
    split.
    { rewrite !Forall_app. split_and!; [done | | done | apply tail_small].
      repeat apply Forall_cons; try done. assert (255 < 2 ^ 128) by done. cbn. unfold inw. lia. }
    intros cap st h Hc. pose proof (room_upper u v Hu1 Hu). pose proof (room_lower (Z.abs lo) v ltac:(lia)).
    assert (Hr3 : (3 <= room v)%nat) by (unfold room; lia).
    assert (Hlen : (length (if (lo =? 0)%Z then st else Z.abs lo :: st) <= length st + 1)%nat) by (destruct (lo =? 0); cbn; lia).
    rewrite !eval_app, IHl by lia. rewrite eval_app, eval_power by lia.
    rewrite eval_app, IHu; [| apply wrap_inw; lia | lia]. rewrite wrap_mul_r by lia.
    pose proof (wrap_small 128 v Hv) as Hw. unfold tail_of.
    destruct (Z.ltb_spec 0 lo); [| destruct (Z.ltb_spec lo 0)].
    + destruct (Z.eqb_spec lo 0); [lia |]. rewrite eval_binary by (cbn; tauto).
      change (Op.ADD =? Op.MUL) with false. change (Op.ADD =? Op.ADD) with true. cbv iota.
      rewrite wrap_add_l, Z.abs_eq, He, Hw by lia. done.
    + destruct (Z.eqb_spec lo 0); [lia |]. rewrite eval_binary by (cbn; tauto).
      change (Op.SUB =? Op.MUL) with false. change (Op.SUB =? Op.ADD) with false. cbv iota.
      rewrite Z.abs_neq, Z.sub_opp_r, wrap_add_l, He, Hw by lia. done.
    + assert (lo = 0) as -> by lia. rewrite Z.add_0_r in He. cbn [Z.eqb eval]. by rewrite He, Hw.
  - intros _. split; [constructor |]. done.
  - intros lo l Hn _ IH Hlo. destruct (IH Hlo) as [S1 IH']. split; [done |]. intros cap st h Hc. rewrite IH' by done.
    by destruct (Z.eqb_spec lo 0).
  - intros _. split; [constructor |]. intros cap x st h Hx _. cbn [eval]. rewrite Z.mul_1_l. by rewrite wrap_small.
  - intros u l _ _ IH Hu. destruct (IH Hu) as [S1 IH']. split.
    { apply Forall_app. split; [done |]. by repeat constructor. }
    intros cap x st h Hx Hc. rewrite eval_app, IH' by (cbn [length]; lia). by rewrite eval_binary by (cbn; tauto).
Qed.
End Machine128.

(** C29: the constructor of [ComputeMethod] never throws: on every constant, and whatever the parameters, the search ends
    within its fuel and the routine that it finds passes the check.  Where the constant is one word of the machine, the
    routine pushes that word when it runs there. *)
Theorem computed_constant_correct {H} (XX : Ctx H) V p v h : inw 256 v ->
  exists l, ComputeMethod p v = Some l /\ checkRepresentation v l = true /\
  (machine_ok XX V -> inw 128 v -> executes XX V (emit l) [] h [v] h).
Proof.
  intros Hv'. destruct (ComputeMethod_routine p v Hv') as (l & Hl & Hr). exists l. split; [done |].
  split; [by apply routine_checked |]. intros HM Hv. destruct (proj1 (routine_eval XX) v l Hr Hv) as [Hs He].
  assert (Hroom : (room v <= 64)%nat).
  { unfold room. assert (Z.log2 v < 128) by (destruct (decide (v = 0)) as [-> |]; [done | apply Z.log2_lt_pow2; unfold inw in *; lia]).
    pose proof (Z.div_lt_upper_bound (Z.log2 v) 4 32). lia. }
  eapply (does_executes XX V HM 64); [| cbn; lia]. apply does_emit; [done |]. apply He. cbn [length]. lia.
Qed.

(** ** Copying constants *)

Lemma mem_full {H} (X : Ctx H) n r : 0 < n <= 32 -> length (r_mem r) = 32%nat -> expand X 0 n r = Ok (tt, r).
Proof.
  intros Hn Hm. unfold expand. destruct (Z.eqb_spec n 0); [lia |]. unfold mbind, M_bind, gets. rewrite Hm.
  assert (Hc : 32 < c_inputMax) by reflexivity. rewrite !Z.min_l by lia. 
  assert (Hr : roundup32 (0 + n) = 32).
  { destruct (roundup32_spec (0 + n)) as [H1 H2]; [lia |]. pose proof (Z.div_mod (roundup32 (0 + n)) 32). lia. }
  rewrite Hr. destruct (Z.leb_spec 0 c_inputMax); [| lia]. destruct (Z.leb_spec n c_inputMax); [| lia]. reflexivity.
Qed.

Section CopyRun.
Context {H : Type} (X : Ctx H) (V : AssemblyItem -> Z).
Hypothesis HM : machine_ok X V.
Abbreviation cost := (getStepCost (x_rev X)).

Lemma copy_cost inst :
  match inst with MLOAD | MSTORE | CODECOPY | PUSH _ | DUP _ | SWAP _ => 0 <= cost inst <= 10 | _ => True end.
Proof. destruct inst; try done; unfold getStepCost; repeat case_match; cbn; lia. Qed.

(** An item that is paid for. *)
Lemma item_paid i inst a g m rb h : sym_inst i = inst -> 0 <= cost inst <= 10 -> 10 <= g ->
  exec_item X V i (mkR a g m rb h) = if allowed X inst then step_body X 0 (V i) inst (mkR a (g - cost inst) m rb h) else Abort.
Proof. intros Hi Hc Hg. unfold exec_item. rewrite Hi, step_charged, (proj2 (Z.leb_le _ _)) by (cbn [r_gas]; lia). done. Qed.
#[local] Opaque getStepCost.

Lemma exec_mload a g m rb h : length m = 32%nat -> (length a < 1024)%nat -> 10 <= g -> exists g', g - 10 <= g' /\
  exec_item X V (Operation Op.MLOAD) (mkR (0 :: a) g m rb h) = Ok (Next, mkR (be_val (take 16 m) :: a) g' m rb h).
Proof.
  intros Hm Ha Hg. pose proof (copy_cost MLOAD) as Hc. cbv iota in Hc. rewrite (item_paid _ MLOAD) by done. exists (g - cost MLOAD). split; [lia |].
  cbn -[expand Nat.ltb]. unfold mbind, M_bind, rpop, gets. cbn -[expand Nat.ltb]. unfold mbind, M_bind. cbn -[expand Nat.ltb].
  rewrite mem_full by (cbn; lia). unfold mem_read, rpush, mbind, M_bind, gets. cbn -[Nat.ltb]. by rewrite (proj2 (Nat.ltb_lt _ _)) by lia.
Qed.

Lemma exec_mstore z a g m rb h : length m = 32%nat -> 10 <= g -> exists g', g - 10 <= g' /\
  exec_item X V (Operation Op.MSTORE) (mkR (0 :: z :: a) g m rb h) = Ok (Next, mkR a g' (splice m 0 (be_bytes 16 z)) rb h).
Proof.
  intros Hm Hg. pose proof (copy_cost MSTORE) as Hc. cbv iota in Hc. rewrite (item_paid _ MSTORE) by done. exists (g - cost MSTORE). split; [lia |].
  cbn -[expand Nat.ltb]. unfold mbind, M_bind, rpop, gets. cbn -[expand Nat.ltb]. unfold mbind, M_bind. cbn -[expand Nat.ltb].
  rewrite mem_full by (cbn; lia). reflexivity.
Qed.

Lemma exec_codecopy i a g m rb h bs : length m = 32%nat -> padded (x_code X) i 32 = bs -> length bs = 32%nat -> 20 <= g -> exists g', g - 20 <= g' /\
  exec_item X V (Operation Op.CODECOPY) (mkR (0 :: i :: 32 :: a) g m rb h) = Ok (Next, mkR a g' (splice m 0 bs) rb h).
Proof.
  intros Hm Hbs Hlen Hg. pose proof (copy_cost CODECOPY) as Hc. cbv iota in Hc. rewrite (item_paid _ CODECOPY) by (done || lia).
  exists (g - cost CODECOPY - 3). split; [lia |]. cbn -[expand padded].
  unfold mbind, M_bind, rcopy, copy_padded, rpop, gets. cbn -[expand padded]. unfold mbind, M_bind. cbn -[expand padded charge].
  unfold mbind, M_bind. cbn -[expand padded charge].
  rewrite mem_full by (cbn; lia). unfold charge, mbind, M_bind, gets. cbn -[padded mem_write].
  rewrite Hbs. change (3 * words32 32) with 3. rewrite (proj2 (Z.leb_le 3 _)) by lia. cbn.
  unfold mem_write, mbind, M_bind, gets. cbn. by rewrite Hlen.
Qed.

Lemma exec_constant i a g m rb h : narrow i -> pushes i = true -> (length a < 1024)%nat -> 10 <= g -> exists g', g - 10 <= g' /\
  exec_item X V i (mkR a g m rb h) = Ok (Next, mkR (V i :: a) g' m rb h).
Proof.
  intros Hn Hp Ha Hg. pose proof (copy_cost (PUSH 0)) as Hc. cbv iota in Hc. exists (g - cost (PUSH 0)). split; [lia |].
  rewrite exec_push, (proj2 (Z.leb_le _ _)) by (done || (cbn [r_gas]; lia)). cbn [r_stack r_gas r_mem r_retbuf r_host]. by rewrite (proj2 (Nat.ltb_lt _ _)) by lia.
Qed.
Lemma exec_dup k i a z g m rb h : sym_inst i = DUP (S k) -> (k < 16)%nat -> a !! k = Some z -> (length a < 1024)%nat -> 10 <= g -> exists g', g - 10 <= g' /\
  exec_item X V i (mkR a g m rb h) = Ok (Next, mkR (z :: a) g' m rb h).
Proof.
  intros Hi Hk Hz Ha Hg. pose proof (copy_cost (DUP (S k))) as Hc. cbv iota in Hc. rewrite (item_paid _ _ _ _ _ _ _ Hi) by done. exists (g - cost (DUP (S k))).
  split; [lia |]. cbn [allowed]. rewrite (proj2 (Nat.leb_le (S k) 16)) by lia. cbn [orb step_body]. unfold rdup, rpush, gets, set_rstack. unfold mbind, M_bind.
  cbn [r_stack r_gas r_mem r_retbuf r_host]. replace (S k - 1)%nat with k by lia. rewrite Hz. cbn [r_stack r_gas r_mem r_retbuf r_host]. by rewrite (proj2 (Nat.ltb_lt _ _)) by lia.
Qed.
Lemma exec_swap2 i x y z a g m rb h : sym_inst i = SWAP 2 -> 10 <= g -> exists g', g - 10 <= g' /\
  exec_item X V i (mkR (x :: y :: z :: a) g m rb h) = Ok (Next, mkR (z :: y :: x :: a) g' m rb h).
Proof.
  intros Hi Hg. pose proof (copy_cost (SWAP 2)) as Hc. cbv iota in Hc. rewrite (item_paid _ _ _ _ _ _ _ Hi) by done. exists (g - cost (SWAP 2)).
  split; [lia | reflexivity].
Qed.

Lemma splice_all (m bs : list Z) : length bs = length m -> splice m 0 bs = bs.
Proof. intros Hl. unfold splice. rewrite take_0, drop_ge by (rewrite Nat.add_0_l; lia). by rewrite app_nil_r. Qed.

Lemma copied d bs g m rb h : length bs = 32%nat -> length m = 32%nat -> bytes_ok m -> padded (x_code X) (V (PushData d)) 32 = bs -> 200 <= g ->
  exists r', straight X V (<[4%nat := PushData d]> copyRoutine) (mkR [] g m rb h) r' /\
  r_stack r' = [be_val (take 16 bs)] /\ r_mem r' = take 16 m ++ drop 16 bs.
Proof.
  intros Hl Hm Hok Hcode Hg. pose proof HM as (HV & HX). unfold copyRoutine. cbn [insert list_insert].
  destruct (exec_constant (Push 0) [] g m rb h) as (g1 & G1 & E1); [done | done | cbn; lia | lia |]. rewrite HV in E1.
  destruct (exec_dup 0 (Operation Op.DUP1) [0] 0 g1 m rb h) as (g2 & G2 & E2); [done | lia | done | cbn; lia | lia |].
  destruct (exec_mload [0] g2 m rb h) as (g3 & G3 & E3); [done | cbn; lia | lia |].
  destruct (exec_constant (Push 32) [be_val (take 16 m); 0] g3 m rb h) as (g4 & G4 & E4); [done | done | cbn; lia | lia |]. rewrite HV in E4.
  destruct (exec_constant (PushData d) [32; be_val (take 16 m); 0] g4 m rb h) as (g5 & G5 & E5); [done | done | cbn; lia | lia |].
  destruct (exec_dup 3 (Operation (Op.DUP1 + 3)) [V (PushData d); 32; be_val (take 16 m); 0] 0 g5 m rb h) as (g6 & G6 & E6); [done | lia | done | cbn; lia | lia |].
  destruct (exec_codecopy (V (PushData d)) [be_val (take 16 m); 0] g6 m rb h bs) as (g7 & G7 & E7); [done | done | done | lia |].
  rewrite splice_all in E7 by congruence.
  destruct (exec_dup 1 (Operation (Op.DUP1 + 1)) [be_val (take 16 m); 0] 0 g7 bs rb h) as (g8 & G8 & E8); [done | lia | done | cbn; lia | lia |].
  destruct (exec_mload [be_val (take 16 m); 0] g8 bs rb h) as (g9 & G9 & E9); [done | cbn; lia | lia |].
  destruct (exec_swap2 (Operation (Op.SWAP1 + 1)) (be_val (take 16 bs)) (be_val (take 16 m)) 0 [] g9 bs rb h) as (g10 & G10 & E10); [done | lia |].
  destruct (exec_mstore (be_val (take 16 m)) [be_val (take 16 bs)] g10 bs rb h) as (g11 & G11 & E11); [done | lia |].
  eexists. split; [| split]; [cbn [straight]; eexists; split; [exact E1 |]; eexists; split; [exact E2 |]; eexists; split; [exact E3 |];
    eexists; split; [exact E4 |]; eexists; split; [exact E5 |]; eexists; split; [exact E6 |]; eexists; split; [exact E7 |];
    eexists; split; [exact E8 |]; eexists; split; [exact E9 |]; eexists; split; [exact E10 |]; eexists; split; [exact E11 | reflexivity] | done |].
  cbn [r_mem]. assert (Ht : length (take 16 m) = 16%nat) by (rewrite length_take; lia).
  assert (E : be_bytes 16 (be_val (take 16 m)) = take 16 m).
  { rewrite <- Ht at 1. apply be_bytes_be_val. by apply Forall_take. }
  rewrite E. unfold splice. by rewrite take_0, Ht.
Qed.
End CopyRun.

Lemma be_bytes_halves v : inw 256 v -> be_bytes 32 v = be_bytes 16 (Z.shiftr v 128) ++ be_bytes 16 (wrap 128 v).
Proof.
  intros Hv. set (l := be_bytes 16 (Z.shiftr v 128) ++ be_bytes 16 (wrap 128 v)).
  assert (Hl : bytes_ok l) by (apply Forall_app; split; apply be_bytes_ok).
  assert (E : be_val l = v).
  { unfold l. rewrite be_val_app, !be_val_be_bytes, length_be_bytes. change (8 * Z.of_nat 16) with 128.
    rewrite Z.shiftr_div_pow2 by lia. unfold wrap. rewrite Z.mod_mod by done.
    rewrite (Z.mod_small (v / 2 ^ 128)); [pose proof (Z.div_mod v (2 ^ 128)); lia |].
    destruct Hv as [H1 H2]. split; [apply Z.div_pos; lia |]. apply Z.div_lt_upper_bound; [lia |]. exact H2. }
  rewrite <- (be_bytes_be_val l Hl), E. unfold l. by rewrite length_app, !length_be_bytes.
Qed.

(** The code that copies a constant from the data of the contract does not push it on the reference machine, whose words
    are half as long as the copy: it pushes the upper half, zero for a constant of one word, and leaves the lower half in
    memory, over the 16 bytes that it does not save. *)
Theorem copied_constant_wrong {H} (X : Ctx H) V v (a a' : Assembly) l d g m rb h : machine_ok X V -> 200 <= g -> inw 256 v ->
  copy_execute v a = (l, a') -> l !! 4%nat = Some (PushData d) -> padded (x_code X) (V (PushData d)) 32 = be_bytes 32 v ->
  length m = 32%nat -> bytes_ok m ->
  exists r', straight X V l (mkR [] g m rb h) r' /\ r_stack r' = [Z.shiftr v 128] /\
  r_mem r' = take 16 m ++ be_bytes 16 (wrap 128 v).
Proof.
  intros HM Hg Hv Hl Hd Hcode Hm Hok. unfold copy_execute, newData in Hl. revert Hl. generalize (dev_keccak256 (be_bytes 32 v)). intros k Hl. injection Hl as <- _. injection Hd as ->.
  destruct (copied X V HM _ _ g m rb h (length_be_bytes 32 v) Hm Hok Hcode Hg) as (r' & H1 & H2 & H3).
  exists r'. split; [exact H1 |]. rewrite H2, H3, be_bytes_halves by done.
  rewrite take_app_length', drop_app_length' by (by rewrite length_be_bytes). split; [| done]. f_equal.
  rewrite be_val_be_bytes. apply Z.mod_small. destruct Hv as [Hv1 Hv2]. rewrite Z.shiftr_div_pow2 by lia.
  split; [apply Z.div_pos; lia |]. apply Z.div_lt_upper_bound; [done |]. exact Hv2.
Qed.

(** ** The optimiser *)

Lemma smap_find_set {A} k (v : A) m k' : smap_find k' (smap_set k v m) = if k' =? k then Some v else smap_find k' m.
Proof.
  induction m as [| [k1 v1] m IH].
  - cbn. destruct (Z.eqb_spec k' k), (Z.eqb_spec k k'); try done; lia.
  - cbn [smap_set]. unfold smap_find in *. destruct (Z.ltb_spec k k1); [| destruct (Z.eqb_spec k k1) as [-> |]]; cbn [List.find fst].
    + destruct (Z.eqb_spec k k'), (Z.eqb_spec k' k); try done; lia.
    + destruct (Z.eqb_spec k1 k'), (Z.eqb_spec k' k1); try done; lia.
    + destruct (Z.eqb_spec k1 k'); [| done]. destruct (Z.eqb_spec k' k); [lia | done].
Qed.

(** What may replace a constant: a routine for it, or the copy routine with some data. *)
Definition replacement_ok (d : Z) (l : list AssemblyItem) : Prop :=
  (exists p, ComputeMethod p d = Some l) \/ exists h, l = <[4%nat := PushData h]> copyRoutine.
Definition pending_ok (m : smap (list AssemblyItem)) : Prop :=
  forall d l, smap_find d m = Some l -> 0x100 <= d /\ replacement_ok d l.

Lemma optimise_constant_total c r n a m d k : inw 256 d -> pending_ok m ->
  exists n' a' m', optimise_constant c r (n, a, m) (d, k) = Some (n', a', m') /\ pending_ok m'.
Proof.
  intros Hd Hm. unfold optimise_constant. destruct (Z.ltb_spec d 0x100); [eauto |].
  set (p := mkParams c r k). assert (is_Some (literalGas p d)) as [lit Hlit] by (unfold literalGas; cbn; eauto).
  assert (is_Some (copyGas p d)) as [cop Hcop] by (unfold copyGas; cbn; eauto).
  destruct (ComputeMethod_routine p d Hd) as (l & Hl & Hr).
  destruct (routineGas_total p l) as [g Hg]; [by apply (proj1 routine_items d) |].
  rewrite Hlit, Hcop, Hl. cbn [mbind option_bind]. rewrite Hg. cbn [mbind option_bind].
  assert (Hset : forall l', replacement_ok d l' -> pending_ok (if is_empty l' then m else smap_set d l' m)).
  { intros l' Hl'. destruct (is_empty l'); [done |]. intros d' l2. rewrite smap_find_set.
    destruct (Z.eqb_spec d' d) as [-> |]; [intros [= <-]; by split | apply Hm]. }
  destruct ((cop <? lit) && (cop <? g)); [| destruct ((g <? lit) && (g <=? cop))].
  - unfold copy_execute, newData. eexists _, _, _. split; [reflexivity |]. apply Hset. right. eauto.
  - eexists _, _, _. split; [reflexivity |]. apply Hset. left. eauto.
  - eexists _, _, _. split; [reflexivity | done].
Qed.

Lemma count_pushes_words l m : Forall (fun i => match i with Push d => inw 256 d | _ => True end) l ->
  Forall (fun e => inw 256 e.1) m ->
  Forall (fun e : Z * Z => inw 256 e.1)
    (fold_left (fun m i => match i with Push d => smap_set d (default 0 (smap_find d m) + 1) m | _ => m end) l m).
Proof.
  intros Hl. revert m. induction Hl as [| i l Hi _ IH]; intros m Hm; [done |]. cbn [fold_left]. apply IH.
  destruct i; try done. clear -Hi Hm. generalize (default 0 (smap_find data m) + 1). intros n.
  induction Hm as [| [k v] m Hk Hm IH]; cbn [smap_set]; [by constructor |].
  destruct (data <? k); [constructor; [done | by constructor] |]. destruct (data =? k); by constructor.
Qed.

Lemma optimise_all_total c r l s : Forall (fun e : Z * Z => inw 256 e.1) l -> pending_ok s.2 ->
  exists s', optimise_all c r s l = Some s' /\ pending_ok s'.2.
Proof.
  intros Hl. revert s. induction Hl as [| [d k] l Hd _ IH]; intros [[n a] m] Hm; cbn [optimise_all]; [eauto |].
  destruct (optimise_constant_total c r n a m d k Hd Hm) as (n' & a' & m' & -> & Hm'). cbn [mbind option_bind]. by apply IH.
Qed.

(** [optimiseConstants] never throws on items with 256-bit constants; it replaces some constants from 256 on, each one
    everywhere, by the code that computes it or by the code that copies it, and leaves all other items alone. *)
Theorem optimiseConstants_total c r a l : Forall (fun i => match i with Push d => inw 256 d | _ => True end) l ->
  exists n a' l' m, optimiseConstants c r a l = Some (n, a', l') /\ l' = replaceConstants l m /\
  forall d l1, smap_find d m = Some l1 -> 0x100 <= d /\ replacement_ok d l1.
Proof.
  intros Hl. unfold optimiseConstants.
  destruct (optimise_all_total c r (count_pushes l) (0, a, [])) as ([[n a'] m] & -> & Hm);
    [apply count_pushes_words; [done | constructor] | done |].
  cbn [mbind option_bind]. exists n, a', (if is_empty m then l else replaceConstants l m), m. split_and!; [done | | done].
  destruct m; cbn; [| done]. unfold replaceConstants. clear. induction l as [| i l IH]; [done |]. cbn [map concat]. rewrite <- IH.
  by destruct i.
Qed.

(** *** Instances *)

Lemma computed_constant_correct_witness :
  executes (null_ctx 0 []) (fun i => match i with Push v => v | _ => 0 end)
    (emit [Push 1; Push 100; Push 2; Operation Op.EXP; Operation Op.SUB]) [] tt [2 ^ 100 - 1] tt.
Proof.
  destruct (computed_constant_correct (null_ctx 0 []) (fun i => match i with Push v => v | _ => 0 end) (mkParams false 1 1) (2 ^ 100 - 1) tt)
    as (l & Hl & _ & Hrun); [split; reflexivity || discriminate |].
  assert (E : ComputeMethod (mkParams false 1 1) (2 ^ 100 - 1) = Some [Push 1; Push 100; Push 2; Operation Op.EXP; Operation Op.SUB])
    by (vm_compute; reflexivity).
  assert (Hs : l = [Push 1; Push 100; Push 2; Operation Op.EXP; Operation Op.SUB]) by congruence.
  rewrite <- Hs. apply Hrun; [apply null_machine | split; reflexivity || discriminate].
Defined.

Lemma optimiseConstants_total_witness : exists n a' l' m,
  optimiseConstants false 1 empty_assembly [Push (2 ^ 100)] = Some (n, a', l') /\ l' = replaceConstants [Push (2 ^ 100)] m.
Proof.
  destruct (optimiseConstants_total false 1 empty_assembly [Push (2 ^ 100)]) as (n & a' & l' & m & H1 & H2 & _).
  - repeat constructor; reflexivity || discriminate.
  - exists n, a', l', m. split; [exact H1 | exact H2].
Defined.

Definition sample : Z := 0x123456789abcdef0fedcba9876543210.
Definition sample_ctx : Ctx unit := null_ctx 0 (be_bytes 32 sample).
Definition sample_value (i : AssemblyItem) : Z := match i with Push v => v | _ => 0 end.

Lemma copied_constant_wrong_witness : exists r',
  straight sample_ctx sample_value (copy_execute sample empty_assembly).1 (mkR [] 1000 (replicate 32 0) [] tt) r' /\
  r_stack r' = [0] /\ r_mem r' = replicate 16 0 ++ be_bytes 16 sample.
Proof.
  apply (copied_constant_wrong sample_ctx sample_value sample empty_assembly (copy_execute sample empty_assembly).2
    (copy_execute sample empty_assembly).1 (dev_keccak256 (be_bytes 32 sample)) 1000 (replicate 32 0) [] tt).
  - split_and!; done.
  - lia.
  - split; reflexivity || discriminate.
  - reflexivity.
  - reflexivity.
  - reflexivity.
  - reflexivity.
  - apply Forall_replicate_eq. split; done.
Defined.

(** Twenty uses of that constant are worth the copy. *)
Lemma copy_chosen : match optimiseConstants false 1 empty_assembly (replicate 20 (Push sample)) with
  | Some (n, a, l) => n = 1 /\ l = concat (replicate 20 (copy_execute sample empty_assembly).1)
  | None => False
  end.
Proof. vm_compute. split; reflexivity. Qed.
