(* ===== verification/Linearize.v ===== *)
(** * Linearising base contracts

    libsolidity/analysis/NameAndTypeResolver.cpp: [cThreeMerge] and
    [linearizeBaseContracts].  A contract is its identifier.  [None] is a failed
    assertion or fuel that runs out; [cThreeMerge] returns the empty list where
    merging is impossible.  [merge_total] shows that one round per entry of the
    lists is enough. *)
From stdpp Require Import gmap.
From S2P Require Import Prelude.
Open Scope list_scope.

(** ** Merging *)

(** The lambda [appearsOnlyAtHead]: the candidate is in no list behind its head. *)
Fixpoint appearsOnlyAtHead (toMerge : list (list Z)) (candidate : Z) : option bool :=
  match toMerge with
  | [] => Some true
  | [] :: _ => None
  | (_ :: bases) :: toMerge => if bool_decide (candidate ∈ bases) then Some false else appearsOnlyAtHead toMerge candidate
  end.

(** The lambda [nextCandidate], with the lists its loop has left. *)
Fixpoint nextCandidate_in (all toMerge : list (list Z)) : option (option Z) :=
  match toMerge with
  | [] => Some None
  | [] :: _ => None
  | (front :: _) :: toMerge =>
      only ← appearsOnlyAtHead all front; if (only : bool) then Some (Some front) else nextCandidate_in all toMerge
  end.
Definition nextCandidate (toMerge : list (list Z)) : option (option Z) := nextCandidate_in toMerge toMerge.

(** The lambda [removeCandidate]: lists that become empty are erased. *)
Definition removeCandidate (candidate : Z) (toMerge : list (list Z)) : list (list Z) :=
  filter (fun bases => bases ≠ []) ((fun bases => filter (fun c => c ≠ candidate) bases) <$> toMerge).

Fixpoint merge_loop (fuel : nat) (toMerge : list (list Z)) (result : list Z) : option (list Z) :=
  match toMerge with
  | [] => Some result
  | _ =>
      match fuel with
      | 0%nat => None
      | S fuel =>
          candidate ← nextCandidate toMerge;
          match candidate with
          | None => Some []
          | Some candidate => merge_loop fuel (removeCandidate candidate toMerge) (result ++ [candidate])
          end
      end
  end.

Definition cThreeMerge (toMerge : list (list Z)) : option (list Z) :=
  let toMerge := filter (fun bases => bases ≠ []) toMerge in merge_loop (length (concat toMerge)) toMerge [].

(** ** Contracts *)

(** What the annotations of the contracts hold: the linearised bases, empty
    until they are computed, and the dependencies. *)
Record Annotations := mkAnnotations { linearized : gmap Z (list Z); contractDependencies : gmap Z (gset Z) }.

Inductive LinearizeError := ContractExpected | BaseHasToPrecede | LinearizationImpossible.

(** The loop over the base specifiers, which are [None] where they do not name
    a contract: the list of direct bases and the lists in front of it. *)
Fixpoint collect (annotations : Annotations) (specifiers : list (option Z)) (direct : list Z) (input : list (list Z)) :
  LinearizeError + list Z * list (list Z) :=
  match specifiers with
  | [] => inr (direct, input)
  | None :: _ => inl ContractExpected
  | Some base :: specifiers =>
      match default [] (linearized annotations !! base) with
      | [] => inl BaseHasToPrecede
      | basesBases => collect annotations specifiers (base :: direct) (basesBases :: input)
      end
  end.

Definition linearizeBaseContracts (contract : Z) (specifiers : list (option Z)) (annotations : Annotations) :
  option (LinearizeError + Annotations) :=
  match collect annotations specifiers [] [] with
  | inl e => Some (inl e)
  | inr (direct, input) =>
      result ← cThreeMerge (input ++ [contract :: direct]);
      match result with
      | [] => Some (inl LinearizationImpossible)
      | _ :: rest =>
          Some (inr (mkAnnotations (<[contract := result]> (linearized annotations))
            (<[contract := default ∅ (contractDependencies annotations !! contract) ∪ list_to_set rest]> (contractDependencies annotations))))
      end
  end.

(** ** Orders *)

(** An order of contracts that keeps the order of every list. *)
Definition orders (toMerge : list (list Z)) (r : list Z) : Prop :=
  NoDup r /\ forall bases, bases ∈ toMerge -> bases `sublist_of` r.

(** No list is empty. *)
Definition full (toMerge : list (list Z)) : Prop := Forall (fun bases => bases ≠ []) toMerge.

Lemma appearsOnlyAtHead_spec toMerge c : full toMerge ->
  exists b, appearsOnlyAtHead toMerge c = Some b /\ (b = true <-> forall bases, bases ∈ toMerge -> c ∉ tail bases).
Proof.
  induction 1 as [| [| x bases] toMerge Hn Hf IH]; [exists true; split; [done |] | done |].
  - split; [intros _ bases []%elem_of_nil | done].
  - cbn [appearsOnlyAtHead]. destruct IH as (b & -> & Hb). case_bool_decide as Hc.
    + exists false. split; [done |]. split; [done |]. intros Ha. exfalso. exact (Ha (x :: bases) (list_elem_of_here _ _) Hc).
    + exists b. split; [done |]. rewrite Hb. setoid_rewrite elem_of_cons. split.
      * intros Ha ? [-> | Hin]; [exact Hc | by apply Ha].
      * intros Ha bases' Hin. apply Ha. by right.
Qed.

(** The candidate is the head of a list and in no list behind its head. *)
Definition candidate_ok (toMerge : list (list Z)) (c : Z) : Prop :=
  (exists bases, c :: bases ∈ toMerge) /\ forall bases, bases ∈ toMerge -> c ∉ tail bases.

Lemma nextCandidate_in_spec all toMerge : full all -> full toMerge -> toMerge ⊆ all ->
  exists o, nextCandidate_in all toMerge = Some o /\
  match o with
  | Some c => candidate_ok all c
  | None => forall c bases, c :: bases ∈ toMerge -> ~ candidate_ok all c
  end.
Proof.
  intros Ha. induction 1 as [| [| x bases] l Hn Hl IH]; intros Hsub; [| done |].
  - exists None. split; [done |]. intros c bases []%elem_of_nil.
  - cbn [nextCandidate_in]. destruct (appearsOnlyAtHead_spec all x Ha) as (b & -> & Hb). cbn [mbind option_bind].
    destruct b.
    + exists (Some x). split; [done |]. split; [exists bases; apply Hsub; left | by apply Hb].
    + destruct IH as (o & Ho & Hspec); [intros y Hy; apply Hsub; by right |]. exists o. split; [done |].
      destruct o; [done |]. intros c bases' [[= -> ->] | Hin]%elem_of_cons; [| by apply (Hspec c bases')].
      intros [_ Hc]. apply Hb in Hc. done.
Qed.

Lemma removeCandidate_elem c toMerge bases : bases ∈ removeCandidate c toMerge <->
  bases ≠ [] /\ exists b, b ∈ toMerge /\ bases = filter (fun x => x ≠ c) b.
Proof.
  unfold removeCandidate. rewrite list_elem_of_filter, list_elem_of_fmap. setoid_rewrite (and_comm (_ = _)). done.
Qed.

Lemma removeCandidate_full c toMerge : full (removeCandidate c toMerge).
Proof. apply list.Forall_forall. intros bases Hb%removeCandidate_elem. tauto. Qed.

(** Every round removes an entry. *)
Lemma removeCandidate_length c toMerge : (length (concat (removeCandidate c toMerge)) <= length (concat toMerge))%nat.
Proof.
  unfold removeCandidate. induction toMerge as [| bases l IH]; [done |]. cbn [fmap list_fmap concat].
  rewrite length_app. rewrite filter_cons. pose proof (length_filter (fun x => x ≠ c) bases).
  destruct (decide _); cbn [concat]; rewrite ?length_app; lia.
Qed.
Lemma removeCandidate_shorter c bases toMerge : c :: bases ∈ toMerge ->
  (length (concat (removeCandidate c toMerge)) < length (concat toMerge))%nat.
Proof.
  intros Hin. induction toMerge as [| b l IH]; [by apply not_elem_of_nil in Hin |].
  unfold removeCandidate in *. cbn [fmap list_fmap]. rewrite filter_cons. cbn [concat]. rewrite length_app.
  pose proof (length_filter (fun x => x ≠ c) b) as Hb.
  apply elem_of_cons in Hin as [<- | Hin].
  - pose proof (removeCandidate_length c l) as Hl. unfold removeCandidate in Hl. rewrite filter_cons_False in * by tauto.
    pose proof (length_filter (fun x => x ≠ c) bases). cbn [length] in *. destruct (decide _); cbn [concat]; rewrite ?length_app; lia.
  - specialize (IH Hin). destruct (decide _); cbn [concat]; rewrite ?length_app; lia.
Qed.

Lemma filter_sublist (P : Z -> Prop) `{!forall x, Decision (P x)} (l k : list Z) : l `sublist_of` k -> filter P l `sublist_of` filter P k.
Proof.
  induction 1 as [| x l k Hs IH | x l k Hs IH]; [done | |]; rewrite ?filter_cons; destruct (decide (P x)); try done; by constructor.
Qed.
Lemma filter_keeps (P : Z -> Prop) `{!forall x, Decision (P x)} (l : list Z) : (forall x, x ∈ l -> P x) -> filter P l = l.
Proof.
  induction l as [| x l IH]; intros Hl; [done |]. rewrite filter_cons_True by (apply Hl; left). f_equal. apply IH. intros y Hy. apply Hl. by right.
Qed.

(** The first element of a list with a property. *)
Lemma first_with (P : Z -> Prop) `{!forall x, Decision (P x)} (l : list Z) x : x ∈ l -> P x ->
  exists l1 y l2, l = l1 ++ y :: l2 /\ P y /\ forall z, z ∈ l1 -> ~ P z.
Proof.
  intros Hx HP. induction l as [| a l IH]; [by apply not_elem_of_nil in Hx |]. destruct (decide (P a)) as [Ha | Ha].
  - exists [], a, l. split_and!; [done | done |]. intros z []%elem_of_nil.
  - apply elem_of_cons in Hx as [-> | Hx]; [done |]. destruct (IH Hx) as (l1 & y & l2 & -> & Hy & Hl1).
    exists (a :: l1), y, l2. split_and!; [done | done |]. intros z [-> | Hz]%elem_of_cons; [done | by apply Hl1].
Qed.

(** Where there is an order, its first contract of the lists is a candidate. *)
Lemma orders_candidate toMerge r : full toMerge -> toMerge ≠ [] -> orders toMerge r -> exists c, candidate_ok toMerge c.
Proof.
  intros Hf Hne [Hnd Hs]. destruct toMerge as [| [| x0 b0] l] eqn:E; [done | by inversion Hf |]. rewrite <- E in *.
  destruct (first_with (fun x => x ∈ concat toMerge) r x0) as (r1 & x & r2 & -> & Hx & Hr1).
  { apply (elem_of_sublist (x0 :: b0)); [left | apply Hs; rewrite E; left]. }
  { rewrite E. cbn [concat]. left. }
  assert (Htail : forall bases, bases ∈ toMerge -> x ∉ tail bases).
  { intros bases Hb Hin. destruct bases as [| y t]; [by apply not_elem_of_nil in Hin |]. cbn [tail] in Hin.
    destruct (proj1 (sublist_app_r _ _ _) (Hs _ Hb)) as (l1 & l2 & El & H1 & H2).
    apply list.NoDup_app in Hnd as (_ & _ & [Hx2 _]%list.NoDup_cons). destruct l1 as [| a l1].
    - cbn [app] in El. subst l2. inversion H2 as [| ? ? ? H3 | ? ? ? H3]; subst; [by apply Hx2, (elem_of_sublist t) |].
      apply Hx2, (elem_of_sublist (y :: t)); [by right | done].
    - injection El as -> ->. apply (Hr1 a); [apply (elem_of_sublist (a :: l1)); [left | done] |].
      apply list_elem_of_In, in_concat. exists (a :: l1 ++ l2). split; [by apply list_elem_of_In | by left]. }
  exists x. split; [| done]. apply list_elem_of_In, in_concat in Hx as (bases & Hb & Hin).
  apply list_elem_of_In in Hb, Hin. destruct bases as [| y t]; [by apply not_elem_of_nil in Hin |].
  apply elem_of_cons in Hin as [-> | Hin]; [by exists t |]. by destruct (Htail _ Hb).
Qed.

(** One round: removing a candidate and putting it in front. *)
Lemma orders_remove toMerge c r : orders toMerge r -> orders (removeCandidate c toMerge) (filter (fun x => x ≠ c) r).
Proof.
  intros [Hnd Hs]. split; [by apply list.NoDup_filter |]. intros bases (Hn & b & Hb & ->)%removeCandidate_elem. by apply filter_sublist, Hs.
Qed.
Lemma orders_restore toMerge c r : candidate_ok toMerge c -> orders (removeCandidate c toMerge) r -> c ∉ r -> orders toMerge (c :: r).
Proof.
  intros [_ Hc] [Hnd Hs] Hr. split; [by constructor |]. intros bases Hb. specialize (Hc bases Hb).
  destruct (decide (filter (fun x => x ≠ c) bases = [])) as [E | E].
  - destruct bases as [| y t]; [constructor; apply sublist_nil_l |]. cbn [tail] in Hc. destruct t as [| z t].
    + destruct (decide (y = c)) as [-> | Hy]; [constructor; apply sublist_nil_l | by rewrite filter_cons_True in E].
    + exfalso. apply (not_elem_of_nil z). rewrite <- E. apply list_elem_of_filter. split; [| right; left]. intros ->. apply Hc. left.
  - assert (filter (fun x => x ≠ c) bases `sublist_of` r) as Hf by (apply Hs, removeCandidate_elem; eauto).
    destruct bases as [| y t]; [done |]. cbn [tail] in Hc.
    assert (filter (fun x => x ≠ c) t = t) as Et by (apply filter_keeps; intros x Hx ->; done).
    destruct (decide (y = c)) as [-> | Hy].
    + rewrite filter_cons_False, Et in Hf by tauto. by constructor.
    + rewrite filter_cons_True, Et in Hf by done. by constructor.
Qed.
Lemma removeCandidate_concat c toMerge x : candidate_ok toMerge c ->
  x ∈ concat toMerge <-> x = c \/ x ∈ concat (removeCandidate c toMerge).
Proof.
  intros [[b0 Hb0] _]. rewrite !list_elem_of_In, !in_concat. setoid_rewrite <- list_elem_of_In. setoid_rewrite removeCandidate_elem. split.
  - intros (bases & Hb & Hx). destruct (decide (x = c)); [by left |]. right. exists (filter (fun x => x ≠ c) bases).
    assert (x ∈ filter (fun x => x ≠ c) bases) by (by apply list_elem_of_filter). split; [split; [by intros E; rewrite E in *; apply (not_elem_of_nil x) | eauto] | done].
  - intros [-> | (bases & (_ & b & Hb & ->) & [_ Hx]%list_elem_of_filter)]; [exists (c :: b0); split; [done | left] | eauto].
Qed.
Lemma removeCandidate_not c toMerge : c ∉ concat (removeCandidate c toMerge).
Proof.
  rewrite list_elem_of_In, in_concat. setoid_rewrite <- list_elem_of_In. setoid_rewrite removeCandidate_elem.
  intros (bases & (_ & b & _ & ->) & [Hc _]%list_elem_of_filter). done.
Qed.

(** The loop returns an order of exactly the contracts in the lists, or there is none. *)
Lemma merge_loop_spec fuel toMerge result : full toMerge -> (length (concat toMerge) <= fuel)%nat ->
  exists res, merge_loop fuel toMerge result = Some res /\
  ((exists r, res = result ++ r /\ orders toMerge r /\ forall x, x ∈ r <-> x ∈ concat toMerge) \/
   (res = [] /\ forall r, ~ orders toMerge r)).
Proof.
  revert toMerge result. induction fuel as [| fuel IH]; intros toMerge result Hf Hlen.
  all: destruct (decide (toMerge = [])) as [-> | Hne].
  1, 3: exists result; split; [by (destruct fuel || idtac) | left; exists []; split; [by rewrite app_nil_r |]];
        split; [split; [constructor | intros ? []%elem_of_nil] | done].
  - destruct toMerge as [| [| x b] l]; [done | by inversion Hf | cbn in Hlen; lia].
  - destruct (nextCandidate_in_spec toMerge toMerge Hf Hf) as (o & Ho & Hspec); [done |].
    assert (E : merge_loop (S fuel) toMerge result =
      match o with None => Some [] | Some c => merge_loop fuel (removeCandidate c toMerge) (result ++ [c]) end).
    { destruct toMerge; [done |]. cbn [merge_loop]. unfold nextCandidate. by rewrite Ho. }
    rewrite E. destruct o as [c |].
    + pose proof Hspec as [[b Hb] _]. pose proof (removeCandidate_shorter c b toMerge Hb).
      destruct (IH (removeCandidate c toMerge) (result ++ [c]) (removeCandidate_full c toMerge) ltac:(lia)) as (res & -> & Hres).
      exists res. split; [done |]. destruct Hres as [(r & -> & Hr & Hin) | [-> Hno]].
      * left. exists (c :: r). split; [by rewrite <- app_assoc |]. split.
        -- apply orders_restore; [done | done |]. rewrite Hin. apply removeCandidate_not.
        -- intros x. rewrite elem_of_cons, Hin. symmetry. by apply removeCandidate_concat.
      * right. split; [done |]. intros r Hr. exact (Hno _ (orders_remove toMerge c r Hr)).
    + exists []. split; [done |]. right. split; [done |]. intros r Hr. destruct (orders_candidate toMerge r Hf Hne Hr) as (c & Hc).
      pose proof Hc as [[b Hb] _]. exact (Hspec c b Hb Hc).
Qed.

Lemma merge_ordered toMerge : exists r, cThreeMerge toMerge = Some r /\
  ((orders toMerge r /\ forall x, x ∈ r <-> x ∈ concat toMerge) \/ (r = [] /\ forall r', ~ orders toMerge r')).
Proof.
  unfold cThreeMerge. set (l := filter (fun bases => bases ≠ []) toMerge).
  assert (Hf : full l) by (apply list.Forall_forall; intros b [Hb _]%list_elem_of_filter; done).
  assert (Ho : forall r, orders l r <-> orders toMerge r).
  { intros r. unfold orders. apply and_iff_compat_l. split; intros Hs bases Hb; [| by apply Hs; apply list_elem_of_filter in Hb as [_ Hb]].
    destruct bases; [apply sublist_nil_l |]. apply Hs, list_elem_of_filter. done. }
  assert (Hc : concat l = concat toMerge).
  { subst l. clear. induction toMerge as [| [| x b] t IH]; [done | by rewrite filter_cons_False by tauto |].
    rewrite filter_cons_True by done. cbn [concat]. by rewrite IH. }
  destruct (merge_loop_spec (length (concat l)) l [] Hf (le_n _)) as (r & -> & Hr). exists r. split; [done |].
  setoid_rewrite Ho in Hr. rewrite Hc in Hr. destruct Hr as [(r' & -> & Hr) | Hr]; [by left | by right].
Qed.

(** [cThreeMerge] always returns.  What it returns has every contract of the lists once and keeps the order of every
    list; it is empty, apart from lists without contracts, exactly if no order of contracts does that. *)
Theorem cThreeMerge_correct toMerge : exists r, cThreeMerge toMerge = Some r /\
  ((orders toMerge r /\ forall x, x ∈ r <-> x ∈ concat toMerge) \/ (r = [] /\ forall r', ~ orders toMerge r')).
Proof. apply merge_ordered. Qed.

(** ** Linearised contracts *)

(** Every linearised contract comes first in its linearisation, which has no contract twice and in which the contracts
    that its bases inherit from are in the order that the bases give them. *)
Definition well_linearized (a : Annotations) : Prop :=
  forall c l, linearized a !! c = Some l ->
  head l = Some c /\ NoDup l /\ forall b, b ∈ l -> exists lb, linearized a !! b = Some lb /\ lb `sublist_of` l.

Definition bases_of (a : Annotations) (b : Z) : list Z := default [] (linearized a !! b).

Lemma collect_spec a specifiers direct input :
  match collect a specifiers direct input with
  | inl ContractExpected => None ∈ specifiers
  | inl BaseHasToPrecede => exists b, Some b ∈ specifiers /\ bases_of a b = []
  | inl LinearizationImpossible => False
  | inr (d, i) => exists bases, specifiers = Some <$> bases /\ d = reverse bases ++ direct /\
      i = reverse (bases_of a <$> bases) ++ input /\ forall b, b ∈ bases -> bases_of a b ≠ []
  end.
Proof.
  revert direct input. induction specifiers as [| [b |] l IH]; intros direct input; cbn [collect].
  - exists []. split_and!; try done. intros b []%elem_of_nil.
  - unfold bases_of in *. destruct (default [] (linearized a !! b)) as [| x t] eqn:E; [exists b; split; [left | done] |].
    specialize (IH (b :: direct) ((x :: t) :: input)). destruct (collect a l _ _) as [[] | [d i]]; [by right | | done |].
    + destruct IH as (b' & Hb & Hn). exists b'. split; [by right | done].
    + destruct IH as (bases & -> & -> & -> & Hn). exists (b :: bases). cbn [fmap list_fmap]. rewrite !reverse_cons, <- !app_assoc, E.
      split_and!; try done. intros b' [-> | Hb]%elem_of_cons; [by rewrite E | by apply Hn].
  - left.
Qed.

(** In a list that has the contract and behind it its bases, and all that they inherit from, the contract is the first. *)
Lemma contract_first a c bases r : well_linearized a -> linearized a !! c = None -> (forall b, b ∈ bases -> bases_of a b ≠ []) ->
  NoDup r -> c :: reverse bases `sublist_of` r -> (forall b, b ∈ bases -> bases_of a b `sublist_of` r) ->
  (forall x, x ∈ r -> x = c \/ exists b, b ∈ bases /\ x ∈ bases_of a b) -> exists t, r = c :: t /\ forall x, x ∈ t <-> exists b, b ∈ bases /\ x ∈ bases_of a b.
Proof.
  intros Hw Hc Hn Hnd Hs Hb Hin. destruct (proj1 (sublist_cons_l _ _ _) Hs) as (r1 & r2 & -> & Hs2).
  destruct r1 as [| y r1].
  - exists r2. split; [done |]. cbn [app] in *. apply list.NoDup_cons in Hnd as [Hc2 _]. intros x. split.
    + intros Hx. destruct (Hin x) as [-> | Hx']; [by right | done | done].
    + intros (b & Hb1 & Hx). assert (Hx' : x ∈ c :: r2) by (apply (elem_of_sublist (bases_of a b)); [done | by apply Hb]).
      apply elem_of_cons in Hx' as [-> | Hx']; [| done]. exfalso. unfold bases_of in Hx. destruct (linearized a !! b) as [l |] eqn:El; [| by apply not_elem_of_nil in Hx].
      destruct (Hw b l El) as (_ & _ & Hl). destruct (Hl c Hx) as (lc & Hlc & _). congruence.
  - exfalso. cbn [app] in *. apply list.NoDup_cons in Hnd as [Hy Hnd]. apply list.NoDup_app in Hnd as (Hnd1 & Hd & Hnd2).
    destruct (Hin y) as [-> | (b & Hb1 & Hyb)]; [by left | apply Hy, elem_of_app; right; left |].
    pose proof (Hb b Hb1) as Hsb. unfold bases_of in Hyb, Hsb. destruct (linearized a !! b) as [l |] eqn:El; [| by apply not_elem_of_nil in Hyb].
    destruct (Hw b l El) as (Hh & Hndl & _). destruct l as [| b' l]; [done |]. injection Hh as ->. cbn [default] in *.
    assert (Hbr : b ∈ r2) by (apply (elem_of_sublist (reverse bases)); [by apply elem_of_reverse | done]).
    inversion Hsb as [| ? ? ? Hsl | ? ? ? Hsl]; subst.
    + apply Hy, elem_of_app. right. by right.
    + apply Hy. apply elem_of_cons in Hyb as [-> | Hyl]; [apply elem_of_app; right; by right |].
      apply (elem_of_sublist (b :: l)); [by right | done].
Qed.

Lemma well_linearized_insert a deps c (bases t : list Z) : well_linearized a -> linearized a !! c = None -> NoDup (c :: t) ->
  (forall b, b ∈ bases -> bases_of a b `sublist_of` c :: t) -> (forall x, x ∈ t <-> exists b, b ∈ bases /\ x ∈ bases_of a b) ->
  well_linearized (mkAnnotations (<[c := c :: t]> (linearized a)) deps).
Proof.
  intros Hw Hc Hnd Hb Ht x l Hx. cbn [linearized] in Hx |- *.
  assert (Hkeep : forall b lb, linearized a !! b = Some lb -> <[c := c :: t]> (linearized a) !! b = Some lb).
  { intros b lb El. rewrite lookup_insert_ne; [done |]. intros ->. congruence. }
  destruct (decide (c = x)) as [<- | Hne].
  - rewrite lookup_insert_eq in Hx. injection Hx as <-. split_and!; [done | done |].
    intros b [-> | Hin]%elem_of_cons; [exists (c :: t); by rewrite lookup_insert_eq |].
    apply Ht in Hin as (b' & Hb' & Hin). pose proof (Hb b' Hb') as Hs. unfold bases_of in Hin, Hs.
    destruct (linearized a !! b') as [l |] eqn:El; [| by apply not_elem_of_nil in Hin]. destruct (Hw b' l El) as (_ & _ & Hl).
    destruct (Hl b Hin) as (lb & Elb & Hlb). exists lb. split; [by apply Hkeep | by trans l].
  - rewrite lookup_insert_ne in Hx by done. destruct (Hw x l Hx) as (H1 & H2 & H3). split_and!; [done | done |].
    intros b Hin. destruct (H3 b Hin) as (lb & Elb & Hlb). exists lb. split; [by apply Hkeep | done].
Qed.

Lemma in_bases a bases x : x ∈ concat (reverse (bases_of a <$> bases)) <-> exists b, b ∈ bases /\ x ∈ bases_of a b.
Proof.
  rewrite list_elem_of_In, in_concat. setoid_rewrite <- list_elem_of_In. setoid_rewrite elem_of_reverse. setoid_rewrite list_elem_of_fmap.
  split; [intros (l & (b & -> & Hb) & Hx); eauto | intros (b & Hb & Hx); eauto].
Qed.

Lemma order_of_contract a c bases r : well_linearized a -> linearized a !! c = None -> (forall b, b ∈ bases -> bases_of a b ≠ []) ->
  orders ((bases_of a <$> bases) ++ [c :: reverse bases]) r ->
  (forall x, x ∈ r -> x = c \/ x ∈ bases \/ exists b, b ∈ bases /\ x ∈ bases_of a b) ->
  exists t, r = c :: t /\ NoDup (c :: t) /\ reverse bases `sublist_of` t /\ (forall x, x ∈ t <-> exists b, b ∈ bases /\ x ∈ bases_of a b) /\
  forall b, b ∈ bases -> bases_of a b `sublist_of` c :: t.
Proof.
  intros Hw Hc Hn [Hnd Hs] Hin.
  assert (Hb : forall b, b ∈ bases -> bases_of a b `sublist_of` r).
  { intros b Hb. apply Hs, elem_of_app. left. by apply list_elem_of_fmap_2. }
  assert (Hd : c :: reverse bases `sublist_of` r) by (apply Hs, elem_of_app; right; left).
  destruct (contract_first a c bases r Hw Hc Hn Hnd Hd Hb) as (t & -> & Ht).
  - intros x Hx. destruct (Hin x Hx) as [-> | [Hx' | Hx']]; [by left | right | by right]. exists x. split; [done |].
    specialize (Hn x Hx'). unfold bases_of in *. destruct (linearized a !! x) as [l |] eqn:El; [| done].
    destruct (Hw x l El) as (Hh & _). destruct l; [done |]. injection Hh as ->. left.
  - exists t. split_and!; try done. inversion Hd as [| ? ? ? Hd' | ? ? ? Hd']; subst; [done |].
    apply list.NoDup_cons in Hnd as [Hc' _]. destruct Hc'. apply (elem_of_sublist (c :: reverse bases)); [left | done].
Qed.

Lemma linearize_ok c specifiers a : well_linearized a -> linearized a !! c = None ->
  exists res, linearizeBaseContracts c specifiers a = Some res /\
  match res with
  | inr a' => exists bases t, specifiers = Some <$> bases /\ linearized a' = <[c := c :: t]> (linearized a) /\ well_linearized a' /\
      reverse bases `sublist_of` t /\ (forall x, x ∈ t <-> exists b, b ∈ bases /\ x ∈ bases_of a b) /\
      (forall x, x ∈ t -> x ∈ default ∅ (contractDependencies a' !! c))
  | inl ContractExpected => None ∈ specifiers
  | inl BaseHasToPrecede => exists b, Some b ∈ specifiers /\ linearized a !! b = None
  | inl LinearizationImpossible => exists bases, specifiers = Some <$> bases /\
      forall r, ~ orders ((bases_of a <$> bases) ++ [c :: reverse bases]) r
  end.
Proof.
  intros Hw Hc. unfold linearizeBaseContracts. pose proof (collect_spec a specifiers [] []) as Hcol.
  destruct (collect a specifiers [] []) as [e | [d i]].
  - exists (inl e). split; [done |]. destruct e; [done | | done]. destruct Hcol as (b & Hb & Hn). exists b. split; [done |].
    unfold bases_of in Hn. destruct (linearized a !! b) as [l |] eqn:El; [| done]. destruct (Hw b l El) as (Hh & _). cbn in Hn. by subst l.
  - destruct Hcol as (bases & -> & -> & -> & Hn). rewrite !app_nil_r.
    assert (Ho : forall r, orders (reverse (bases_of a <$> bases) ++ [c :: reverse bases]) r <-> orders ((bases_of a <$> bases) ++ [c :: reverse bases]) r).
    { intros r. unfold orders. setoid_rewrite elem_of_app. by setoid_rewrite elem_of_reverse. }
    destruct (merge_ordered (reverse (bases_of a <$> bases) ++ [c :: reverse bases])) as (r & -> & Hr). cbn [mbind option_bind].
    destruct Hr as [[Hr Hin] | [-> Hno]].
    + destruct (order_of_contract a c bases r Hw Hc Hn (proj1 (Ho r) Hr)) as (t & -> & Hd & Hs & Ht & Hb).
      { intros x. rewrite Hin, concat_app, elem_of_app. cbn [concat]. rewrite app_nil_r, elem_of_cons, elem_of_reverse, in_bases. tauto. }
      eexists (inr _). split; [done |]. exists bases, t. cbn [linearized contractDependencies]. rewrite lookup_insert_eq.
      split_and!; [done | done | by apply (well_linearized_insert a _ c bases) | done | done |].
      intros x Hx. change (x ∈ default ∅ (contractDependencies a !! c) ∪ list_to_set (C := gset Z) t).
      apply elem_of_union_r. by apply elem_of_list_to_set.
    + exists (inl LinearizationImpossible). split; [done |]. exists bases. split; [done |]. intros r' Hr'. by apply (Hno r'), Ho.
Qed.

(** C25: [linearizeBaseContracts] returns for every contract that is not linearised yet.  It succeeds exactly if the
    specifiers name linearised contracts and an order of them exists that keeps the orders of all their bases, and of the
    specifiers themselves, the last one first; the linearisation then starts with the contract, goes on with what its
    bases inherit from, and all linearisations stay consistent. *)
Theorem linearizeBaseContracts_correct c specifiers a : well_linearized a -> linearized a !! c = None ->
  exists res, linearizeBaseContracts c specifiers a = Some res /\
  match res with
  | inr a' => exists bases t, specifiers = Some <$> bases /\ linearized a' = <[c := c :: t]> (linearized a) /\ well_linearized a' /\
      reverse bases `sublist_of` t /\ (forall x, x ∈ t <-> exists b, b ∈ bases /\ x ∈ bases_of a b) /\
      (forall x, x ∈ t -> x ∈ default ∅ (contractDependencies a' !! c))
  | inl ContractExpected => None ∈ specifiers
  | inl BaseHasToPrecede => exists b, Some b ∈ specifiers /\ linearized a !! b = None
  | inl LinearizationImpossible => exists bases, specifiers = Some <$> bases /\
      forall r, ~ orders ((bases_of a <$> bases) ++ [c :: reverse bases]) r
  end.
Proof. apply linearize_ok. Qed.

(** ** Sequences of contracts *)

(** The annotations after some contracts have been linearised. *)
Inductive resolved : Annotations -> Prop :=
| resolved_init : resolved (mkAnnotations ∅ ∅)
| resolved_step a c specifiers a' : resolved a -> linearized a !! c = None ->
    linearizeBaseContracts c specifiers a = Some (inr a') -> resolved a'.

(** In all annotations that the compiler can reach the linearisations are consistent. *)
Lemma resolved_consistent a : resolved a -> well_linearized a.
Proof.
  induction 1 as [| a c specifiers a' Ha IH Hc Hl]; [by intros c l |].
  destruct (linearize_ok c specifiers a IH Hc) as (res & Hres & Hspec). rewrite Hl in Hres. injection Hres as <-.
  by destruct Hspec as (bases & t & _ & _ & Hw & _).
Qed.

(** A diamond: contract 4 is 2, 3, which both are 1. *)
Definition diamond : Annotations :=
  mkAnnotations {[1 := [1]; 2 := [2; 1]; 3 := [3; 1]]} ∅.
Lemma diamond_ok : well_linearized diamond.
Proof.
  intros c l. unfold diamond. cbn [linearized]. rewrite !lookup_insert_Some, lookup_singleton_Some.
  intros [[<- <-] | [_ [[<- <-] | [_ [<- <-]]]]]; (split_and!; [done | by apply (bool_decide_unpack _); vm_compute |]).
  all: intros b Hb; repeat (apply elem_of_cons in Hb as [-> | Hb]); try by apply not_elem_of_nil in Hb.
  all: eexists; split; [reflexivity |]; repeat constructor.
Qed.
Lemma diamond_order : (fun r : LinearizeError + Annotations => match r with inr a => linearized a !! 4 | inl _ => None end)
  <$> linearizeBaseContracts 4 [Some 2; Some 3] diamond = Some (Some [4; 3; 2; 1]).
Proof. vm_compute. reflexivity. Qed.
Lemma linearizeBaseContracts_correct_witness :
  exists a', linearizeBaseContracts 4 [Some 2; Some 3] diamond = Some (inr a') /\ well_linearized a'.
Proof.
  destruct (linearizeBaseContracts_correct 4 [Some 2; Some 3] diamond diamond_ok) as (res & Hres & Hspec); [reflexivity |].
  destruct res as [e | a']; [vm_compute in Hres; discriminate |]. exists a'. split; [exact Hres |].
  destruct Hspec as (bases & t & _ & _ & Hw & _). exact Hw.
Defined.
