(* ===== verification/Token.v ===== *)
(** * Tokens of Solidity

    libsolidity/parsing/Token.h and Token.cpp: the list of tokens, their strings
    and classes, keywords and the names of elementary types.  A string is the
    list of its characters; [None] is a failed assertion.  The conversion of
    digits to an [int] is boost's, a parameter with its documented behaviour. *)
From stdpp Require Import strings.
From S2P Require Import Prelude Text.
Open Scope list_scope.
Open Scope Z_scope.

Module Token.

(** [enum Value]. *)
Local Set Warnings "-register-all".
Inductive Value :=
  | EOS | LParen | RParen | LBrack | RBrack | LBrace | RBrace | Colon | Semicolon | Period | Conditional | Arrow
  | Assign | AssignBitOr | AssignBitXor | AssignBitAnd | AssignShl | AssignSar | AssignShr | AssignAdd | AssignSub
  | AssignMul | AssignDiv | AssignMod | Comma | Or | And | BitOr | BitXor | BitAnd | SHL | SAR | SHR | Add | Sub | Mul
  | Div | Mod | Exp | Equal | NotEqual | LessThan | GreaterThan | LessThanOrEqual | GreaterThanOrEqual | Not | BitNot
  | Inc | Dec | Delete | Anonymous | As | Assembly | Break | Const | Continue | Contract | Do | Else | Enum | Event
  | External | For | Function | Hex | If | Indexed | Interface | Internal | Import | Is | Library | Mapping | Memory
  | Modifier | New | Payable | Public | Pragma | Private | Return | Returns | Storage | Struct | Throw | Using | Var
  | While | SubWei | SubSzabo | SubFinney | SubEther | SubSecond | SubMinute | SubHour | SubDay | SubWeek | SubYear
  | Int | UInt | Bytes | Byte | String | Address | Bool | Fixed | UFixed | IntM | UIntM | BytesM | FixedMxN | UFixedMxN
  | TypesEnd | TrueLiteral | FalseLiteral | Number | StringLiteral | CommentLiteral | Identifier | Abstract | After
  | Case | Catch | Default | Final | In | Inline | Let | Match | NullLiteral | Of | Pure | Relocatable | Static | Switch
  | Try | Type_ | TypeOf | View | Illegal | Whitespace.

(** The number of a token in the enumeration. *)
Definition ord (t : Value) : Z :=
  match t with
   | EOS => 0 | LParen => 1 | RParen => 2 | LBrack => 3 | RBrack => 4 | LBrace => 5 | RBrace => 6 | Colon => 7
   | Semicolon => 8 | Period => 9 | Conditional => 10 | Arrow => 11 | Assign => 12 | AssignBitOr => 13
   | AssignBitXor => 14 | AssignBitAnd => 15 | AssignShl => 16 | AssignSar => 17 | AssignShr => 18 | AssignAdd => 19
   | AssignSub => 20 | AssignMul => 21 | AssignDiv => 22 | AssignMod => 23 | Comma => 24 | Or => 25 | And => 26
   | BitOr => 27 | BitXor => 28 | BitAnd => 29 | SHL => 30 | SAR => 31 | SHR => 32 | Add => 33 | Sub => 34 | Mul => 35
   | Div => 36 | Mod => 37 | Exp => 38 | Equal => 39 | NotEqual => 40 | LessThan => 41 | GreaterThan => 42
   | LessThanOrEqual => 43 | GreaterThanOrEqual => 44 | Not => 45 | BitNot => 46 | Inc => 47 | Dec => 48 | Delete => 49
   | Anonymous => 50 | As => 51 | Assembly => 52 | Break => 53 | Const => 54 | Continue => 55 | Contract => 56
   | Do => 57 | Else => 58 | Enum => 59 | Event => 60 | External => 61 | For => 62 | Function => 63 | Hex => 64
   | If => 65 | Indexed => 66 | Interface => 67 | Internal => 68 | Import => 69 | Is => 70 | Library => 71
   | Mapping => 72 | Memory => 73 | Modifier => 74 | New => 75 | Payable => 76 | Public => 77 | Pragma => 78
   | Private => 79 | Return => 80 | Returns => 81 | Storage => 82 | Struct => 83 | Throw => 84 | Using => 85 | Var => 86
   | While => 87 | SubWei => 88 | SubSzabo => 89 | SubFinney => 90 | SubEther => 91 | SubSecond => 92 | SubMinute => 93
   | SubHour => 94 | SubDay => 95 | SubWeek => 96 | SubYear => 97 | Int => 98 | UInt => 99 | Bytes => 100 | Byte => 101
   | String => 102 | Address => 103 | Bool => 104 | Fixed => 105 | UFixed => 106 | IntM => 107 | UIntM => 108
   | BytesM => 109 | FixedMxN => 110 | UFixedMxN => 111 | TypesEnd => 112 | TrueLiteral => 113 | FalseLiteral => 114
   | Number => 115 | StringLiteral => 116 | CommentLiteral => 117 | Identifier => 118 | Abstract => 119 | After => 120
   | Case => 121 | Catch => 122 | Default => 123 | Final => 124 | In => 125 | Inline => 126 | Let => 127 | Match => 128
   | NullLiteral => 129 | Of => 130 | Pure => 131 | Relocatable => 132 | Static => 133 | Switch => 134 | Try => 135
   | Type_ => 136 | TypeOf => 137 | View => 138 | Illegal => 139 | Whitespace => 140
  end.

(** [TOKEN_LIST]: the string of a token, its precedence, and whether it is a keyword. *)
Inductive TokenType := T | K.
Definition TOKEN_LIST : list (Value * option string * Z * TokenType) :=
  [(EOS, Some "EOS", 0, T); (LParen, Some "(", 0, T); (RParen, Some ")", 0, T); (LBrack, Some "[", 0, T);
   (RBrack, Some "]", 0, T); (LBrace, Some "{", 0, T); (RBrace, Some "}", 0, T); (Colon, Some ":", 0, T);
   (Semicolon, Some ";", 0, T); (Period, Some ".", 0, T); (Conditional, Some "?", 3, T); (Arrow, Some "=>", 0, T);
   (Assign, Some "=", 2, T); (AssignBitOr, Some "|=", 2, T); (AssignBitXor, Some "^=", 2, T);
   (AssignBitAnd, Some "&=", 2, T); (AssignShl, Some "<<=", 2, T); (AssignSar, Some ">>=", 2, T);
   (AssignShr, Some ">>>=", 2, T); (AssignAdd, Some "+=", 2, T); (AssignSub, Some "-=", 2, T);
   (AssignMul, Some "*=", 2, T); (AssignDiv, Some "/=", 2, T); (AssignMod, Some "%=", 2, T);
   (Comma, Some ",", 1, T); (Or, Some "||", 4, T); (And, Some "&&", 5, T); (BitOr, Some "|", 8, T);
   (BitXor, Some "^", 9, T); (BitAnd, Some "&", 10, T); (SHL, Some "<<", 11, T); (SAR, Some ">>", 11, T);
   (SHR, Some ">>>", 11, T); (Add, Some "+", 12, T); (Sub, Some "-", 12, T); (Mul, Some "*", 13, T);
   (Div, Some "/", 13, T); (Mod, Some "%", 13, T); (Exp, Some "**", 14, T); (Equal, Some "==", 6, T);
   (NotEqual, Some "!=", 6, T); (LessThan, Some "<", 7, T); (GreaterThan, Some ">", 7, T);
   (LessThanOrEqual, Some "<=", 7, T); (GreaterThanOrEqual, Some ">=", 7, T); (Not, Some "!", 0, T);
   (BitNot, Some "~", 0, T); (Inc, Some "++", 0, T); (Dec, Some "--", 0, T); (Delete, Some "delete", 0, K);
   (Anonymous, Some "anonymous", 0, K); (As, Some "as", 0, K); (Assembly, Some "assembly", 0, K);
   (Break, Some "break", 0, K); (Const, Some "constant", 0, K); (Continue, Some "continue", 0, K);
   (Contract, Some "contract", 0, K); (Do, Some "do", 0, K); (Else, Some "else", 0, K); (Enum, Some "enum", 0, K);
   (Event, Some "event", 0, K); (External, Some "external", 0, K); (For, Some "for", 0, K);
   (Function, Some "function", 0, K); (Hex, Some "hex", 0, K); (If, Some "if", 0, K);
   (Indexed, Some "indexed", 0, K); (Interface, Some "interface", 0, K); (Internal, Some "internal", 0, K);
   (Import, Some "import", 0, K); (Is, Some "is", 0, K); (Library, Some "library", 0, K);
   (Mapping, Some "mapping", 0, K); (Memory, Some "memory", 0, K); (Modifier, Some "modifier", 0, K);
   (New, Some "new", 0, K); (Payable, Some "payable", 0, K); (Public, Some "public", 0, K);
   (Pragma, Some "pragma", 0, K); (Private, Some "private", 0, K); (Return, Some "return", 0, K);
   (Returns, Some "returns", 0, K); (Storage, Some "storage", 0, K); (Struct, Some "struct", 0, K);
   (Throw, Some "throw", 0, K); (Using, Some "using", 0, K); (Var, Some "var", 0, K); (While, Some "while", 0, K);
   (SubWei, Some "wei", 0, K); (SubSzabo, Some "szabo", 0, K); (SubFinney, Some "finney", 0, K);
   (SubEther, Some "ether", 0, K); (SubSecond, Some "seconds", 0, K); (SubMinute, Some "minutes", 0, K);
   (SubHour, Some "hours", 0, K); (SubDay, Some "days", 0, K); (SubWeek, Some "weeks", 0, K);
   (SubYear, Some "years", 0, K); (Int, Some "int", 0, K); (UInt, Some "uint", 0, K); (Bytes, Some "bytes", 0, K);
   (Byte, Some "byte", 0, K); (String, Some "string", 0, K); (Address, Some "address", 0, K);
   (Bool, Some "bool", 0, K); (Fixed, Some "fixed", 0, K); (UFixed, Some "ufixed", 0, K); (IntM, Some "intM", 0, T);
   (UIntM, Some "uintM", 0, T); (BytesM, Some "bytesM", 0, T); (FixedMxN, Some "fixedMxN", 0, T);
   (UFixedMxN, Some "ufixedMxN", 0, T); (TypesEnd, None, 0, T); (TrueLiteral, Some "true", 0, K);
   (FalseLiteral, Some "false", 0, K); (Number, None, 0, T); (StringLiteral, None, 0, T);
   (CommentLiteral, None, 0, T); (Identifier, None, 0, T); (Abstract, Some "abstract", 0, K);
   (After, Some "after", 0, K); (Case, Some "case", 0, K); (Catch, Some "catch", 0, K);
   (Default, Some "default", 0, K); (Final, Some "final", 0, K); (In, Some "in", 0, K);
   (Inline, Some "inline", 0, K); (Let, Some "let", 0, K); (Match, Some "match", 0, K);
   (NullLiteral, Some "null", 0, K); (Of, Some "of", 0, K); (Pure, Some "pure", 0, K);
   (Relocatable, Some "relocatable", 0, K); (Static, Some "static", 0, K); (Switch, Some "switch", 0, K);
   (Try, Some "try", 0, K); (Type_, Some "type", 0, K); (TypeOf, Some "typeof", 0, K); (View, Some "view", 0, K);
   (Illegal, Some "ILLEGAL", 0, T); (Whitespace, None, 0, T)]%list.

Lemma TOKEN_LIST_ord t : (fun e => e.1.1.1) <$> (TOKEN_LIST !! Z.to_nat (ord t)) = Some t.
Proof. by destruct t. Qed.
Lemma ord_nonneg t : 0 <= ord t.
Proof. by destruct t. Qed.
Lemma ord_inj t u : ord t = ord u -> t = u.
Proof. intros E. pose proof (TOKEN_LIST_ord t) as Ht. rewrite E, TOKEN_LIST_ord in Ht. by injection Ht. Qed.
#[global] Instance Value_eq_dec : EqDecision Value.
Proof. intros t u. destruct (Z.eq_dec (ord t) (ord u)) as [E | E]; [left; by apply ord_inj | right; by intros ->]. Defined.

(** [m_string] and [m_precedence]. *)
Definition toString (t : Value) : option (list Z) :=
  match TOKEN_LIST !! Z.to_nat (ord t) with Some (_, s, _, _) => js <$> s | None => None end.
Definition precedence (t : Value) : Z :=
  match TOKEN_LIST !! Z.to_nat (ord t) with Some (_, _, p, _) => p | None => 0 end.

(** Classes of tokens. *)
Definition isElementaryTypeName (t : Value) : bool := (ord Int <=? ord t) && (ord t <? ord TypesEnd).
Definition isAssignmentOp (t : Value) : bool := (ord Assign <=? ord t) && (ord t <=? ord AssignMod).
Definition isBinaryOp (t : Value) : bool := (ord Comma <=? ord t) && (ord t <=? ord Exp).
Definition isCompareOp (t : Value) : bool := (ord Equal <=? ord t) && (ord t <=? ord GreaterThanOrEqual).
Definition isReservedKeyword (t : Value) : bool := (ord Abstract <=? ord t) && (ord t <=? ord TypeOf).

Definition of_ord (n : Z) : option Value := (fun e => e.1.1.1) <$> (TOKEN_LIST !! Z.to_nat n).
Definition AssignmentToBinaryOp (t : Value) : option Value :=
  if isAssignmentOp t && negb (bool_decide (t = Assign)) then of_ord (ord t + (ord BitOr - ord AssignBitOr)) else None.

(** [keywordByName]. *)
Definition keywordByName (name : list Z) : Value :=
  match List.find (fun e : Value * option string * Z * TokenType => match e with (_, Some s, _, K) => bool_decide (js s = name) | _ => false end) TOKEN_LIST with
  | Some (t, _, _, _) => t
  | None => Identifier
  end.
End Token.

(** ** Names of elementary types *)

Definition isdigit (c : Z) : bool := (48 <=? c) && (c <=? 57).

(** The characters before the first one that fails the test, and the rest. *)
Fixpoint span (test : Z -> bool) (s : list Z) : list Z * list Z :=
  match s with
  | [] => ([], [])
  | c :: t => if test c then let '(a, b) := span test t in (c :: a, b) else ([], s)
  end.

(** The number that decimal digits write. *)
Definition number (s : list Z) : Z := fold_left (fun v c => v * 10 + (c - 48)) s 0.

(** [boost::lexical_cast<int>]; on digits it gives their number if it fits, and throws without digits. *)
Class LexicalCast := lexical_cast : list Z -> option Z.
Class LexicalCastOk `{!LexicalCast} := {
  lexical_cast_digits s : s <> [] -> forallb isdigit s = true -> lexical_cast s = if number s <? 2 ^ 31 then Some (number s) else None;
  lexical_cast_empty : lexical_cast [] = None }.

Section TypeNames.
Context `{!LexicalCast}.

(** [parseSize]. *)
Definition parseSize (s : list Z) : Z := default (-1) (lexical_cast s).

(** [fromIdentifierOrKeyword]. *)
Definition fromIdentifierOrKeyword (literal : list Z) : Token.Value * Z * Z :=
  match span (fun c => negb (isdigit c)) literal with
  | (_, []) => (Token.keywordByName literal, 0, 0)
  | (baseType, positionM) =>
      let '(digitsM, positionX) := span isdigit positionM in
      let m := parseSize digitsM in
      match Token.keywordByName baseType, positionX with
      | Token.Bytes, [] => if (0 <? m) && (m <=? 32) then (Token.BytesM, m, 0) else (Token.Identifier, 0, 0)
      | (Token.UInt | Token.Int) as keyword, [] =>
          if (0 <? m) && (m <=? 256) && (m mod 8 =? 0)
          then (if bool_decide (keyword = Token.UInt) then Token.UIntM else Token.IntM, m, 0) else (Token.Identifier, 0, 0)
      | (Token.UFixed | Token.Fixed) as keyword, x :: digitsN =>
          if (x =? 120) && forallb isdigit digitsN then
            let n := parseSize digitsN in
            if (8 <=? m) && (m <=? 256) && (m mod 8 =? 0) && (0 <=? n) && (n <=? 80)
            then (if bool_decide (keyword = Token.UFixed) then Token.UFixedMxN else Token.FixedMxN, m, n) else (Token.Identifier, 0, 0)
          else (Token.Identifier, 0, 0)
      | _, _ => (Token.Identifier, 0, 0)
      end
  end.
End TypeNames.

(** [class ElementaryTypeNameToken] and the assertions of its constructor. *)
Record ElementaryTypeNameToken := mkElementary { m_token : Token.Value; m_firstNumber : Z; m_secondNumber : Z }.

Definition assertDetails (baseType : Token.Value) (first second : Z) : option ElementaryTypeNameToken :=
  let ok :=
    Token.isElementaryTypeName baseType &&
    match baseType with
    | Token.BytesM => (second =? 0) && (first <=? 32)
    | Token.UIntM | Token.IntM => (second =? 0) && ((first <=? 256) && (first mod 8 =? 0))
    | Token.UFixedMxN | Token.FixedMxN => (8 <=? first) && (first <=? 256) && (first mod 8 =? 0) && (second <=? 80)
    | _ => true
    end in
  if ok then Some (mkElementary baseType first second) else None.

(** [ElementaryTypeNameToken::toString]. *)
Definition elementary_toString (e : ElementaryTypeNameToken) (tokenValue : bool) : option (list Z) :=
  name ← Token.toString (m_token e);
  if tokenValue || ((m_firstNumber e =? 0) && (m_secondNumber e =? 0)) then Some name
  else if (length name <? 3)%nat then None
  else Some (if bool_decide (m_token e = Token.FixedMxN) || bool_decide (m_token e = Token.UFixedMxN)
             then take (length name - 3) name ++ decimal (m_firstNumber e) ++ [120] ++ decimal (m_secondNumber e)
             else take (length name - 1) name ++ decimal (m_firstNumber e)).

(** ** Numbers in text *)

Lemma span_app p a b : forallb p a = true -> match b with c :: _ => p c = false | [] => True end -> span p (a ++ b) = (a, b).
Proof.
  intros Ha Hb. induction a as [| c a IH]; cbn [app span].
  - destruct b; [done |]. cbn [span]. by rewrite Hb.
  - cbn [forallb] in Ha. apply andb_prop in Ha as [-> Ha]. by rewrite IH.
Qed.
Lemma span_spec p s a b : span p s = (a, b) -> s = a ++ b /\ forallb p a = true /\ match b with c :: _ => p c = false | [] => True end.
Proof.
  revert a b. induction s as [| c s IH]; cbn [span]; intros a b; [by intros [= <- <-] |]. destruct (p c) eqn:Ec.
  - destruct (span p s) as [a' b'] eqn:E. intros [= <- <-]. destruct (IH a' b' eq_refl) as (-> & Ha & Hb). split_and!; [done | | done].
    cbn [forallb]. by rewrite Ec.
  - by intros [= <- <-].
Qed.

Definition number_from (v : Z) (s : list Z) : Z := fold_left (fun v c => v * 10 + (c - 48)) s v.
Lemma decimal_digits_spec fuel n acc : 0 <= n -> n < 10 ^ Z.of_nat fuel -> (0 < fuel)%nat -> forallb isdigit acc = true ->
  number_from 0 (decimal_digits fuel n acc) = number_from n acc /\ forallb isdigit (decimal_digits fuel n acc) = true /\
  decimal_digits fuel n acc <> [].
Proof.
  revert n acc. induction fuel as [| fuel IH]; intros n acc Hn Hf Hpos Ha; [lia |]. cbn [decimal_digits].
  pose proof (Z.mod_pos_bound n 10 ltac:(lia)) as Hm. pose proof (Z.div_mod n 10 ltac:(lia)) as Hd.
  assert (forallb isdigit (48 + n mod 10 :: acc) = true).
  { cbn [forallb]. rewrite Ha, andb_true_r. unfold isdigit. lia. }
  destruct (Z.ltb_spec n 10).
  - split_and!; [| done | done]. unfold number_from. cbn [fold_left]. f_equal. rewrite Z.mod_small by lia. lia.
  - rewrite Nat2Z.inj_succ, Z.pow_succ_r in Hf by lia.
    destruct (IH (n / 10) (48 + n mod 10 :: acc)) as (-> & H1 & H2); [apply Z.div_pos; lia | apply Z.div_lt_upper_bound; lia | | done |].
    + destruct fuel; [change (10 ^ Z.of_nat 0) with 1 in Hf; lia | lia].
    + split_and!; [| done | done]. unfold number_from. cbn [fold_left]. f_equal. lia.
Qed.
Lemma decimal_spec n : 0 <= n -> number (decimal n) = n /\ forallb isdigit (decimal n) = true /\ decimal n <> [].
Proof.
  intros Hn. unfold decimal. destruct (Z.ltb_spec n 0); [lia |].
  apply (decimal_digits_spec (S (Z.to_nat (Z.log2 n))) n []); [done | | lia | done].
  pose proof (Z.log2_nonneg n). rewrite Nat2Z.inj_succ, Z2Nat.id by done.
  destruct (Z.eq_dec n 0) as [-> |]; [reflexivity |]. pose proof (Z.log2_spec n ltac:(lia)).
  assert (2 ^ Z.succ (Z.log2 n) <= 10 ^ Z.succ (Z.log2 n)) by (apply Z.pow_le_mono_l; lia). lia.
Qed.

Lemma decimal_digits_head fuel n acc : 0 < n -> n < 10 ^ Z.of_nat fuel -> exists c l, decimal_digits fuel n acc = c :: l /\ 49 <= c <= 57.
Proof.
  revert n acc. induction fuel as [| fuel IH]; intros n acc Hn Hf; [change (10 ^ Z.of_nat 0) with 1 in Hf; lia |]. cbn [decimal_digits].
  pose proof (Z.mod_pos_bound n 10 ltac:(lia)) as Hm. pose proof (Z.div_mod n 10 ltac:(lia)) as Hd. destruct (Z.ltb_spec n 10).
  - eexists _, _. split; [done |]. rewrite Z.mod_small by lia. lia.
  - rewrite Nat2Z.inj_succ, Z.pow_succ_r in Hf by lia. apply IH; [lia | apply Z.div_lt_upper_bound; lia].
Qed.
Lemma decimal_head n : 0 < n -> exists c l, decimal n = c :: l /\ 49 <= c <= 57.
Proof.
  intros Hn. unfold decimal. destruct (Z.ltb_spec n 0); [lia |]. apply decimal_digits_head; [done |].
  pose proof (Z.log2_nonneg n). rewrite Nat2Z.inj_succ, Z2Nat.id by done. pose proof (Z.log2_spec n ltac:(lia)).
  assert (2 ^ Z.succ (Z.log2 n) <= 10 ^ Z.succ (Z.log2 n)) by (apply Z.pow_le_mono_l; lia). lia.
Qed.
Lemma number_from_ge v s : 0 <= v -> forallb isdigit s = true -> v <= number_from v s.
Proof.
  revert v. induction s as [| c s IH]; intros v Hv Hs; [cbn; lia |]. cbn [forallb] in Hs. apply andb_prop in Hs as [Hc Hs].
  unfold isdigit in Hc. change (number_from v (c :: s)) with (number_from (v * 10 + (c - 48)) s). specialize (IH (v * 10 + (c - 48)) ltac:(lia) Hs). lia.
Qed.

(** ** Elementary types *)

(** The types with a size, with the sizes that they can have. *)
Definition sized (e : ElementaryTypeNameToken) : Prop :=
  let '(mkElementary t m n) := e in
  match t with
  | Token.BytesM => 0 < m <= 32 /\ n = 0
  | Token.UIntM | Token.IntM => 0 < m <= 256 /\ m mod 8 = 0 /\ n = 0
  | Token.UFixedMxN | Token.FixedMxN => 8 <= m <= 256 /\ m mod 8 = 0 /\ 0 <= n <= 80
  | _ => False
  end.

Section Elementary.
Context `{!LexicalCast, !LexicalCastOk}.

Lemma parseSize_decimal n : 0 <= n < 2 ^ 31 -> parseSize (decimal n) = n.
Proof.
  intros Hn. destruct (decimal_spec n ltac:(lia)) as (Hv & Hd & Hne). unfold parseSize. rewrite lexical_cast_digits by done.
  rewrite Hv. destruct (Z.ltb_spec n (2 ^ 31)); [done | lia].
Qed.

Lemma span_name name m rest : forallb (fun c => negb (isdigit c)) name = true -> 0 <= m ->
  exists d, span (fun c => negb (isdigit c)) (name ++ decimal m ++ rest) = (name, d :: tail (decimal m) ++ rest) /\ decimal m = d :: tail (decimal m).
Proof.
  intros Hn Hm. destruct (decimal_spec m Hm) as (_ & Hd & Hne). destruct (decimal m) as [| d l]; [done |]. exists d. split; [| done].
  rewrite span_app; [done | done |]. cbn [app forallb] in *. apply andb_prop in Hd as [-> _]. done.
Qed.

(** Reading what is written: a name without digits, a number and the end. *)
Lemma from_sized name m : forallb (fun c => negb (isdigit c)) name = true -> 0 <= m < 2 ^ 31 ->
  fromIdentifierOrKeyword (name ++ decimal m) =
  match Token.keywordByName name with
  | Token.Bytes => if (0 <? m) && (m <=? 32) then (Token.BytesM, m, 0) else (Token.Identifier, 0, 0)
  | (Token.UInt | Token.Int) as keyword =>
      if (0 <? m) && (m <=? 256) && (m mod 8 =? 0)
      then (if bool_decide (keyword = Token.UInt) then Token.UIntM else Token.IntM, m, 0) else (Token.Identifier, 0, 0)
  | _ => (Token.Identifier, 0, 0)
  end.
Proof.
  intros Hn Hm. unfold fromIdentifierOrKeyword. destruct (span_name name m [] Hn ltac:(lia)) as (d & Hs & Hd).
  rewrite !app_nil_r in Hs. rewrite Hs. cbv beta iota. rewrite <- Hd.
  destruct (decimal_spec m ltac:(lia)) as (_ & Hdig & _).
  assert (Hspan : span isdigit (decimal m) = (decimal m, [])) by (rewrite <- (app_nil_r (decimal m)) at 1; by apply span_app).
  rewrite Hspan, parseSize_decimal by done. by destruct (Token.keywordByName name).
Qed.
Lemma from_fixed name m n : forallb (fun c => negb (isdigit c)) name = true -> 0 <= m < 2 ^ 31 -> 0 <= n < 2 ^ 31 ->
  fromIdentifierOrKeyword (name ++ decimal m ++ [120] ++ decimal n) =
  match Token.keywordByName name with
  | (Token.UFixed | Token.Fixed) as keyword =>
      if (8 <=? m) && (m <=? 256) && (m mod 8 =? 0) && (0 <=? n) && (n <=? 80)
      then (if bool_decide (keyword = Token.UFixed) then Token.UFixedMxN else Token.FixedMxN, m, n) else (Token.Identifier, 0, 0)
  | _ => (Token.Identifier, 0, 0)
  end.
Proof.
  intros Hn Hm Hn2. unfold fromIdentifierOrKeyword. destruct (span_name name m ([120] ++ decimal n) Hn ltac:(lia)) as (d & -> & Hd).
  destruct (decimal_spec m ltac:(lia)) as (_ & Hdig & _). destruct (decimal_spec n ltac:(lia)) as (_ & Hdig2 & _).
  change (d :: tail (decimal m) ++ [120] ++ decimal n) with ((d :: tail (decimal m)) ++ [120] ++ decimal n). rewrite <- Hd.
  rewrite span_app by done. rewrite parseSize_decimal by done. cbn [app]. rewrite Hdig2, parseSize_decimal by done. cbn [Z.eqb Pos.eqb andb].
  by destruct (Token.keywordByName name).
Qed.
(** What is printed for a sized type is read back. *)
Lemma sized_read e : sized e -> exists name, elementary_toString e false = Some name /\
  fromIdentifierOrKeyword name = (m_token e, m_firstNumber e, m_secondNumber e).
Proof.
  destruct e as [t m n]. unfold elementary_toString. cbn [m_token m_firstNumber m_secondNumber]. intros Hs.
  assert (Em : (m =? 0) = false) by (destruct t; try done; cbn [sized] in Hs; lia). rewrite Em.
  destruct t; try done; cbn [sized] in Hs.
  - exists (js "int" ++ decimal m). split; [reflexivity |]. rewrite from_sized by (reflexivity || lia).
    change (Token.keywordByName (js "int")) with Token.Int. cbv iota. destruct (_ && _) eqn:E; [by destruct Hs as (_ & _ & ->) | lia].
  - exists (js "uint" ++ decimal m). split; [reflexivity |]. rewrite from_sized by (reflexivity || lia).
    change (Token.keywordByName (js "uint")) with Token.UInt. cbv iota. destruct (_ && _) eqn:E; [by destruct Hs as (_ & _ & ->) | lia].
  - exists (js "bytes" ++ decimal m). split; [reflexivity |]. rewrite from_sized by (reflexivity || lia).
    change (Token.keywordByName (js "bytes")) with Token.Bytes. cbv iota. destruct (_ && _) eqn:E; [by destruct Hs as (_ & ->) | lia].
  - exists (js "fixed" ++ decimal m ++ [120] ++ decimal n). split; [reflexivity |]. rewrite from_fixed by (reflexivity || lia).
    change (Token.keywordByName (js "fixed")) with Token.Fixed. cbv iota. destruct (_ && _) eqn:E; [done | lia].
  - exists (js "ufixed" ++ decimal m ++ [120] ++ decimal n). split; [reflexivity |]. rewrite from_fixed by (reflexivity || lia).
    change (Token.keywordByName (js "ufixed")) with Token.UFixed. cbv iota. destruct (_ && _) eqn:E; [done | lia].
Qed.
End Elementary.

(** What holds of [Identifier] and of all keywords of the list holds of every name. *)
Lemma keyword_ind (P : Token.Value -> bool) name : P Token.Identifier = true ->
  forallb (fun e : Token.Value * option string * Z * Token.TokenType => match e with (t, Some _, _, Token.K) => P t | _ => true end)
    Token.TOKEN_LIST = true -> P (Token.keywordByName name) = true.
Proof.
  intros Hi Hall. unfold Token.keywordByName. destruct (List.find _ _) as [[[[t s] p] k] |] eqn:E; [| done]. apply find_some in E as [Hin Hk].
  pose proof (proj1 (forallb_forall _ _) Hall _ Hin) as Ht. destruct s; [| done]. by destruct k.
Qed.
Lemma keyword_not_fixed name : match Token.keywordByName name with Token.FixedMxN | Token.UFixedMxN => False | _ => True end.
Proof.
  pose proof (keyword_ind (fun t => match t with Token.FixedMxN | Token.UFixedMxN => false | _ => true end) name eq_refl eq_refl) as Hk.
  cbv beta in Hk. by destruct (Token.keywordByName name).
Qed.

(** An identifier is not the end of the input and not white space. *)
Lemma from_visible `{!LexicalCast} literal : match (fromIdentifierOrKeyword literal).1.1 with Token.EOS | Token.Whitespace => False | _ => True end.
Proof.
  unfold fromIdentifierOrKeyword. destruct (span _ literal) as [base [| d rest]].
  - pose proof (keyword_ind (fun t => match t with Token.EOS | Token.Whitespace => false | _ => true end) literal eq_refl eq_refl) as Hk.
    cbv beta in Hk. cbn [fst]. by destruct (Token.keywordByName literal).
  - destruct (span isdigit (d :: rest)) as [dm rx]. generalize (parseSize dm). intros v.
    destruct (Token.keywordByName base), rx as [| x dn]; try done; repeat case_match; done.
Qed.

Lemma from_details `{!LexicalCast} literal t m n : fromIdentifierOrKeyword literal = (t, m, n) -> Token.isElementaryTypeName t = true ->
  assertDetails t m n = Some (mkElementary t m n) /\ (m <> 0 -> sized (mkElementary t m n)).
Proof.
  unfold fromIdentifierOrKeyword. destruct (span _ literal) as [base [| d rest]].
  - intros [= <- <- <-] Ht. split; [| done]. pose proof (keyword_not_fixed literal) as Hf. unfold assertDetails. rewrite Ht.
    by destruct (Token.keywordByName literal).
  - destruct (span isdigit (d :: rest)) as [dm rx]. generalize (parseSize dm). intros v.
    destruct (Token.keywordByName base), rx as [| x dn]; try (by intros [= <- <- <-]).
    all: repeat case_match; intros [= <- <- <-] Ht; try done.
    all: unfold assertDetails; rewrite Ht; cbn [andb sized]; repeat rewrite ?andb_true_iff, ?Z.ltb_lt, ?Z.leb_le, ?Z.eqb_eq in *; split.
    all: try lia.
    all: destruct (_ && _) eqn:E; [done | lia].
Qed.

(** The names of elementary types: the scanner reads the name that a type with a size is printed as back as this type,
    and whatever identifier it takes for an elementary type passes the assertions of [ElementaryTypeNameToken]. *)
Theorem elementary_names `{!LexicalCast, !LexicalCastOk} :
  (forall e, sized e -> exists name, elementary_toString e false = Some name /\
     fromIdentifierOrKeyword name = (m_token e, m_firstNumber e, m_secondNumber e)) /\
  forall literal t m n, fromIdentifierOrKeyword literal = (t, m, n) -> Token.isElementaryTypeName t = true ->
    assertDetails t m n = Some (mkElementary t m n) /\ (m <> 0 -> sized (mkElementary t m n)).
Proof. split; [exact sized_read | exact from_details]. Qed.

(** A conversion as documented. *)
Definition decimal_cast : LexicalCast :=
  fun s => match s with [] => None | _ => if forallb isdigit s && (number s <? 2 ^ 31) then Some (number s) else None end.
Lemma decimal_cast_ok : @LexicalCastOk decimal_cast.
Proof. split; [| done]. intros s Hn Hd. unfold lexical_cast, decimal_cast. destruct s; [done |]. by rewrite Hd. Qed.

Lemma elementary_names_witness : @fromIdentifierOrKeyword decimal_cast (js "fixed128x18") = (Token.FixedMxN, 128, 18).
Proof.
  destruct (proj1 (@elementary_names decimal_cast decimal_cast_ok) (mkElementary Token.FixedMxN 128 18)) as (name & Hn & Hf).
  - repeat split; discriminate.
  - vm_compute in Hn. injection Hn as <-. exact Hf.
Defined.
