(* ===== verification/Scanner.v ===== *)
(** * The scanner of Solidity

    libsolidity/parsing/Scanner.cpp and Scanner.h.  A source is the list of its
    bytes.  [None] is a failed assertion, or fuel that runs out: every loop has
    one round per byte of the source and one more, and [scanToken_total] shows
    that this is enough.  The sizes of a token that is not an identifier are
    read from variables that nothing has set; they are [None]. *)
From stdpp Require Import strings.
From S2P Require Import Prelude Text Utf8 DevUtf8 Token.
Open Scope list_scope.
Open Scope Z_scope.

(** ** Characters *)

Definition isHexDigit (c : Z) : bool := isdigit c || ((97 <=? c) && (c <=? 102)) || ((65 <=? c) && (c <=? 70)).
Definition isLineTerminator (c : Z) : bool := c =? 10.
Definition isWhiteSpace (c : Z) : bool := (c =? 32) || (c =? 10) || (c =? 9) || (c =? 13).
Definition isIdentifierStart (c : Z) : bool :=
  (c =? 95) || (c =? 36) || ((97 <=? c) && (c <=? 122)) || ((65 <=? c) && (c <=? 90)).
Definition isIdentifierPart (c : Z) : bool := isIdentifierStart c || isdigit c.
Definition hexValue (c : Z) : Z :=
  if (48 <=? c) && (c <=? 57) then c - 48
  else if (97 <=? c) && (c <=? 102) then c - 97 + 10
  else if (65 <=? c) && (c <=? 70) then c - 65 + 10 else -1.

(** ** State *)

(** [struct TokenDesc]. *)
Record TokenDesc := mkDesc { token : Token.Value; loc_start : nat; loc_end : nat; literal : list Z; extendedTokenInfo : option (Z * Z) }.

(** [class Scanner] with its [CharStream]. *)
Record Scanner := mkScanner {
  m_source : list Z; m_position : nat; m_char : Z;
  m_nextToken : TokenDesc; m_nextSkippedComment : TokenDesc;
  m_currentToken : TokenDesc; m_skippedComment : TokenDesc }.

Definition set_stream (position : nat) (char : Z) (s : Scanner) : Scanner :=
  mkScanner (m_source s) position char (m_nextToken s) (m_nextSkippedComment s) (m_currentToken s) (m_skippedComment s).
Definition set_next (d : TokenDesc) (s : Scanner) : Scanner :=
  mkScanner (m_source s) (m_position s) (m_char s) d (m_nextSkippedComment s) (m_currentToken s) (m_skippedComment s).
Definition set_comment (d : TokenDesc) (s : Scanner) : Scanner :=
  mkScanner (m_source s) (m_position s) (m_char s) (m_nextToken s) d (m_currentToken s) (m_skippedComment s).
Definition set_literal (l : list Z) (d : TokenDesc) : TokenDesc := mkDesc (token d) (loc_start d) (loc_end d) l (extendedTokenInfo d).

(** [CharStream::isPastEndOfInput], [get], [advanceAndGet] and [rollback]; the
    last two also set [m_char], as all their callers do. *)
Definition isPastEndOfInput (n : nat) (s : Scanner) : bool := (length (m_source s) <=? m_position s + n)%nat.
Definition get (n : nat) (s : Scanner) : Z := default 0 (m_source s !! (m_position s + n)%nat).
Definition advanceAndGet (n : nat) (s : Scanner) : Scanner :=
  if isPastEndOfInput 0 s then set_stream (m_position s) 0 s
  else let s := set_stream (m_position s + n) 0 s in if isPastEndOfInput 0 s then s else set_stream (m_position s) (get 0 s) s.
Definition rollback (n : nat) (s : Scanner) : option Scanner :=
  if (n <=? m_position s)%nat then let s := set_stream (m_position s - n) 0 s in Some (set_stream (m_position s) (get 0 s) s) else None.
Definition advance (s : Scanner) : Scanner := advanceAndGet 1 s.

(** The literal buffers. *)
Definition addLiteralChar (c : Z) (s : Scanner) : Scanner :=
  set_next (set_literal (literal (m_nextToken s) ++ [wrap 8 c]) (m_nextToken s)) s.
Definition addCommentLiteralChar (c : Z) (s : Scanner) : Scanner :=
  set_comment (set_literal (literal (m_nextSkippedComment s) ++ [wrap 8 c]) (m_nextSkippedComment s)) s.
Definition addLiteralCharAndAdvance (s : Scanner) : Scanner := advance (addLiteralChar (m_char s) s).
Definition clear_literal (s : Scanner) : Scanner := set_next (set_literal [] (m_nextToken s)) s.
Definition clear_comment (s : Scanner) : Scanner := set_comment (set_literal [] (m_nextSkippedComment s)) s.

(** [addUnicodeAsUTF8]. *)
Definition utf8_bytes (codepoint : Z) : list Z :=
  if codepoint <=? 0x7f then [codepoint]
  else if codepoint <=? 0x7ff then [Z.lor 0xc0 (Z.shiftr codepoint 6); Z.lor 0x80 (Z.land codepoint 0x3f)]
  else [Z.lor 0xe0 (Z.shiftr codepoint 12); Z.lor 0x80 (Z.land (Z.shiftr codepoint 6) 0x3f); Z.lor 0x80 (Z.land codepoint 0x3f)].
Definition addUnicodeAsUTF8 (codepoint : Z) (s : Scanner) : Scanner := fold_left (fun s c => addLiteralChar c s) (utf8_bytes codepoint) s.

(** It writes the encoding of the code point. *)
Lemma lor_high_bits a k y : 0 <= k -> 0 <= y < 2 ^ k -> Z.lor (a * 2 ^ k) y = a * 2 ^ k + y.
Proof. intros Hk Hy. rewrite <- Z.shiftl_mul_pow2 at 1 by done. by apply lor_shiftl_add. Qed.
Lemma utf8_bytes_encode p : 0 <= p < 0x10000 -> utf8_bytes p = encode_point p.
Proof.
  intros Hp. unfold utf8_bytes, encode_point, cont. change 0x3f with (Z.ones 6). rewrite !Z.land_ones, !Z.shiftr_div_pow2, Z.div_1_r by lia.
  change (2 ^ 6) with 64. change (2 ^ 12) with 0x1000.
  assert (Hlow : forall x, Z.lor 0x80 (x mod 64) = 0x80 + x mod 64).
  { intros x. change 0x80 with (2 * 2 ^ 6) at 1. rewrite lor_high_bits; [done | lia | apply Z.mod_pos_bound; lia]. }
  rewrite !Hlow. destruct (Z.leb_spec p 0x7f), (Z.ltb_spec p 0x80); try lia; [done |].
  destruct (Z.leb_spec p 0x7ff), (Z.ltb_spec p 0x800); try lia.
  - f_equal. change 0xc0 with (6 * 2 ^ 5) at 1. rewrite lor_high_bits; [done | lia |]. split; [apply Z.div_pos; lia | apply Z.div_lt_upper_bound; lia].
  - rewrite (proj2 (Z.ltb_lt p 0x10000)) by lia. f_equal. change 0xe0 with (14 * 2 ^ 4) at 1. rewrite lor_high_bits; [done | lia |].
    split; [apply Z.div_pos; lia | apply Z.div_lt_upper_bound; lia].
Qed.

(** The text of a Unicode escape is UTF-8 unless the code point is a surrogate. *)
Lemma unicode_escape_valid p : 0 <= p < 0x10000 -> utf8 (utf8_bytes p) <-> isSurrogate p = false.
Proof.
  intros Hp. rewrite utf8_bytes_encode by done. split.
  - intros Hu. destruct (isSurrogate p) eqn:E; [exfalso | done]. unfold isSurrogate in E. apply andb_prop in E as [E1 E2]. apply Z.leb_le in E1. apply Z.ltb_lt in E2.
    unfold encode_point in Hu. rewrite (proj2 (Z.ltb_ge p 0x80)), (proj2 (Z.ltb_ge p 0x800)), (proj2 (Z.ltb_lt p 0x10000)) in Hu by lia.
    assert (Hd : p / 0x1000 = 13) by (symmetry; apply (Z.div_unique p 0x1000 13 (p - 13 * 0x1000)); lia). rewrite Hd in Hu.
    apply utf8_step in Hu as (n & q & Hf & _ & Hq & He & _). injection Hf as <-. cbn [take] in He.
    destruct (proj2 (three_bytes (0xe0 + 13) (cont p 64) (cont p 1) ltac:(lia))) as (_ & Hw & _); [by exists q |].
    pose proof (join3 p ltac:(lia)) as Hj. rewrite Hd in Hj. pose proof (isCont_cont p 1) as H1. apply cont_range in H1.
    change (isWellFormed _ _) with (if 0x9f <? cont p 64 then false else true) in Hw. destruct (Z.ltb_spec 0x9f (cont p 64)); [done | lia].
  - intros Hs. rewrite <- (app_nil_r (encode_point p)). constructor; [split; [lia | done] | constructor].
Qed.

(** ** Loops *)

(** [while (test) body]. *)
Fixpoint while_ (fuel : nat) (test : Scanner -> bool) (body : Scanner -> Scanner) (s : Scanner) : option Scanner :=
  if test s then match fuel with 0%nat => None | S fuel => while_ fuel test body (body s) end else Some s.
Abbreviation rounds s := (S (length (m_source s))).

Definition skipWhitespace (s : Scanner) : option (bool * Scanner) :=
  s' ← while_ (rounds s) (fun s => isWhiteSpace (m_char s)) advance s; Some (negb (m_position s' =? m_position s)%nat, s').
Definition skipWhitespaceExceptLF (s : Scanner) : option Scanner :=
  while_ (rounds s) (fun s => isWhiteSpace (m_char s) && negb (isLineTerminator (m_char s))) advance s.
Definition scanDecimalDigits (s : Scanner) : option Scanner :=
  while_ (rounds s) (fun s => isdigit (m_char s)) addLiteralCharAndAdvance s.

(** ** Comments *)

Fixpoint line_loop (fuel : nat) (s : Scanner) : option Scanner :=
  if isLineTerminator (m_char s) then Some s
  else match fuel with
       | 0%nat => None
       | S fuel => let s := advance s in if isPastEndOfInput 0 s then Some s else line_loop fuel s
       end.
Definition skipSingleLineComment (s : Scanner) : option (Token.Value * Scanner) :=
  s ← line_loop (rounds s) s; Some (Token.Whitespace, s).

Fixpoint doc_line_loop (fuel : nat) (s : Scanner) : option Scanner :=
  if isPastEndOfInput 0 s then Some s
  else match fuel with
       | 0%nat => None
       | S fuel =>
           let add s := advance (addCommentLiteralChar (m_char s) s) in
           if isLineTerminator (m_char s) then
             '(_, s) ← skipWhitespace s;
             if negb (isPastEndOfInput 3 s) && (get 0 s =? 47) && (get 1 s =? 47) && (get 2 s =? 47)
             then doc_line_loop fuel (add (advanceAndGet 3 (addCommentLiteralChar 10 s)))
             else Some s
           else doc_line_loop fuel (add s)
       end.
Definition scanSingleLineDocComment (s : Scanner) : option (Token.Value * Scanner) :=
  s ← skipWhitespaceExceptLF (advance (clear_comment s));
  s ← doc_line_loop (rounds s) s; Some (Token.CommentLiteral, s).

Fixpoint block_loop (fuel : nat) (s : Scanner) : option (Token.Value * Scanner) :=
  if isPastEndOfInput 0 s then Some (Token.Illegal, s)
  else match fuel with
       | 0%nat => None
       | S fuel =>
           let ch := m_char s in
           let s := advance s in
           if (ch =? 42) && (m_char s =? 47) then Some (Token.Whitespace, set_stream (m_position s) 32 s) else block_loop fuel s
       end.
Definition skipMultiLineComment (s : Scanner) : option (Token.Value * Scanner) := let s := advance s in block_loop (rounds s) s.

(** A newline in a documentation comment: whether the comment ends behind it. *)
Definition doc_newline (charsAdded : bool) (s : Scanner) : option (bool * Scanner) :=
  '(_, s) ← skipWhitespace s;
  let two := negb (isPastEndOfInput 1 s) && (get 0 s =? 42) in
  if two && (get 1 s =? 42) then Some (false, advance (addCommentLiteralChar 42 s))
  else if two && negb (get 1 s =? 47) then Some (false, advanceAndGet 2 (if charsAdded then addCommentLiteralChar 10 s else s))
  else if two && (get 1 s =? 47) then Some (true, advanceAndGet 2 s)
  else Some (false, if charsAdded then addCommentLiteralChar 10 s else s).

Fixpoint doc_block_loop (fuel : nat) (charsAdded : bool) (s : Scanner) : option (bool * Scanner) :=
  if isPastEndOfInput 0 s then Some (false, s)
  else match fuel with
       | 0%nat => None
       | S fuel =>
           '(ends, s) ← (if isLineTerminator (m_char s) then doc_newline charsAdded s else Some (false, s));
           if (ends : bool) then Some (true, s)
           else if negb (isPastEndOfInput 1 s) && (get 0 s =? 42) && (get 1 s =? 47) then Some (true, advanceAndGet 2 s)
           else doc_block_loop fuel true (advance (addCommentLiteralChar (m_char s) s))
       end.
Definition scanMultiLineDocComment (s : Scanner) : option (Token.Value * Scanner) :=
  '(endFound, s) ← doc_block_loop (rounds s) false (clear_comment s);
  Some (if (endFound : bool) then Token.CommentLiteral else Token.Illegal, s).

(** What [scanSlash] keeps of a documentation comment. *)
Definition set_comment_desc (start : nat) (t : Token.Value) (s : Scanner) : Scanner :=
  set_comment (mkDesc t start (m_position s) (literal (m_nextSkippedComment s)) (extendedTokenInfo (m_nextSkippedComment s))) s.

Definition scanSlash (s : Scanner) : option (Token.Value * Scanner) :=
  let firstSlashPosition := m_position s in
  let s := advance s in
  if m_char s =? 47 then
    let s := advance s in
    if isPastEndOfInput 0 s then Some (Token.Whitespace, s)
    else if m_char s =? 47 then
      '(comment, s) ← scanSingleLineDocComment s; Some (Token.Whitespace, set_comment_desc firstSlashPosition comment s)
    else skipSingleLineComment s
  else if m_char s =? 42 then
    let s := advance s in
    if isPastEndOfInput 0 s then Some (Token.Whitespace, s)
    else if m_char s =? 42 then
      s ← skipWhitespaceExceptLF (advance s);
      if negb (isPastEndOfInput 0 s) && (get 0 s =? 47) then Some (Token.Whitespace, advance s)
      else '(comment, s) ← scanMultiLineDocComment s; Some (Token.Whitespace, set_comment_desc firstSlashPosition comment s)
    else skipMultiLineComment s
  else if m_char s =? 61 then Some (Token.AssignDiv, advance s)
  else Some (Token.Div, s).

(** ** Strings *)

(** The loop of [scanHexByte] and [scanUnicode], [i] digits read and [n] to come. *)
Fixpoint scan_hex (n i : nat) (w x : Z) (s : Scanner) : option (option Z * Scanner) :=
  match n with
  | 0%nat => Some (Some x, s)
  | S n =>
      let d := hexValue (m_char s) in
      if d <? 0 then s ← rollback i s; Some (None, s) else scan_hex n (S i) w (wrap w (x * 16 + d)) (advance s)
  end.
Definition scanHexByte (s : Scanner) : option (option Z * Scanner) := scan_hex 2 0 8 0 s.
Definition scanUnicode (s : Scanner) : option (option Z * Scanner) := scan_hex 4 0 32 0 s.

(** The character that an escape sequence of one character stands for. *)
Definition escaped (c : Z) : Z :=
  if c =? 98 then 8 else if c =? 102 then 12 else if c =? 110 then 10 else if c =? 114 then 13
  else if c =? 116 then 9 else if c =? 118 then 11 else c.

Definition scanEscape (s : Scanner) : option (bool * Scanner) :=
  let c := m_char s in
  let s := advance s in
  if isLineTerminator c then Some (true, s)
  else if c =? 117 then
    '(codepoint, s) ← scanUnicode s;
    match codepoint with Some codepoint => Some (true, addUnicodeAsUTF8 codepoint s) | None => Some (false, s) end
  else if c =? 120 then
    '(c, s) ← scanHexByte s; match c with Some c => Some (true, addLiteralChar c s) | None => Some (false, s) end
  else Some (true, addLiteralChar (escaped c) s).

(** The loop over the characters of a string; [false] where it returns [Token::Illegal]. *)
Fixpoint string_loop (fuel : nat) (quote : Z) (s : Scanner) : option (bool * Scanner) :=
  if negb (m_char s =? quote) && negb (isPastEndOfInput 0 s) && negb (isLineTerminator (m_char s)) then
    match fuel with
    | 0%nat => None
    | S fuel =>
        let c := m_char s in
        let s := advance s in
        if c =? 92 then
          if isPastEndOfInput 0 s then Some (false, s)
          else '(ok, s) ← scanEscape s; if (ok : bool) then string_loop fuel quote s else Some (false, s)
        else string_loop fuel quote (addLiteralChar c s)
    end
  else Some (true, s).
Fixpoint hex_string_loop (fuel : nat) (quote : Z) (s : Scanner) : option (bool * Scanner) :=
  if negb (m_char s =? quote) && negb (isPastEndOfInput 0 s) && negb (isLineTerminator (m_char s)) then
    match fuel with
    | 0%nat => None
    | S fuel => '(c, s) ← scanHexByte s; match c with Some c => hex_string_loop fuel quote (addLiteralChar c s) | None => Some (false, s) end
    end
  else Some (true, s).

(** The end of [scanString] and [scanHexString]: a literal that is not complete is dropped. *)
Definition finish_string (quote : Z) (r : bool * Scanner) : Token.Value * Scanner :=
  let '(ok, s) := r in
  if negb ok || negb (m_char s =? quote) then (Token.Illegal, clear_literal s) else (Token.StringLiteral, advance s).
Definition scanString (s : Scanner) : option (Token.Value * Scanner) :=
  let quote := m_char s in
  let s := clear_literal (advance s) in
  r ← string_loop (rounds s) quote s; Some (finish_string quote r).
Definition scanHexString (s : Scanner) : option (Token.Value * Scanner) :=
  let quote := m_char s in
  let s := clear_literal (advance s) in
  r ← hex_string_loop (rounds s) quote s; Some (finish_string quote r).

(** ** Numbers and identifiers *)

(** [scanNumber] from the exponent on. *)
Definition finish_number (s : Scanner) : Token.Value * Scanner :=
  if isdigit (m_char s) || isIdentifierStart (m_char s) then (Token.Illegal, clear_literal s) else (Token.Number, s).
Definition scan_exponent (hex : bool) (s : Scanner) : option (Token.Value * Scanner) :=
  if (m_char s =? 101) || (m_char s =? 69) then
    if hex then None
    else
      let s := addLiteralCharAndAdvance s in
      let s := if (m_char s =? 43) || (m_char s =? 45) then addLiteralCharAndAdvance s else s in
      if isdigit (m_char s) then s ← scanDecimalDigits s; Some (finish_number s) else Some (Token.Illegal, clear_literal s)
  else Some (finish_number s).

(** Decimal digits and a fraction. *)
Definition scan_decimal (s : Scanner) : option (Token.Value * Scanner) :=
  s ← scanDecimalDigits s;
  s ← (if m_char s =? 46 then scanDecimalDigits (addLiteralCharAndAdvance s) else Some s);
  scan_exponent false s.

Definition scanNumber (periodSeen : bool) (s : Scanner) : option (Token.Value * Scanner) :=
  let s := clear_literal s in
  if periodSeen then s ← scanDecimalDigits (addLiteralChar 46 s); scan_exponent false s
  else if m_char s =? 48 then
    let s := addLiteralCharAndAdvance s in
    if (m_char s =? 120) || (m_char s =? 88) then
      let s := addLiteralCharAndAdvance s in
      if isHexDigit (m_char s) then
        s ← while_ (rounds s) (fun s => isHexDigit (m_char s)) addLiteralCharAndAdvance s; scan_exponent true s
      else Some (Token.Illegal, clear_literal s)
    else if isdigit (m_char s) then Some (Token.Illegal, clear_literal s)
    else scan_decimal s
  else scan_decimal s.

Section Scan.
Context `{!LexicalCast}.

Definition scanIdentifierOrKeyword (s : Scanner) : option (Token.Value * Z * Z * Scanner) :=
  if isIdentifierStart (m_char s) then
    let s := addLiteralCharAndAdvance (clear_literal s) in
    s ← while_ (rounds s) (fun s => isIdentifierPart (m_char s)) addLiteralCharAndAdvance s;
    Some (fromIdentifierOrKeyword (literal (m_nextToken s)), s)
  else None.

(** ** Tokens *)

(** An operator: one of the alternatives if the next character continues it. *)
Definition selectToken (alternatives : list (Z * Token.Value)) (otherwise : Token.Value) (s : Scanner) : Token.Value * Scanner :=
  let s := advance s in
  match List.find (fun a => a.1 =? m_char s) alternatives with Some (_, t) => (t, advance s) | None => (otherwise, s) end.

(** The tokens of one character. *)
Definition punctuator (c : Z) : option Token.Value :=
  snd <$> List.find (fun p : Z * Token.Value => p.1 =? c)
    [(10, Token.Whitespace); (32, Token.Whitespace); (9, Token.Whitespace); (58, Token.Colon); (59, Token.Semicolon); (44, Token.Comma);
     (40, Token.LParen); (41, Token.RParen); (91, Token.LBrack); (93, Token.RBrack); (123, Token.LBrace); (125, Token.RBrace);
     (63, Token.Conditional); (126, Token.BitNot)].

(** The operators, but for those that start with a slash or a period. *)
Definition scan_operator (s : Scanner) : option (Token.Value * Scanner) :=
  let c := m_char s in
  if c =? 60 then
    let s1 := advance s in
    Some (if m_char s1 =? 61 then (Token.LessThanOrEqual, advance s1)
          else if m_char s1 =? 60 then selectToken [(61, Token.AssignShl)] Token.SHL s1 else (Token.LessThan, s1))
  else if c =? 62 then
    let s1 := advance s in
    Some (if m_char s1 =? 61 then (Token.GreaterThanOrEqual, advance s1)
          else if m_char s1 =? 62 then
            let s2 := advance s1 in
            if m_char s2 =? 61 then (Token.AssignSar, advance s2)
            else if m_char s2 =? 62 then selectToken [(61, Token.AssignShr)] Token.SHR s2 else (Token.SAR, s2)
          else (Token.GreaterThan, s1))
  else if c =? 61 then Some (selectToken [(61, Token.Equal); (62, Token.Arrow)] Token.Assign s)
  else if c =? 33 then Some (selectToken [(61, Token.NotEqual)] Token.Not s)
  else if c =? 43 then Some (selectToken [(43, Token.Inc); (61, Token.AssignAdd)] Token.Add s)
  else if c =? 45 then Some (selectToken [(45, Token.Dec); (61, Token.AssignSub)] Token.Sub s)
  else if c =? 42 then Some (selectToken [(42, Token.Exp); (61, Token.AssignMul)] Token.Mul s)
  else if c =? 37 then Some (selectToken [(61, Token.AssignMod)] Token.Mod s)
  else if c =? 38 then Some (selectToken [(38, Token.And); (61, Token.AssignBitAnd)] Token.BitAnd s)
  else if c =? 124 then Some (selectToken [(124, Token.Or); (61, Token.AssignBitOr)] Token.BitOr s)
  else if c =? 94 then Some (selectToken [(61, Token.AssignBitXor)] Token.BitXor s)
  else None.

(** The default case: identifiers, numbers, white space, the end of the input and illegal characters. *)
Definition scan_default (s : Scanner) : option (Token.Value * option (Z * Z) * Scanner) :=
  if isIdentifierStart (m_char s) then
    '(t, m, n, s) ← scanIdentifierOrKeyword s;
    if bool_decide (t = Token.Hex) then
      if (m_char s =? 34) || (m_char s =? 39) then '(t, s) ← scanHexString s; Some (t, Some (0, 0), s)
      else Some (Token.Illegal, Some (0, 0), s)
    else Some (t, Some (m, n), s)
  else if isdigit (m_char s) then '(t, s) ← scanNumber false s; Some (t, None, s)
  else
    '(skipped, s) ← skipWhitespace s;
    if (skipped : bool) then Some (Token.Whitespace, None, s)
    else if isPastEndOfInput 0 s then Some (Token.EOS, None, s)
    else Some (Token.Illegal, None, advance s).

(** One round of the loop of [scanToken]. *)
Definition scan_round (s : Scanner) : option (Token.Value * option (Z * Z) * Scanner) :=
  let plain (r : Token.Value * Scanner) := (r.1, None, r.2) in
  if (m_char s =? 34) || (m_char s =? 39) then plain <$> scanString s
  else if m_char s =? 47 then plain <$> scanSlash s
  else if m_char s =? 46 then
    let s := advance s in
    if isdigit (m_char s) then plain <$> scanNumber true s else Some (Token.Period, None, s)
  else
    match punctuator (m_char s), scan_operator s with
    | Some t, _ => Some (t, None, advance s)
    | None, Some r => Some (plain r)
    | None, None => scan_default s
    end.

Fixpoint token_loop (fuel : nat) (s : Scanner) : option Scanner :=
  match fuel with
  | 0%nat => None
  | S fuel =>
      let start := m_position s in
      '(t, info, s) ← scan_round s;
      if bool_decide (t = Token.Whitespace) then token_loop fuel s
      else Some (set_next (mkDesc t start (m_position s) (literal (m_nextToken s)) info) s)
  end.
Definition clear_desc (d : TokenDesc) : TokenDesc := mkDesc (token d) (loc_start d) (loc_end d) [] (Some (0, 0)).
Definition scanToken (s : Scanner) : option Scanner :=
  token_loop (2 + length (m_source s)) (set_comment (clear_desc (m_nextSkippedComment s)) (set_next (clear_desc (m_nextToken s)) s)).

(** [next] and [reset]. *)
Definition next (s : Scanner) : option Scanner :=
  scanToken (mkScanner (m_source s) (m_position s) (m_char s) (m_nextToken s) (m_nextSkippedComment s) (m_nextToken s) (m_nextSkippedComment s)).
Definition reset (source : list Z) (s : Scanner) : option Scanner :=
  let s := mkScanner source 0 0 (m_nextToken s) (m_nextSkippedComment s) (m_currentToken s) (m_skippedComment s) in
  '(_, s) ← skipWhitespace (set_stream 0 (get 0 s) s); s ← scanToken s; next s.

(** All tokens of a source, by calling [next] until the end. *)
Fixpoint tokens_from (fuel : nat) (s : Scanner) : option (list TokenDesc) :=
  let d := m_currentToken s in
  if bool_decide (token d = Token.EOS) then Some [d]
  else match fuel with
       | 0%nat => None
       | S fuel => s ← next s; l ← tokens_from fuel s; Some (d :: l)
       end.
Definition tokens (source : list Z) (s : Scanner) : option (list TokenDesc) := s ← reset source s; tokens_from (length source) s.
End Scan.

(** ** Lines *)

(** [rfind(c, pos)]: the last place at or before [pos]; [find(c, pos)]: the first one at or behind it. *)
Definition rfind (c : Z) (l : list Z) (pos : nat) : option nat :=
  last (List.filter (fun i => default (-1) (l !! i) =? c) (seq 0 (S pos))).
Definition find_from (c : Z) (l : list Z) (pos : nat) : option nat := (fun i => (pos + i)%nat) <$> indexOf c (drop pos l).

(** A position that is negative is converted to one behind the end. *)
Definition searchPosition (source : list Z) (position : Z) : nat :=
  if position <? 0 then length source else Nat.min (length source) (Z.to_nat position).

Definition lineAtPosition (source : list Z) (position : Z) : list Z :=
  let searchStart := (searchPosition source position - 1)%nat in
  let lineStart := match rfind 10 source searchStart with Some i => S i | None => 0%nat end in
  let lineEnd := Nat.min (default (length source) (find_from 10 source lineStart)) (length source) in
  take (lineEnd - lineStart) (drop lineStart source).

Definition translatePositionToLineColumn (source : list Z) (position : Z) : nat * nat :=
  let p := searchPosition source position in
  let lineNumber := length (List.filter (fun c => c =? 10) (take p source)) in
  let lineStart := match p with 0%nat => 0%nat | S p => match rfind 10 source p with Some i => S i | None => 0%nat end end in
  (lineNumber, (p - lineStart)%nat).

(** ** Every scan ends *)

(** The position is inside of the source, and there is no character at its end. *)
Definition wf (s : Scanner) : Prop :=
  (m_position s <= length (m_source s))%nat /\ (isPastEndOfInput 0 s = true -> m_char s = 0).

(** [s'] is reached from [s] by reading on; [moves] if something was read. *)
Definition steps (s s' : Scanner) : Prop :=
  wf s' /\ m_source s' = m_source s /\ (m_position s <= m_position s')%nat /\ m_currentToken s' = m_currentToken s.
Definition moves (s s' : Scanner) : Prop := steps s s' /\ (m_position s < m_position s')%nat.

Lemma steps_refl s : wf s -> steps s s.
Proof. by intros Hw. Qed.
Lemma steps_wf s s' : steps s s' -> wf s'.
Proof. by intros []. Qed.
Lemma steps_trans s s1 s2 : steps s s1 -> steps s1 s2 -> steps s s2.
Proof. intros (_ & E1 & L1 & C1) (W & E2 & L2 & C2). split_and!; [done | congruence | lia | congruence]. Qed.
Lemma moves_steps s s' : moves s s' -> steps s s'.
Proof. by intros []. Qed.
Lemma moves_trans_l s s1 s2 : moves s s1 -> steps s1 s2 -> moves s s2.
Proof. intros [H1 H2] H3. split; [by eapply steps_trans | destruct H3 as (_ & _ & H3 & _); lia]. Qed.
Lemma moves_trans_r s s1 s2 : steps s s1 -> moves s1 s2 -> moves s s2.
Proof. intros H1 [H2 H3]. split; [by eapply steps_trans | destruct H1 as (_ & _ & H1 & _); lia]. Qed.

Lemma past_spec n s : isPastEndOfInput n s = true <-> (length (m_source s) <= m_position s + n)%nat.
Proof. apply Nat.leb_le. Qed.
Lemma wf_char s : wf s -> m_char s <> 0 -> isPastEndOfInput 0 s = false.
Proof. intros [_ Hw] Hc. destruct (isPastEndOfInput 0 s); [by destruct Hc; apply Hw | done]. Qed.

Lemma advanceAndGet_moves n s : wf s -> (0 < n)%nat -> (m_position s + n <= length (m_source s))%nat ->
  moves s (advanceAndGet n s).
Proof.
  intros [Hp Hw] Hn Hl. unfold advanceAndGet.
  destruct (isPastEndOfInput 0 s) eqn:E; [apply past_spec in E; lia |]. cbv zeta. destruct (isPastEndOfInput 0 (set_stream _ _ _)) eqn:E1.
  all: split; [split_and! |]; cbn; try done; try lia.
  split; [cbn; lia |]. intros E2. unfold isPastEndOfInput in *. cbn in *. congruence.
Qed.
Lemma advance_steps s : wf s -> steps s (advance s).
Proof.
  intros Hw. destruct (isPastEndOfInput 0 s) eqn:E.
  - unfold advance, advanceAndGet. rewrite E. destruct Hw as [Hp _]. by split_and!.
  - apply moves_steps, advanceAndGet_moves; [done | lia |]. apply Nat.leb_gt in E. destruct Hw. lia.
Qed.
Lemma advance_moves s : wf s -> isPastEndOfInput 0 s = false -> moves s (advance s).
Proof. intros Hw E. apply advanceAndGet_moves; [done | lia |]. apply Nat.leb_gt in E. destruct Hw. lia. Qed.

(** Writing to the buffers. *)
Lemma set_next_steps s d : wf s -> steps s (set_next d s).
Proof. done. Qed.
Lemma set_comment_steps s d : wf s -> steps s (set_comment d s).
Proof. done. Qed.
Lemma addUnicode_steps c s : wf s -> steps s (addUnicodeAsUTF8 c s).
Proof. intros Hw. unfold addUnicodeAsUTF8, utf8_bytes. repeat case_match; done. Qed.
Lemma add_moves s : wf s -> isPastEndOfInput 0 s = false -> moves s (addLiteralCharAndAdvance s).
Proof. intros Hw E. apply (advance_moves (addLiteralChar (m_char s) s)); done. Qed.
Lemma add_steps s : wf s -> steps s (addLiteralCharAndAdvance s).
Proof. intros Hw. apply (advance_steps (addLiteralChar (m_char s) s)). done. Qed.

(** A loop whose body reads on ends. *)
Definition left_ (s : Scanner) : nat := length (m_source s) - m_position s.
Lemma while_total test body fuel s : wf s -> (forall s, wf s -> test s = true -> moves s (body s)) -> (left_ s <= fuel)%nat ->
  exists s', while_ fuel test body s = Some s' /\ steps s s' /\ test s' = false /\ (test s = true -> moves s s').
Proof.
  intros Hw Hb. revert s Hw. induction fuel as [| fuel IH]; intros s Hw Hl; cbn [while_]; destruct (test s) eqn:E.
  - destruct (Hb s Hw E) as [(Hw' & E1 & _) H1]. destruct Hw' as [Hp _]. unfold left_ in Hl. rewrite E1 in Hp. lia.
  - exists s. split_and!; [done | by apply steps_refl | done | done].
  - pose proof (Hb s Hw E) as Hm. destruct (IH (body s)) as (s' & Hs' & H1 & H2 & _).
    + apply Hm.
    + destruct Hm as [(_ & E1 & _) H1]. unfold left_ in *. rewrite E1. lia.
    + exists s'. split_and!; [done | | done | intros _; by eapply moves_trans_l]. eapply steps_trans; [by apply moves_steps | done].
  - exists s. split_and!; [done | by apply steps_refl | done | done].
Qed.
Lemma left_rounds s : (left_ s <= rounds s)%nat.
Proof. unfold left_. lia. Qed.

Lemma test_moves (test : Z -> bool) s : wf s -> test 0 = false -> test (m_char s) = true ->
  moves s (advance s) /\ moves s (addLiteralCharAndAdvance s).
Proof.
  intros Hw H0 Ht. assert (m_char s <> 0) by congruence. split; [apply advance_moves | apply add_moves]; auto using wf_char.
Qed.

Lemma skipWhitespace_total s : wf s -> exists b s', skipWhitespace s = Some (b, s') /\ steps s s' /\ isWhiteSpace (m_char s') = false /\
  (b = true -> moves s s') /\ (b = false -> s' = s).
Proof.
  intros Hw. unfold skipWhitespace.
  destruct (while_total (fun s => isWhiteSpace (m_char s)) advance (rounds s) s Hw) as (s' & Hs' & H1 & H2 & H3);
    [intros s1 Hw1 Ht; by apply (test_moves isWhiteSpace) | apply left_rounds |].
  rewrite Hs'. cbn [mbind option_bind]. eexists _, s'. split; [done |]. destruct (isWhiteSpace (m_char s)) eqn:E.
  - specialize (H3 eq_refl). split_and!; [done | done | done |]. destruct H3 as [_ H3]. destruct (Nat.eqb_spec (m_position s') (m_position s)); [lia | done].
  - cbn [while_] in Hs'. rewrite E in Hs'. injection Hs' as <-. rewrite Nat.eqb_refl. split_and!; done.
Qed.
Lemma skipWhitespaceExceptLF_total s : wf s -> exists s', skipWhitespaceExceptLF s = Some s' /\ steps s s'.
Proof.
  intros Hw. unfold skipWhitespaceExceptLF.
  destruct (while_total (fun s => isWhiteSpace (m_char s) && negb (isLineTerminator (m_char s))) advance (rounds s) s Hw) as (s' & Hs' & H1 & _);
    [| apply left_rounds | by exists s'].
  intros s1 Hw1 Ht. by apply (test_moves (fun c => isWhiteSpace c && negb (isLineTerminator c))).
Qed.
Lemma add_while_total (test : Z -> bool) s : wf s -> test 0 = false ->
  exists s', while_ (rounds s) (fun s => test (m_char s)) addLiteralCharAndAdvance s = Some s' /\ steps s s' /\ test (m_char s') = false /\
  (test (m_char s) = true -> moves s s').
Proof.
  intros Hw H0. destruct (while_total (fun s => test (m_char s)) addLiteralCharAndAdvance (rounds s) s Hw) as (s' & H1);
    [| apply left_rounds | by exists s']. intros s1 Hw1 Ht. by apply (test_moves test).
Qed.
Lemma scanDecimalDigits_total s : wf s -> exists s', scanDecimalDigits s = Some s' /\ steps s s' /\ isdigit (m_char s') = false /\
  (isdigit (m_char s) = true -> moves s s').
Proof. intros Hw. by apply (add_while_total isdigit). Qed.

(** Comments. *)
Lemma line_loop_total fuel s : wf s -> (left_ s < fuel)%nat -> exists s', line_loop fuel s = Some s' /\ steps s s'.
Proof.
  revert s. induction fuel as [| fuel IH]; intros s Hw Hl; [lia |]. cbn [line_loop].
  destruct (isLineTerminator (m_char s)); [exists s; split; [done | by apply steps_refl] |].
  pose proof (advance_steps s Hw) as Hs. destruct (isPastEndOfInput 0 (advance s)) eqn:E; [by exists (advance s) |].
  destruct (isPastEndOfInput 0 s) eqn:E0.
  { exfalso. apply past_spec in E0. apply Nat.leb_gt in E. destruct Hs as (_ & E1 & L & _). rewrite E1 in E. lia. }
  destruct (advance_moves s Hw E0) as [_ Hm]. destruct (IH (advance s)) as (s' & Hs' & H1); [apply Hs | | exists s'; split; [done |]].
  - unfold left_ in *. destruct Hs as (_ & -> & _). apply Nat.leb_gt in E0. lia.
  - by eapply steps_trans.
Qed.

(** The rest of a loop after a round that reads on. *)
Lemma moves_left s s' : moves s s' -> (left_ s' < left_ s)%nat.
Proof. intros [([Hp _] & E & _) Hm]. unfold left_. rewrite E in *. lia. Qed.
Lemma steps_left s s' : steps s s' -> (left_ s' <= left_ s)%nat.
Proof. intros (_ & E & Hm & _). unfold left_. rewrite E in *. lia. Qed.
Lemma steps_past s s' : steps s s' -> isPastEndOfInput 0 s = true -> isPastEndOfInput 0 s' = true.
Proof. intros (_ & E & Hm & _) Hp. apply past_spec in Hp. apply past_spec. rewrite E. lia. Qed.
Lemma past_left s : wf s -> isPastEndOfInput 0 s = true <-> left_ s = 0%nat.
Proof. intros [Hp _]. rewrite past_spec. unfold left_. lia. Qed.

(** Adding a character of a comment reads on, unless there is nothing left. *)
Lemma add_comment_left s c : wf s -> steps s (advance (addCommentLiteralChar c s)) /\
  (left_ (advance (addCommentLiteralChar c s)) = 0%nat \/ left_ (advance (addCommentLiteralChar c s)) < left_ s)%nat.
Proof.
  intros Hw. assert (Hw' : wf (addCommentLiteralChar c s)) by done. split; [by apply (advance_steps (addCommentLiteralChar c s)) |].
  destruct (isPastEndOfInput 0 (addCommentLiteralChar c s)) eqn:E.
  - left. apply past_left; [by apply advance_steps |]. eapply steps_past; [by apply advance_steps | done].
  - right. apply (moves_left (addCommentLiteralChar c s)). by apply advance_moves.
Qed.

Lemma doc_line_total fuel s : wf s -> (left_ s <= fuel)%nat -> exists s', doc_line_loop fuel s = Some s' /\ steps s s'.
Proof.
  revert s. induction fuel as [| fuel IH]; intros s Hw Hl; cbn [doc_line_loop].
  all: destruct (isPastEndOfInput 0 s) eqn:E; [exists s; split; [done | by apply steps_refl] |].
  - exfalso. assert (left_ s = 0%nat) by lia. apply past_left in H; [congruence | done].
  - assert (Hn : left_ s <> 0%nat) by (intros E0; apply past_left in E0; [congruence | done]).
    destruct (isLineTerminator (m_char s)) eqn:El.
    + destruct (skipWhitespace_total s Hw) as (b & s1 & -> & H1 & _). cbn [mbind option_bind]. cbv zeta.
      destruct (negb _ && _ && _ && _) eqn:E3; [| by exists s1].
      assert (Hm : moves (addCommentLiteralChar 10 s1) (advanceAndGet 3 (addCommentLiteralChar 10 s1))).
      { apply advanceAndGet_moves; [apply H1 | lia |]. rewrite !andb_true_iff, negb_true_iff in E3. destruct E3 as [[[E3 _] _] _].
        apply Nat.leb_gt in E3. change (m_position s1 + 3 <= length (m_source s1))%nat. lia. }
      set (s2 := advanceAndGet 3 _) in *. destruct (add_comment_left s2 (m_char s2)) as [H2 _]; [apply Hm |].
      assert (H3 : steps s s2) by (eapply steps_trans; [exact H1 |]; eapply steps_trans; [by apply (set_comment_steps s1); apply H1 | by apply moves_steps]).
      destruct (IH (advance (addCommentLiteralChar (m_char s2) s2))) as (s' & Hs' & H4); [apply H2 | |].
      { pose proof (moves_left _ _ Hm). pose proof (steps_left _ _ H2). pose proof (steps_left _ _ H1).
        change (left_ (addCommentLiteralChar 10 s1)) with (left_ s1) in *. lia. }
      exists s'. split; [done |]. eapply steps_trans; [exact H3 |]. by eapply steps_trans.
    + destruct (add_comment_left s (m_char s) Hw) as [H1 H2]. destruct (IH (advance (addCommentLiteralChar (m_char s) s))) as (s' & Hs' & H3);
        [apply H1 | lia |]. exists s'. split; [done | by eapply steps_trans].
Qed.

Lemma block_loop_total fuel s : wf s -> (left_ s <= fuel)%nat ->
  exists t s', block_loop fuel s = Some (t, s') /\ steps s s' /\ t <> Token.EOS.
Proof.
  revert s. induction fuel as [| fuel IH]; intros s Hw Hl; cbn [block_loop].
  all: destruct (isPastEndOfInput 0 s) eqn:E; [exists Token.Illegal, s; split_and!; [done | by apply steps_refl | done] |].
  - exfalso. assert (left_ s = 0%nat) by lia. apply past_left in H; [congruence | done].
  - pose proof (advance_moves s Hw E) as Hm. cbv zeta. destruct (_ && _) eqn:E2.
    + eexists _, _. split; [done |]. split; [| done]. apply andb_prop in E2 as [_ E2]. apply Z.eqb_eq in E2.
      destruct Hm as [(Hw' & E3 & L & C) _]. split_and!; [| done | done | done]. split; [apply Hw' |].
      intros Hp. change (isPastEndOfInput 0 (advance s) = true) in Hp. destruct Hw' as [_ Hw']. rewrite Hw' in E2 by done. done.
    + pose proof (moves_left _ _ Hm). destruct (IH (advance s)) as (t & s' & Hs' & H1 & H2); [apply Hm | lia |].
      exists t, s'. split_and!; [done | | done]. eapply steps_trans; [by apply moves_steps | done].
Qed.

Lemma two_moves s : wf s -> isPastEndOfInput 1 s = false -> moves s (advanceAndGet 2 s).
Proof. intros Hw E. apply Nat.leb_gt in E. apply advanceAndGet_moves; [done | lia | lia]. Qed.

Lemma doc_newline_total added s : wf s -> exists b s', doc_newline added s = Some (b, s') /\ steps s s'.
Proof.
  intros Hw. unfold doc_newline. destruct (skipWhitespace_total s Hw) as (b & s1 & -> & H1 & _). cbn [mbind option_bind]. cbv zeta.
  assert (Hw1 : wf s1) by apply H1.
  destruct (isPastEndOfInput 1 s1) eqn:E; cbn [negb andb].
  - eexists _, _. split; [done |]. destruct added; [| done]. eapply steps_trans; [exact H1 | by apply set_comment_steps].
  - assert (H2 : steps s (advance (addCommentLiteralChar 42 s1))) by (eapply steps_trans; [exact H1 | by apply add_comment_left]).
    assert (H3 : steps s (advanceAndGet 2 s1)) by (eapply steps_trans; [exact H1 | by apply moves_steps, two_moves]).
    assert (H4 : steps s (if added then addCommentLiteralChar 10 s1 else s1)) by (destruct added; [eapply steps_trans; [exact H1 | by apply set_comment_steps] | done]).
    assert (H5 : steps s (advanceAndGet 2 (if added then addCommentLiteralChar 10 s1 else s1))).
    { eapply steps_trans; [exact H4 |]. apply moves_steps, two_moves; [apply H4 | by destruct added]. }
    repeat case_match; eauto.
Qed.

Lemma doc_block_total fuel added s : wf s -> (left_ s <= fuel)%nat -> exists b s', doc_block_loop fuel added s = Some (b, s') /\ steps s s'.
Proof.
  revert added s. induction fuel as [| fuel IH]; intros added s Hw Hl; cbn [doc_block_loop].
  all: destruct (isPastEndOfInput 0 s) eqn:E; [exists false, s; split; [done | by apply steps_refl] |].
  - exfalso. assert (left_ s = 0%nat) by lia. apply past_left in H; [congruence | done].
  - assert (Hn : left_ s <> 0%nat) by (intros E0; apply past_left in E0; [congruence | done]).
    assert (exists b s1, (if isLineTerminator (m_char s) then doc_newline added s else Some (false, s)) = Some (b, s1) /\ steps s s1) as (b & s1 & -> & H1).
    { destruct (isLineTerminator (m_char s)); [by apply doc_newline_total |]. exists false, s. split; [done | by apply steps_refl]. }
    cbn [mbind option_bind]. destruct b; [by exists true, s1 |]. destruct (negb _ && _ && _) eqn:E2.
    + rewrite !andb_true_iff, negb_true_iff in E2. destruct E2 as [[E2 _] _]. eexists _, _. split; [done |].
      eapply steps_trans; [exact H1 | by apply moves_steps, two_moves; [apply H1 |]].
    + destruct (add_comment_left s1 (m_char s1)) as [H2 H3]; [apply H1 |]. pose proof (steps_left _ _ H1).
      destruct (IH true (advance (addCommentLiteralChar (m_char s1) s1))) as (b & s' & Hs' & H4); [apply H2 | lia |].
      exists b, s'. split; [done |]. eapply steps_trans; [exact H1 | by eapply steps_trans].
Qed.

(** The result of a scan: never the end of the input, and something was read. *)
Definition scans (s : Scanner) (r : option (Token.Value * Scanner)) : Prop :=
  exists t s', r = Some (t, s') /\ moves s s' /\ t <> Token.EOS.
Lemma scans_from s s1 t s' : moves s s1 -> steps s1 s' -> t <> Token.EOS -> scans s (Some (t, s')).
Proof. intros H1 H2 Ht. exists t, s'. split_and!; [done | by eapply moves_trans_l | done]. Qed.
Lemma clear_literal_steps s : wf s -> steps s (clear_literal s).
Proof. done. Qed.

Lemma doc_comments_total s start : wf s ->
  (exists s', ('(comment, s) ← scanSingleLineDocComment s; Some (Token.Whitespace, set_comment_desc start comment s)) = Some (Token.Whitespace, s') /\ steps s s') /\
  (exists s', ('(comment, s) ← scanMultiLineDocComment s; Some (Token.Whitespace, set_comment_desc start comment s)) = Some (Token.Whitespace, s') /\ steps s s').
Proof.
  intros Hw. split.
  - unfold scanSingleLineDocComment. assert (H0 : steps s (advance (clear_comment s))) by exact (steps_trans s (clear_comment s) _ (set_comment_steps s _ Hw) (advance_steps (clear_comment s) Hw)).
    destruct (skipWhitespaceExceptLF_total (advance (clear_comment s))) as (s1 & -> & H1); [apply H0 |]. cbn [mbind option_bind].
    destruct (doc_line_total (rounds s1) s1) as (s2 & -> & H2); [apply H1 | apply left_rounds |]. cbn [mbind option_bind].
    eexists. split; [done |]. eapply steps_trans; [| apply set_comment_steps; apply H2]. eapply steps_trans; [exact H0 | by eapply steps_trans].
  - unfold scanMultiLineDocComment. destruct (doc_block_total (rounds s) false (clear_comment s)) as (b & s1 & -> & H1); [done | exact (left_rounds s) |].
    cbn [mbind option_bind]. eexists. split; [done |]. eapply steps_trans; [| apply set_comment_steps; apply H1]. exact H1.
Qed.

Lemma scanSlash_total s : wf s -> m_char s = 47 -> scans s (scanSlash s).
Proof.
  intros Hw Hc. assert (H0 : moves s (advance s)) by (apply advance_moves; [done | apply wf_char; [done | by rewrite Hc]]).
  assert (Hw1 : wf (advance s)) by apply H0. assert (H1 : moves s (advance (advance s))) by (eapply moves_trans_l; [exact H0 | by apply advance_steps]).
  assert (Hw2 : wf (advance (advance s))) by apply H1. unfold scanSlash. cbv zeta. destruct (m_char (advance s) =? 47); [| destruct (m_char (advance s) =? 42)].
  - destruct (isPastEndOfInput 0 (advance (advance s))); [by exists Token.Whitespace, (advance (advance s)) |].
    destruct (m_char (advance (advance s)) =? 47).
    + destruct (doc_comments_total (advance (advance s)) (m_position s) Hw2) as [(s' & -> & H2) _]. by eapply scans_from.
    + unfold skipSingleLineComment. destruct (line_loop_total (rounds (advance (advance s))) (advance (advance s)) Hw2) as (s' & -> & H2);
        [unfold left_; lia |]. by eapply scans_from.
  - destruct (isPastEndOfInput 0 (advance (advance s))); [by exists Token.Whitespace, (advance (advance s)) |].
    destruct (m_char (advance (advance s)) =? 42).
    + destruct (skipWhitespaceExceptLF_total (advance (advance (advance s)))) as (s3 & -> & H3); [by apply advance_steps |]. cbn [mbind option_bind].
      assert (H4 : moves s s3) by (eapply moves_trans_l; [exact H1 |]; eapply steps_trans; [by apply advance_steps | done]).
      destruct (negb _ && _); [eapply scans_from; [exact H4 | apply advance_steps; apply H3 | done] |].
      destruct (doc_comments_total s3 (m_position s)) as [_ (s' & -> & H5)]; [apply H3 |]. by eapply scans_from.
    + unfold skipMultiLineComment. cbv zeta. destruct (block_loop_total (rounds (advance (advance (advance s)))) (advance (advance (advance s)))) as (t & s' & -> & H2 & Ht);
        [by apply advance_steps | apply left_rounds |]. eapply scans_from; [exact H1 | | done]. eapply steps_trans; [by apply advance_steps | done].
  - destruct (m_char (advance s) =? 61); [by exists Token.AssignDiv, (advance (advance s)) | by exists Token.Div, (advance s)].
Qed.

(** Strings. *)
Lemma advance_position s : isPastEndOfInput 0 s = false -> m_position (advance s) = S (m_position s).
Proof. intros E. unfold advance, advanceAndGet. rewrite E. cbv zeta. case_match; cbn; lia. Qed.
Lemma hexValue_char s : wf s -> 0 <= hexValue (m_char s) -> isPastEndOfInput 0 s = false.
Proof. intros Hw Hd. apply wf_char; [done |]. intros E. rewrite E in Hd. done. Qed.

Lemma rollback_total i s0 s : steps s0 s -> m_position s = (m_position s0 + i)%nat -> exists s', rollback i s = Some s' /\ steps s0 s'.
Proof.
  intros (Hw & E & L & C) Hp. unfold rollback. destruct (Nat.leb_spec i (m_position s)); [| lia]. eexists. split; [done |].
  destruct Hw as [Hw _]. split_and!; cbn; [| done | lia | done]. split; [cbn; lia |]. intros Hpast%past_spec. cbn in *.
  unfold get. rewrite lookup_ge_None_2; [done |]. cbn. lia.
Qed.

Lemma scan_hex_total n w x s0 s i : steps s0 s -> m_position s = (m_position s0 + i)%nat ->
  exists o s', scan_hex n i w x s = Some (o, s') /\ steps s0 s' /\ (is_Some o -> m_position s' = (m_position s + n)%nat).
Proof.
  revert i x s. induction n as [| n IH]; intros i x s Hs Hp; cbn [scan_hex].
  - exists (Some x), s. split_and!; [done | done | lia].
  - cbv zeta. destruct (Z.ltb_spec (hexValue (m_char s)) 0) as [Hd | Hd].
    + destruct (rollback_total i s0 s Hs Hp) as (s' & -> & H1). exists None, s'. split_and!; [done | done | by intros []].
    + assert (E : isPastEndOfInput 0 s = false) by (apply hexValue_char; [apply Hs | done]).
      pose proof (advance_position s E) as Hq. destruct (IH (S i) (wrap w (x * 16 + hexValue (m_char s))) (advance s)) as (o & s' & -> & H1 & H2).
      * eapply steps_trans; [exact Hs | apply advance_steps; apply Hs].
      * lia.
      * exists o, s'. split_and!; [done | done |]. intros Ho. rewrite H2, Hq by done. lia.
Qed.

Lemma scanEscape_total s : wf s -> exists b s', scanEscape s = Some (b, s') /\ steps s s'.
Proof.
  intros Hw. unfold scanEscape. cbv zeta. pose proof (advance_steps s Hw) as H0. assert (Hw1 : wf (advance s)) by apply H0.
  destruct (isLineTerminator _); [by eauto |]. destruct (m_char s =? 117); [| destruct (m_char s =? 120)].
  - destruct (scan_hex_total 4 32 0 (advance s) (advance s) 0) as (o & s' & E & H1 & _); [by apply steps_refl | lia |].
    unfold scanUnicode. rewrite E. cbn [mbind option_bind]. assert (H2 : steps s s') by (by eapply steps_trans).
    destruct o as [c |]; eexists _, _; (split; [done |]); [| done]. eapply steps_trans; [exact H2 | apply addUnicode_steps; apply H1].
  - destruct (scan_hex_total 2 8 0 (advance s) (advance s) 0) as (o & s' & E & H1 & _); [by apply steps_refl | lia |].
    unfold scanHexByte. rewrite E. cbn [mbind option_bind]. assert (H2 : steps s s') by (by eapply steps_trans).
    destruct o as [c |]; eexists _, _; (split; [done |]); [| done]. eapply steps_trans; [exact H2 | apply set_next_steps; apply H1].
  - eexists _, _. split; [done |]. eapply steps_trans; [exact H0 | by apply set_next_steps].
Qed.

Lemma string_loop_total fuel q s : wf s -> (left_ s <= fuel)%nat -> exists b s', string_loop fuel q s = Some (b, s') /\ steps s s'.
Proof.
  revert s. induction fuel as [| fuel IH]; intros s Hw Hl; cbn [string_loop].
  all: destruct (negb _ && _ && _) eqn:E; [| exists true, s; split; [done | by apply steps_refl]].
  all: rewrite !andb_true_iff, !negb_true_iff in E; destruct E as [[_ E] _].
  - exfalso. assert (H : left_ s = 0%nat) by lia. apply past_left in H; [congruence | done].
  - pose proof (advance_moves s Hw E) as Hm. pose proof (moves_left _ _ Hm) as Hlt. cbv zeta. assert (Hw1 : wf (advance s)) by apply Hm.
    destruct (m_char s =? 92).
    + destruct (isPastEndOfInput 0 (advance s)); [eexists _, _; split; [done | by apply moves_steps] |].
      destruct (scanEscape_total (advance s) Hw1) as (b & s1 & -> & H1). cbn [mbind option_bind]. pose proof (steps_left _ _ H1).
      assert (H2 : steps s s1) by (eapply steps_trans; [by apply moves_steps | done]). destruct b; [| by eauto].
      destruct (IH s1) as (b & s' & Hs' & H3); [apply H1 | lia |]. exists b, s'. split; [done | by eapply steps_trans].
    + assert (H1 : steps s (addLiteralChar (m_char s) (advance s))) by (eapply steps_trans; [by apply moves_steps | by apply set_next_steps]).
      destruct (IH (addLiteralChar (m_char s) (advance s))) as (b & s' & Hs' & H3); [done | |]. 
      { change (left_ (addLiteralChar (m_char s) (advance s))) with (left_ (advance s)). lia. }
      exists b, s'. split; [done | by eapply steps_trans].
Qed.
Lemma hex_string_loop_total fuel q s : wf s -> (left_ s <= fuel)%nat -> exists b s', hex_string_loop fuel q s = Some (b, s') /\ steps s s'.
Proof.
  revert s. induction fuel as [| fuel IH]; intros s Hw Hl; cbn [hex_string_loop].
  all: destruct (negb _ && _ && _) eqn:E; [| exists true, s; split; [done | by apply steps_refl]].
  all: rewrite !andb_true_iff, !negb_true_iff in E; destruct E as [[_ E] _].
  - exfalso. assert (H : left_ s = 0%nat) by lia. apply past_left in H; [congruence | done].
  - destruct (scan_hex_total 2 8 0 s s 0) as (o & s1 & Es & H1 & H2); [by apply steps_refl | lia |].
    unfold scanHexByte. rewrite Es. cbn [mbind option_bind]. destruct o as [c |]; [| by eauto].
    assert (Hm : moves s s1) by (split; [done | rewrite H2 by done; lia]). pose proof (moves_left _ _ Hm).
    destruct (IH (addLiteralChar c s1)) as (b & s' & Hs' & H3); [apply H1 | |].
    { change (left_ (addLiteralChar c s1)) with (left_ s1). lia. }
    exists b, s'. split; [done |]. eapply steps_trans; [exact H1 | eapply steps_trans; [apply set_next_steps; apply H1 | exact H3]].
Qed.

Lemma finish_string_scans s s1 q r : moves s s1 -> (exists b s2, r = Some (b, s2) /\ steps s1 s2) ->
  scans s (r ← r; Some (finish_string q r)).
Proof.
  intros H0 (b & s2 & -> & H1). cbn [mbind option_bind finish_string]. destruct (_ || _).
  - eapply scans_from; [exact H0 | | done]. eapply steps_trans; [exact H1 | apply clear_literal_steps; apply H1].
  - eapply scans_from; [exact H0 | | done]. eapply steps_trans; [exact H1 | apply advance_steps; apply H1].
Qed.
Lemma scanStrings_total s : wf s -> m_char s <> 0 -> scans s (scanString s) /\ scans s (scanHexString s).
Proof.
  intros Hw Hc. pose proof (advance_moves s Hw (wf_char s Hw Hc)) as Hm. assert (Hw1 : wf (clear_literal (advance s))) by apply Hm.
  assert (H1 : moves s (clear_literal (advance s))) by exact Hm. split; apply (finish_string_scans s (clear_literal (advance s))); try done.
  - apply string_loop_total; [done | apply left_rounds].
  - apply hex_string_loop_total; [done | apply left_rounds].
Qed.

(** Numbers. *)
Lemma finish_number_scans s s1 : moves s s1 -> scans s (Some (finish_number s1)).
Proof.
  intros H1. unfold finish_number. destruct (_ || _); (eapply scans_from; [exact H1 | | done]).
  - apply clear_literal_steps, H1.
  - apply steps_refl, H1.
Qed.
Lemma scan_exponent_scans s s1 (hex : bool) : moves s s1 -> (hex = true -> isHexDigit (m_char s1) = false) -> scans s (scan_exponent hex s1).
Proof.
  intros H1 Hh. unfold scan_exponent. destruct (_ || _) eqn:E; [| by apply finish_number_scans].
  destruct hex; [specialize (Hh eq_refl); unfold isHexDigit in Hh; lia |]. cbv zeta.
  set (s2 := addLiteralCharAndAdvance s1). assert (H2 : moves s s2) by (eapply moves_trans_l; [exact H1 | apply add_steps; apply H1]).
  set (s3 := if _ || _ then _ else s2). assert (H3 : moves s s3).
  { subst s3. destruct ((m_char s2 =? 43) || (m_char s2 =? 45)); [| done]. eapply moves_trans_l; [exact H2 | apply add_steps; apply H2]. }
  destruct (isdigit (m_char s3)).
  - destruct (scanDecimalDigits_total s3) as (s4 & -> & H4 & _); [apply H3 |]. apply finish_number_scans. by eapply moves_trans_l.
  - eapply scans_from; [exact H3 | apply clear_literal_steps; apply H3 | done].
Qed.
Lemma scan_decimal_scans s s1 : steps s s1 -> (moves s s1 \/ isdigit (m_char s1) = true) -> scans s (scan_decimal s1).
Proof.
  intros H1 Hm. unfold scan_decimal. destruct (scanDecimalDigits_total s1) as (s2 & -> & H2 & _ & H3); [apply H1 |]. cbn [mbind option_bind].
  assert (Hm2 : moves s s2) by (destruct Hm as [Hm | Hm]; [by eapply moves_trans_l | eapply moves_trans_r; [exact H1 | by apply H3]]).
  destruct (m_char s2 =? 46); [| apply scan_exponent_scans; done].
  assert (Hm3 : moves s (addLiteralCharAndAdvance s2)) by (eapply moves_trans_l; [exact Hm2 | apply add_steps; apply Hm2]).
  destruct (scanDecimalDigits_total (addLiteralCharAndAdvance s2)) as (s3 & -> & H4 & _); [apply Hm3 |]. cbn [mbind option_bind].
  apply scan_exponent_scans; [by eapply moves_trans_l | done].
Qed.

Lemma scanNumber_period s : wf s -> isdigit (m_char s) = true -> scans s (scanNumber true s).
Proof.
  intros Hw Hd. unfold scanNumber. cbv zeta. set (s1 := addLiteralChar 46 (clear_literal s)).
  destruct (scanDecimalDigits_total s1) as (s2 & -> & H2 & _ & H3); [done |]. cbn [mbind option_bind].
  apply scan_exponent_scans; [| done]. by apply H3.
Qed.
Lemma scanNumber_total s : wf s -> isdigit (m_char s) = true -> scans s (scanNumber false s).
Proof.
  intros Hw Hd. unfold scanNumber. cbv zeta. set (s1 := clear_literal s). assert (H1 : steps s s1) by by apply clear_literal_steps.
  destruct (m_char s1 =? 48) eqn:E0; [| apply scan_decimal_scans; [done | by right]].
  assert (H2 : moves s (addLiteralCharAndAdvance s1)).
  { apply (add_moves s1 (proj1 H1)). apply wf_char; [apply H1 |]. intros E. rewrite E in E0. done. }
  set (s2 := addLiteralCharAndAdvance s1) in *. destruct (_ || _).
  - assert (H3 : moves s (addLiteralCharAndAdvance s2)) by (eapply moves_trans_l; [exact H2 | apply add_steps; apply H2]).
    set (s3 := addLiteralCharAndAdvance s2) in *. destruct (isHexDigit (m_char s3)).
    + destruct (add_while_total isHexDigit s3) as (s4 & -> & H4 & H5 & _); [apply H3 | done |]. cbn [mbind option_bind].
      apply scan_exponent_scans; [by eapply moves_trans_l | done].
    + eapply scans_from; [exact H3 | apply clear_literal_steps; apply H3 | done].
  - destruct (isdigit (m_char s2)); [eapply scans_from; [exact H2 | apply clear_literal_steps; apply H2 | done] |].
    apply scan_decimal_scans; [by apply moves_steps | by left].
Qed.

(** Operators. *)
Lemma selectToken_steps alternatives otherwise s : wf s -> Forall (fun a => snd a <> Token.EOS) alternatives -> otherwise <> Token.EOS ->
  steps s (selectToken alternatives otherwise s).2 /\ (selectToken alternatives otherwise s).1 <> Token.EOS /\
  (m_char s <> 0 -> moves s (selectToken alternatives otherwise s).2).
Proof.
  intros Hw Ha Ho. unfold selectToken. cbv zeta. pose proof (advance_steps s Hw) as H1. assert (Hw1 : wf (advance s)) by apply H1.
  assert (Hm : m_char s <> 0 -> moves s (advance s)) by (intros Hc; apply advance_moves; auto using wf_char).
  destruct (List.find _ alternatives) as [[c t] |] eqn:E; cbn [fst snd]; [| done]. apply find_some in E as [Hin _].
  pose proof (proj1 (List.Forall_forall _ _) Ha _ Hin) as Ht. split_and!; [| done |].
  - eapply steps_trans; [exact H1 | by apply advance_steps].
  - intros Hc. eapply moves_trans_l; [by apply Hm | by apply advance_steps].
Qed.
Lemma selectToken_scans s alternatives otherwise s1 : moves s s1 -> Forall (fun a => snd a <> Token.EOS) alternatives -> otherwise <> Token.EOS ->
  scans s (Some (selectToken alternatives otherwise s1)).
Proof.
  intros H1 Ha Ho. destruct (selectToken_steps alternatives otherwise s1 (proj1 (proj1 H1)) Ha Ho) as (H2 & H3 & _).
  destruct (selectToken alternatives otherwise s1) as [t s2]. by eapply scans_from.
Qed.
Lemma select_scans s alternatives otherwise : wf s -> m_char s <> 0 -> Forall (fun a => snd a <> Token.EOS) alternatives -> otherwise <> Token.EOS ->
  scans s (Some (selectToken alternatives otherwise s)).
Proof.
  intros Hw Hc Ha Ho. destruct (selectToken_steps alternatives otherwise s Hw Ha Ho) as (_ & H2 & H3). specialize (H3 Hc).
  destruct (selectToken alternatives otherwise s) as [t s2]. by exists t, s2.
Qed.

Lemma scan_operator_scans s r : wf s -> scan_operator s = Some r -> scans s (Some r).
Proof.
  intros Hw. unfold scan_operator. cbv zeta. destruct (Z.eqb_spec (m_char s) 60) as [E | _]; [| destruct (Z.eqb_spec (m_char s) 62) as [E | _]].
  - assert (H1 : moves s (advance s)) by (apply advance_moves; [done | apply wf_char; [done | by rewrite E]]).
    assert (H2 : moves s (advance (advance s))) by (eapply moves_trans_l; [exact H1 | apply advance_steps; apply H1]).
    intros [= <-]. destruct (_ =? 61); [by exists Token.LessThanOrEqual, (advance (advance s)) |].
    destruct (_ =? 60); [apply selectToken_scans; [done | by repeat constructor | done] | by exists Token.LessThan, (advance s)].
  - assert (H1 : moves s (advance s)) by (apply advance_moves; [done | apply wf_char; [done | by rewrite E]]).
    assert (H2 : moves s (advance (advance s))) by (eapply moves_trans_l; [exact H1 | apply advance_steps; apply H1]).
    assert (H3 : moves s (advance (advance (advance s)))) by (eapply moves_trans_l; [exact H2 | apply advance_steps; apply H2]).
    intros [= <-]. destruct (_ =? 61); [by exists Token.GreaterThanOrEqual, (advance (advance s)) |].
    destruct (_ =? 62); [| by exists Token.GreaterThan, (advance s)].
    destruct (_ =? 61); [by exists Token.AssignSar, (advance (advance (advance s))) |].
    destruct (_ =? 62); [apply selectToken_scans; [done | by repeat constructor | done] | by exists Token.SAR, (advance (advance s))].
  - repeat match goal with
    | |- context [m_char s =? ?c] =>
        destruct (Z.eqb_spec (m_char s) c) as [E | _];
        [intros [= <-]; apply select_scans; [done | by rewrite E | by repeat constructor | done] |]
    end. done.
Qed.

Lemma punctuator_token c t : punctuator c = Some t -> c <> 0 /\ t <> Token.EOS.
Proof.
  unfold punctuator. destruct (List.find _ _) as [[c' t'] |] eqn:E; [| done]. intros [= <-].
  apply find_some in E as [Hin Hc]. cbn [fst] in Hc. apply Z.eqb_eq in Hc as ->. cbn in Hin.
  repeat (destruct Hin as [[= <- <-] | Hin]; [done |]). done.
Qed.

(** Identifiers and tokens. *)
Section Total.
Context `{!LexicalCast}.

Lemma scanIdentifier_total s : wf s -> isIdentifierStart (m_char s) = true ->
  exists t m n s', scanIdentifierOrKeyword s = Some (t, m, n, s') /\ moves s s' /\ t <> Token.EOS /\ t <> Token.Whitespace.
Proof.
  intros Hw Hc. unfold scanIdentifierOrKeyword. rewrite Hc. cbv zeta. set (s1 := addLiteralCharAndAdvance (clear_literal s)).
  assert (H1 : moves s s1) by (apply (test_moves isIdentifierStart (clear_literal s)); done).
  destruct (add_while_total isIdentifierPart s1) as (s2 & -> & H2 & _); [apply H1 | done |]. cbn [mbind option_bind].
  pose proof (from_visible (literal (m_nextToken s2))) as Hv. destruct (fromIdentifierOrKeyword _) as [[t m] n]. exists t, m, n, s2.
  split_and!; [done | by eapply moves_trans_l | by intros -> | by intros ->].
Qed.

(** The result of a round: something was read, or the end of the input is found. *)
Definition round_ok (s : Scanner) (r : option (Token.Value * option (Z * Z) * Scanner)) : Prop :=
  exists t info s', r = Some (t, info, s') /\
  (t <> Token.EOS /\ moves s s' \/ t = Token.EOS /\ steps s s' /\ m_position s' = m_position s /\ isPastEndOfInput 0 s' = true).

Lemma round_scans s r : scans s r -> round_ok s ((fun r : Token.Value * Scanner => (r.1, None, r.2)) <$> r).
Proof. intros (t & s' & -> & Hm & Ht). exists t, None, s'. split; [done | by left]. Qed.

Lemma scan_default_ok s : wf s -> round_ok s (scan_default s).
Proof.
  intros Hw. unfold scan_default. destruct (isIdentifierStart (m_char s)) eqn:Ei; [| destruct (isdigit (m_char s)) eqn:Ed].
  - destruct (scanIdentifier_total s Hw Ei) as (t & m & n & s1 & -> & Hm & Ht & _). cbn [mbind option_bind]. case_bool_decide.
    + destruct (_ || _) eqn:Eq; [| exists Token.Illegal, (Some (0, 0)), s1; split; [done | by left]].
      destruct (scanStrings_total s1) as [_ (t' & s2 & -> & Hm2 & Ht')]; [apply Hm | intros E; by rewrite E in Eq |]. cbn [mbind option_bind].
      exists t', (Some (0, 0)), s2. split; [done |]. left. split; [done |]. eapply moves_trans_l; [exact Hm | by apply moves_steps].
    + exists t, (Some (m, n)), s1. split; [done | by left].
  - destruct (scanNumber_total s Hw Ed) as (t & s1 & -> & Hm & Ht). exists t, None, s1. split; [done | by left].
  - destruct (skipWhitespace_total s Hw) as (b & s1 & -> & H1 & _ & H2 & H3). cbn [mbind option_bind]. destruct b.
    + exists Token.Whitespace, None, s1. split; [done |]. left. split; [done | by apply H2].
    + rewrite (H3 eq_refl) in *. destruct (isPastEndOfInput 0 s) eqn:E.
      * exists Token.EOS, None, s. split; [done |]. right. split_and!; try done.
      * exists Token.Illegal, None, (advance s). split; [done |]. left. split; [done | by apply advance_moves].
Qed.

Lemma scan_round_ok s : wf s -> round_ok s (scan_round s).
Proof.
  intros Hw. unfold scan_round. cbv zeta. destruct (_ || _) eqn:Eq; [| destruct (Z.eqb_spec (m_char s) 47) as [E | _]; [| destruct (Z.eqb_spec (m_char s) 46) as [E | _]]].
  - apply round_scans, scanStrings_total; [done |]. intros E. by rewrite E in Eq.
  - by apply round_scans, scanSlash_total.
  - assert (H1 : moves s (advance s)) by (apply advance_moves; [done | apply wf_char; [done | by rewrite E]]).
    destruct (isdigit (m_char (advance s))) eqn:Ed; [| exists Token.Period, None, (advance s); split; [done | by left]].
    apply round_scans. destruct (scanNumber_period (advance s)) as (t & s' & -> & Hm & Ht); [apply H1 | done |].
    exists t, s'. split_and!; [done | | done]. eapply moves_trans_l; [exact H1 | by apply moves_steps].
  - destruct (punctuator (m_char s)) as [t |] eqn:Ep.
    + apply punctuator_token in Ep as [Hc Ht]. exists t, None, (advance s). split; [done |]. left. split; [done |].
      apply advance_moves; auto using wf_char.
    + destruct (scan_operator s) as [r |] eqn:Eo; [| by apply scan_default_ok].
      by apply (round_scans s (Some r)), scan_operator_scans.
Qed.

(** What [scanToken] finds: a token behind what was read, and the end only at the end. *)
Definition found (from : nat) (s : Scanner) (d : TokenDesc) : Prop :=
  (from <= loc_start d)%nat /\ loc_end d = m_position s /\
  (token d = Token.EOS -> loc_start d = length (m_source s) /\ loc_end d = length (m_source s)) /\
  (token d <> Token.EOS -> loc_start d < loc_end d)%nat.

Lemma token_loop_total fuel s : wf s -> (left_ s < fuel)%nat ->
  exists s', token_loop fuel s = Some s' /\ steps s s' /\ found (m_position s) s' (m_nextToken s').
Proof.
  revert s. induction fuel as [| fuel IH]; intros s Hw Hl; [lia |]. cbn [token_loop].
  destruct (scan_round_ok s Hw) as (t & info & s1 & -> & Hr). cbn [mbind option_bind]. case_bool_decide as Ew.
  - destruct Hr as [[_ Hm] | [Ht _]]; [| congruence]. pose proof (moves_left _ _ Hm). destruct (IH s1) as (s' & Hs' & H1 & H2 & H3); [apply Hm | lia |].
    exists s'. split_and!; [done | eapply steps_trans; [by apply moves_steps | done] |]. split; [destruct Hm; lia | exact H3].
  - eexists. split; [done |]. assert (H1 : steps s s1) by (destruct Hr as [[_ Hm] | (_ & H1 & _)]; [by apply moves_steps | done]).
    split; [eapply steps_trans; [exact H1 | apply set_next_steps; apply H1] |]. unfold found. cbn. split_and!; [lia | done | |].
    + intros ->. destruct Hr as [[[] _] | (_ & _ & Hp & Hpast)]; [done |]. apply past_spec in Hpast. destruct H1 as [[Hq _] _]. lia.
    + intros Ht. destruct Hr as [[_ [_ Hm]] | [Ht' _]]; [done | congruence].
Qed.
Lemma scanToken_total s : wf s -> exists s', scanToken s = Some s' /\ steps s s' /\ found (m_position s) s' (m_nextToken s').
Proof. intros Hw. apply (token_loop_total _ (set_comment _ (set_next _ s))); [done |]. unfold left_. cbn. lia. Qed.

(** ** The tokens of a source *)

(** The tokens lie behind each other in the source, and the end comes last. *)
Fixpoint located (from : nat) (source : list Z) (l : list TokenDesc) : Prop :=
  match l with
  | [] => False
  | d :: l =>
      (from <= loc_start d)%nat /\
      match l with
      | [] => token d = Token.EOS /\ loc_start d = length source /\ loc_end d = length source
      | _ => token d <> Token.EOS /\ (loc_start d < loc_end d)%nat /\ located (loc_end d) source l
      end
  end.

(** A token at its place in the source. *)
Definition placed (from : nat) (source : list Z) (d : TokenDesc) : Prop :=
  (from <= loc_start d)%nat /\ (token d = Token.EOS -> loc_start d = length source /\ loc_end d = length source) /\
  (token d <> Token.EOS -> loc_start d < loc_end d)%nat.

Lemma next_total s : wf s -> exists s', next s = Some s' /\ wf s' /\ m_source s' = m_source s /\ m_currentToken s' = m_nextToken s /\
  placed (m_position s) (m_source s) (m_nextToken s') /\ loc_end (m_nextToken s') = m_position s'.
Proof.
  intros Hw. unfold next. set (s1 := mkScanner _ _ _ _ _ _ _). destruct (scanToken_total s1) as (s' & -> & (H1 & H2 & _ & H3) & F1 & F2 & F3 & F4); [exact Hw |].
  exists s'. rewrite H2 in F3. split_and!; try done.
Qed.

Lemma tokens_from_total fuel from s : wf s -> placed from (m_source s) (m_currentToken s) ->
  placed (loc_end (m_currentToken s)) (m_source s) (m_nextToken s) -> loc_end (m_nextToken s) = m_position s ->
  (token (m_currentToken s) = Token.EOS \/ length (m_source s) < fuel + loc_end (m_currentToken s))%nat ->
  exists l, tokens_from fuel s = Some l /\ located from (m_source s) l.
Proof.
  revert from s. induction fuel as [| fuel IH]; intros from s Hw (P1 & P2 & P3) Q Hn Hf; cbn [tokens_from].
  all: case_bool_decide as Ht; [eexists; split; [done |]; cbn [located]; split; [done |]; split; [done | by apply P2] |].
  all: destruct Hf as [Hf | Hf]; [done |].
  - exfalso. destruct Q as (Q1 & Q2 & Q3). destruct (decide (token (m_nextToken s) = Token.EOS)) as [E | E].
    + destruct (Q2 E). lia.
    + specialize (Q3 E). destruct Hw as [Hw _]. lia.
  - destruct (next_total s Hw) as (s' & -> & Hw' & Es & Ec & Q' & Hn'). cbn [mbind option_bind].
    destruct (IH (loc_end (m_currentToken s)) s') as (l & -> & Hl).
    + done.
    + by rewrite Es, Ec.
    + by rewrite Es, Ec, Hn.
    + done.
    + rewrite Es, Ec. destruct (decide (token (m_nextToken s) = Token.EOS)) as [E | E]; [by left | right].
      destruct Q as (Q1 & _ & Q3). specialize (Q3 E). lia.
    + cbn [mbind option_bind]. eexists. split; [done |]. rewrite Es in Hl. cbn [located]. split; [done |].
      destruct l; [done |]. split_and!; [done | by apply P3 | done].
Qed.

Lemma reset_total source s : exists s', reset source s = Some s' /\ wf s' /\ m_source s' = source /\ placed 0 source (m_currentToken s') /\
  placed (loc_end (m_currentToken s')) source (m_nextToken s') /\ loc_end (m_nextToken s') = m_position s'.
Proof.
  unfold reset. cbv zeta. set (s0 := set_stream 0 _ _). assert (Hw0 : wf s0).
  { split; [cbn; lia |]. intros Hp%past_spec. cbn in *. unfold get. by rewrite lookup_ge_None_2. }
  destruct (skipWhitespace_total s0 Hw0) as (b & s1 & -> & (Hw1 & E1 & _) & _). cbn [mbind option_bind].
  destruct (scanToken_total s1 Hw1) as (s2 & -> & (Hw2 & E2 & _) & F1 & F2 & F3 & F4). cbn [mbind option_bind].
  destruct (next_total s2 Hw2) as (s3 & -> & Hw3 & E3 & Ec & Q & Hn). exists s3. rewrite E2, E1 in *. change (m_source s0) with source in *.
  split_and!; [done | done | done | | by rewrite Ec, F2 | done]. rewrite Ec. split_and!; [lia | done | done].
Qed.
End Total.

(** The column counts the characters since the last newline. *)
Lemma rfind_spec c l pos : match rfind c l pos with
  | Some i => (i <= pos)%nat /\ default (-1) (l !! i) = c /\ forall j, (i < j <= pos)%nat -> default (-1) (l !! j) <> c
  | None => forall j, (j <= pos)%nat -> default (-1) (l !! j) <> c
  end.
Proof.
  unfold rfind. induction pos as [| pos IH].
  - cbn. destruct (Z.eqb_spec (default (-1) (l !! 0%nat)) c) as [E | E]; cbn.
    + split_and!; [lia | done | lia].
    + intros j Hj. by replace j with 0%nat by lia.
  - rewrite seq_S, List.filter_app. cbn [List.filter Nat.add]. destruct (Z.eqb_spec (default (-1) (l !! S pos)) c) as [E | E].
    + rewrite last_snoc. split_and!; [lia | done | lia].
    + rewrite app_nil_r. destruct (last _) as [i |].
      * destruct IH as (H1 & H2 & H3). split_and!; [lia | done |]. intros j Hj. destruct (decide (j = S pos)) as [-> | Hn]; [done | apply H3; lia].
      * intros j Hj. destruct (decide (j = S pos)) as [-> | Hn]; [done | apply IH; lia].
Qed.
Lemma translate_spec source p line column : (p <= length source)%nat -> translatePositionToLineColumn source (Z.of_nat p) = (line, column) ->
  line = length (List.filter (fun c => c =? 10) (take p source)) /\ (column <= p)%nat /\
  (forall j, (p - column <= j < p)%nat -> source !! j <> Some 10) /\ (p = column \/ source !! (p - column - 1)%nat = Some 10).
Proof.
  intros Hp. unfold translatePositionToLineColumn, searchPosition. rewrite (proj2 (Z.ltb_ge _ 0)), Nat2Z.id, Nat.min_r by lia. cbv zeta.
  intros [= <- <-]. split; [done |]. destruct p as [| p]; [split_and!; [lia | lia | by left] |]. pose proof (rfind_spec 10 source p) as Hr.
  destruct (rfind 10 source p) as [i |].
  - destruct Hr as (H1 & H2 & H3). split_and!; [lia | |].
    + intros j Hj E. apply (H3 j); [lia |]. by rewrite E.
    + right. replace (S p - (S p - S i) - 1)%nat with i by lia. destruct (source !! i); cbn in H2; [by subst | lia].
  - split_and!; [lia | | left; lia]. intros j Hj E. apply (Hr j); [lia |]. by rewrite E.
Qed.

Lemma tokens_located `{!LexicalCast} source s : exists l, tokens source s = Some l /\ located 0 source l.
Proof.
  unfold tokens. destruct (reset_total source s) as (s1 & -> & Hw & E & P & Q & Hn). cbn [mbind option_bind].
  subst source. apply tokens_from_total; [done .. |].
  destruct (decide (token (m_currentToken s1) = Token.EOS)) as [Ht | Ht]; [by left | right].
  destruct P as (_ & _ & P). specialize (P Ht). lia.
Qed.

(** The scanner ends on every source, whatever state it had before: it never fails an assertion, and the tokens, of
    which each but the last takes up a part of the source, lie behind each other and are followed by the end of the
    input, exactly at the end of the source. *)
Theorem tokens_total `{!LexicalCast} source s : exists l, tokens source s = Some l /\ located 0 source l.
Proof. apply tokens_located. Qed.
