(* ===== verification/ScanText.v ===== *)
(** * Scanning what was written

    A grammar of source texts, made of white space and of lexemes, each of which
    is followed by something that does not continue it, and the proof that the
    scanner (Scanner.v) finds exactly the lexemes that a text was written with. *)
From stdpp Require Import strings.
From S2P Require Import Prelude Text Token Scanner.
Open Scope list_scope.
Open Scope Z_scope.

(** ** Lexemes *)

Inductive lexeme :=
| Sym (t : Token.Value)
| Word (name : list Z)
| Num (digits : list Z) (fraction : option (list Z))
| Frac (digits : list Z)
| HexNum (digits : list Z)
| Str (bytes : list Z).

(** Operators and punctuators, with the characters that would continue them. *)
Definition symbols : list (Token.Value * list Z) :=
  [(Token.LParen, []); (Token.RParen, []); (Token.LBrack, []); (Token.RBrack, []); (Token.LBrace, []); (Token.RBrace, []);
   (Token.Colon, []); (Token.Semicolon, []); (Token.Period, [48; 49; 50; 51; 52; 53; 54; 55; 56; 57]); (Token.Conditional, []);
   (Token.Arrow, []); (Token.Assign, [61; 62]); (Token.AssignBitOr, []); (Token.AssignBitXor, []); (Token.AssignBitAnd, []);
   (Token.AssignShl, []); (Token.AssignSar, []); (Token.AssignShr, []); (Token.AssignAdd, []); (Token.AssignSub, []);
   (Token.AssignMul, []); (Token.AssignDiv, []); (Token.AssignMod, []); (Token.Comma, []); (Token.Or, []); (Token.And, []);
   (Token.BitOr, [124; 61]); (Token.BitXor, [61]); (Token.BitAnd, [38; 61]); (Token.SHL, [61]); (Token.SAR, [61; 62]); (Token.SHR, [61]);
   (Token.Add, [43; 61]); (Token.Sub, [45; 61]); (Token.Mul, [42; 61]); (Token.Div, [47; 42; 61]); (Token.Mod, [61]); (Token.Exp, []);
   (Token.Equal, []); (Token.NotEqual, []); (Token.LessThan, [61; 60]); (Token.GreaterThan, [61; 62]); (Token.LessThanOrEqual, []);
   (Token.GreaterThanOrEqual, []); (Token.Not, [61]); (Token.BitNot, []); (Token.Inc, []); (Token.Dec, [])].

Definition continued (t : Token.Value) : list Z := match List.find (fun p => bool_decide (p.1 = t)) symbols with Some p => p.2 | None => [] end.

(** A byte in a string literal: written as it is, or with two hexadecimal digits. *)
Definition hexDigit (d : Z) : Z := if d <? 10 then 48 + d else 87 + d.
Definition plain_byte (b : Z) : bool := (32 <=? b) && (b <=? 126) && negb (b =? 34) && negb (b =? 92).
Definition escape (b : Z) : list Z := if plain_byte b then [b] else [92; 120; hexDigit (b / 16); hexDigit (b mod 16)].

Section Lexemes.
Context `{!LexicalCast}.

Definition text (x : lexeme) : list Z :=
  match x with
  | Sym t => default [] (Token.toString t)
  | Word name => name
  | Num digits fraction => digits ++ match fraction with Some f => 46 :: f | None => [] end
  | Frac digits => 46 :: digits
  | HexNum digits => 48 :: 120 :: digits
  | Str bytes => 34 :: concat (map escape bytes) ++ [34]
  end.

(** Its token and its literal. *)
Definition meaning (x : lexeme) : Token.Value * list Z :=
  match x with
  | Sym t => (t, [])
  | Word name => ((fromIdentifierOrKeyword name).1.1, name)
  | Num _ _ | Frac _ | HexNum _ => (Token.Number, text x)
  | Str bytes => (Token.StringLiteral, bytes)
  end.

Definition valid (x : lexeme) : Prop :=
  match x with
  | Sym t => In t (fst <$> symbols)
  | Word name => match name with c :: l => isIdentifierStart c = true /\ forallb isIdentifierPart l = true | [] => False end /\
                 (fromIdentifierOrKeyword name).1.1 <> Token.Hex
  | Num digits fraction => forallb isdigit digits = true /\ match digits with [] => False | 48 :: _ :: _ => False | _ => True end /\
                           match fraction with Some f => forallb isdigit f = true | None => True end
  | Frac digits => digits <> [] /\ forallb isdigit digits = true
  | HexNum digits => digits <> [] /\ forallb isHexDigit digits = true
  | Str bytes => Forall (inw 8) bytes
  end.

(** The rest of the text does not continue the lexeme. *)
Definition fits (x : lexeme) (rest : list Z) : Prop :=
  let c := hd 0 rest in
  match x with
  | Sym t => ~ In c (continued t)
  | Word _ => isIdentifierPart c = false
  | Num _ None => isIdentifierPart c = false /\ c <> 46
  | Num _ (Some _) | Frac _ => isIdentifierPart c = false
  | HexNum _ => isIdentifierPart c = false
  | Str _ => True
  end.

(** Texts and their tokens. *)
Inductive written : list Z -> list (Token.Value * list Z) -> Prop :=
| written_end : written [] []
| written_space c l ts : isWhiteSpace c = true -> written l ts -> written (c :: l) ts
| written_lexeme x l ts : valid x -> fits x l -> written l ts -> written (text x ++ l) (meaning x :: ts).
End Lexemes.

(** ** The position in the text *)

(** What is left to read. *)
Definition at_ (s : Scanner) (l : list Z) : Prop := wf s /\ drop (m_position s) (m_source s) = l /\ m_char s = hd 0 l.

Lemma at_length s l : at_ s l -> length l = left_ s.
Proof. intros (_ & <- & _). by rewrite length_drop. Qed.
Lemma at_past s c l : at_ s (c :: l) -> isPastEndOfInput 0 s = false.
Proof. intros (_ & E & _). apply Nat.leb_gt. pose proof (f_equal length E) as Hl. rewrite length_drop in Hl. cbn in Hl. lia. Qed.
Lemma at_end s : at_ s [] -> isPastEndOfInput 0 s = true.
Proof. intros H. apply past_spec. pose proof (at_length _ _ H) as Hl. unfold left_ in Hl. cbn in Hl. lia. Qed.
Lemma at_get s l n : at_ s l -> get n s = default 0 (l !! n).
Proof. intros (_ & <- & _). unfold get. by rewrite lookup_drop. Qed.

Lemma advance_fields s : m_source (advance s) = m_source s /\ m_nextToken (advance s) = m_nextToken s /\ m_currentToken (advance s) = m_currentToken s.
Proof. unfold advance, advanceAndGet. cbv zeta. repeat case_match; done. Qed.
Lemma at_advance s c l : at_ s (c :: l) -> at_ (advance s) l.
Proof.
  intros H. pose proof (at_past _ _ _ H) as Hp. destruct H as (Hw & E & _). pose proof (advance_moves s Hw Hp) as [(Hw' & Es & _) _].
  split; [done |]. rewrite Es, (advance_position s Hp).
  assert (Hl : drop (S (m_position s)) (m_source s) = l).
  { replace (S (m_position s)) with (m_position s + 1)%nat by lia. rewrite <- drop_drop, E. done. }
  split; [done |]. unfold advance, advanceAndGet. rewrite Hp. cbv zeta.
  assert (Hg : get 0 (set_stream (m_position s + 1) 0 s) = hd 0 l).
  { unfold get. cbn. rewrite Nat.add_0_r. replace (m_position s + 1)%nat with (S (m_position s) + 0)%nat by lia. rewrite <- lookup_drop, Hl. by destruct l. }
  case_match eqn:Ep; cbn; [| exact Hg]. rewrite <- Hg. unfold get. rewrite lookup_ge_None_2; [done |]. apply past_spec in Ep. cbn in *. lia.
Qed.

(** Adding characters to the literal while they pass a test. *)
Lemma at_add s c l : at_ s (c :: l) -> 0 <= c < 256 ->
  at_ (addLiteralCharAndAdvance s) l /\ literal (m_nextToken (addLiteralCharAndAdvance s)) = literal (m_nextToken s) ++ [c].
Proof.
  intros H Hc. split; [exact (at_advance (addLiteralChar (m_char s) s) c l H) |]. unfold addLiteralCharAndAdvance.
  destruct (advance_fields (addLiteralChar (m_char s) s)) as (_ & -> & _). cbn. destruct H as (_ & _ & ->). cbn [hd].
  rewrite wrap_small; [done |]. unfold inw. lia.
Qed.
Lemma at_while (test : Z -> bool) fuel s a l : at_ s (a ++ l) -> forallb test a = true -> test (hd 0 l) = false ->
  (forall c, test c = true -> 0 <= c < 256) -> (length a <= fuel)%nat ->
  exists s', while_ fuel (fun s => test (m_char s)) addLiteralCharAndAdvance s = Some s' /\ at_ s' l /\
  literal (m_nextToken s') = literal (m_nextToken s) ++ a.
Proof.
  intros H Ha Hl Hb. revert s a H Ha. induction fuel as [| fuel IH]; intros s a H Ha Hf.
  - destruct a; [| cbn in Hf; lia]. exists s. cbn [while_]. destruct H as (Hw & E & Hc). rewrite Hc. cbn [app]. rewrite Hl.
    split_and!; [done | split_and!; done | by rewrite app_nil_r].
  - cbn [while_]. pose proof H as (Hw & E & Hc). rewrite Hc. destruct a as [| c a]; cbn [app hd].
    + rewrite Hl. exists s. split_and!; [done | split_and!; done | by rewrite app_nil_r].
    + cbn [forallb] in Ha. apply andb_prop in Ha as [Hcc Ha]. rewrite Hcc. destruct (at_add s c (a ++ l) H (Hb c Hcc)) as [H1 H2].
      destruct (IH (addLiteralCharAndAdvance s) a H1 Ha) as (s' & -> & H3 & H4); [cbn in Hf; lia |]. exists s'. split_and!; [done | done |].
      by rewrite H4, H2, <- app_assoc.
Qed.
Lemma at_while_all (test : Z -> bool) s a l : at_ s (a ++ l) -> forallb test a = true -> test (hd 0 l) = false ->
  (forall c, test c = true -> 0 <= c < 256) ->
  exists s', while_ (rounds s) (fun s => test (m_char s)) addLiteralCharAndAdvance s = Some s' /\ at_ s' l /\
  literal (m_nextToken s') = literal (m_nextToken s) ++ a.
Proof.
  intros H Ha Hl Hb. eapply at_while; [done .. |]. apply at_length in H. rewrite length_app in H. unfold left_ in H. lia.
Qed.
Lemma isdigit_byte c : isdigit c = true -> 0 <= c < 256.
Proof. unfold isdigit. lia. Qed.
Lemma isHexDigit_byte c : isHexDigit c = true -> 0 <= c < 256.
Proof. unfold isHexDigit, isdigit. lia. Qed.
Lemma isIdentifierPart_byte c : isIdentifierPart c = true -> 0 <= c < 256.
Proof. unfold isIdentifierPart, isIdentifierStart, isdigit. lia. Qed.

(** ** One lexeme *)

Section Round.
Context `{!LexicalCast}.

(** The next round reads the lexeme and stops behind it. *)
Definition reads (s : Scanner) (x : lexeme) (rest : list Z) : Prop :=
  exists info s', scan_round s = Some ((meaning x).1, info, s') /\ at_ s' rest /\ literal (m_nextToken s') = (meaning x).2.

Lemma at_chars s l : at_ s l -> m_char s = hd 0 l.
Proof. by intros (_ & _ & ->). Qed.

Ltac chars H :=
  match type of H with
  | at_ ?s (?c :: ?l) =>
      let E := fresh "E" in pose proof (at_chars _ _ H) as E; cbn [hd] in E;
      let H' := fresh "A" in pose proof (at_advance _ _ _ H) as H'; chars H'
  | at_ ?s ?l => let E := fresh "E" in pose proof (at_chars _ _ H) as E
  end.

Ltac sym_case tok :=
  match goal with
  | A : at_ ?s (text (Sym tok) ++ ?rest), Hf : ~ In ?c (continued tok) |- _ =>
      let l := eval vm_compute in (text (Sym tok)) in change (text (Sym tok)) with l in A; cbn [app] in A;
      let k := eval vm_compute in (continued tok) in change (continued tok) with k in Hf; cbn [In] in Hf;
      chars A; set (c0 := c) in *;
      unfold scan_round, scan_operator, scanSlash, selectToken; cbv zeta;
      repeat match goal with E : m_char _ = _ |- _ => rewrite E; clear E end;
      cbn [List.find fst snd]; clearbody c0;
      repeat match goal with
      | |- context [c0 =? ?k] => rewrite (proj2 (Z.eqb_neq c0 k)) by lia
      | |- context [?k =? c0] => rewrite (proj2 (Z.eqb_neq k c0)) by lia
      | |- context [isdigit c0] => replace (isdigit c0) with false by (unfold isdigit; lia)
      end;
      cbn [Z.eqb Pos.eqb orb andb negb List.find fst snd fmap option_fmap option_map punctuator];
      eexists _, _; split; [reflexivity |]
  end.

Lemma sym_reads s t rest : at_ s (text (Sym t) ++ rest) -> valid (Sym t) -> fits (Sym t) rest -> literal (m_nextToken s) = [] -> reads s (Sym t) rest.
Proof.
  intros A Hv Hf Hl. unfold reads. cbn [meaning fst snd]. cbn [fits] in Hf.
  cbn [valid] in Hv. cbn in Hv.
  repeat (destruct Hv as [Ht | Hv]; [match type of Ht with ?tok = _ => rewrite <- Ht in *; clear Ht; sym_case tok end;
    (split; [assumption | repeat rewrite (proj1 (proj2 (advance_fields _))); exact Hl]) |]).
  done.
Qed.

(** Identifiers and numbers. *)
Lemma default_round s : isIdentifierPart (m_char s) = true -> scan_round s = scan_default s.
Proof.
  intros Hc. unfold scan_round. cbv zeta. assert (Hp : punctuator (m_char s) = None).
  { unfold punctuator. cbn [List.find fst snd]. revert Hc. generalize (m_char s). intros c Hc. unfold isIdentifierPart, isIdentifierStart, isdigit in Hc.
    repeat match goal with |- context [?k =? c] => rewrite (proj2 (Z.eqb_neq k c)) by lia end. done. }
  assert (Ho : scan_operator s = None).
  { unfold scan_operator. cbv zeta. unfold isIdentifierPart, isIdentifierStart, isdigit in Hc.
    repeat match goal with |- context [m_char s =? ?k] => rewrite (proj2 (Z.eqb_neq (m_char s) k)) by lia end. done. }
  rewrite Hp, Ho. unfold isIdentifierPart, isIdentifierStart, isdigit in Hc.
  repeat match goal with |- context [m_char s =? ?k] => rewrite (proj2 (Z.eqb_neq (m_char s) k)) by lia end. done.
Qed.

Lemma word_reads s name rest : at_ s (name ++ rest) -> valid (Word name) -> fits (Word name) rest -> reads s (Word name) rest.
Proof.
  intros A [Hn Hh] Hf. destruct name as [| c l]; [done |]. destruct Hn as [Hc Hl]. cbn [fits] in Hf.
  pose proof (at_chars _ _ A) as E. cbn [hd app] in E. unfold reads. cbn [meaning fst snd]. rewrite default_round by (rewrite E; unfold isIdentifierPart; by rewrite Hc).
  unfold scan_default. rewrite E, Hc. unfold scanIdentifierOrKeyword. rewrite E, Hc. cbv zeta.
  destruct (at_add (clear_literal s) c (l ++ rest) A) as [A1 L1]; [apply isIdentifierPart_byte; unfold isIdentifierPart; by rewrite Hc |].
  destruct (at_while_all isIdentifierPart _ l rest A1 Hl Hf isIdentifierPart_byte) as (s2 & -> & A2 & L2). cbn [mbind option_bind].
  rewrite L2, L1. cbn [clear_literal set_next m_nextToken set_literal literal app].
  destruct (fromIdentifierOrKeyword (c :: l)) as [[t m] n] eqn:Ef. cbn [fst snd] in *. rewrite bool_decide_eq_false_2 by done.
  eexists _, s2. split_and!; [done | done |]. by rewrite L2, L1.
Qed.

Lemma part_facts c : isIdentifierPart c = false -> isdigit c = false /\ isIdentifierStart c = false /\ isHexDigit c = false /\
  (c =? 101) = false /\ (c =? 69) = false /\ (c =? 120) = false /\ (c =? 88) = false.
Proof. unfold isIdentifierPart, isIdentifierStart, isHexDigit, isdigit. lia. Qed.
Lemma finish_reads s l (hex : bool) : at_ s l -> isIdentifierPart (hd 0 l) = false -> scan_exponent hex s = Some (Token.Number, s).
Proof.
  intros A Hc. destruct (part_facts _ Hc) as (H1 & H2 & _ & H3 & H4 & _). apply at_chars in A as E.
  unfold scan_exponent, finish_number. by rewrite E, H3, H4, H1, H2.
Qed.

(** The text of a fraction. *)
Definition fraction_text (f : option (list Z)) : list Z := match f with Some f => 46 :: f | None => [] end.
Lemma decimal_reads s ds f rest : at_ s (ds ++ fraction_text f ++ rest) -> forallb isdigit ds = true ->
  match f with Some f => forallb isdigit f = true | None => hd 0 rest <> 46 end -> isIdentifierPart (hd 0 rest) = false ->
  exists s', scan_decimal s = Some (Token.Number, s') /\ at_ s' rest /\ literal (m_nextToken s') = literal (m_nextToken s) ++ ds ++ fraction_text f.
Proof.
  intros A Hd Hf Hr. destruct (part_facts _ Hr) as (Hrd & _). unfold scan_decimal, scanDecimalDigits.
  destruct (at_while_all isdigit s ds (fraction_text f ++ rest) A Hd) as (s1 & -> & A1 & L1); [by destruct f | exact isdigit_byte |]. cbn [mbind option_bind].
  apply at_chars in A1 as E1. rewrite E1. destruct f as [f |]; cbn [fraction_text app hd] in *.
  - change (46 =? 46) with true. cbv iota. destruct (at_add s1 46 (f ++ rest) A1) as [A2 L2]; [lia |].
    destruct (at_while_all isdigit _ f rest A2 Hf Hrd isdigit_byte) as (s3 & -> & A3 & L3). cbn [mbind option_bind].
    exists s3. rewrite (finish_reads s3 rest false) by done. split_and!; [done | done |]. by rewrite L3, L2, L1, <- !app_assoc.
  - rewrite (proj2 (Z.eqb_neq _ _)) by done. cbn [mbind option_bind]. exists s1. rewrite (finish_reads s1 rest false) by done.
    split_and!; [done | done |]. by rewrite L1, app_nil_r.
Qed.

Lemma digit_default s c : m_char s = c -> isdigit c = true -> scan_round s = ('(t, s) ← scanNumber false s; Some (t, None, s)).
Proof.
  intros E Hc. rewrite default_round by (rewrite E; unfold isIdentifierPart; rewrite Hc; apply orb_true_r).
  unfold scan_default. rewrite E, Hc. replace (isIdentifierStart c) with false; [done |]. unfold isIdentifierStart, isdigit in *. lia.
Qed.

Lemma num_reads s ds f rest : at_ s (text (Num ds f) ++ rest) -> valid (Num ds f) -> fits (Num ds f) rest -> reads s (Num ds f) rest.
Proof.
  cbn [text valid]. change (match f with Some f => 46 :: f | None => [] end) with (fraction_text f). intros A (Hd & Hz & Hf) Hfit.
  assert (Hr : isIdentifierPart (hd 0 rest) = false) by (destruct f; apply Hfit).
  assert (Hf' : match f with Some f => forallb isdigit f = true | None => hd 0 rest <> 46 end) by (destruct f; [done | apply Hfit]).
  destruct ds as [| c ds]; [done |]. rewrite <- app_assoc in A. apply at_chars in A as E. cbn [app hd] in E.
  cbn [forallb] in Hd. apply andb_prop in Hd as [Hc Hd]. unfold reads. rewrite (digit_default s c E Hc).
  cbn [meaning text fst snd]. change (match f with Some f => 46 :: f | None => [] end) with (fraction_text f).
  unfold scanNumber. cbv zeta. change (m_char (clear_literal s)) with (m_char s). rewrite E. destruct (Z.eqb_spec c 48) as [-> | Hc0].
  - destruct ds; [| done]. destruct (at_add (clear_literal s) 48 (fraction_text f ++ rest) A) as [A1 L1]; [lia |].
    apply at_chars in A1 as E1. destruct (part_facts _ Hr) as (P1 & _ & _ & _ & _ & P2 & P3).
    replace (m_char (addLiteralCharAndAdvance (clear_literal s))) with (hd 0 (fraction_text f ++ rest)).
    assert (Hn : (hd 0 (fraction_text f ++ rest) =? 120) || (hd 0 (fraction_text f ++ rest) =? 88) = false) by (destruct f; [done |]; cbn [fraction_text app]; by rewrite P2, P3).
    assert (Hn2 : isdigit (hd 0 (fraction_text f ++ rest)) = false) by (by destruct f). rewrite Hn, Hn2.
    destruct (decimal_reads _ [] f rest A1 eq_refl Hf' Hr) as (s2 & -> & A2 & L2). eexists _, s2. split_and!; [done | done |]. by rewrite L2, L1.
  - destruct (decimal_reads (clear_literal s) (c :: ds) f rest A) as (s2 & -> & A2 & L2); [cbn [forallb]; by rewrite Hc | done | done |].
    eexists _, s2. split_and!; [done | done |]. by rewrite L2.
Qed.

Lemma frac_reads s ds rest : at_ s (text (Frac ds) ++ rest) -> valid (Frac ds) -> fits (Frac ds) rest -> reads s (Frac ds) rest.
Proof.
  cbn [text valid fits]. intros A (Hne & Hd) Hr. destruct (part_facts _ Hr) as (P1 & _). unfold reads. cbn [meaning text fst snd].
  apply at_chars in A as E. cbn [app hd] in A, E. pose proof (at_advance _ _ _ A) as A1. apply at_chars in A1 as E1.
  unfold scan_round. cbv zeta. rewrite E. cbn [Z.eqb Pos.eqb orb].
  assert (Hd1 : isdigit (m_char (advance s)) = true).
  { rewrite E1. destruct ds; [done |]. cbn [app hd forallb] in *. by apply andb_prop in Hd as [-> _]. }
  rewrite Hd1. unfold scanNumber, scanDecimalDigits. cbv zeta iota.
  destruct (at_while_all isdigit (addLiteralChar 46 (clear_literal (advance s))) ds rest A1 Hd P1 isdigit_byte) as (s2 & -> & A2 & L2).
  cbn [mbind option_bind]. rewrite (finish_reads s2 rest false) by done. eexists _, s2. split_and!; [done | done |]. by rewrite L2.
Qed.

Lemma hexnum_reads s ds rest : at_ s (text (HexNum ds) ++ rest) -> valid (HexNum ds) -> fits (HexNum ds) rest -> reads s (HexNum ds) rest.
Proof.
  cbn [text valid fits]. intros A (Hne & Hd) Hr. destruct (part_facts _ Hr) as (_ & _ & P1 & _). unfold reads. cbn [meaning text fst snd].
  apply at_chars in A as E. cbn [app hd] in A, E. rewrite (digit_default s 48 E eq_refl). unfold scanNumber. cbv zeta.
  change (m_char (clear_literal s)) with (m_char s). rewrite E. change (48 =? 48) with true. cbv iota.
  destruct (at_add (clear_literal s) 48 (120 :: ds ++ rest) A) as [A1 L1]; [lia |]. apply at_chars in A1 as E1. cbn [hd] in E1.
  rewrite E1. change ((120 =? 120) || (120 =? 88)) with true. cbv iota.
  destruct (at_add _ 120 (ds ++ rest) A1) as [A2 L2]; [lia |]. apply at_chars in A2 as E2.
  assert (Hd1 : isHexDigit (hd 0 (ds ++ rest)) = true) by (destruct ds; [done |]; cbn [app hd forallb] in *; by apply andb_prop in Hd as [-> _]).
  rewrite E2, Hd1. destruct (at_while_all isHexDigit _ ds rest A2 Hd P1 isHexDigit_byte) as (s3 & -> & A3 & L3). cbn [mbind option_bind].
  rewrite (finish_reads s3 rest true) by done. eexists _, s3. split_and!; [done | done |]. by rewrite L3, L2, L1.
Qed.

(** Strings. *)
Lemma hexDigit_value d : 0 <= d < 16 -> hexValue (hexDigit d) = d.
Proof.
  intros Hd. unfold hexDigit, hexValue. destruct (Z.ltb_spec d 10).
  - rewrite (proj2 (Z.leb_le 48 (48 + d))), (proj2 (Z.leb_le (48 + d) 57)) by lia. cbn [andb]. lia.
  - rewrite (proj2 (Z.leb_gt (87 + d) 57)), andb_false_r, (proj2 (Z.leb_le 97 (87 + d))), (proj2 (Z.leb_le (87 + d) 102)) by lia. cbn [andb]. lia.
Qed.
Lemma hex_byte_reads s b l : at_ s (hexDigit (b / 16) :: hexDigit (b mod 16) :: l) -> inw 8 b ->
  exists s', scanHexByte s = Some (Some b, s') /\ at_ s' l /\ m_nextToken s' = m_nextToken s.
Proof.
  intros A [Hb1 Hb2]. change (2 ^ 8) with 256 in Hb2. chars A. pose proof (Z.mod_pos_bound b 16 ltac:(lia)).
  assert (0 <= b / 16 < 16) by (split; [apply Z.div_pos | apply Z.div_lt_upper_bound]; lia).
  unfold scanHexByte. cbn [scan_hex]. cbv zeta. rewrite E, E0, !hexDigit_value by lia.
  rewrite (proj2 (Z.ltb_ge (b / 16) 0)), (proj2 (Z.ltb_ge (b mod 16) 0)) by lia. eexists. split_and!; [| done |].
  - do 3 f_equal. pose proof (Z.div_mod b 16 ltac:(lia)). rewrite (wrap_small 8 (0 * 16 + b / 16)) by (unfold inw; change (2 ^ 8) with 256; lia).
    rewrite wrap_small by (unfold inw; change (2 ^ 8) with 256; lia). lia.
  - by rewrite !(proj1 (proj2 (advance_fields _))).
Qed.

Lemma string_loop_reads fuel s bs rest : at_ s (concat (map escape bs) ++ 34 :: rest) -> Forall (inw 8) bs -> (length bs <= fuel)%nat ->
  exists s', string_loop fuel 34 s = Some (true, s') /\ at_ s' (34 :: rest) /\ literal (m_nextToken s') = literal (m_nextToken s) ++ bs.
Proof.
  revert s bs. induction fuel as [| fuel IH]; intros s [| b bs] A Hb Hf; cbn [length] in Hf; try lia; cbn [map concat app] in A; cbn [string_loop].
  1, 2: apply at_chars in A as E; cbn [hd] in E; rewrite E; exists s; split_and!; [done | done | by rewrite app_nil_r].
  apply list.Forall_cons in Hb as [Hb Hbs]. rewrite <- app_assoc in A. unfold escape in A. destruct (plain_byte b) eqn:Ep.
  - cbn [app] in A. pose proof (at_past _ _ _ A) as Hp. chars A. rewrite E, Hp. unfold plain_byte in Ep. unfold isLineTerminator.
    rewrite (proj2 (Z.eqb_neq b 34)), (proj2 (Z.eqb_neq b 10)), (proj2 (Z.eqb_neq b 92)) by lia. cbn [negb andb]. cbv zeta.
    destruct (IH (addLiteralChar b (advance s)) bs A0 Hbs ltac:(lia)) as (s' & -> & A' & L'). exists s'. split_and!; [done | done |].
    rewrite L'. unfold addLiteralChar. cbn [set_next m_nextToken set_literal literal]. rewrite (proj1 (proj2 (advance_fields s))), wrap_small by done.
    by rewrite <- app_assoc.
  - cbn [app] in A. pose proof (at_past _ _ _ A) as Hp. pose proof (at_advance _ _ _ A) as A0. pose proof (at_past _ _ _ A0) as Hp0.
    apply at_chars in A as E, A0 as E0. cbn [hd] in E, E0. pose proof (at_advance _ _ _ A0) as A1.
    rewrite E, Hp. change (isLineTerminator 92) with false. cbn [Z.eqb Pos.eqb negb andb]. cbv zeta. rewrite Hp0.
    unfold scanEscape. cbv zeta. rewrite E0. change (isLineTerminator 120) with false. cbn [Z.eqb Pos.eqb].
    destruct (hex_byte_reads _ b _ A1 Hb) as (s2 & -> & A2 & L2). cbn [mbind option_bind].
    destruct (IH (addLiteralChar b s2) bs A2 Hbs ltac:(lia)) as (s' & -> & A' & L'). exists s'. split_and!; [done | done |].
    rewrite L'. unfold addLiteralChar. cbn [set_next m_nextToken set_literal literal]. rewrite L2, !(proj1 (proj2 (advance_fields _))), wrap_small by done.
    by rewrite <- app_assoc.
Qed.

Lemma escape_length bs : (length bs <= length (concat (map escape bs)))%nat.
Proof.
  induction bs as [| b bs IH]; [done |]. cbn [map concat]. rewrite length_app. unfold escape at 1. destruct (plain_byte b); cbn [length]; lia.
Qed.

Lemma str_reads s bs rest : at_ s (text (Str bs) ++ rest) -> valid (Str bs) -> reads s (Str bs) rest.
Proof.
  cbn [text valid]. intros A Hb. cbn [app] in A. rewrite <- app_assoc in A. cbn [app] in A. apply at_chars in A as E. cbn [hd] in E.
  pose proof (at_advance _ _ _ A) as A1. unfold reads. cbn [meaning fst snd]. unfold scan_round. cbv zeta. rewrite E. change ((34 =? 34) || (34 =? 39)) with true. cbv iota.
  unfold scanString. cbv zeta. rewrite E.
  destruct (string_loop_reads (rounds (clear_literal (advance s))) (clear_literal (advance s)) bs rest A1 Hb) as (s2 & -> & A2 & L2).
  { apply at_length in A1. rewrite length_app in A1. pose proof (escape_length bs). unfold left_ in A1. change (m_source (clear_literal (advance s))) with (m_source (advance s)). lia. }
  cbn [mbind option_bind finish_string fmap option_fmap option_map]. apply at_chars in A2 as E2. rewrite E2. cbn [hd negb orb]. change (34 =? 34) with true. cbn [negb].
  eexists _, (advance s2). split_and!; [done | by eapply at_advance |]. by rewrite (proj1 (proj2 (advance_fields s2))), L2.
Qed.

Lemma lexeme_reads s x rest : at_ s (text x ++ rest) -> valid x -> fits x rest -> literal (m_nextToken s) = [] -> reads s x rest.
Proof.
  destruct x; intros A Hv Hf Hl; [by apply sym_reads | by apply word_reads | by apply num_reads | by apply frac_reads | by apply hexnum_reads | by apply str_reads].
Qed.
End Round.

(** ** Whole texts *)

Section Written.
Context `{!LexicalCast}.

Lemma valid_head x : valid x -> exists c l, text x = c :: l /\ isWhiteSpace c = false.
Proof.
  destruct x as [t | [| c l] | [| c l] f | l | l | l]; intros Hv; try (cbn [valid] in Hv; tauto).
  - cbn in Hv. repeat (destruct Hv as [<- | Hv]; [by eexists _, _ |]). done.
  - exists c, l. split; [done |]. destruct Hv as [[Hc _] _]. unfold isIdentifierStart in Hc. unfold isWhiteSpace. lia.
  - eexists c, _. split; [done |]. destruct Hv as [Hd _]. cbn [forallb] in Hd. apply andb_prop in Hd as [Hd _]. unfold isdigit in Hd. unfold isWhiteSpace. lia.
  - by eexists _, _.
  - by eexists _, _.
  - by eexists _, _.
Qed.
Lemma meaning_visible x : valid x -> (meaning x).1 <> Token.EOS /\ (meaning x).1 <> Token.Whitespace.
Proof.
  destruct x as [t | name | ds f | ds | ds | bs]; intros Hv; cbn [meaning fst]; try done.
  - cbn in Hv. repeat (destruct Hv as [<- | Hv]; [done |]). done.
  - pose proof (from_visible name) as Hf. split; intros E; by rewrite E in Hf.
Qed.

Lemma written_skip c l ts : written (c :: l) ts -> isWhiteSpace c = true -> written l ts.
Proof.
  intros Hw Hc. inversion Hw as [| ? ? ? _ Hw' | x l' ts' Hv Hf Hw' E]; subst; [done |].
  destruct (valid_head x Hv) as (c' & t & Ex & Hc'). rewrite Ex in E. injection E as E _. congruence.
Qed.

Lemma skip_reads fuel s l : at_ s l -> (length l <= fuel)%nat ->
  exists s' l', while_ fuel (fun s => isWhiteSpace (m_char s)) advance s = Some s' /\ at_ s' l' /\ m_nextToken s' = m_nextToken s /\
  (forall ts, written l ts -> written l' ts) /\ (isWhiteSpace (hd 0 l) = false -> s' = s).
Proof.
  revert s l. induction fuel as [| fuel IH]; intros s l A Hl; cbn [while_]; apply at_chars in A as E; rewrite E.
  - destruct l; [| cbn in Hl; lia]. exists s, []. by split_and!.
  - destruct l as [| c l]; [exists s, []; by split_and! |]. cbn [hd]. destruct (isWhiteSpace c) eqn:Ec; [| exists s, (c :: l); by split_and!].
    destruct (IH (advance s) l) as (s' & l' & -> & A' & N' & W' & _); [by eapply at_advance | cbn in Hl; lia |]. exists s', l'. split_and!; [done | done | | | done].
    + by rewrite N', (proj1 (proj2 (advance_fields s))).
    + intros ts Hw. apply W'. by eapply written_skip.
Qed.
Lemma skipWhitespace_reads s l : at_ s l -> exists b s' l', skipWhitespace s = Some (b, s') /\ at_ s' l' /\ m_nextToken s' = m_nextToken s /\
  (forall ts, written l ts -> written l' ts) /\ (isWhiteSpace (hd 0 l) = false -> b = false /\ s' = s) /\ (isWhiteSpace (hd 0 l) = true -> b = true).
Proof.
  intros A. destruct (skip_reads (rounds s) s l A) as (s' & l' & E & A' & N & W & F); [rewrite (at_length _ _ A); unfold left_; lia |].
  destruct (skipWhitespace_total s (proj1 A)) as (b & s1 & Es & _ & _ & Hb1 & Hb2). exists b, s', l'. unfold skipWhitespace in *. rewrite E in *. cbn [mbind option_bind] in *.
  injection Es as Eb <-. split_and!; [by rewrite Eb | done | done | done | |].
  - intros Hc. split; [| by apply F]. rewrite <- Eb, (F Hc), Nat.eqb_refl. done.
  - intros Hc. destruct b; [done |]. apply at_chars in A as Ec. rewrite <- Ec in Hc. specialize (Hb2 eq_refl) as ->.
    cbn [while_] in E. rewrite Hc in E.
    destruct (skipWhitespace_total s (proj1 A)) as (b & s1 & Es & _ & Hn & _). unfold skipWhitespace in Es. cbn [while_] in Es. rewrite Hc, E in Es.
    injection Es as _ <-. congruence.
Qed.

Lemma space_reads s c l : at_ s (c :: l) -> isWhiteSpace c = true ->
  exists info s' l', scan_round s = Some (Token.Whitespace, info, s') /\ at_ s' l' /\ m_nextToken s' = m_nextToken s /\ forall ts, written (c :: l) ts -> written l' ts.
Proof.
  intros A Hc. apply at_chars in A as E. cbn [hd] in E. assert (Hcases : c = 32 \/ c = 10 \/ c = 9 \/ c = 13) by (unfold isWhiteSpace in Hc; lia).
  destruct (decide (c = 13)) as [-> | Hn].
  - destruct (skipWhitespace_reads s _ A) as (b & s' & l' & Es & A' & N & W & _ & Hb). cbn [hd] in Hb. rewrite (Hb eq_refl) in Es.
    exists None, s', l'. split_and!; [| done | done | done]. unfold scan_round, scan_operator, scan_default. cbv zeta. rewrite E, Es. done.
  - exists None, (advance s), l. split_and!; [| by eapply at_advance | apply advance_fields | intros ts Hw; by eapply written_skip].
    unfold scan_round. cbv zeta. rewrite E. destruct Hcases as [-> | [-> | [-> | ->]]]; done.
Qed.
Lemma end_reads s : at_ s [] -> exists info, scan_round s = Some (Token.EOS, info, s).
Proof.
  intros A. apply at_chars in A as E. cbn [hd] in E. destruct (skipWhitespace_reads s _ A) as (b & s' & l' & Es & _ & _ & _ & Hb & _).
  destruct (Hb eq_refl) as [-> ->]. exists None. unfold scan_round, scan_operator, scan_default. cbv zeta. rewrite E, Es. cbn. by rewrite (at_end s A).
Qed.

(** The token that a scanner has found, with its literal. *)
Definition desc (d : TokenDesc) : Token.Value * list Z := (token d, literal d).
(** The next token is the first of [ts], and what is left to read has the others. *)
Definition ahead (s : Scanner) (ts : list (Token.Value * list Z)) : Prop :=
  match ts with
  | [] => desc (m_nextToken s) = (Token.EOS, [])
  | m :: ts => desc (m_nextToken s) = m /\ m.1 <> Token.EOS /\ exists l, at_ s l /\ written l ts
  end.

Lemma token_loop_written fuel s s' l ts : at_ s l -> written l ts -> literal (m_nextToken s) = [] -> token_loop fuel s = Some s' -> ahead s' ts.
Proof.
  revert s l. induction fuel as [| fuel IH]; intros s l A Hw Hl; cbn [token_loop]; [done |].
  inversion Hw as [| c l1 ts1 Hc Hw' | x l1 ts1 Hv Hf Hw']; subst.
  - destruct (end_reads s A) as (info & ->). cbn [mbind option_bind]. rewrite bool_decide_eq_false_2 by done. intros [= <-].
    cbn [ahead]. unfold desc. cbn. by rewrite Hl.
  - destruct (space_reads s c l1 A Hc) as (info & s1 & l2 & -> & A1 & N1 & W1). cbn [mbind option_bind]. rewrite bool_decide_eq_true_2 by done.
    apply (IH s1 l2 A1); [by apply W1 | by rewrite N1].
  - destruct (lexeme_reads s x l1 A Hv Hf Hl) as (info & s1 & -> & A1 & L1). destruct (meaning_visible x Hv) as [Hn1 Hn2]. cbn [mbind option_bind].
    rewrite bool_decide_eq_false_2 by done. intros [= <-]. cbn [ahead]. unfold desc. cbn. rewrite L1. split_and!; [by destruct (meaning x) | done |].
    exists l1. split; [exact A1 | done].
Qed.
Lemma scanToken_written s s' l ts : at_ s l -> written l ts -> scanToken s = Some s' -> ahead s' ts.
Proof. intros A Hw. unfold scanToken. apply token_loop_written with l; done. Qed.

(** The state after [next]: the next token is now the current one. *)
Lemma next_ahead s ts : ahead s ts -> wf s -> exists s', next s = Some s' /\ wf s' /\ m_currentToken s' = m_nextToken s /\
  match ts with [] => True | _ :: ts => ahead s' ts end.
Proof.
  intros Ha Hw. destruct (next_total s Hw) as (s' & Es & Hw' & _ & Ec & _). exists s'. split_and!; [done | done | done |].
  destruct ts as [| m ts]; [done |]. destruct Ha as (_ & _ & l & A & Hl). by eapply scanToken_written; [| exact Hl | exact Es].
Qed.
(** The state after [reset]: the first token is current. *)
Lemma reset_ahead source ts s : written source ts -> exists s', reset source s = Some s' /\ wf s' /\
  match ts with [] => desc (m_currentToken s') = (Token.EOS, []) | m :: ts => desc (m_currentToken s') = m /\ m.1 <> Token.EOS /\ ahead s' ts end.
Proof.
  intros Hw. unfold reset. cbv zeta. set (s0 := set_stream 0 _ _).
  assert (A0 : at_ s0 source).
  { split_and!; [| done | by destruct source]. split; [cbn; lia |]. intros Hp%past_spec. cbn in *. unfold get. by rewrite lookup_ge_None_2. }
  destruct (skipWhitespace_reads s0 _ A0) as (b & s1 & l1 & -> & A1 & _ & W1 & _). cbn [mbind option_bind].
  destruct (scanToken_total s1 (proj1 A1)) as (s2 & E2 & (Hw2 & _) & _). rewrite E2. cbn [mbind option_bind].
  pose proof (scanToken_written s1 s2 l1 ts A1 (W1 ts Hw) E2) as Ha.
  destruct (next_ahead s2 ts Ha Hw2) as (s' & -> & Hw' & Ec & Ha'). exists s'. rewrite Ec. split_and!; [done | done |].
  destruct ts; [done |]. by destruct Ha as (-> & Hn & _).
Qed.

Lemma tokens_from_written fuel s ds ts : ahead s ts -> wf s -> token (m_currentToken s) <> Token.EOS -> tokens_from fuel s = Some ds ->
  desc <$> ds = desc (m_currentToken s) :: ts ++ [(Token.EOS, [])].
Proof.
  revert s ds ts. induction fuel as [| fuel IH]; intros s ds ts Ha Hw Hc; cbn [tokens_from]; rewrite bool_decide_eq_false_2 by done; [done |].
  destruct (next_ahead s ts Ha Hw) as (s' & Es & Hw' & Ec & Ha'). rewrite Es. cbn [mbind option_bind].
  destruct (tokens_from fuel s') as [l |] eqn:El; [| done]. cbn [mbind option_bind]. intros [= <-]. cbn [fmap list_fmap]. f_equal.
  destruct ts as [| m ts]; cbn [ahead] in Ha.
  - assert (Ht : token (m_currentToken s') = Token.EOS) by (rewrite Ec; unfold desc in Ha; by injection Ha).
    destruct fuel; cbn [tokens_from] in El; rewrite bool_decide_eq_true_2 in El by done; injection El as <-; cbn; by rewrite Ec, Ha.
  - destruct Ha as (Hm & Hn & _). rewrite (IH s' l ts Ha' Hw'); [by rewrite Ec, Hm | | done]. rewrite Ec. intros E. apply Hn. rewrite <- Hm. exact E.
Qed.
End Written.

(** C26: scanning is the inverse of writing: from a text of lexemes and white space, in which no lexeme is continued by what
    follows it, the scanner returns exactly the tokens and literals of the lexemes and then the end of the input. *)
Theorem scan_written `{!LexicalCast} source ts s : written source ts ->
  exists ds, tokens source s = Some ds /\ desc <$> ds = ts ++ [(Token.EOS, [])].
Proof.
  intros Hw. destruct (tokens_located source s) as (ds & Hd & _). exists ds. split; [done |]. revert Hd. unfold tokens.
  destruct (reset_ahead source ts s Hw) as (s' & -> & Hw' & Ha). cbn [mbind option_bind]. intros Hd. destruct ts as [| m ts].
  - assert (Ht : token (m_currentToken s') = Token.EOS) by (unfold desc in Ha; by injection Ha).
    destruct (length source); cbn [tokens_from] in Hd; rewrite bool_decide_eq_true_2 in Hd by done; injection Hd as <-; cbn; by rewrite Ha.
  - destruct Ha as (Hm & Hn & Ha). rewrite (tokens_from_written (length source) s' ds ts Ha Hw'); [by rewrite Hm | | done].
    intros E. apply Hn. rewrite <- Hm. exact E.
Qed.

(** A statement, without spaces where none are needed. *)
Definition blank : Scanner := let d := mkDesc Token.Illegal 0 0 [] None in mkScanner [] 0 0 d d d d.
Definition statement : list lexeme := [Word (js "x"); Sym Token.AssignShr; HexNum (js "2a"); Sym Token.Mul; Str [10; 65; 200]; Sym Token.Semicolon].
Lemma statement_written : @written decimal_cast (concat (text <$> statement)) (@meaning decimal_cast <$> statement).
Proof.
  assert (Hsym : forall t, bool_decide (t ∈ fst <$> symbols) = true -> @valid decimal_cast (Sym t)).
  { intros t Ht%bool_decide_eq_true. by apply list_elem_of_In. }
  repeat (apply (@written_lexeme decimal_cast);
    [first [by apply Hsym | by repeat constructor | by split; [| discriminate]] | try reflexivity; vm_compute; intuition discriminate |]).
  constructor.
Qed.
Lemma scan_written_witness : exists ds, @tokens decimal_cast (js "x>>>=0x2a*" ++ text (Str [10; 65; 200]) ++ js ";") blank = Some ds /\
  desc <$> ds = [(Token.Identifier, js "x"); (Token.AssignShr, []); (Token.Number, js "0x2a"); (Token.Mul, []); (Token.StringLiteral, [10; 65; 200]);
                 (Token.Semicolon, []); (Token.EOS, [])].
Proof. exact (@scan_written decimal_cast _ _ blank statement_written). Defined.
