(* ===== verification/SemVer.v ===== *)
(** * Version pragmas

    libsolidity/analysis/SemVerHandler.cpp and .h: versions, match expressions
    and their parser; of Parser.cpp and SyntaxChecker.cpp the pragma directive,
    on top of the scanner.  An [unsigned] is a 32-bit number.  A string is the
    list of its characters.  The loops of the parser have one round per
    character; [parse_total] shows that this is enough. *)
From stdpp Require Import strings.
From S2P Require Import Prelude Text Token Scanner ScanText.
Open Scope list_scope.
Open Scope Z_scope.

(** ** Versions *)

Record SemVerVersion := mkVersion { numbers : list Z; prerelease : list Z; build : list Z }.

(** The digits of a number, as far as they go. *)
Definition version_number (s : list Z) : Z * list Z :=
  let '(ds, rest) := span isdigit s in (fold_left (fun v c => wrap 32 (v * 10 + (c - 48))) ds 0, rest).

(** The constructor; [None] is a [SemVerError]. *)
Definition parse_version (s : list Z) : option SemVerVersion :=
  let '(major, s) := version_number s in
  s ← (match s with 46 :: s => Some s | _ => None end);
  let '(minor, s) := version_number s in
  s ← (match s with 46 :: s => Some s | _ => None end);
  let '(patch, s) := version_number s in
  let '(pre, s) := match s with 45 :: s => span (fun c => negb (c =? 43)) s | _ => ([], s) end in
  let '(bld, s) := match s with 43 :: s => (s, []) | _ => ([], s) end in
  match s with [] => Some (mkVersion [major; minor; patch] pre bld) | _ => None end.

(** ** Match expressions *)

Record MatchComponent := mkComponent { prefix : Token.Value; version : SemVerVersion; levelsPresent : nat }.
Record SemVerMatchExpression := mkExpression { m_disjunction : list (list MatchComponent) }.

(** The loop that compares the levels: the sign of the difference, and whether a level was compared. *)
Fixpoint compare_levels (n : nat) (a b : list Z) : Z * bool :=
  match n, a, b with
  | S n, x :: a, y :: b =>
      if y =? 2 ^ 32 - 1 then compare_levels n a b
      else let cmp := sgn 32 (wrap 32 (x - y)) in if cmp =? 0 then ((compare_levels n a b).1, true) else (cmp, true)
  | _, _, _ => (0, false)
  end.

(** [MatchComponent::matches] for the prefixes that compare; others fail the assertion. *)
Definition matches_plain (c : MatchComponent) (v : SemVerVersion) : option bool :=
  let '(cmp, didCompare) := compare_levels (levelsPresent c) (numbers v) (numbers (version c)) in
  let cmp := if (cmp =? 0) && negb (bool_decide (prerelease v = [])) && didCompare then -1 else cmp in
  match prefix c with
  | Token.Assign => Some (cmp =? 0)
  | Token.LessThan => Some (cmp <? 0)
  | Token.LessThanOrEqual => Some (cmp <=? 0)
  | Token.GreaterThan => Some (0 <? cmp)
  | Token.GreaterThanOrEqual => Some (0 <=? cmp)
  | _ => None
  end.
Definition with_prefix (p : Token.Value) (levels : nat) (c : MatchComponent) : MatchComponent := mkComponent p (version c) levels.
Definition component_matches (c : MatchComponent) (v : SemVerVersion) : option bool :=
  let between (levels : nat) :=
    ge ← matches_plain (with_prefix Token.GreaterThanOrEqual (levelsPresent c) c) v;
    if (ge : bool) then matches_plain (with_prefix Token.LessThanOrEqual levels c) v else Some false in
  match prefix c with
  | Token.BitNot => between (if (2 <=? levelsPresent c)%nat then 2%nat else 1%nat)
  | Token.BitXor => between (if default 0 (numbers (version c) !! 0%nat) =? 0 then 2%nat else 1%nat)
  | _ => matches_plain c v
  end.

(** [Conjunction::matches] and [SemVerMatchExpression::matches]. *)
Fixpoint conjunction_matches (l : list MatchComponent) (v : SemVerVersion) : option bool :=
  match l with
  | [] => Some true
  | c :: l => b ← component_matches c v; if (b : bool) then conjunction_matches l v else Some false
  end.
Fixpoint disjunction_matches (l : list (list MatchComponent)) (v : SemVerVersion) : option bool :=
  match l with
  | [] => Some false
  | r :: l => b ← conjunction_matches r v; if (b : bool) then Some true else disjunction_matches l v
  end.
Definition matches (e : SemVerMatchExpression) (v : SemVerVersion) : option bool := disjunction_matches (m_disjunction e) v.

(** ** The parser *)

(** A step of the parser from a position and a position inside of its literal:
    a value, a [SemVerError], or no fuel left. *)
Inductive result (A : Type) := Ok (a : A) (pos inside : nat) | SemVerError | NoFuel.
Arguments Ok {A} _ _ _.
Arguments SemVerError {A}.
Arguments NoFuel {A}.

Definition bind {A B} (r : result A) (f : A -> nat -> nat -> result B) : result B :=
  match r with Ok a pos inside => f a pos inside | SemVerError => SemVerError | NoFuel => NoFuel end.

Section Parser.
Context (m_tokens : list Token.Value) (m_literals : list (list Z)).

Definition currentChar (pos inside : nat) : Z := default 255 (l ← m_literals !! pos; l !! inside).
Definition currentToken (pos : nat) : Token.Value := default Token.Illegal (m_tokens !! pos).
Definition nextChar (pos inside : nat) : nat * nat :=
  match m_literals !! pos with
  | Some l => if (length l <=? inside + 1)%nat then (S pos, 0%nat) else (pos, S inside)
  | None => (pos, inside)
  end.

(** The loop of [parseVersionPart] over the digits behind the first. *)
Fixpoint part_loop (fuel : nat) (startPos pos inside : nat) (v : Z) : result Z :=
  let c := currentChar pos inside in
  if (pos =? startPos)%nat && isdigit c then
    match fuel with
    | 0%nat => NoFuel
    | S fuel =>
        if (wrap 32 (v * 10) <? v) || (wrap 32 (wrap 32 (v * 10) + (c - 48)) <? wrap 32 (v * 10)) then SemVerError
        else let '(pos, inside) := nextChar pos inside in part_loop fuel startPos pos inside (wrap 32 (v * 10 + c - 48))
    end
  else Ok v pos inside.
Definition characters : nat := length (concat m_literals).
Definition parseVersionPart (pos inside : nat) : result Z :=
  let c := currentChar pos inside in
  let '(pos', inside') := nextChar pos inside in
  if (c =? 120) || (c =? 88) || (c =? 42) then Ok (2 ^ 32 - 1) pos' inside'
  else if c =? 48 then Ok 0 pos' inside'
  else if (49 <=? c) && (c <=? 57) then part_loop characters pos pos' inside' (c - 48)
  else SemVerError.

(** The loop of [parseMatchComponent] over the levels: the numbers that it sets. *)
Fixpoint levels_loop (n : nat) (pos inside : nat) : result (list Z) :=
  match n with
  | 0%nat => Ok [] pos inside
  | S n =>
      bind (parseVersionPart pos inside) (fun v pos inside =>
      if currentChar pos inside =? 46 then
        let '(pos, inside) := nextChar pos inside in bind (levels_loop n pos inside) (fun l pos inside => Ok (v :: l) pos inside)
      else Ok [v] pos inside)
  end.
Definition is_prefix (t : Token.Value) : bool :=
  match t with
  | Token.BitXor | Token.BitNot | Token.LessThan | Token.LessThanOrEqual | Token.GreaterThan | Token.GreaterThanOrEqual | Token.Assign => true
  | _ => false
  end.
Definition parseMatchComponent (pos inside : nat) : result MatchComponent :=
  let t := currentToken pos in
  let '(p, pos, inside) := if is_prefix t then (t, S pos, 0%nat) else (Token.Assign, pos, inside) in
  bind (levels_loop 3 pos inside) (fun l pos inside =>
  Ok (mkComponent p (mkVersion (l ++ drop (length l) [0; 0; 0]) [] []) (length l)) pos inside).

(** The components up to the end of a conjunction. *)
Fixpoint components_loop (fuel : nat) (pos inside : nat) : result (list MatchComponent) :=
  if bool_decide (currentToken pos = Token.Or) || bool_decide (currentToken pos = Token.Illegal) then Ok [] pos inside
  else match fuel with
       | 0%nat => NoFuel
       | S fuel =>
           bind (parseMatchComponent pos inside) (fun c pos inside =>
           bind (components_loop fuel pos inside) (fun l pos inside => Ok (c :: l) pos inside))
       end.
Definition parseMatchExpression (pos inside : nat) : result (list MatchComponent) :=
  bind (parseMatchComponent pos inside) (fun c pos inside =>
  if bool_decide (currentToken pos = Token.Sub) then
    bind (parseMatchComponent (S pos) 0) (fun d pos inside =>
    Ok [with_prefix Token.GreaterThanOrEqual (levelsPresent c) c; with_prefix Token.LessThanOrEqual (levelsPresent d) d] pos inside)
  else bind (components_loop (S characters) pos inside) (fun l pos inside => Ok (c :: l) pos inside)).
Fixpoint parse_loop (fuel : nat) (pos inside : nat) : result (list (list MatchComponent)) :=
  match fuel with
  | 0%nat => NoFuel
  | S fuel =>
      bind (parseMatchExpression pos inside) (fun r pos inside =>
      if (length m_tokens <=? pos)%nat then Ok [r] pos inside
      else if bool_decide (currentToken pos = Token.Or) then
        bind (parse_loop fuel (S pos) 0) (fun l pos inside => Ok (r :: l) pos inside)
      else SemVerError)
  end.

(** [parse]: an error leaves an expression without alternatives. *)
Definition parse : option SemVerMatchExpression :=
  match parse_loop (S characters) 0 0 with
  | Ok l _ _ => Some (mkExpression l)
  | SemVerError => Some (mkExpression [])
  | NoFuel => None
  end.
End Parser.

(** ** The parser ends *)

Section Total.
Context (m_tokens : list Token.Value) (m_literals : list (list Z)).

(** A position inside of a literal or at the start of one, and the characters left there. *)
Definition inside_ok (pos inside : nat) : Prop := inside = 0%nat \/ exists l, m_literals !! pos = Some l /\ (inside < length l)%nat.
Definition remaining (pos inside : nat) : nat := length (concat (drop pos m_literals)) - inside.
(** The result is not short of fuel and leaves fewer than [n] characters. *)
Definition within {A} (n : nat) (r : result A) : Prop :=
  match r with Ok _ pos inside => inside_ok pos inside /\ (remaining pos inside < n)%nat | SemVerError => True | NoFuel => False end.

Lemma within_bind {A B} n k (r : result A) (f : A -> nat -> nat -> result B) : within n r ->
  (forall a pos inside, inside_ok pos inside -> (remaining pos inside < n)%nat -> within k (f a pos inside)) -> within k (bind r f).
Proof. destruct r as [a pos inside | |]; cbn; [| done | done]. intros [H1 H2] Hf. by apply Hf. Qed.
Lemma within_mono {A} n k (r : result A) : within n r -> (n <= k)%nat -> within k r.
Proof. destruct r; cbn; [| done | done]. intros [H1 H2] Hk. split; [done | lia]. Qed.

Lemma remaining_next pos inside : inside_ok pos inside -> (remaining (S pos) 0 <= remaining pos inside)%nat.
Proof.
  unfold remaining. intros Hi. destruct (m_literals !! pos) as [l |] eqn:E.
  - rewrite (drop_S _ _ _ E). cbn [concat]. rewrite length_app. destruct Hi as [-> | (l' & E' & Hl)]; [lia |]. assert (l' = l) as -> by congruence. lia.
  - apply lookup_ge_None in E. rewrite !drop_ge by lia. cbn. lia.
Qed.
Lemma remaining_all pos inside : (remaining pos inside <= characters m_literals)%nat.
Proof.
  unfold remaining, characters. assert (length (concat (drop pos m_literals)) <= length (concat m_literals))%nat; [| lia].
  rewrite <- (take_drop pos m_literals) at 2. rewrite concat_app, length_app. lia.
Qed.
Lemma ok_start pos : inside_ok pos 0.
Proof. by left. Qed.

(** Reading a character. *)
Lemma nextChar_ok pos inside : inside_ok pos inside ->
  inside_ok (nextChar m_literals pos inside).1 (nextChar m_literals pos inside).2 /\
  (remaining (nextChar m_literals pos inside).1 (nextChar m_literals pos inside).2 <= remaining pos inside)%nat /\
  (currentChar m_literals pos inside <> 255%Z ->
   remaining (nextChar m_literals pos inside).1 (nextChar m_literals pos inside).2 < remaining pos inside)%nat.
Proof.
  intros Hi. unfold nextChar, currentChar. destruct (m_literals !! pos) as [l |] eqn:E.
  - assert (Hr : forall i, remaining pos i = (length l + length (concat (drop (S pos) m_literals)) - i)%nat).
    { intros i. unfold remaining. rewrite (drop_S _ _ _ E). cbn [concat]. by rewrite length_app. }
    assert (Hl : (inside = 0 \/ inside < length l)%nat) by (destruct Hi as [| (l' & E' & Hl)]; [by left | right; congruence]).
    cbn [mbind option_bind]. destruct (Nat.leb_spec (length l) (inside + 1)); cbn [fst snd].
    + unfold remaining at 1 3. rewrite Hr. split_and!; [apply ok_start | lia |]. intros Hc.
      destruct (l !! inside) as [c |] eqn:Ec; [| done]. apply lookup_lt_Some in Ec. lia.
    + rewrite !Hr. split_and!; [right; exists l; split; [done | lia] | lia | lia].
  - cbn [fst snd]. split_and!; [done | lia | done].
Qed.

Lemma part_loop_total fuel start pos inside v : inside_ok pos inside -> (remaining pos inside <= fuel)%nat ->
  within (S (remaining pos inside)) (part_loop m_literals fuel start pos inside v).
Proof.
  revert pos inside v. induction fuel as [| fuel IH]; intros pos inside v Hi Hf; cbn [part_loop];
    destruct (_ && isdigit (currentChar m_literals pos inside)) eqn:E; try (split; [done | lia]).
  all: apply andb_prop in E as [_ E]; destruct (nextChar_ok pos inside Hi) as (H1 & H2 & H3);
    assert (currentChar m_literals pos inside <> 255) as Hc by (intros Ec; by rewrite Ec in E); specialize (H3 Hc).
  - lia.
  - destruct (_ || _); [done |]. destruct (nextChar m_literals pos inside) as [pos' inside']. cbn [fst snd] in *.
    eapply within_mono; [apply IH; [done | lia] | lia].
Qed.
Lemma parseVersionPart_total pos inside : inside_ok pos inside -> within (remaining pos inside) (parseVersionPart m_literals pos inside).
Proof.
  intros Hi. unfold parseVersionPart. cbv zeta. destruct (nextChar_ok pos inside Hi) as (H1 & H2 & H3).
  destruct (nextChar m_literals pos inside) as [pos' inside']. cbn [fst snd] in *.
  destruct (_ || _) eqn:E1; [cbn; split; [done |]; apply H3; intros E; by rewrite E in E1 |].
  destruct (Z.eqb_spec (currentChar m_literals pos inside) 48) as [E2 | _]; [cbn; split; [done |]; rewrite E2 in H3; by apply H3 |].
  destruct (_ && _) eqn:E3; [| done]. specialize (H3 ltac:(intros E; by rewrite E in E3)).
  eapply within_mono; [apply part_loop_total; [done | apply remaining_all] | lia].
Qed.
Lemma levels_loop_total n pos inside : inside_ok pos inside -> (0 < n)%nat -> within (remaining pos inside) (levels_loop m_literals n pos inside).
Proof.
  revert pos inside. induction n as [| n IH]; intros pos inside Hi Hn; [lia |]. cbn [levels_loop].
  eapply within_bind; [by apply parseVersionPart_total |]. intros v pos1 inside1 Hi1 Hr1. destruct (_ =? 46); [| cbn; split; [done | lia]].
  destruct (nextChar_ok pos1 inside1 Hi1) as (H1 & H2 & _). destruct (nextChar m_literals pos1 inside1) as [pos2 inside2]. cbn [fst snd] in *.
  destruct n as [| n]; [cbn; split; [done | lia] |]. eapply within_bind; [apply IH; [done | lia] |]. intros l pos3 inside3 Hi3 Hr3. cbn. split; [done | lia].
Qed.
Lemma parseMatchComponent_total pos inside : inside_ok pos inside ->
  within (remaining pos inside) (parseMatchComponent m_tokens m_literals pos inside).
Proof.
  intros Hi. unfold parseMatchComponent. cbv zeta. destruct (is_prefix (currentToken m_tokens pos)).
  - pose proof (remaining_next pos inside Hi). eapply within_bind; [apply (levels_loop_total 3 (S pos) 0 (ok_start _)); lia |].
    intros l pos1 inside1 Hi1 Hr1. cbn. split; [done | lia].
  - eapply within_bind; [apply (levels_loop_total 3 pos inside Hi); lia |]. intros l pos1 inside1 Hi1 Hr1. cbn. split; [done | lia].
Qed.
Lemma components_loop_total fuel pos inside : inside_ok pos inside -> (remaining pos inside < fuel)%nat ->
  within (S (remaining pos inside)) (components_loop m_tokens m_literals fuel pos inside).
Proof.
  revert pos inside. induction fuel as [| fuel IH]; intros pos inside Hi Hf; [lia |]. cbn [components_loop]. destruct (_ || _); [split; [done | lia] |].
  eapply within_bind; [by apply parseMatchComponent_total |]. intros c pos1 inside1 Hi1 Hr1.
  eapply within_bind; [apply IH; [done | lia] |]. intros l pos2 inside2 Hi2 Hr2. cbn. split; [done | lia].
Qed.
Lemma parseMatchExpression_total pos inside : inside_ok pos inside ->
  within (remaining pos inside) (parseMatchExpression m_tokens m_literals pos inside).
Proof.
  intros Hi. unfold parseMatchExpression. eapply within_bind; [by apply parseMatchComponent_total |]. intros c pos1 inside1 Hi1 Hr1. case_bool_decide.
  - pose proof (remaining_next pos1 inside1 Hi1). eapply within_bind; [apply parseMatchComponent_total, ok_start |].
    intros d pos2 inside2 Hi2 Hr2. cbn. split; [done | lia].
  - pose proof (remaining_all pos1 inside1). eapply within_bind; [apply components_loop_total; [done | lia] |]. intros l pos2 inside2 Hi2 Hr2. cbn. split; [done | lia].
Qed.
Lemma parse_loop_total fuel pos inside : inside_ok pos inside -> (remaining pos inside < fuel)%nat ->
  within (S (remaining pos inside)) (parse_loop m_tokens m_literals fuel pos inside).
Proof.
  revert pos inside. induction fuel as [| fuel IH]; intros pos inside Hi Hf; [lia |]. cbn [parse_loop].
  eapply within_bind; [by apply parseMatchExpression_total |]. intros r pos1 inside1 Hi1 Hr1. destruct (_ <=? _)%nat; [cbn; split; [done | lia] |].
  case_bool_decide; [| done]. pose proof (remaining_next pos1 inside1 Hi1). eapply within_bind; [apply IH; [apply ok_start | lia] |].
  intros l pos2 inside2 Hi2 Hr2. cbn. split; [done | lia].
Qed.
Lemma parse_total : is_Some (parse m_tokens m_literals).
Proof.
  pose proof (remaining_all 0 0). pose proof (parse_loop_total (S (characters m_literals)) 0 0 (ok_start 0) ltac:(lia)) as Hp.
  unfold parse. destruct (parse_loop m_tokens m_literals (S (characters m_literals)) 0 0); [by eexists | by eexists | done].
Qed.
End Total.

(** ** What an expression matches *)

(** The prefixes that a parsed component can have. *)
Definition prefix_ok (c : MatchComponent) : Prop := is_prefix (prefix c) = true.
Definition all_ok {A} (P : A -> Prop) (r : result A) : Prop := match r with Ok a _ _ => P a | _ => True end.
Lemma all_bind {A B} (P : A -> Prop) (Q : B -> Prop) r (f : A -> nat -> nat -> result B) : all_ok P r ->
  (forall a pos inside, P a -> all_ok Q (f a pos inside)) -> all_ok Q (bind r f).
Proof. destruct r; cbn; auto. Qed.

Section Prefixes.
Context (m_tokens : list Token.Value) (m_literals : list (list Z)).
Lemma parseMatchComponent_prefix pos inside : all_ok prefix_ok (parseMatchComponent m_tokens m_literals pos inside).
Proof.
  unfold parseMatchComponent. cbv zeta. destruct (is_prefix (currentToken m_tokens pos)) eqn:E.
  all: apply (all_bind (fun _ => True)); [by destruct (levels_loop _ _ _ _) |]; intros l pos1 inside1 _; done.
Qed.
Lemma components_loop_prefix fuel pos inside : all_ok (Forall prefix_ok) (components_loop m_tokens m_literals fuel pos inside).
Proof.
  revert pos inside. induction fuel as [| fuel IH]; intros pos inside; cbn [components_loop]; destruct (_ || _); try done; [constructor | constructor |].
  eapply all_bind; [apply parseMatchComponent_prefix |]. intros c pos1 inside1 Hc. eapply all_bind; [apply IH |]. intros l pos2 inside2 Hl. by constructor.
Qed.
Lemma parseMatchExpression_prefix pos inside : all_ok (Forall prefix_ok) (parseMatchExpression m_tokens m_literals pos inside).
Proof.
  unfold parseMatchExpression. eapply all_bind; [apply parseMatchComponent_prefix |]. intros c pos1 inside1 Hc. case_bool_decide.
  - eapply all_bind; [apply parseMatchComponent_prefix |]. intros d pos2 inside2 Hd. by repeat constructor.
  - eapply all_bind; [apply components_loop_prefix |]. intros l pos2 inside2 Hl. by constructor.
Qed.
Lemma parse_loop_prefix fuel pos inside : all_ok (Forall (Forall prefix_ok)) (parse_loop m_tokens m_literals fuel pos inside).
Proof.
  revert pos inside. induction fuel as [| fuel IH]; intros pos inside; cbn [parse_loop]; [done |].
  eapply all_bind; [apply parseMatchExpression_prefix |]. intros r pos1 inside1 Hr. destruct (_ <=? _)%nat; [by repeat constructor |].
  case_bool_decide; [| done]. eapply all_bind; [apply IH |]. intros l pos2 inside2 Hl. by constructor.
Qed.
End Prefixes.

(** Matching a parsed expression does not fail. *)
Lemma component_matches_total c v : prefix_ok c -> is_Some (component_matches c v).
Proof.
  intros Hp. unfold component_matches. cbv zeta. assert (H1 : forall t n, match t with Token.Assign | Token.LessThan | Token.LessThanOrEqual | Token.GreaterThan | Token.GreaterThanOrEqual => True | _ => False end ->
    is_Some (matches_plain (mkComponent t (version c) n) v)).
  { intros t n Ht. unfold matches_plain. cbn [levelsPresent numbers version prefix]. destruct (compare_levels _ _ _). destruct t; try done; by eexists. }
  destruct c as [t w n]. unfold prefix_ok in Hp. cbn [prefix version levelsPresent] in *. unfold with_prefix. cbn [version].
  destruct t; try done; try (by apply H1).
  all: destruct (H1 Token.GreaterThanOrEqual n I) as [b Hb]; rewrite Hb; cbn [mbind option_bind]; destruct b; [by apply H1 | by eexists].
Qed.
Lemma expression_matches e v : Forall (Forall prefix_ok) (m_disjunction e) -> is_Some (matches e v).
Proof.
  unfold matches. assert (Hc : forall r, Forall prefix_ok r -> is_Some (conjunction_matches r v)).
  { induction 1 as [| c r Hc Hr IH]; cbn [conjunction_matches]; [by eexists |]. destruct (component_matches_total c v Hc) as [b ->]. cbn [mbind option_bind].
    destruct b; [done | by eexists]. }
  induction 1 as [| r l Hr Hl IH]; cbn [disjunction_matches]; [by eexists |]. destruct (Hc r Hr) as [b ->]. cbn [mbind option_bind].
  destruct b; [by eexists | done].
Qed.
Lemma parse_matches ts ls v : exists e, parse ts ls = Some e /\ is_Some (matches e v).
Proof.
  destruct (parse_total ts ls) as [e He]. exists e. split; [done |]. apply expression_matches. unfold parse in He.
  pose proof (parse_loop_prefix ts ls (S (characters ls)) 0 0) as Hp. destruct (parse_loop ts ls _ 0 0); [| | done]; injection He as <-; [done | constructor].
Qed.

(** *** Carets *)

(** The version is the given one or a later one; a prerelease comes before its version. *)
Definition at_least (x y z : Z) (v : SemVerVersion) : Prop :=
  match numbers v with
  | [a; b; c] => x < a \/ x = a /\ (y < b \/ y = b /\ (z < c \/ z = c /\ prerelease v = []))
  | _ => False
  end.
(** It is compatible with it: the first number is the same, and the second one too while the first is zero. *)
Definition compatible (x y z : Z) (v : SemVerVersion) : Prop :=
  at_least x y z v /\ match numbers v with [a; b; c] => a = x /\ (x = 0 -> b = y) | _ => False end.
Definition small (n : Z) : Prop := 0 <= n < 2 ^ 31.

Lemma difference a b : small a -> small b -> sgn 32 (wrap 32 (a - b)) = a - b.
Proof. intros Ha Hb. unfold small in *. apply to_int_small; lia. Qed.
Lemma not_wild y : small y -> (y =? 2 ^ 32 - 1) = false.
Proof. intros Hy. apply Z.eqb_neq. unfold small in Hy. lia. Qed.
Lemma compare_levels_step n x y a b : small x -> small y ->
  compare_levels (S n) (x :: a) (y :: b) = if x =? y then ((compare_levels n a b).1, true) else (x - y, true).
Proof.
  intros Hx Hy. cbn [compare_levels]. rewrite not_wild, difference by done. cbv zeta.
  destruct (Z.eqb_spec (x - y) 0), (Z.eqb_spec x y); try done; lia.
Qed.

Lemma caret_matches x y z v a b c : small x -> small y -> small z -> numbers v = [a; b; c] -> Forall small [a; b; c] ->
  exists r, component_matches (mkComponent Token.BitXor (mkVersion [x; y; z] [] []) 3) v = Some r /\ (r = true <-> compatible x y z v).
Proof.
  intros Hx Hy Hz Hv Hs. repeat (apply list.Forall_cons in Hs as [? Hs]).
  unfold component_matches, matches_plain, with_prefix, compatible, at_least. cbn [levelsPresent numbers version prefix]. rewrite Hv.
  change ([x; y; z] !! 0%nat) with (Some x). cbn [default from_option id].
  assert (Hp : bool_decide (prerelease v = []) = true <-> prerelease v = []) by apply bool_decide_eq_true.
  destruct (bool_decide (prerelease v = [])).
  all: destruct (x =? 0) eqn:E0; rewrite !compare_levels_step by done; cbn [compare_levels];
    destruct (Z.eqb_spec a x), (Z.eqb_spec b y), (Z.eqb_spec c z); cbn [fst snd mbind option_bind andb negb].
  all: repeat (case_match; cbn [fst snd mbind option_bind andb negb] in *).
  all: eexists; (split; [reflexivity |]).
  all: try (split; [intros; lia | intros; intuition lia]).
  all: assert (prerelease v = []) as Hn by tauto; rewrite Hn; split; [intros _; intuition lia | done].
Qed.

(** ** Pragma directives *)

Section Pragma.
Context `{!LexicalCast}.

(** [ParserBase::expectToken]; [None] is a fatal error of the parser. *)
Definition expectToken (t : Token.Value) (s : Scanner) : option Scanner :=
  if bool_decide (token (m_currentToken s) = t) then next s else None.

(** What the loop of [parsePragmaDirective] keeps of a token. *)
Definition pragma_literal (d : TokenDesc) : list Z :=
  match literal d, Token.toString (token d) with [], Some name => name | l, _ => l end.
(** The loop: the tokens and literals, and whether an illegal token was reported. *)
Fixpoint pragma_loop (fuel : nat) (s : Scanner) : option (list Token.Value * list (list Z) * bool * Scanner) :=
  match fuel with
  | 0%nat => None
  | S fuel =>
      let d := m_currentToken s in
      let illegal := bool_decide (token d = Token.Illegal) in
      let '(ts, ls) := if illegal then ([], []) else ([token d], [pragma_literal d]) in
      s ← next s;
      if bool_decide (token (m_currentToken s) = Token.Semicolon) || bool_decide (token (m_currentToken s) = Token.EOS) then Some (ts, ls, illegal, s)
      else '(ts', ls', error, s) ← pragma_loop fuel s; Some (ts ++ ts', ls ++ ls', illegal || error, s)
  end.
Definition parsePragmaDirective (s : Scanner) : option (list Token.Value * list (list Z) * bool * Scanner) :=
  s ← expectToken Token.Pragma s;
  '(ts, ls, error, s) ← pragma_loop (2 + length (m_source s)) s;
  s ← expectToken Token.Semicolon s; Some (ts, ls, error, s).
End Pragma.

(** [SyntaxChecker::visit(PragmaDirective)] for a compiler with a version string. *)
Inductive Verdict := UnknownPragma | DifferentVersion | Accepted.
Definition visit_pragma (VersionString : list Z) (ts : list Token.Value) (ls : list (list Z)) : option Verdict :=
  match ts, ls with
  | t :: ts, l :: ls =>
      if negb (length ts =? length ls)%nat then None
      else if negb (bool_decide (t = Token.Identifier)) || negb (bool_decide (l = js "solidity")) then Some UnknownPragma
      else
        e ← parse ts ls; v ← parse_version VersionString; b ← matches e v;
        Some (if (b : bool) then Accepted else DifferentVersion)
  | _, _ => None
  end.

(** *** A pragma with a caret *)

Definition caret_source (x y z : Z) : list Z :=
  js "pragma solidity ^" ++ decimal x ++ [46] ++ decimal y ++ [46] ++ decimal z ++ js ";".

Lemma decimal_plain n : small n -> forallb isdigit (decimal n) = true /\ match decimal n with [] => False | 48 :: _ :: _ => False | _ => True end.
Proof.
  intros [Hn _]. destruct (decimal_spec n Hn) as (Hv & Hd & Hne). split; [done |]. destruct (Z.eq_dec n 0) as [-> |]; [done |].
  destruct (decimal_head n ltac:(lia)) as (c & l & -> & Hc). destruct c as [| p | p]; try lia. repeat (destruct p as [p | p |]; try done; try lia).
Qed.

(** Reading a number out of a literal. *)
Section Part.
Context (m_literals : list (list Z)) (pos : nat).
(** The position behind a part of the literal of which [rest] is left. *)
Definition behind (part rest : list Z) : nat * nat := match rest with [] => (S pos, 0%nat) | _ => (pos, length part) end.

Lemma nextChar_behind part c rest : m_literals !! pos = Some (part ++ c :: rest) ->
  currentChar m_literals pos (length part) = c /\ nextChar m_literals pos (length part) = behind (part ++ [c]) rest.
Proof.
  intros E. unfold currentChar, nextChar, behind. rewrite E. cbn [mbind option_bind]. rewrite list_lookup_middle by done. split; [done |].
  rewrite !length_app. cbn [length]. destruct rest as [| r rest]; cbn [length].
  - by rewrite (proj2 (Nat.leb_le _ _)) by lia.
  - rewrite (proj2 (Nat.leb_gt _ _)) by lia. f_equal. lia.
Qed.

Lemma part_loop_reads fuel part ds post v : m_literals !! pos = Some (part ++ ds ++ post) -> forallb isdigit ds = true ->
  match post with c :: _ => isdigit c = false | [] => True end -> 0 <= v -> number_from v ds < 2 ^ 32 -> (length ds <= fuel)%nat ->
  part_loop m_literals fuel pos (behind part (ds ++ post)).1 (behind part (ds ++ post)).2 v =
  Ok (number_from v ds) (behind (part ++ ds) post).1 (behind (part ++ ds) post).2.
Proof.
  revert part ds v. induction fuel as [| fuel IH]; intros part ds v E Hd Hp Hv Hn Hf.
  all: destruct ds as [| c ds]; [| try (cbn in Hf; lia)].
  1, 2: rewrite app_nil_r; cbn [app] in *; destruct post as [| c post]; cbn [part_loop behind fst snd];
    [by rewrite (proj2 (Nat.eqb_neq (S pos) pos)) by lia |]; destruct (nextChar_behind part c post E) as [-> _]; by rewrite Hp, andb_false_r.
  cbn [forallb] in Hd. apply andb_prop in Hd as [Hc Hd]. cbn [app] in E |- *. destruct (nextChar_behind part c (ds ++ post) E) as [E1 E2].
  cbn [behind fst snd part_loop]. rewrite E1, E2, Nat.eqb_refl, Hc. cbn [andb]. unfold isdigit in Hc.
  change (number_from v (c :: ds)) with (number_from (v * 10 + (c - 48)) ds) in *. pose proof (number_from_ge (v * 10 + (c - 48)) ds ltac:(lia) Hd) as Hge.
  rewrite (wrap_small 32 (v * 10)) by (unfold inw; lia). rewrite (wrap_small 32 (v * 10 + (c - 48))) by (unfold inw; lia).
  rewrite (proj2 (Z.ltb_ge (v * 10) v)), (proj2 (Z.ltb_ge (v * 10 + (c - 48)) (v * 10))) by lia. cbn [orb].
  replace (v * 10 + c - 48) with (v * 10 + (c - 48)) by lia. rewrite (wrap_small 32 (v * 10 + (c - 48))) by (unfold inw; lia).
  specialize (IH (part ++ [c]) ds (v * 10 + (c - 48))). rewrite <- !app_assoc in IH. cbn [app] in IH.
  destruct (behind (part ++ [c]) (ds ++ post)) as [p1 i1]. cbn [fst snd] in IH. apply IH; [done | done | done | lia | done | cbn in Hf; lia].
Qed.

Lemma parseVersionPart_reads part n post : m_literals !! pos = Some (part ++ decimal n ++ post) -> small n ->
  match post with c :: _ => isdigit c = false | [] => True end ->
  parseVersionPart m_literals pos (length part) = Ok n (behind (part ++ decimal n) post).1 (behind (part ++ decimal n) post).2.
Proof.
  intros E Hn Hp. unfold parseVersionPart. cbv zeta. destruct (Z.eq_dec n 0) as [-> | Hn0].
  - change (decimal 0) with [48] in *. cbn [app] in E. destruct (nextChar_behind part 48 post E) as [-> ->]. by destruct (behind (part ++ [48]) post).
  - unfold small in Hn. destruct (decimal_head n ltac:(lia)) as (c & l & El & Hc). destruct (decimal_spec n ltac:(lia)) as (Hv & Hd & _). rewrite El in *. cbn [app] in E.
    cbn [forallb] in Hd. apply andb_prop in Hd as [_ Hd]. destruct (nextChar_behind part c (l ++ post) E) as [-> ->].
    destruct (behind (part ++ [c]) (l ++ post)) as [p1 i1] eqn:Eb.
    rewrite (proj2 (Z.eqb_neq c 120)), (proj2 (Z.eqb_neq c 88)), (proj2 (Z.eqb_neq c 42)), (proj2 (Z.eqb_neq c 48)) by lia. cbn [orb].
    rewrite (proj2 (Z.leb_le 49 c)), (proj2 (Z.leb_le c 57)) by lia. cbn [andb].
    change (number (c :: l)) with (number_from (0 * 10 + (c - 48)) l) in Hv. rewrite Z.mul_0_l, Z.add_0_l in Hv.
    pose proof (part_loop_reads (characters m_literals) (part ++ [c]) l post (c - 48)) as Hr. rewrite Eb, Hv, <- !app_assoc in Hr. cbn [app fst snd] in Hr.
    apply Hr; [done | done | done | lia | lia |].
    unfold characters. rewrite <- (take_drop_middle m_literals pos _ E), concat_app, length_app. cbn [concat]. rewrite !length_app. cbn [length]. rewrite length_app. lia.
Qed.
End Part.

(** The parts of a version in two literals, as the scanner cuts it. *)
Lemma behind_decimal pos part n : 0 <= n -> behind pos part (decimal n) = (pos, length part).
Proof. intros Hn. destruct (decimal_spec n Hn) as (_ & _ & Hd). unfold behind. by destruct (decimal n). Qed.
Lemma caret_levels x y z (ls := [[94]; decimal x ++ 46 :: decimal y; 46 :: decimal z]) : small x -> small y -> small z ->
  levels_loop ls 3 1 0 = Ok [x; y; z] 3 0.
Proof.
  intros Hx Hy Hz.
  pose proof (parseVersionPart_reads ls 1 [] x (46 :: decimal y) eq_refl Hx eq_refl) as P1.
  pose proof (parseVersionPart_reads ls 1 (decimal x ++ [46]) y []) as P2. rewrite app_nil_r, <- app_assoc in P2. specialize (P2 eq_refl Hy I).
  pose proof (parseVersionPart_reads ls 2 [46] z []) as P3. rewrite app_nil_r in P3. specialize (P3 eq_refl Hz I).
  destruct (nextChar_behind ls 1 (decimal x) 46 (decimal y) eq_refl) as [C1 N1]. rewrite behind_decimal in N1 by apply Hy.
  destruct (nextChar_behind ls 2 [] 46 (decimal z) eq_refl) as [C2 N2]. rewrite behind_decimal in N2 by apply Hz.
  cbn [behind length fst snd app] in P1, P2, P3, C2, N2. change (levels_loop ls 3 1 0) with (bind (parseVersionPart ls 1 0) (fun v pos inside =>
    if currentChar ls pos inside =? 46 then let '(pos, inside) := nextChar ls pos inside in bind (levels_loop ls 2 pos inside) (fun l pos inside => Ok (v :: l) pos inside)
    else Ok [v] pos inside)).
  rewrite P1. cbn [bind]. rewrite C1, N1. cbn [Z.eqb Pos.eqb levels_loop]. rewrite P2. cbn [bind]. rewrite C2, N2. cbn [Z.eqb Pos.eqb]. rewrite P3. reflexivity.
Qed.
Lemma caret_parses x y z : small x -> small y -> small z ->
  parse [Token.BitXor; Token.Number; Token.Number] [[94]; decimal x ++ 46 :: decimal y; 46 :: decimal z] =
  Some (mkExpression [[mkComponent Token.BitXor (mkVersion [x; y; z] [] []) 3]]).
Proof.
  intros Hx Hy Hz. set (ls := [[94]; decimal x ++ 46 :: decimal y; 46 :: decimal z]). set (ts := [Token.BitXor; Token.Number; Token.Number]).
  set (c := mkComponent Token.BitXor (mkVersion [x; y; z] [] []) 3).
  assert (Hc : parseMatchComponent ts ls 0 0 = Ok c 3 0).
  { unfold parseMatchComponent. change (currentToken ts 0) with Token.BitXor. cbv zeta. cbn [is_prefix].
    pose proof (caret_levels x y z Hx Hy Hz) as Hl. cbv zeta in Hl. fold ls in Hl. by rewrite Hl. }
  assert (He : parseMatchExpression ts ls 0 0 = Ok [c] 3 0) by (unfold parseMatchExpression; rewrite Hc; reflexivity).
  unfold parse. cbn [parse_loop]. rewrite He. reflexivity.
Qed.

(** The tokens of the pragma. *)
Lemma caret_written `{!LexicalCast} x y z : small x -> small y -> small z ->
  written (caret_source x y z) [meaning (Word (js "pragma")); meaning (Word (js "solidity")); (Token.BitXor, []);
    (Token.Number, decimal x ++ 46 :: decimal y); (Token.Number, 46 :: decimal z); (Token.Semicolon, [])].
Proof.
  intros Hx Hy Hz. destruct (decimal_plain x Hx) as [Dx Zx], (decimal_plain y Hy) as [Dy Zy], (decimal_plain z Hz) as [Dz Zz].
  unfold caret_source. change (js "pragma solidity ^" ++ decimal x ++ [46] ++ decimal y ++ [46] ++ decimal z ++ js ";")
    with (text (Word (js "pragma")) ++ 32 :: text (Word (js "solidity")) ++ 32 :: text (Sym Token.BitXor) ++ decimal x ++ [46] ++ decimal y ++ [46] ++ decimal z ++ js ";").
  assert (Hs : forall t, In t (fst <$> symbols) -> valid (Sym t)) by done.
  apply written_lexeme; [split; [by split | discriminate] | done |]. apply written_space; [done |].
  apply written_lexeme; [split; [by split | discriminate] | done |]. apply written_space; [done |].
  apply (written_lexeme (Sym Token.BitXor)); [vm_compute; tauto | |].
  { cbn [fits]. change (continued Token.BitXor) with [61]. destruct (decimal x) as [| c l]; [done |]. cbn [forallb] in Dx. apply andb_prop in Dx as [Dx _].
    unfold isdigit in Dx. cbn. lia. }
  replace (decimal x ++ [46] ++ decimal y ++ [46] ++ decimal z ++ js ";")
    with (text (Num (decimal x) (Some (decimal y))) ++ text (Frac (decimal z)) ++ text (Sym Token.Semicolon) ++ []) by (cbn [text app]; by rewrite <- !app_assoc).
  apply (written_lexeme (Num (decimal x) (Some (decimal y)))); [by split_and! | done |].
  apply (written_lexeme (Frac (decimal z))); [split; [by destruct (decimal z) | done] | done |].
  apply (written_lexeme (Sym Token.Semicolon)); [vm_compute; tauto | by cbn; tauto | constructor].
Qed.

(** The directive of a pragma that was written with tokens of the language. *)
Definition spelled (m : Token.Value * list Z) : list Z := match m.2, Token.toString m.1 with [], Some name => name | l, _ => l end.
Definition inner (m : Token.Value * list Z) : Prop := m.1 <> Token.Illegal /\ m.1 <> Token.Semicolon /\ m.1 <> Token.EOS.

Lemma spelled_literal t l : l <> [] -> spelled (t, l) = l.
Proof. by destruct l. Qed.
Lemma caret_spelled x y z :
  spelled <$> [(Token.Identifier, js "solidity"); (Token.BitXor, []); (Token.Number, decimal x ++ 46 :: decimal y); (Token.Number, 46 :: decimal z)] =
  [js "solidity"; [94]; decimal x ++ 46 :: decimal y; 46 :: decimal z].
Proof.
  cbn [fmap list_fmap]. rewrite (spelled_literal Token.Number (decimal x ++ 46 :: decimal y)); [reflexivity |]. intros E. by apply app_eq_nil in E as [_ ?].
Qed.

Section Directive.
Context `{!LexicalCast}.

Lemma pragma_loop_written fuel s m ts rest : wf s -> desc (m_currentToken s) = m -> ahead s (ts ++ (Token.Semicolon, []) :: rest) ->
  Forall inner (m :: ts) -> (length ts < fuel)%nat ->
  exists s', pragma_loop fuel s = Some (fst <$> m :: ts, spelled <$> m :: ts, false, s') /\ wf s' /\
    token (m_currentToken s') = Token.Semicolon /\ ahead s' rest.
Proof.
  revert s m ts. induction fuel as [| fuel IH]; intros s m ts Hw Hm Ha Hi Hf; [lia |].
  apply list.Forall_cons in Hi as [[Hm1 _] Hi]. destruct (next_ahead s _ Ha Hw) as (s1 & Es & Hw1 & Ec & Ha1).
  assert (Hd : forall k ks, ahead s (k :: ks) -> desc (m_currentToken s1) = k) by (intros k ks Hk; rewrite Ec; apply Hk).
  cbn [pragma_loop]. change (pragma_literal (m_currentToken s)) with (spelled (desc (m_currentToken s))). rewrite Hm.
  assert (token (m_currentToken s) = m.1) as -> by (by rewrite <- Hm). rewrite bool_decide_eq_false_2 by done. rewrite Es. cbn [mbind option_bind].
  destruct ts as [| k ts]; cbn [app] in *; specialize (Hd _ _ Ha).
  - assert (token (m_currentToken s1) = Token.Semicolon) as E by (by injection Hd). rewrite E. exists s1. by split_and!.
  - pose proof Hi as Hi'. apply list.Forall_cons in Hi' as [(_ & Hk1 & Hk2) _]. assert (token (m_currentToken s1) = k.1) as E by (by rewrite <- Hd).
    rewrite E, !bool_decide_eq_false_2 by done. cbn [orb].
    destruct (IH s1 k ts Hw1 Hd Ha1 Hi) as (s' & -> & Hs); [cbn in Hf; lia |]. exists s'. split; [done | exact Hs].
Qed.

Lemma parsePragmaDirective_written s m ts rest : wf s -> desc (m_currentToken s) = (Token.Pragma, js "pragma") ->
  ahead s (m :: ts ++ (Token.Semicolon, []) :: rest) -> Forall inner (m :: ts) -> (length ts <= length (m_source s))%nat ->
  exists s', parsePragmaDirective s = Some (fst <$> m :: ts, spelled <$> m :: ts, false, s').
Proof.
  intros Hw Hp Ha Hi Hl. destruct (next_ahead s _ Ha Hw) as (s1 & Es & Hw1 & Ec & Ha1). destruct Ha as [Hm _].
  destruct (next_total s Hw) as (s1' & Es' & _ & Hsrc & _). assert (s1' = s1) as -> by congruence.
  assert (Hd : desc (m_currentToken s1) = m) by (by rewrite Ec).
  destruct (pragma_loop_written (2 + length (m_source s1)) s1 m ts rest Hw1 Hd Ha1 Hi) as (s2 & E2 & Hw2 & Ht2 & Ha2); [rewrite Hsrc; lia |].
  destruct (next_ahead s2 rest Ha2 Hw2) as (s3 & E3 & _). exists s3. unfold parsePragmaDirective, expectToken.
  rewrite bool_decide_eq_true_2 by (by injection Hp). rewrite Es. cbn [mbind option_bind]. rewrite E2. cbn [mbind option_bind].
  rewrite bool_decide_eq_true_2 by done. rewrite E3. reflexivity.
Qed.
End Directive.

Lemma parse_version_numbers l v : parse_version l = Some v -> exists a b c, numbers v = [a; b; c].
Proof.
  unfold parse_version. repeat (case_match; try done; cbn [mbind option_bind]). all: intros [= <-]; by eexists _, _, _.
Qed.

Section Correct.
Context `{!LexicalCast}.

Lemma visit_caret x y z VersionString v : small x -> small y -> small z -> parse_version VersionString = Some v -> Forall small (numbers v) ->
  exists r, visit_pragma VersionString [Token.Identifier; Token.BitXor; Token.Number; Token.Number]
    [js "solidity"; [94]; decimal x ++ 46 :: decimal y; 46 :: decimal z] = Some r /\
  (r = Accepted <-> compatible x y z v) /\ (r = DifferentVersion <-> ~ compatible x y z v).
Proof.
  intros Hx Hy Hz Hv Hs. destruct (parse_version_numbers _ _ Hv) as (a & b & c & En). rewrite En in Hs.
  destruct (caret_matches x y z v a b c Hx Hy Hz En Hs) as (r & Er & Hr). unfold visit_pragma. cbn [length Nat.eqb negb].
  rewrite !bool_decide_eq_true_2 by done. cbn [negb orb]. rewrite caret_parses by done. cbn [mbind option_bind]. rewrite Hv. cbn [mbind option_bind].
  unfold matches. cbn [m_disjunction disjunction_matches conjunction_matches]. rewrite Er. cbn [mbind option_bind].
  exists (if r then Accepted else DifferentVersion). destruct r; cbn; (split; [done |]); rewrite <- Hr; split; split; try done; naive_solver.
Qed.

End Correct.

Lemma develop_compatible : compatible 0 4 9 (mkVersion [0; 4; 15] (js "develop") (js "commit.1")).
Proof. split; [right; split; [reflexivity |]; right; split; [reflexivity |]; left; lia | split; reflexivity]. Qed.

(** The check for an overflow of a number misses some: 5000000000 is read as 705032704. *)
Lemma overflow_missed : parse [Token.Number] [js "5000000000.1"] = Some (mkExpression [[mkComponent Token.Assign (mkVersion [705032704; 1; 0] [] []) 2]]).
Proof. reflexivity. Qed.
